(* ===== verification/_CoqProject ===== *)
-Q . S2P
Prelude.v
GoBig.v
ModArith.v
Sha256.v
ByteConversion.v
ByteBuf.v
Rlp.v
RlpTheorems.v
RlpStream.v
RlpDecode.v
ZkValidator.v
ZkArith.v
ZkProver.v
ZkRefine.v
ZkSpec.v
ZkTheorems.v
Jacobian.v
Bn256Field.v
Bn256Tower.v
Bn256Curve.v
Bn256Twist.v
Bn256Frobenius.v
Bn256Pairing.v
Bn256Group.v
Bn256Theorems.v
VmCommon.v
Params.v
CommonTypes.v
Sha3.v
Sha3Spec.v
TrieNode.v
TrieOps.v
TrieHash.v
TrieSecure.v
TrieSpec.v
TrieRefine.v
TrieMerkle.v
TrieStore.v
TrieContents.v
TrieTheorems.v
TrieProof.v
VmContract.v
Precompiles.v
PrecompileTheorems.v
PrecompileCurves.v
VmMemory.v
VmOpcodes.v
VmState.v
CoreState.v
VmGas.v
VmOps.v
VmJumpTable.v
VmInterp.v
VmHoare.v
VmTermination.v
VmEvolve.v
CoreEvm.v
VmSample.v
VmLedger.v
VmSafety.v
VmSafeRun.v
StateLaws.v
StateSpec.v
StateLedger.v
CoreFinal.v
CoreDatabase.v
StateFinal.v
StateTrie.v
FinalTheorems.v
CommitTheorems.v
Sha3Theorems.v
StateTransition.v
CoreTypes.v
TypesTheorems.v
VmTheorems.v
VmSafeTheorems.v
TransitionTheorems.v
