(* ===== verification/Prelude.v ===== *)
(** * A verification library for zkrangeproof

    ** The program

    The repository is a fork of go-ethereum ([src/go-ethereum]) with one
    addition: a precompiled contract at address 9 that checks zero-knowledge
    range proofs (Boudot's protocol: a committed number lies between two public
    limits), together with a Java program ([src/src/main/java]) that makes the
    commitments and the proofs.  A proof is made and pre-checked in Java,
    written as comma-separated decimal numbers, sent in the call data of a
    transaction, cut out of it and parsed by the precompiled contract, and
    validated in Go.  The same table of precompiled contracts holds the
    elliptic-curve, hashing and exponentiation contracts of Ethereum.

    ** Files

    - [Prelude] (this file): outcomes ([Ret] or [Panic]) and results ([Ok] or
      [Err]) with their notations, machine integers, slices, bytes, loops, the
      tactics and hint databases of the library.
    - [GoBig]: [math/big] as the code uses it (bytes, bit lengths, [Exp],
      [GCD], [ModInverse], decimal strings).  [ModArith]: congruences as a
      setoid, units and powers with integer exponents, and Pocklington
      certificates of primality.  [Sha256]: SHA-256.
    - [ByteConversion]: package [byteconversion] ([conversion.go], [parse.go]).
      [ByteBuf]: writing and reading fixed-width numbers in byte buffers.
    - [ZkValidator]: package [zkrangeproof] ([zkp_validator.go]) as the module
      [zkrangeproof].  [ZkArith]: lemmas on it.  [ZkProver]: the Java prover and
      validator ([CFT], [HPAKESquare], [HPAKEEqualityConstraint],
      [ProofWithTolerance], [RangeProof], [RangeproofPacket]).  [ZkRefine]: the
      Go validator accepts what the Java one accepts.  [ZkSpec]: honest proofs
      pass the Java validator, and the verification equations.  [ZkTheorems]:
      the properties.
    - [Jacobian]: square-and-multiply and the Jacobian formulas over any
      commutative ring.  [Bn256Field], [Bn256Tower], [Bn256Curve], [Bn256Twist],
      [Bn256Frobenius], [Bn256Pairing], [Bn256Group], [Bn256Theorems]: package
      [crypto/bn256]: the fields, the curves, the pairing, the groups and their
      byte formats.
    - [VmCommon]: [common/bytes.go], [common/math], [core/vm/common.go].
      [Params]: package [params].  [CommonTypes]: [common/types.go].
      [VmContract]: [core/vm/contract.go].  [Precompiles]:
      [core/vm/contracts.go].  [PrecompileTheorems], [PrecompileCurves]: their
      properties.
    - [Rlp]: the encoder and the splitting of package [rlp].  [RlpStream]: its
      decoder, [rlp/decode.go].  [RlpTheorems], [RlpDecode]: their properties.
    - [TrieNode]: keys and nodes of package [trie] ([encoding.go], [node.go]).
      [TrieOps]: [trie.go].  [TrieHash]: [hasher.go], hashing and committing.
      [TrieSecure]: [secure_trie.go].  [TrieSpec]: tries without hashes, and the
      maps they are.  [TrieRefine]: the operations refine those of the map.
      [TrieMerkle]: encodings and root hashes.  [TrieStore]: hashing and
      committing against a store.  [TrieContents]: the methods over the contents
      of a trie.  [TrieTheorems]: the properties.  [TrieProof]: [proof.go],
      Merkle proofs, and their properties.
    - [Sha3]: package [crypto/sha3] ([keccakf.go], [sha3.go], [hashes.go],
      [shake.go], [xor_generic.go]), with [Keccak256] and [Keccak512] of
      [crypto.go].  [Sha3Spec]: the permutation of FIPS 202 on the bits of its
      state, and the sponge over any permutation.  [Sha3Theorems]: the
      properties.
    - [VmMemory], [VmOpcodes]: the data of the machine
      ([core/vm/stack.go], [memory.go], [opcodes.go], [analysis.go]).
      [VmState]: the interface [StateDB] and the state of a run.  [VmGas],
      [VmOps], [VmJumpTable], [VmInterp]: gas, instructions, instruction sets,
      interpreter and calls ([gas_table.go], [instructions.go],
      [jump_table.go], [interpreter.go], [evm.go]).  [VmHoare], [VmTermination],
      [VmEvolve], [VmLedger], [VmSafety], [VmSafeRun]: program
      logics and invariants of runs.  [VmSample]: an example.  [VmTheorems],
      [VmSafeTheorems]: the properties.
    - [CoreState]: package [core/state] as the machine uses it ([statedb.go],
      [state_object.go], [journal.go]).  [CoreFinal]: finalising, committing and
      copying.  [CoreDatabase]: [database.go] over the tries of package [trie].
      [CoreEvm]: transfers ([core/evm.go]).  [StateTransition]:
      [core/state_transition.go], [core/gaspool.go].  [StateLaws], [StateSpec],
      [StateLedger]: snapshots, the state as a map of accounts, balances.
      [StateFinal]: what finalising writes, for tries with the laws of a class.
      [StateTrie]: secure tries have the laws.  [FinalTheorems],
      [CommitTheorems], [TransitionTheorems]: the properties.
    - [CoreTypes]: package [core/types] ([transaction.go],
      [transaction_signing.go], [receipt.go], [log.go], [bloom9.go],
      [derive_sha.go], [block.go]).  [TypesTheorems]: the properties.

    Components meet at classes: the machine is written against [StateDB]
    ([VmState]), with the laws [VmLedger] asks for, which
    [StateLaws] and [StateLedger] discharge for [CoreState]; the state is written
    against [Trie] ([CoreState]) with the laws [TrieLaws] ([StateFinal]) and
    [TrieTotal] ([StateTrie]), which [StateTrie] discharges for secure tries.

    ** Conventions

    A [*big.Int] is a [Z]; a byte slice is a [list Z] whose elements are in
    [0, 256); a [uint64] or [int64] is a [Z] kept in range by the conversions
    [u64] and [i64] at every operation of the code that can leave it.  Go code
    that can panic (an index, a slice expression, a division by zero) is in the
    [outcome] type; a Go error is the [Err] of a [result].  Java exceptions are
    [None].  Random draws are arguments.  Objects the code mutates in place are
    returned as they are left.  A loop that is not structural takes fuel, with a
    lemma that the fuel given is enough ([FloorSquareRoot]: the bit length plus
    a constant; [ModInverse]: twice the bit length; [CheckCompatible]: the block
    height plus two; the interpreter: one more than the gas; a path in a trie:
    twice the nibbles of the key plus a constant, for the hashes on the way; a
    decoder: the bytes that are left).  A map that Go ranges over in no defined
    order is ranged over in the order of a parameter.

    ** What the theorems show

    - Range proofs: an honest packet for a number inside the range is produced,
      parsed and accepted, from the Java prover through the ABI encoding to the
      precompiled contract; the validator accepts exactly when the verification
      equations hold; what Java accepts Go accepts; the validator returns on
      every input; the expansion factor absorbs the tolerance of the protocol.
      Three flaws: a proof of zeros passes for every commitment, the caller's
      slice is overwritten, and one offset word makes the contract panic.
    - Encodings: two's complement and decimal lists round trip.
    - Curves: [P] is prime; the tower products, inverses, powers and Frobenius
      maps are those of the fields; the Jacobian operations compute the affine
      group law; [PairingCheck] computes the product of pairings; byte formats
      round trip.
    - Precompiled contracts: addition, scalar multiplication and modular
      exponentiation compute what they document on every input; no contract
      panics on payable input, the range-proof overflow apart.
    - The machine: every run returns, with fuel of one more than its gas; it
      panics only in three places that are named; every index, slice and pointer
      is in range; the analysis of jump destinations is right; a failed call or
      creation leaves the state it found and a static call changes nothing; no
      call creates Ether.
    - Messages: gas and Ether are accounted for on every path, the errors are
      those the accounts call for, a failed message costs its gas and no more.
    - The state: the methods implement a map of accounts behind caches and
      journal; reverting restores the snapshot; finalising writes exactly the
      accounts that the queries see; a committed state can be opened again, with
      the accounts, the storage and the code that it had; a copy answers as the
      original.  Two flaws:
      a copy shares its trie with the original, and a change after a reverted
      touch is lost.
    - Tries: the methods refine a map; the root hash depends on the contents
      alone and, without collisions, tells them; a committed trie can be opened
      again; the database of tries opens the root that is asked for, and its
      cache of code sizes is right; a Merkle proof that is made for a key is
      accepted with its value, and no proof is accepted with another value.
    - Hashes: the unrolled permutation is that of the standard, and the sponge,
      however its input and output are cut into pieces, computes the hash and
      SHAKE functions of the standard; [Keccak256] is a hash as the tries and the
      state rely on it.  One flaw: a sponge that was read from is copied wrong.
    - RLP: the encoder writes what the format says; the decoder accepts exactly
      the encodings of the values of its type, one-byte arrays apart, which are
      a flaw, as is a read past the end in [Split].
    - Transactions and blocks: a block and a receipt are decoded as they were
      sent; the sender of a signed transaction is its signer, on the chain it was
      signed for and on no other; a bloom misses no log; the hash of a block,
      without collisions, tells its header, uncles and transactions.  Two flaws:
      a transaction that creates a contract has two encodings, and one that is
      signed for chain 0 is refused by the signer that made it.
    - Helpers: memory windows, padding, powers modulo [2^256], chain
      configuration compatibility.

    ** What is not modelled

    Soundness of the range proof in the cryptographic sense (it rests on
    computational assumptions; the forged proof shows the Go port lacks it).
    The integer pools of the Go code (allocation caches).  RIPEMD-160, signing and
    signature recovery, the key-value store and the LRU cache are parameters with named
    hypotheses.  So is Keccak-256 outside [Sha3], for what is relied on of it is
    little: lengths, bytes, and that no two of the strings of the run have the
    same hash; [Sha3Theorems] shows that the modelled function has the rest.  The
    assembly and unaligned variants of package [crypto/sha3].  The reflection of
    package [rlp], the iterators and synchronisation of package [trie], and of
    package [core/types] JSON, the forms for storage, sorting and the caches of
    hashes and sizes.  The rest of go-ethereum (processing of blocks, chain,
    transaction pool, networking, storage, consensus, commands) and the generation
    of the group in Java. *)

From Stdlib Require Import ZArith List Lia Bool.
Import ListNotations.

(** ** Scope and outcome types *)

Declare Scope go_scope.
Delimit Scope go_scope with go.
Open Scope go_scope.

(** A Go computation either returns a value or panics (index or slice out of
    range, integer division by zero, explicit [panic]). *)
Inductive outcome (A : Type) : Type :=
| Ret (a : A)
| Panic.
Arguments Ret {A} a.
Arguments Panic {A}.

(** Go's [(T, error)] result pair, read as a sum: the code never uses the
    value when the error is not nil. *)
Inductive result (A E : Type) : Type :=
| Ok (a : A)
| Err (e : E).
Arguments Ok {A E} a.
Arguments Err {A E} e.

Definition obind {A B : Type} (m : outcome A) (k : A -> outcome B) : outcome B :=
  match m with
  | Ret a => k a
  | Panic => Panic
  end.

Notation "'let!' x ':=' m 'in' k" := (obind m (fun x => k))
  (at level 10, x pattern, m at level 100, k at level 200) : go_scope.

(** Early return on a non-nil error: [v, err := m; if err != nil { return nil, err }]. *)
Notation "'try!' x ':=' m 'in' k" :=
  (match m with Ok x => k | Err e => Ret (Err e) end)
  (at level 10, x pattern, m at level 100, k at level 200) : go_scope.

Definition returns {A : Type} (m : outcome A) : Prop := exists a, m = Ret a.

Lemma obind_ret {A B : Type} (m : outcome A) (k : A -> outcome B) (b : B) :
  obind m k = Ret b <-> exists a, m = Ret a /\ k a = Ret b.
Proof.
  destruct m as [a|]; cbn; split.
  - intros H; exists a; auto.
  - intros (a' & [= ->] & H); exact H.
  - discriminate.
  - intros (a & [=] & _).
Qed.

Lemma obind_panic {A B : Type} (m : outcome A) (k : A -> outcome B) :
  obind m k = Panic <-> m = Panic \/ exists a, m = Ret a /\ k a = Panic.
Proof.
  destruct m as [a|]; cbn; split.
  - intros H; right; exists a; auto.
  - intros [[=] | (a' & [= ->] & H)]; exact H.
  - auto.
  - auto.
Qed.

(** ** Automation *)

Create HintDb go.
Create HintDb gosimp.

(** Split the innermost scrutinee of a [match] or [if] of the goal. *)
Ltac split_match :=
  match goal with
  | |- context [match ?x with _ => _ end] =>
      lazymatch x with
      | context [match _ with _ => _ end] => fail
      | _ => destruct x eqn:?
      end
  end.

(** Turn the boolean comparisons of the source into facts [lia] reads. *)
Ltac b2p :=
  repeat match goal with
  | H : (_ && _)%bool = true |- _ => apply andb_true_iff in H; destruct H
  | H : (_ || _)%bool = false |- _ => apply orb_false_iff in H; destruct H
  | H : (_ && _)%bool = false |- _ => apply andb_false_iff in H
  | H : (_ || _)%bool = true |- _ => apply orb_true_iff in H
  | H : negb _ = true |- _ => apply negb_true_iff in H
  | H : negb _ = false |- _ => apply negb_false_iff in H
  | H : (_ =? _)%Z = true |- _ => apply Z.eqb_eq in H
  | H : (_ =? _)%Z = false |- _ => apply Z.eqb_neq in H
  | H : (_ <? _)%Z = true |- _ => apply Z.ltb_lt in H
  | H : (_ <? _)%Z = false |- _ => apply Z.ltb_ge in H
  | H : (_ <=? _)%Z = true |- _ => apply Z.leb_le in H
  | H : (_ <=? _)%Z = false |- _ => apply Z.leb_gt in H
  | H : (_ >=? _)%Z = _ |- _ => rewrite Z.geb_leb in H
  | H : (_ >? _)%Z = _ |- _ => rewrite Z.gtb_ltb in H
  end.

(** Rewrite a comparison whose value [lia] decides. *)
Ltac decb :=
  repeat match goal with
  | |- context [(?a <=? ?b)%Z] =>
      first [ replace (a <=? b)%Z with true by (symmetry; apply Z.leb_le; lia)
            | replace (a <=? b)%Z with false by (symmetry; apply Z.leb_gt; lia) ]
  | |- context [(?a <? ?b)%Z] =>
      first [ replace (a <? b)%Z with true by (symmetry; apply Z.ltb_lt; lia)
            | replace (a <? b)%Z with false by (symmetry; apply Z.ltb_ge; lia) ]
  | |- context [(?a =? ?b)%Z] =>
      first [ replace (a =? b)%Z with true by (symmetry; apply Z.eqb_eq; lia)
            | replace (a =? b)%Z with false by (symmetry; apply Z.eqb_neq; lia) ]
  end.

(** ** Machine integers *)

Section machine.
Local Open Scope Z_scope.

(** Conversion to an unsigned integer of [w] bits, and to a signed one. *)
Definition uwrap (w x : Z) : Z := x mod 2 ^ w.
Definition swrap (w x : Z) : Z :=
  let u := x mod 2 ^ w in if u <? 2 ^ (w - 1) then u else u - 2 ^ w.

Definition u64 : Z -> Z := uwrap 64.
Definition i64 : Z -> Z := swrap 64.
Definition u8 : Z -> Z := uwrap 8.

Lemma u64_range x : 0 <= u64 x < 2 ^ 64.
Proof. apply Z.mod_pos_bound; lia. Qed.

Lemma u64_small x : 0 <= x < 2 ^ 64 -> u64 x = x.
Proof. apply Z.mod_small. Qed.

Lemma u64_mod x : u64 x = x mod 18446744073709551616.
Proof. reflexivity. Qed.

Lemma i64_range x : - 2 ^ 63 <= i64 x < 2 ^ 63.
Proof.
  unfold i64, swrap.
  change (2 ^ 64) with 18446744073709551616.
  change (2 ^ (64 - 1)) with 9223372036854775808.
  pose proof (Z.mod_pos_bound x 18446744073709551616 ltac:(lia)).
  destruct (Z.ltb_spec (x mod 18446744073709551616) 9223372036854775808); lia.
Qed.

Lemma i64_small x : - 2 ^ 63 <= x < 2 ^ 63 -> i64 x = x.
Proof.
  unfold i64, swrap.
  change (2 ^ 63) with 9223372036854775808.
  change (2 ^ 64) with 18446744073709551616.
  change (2 ^ (64 - 1)) with 9223372036854775808.
  intros H.
  pose proof (Z.div_mod x 18446744073709551616 ltac:(lia)).
  pose proof (Z.mod_pos_bound x 18446744073709551616 ltac:(lia)).
  destruct (Z.ltb_spec (x mod 18446744073709551616) 9223372036854775808); lia.
Qed.

Lemma i64_over x : 2 ^ 63 <= x < 2 ^ 64 + 2 ^ 63 -> i64 x = x - 2 ^ 64.
Proof.
  intros H. rewrite <- (i64_small (x - 2 ^ 64)) by lia. unfold i64, swrap.
  replace (x mod 2 ^ 64) with ((x - 2 ^ 64) mod 2 ^ 64); [reflexivity|].
  replace (x - 2 ^ 64) with (x + (-1) * 2 ^ 64) by lia. apply Z_mod_plus_full.
Qed.

Lemma i64_mod x : i64 x mod 2 ^ 64 = x mod 2 ^ 64.
Proof.
  unfold i64, swrap. cbv zeta. destruct (_ <? _).
  - apply Z.mod_mod; lia.
  - rewrite Zminus_mod, Z_mod_same_full, Z.sub_0_r, !Z.mod_mod; lia.
Qed.

End machine.

#[export] Hint Resolve u64_range i64_range : go.

(** ** Slices *)

Section slices.
Local Open Scope Z_scope.
Context {A : Type}.
Implicit Types l : list A.

Definition len l : Z := Z.of_nat (length l).

(** [l[i:j]].  Go bounds [j] by the capacity of [l]; every slice expression of
    the modelled code has its high bound guarded by the length or left out, so
    the length is the bound here. *)
Definition slice l (i j : Z) : outcome (list A) :=
  if (0 <=? i) && (i <=? j) && (j <=? len l)
  then Ret (firstn (Z.to_nat (j - i)) (skipn (Z.to_nat i) l))
  else Panic.

(** [l[i]] *)
Definition index l (i : Z) : outcome A :=
  if 0 <=? i then
    match nth_error l (Z.to_nat i) with Some a => Ret a | None => Panic end
  else Panic.

Lemma len_nonneg l : 0 <= len l.
Proof. unfold len; lia. Qed.

Lemma len_app l1 l2 : len (l1 ++ l2) = len l1 + len l2.
Proof. unfold len; rewrite length_app; lia. Qed.

Lemma len_cons a l : len (a :: l) = len l + 1.
Proof. unfold len; cbn [length]; lia. Qed.

Lemma slice_ret l i j :
  0 <= i <= j -> j <= len l ->
  slice l i j = Ret (firstn (Z.to_nat (j - i)) (skipn (Z.to_nat i) l)).
Proof. intros; unfold slice; decb; reflexivity. Qed.

Lemma slice_panic l i j : ~ (0 <= i <= j /\ j <= len l) -> slice l i j = Panic.
Proof.
  intros H; unfold slice.
  destruct ((0 <=? i) && (i <=? j) && (j <=? len l)) eqn:E; [exfalso; b2p; lia | reflexivity].
Qed.

Lemma slice_len l i j l' : slice l i j = Ret l' -> len l' = j - i /\ 0 <= i <= j /\ j <= len l.
Proof.
  unfold slice. destruct ((0 <=? i) && (i <=? j) && (j <=? len l)) eqn:E; [|discriminate].
  intros [= <-]; b2p. unfold len in *. rewrite length_firstn, length_skipn. lia.
Qed.

Lemma index_nth l k a :
  (0 <=? k) = true -> nth_error l (Z.to_nat k) = Some a -> index l k = Ret a.
Proof. unfold index. intros -> ->. reflexivity. Qed.

Lemma index_ret l i a : nth_error l (Z.to_nat i) = Some a -> 0 <= i -> index l i = Ret a.
Proof. intros H Hi; unfold index; decb; rewrite H; reflexivity. Qed.

Lemma index_0 a l : index (a :: l) 0 = Ret a.
Proof. reflexivity. Qed.

Lemma slice_full l : slice l 0 (len l) = Ret l.
Proof.
  rewrite slice_ret by (pose proof (len_nonneg l); lia).
  rewrite Z.sub_0_r. unfold len. rewrite Nat2Z.id. cbn. rewrite firstn_all. reflexivity.
Qed.

End slices.

#[export] Hint Resolve len_nonneg : go.

(** ** Bytes *)

Section bytes.
Local Open Scope Z_scope.

Definition is_byte (b : Z) : Prop := 0 <= b < 256.
Definition bytes_ok (bs : list Z) : Prop := Forall is_byte bs.

Definition zeros (n : Z) : list Z := repeat 0 (Z.to_nat n).

Lemma zeros_len n : 0 <= n -> len (zeros n) = n.
Proof. intros; unfold len, zeros; rewrite repeat_length; lia. Qed.

Lemma zeros_ok n : bytes_ok (zeros n).
Proof. apply Forall_forall; intros x H; apply repeat_spec in H; subst; unfold is_byte; lia. Qed.

Lemma bytes_ok_app l1 l2 : bytes_ok (l1 ++ l2) <-> bytes_ok l1 /\ bytes_ok l2.
Proof. apply Forall_app. Qed.

Lemma bytes_ok_firstn n l : bytes_ok l -> bytes_ok (firstn n l).
Proof. intros H; rewrite <- (firstn_skipn n l) in H; apply bytes_ok_app in H; tauto. Qed.

Lemma bytes_ok_skipn n l : bytes_ok l -> bytes_ok (skipn n l).
Proof. intros H; rewrite <- (firstn_skipn n l) in H; apply bytes_ok_app in H; tauto. Qed.

Lemma bytes_ok_slice l i j l' : bytes_ok l -> slice l i j = Ret l' -> bytes_ok l'.
Proof.
  unfold slice; destruct (_ && _); [|discriminate].
  intros H [= <-]; apply bytes_ok_firstn, bytes_ok_skipn, H.
Qed.

(** A boolean property of bytes holds once it is checked on all 256 of them. *)
Lemma byte_forall (P : Z -> bool) :
  forallb P (map Z.of_nat (seq 0 256)) = true -> forall b, is_byte b -> P b = true.
Proof.
  intros H b Hb. rewrite forallb_forall in H. apply H.
  apply in_map_iff. exists (Z.to_nat b). unfold is_byte in Hb.
  split; [lia|]. apply in_seq. lia.
Qed.

Lemma is_byte_bits b : is_byte b -> b <> 0 -> 0 <= Z.log2 b <= 7.
Proof.
  unfold is_byte; intros H H0; split; [apply Z.log2_nonneg|].
  enough (Z.log2 b < 8) by lia. apply Z.log2_lt_pow2; lia.
Qed.

End bytes.

#[export] Hint Resolve zeros_ok bytes_ok_firstn bytes_ok_skipn : go.

(** ** Loops *)

(** [for i := n - 1; i >= 0; i-- { s = body(i, s) }] *)
Fixpoint for_down {A : Type} (n : nat) (body : Z -> A -> A) (s : A) : A :=
  match n with
  | O => s
  | S n => for_down n body (body (Z.of_nat n) s)
  end.

(** An invariant [I i s] of the states before the turn [i - 1]. *)
Lemma for_down_ind {A : Type} (I : nat -> A -> Prop) n body (s : A) :
  I n s -> (forall i s, (i < n)%nat -> I (S i) s -> I i (body (Z.of_nat i) s)) -> I O (for_down n body s).
Proof.
  revert s; induction n as [|n IH]; intros s H0 HS; [exact H0|].
  cbn [for_down]. apply IH; [apply HS; [lia | exact H0]|]. intros i s' Hi. apply HS. lia.
Qed.

(** Two loops whose turns preserve a relation. *)
Lemma for_down_rel {A B : Type} (R : A -> B -> Prop) n f g (s : A) (t : B) :
  R s t -> (forall i s t, (i < n)%nat -> R s t -> R (f (Z.of_nat i) s) (g (Z.of_nat i) t)) ->
  R (for_down n f s) (for_down n g t).
Proof.
  revert s t; induction n as [|n IH]; intros s t H0 HS; [exact H0|].
  cbn [for_down]. apply IH; [apply HS; [lia | exact H0]|]. intros i s' t' Hi. apply HS. lia.
Qed.
