(* ===== verification/GoBig.v ===== *)
(** * Go's [math/big] as the modelled packages use it

    [big.Int] values are [Z].  The operations follow the package documentation
    and implementation of Go 1.7 to 1.9, the versions the build matrix of the
    repository names: Euclidean [Div]/[Mod], [Exp] that ignores the sign of the
    modulus, [GCD] that returns zeros on a non-positive argument, [ModInverse]
    by the extended Euclidean algorithm, [Bytes]/[SetBytes] big endian. *)

From Stdlib Require Import ZArith List Lia Bool Znumtheory Zpow_facts.
From S2P Require Import Prelude.
Import ListNotations.
Local Open Scope Z_scope.

(** ** Sizes and single bits *)

(** [x.BitLen()]: the length of [|x|] in bits; 0 for 0. *)
Definition BitLen (x : Z) : Z := if x =? 0 then 0 else Z.log2 (Z.abs x) + 1.

(** [new(big.Int).SetBit(0, i, 1)] *)
Definition setbit0 (i : Z) : Z := Z.setbit 0 i.

(** [x.Sign()] *)
Definition Sign (x : Z) : Z := Z.sgn x.

(** [x.Uint64()] and [x.Int64()]: the low 64 bits, whatever the size of [x]. *)
Definition Uint64 (x : Z) : Z := u64 (Z.abs x).
Definition Int64 (x : Z) : Z :=
  let v := i64 (Z.abs x) in if x <? 0 then i64 (- v) else v.

Lemma BitLen_nonneg x : 0 <= BitLen x.
Proof. unfold BitLen; destruct (x =? 0); [lia | pose proof (Z.log2_nonneg (Z.abs x)); lia]. Qed.

Lemma BitLen_bound x : Z.abs x < 2 ^ BitLen x.
Proof.
  unfold BitLen; destruct (Z.eqb_spec x 0) as [->|H]; [cbn; lia|].
  rewrite Z.add_1_r; apply Z.log2_spec; lia.
Qed.

Lemma BitLen_lower x : x <> 0 -> 2 ^ (BitLen x - 1) <= Z.abs x.
Proof.
  intros H; unfold BitLen; rewrite (proj2 (Z.eqb_neq x 0) H), Z.add_simpl_r.
  apply Z.log2_spec; lia.
Qed.

Lemma BitLen_le_iff x n : 0 <= n -> (BitLen x <= n <-> Z.abs x < 2 ^ n).
Proof.
  intros Hn; split; intros H.
  - eapply Z.lt_le_trans; [apply BitLen_bound|]. apply Z.pow_le_mono_r; lia.
  - destruct (Z.eq_dec x 0) as [->|Hx]; [cbn; lia|].
    pose proof (BitLen_lower x Hx).
    assert (2 ^ (BitLen x - 1) < 2 ^ n) as Hlt by lia.
    apply Z.pow_lt_mono_r_iff in Hlt; lia.
Qed.

Lemma BitLen_gt_iff x n : 0 <= n -> (n < BitLen x <-> 2 ^ n <= Z.abs x).
Proof. intros Hn; pose proof (BitLen_le_iff x n Hn); lia. Qed.

Lemma setbit0_pow i : 0 <= i -> setbit0 i = 2 ^ i.
Proof.
  intros H. unfold setbit0. rewrite Z.setbit_spec', Z.lor_0_l. reflexivity.
Qed.

Lemma Int64_small x : 0 <= x < 2 ^ 63 -> Int64 x = x.
Proof. intros H; unfold Int64; decb; rewrite Z.abs_eq, i64_small by lia; reflexivity. Qed.

(** ** Big-endian bytes *)

(** [new(big.Int).SetBytes(bs)] *)
Definition SetBytes (bs : list Z) : Z := fold_left (fun acc b => acc * 256 + b) bs 0.

(** The [n] low-order bytes of [x], most significant first. *)
Fixpoint be_bytes (n : nat) (x : Z) : list Z :=
  match n with
  | O => []
  | S n => be_bytes n (x / 256) ++ [x mod 256]
  end.

Definition byte_len (x : Z) : Z := (BitLen x + 7) / 8.

(** [x.Bytes()]: the bytes of [|x|] with no leading zero. *)
Definition Bytes (x : Z) : list Z := be_bytes (Z.to_nat (byte_len x)) (Z.abs x).

Lemma SetBytes_acc bs a : fold_left (fun acc b => acc * 256 + b) bs a = a * 256 ^ len bs + SetBytes bs.
Proof.
  unfold SetBytes. revert a. induction bs as [|b bs IH]; intros a.
  - cbn; lia.
  - cbn [fold_left]. rewrite IH, (IH (0 * 256 + b)), len_cons, Z.pow_add_r by (pose proof (len_nonneg bs); lia).
    lia.
Qed.

Lemma SetBytes_cons b bs : SetBytes (b :: bs) = b * 256 ^ len bs + SetBytes bs.
Proof. unfold SetBytes at 1. cbn [fold_left]. rewrite SetBytes_acc. lia. Qed.

Lemma SetBytes_app l1 l2 : SetBytes (l1 ++ l2) = SetBytes l1 * 256 ^ len l2 + SetBytes l2.
Proof. unfold SetBytes at 1. rewrite fold_left_app, SetBytes_acc. reflexivity. Qed.

Lemma SetBytes_nil : SetBytes [] = 0.
Proof. reflexivity. Qed.

Lemma SetBytes_range bs : bytes_ok bs -> 0 <= SetBytes bs < 256 ^ len bs.
Proof.
  induction 1 as [|b bs Hb _ IH]; [cbn; lia|].
  rewrite SetBytes_cons, len_cons, Z.pow_add_r by (pose proof (len_nonneg bs); lia).
  unfold is_byte in Hb. nia.
Qed.

Lemma SetBytes_zeros n : SetBytes (zeros n) = 0.
Proof.
  unfold zeros. induction (Z.to_nat n) as [|k IH]; [reflexivity|].
  cbn [repeat]. rewrite SetBytes_cons, IH. lia.
Qed.

Lemma be_bytes_length n x : length (be_bytes n x) = n.
Proof.
  revert x; induction n as [|n IH]; intros x; [reflexivity|].
  cbn [be_bytes]. rewrite length_app, IH. cbn; lia.
Qed.

Lemma be_bytes_len n x : len (be_bytes n x) = Z.of_nat n.
Proof. unfold len; rewrite be_bytes_length; reflexivity. Qed.

Lemma be_bytes_ok n x : bytes_ok (be_bytes n x).
Proof.
  revert x; induction n as [|n IH]; intros x; [constructor|].
  cbn [be_bytes]; apply bytes_ok_app; split; [apply IH|].
  constructor; [apply Z.mod_pos_bound; lia | constructor].
Qed.

Lemma SetBytes_be_bytes n x : SetBytes (be_bytes n x) = x mod 256 ^ Z.of_nat n.
Proof.
  revert x; induction n as [|n IH]; intros x; [cbn; rewrite Z.mod_1_r; reflexivity|].
  cbn [be_bytes]. rewrite SetBytes_app, IH, Nat2Z.inj_succ, Z.pow_succ_r by lia.
  rewrite (Z.rem_mul_r x 256) by (try apply Z.pow_nonzero; lia).
  rewrite SetBytes_cons, SetBytes_nil. change (len [x mod 256]) with 1. change (len (@nil Z)) with 0.
  lia.
Qed.

Lemma be_bytes_SetBytes bs : bytes_ok bs -> be_bytes (length bs) (SetBytes bs) = bs.
Proof.
  induction bs as [|b bs IH] using rev_ind; intros H; [reflexivity|].
  apply bytes_ok_app in H as [H1 H2]. inversion H2 as [|? ? Hb _]; subst.
  rewrite length_app, Nat.add_comm. cbn [length Nat.add be_bytes].
  rewrite SetBytes_app, SetBytes_cons, SetBytes_nil. unfold is_byte in Hb.
  change (len [b]) with 1. change (len (@nil Z)) with 0.
  replace (SetBytes bs * 256 ^ 1 + (b * 256 ^ 0 + 0)) with (b + SetBytes bs * 256) by lia.
  rewrite Z.div_add, Z.div_small, Z.add_0_l, IH by (assumption || lia).
  rewrite Z.mod_add, Z.mod_small by lia. reflexivity.
Qed.

Lemma be_bytes_zero n : be_bytes n 0 = zeros (Z.of_nat n).
Proof.
  pose proof (be_bytes_SetBytes (zeros (Z.of_nat n)) (zeros_ok _)) as H.
  rewrite SetBytes_zeros in H. unfold zeros in H at 1.
  rewrite repeat_length, Nat2Z.id in H. exact H.
Qed.

Lemma byte_len_nonneg x : 0 <= byte_len x.
Proof. unfold byte_len; pose proof (BitLen_nonneg x); apply Z.div_pos; lia. Qed.

Lemma byte_len_bound x : Z.abs x < 256 ^ byte_len x.
Proof.
  pose proof (byte_len_nonneg x) as H0.
  change 256 with (2 ^ 8). rewrite <- Z.pow_mul_r by lia.
  apply BitLen_le_iff; [lia|]. unfold byte_len in *.
  pose proof (Z.div_mod (BitLen x + 7) 8 ltac:(lia)).
  pose proof (Z.mod_pos_bound (BitLen x + 7) 8 ltac:(lia)). lia.
Qed.

Lemma byte_len_lower x : x <> 0 -> 256 ^ (byte_len x - 1) <= Z.abs x.
Proof.
  intros Hx. etransitivity; [|apply BitLen_lower, Hx].
  pose proof (BitLen_nonneg x).
  destruct (Z.le_gt_cases 1 (byte_len x)) as [H1|H1].
  - change 256 with (2 ^ 8). rewrite <- Z.pow_mul_r by lia.
    apply Z.pow_le_mono_r; [lia|]. unfold byte_len in *.
    pose proof (Z.div_mod (BitLen x + 7) 8 ltac:(lia)).
    pose proof (Z.mod_pos_bound (BitLen x + 7) 8 ltac:(lia)). lia.
  - rewrite (Z.pow_neg_r 256) by lia. apply Z.pow_nonneg; lia.
Qed.

Lemma Bytes_len x : len (Bytes x) = byte_len x.
Proof. unfold Bytes; rewrite be_bytes_len, Z2Nat.id by apply byte_len_nonneg; reflexivity. Qed.

Lemma Bytes_ok x : bytes_ok (Bytes x).
Proof. apply be_bytes_ok. Qed.

(** [SetBytes] undoes [Bytes] up to the sign, which [Bytes] drops. *)
Lemma SetBytes_Bytes x : SetBytes (Bytes x) = Z.abs x.
Proof.
  unfold Bytes. rewrite SetBytes_be_bytes, Z2Nat.id by apply byte_len_nonneg.
  apply Z.mod_small. pose proof (byte_len_bound x). lia.
Qed.

Lemma Bytes_0 : Bytes 0 = [].
Proof. reflexivity. Qed.

Lemma Bytes_nil_iff x : Bytes x = [] <-> x = 0.
Proof.
  split; [|intros ->; reflexivity].
  intros H. pose proof (SetBytes_Bytes x) as E. rewrite H in E. cbn in E. lia.
Qed.

Lemma Bytes_abs x : Bytes (Z.abs x) = Bytes x.
Proof.
  unfold Bytes, byte_len, BitLen. rewrite Z.abs_idemp.
  destruct (Z.eqb_spec x 0), (Z.eqb_spec (Z.abs x) 0); lia || reflexivity.
Qed.

(** A big-endian string with no leading zero byte is the [Bytes] of its value. *)
Lemma Bytes_SetBytes b bs :
  bytes_ok (b :: bs) -> b <> 0 -> Bytes (SetBytes (b :: bs)) = b :: bs.
Proof.
  intros H Hb. pose proof (SetBytes_range _ H) as Hr.
  unfold Bytes. rewrite Z.abs_eq by lia.
  replace (Z.to_nat (byte_len (SetBytes (b :: bs)))) with (length (b :: bs)).
  { apply be_bytes_SetBytes, H. }
  inversion H as [|? ? Hb' Hbs]; subst. unfold is_byte in Hb'.
  pose proof (SetBytes_range _ Hbs) as Hr'.
  rewrite SetBytes_cons, len_cons in *. set (n := len bs) in *.
  assert (0 <= n) as Hn by apply len_nonneg.
  set (x := b * 256 ^ n + SetBytes bs) in *.
  assert (256 ^ n <= x) as Hlow by (subst x; nia).
  assert (0 < 256 ^ n) by (apply Z.pow_pos_nonneg; lia).
  pose proof (byte_len_bound x). pose proof (byte_len_lower x ltac:(lia)).
  pose proof (byte_len_nonneg x).
  assert (byte_len x = n + 1) as ->.
  { assert (256 ^ n < 256 ^ byte_len x) as L1 by lia.
    assert (256 ^ (byte_len x - 1) < 256 ^ (n + 1)) as L2 by lia.
    apply Z.pow_lt_mono_r_iff in L1; try lia.
    destruct (Z.eq_dec (byte_len x) 0) as [E|E]; [lia|].
    apply Z.pow_lt_mono_r_iff in L2; lia. }
  subst n. unfold len. cbn [length]. lia.
Qed.

(** Most-significant-first view of [be_bytes]. *)
Lemma be_bytes_head n x : be_bytes (S n) x = (x / 256 ^ Z.of_nat n) mod 256 :: be_bytes n x.
Proof.
  revert x; induction n as [|n IH]; intros x.
  - cbn. rewrite Z.div_1_r. reflexivity.
  - cbn [be_bytes] in *. rewrite (IH (x / 256)). cbn [app]. f_equal.
    rewrite Z.div_div, <- Z.pow_succ_r, <- Nat2Z.inj_succ by (try apply Z.pow_pos_nonneg; lia).
    reflexivity.
Qed.

Lemma byte_len_unique x k : 0 < k -> 256 ^ (k - 1) <= Z.abs x < 256 ^ k -> byte_len x = k.
Proof.
  intros Hk [H1 H2].
  assert (0 < 256 ^ (k - 1)) by (apply Z.pow_pos_nonneg; lia).
  pose proof (byte_len_bound x). pose proof (byte_len_lower x ltac:(lia)).
  pose proof (byte_len_nonneg x).
  assert (256 ^ (k - 1) < 256 ^ byte_len x) as L1 by lia.
  assert (256 ^ (byte_len x - 1) < 256 ^ k) as L2 by lia.
  apply Z.pow_lt_mono_r_iff in L1; try lia.
  apply Z.pow_lt_mono_r_iff in L2; lia.
Qed.

Lemma Bytes_be x k : 0 < k -> 256 ^ (k - 1) <= x < 256 ^ k -> Bytes x = be_bytes (Z.to_nat k) x.
Proof.
  intros Hk H. assert (0 < 256 ^ (k - 1)) by (apply Z.pow_pos_nonneg; lia).
  unfold Bytes. rewrite (byte_len_unique x k), Z.abs_eq by lia. reflexivity.
Qed.

#[export] Hint Resolve be_bytes_ok Bytes_ok : go.

(** ** Arithmetic *)

Module big.

(** [Div] and [Mod]: Euclidean division, a run-time panic on a zero divisor. *)
Definition Div (x y : Z) : outcome Z :=
  if y =? 0 then Panic else Ret (if 0 <? y then x / y else - (x / - y)).

Definition Mod (x y : Z) : outcome Z :=
  if y =? 0 then Panic else Ret (x mod Z.abs y).

(** [Exp x y m = x**y mod |m|]; [m = 0] stands for no modulus and a negative
    [y] is read as 0. *)
Definition Exp (x y m : Z) : Z :=
  let y := Z.max y 0 in
  if m =? 0 then x ^ y else Zpow_mod x y (Z.abs m).

(** The loop of [GCD] when a cofactor is asked for: [A, B] are the remainders,
    [X, lastX] the cofactors of the first argument. *)
Fixpoint gcd_loop (fuel : nat) (A B X lastX : Z) : Z * Z :=
  match fuel with
  | O => (A, lastX)
  | S fuel =>
      if B =? 0 then (A, lastX)
      else gcd_loop fuel B (Z.rem A B) (lastX - X * Z.quot A B) X
  end.

(** [GCD(x, nil, a, b)]: the gcd and the cofactor [x] of [a]. *)
Definition GCD (a b : Z) : Z * Z :=
  if (a <=? 0) || (b <=? 0) then (0, 0)
  else gcd_loop (Z.to_nat (2 * BitLen b + 1)) a b 0 1.

Definition ModInverse (g n : Z) : outcome Z :=
  let! g' := (if g <? 0 then Mod g n else Ret g) in
  let z := snd (GCD g' n) in
  Ret (if z <? 0 then z + n else z).

End big.

Lemma Mod_pos x y : 0 < y -> big.Mod x y = Ret (x mod y).
Proof. intros; unfold big.Mod; decb; rewrite Z.abs_eq by lia; reflexivity. Qed.

Lemma Div_pos x y : 0 < y -> big.Div x y = Ret (x / y).
Proof. intros; unfold big.Div; decb; reflexivity. Qed.

Lemma Exp_pos x y m : 0 <= y -> 0 < m -> big.Exp x y m = x ^ y mod m.
Proof.
  intros Hy Hm; unfold big.Exp; cbv zeta; decb.
  rewrite Z.max_l, Z.abs_eq by lia. apply Zpow_mod_correct; lia.
Qed.

Lemma Exp_nomod x y : 0 <= y -> big.Exp x y 0 = x ^ y.
Proof. intros Hy; unfold big.Exp; cbn [Z.eqb]; rewrite Z.max_l by lia; reflexivity. Qed.

(** Two steps of Euclid's algorithm at least halve the second remainder. *)
Lemma rem_halves A B : 0 <= A -> 0 < B -> 0 < Z.rem A B -> 2 * Z.rem B (Z.rem A B) < B.
Proof.
  intros HA HB Hr.
  pose proof (Z.rem_bound_pos A B HA HB).
  pose proof (Z.rem_bound_pos B (Z.rem A B) ltac:(lia) Hr).
  pose proof (Z.quot_rem' B (Z.rem A B)).
  assert (1 <= B ÷ Z.rem A B) by (apply Z.quot_le_lower_bound; lia). nia.
Qed.

Section gcd_spec.
Variables a b : Z.

(** What the loop keeps: both remainders are combinations of [a] and [b]. *)
Definition gcd_inv (A B X lastX : Z) : Prop :=
  0 <= A /\ 0 <= B /\
  (exists lastY, a * lastX + b * lastY = A) /\ (exists Y, a * X + b * Y = B).

Lemma gcd_inv_step A B X lastX :
  B <> 0 -> gcd_inv A B X lastX ->
  gcd_inv B (Z.rem A B) (lastX - X * Z.quot A B) X.
Proof.
  intros HB (HA & HB0 & (lY & E1) & (Y & E2)).
  pose proof (Z.rem_bound_pos A B HA ltac:(lia)).
  pose proof (Z.quot_rem' A B).
  repeat split; try lia; [exists Y; lia|]. exists (lY - Y * Z.quot A B). nia.
Qed.

Lemma gcd_loop_spec n : forall fuel A B X lastX,
  gcd_inv A B X lastX -> B < 2 ^ Z.of_nat n -> (2 * n + 1 <= fuel)%nat ->
  let '(d, x) := big.gcd_loop fuel A B X lastX in
  d = Z.gcd A B /\ exists y, a * x + b * y = d.
Proof.
  assert (base : forall fuel A X lastX, gcd_inv A 0 X lastX ->
    let '(d, x) := big.gcd_loop fuel A 0 X lastX in
    d = Z.gcd A 0 /\ exists y, a * x + b * y = d).
  { intros fuel A X lX (HA & _ & (lY & E) & _).
    destruct fuel; cbn; rewrite Z.gcd_0_r, Z.abs_eq by lia; eauto. }
  induction n as [|n IH]; intros fuel A B X lX HI HB Hf.
  - destruct HI as (HA & HB0 & H). cbn in HB. assert (B = 0) as -> by lia.
    apply base. repeat split; try lia; apply H.
  - destruct fuel as [|fuel]; [lia|]. cbn [big.gcd_loop].
    destruct (Z.eqb_spec B 0) as [->|Hnz]; [apply (base 0%nat _ X); exact HI|].
    pose proof (gcd_inv_step _ _ _ _ Hnz HI) as HI1.
    destruct HI as (HA & HB0 & _). assert (0 < B) as HBp by lia.
    assert (Egcd : Z.gcd A B = Z.gcd B (Z.rem A B))
      by (rewrite Z.rem_mod_nonneg, (Z.gcd_comm B), Z.gcd_mod, Z.gcd_comm; lia).
    rewrite Egcd. clear Egcd.
    destruct (Z.eq_dec (Z.rem A B) 0) as [Er|Er].
    { rewrite Er in *. apply base. exact HI1. }
    pose proof (gcd_inv_step _ _ _ _ Er HI1) as HI2.
    destruct fuel as [|fuel]; [lia|]. cbn [big.gcd_loop].
    rewrite (proj2 (Z.eqb_neq _ _) Er).
    pose proof (Z.rem_bound_pos A B HA HBp) as Hr.
    pose proof (rem_halves A B HA HBp ltac:(lia)) as Hh.
    assert (Egcd : Z.gcd B (Z.rem A B) = Z.gcd (Z.rem A B) (Z.rem B (Z.rem A B)))
      by (rewrite (Z.rem_mod_nonneg B), (Z.gcd_comm (Z.rem A B)), Z.gcd_mod, Z.gcd_comm; lia).
    rewrite Egcd. apply IH; [exact HI2| |lia].
    rewrite Nat2Z.inj_succ, Z.pow_succ_r in HB; lia.
Qed.
End gcd_spec.

Lemma GCD_spec a b : 0 < a -> 0 < b ->
  fst (big.GCD a b) = Z.gcd a b /\ exists y, a * snd (big.GCD a b) + b * y = Z.gcd a b.
Proof.
  intros Ha Hb. unfold big.GCD. decb. cbn [orb].
  pose proof (gcd_loop_spec a b (Z.to_nat (BitLen b)) (Z.to_nat (2 * BitLen b + 1)) a b 0 1) as H.
  pose proof (BitLen_nonneg b). pose proof (BitLen_bound b).
  destruct (big.gcd_loop _ _ _ _ _) as [d x]. cbn [fst snd].
  destruct H as (-> & y & E).
  - repeat split; try lia; [exists 0; lia | exists 1; lia].
  - rewrite Z2Nat.id by lia. lia.
  - lia.
  - split; [reflexivity|]. exists y; exact E.
Qed.

(** [ModInverse] returns for every positive modulus, and on a coprime argument
    it returns an inverse. *)
Lemma ModInverse_ret g n : 0 < n -> exists i, big.ModInverse g n = Ret i.
Proof.
  intros Hn. unfold big.ModInverse. destruct (g <? 0); [rewrite Mod_pos by lia|]; cbn; eauto.
Qed.

Lemma ModInverse_correct g n i :
  0 < n -> Z.gcd g n = 1 -> big.ModInverse g n = Ret i -> (g * i) mod n = 1 mod n.
Proof.
  intros Hn Hg. unfold big.ModInverse.
  set (g0 := g mod n).
  assert (H : exists g', (if g <? 0 then big.Mod g n else Ret g) = Ret g' /\ 0 <= g' /\ g' mod n = g mod n).
  { destruct (Z.ltb_spec g 0).
    - rewrite Mod_pos by lia. exists (g mod n). rewrite Z.mod_mod by lia.
      pose proof (Z.mod_pos_bound g n Hn). repeat split; lia.
    - exists g. repeat split; lia. }
  destruct H as (g' & -> & Hg' & Em). cbn [obind].
  assert (Hgcd : Z.gcd g' n = 1)
    by (rewrite Z.gcd_comm, <- Z.gcd_mod, Em, Z.gcd_mod, Z.gcd_comm by lia; exact Hg).
  intros [= <-].
  rewrite Zmult_mod, <- Em, <- Zmult_mod.
  set (z := snd (big.GCD g' n)).
  assert (E : (g' * z) mod n = 1 mod n).
  { destruct (Z.eq_dec g' 0) as [->|Hnz].
    - rewrite Z.gcd_0_l, Z.abs_eq in Hgcd by lia. subst n. rewrite !Z.mod_1_r. reflexivity.
    - destruct (GCD_spec g' n ltac:(lia) Hn) as (_ & y & E). fold z in E. rewrite Hgcd in E.
      replace (g' * z) with (1 + (- y) * n) by lia. apply Z_mod_plus_full. }
  destruct (z <? 0); [|exact E].
  replace (g' * (z + n)) with (g' * z + g' * n) by lia.
  rewrite Z_mod_plus_full. exact E.
Qed.

(** A zero argument has no inverse; these Go versions return 0 for it. *)
Lemma ModInverse_0 n : big.ModInverse 0 n = Ret 0.
Proof. reflexivity. Qed.

(** ** Decimal strings *)

(** The value of a string of ASCII digits, [None] when it holds another byte. *)
Fixpoint digits_val (acc : Z) (s : list Z) : option Z :=
  match s with
  | [] => Some acc
  | b :: s => if (48 <=? b) && (b <=? 57) then digits_val (acc * 10 + (b - 48)) s else None
  end.

(** [SetString(s, 10)] on a fresh [big.Int]: an optional sign and at least one
    digit; [None] when it fails. *)
Definition SetString10 (s : list Z) : option Z :=
  match s with
  | [] => None
  | b :: d =>
      if (b =? 45) || (b =? 43) then
        match d with
        | [] => None
        | _ :: _ => option_map (fun v => if b =? 45 then - v else v) (digits_val 0 d)
        end
      else digits_val 0 s
  end.
