(* ===== verification/ModArith.v ===== *)
(** * Congruence and powers modulo N

    Congruence modulo [N] as a setoid with the ring operations as morphisms,
    and the group of units: inverses as [ModInverse] computes them and powers
    with integer exponents.  Used by the range proof (secret-order group) and
    by the bn256 field arithmetic. *)

From Stdlib Require Import ZArith List Lia Bool Znumtheory Zpow_facts Setoid Morphisms Zmod.
From S2P Require Import Prelude GoBig.
Local Open Scope Z_scope.

Notation "a ≡[ N ] b" := (eqm N a b) (at level 70, N at level 200, b at next level) : go_scope.

#[export] Instance eqm_equivalence N : Equivalence (eqm N).
Proof. split; [exact (eqm_refl N) | exact (eqm_sym N) | exact (eqm_trans N)]. Qed.

#[export] Instance add_eqm N : Proper (eqm N ==> eqm N ==> eqm N) Z.add := Zplus_eqm N.
#[export] Instance sub_eqm N : Proper (eqm N ==> eqm N ==> eqm N) Z.sub := Zminus_eqm N.
#[export] Instance mul_eqm N : Proper (eqm N ==> eqm N ==> eqm N) Z.mul := Zmult_eqm N.
#[export] Instance opp_eqm N : Proper (eqm N ==> eqm N) Z.opp := Zopp_eqm N.

Lemma mod_eqm N a : a mod N ≡[N] a.
Proof. apply Zmod_eqm. Qed.

Lemma eqm_mod N a b : a ≡[N] b -> a mod N = b mod N.
Proof. exact (fun H => H). Qed.

Lemma eqm_eq N a b : a = b -> a ≡[N] b.
Proof. intros ->; reflexivity. Qed.

#[export] Instance pow_eqm N : Proper (eqm N ==> eq ==> eqm N) Z.pow.
Proof.
  intros a b H e ? <-.
  destruct (Z.lt_ge_cases e 0); [rewrite !Z.pow_neg_r by lia; reflexivity|].
  pattern e. apply natlike_ind; [reflexivity| |assumption].
  intros k Hk IH. rewrite !Z.pow_succ_r, IH, H by exact Hk. reflexivity.
Qed.

Lemma eqm_0_iff N a : 0 < N -> (a ≡[N] 0 <-> (N | a)).
Proof.
  intros HN. unfold eqm. rewrite Z.mod_0_l by lia. split; intros H.
  - apply Z.mod_divide in H; [exact H | lia].
  - apply Z.mod_divide; [lia | exact H].
Qed.

(** Strip reductions modulo [N], then compare as integer polynomials. *)
Ltac mod_ring N :=
  repeat setoid_rewrite (mod_eqm N); apply eqm_eq; ring.

(** ** Units *)

Section units.
Variable N : Z.
Hypothesis N_pos : 0 < N.

Local Notation "a == b" := (eqm N a b) (at level 70).

Definition unitm (a : Z) : Prop := Z.gcd a N = 1.

(** The inverse the code computes. *)
Definition inv (a : Z) : Z := match big.ModInverse a N with Ret i => i | Panic => 0 end.

Lemma ModInverse_inv a : big.ModInverse a N = Ret (inv a).
Proof. unfold inv. destruct (ModInverse_ret a N N_pos) as [i ->]. reflexivity. Qed.

Lemma inv_r a : unitm a -> a * inv a == 1.
Proof. intros H. apply (ModInverse_correct a N); [exact N_pos | exact H | apply ModInverse_inv]. Qed.

Lemma inv_l a : unitm a -> inv a * a == 1.
Proof. intros H. rewrite Z.mul_comm. apply inv_r, H. Qed.

Lemma unit_intro a b : a * b == 1 -> unitm a.
Proof.
  unfold eqm, unitm. intros H.
  pose proof (Z.div_mod (a * b) N ltac:(lia)) as E1.
  pose proof (Z.div_mod 1 N ltac:(lia)) as E2. rewrite H in E1.
  apply Z.divide_1_r_nonneg; [apply Z.gcd_nonneg|].
  replace 1 with (a * b + N * (1 / N - a * b / N)) by lia.
  apply Z.divide_add_r; apply Z.divide_mul_l; [apply Z.gcd_divide_l | apply Z.gcd_divide_r].
Qed.

#[local] Instance unit_proper : Proper (eqm N ==> iff) unitm.
Proof.
  intros a b H. unfold unitm. unfold eqm in H.
  rewrite (Z.gcd_comm a), (Z.gcd_comm b), <- (Z.gcd_mod a), <- (Z.gcd_mod b), H by lia. reflexivity.
Qed.

Lemma unit_1 : unitm 1.
Proof. apply Z.gcd_1_l. Qed.

Lemma unit_inv a : unitm a -> unitm (inv a).
Proof. intros H. apply unit_intro with a. apply inv_l, H. Qed.

Lemma unit_mul a b : unitm a -> unitm b -> unitm (a * b).
Proof.
  intros Ha Hb. apply unit_intro with (inv a * inv b).
  replace (a * b * (inv a * inv b)) with (a * inv a * (b * inv b)) by ring.
  rewrite !inv_r by assumption. reflexivity.
Qed.

Lemma unit_cancel u a b : unitm u -> u * a == u * b -> a == b.
Proof.
  intros Hu H.
  transitivity (inv u * u * a); [rewrite inv_l by exact Hu; apply eqm_eq; ring|].
  rewrite <- Z.mul_assoc, H, Z.mul_assoc, inv_l by exact Hu. apply eqm_eq; ring.
Qed.

Lemma inv_unique a b : unitm a -> a * b == 1 -> b == inv a.
Proof. intros Ha H. apply (unit_cancel a); [exact Ha|]. rewrite H, inv_r by exact Ha. reflexivity. Qed.

Lemma inv_mul a b : unitm a -> unitm b -> inv (a * b) == inv a * inv b.
Proof.
  intros Ha Hb. symmetry. apply inv_unique; [apply unit_mul; assumption|].
  replace (a * b * (inv a * inv b)) with (a * inv a * (b * inv b)) by ring.
  rewrite !inv_r by assumption. reflexivity.
Qed.

Lemma inv_eqm a b : unitm a -> a == b -> inv a == inv b.
Proof.
  intros Ha H. symmetry. assert (unitm b) by (rewrite <- H; exact Ha).
  apply inv_unique; [exact Ha|]. rewrite H. apply inv_r; assumption.
Qed.

(** ** Powers with integer exponents *)

Definition zpow (a e : Z) : Z := if 0 <=? e then a ^ e else inv a ^ (- e).

Lemma zpow_nonneg a e : 0 <= e -> zpow a e = a ^ e.
Proof. intros; unfold zpow; decb; reflexivity. Qed.

Lemma unit_pow a n : unitm a -> 0 <= n -> unitm (a ^ n).
Proof.
  intros Ha Hn. pattern n. apply natlike_ind; [apply unit_1| |exact Hn].
  intros x Hx IH. rewrite Z.pow_succ_r by exact Hx. apply unit_mul; assumption.
Qed.

Lemma unit_zpow a e : unitm a -> unitm (zpow a e).
Proof.
  intros Ha. unfold zpow. destruct (Z.leb_spec 0 e); apply unit_pow; try lia; auto using unit_inv.
Qed.

Lemma zpow_0 a : zpow a 0 = 1.
Proof. reflexivity. Qed.

Lemma zpow_1 a : zpow a 1 = a.
Proof. unfold zpow. cbn [Z.leb]. apply Z.pow_1_r. Qed.

Lemma zpow_succ a e : unitm a -> zpow a (e + 1) == a * zpow a e.
Proof.
  intros Ha. unfold zpow. destruct (Z.leb_spec 0 e) as [He|He].
  - decb. rewrite Z.add_1_r, Z.pow_succ_r by lia. reflexivity.
  - assert (E : inv a ^ (- e) = inv a * inv a ^ (- (e + 1))).
    { rewrite <- Z.pow_succ_r by lia. f_equal. lia. }
    rewrite E, Z.mul_assoc, inv_r, Z.mul_1_l by exact Ha.
    destruct (Z.leb_spec 0 (e + 1)); [|reflexivity].
    assert (e = -1) as -> by lia. reflexivity.
Qed.

Lemma zpow_add a e f : unitm a -> zpow a (e + f) == zpow a e * zpow a f.
Proof.
  intros Ha.
  assert (P : forall n, 0 <= n -> forall e, zpow a (e + n) == zpow a e * zpow a n).
  { intros n Hn. pattern n. apply natlike_ind; [|intros k Hk IH|exact Hn]; intros x.
    - rewrite Z.add_0_r, zpow_0. apply eqm_eq; ring.
    - unfold Z.succ. rewrite Z.add_assoc, !zpow_succ, IH by exact Ha. apply eqm_eq; ring. }
  destruct (Z.le_ge_cases 0 f) as [Hf|Hf]; [apply P, Hf|].
  apply (unit_cancel (zpow a (- f))); [apply unit_zpow, Ha|].
  pose proof (P (- f) ltac:(lia) (e + f)) as H1. pose proof (P (- f) ltac:(lia) f) as H2.
  replace (e + f + - f) with e in H1 by lia.
  rewrite Z.add_opp_diag_r, zpow_0 in H2.
  transitivity (zpow a e); [rewrite H1; apply eqm_eq; ring|].
  replace (zpow a (- f) * (zpow a e * zpow a f)) with (zpow a e * (zpow a f * zpow a (- f))) by ring.
  rewrite <- H2. apply eqm_eq; ring.
Qed.

Lemma zpow_opp a e : unitm a -> zpow a (- e) == inv (zpow a e).
Proof.
  intros Ha. apply inv_unique; [apply unit_zpow, Ha|].
  rewrite <- zpow_add, Z.add_opp_diag_r by exact Ha. reflexivity.
Qed.

(** A homomorphism into the units commutes with powers: the induction behind
    the laws below. *)
Lemma zpow_char a f :
  unitm a -> f 0 == 1 -> (forall e, f (e + 1) == a * f e) -> forall e, f e == zpow a e.
Proof.
  intros Ha H0 HS.
  assert (P : forall n, 0 <= n -> f n == zpow a n).
  { intros n Hn. pattern n. apply natlike_ind; [exact H0| |exact Hn].
    intros k _ IH. unfold Z.succ. rewrite HS, zpow_succ, IH by exact Ha. reflexivity. }
  assert (Q : forall n, 0 <= n -> f (- n) == zpow a (- n)).
  { intros n Hn. pattern n. apply natlike_ind; [exact H0| |exact Hn].
    intros k _ IH. apply (unit_cancel a); [exact Ha|].
    rewrite <- HS, <- zpow_succ by exact Ha.
    replace (- Z.succ k + 1) with (- k) by lia. exact IH. }
  intros e. destruct (Z.le_ge_cases 0 e); [apply P; assumption|].
  replace e with (- - e) by lia. apply Q; lia.
Qed.

Lemma zpow_base a b e : unitm a -> a == b -> zpow a e == zpow b e.
Proof.
  intros Ha H. assert (Hb : unitm b) by (rewrite <- H; exact Ha).
  apply (zpow_char b (zpow a)); [exact Hb|reflexivity|].
  intros x. transitivity (a * zpow a x); [apply zpow_succ, Ha|].
  apply mul_eqm; [exact H | reflexivity].
Qed.

Lemma zpow_mul_base a b e : unitm a -> unitm b -> zpow (a * b) e == zpow a e * zpow b e.
Proof.
  intros Ha Hb. symmetry.
  apply (zpow_char (a * b) (fun e => zpow a e * zpow b e)); [apply unit_mul; assumption|reflexivity|].
  intros x. rewrite !zpow_succ by assumption. apply eqm_eq; ring.
Qed.

Lemma zpow_zpow a e f : unitm a -> zpow (zpow a e) f == zpow a (e * f).
Proof.
  intros Ha. symmetry.
  apply (zpow_char (zpow a e) (fun f => zpow a (e * f))); [apply unit_zpow, Ha| |].
  - rewrite Z.mul_0_r. reflexivity.
  - intros x. replace (e * (x + 1)) with (e + e * x) by ring. apply zpow_add, Ha.
Qed.

Lemma inv_zpow a : unitm a -> inv a == zpow a (-1).
Proof. intros Ha. change (-1) with (- (1)). rewrite zpow_opp, zpow_1 by exact Ha. reflexivity. Qed.

End units.

Lemma unit_eqm N a b : 0 < N -> unitm N a -> a ≡[N] b -> unitm N b.
Proof.
  intros HN Ha H. apply unit_intro with (inv N a); [exact HN|].
  rewrite <- H. apply inv_r; assumption.
Qed.


#[export] Hint Resolve unit_1 unit_inv unit_mul unit_zpow : go.

(** * Primality certificates

    Pocklington's criterion over [Z], with an executable check of certificates.  Used to show that the moduli of the
    elliptic curve code are prime. *)

Import ListNotations.

(** ** Units modulo a prime *)

Definition prod (l : list Z) : Z := fold_right Z.mul 1 l.

Section prime.
Variable p : Z.
Hypothesis Hp : Z.prime p.

Lemma prime_unit_iff a : unitm p a <-> a mod p <> 0.
Proof.
  pose proof (Z.prime_ge_2 p Hp). rewrite Z.mod_divide, <- (Z.coprime_prime_l_iff p a Hp) by lia.
  unfold unitm, Z.coprime. rewrite Z.gcd_comm. reflexivity.
Qed.

Lemma fermat a : unitm p a -> a ^ (p - 1) ≡[p] 1.
Proof.
  intros U. pose proof (Z.prime_ge_2 p Hp). apply prime_unit_iff in U.
  unfold eqm. rewrite (Z.mod_small 1) by lia. apply Z.fermat_nz; assumption.
Qed.

End prime.

(** ** Pocklington's criterion *)

(** An element of order dividing two coprime exponents is 1. *)
Lemma pow_coprime N b m n : 0 < N -> 0 < m -> 0 < n -> Z.gcd m n = 1 -> b ^ m ≡[N] 1 -> b ^ n ≡[N] 1 -> b ≡[N] 1.
Proof.
  intros HN Hm Hn Hg Em En.
  assert (U : unitm N b).
  { apply unit_intro with (b := b ^ (m - 1)); [exact HN|]. rewrite <- Z.pow_succ_r by lia.
    replace (Z.succ (m - 1)) with m by lia. exact Em. }
  destruct (Z.gcd_bezout m n 1 Hg) as (x & y & E).
  assert (P : forall k e, 0 < e -> b ^ e ≡[N] 1 -> zpow N b (e * k) ≡[N] 1).
  { intros k e He Ee. rewrite <- zpow_zpow by (exact HN || exact U). rewrite (zpow_nonneg N b e) by lia.
    rewrite (zpow_base N) with (b := 1); [|exact HN|apply unit_pow; (exact HN || exact U || lia)|exact Ee].
    unfold zpow. destruct (0 <=? k) eqn:K; b2p; [rewrite Z.pow_1_l by lia; reflexivity|].
    rewrite <- (inv_unique N HN 1 1 (unit_1 N) ltac:(reflexivity)). rewrite Z.pow_1_l by lia. reflexivity. }
  transitivity (zpow N b (x * m + y * n)); [rewrite E, zpow_1; reflexivity|]. rewrite zpow_add by assumption.
  rewrite (Z.mul_comm x), (Z.mul_comm y), (P x m), (P y n) by assumption. apply eqm_eq. reflexivity.
Qed.

Lemma eqm_sub_divide N a b : 0 < N -> (a ≡[N] b <-> (N | a - b)).
Proof.
  intros HN. rewrite <- eqm_0_iff by exact HN. split; intros H.
  - rewrite H. apply eqm_eq. ring.
  - rewrite <- (Z.add_0_l b), <- H. apply eqm_eq. ring.
Qed.

Lemma eqm_divide N q a b : (q | N) -> 0 < N -> 0 < q -> a ≡[N] b -> a ≡[q] b.
Proof.
  intros D HN Hq E. apply eqm_sub_divide; [exact Hq|]. apply eqm_sub_divide in E; [|exact HN].
  eapply Z.divide_trans; eassumption.
Qed.

(** One prime factor [r] of [N - 1] with its base [a]. *)
Lemma pocklington_factor N r a q : 1 < N -> Z.prime r -> Z.prime q -> (q | N) -> (r | N - 1) ->
  a ^ (N - 1) ≡[N] 1 -> Z.gcd (a ^ ((N - 1) / r) - 1) N = 1 -> (r | q - 1).
Proof.
  intros HN Hr Hq Dq [k Ek] E1 E2. pose proof (Z.prime_ge_2 r Hr). pose proof (Z.prime_ge_2 q Hq).
  assert (Hk : (N - 1) / r = k) by (rewrite Ek; apply Z.div_mul; lia). rewrite Hk in E2.
  assert (0 <= k) by nia. set (b := a ^ k) in *.
  assert (Eb : b ^ r ≡[q] 1).
  { apply eqm_divide with (N := N); [exact Dq|lia|lia|]. unfold b. rewrite <- Z.pow_mul_r, <- Ek by lia. exact E1. }
  assert (Hb : ~ b ≡[q] 1).
  { intros C. apply eqm_sub_divide in C; [|lia]. pose proof (Z.gcd_greatest (b - 1) N q C Dq) as D.
    rewrite E2 in D. apply Z.divide_pos_le in D; lia. }
  assert (U : unitm q b).
  { apply unit_intro with (b := b ^ (r - 1)); [lia|]. rewrite <- Z.pow_succ_r by lia.
    replace (Z.succ (r - 1)) with r by lia. exact Eb. }
  destruct (Znumtheory.Zdivide_dec r (q - 1)) as [D|D]; [exact D|exfalso]. apply Hb.
  apply (pow_coprime q b r (q - 1)); try lia; [|exact Eb|apply fermat; assumption].
  apply Z.coprime_prime_l; assumption.
Qed.

(** A number above 1 is prime or has a divisor in between. *)
Lemma prime_or_divisor n : 1 < n -> Z.prime n \/ exists d, 1 < d < n /\ (d | n).
Proof.
  intros Hn.
  destruct (Exists_dec (fun d => (d | n)) (map Z.of_nat (seq 2 (Z.to_nat n - 2)))) as [E|E].
  { intros d. destruct (Znumtheory.Zdivide_dec d n); [left|right]; assumption. }
  - right. apply Exists_exists in E as (d & Hd & D). apply in_map_iff in Hd as (k & <- & Hk). apply in_seq in Hk.
    exists (Z.of_nat k). split; [lia|exact D].
  - left. split; [exact Hn|]. intros d Hd D. apply E, Exists_exists. exists d. split; [|exact D].
    apply in_map_iff. exists (Z.to_nat d). split; [lia|]. apply in_seq. lia.
Qed.

(** Every number above 1 has a prime divisor. *)
Lemma prime_divisor n : 1 < n -> exists q, Z.prime q /\ (q | n).
Proof.
  intros Hn. assert (0 <= n) as H0 by lia. revert Hn. pattern n. apply Z_lt_induction; [|exact H0].
  intros m IH Hm. destruct (prime_or_divisor m Hm) as [P|(d & Hd & D)].
  - exists m. split; [exact P|apply Z.divide_refl].
  - destruct (IH d ltac:(lia) ltac:(lia)) as (q & Pq & Dq). exists q. split; [exact Pq|].
    eapply Z.divide_trans; eassumption.
Qed.

(** A composite number has a prime divisor at most its square root. *)
Lemma composite_divisor n : 1 < n -> Z.prime n \/ exists q, Z.prime q /\ (q | n) /\ q * q <= n.
Proof.
  intros Hn. destruct (prime_or_divisor n Hn) as [P|(d & Hd & [e E])]; [left; exact P|right].
  assert (1 < e) by nia.
  assert (S : forall x y, 1 < x -> n = y * x -> x * x <= n -> exists q, Z.prime q /\ (q | n) /\ q * q <= n).
  { intros x y Hx Exy Hs. destruct (prime_divisor x Hx) as (q & Pq & Dq). exists q. split; [exact Pq|].
    split; [eapply Z.divide_trans; [exact Dq|exists y; exact Exy]|].
    apply Z.divide_pos_le in Dq; [|lia]. pose proof (Z.prime_ge_2 q Pq). nia. }
  destruct (Z.le_gt_cases (d * d) n) as [L|L]; [apply (S d e); assumption || lia|].
  apply (S e d); [lia | lia | nia].
Qed.

(** ** Certificates *)

(** Pairs of a prime factor of [N - 1] and a base. *)
Fixpoint factors_check (N : Z) (cs : list (Z * Z)) : bool :=
  match cs with
  | [] => true
  | (r, a) :: cs =>
      let b := Zpow_mod a ((N - 1) / r) N in
      (Zpow_mod b r N =? 1) && (Z.gcd (b - 1) N =? 1) && (Z.gcd r (prod (map fst cs)) =? 1) && factors_check N cs
  end.

Definition pock_check (N : Z) (cs : list (Z * Z)) : bool :=
  let F := prod (map fst cs) in
  (1 <? N) && ((N - 1) mod F =? 0) && (N <? (F + 1) * (F + 1)) && factors_check N cs.

Lemma prod_pos cs : Forall (fun c : Z * Z => Z.prime (fst c)) cs -> 0 < prod (map fst cs).
Proof.
  induction 1 as [|[r a] cs Hr _ IH]; cbn [map prod fold_right fst]; [lia|]. fold (prod (map fst cs)).
  apply Z.prime_ge_2 in Hr. cbn [fst] in Hr. nia.
Qed.

Lemma gcd_eqm_sub N b x : 0 < N -> x = b mod N -> Z.gcd (x - 1) N = Z.gcd (b - 1) N.
Proof.
  intros HN ->. rewrite (Z.gcd_comm (b mod N - 1)), (Z.gcd_comm (b - 1)).
  rewrite <- (Z.gcd_add_mult_diag_r N (b mod N - 1) (b / N)). f_equal.
  pose proof (Z.div_mod b N ltac:(lia)). lia.
Qed.

Lemma coprime_mul_divide r s x : Z.gcd r s = 1 -> (r | x) -> (s | x) -> (r * s | x).
Proof.
  intros G [k ->] Ds. rewrite Z.mul_comm in Ds. apply Z.gauss in Ds; [|rewrite Z.gcd_comm; exact G].
  destruct Ds as [j ->]. exists j. ring.
Qed.

Lemma factors_divide N q cs : 1 < N -> Z.prime q -> (q | N) -> Forall (fun c => Z.prime (fst c)) cs ->
  (prod (map fst cs) | N - 1) -> factors_check N cs = true -> (prod (map fst cs) | q - 1).
Proof.
  intros HN Hq Dq Hcs. induction Hcs as [|[r a] cs Hr Hcs IH]; [intros; apply Z.divide_1_l|].
  cbn [map prod fold_right fst factors_check]. fold (prod (map fst cs)). cbv zeta. intros D H. cbn [fst] in Hr.
  pose proof (Z.prime_ge_2 r Hr) as Hr1.
  apply andb_true_iff in H as [H H4]. apply andb_true_iff in H as [H H3]. apply andb_true_iff in H as [H1 H2].
  apply Z.eqb_eq in H1, H2, H3.
  assert (Dr : (r | N - 1)) by (eapply Z.divide_trans; [apply Z.divide_factor_l | exact D]).
  assert (Hk : 0 <= (N - 1) / r) by (apply Z.div_pos; lia).
  rewrite !Zpow_mod_correct in * by lia. rewrite gcd_eqm_sub with (b := a ^ ((N - 1) / r)) in H2 by (reflexivity || lia).
  apply coprime_mul_divide; [exact H3| |apply IH; [|exact H4]].
  - apply (pocklington_factor N r a q); try assumption.
    unfold eqm. rewrite (Z.mod_small 1) by lia. destruct Dr as [k Ek].
    rewrite Ek in *. rewrite Z.div_mul in * by lia. rewrite Z.pow_mul_r by nia. rewrite <- H1.
    apply pow_eqm; [symmetry; apply mod_eqm|reflexivity].
  - eapply Z.divide_trans; [apply Z.divide_factor_r | exact D].
Qed.

(** Pocklington's criterion. *)
Lemma pocklington N cs : Forall (fun c => Z.prime (fst c)) cs -> pock_check N cs = true -> Z.prime N.
Proof.
  intros Hcs H. unfold pock_check in H. cbv zeta in H.
  apply andb_true_iff in H as [H H4]. apply andb_true_iff in H as [H H3]. apply andb_true_iff in H as [H1 H2].
  b2p. pose proof (prod_pos cs Hcs) as HF. set (F := prod (map fst cs)) in *.
  apply Z.mod_divide in H2; [|lia].
  destruct (composite_divisor N H1) as [P|(q & Pq & Dq & Sq)]; [exact P|exfalso].
  pose proof (factors_divide N q cs H1 Pq Dq Hcs H2 H4) as D. fold F in D.
  pose proof (Z.prime_ge_2 q Pq). apply Z.divide_pos_le in D; [|lia]. nia.
Qed.

Lemma small_prime n : (1 <? n) && forallb (fun d => negb (n mod Z.of_nat d =? 0)) (seq 2 (Z.to_nat n - 2)) = true ->
  Z.prime n.
Proof.
  intros H. apply andb_true_iff in H as [H1 H]. b2p. rewrite forallb_forall in H. split; [exact H1|].
  intros d Hd D. specialize (H (Z.to_nat d) ltac:(apply in_seq; lia)). rewrite Z2Nat.id in H by lia.
  apply Z.mod_divide in D; [|lia]. rewrite D in H. discriminate H.
Qed.

Create HintDb primes.
