(* ===== verification/Sha256.v ===== *)
(** * Go's [crypto/sha256] (FIPS 180-4)

    The digest the range-proof validator uses for its challenges, executable so
    that concrete proofs can be checked; words are [Z] modulo [2^32]. *)

From Stdlib Require Import ZArith List Lia.
From S2P Require Import Prelude GoBig.
Import ListNotations.
Local Open Scope Z_scope.

Module sha256.

Definition w32 (x : Z) : Z := x mod 4294967296.
Definition rotr (n x : Z) : Z := Z.lor (Z.shiftr x n) (w32 (Z.shiftl x (32 - n))).

Definition bsig0 x := Z.lxor (rotr 2 x) (Z.lxor (rotr 13 x) (rotr 22 x)).
Definition bsig1 x := Z.lxor (rotr 6 x) (Z.lxor (rotr 11 x) (rotr 25 x)).
Definition ssig0 x := Z.lxor (rotr 7 x) (Z.lxor (rotr 18 x) (Z.shiftr x 3)).
Definition ssig1 x := Z.lxor (rotr 17 x) (Z.lxor (rotr 19 x) (Z.shiftr x 10)).
Definition ch x y z := Z.lxor (Z.land x y) (Z.land (4294967295 - x) z).
Definition maj x y z := Z.lxor (Z.land x y) (Z.lxor (Z.land x z) (Z.land y z)).

(** The constants are, as the standard defines them, the first 32 bits of the
    fractional parts of the cube roots of the first 64 primes, and of the square
    roots of the first 8. *)
Definition no_divisor (ps : list Z) (n : Z) : bool := forallb (fun p => negb (n mod p =? 0)) ps.
Fixpoint first_primes (fuel : nat) (n : Z) (ps : list Z) : list Z :=
  match fuel with
  | O => rev ps
  | S fuel => first_primes fuel (n + 1) (if no_divisor ps n then n :: ps else ps)
  end.
(** The largest [r] below [r + 2^n] whose cube is at most [x]. *)
Fixpoint cube_root (n : nat) (r x : Z) : Z :=
  match n with
  | O => r
  | S n => let r' := r + 2 ^ Z.of_nat n in cube_root n (if r' * r' * r' <=? x then r' else r) x
  end.

Definition K : list Z :=
  Eval vm_compute in map (fun p => w32 (cube_root 36 0 (p * 2 ^ 96))) (first_primes 310 2 []).

Record st := St { sa : Z; sb : Z; sc : Z; sd : Z; se : Z; sf : Z; sg : Z; sh : Z }.

Definition H0 : st :=
  Eval vm_compute in
    match map (fun p => w32 (Z.sqrt (p * 2 ^ 64))) (first_primes 18 2 []) with
    | [a; b; c; d; e; f; g; h] => St a b c d e f g h
    | _ => St 0 0 0 0 0 0 0 0
    end.

(** The message schedule, newest word first. *)
Fixpoint schedule (n : nat) (ws : list Z) : list Z :=
  match n with
  | O => ws
  | S n =>
      schedule n (w32 (ssig1 (nth 1 ws 0) + nth 6 ws 0 + ssig0 (nth 14 ws 0) + nth 15 ws 0) :: ws)
  end.

Definition round (s : st) (kw : Z * Z) : st :=
  let t1 := sh s + bsig1 (se s) + ch (se s) (sf s) (sg s) + fst kw + snd kw in
  let t2 := bsig0 (sa s) + maj (sa s) (sb s) (sc s) in
  St (w32 (t1 + t2)) (sa s) (sb s) (sc s) (w32 (sd s + t1)) (se s) (sf s) (sg s).

Definition add_st (s s' : st) : st :=
  St (w32 (sa s + sa s')) (w32 (sb s + sb s')) (w32 (sc s + sc s')) (w32 (sd s + sd s'))
     (w32 (se s + se s')) (w32 (sf s + sf s')) (w32 (sg s + sg s')) (w32 (sh s + sh s')).

(** Sixteen big-endian words from a block of 64 bytes. *)
Fixpoint block_words (n : nat) (bs : list Z) : list Z :=
  match n with
  | O => []
  | S n => SetBytes (firstn 4 bs) :: block_words n (skipn 4 bs)
  end.

Definition compress (s : st) (block : list Z) : st :=
  let ws := rev (schedule 48 (rev (block_words 16 block))) in
  add_st s (fold_left round (combine K ws) s).

Fixpoint blocks (n : nat) (bs : list Z) (s : st) : st :=
  match n with
  | O => s
  | S n => blocks n (skipn 64 bs) (compress s (firstn 64 bs))
  end.

Definition pad (msg : list Z) : list Z :=
  let l := len msg in
  msg ++ [128] ++ zeros ((55 - l) mod 64) ++ be_bytes 8 (8 * l).

Definition words (s : st) : list Z := [sa s; sb s; sc s; sd s; se s; sf s; sg s; sh s].

(** [sha256.Sum256(msg)], or [New] followed by [Write]s of the parts of [msg]
    and [Sum(nil)]. *)
Definition Sum256 (msg : list Z) : list Z :=
  let p := pad msg in
  flat_map (be_bytes 4) (words (blocks (Z.to_nat (len p / 64)) p H0)).

End sha256.

(** The digest is 32 bytes long, whatever the message. *)
Lemma Sum256_len msg : len (sha256.Sum256 msg) = 32.
Proof.
  unfold sha256.Sum256, sha256.words, len. cbn [flat_map].
  rewrite !length_app, !be_bytes_length. reflexivity.
Qed.

Lemma Sum256_ok msg : bytes_ok (sha256.Sum256 msg).
Proof.
  unfold sha256.Sum256, sha256.words. cbn [flat_map].
  rewrite !bytes_ok_app. repeat split; auto with go. constructor.
Qed.

(** FIPS 180-4 vectors: the empty message, "abc", and the two-block message. *)
Example Sum256_empty :
  SetBytes (sha256.Sum256 []) = 0xe3b0c44298fc1c149afbf4c8996fb92427ae41e4649b934ca495991b7852b855.
Proof. vm_compute. reflexivity. Qed.

Example Sum256_abc :
  SetBytes (sha256.Sum256 [97; 98; 99]) =
  0xba7816bf8f01cfea414140de5dae2223b00361a396177a9cb410ff61f20015ad.
Proof. vm_compute. reflexivity. Qed.

Example Sum256_two_blocks :
  SetBytes (sha256.Sum256
    (flat_map (fun i => [97 + i; 98 + i; 99 + i; 100 + i]) [0; 1; 2; 3; 4; 5; 6; 7; 8; 9; 10; 11; 12; 13])) =
  0x248d6a61d20638b8e5c026930c3e6039a33ce45964ff2167f6ecedd419db06c1.
Proof. vm_compute. reflexivity. Qed.
