(* ===== verification/ByteConversion.v ===== *)
(** * Package [byteconversion]

    [conversion.go]: the two's-complement big-endian encoding of integers that
    the Java prover hashes, and [parse.go]: comma-separated decimal integers,
    the wire format of commitments and proofs. *)

From Stdlib Require Import ZArith List Lia Bool.
From S2P Require Import Prelude GoBig.
Import ListNotations.
Local Open Scope Z_scope.

(** ** conversion.go *)

(** [errors.New] values of the package. *)
Inductive convErr : Type :=
| errEmptyArray           (* "Cannot convert empty array to big.Int." *)
| errInvalidBigInteger.   (* "invalid ASCII for big integer" *)

Definition FlipBytes (bytesIn : list Z) : list Z := map (fun b => Z.lxor b 255) bytesIn.

Definition FromByteArray (bytesIn : list Z) : outcome (result Z convErr) :=
  if len bytesIn =? 0 then Ret (Err errEmptyArray)
  else
    let! highestByte := index bytesIn 0 in
    let isNegative := negb (Z.land highestByte 128 =? 0) in
    if isNegative then
      let tmpInt := SetBytes bytesIn - 1 in
      let tmpBytes := Bytes tmpInt in
      let! first := index tmpBytes 0 in
      let! convertedBytes :=
        (if first =? 255
         then slice (FlipBytes tmpBytes) 1 (len (FlipBytes tmpBytes))
         else Ret (FlipBytes tmpBytes)) in
      Ret (Ok (SetBytes convertedBytes * -1))
    else Ret (Ok (SetBytes bytesIn)).

Definition ToByteArray (n : Z) : list Z :=
  let isNegative := n <? 0 in
  let bytes := Bytes n in
  match bytes with
  | [] => [0]
  | highestByte :: _ =>
      if negb isNegative then
        if negb (Z.land highestByte 128 =? 0) then 0 :: bytes else bytes
      else
        let convertedBytes :=
          if negb (Z.land highestByte 128 =? 0) then 255 :: FlipBytes bytes
          else FlipBytes bytes in
        Bytes (SetBytes convertedBytes + 1)
  end.

(** *** Specification: two's complement *)

(** The value of a big-endian two's-complement string. *)
Definition tc_val (bs : list Z) : Z :=
  SetBytes bs - (if 128 <=? hd 0 bs then 256 ^ len bs else 0).

(** The length of the shortest two's-complement string of [z]: the formula
    [ceil((bitLength() + 1) / 8)] of the comment, with the bit length of a
    negative number being that of its complement. *)
Definition tc_min_len (z : Z) : Z := BitLen (if z <? 0 then - z - 1 else z) / 8 + 1.

Lemma flip_byte b : is_byte b -> Z.lxor b 255 = 255 - b.
Proof.
  intros H. apply Z.eqb_eq. revert b H. apply byte_forall. vm_compute. reflexivity.
Qed.

Lemma high_bit b : is_byte b -> (Z.land b 128 =? 0) = (b <? 128).
Proof.
  intros H. apply eqb_true_iff. revert b H.
  apply (byte_forall (fun b => eqb (Z.land b 128 =? 0) (b <? 128))). vm_compute. reflexivity.
Qed.

Lemma FlipBytes_len bs : len (FlipBytes bs) = len bs.
Proof. unfold FlipBytes, len. rewrite length_map. reflexivity. Qed.

Lemma FlipBytes_ok bs : bytes_ok bs -> bytes_ok (FlipBytes bs).
Proof.
  induction 1 as [|b bs Hb _ IH]; constructor; [|exact IH].
  rewrite flip_byte by exact Hb. unfold is_byte in *. lia.
Qed.

(** Flipping every byte complements the value. *)
Lemma FlipBytes_val bs : bytes_ok bs -> SetBytes (FlipBytes bs) = 256 ^ len bs - 1 - SetBytes bs.
Proof.
  induction 1 as [|b bs Hb Hbs IH]; [reflexivity|].
  cbn [FlipBytes map]. fold (FlipBytes bs).
  rewrite !SetBytes_cons, IH, FlipBytes_len, len_cons, flip_byte by exact Hb.
  rewrite Z.pow_add_r by (pose proof (len_nonneg bs); lia). lia.
Qed.

#[export] Hint Resolve FlipBytes_ok : go.

(** The leading byte of a string locates its value. *)
Lemma SetBytes_head b bs :
  bytes_ok (b :: bs) -> b * 256 ^ len bs <= SetBytes (b :: bs) < (b + 1) * 256 ^ len bs.
Proof.
  intros H. inversion H as [|? ? _ Hbs]; subst. rewrite SetBytes_cons.
  pose proof (SetBytes_range bs Hbs). lia.
Qed.

Lemma tc_val_be k x :
  256 ^ k <= 2 * x < 2 * 256 ^ k -> 0 < k -> tc_val (be_bytes (Z.to_nat k) x) = x - 256 ^ k.
Proof.
  intros Hx Hk. unfold tc_val. rewrite SetBytes_be_bytes, be_bytes_len, Z2Nat.id by lia.
  assert (E : 256 ^ k = 256 * 256 ^ (k - 1)) by (rewrite <- Z.pow_succ_r by lia; f_equal; lia).
  assert (0 < 256 ^ (k - 1)) by (apply Z.pow_pos_nonneg; lia).
  rewrite Z.mod_small by lia.
  replace (Z.to_nat k) with (S (Z.to_nat (k - 1))) by lia.
  rewrite be_bytes_head. cbn [hd]. rewrite Z2Nat.id by lia.
  assert (Hq : 128 <= x / 256 ^ (k - 1)) by (apply Z.div_le_lower_bound; lia).
  assert (x / 256 ^ (k - 1) < 256) by (apply Z.div_lt_upper_bound; lia).
  rewrite Z.mod_small by lia. decb. reflexivity.
Qed.

(** What [ToByteArray] returns on a negative number: [256^k + n] on [k] bytes. *)
Lemma ToByteArray_neg n :
  n < 0 ->
  exists k, 0 < k /\ 2 * - n <= 256 ^ k /\
    ToByteArray n = be_bytes (Z.to_nat k) (256 ^ k + n) /\
    (k = byte_len n /\ 2 * - n < 256 ^ byte_len n \/
     k = byte_len n + 1 /\ 256 ^ byte_len n <= 2 * - n).
Proof.
  intros Hn. unfold ToByteArray.
  destruct (Bytes n) as [|h bs] eqn:EB; [apply Bytes_nil_iff in EB; lia|].
  pose proof (Bytes_ok n) as Hok. pose proof (SetBytes_Bytes n) as Hval.
  pose proof (Bytes_len n) as Hlen. rewrite EB in Hok, Hval, Hlen.
  pose proof (SetBytes_head h bs Hok) as Hh.
  assert (is_byte h) as Hhb by (inversion Hok; assumption).
  rewrite Z.abs_neq in Hval by lia. set (L := h :: bs) in *.
  assert (EL : len L = len bs + 1) by apply len_cons.
  pose proof (len_nonneg bs) as Hbs0. set (w := 256 ^ len bs) in *.
  assert (Ew : 256 ^ len L = 256 * w) by (subst w; rewrite EL, Z.pow_add_r by lia; lia).
  assert (0 < w) by (apply Z.pow_pos_nonneg; lia).
  replace (negb (n <? 0)) with false by (symmetry; apply negb_false_iff, Z.ltb_lt; lia).
  rewrite (high_bit h Hhb). unfold is_byte in Hhb.
  rewrite <- Hlen.
  destruct (Z.ltb_spec h 128) as [Hs|Hs]; cbn [negb].
  - exists (len L). rewrite FlipBytes_val by exact Hok.
    rewrite Ew.
    split; [lia|]. split; [nia|]. split; [|left; split; [reflexivity|nia]].
    replace (256 * w - 1 - SetBytes L + 1) with (256 * w + n) by lia.
    apply Bytes_be; [lia|]. replace (len L - 1) with (len bs) by lia. fold w. nia.
  - exists (len L + 1). rewrite SetBytes_cons, FlipBytes_len, FlipBytes_val by exact Hok.
    rewrite Z.pow_add_r, Ew by lia.
    split; [lia|]. split; [nia|]. split; [|right; split; [reflexivity|nia]].
    replace (255 * (256 * w) + (256 * w - 1 - SetBytes L) + 1) with (256 * w * 256 ^ 1 + n) by lia.
    apply Bytes_be; [lia|]. replace (len L + 1 - 1) with (len L) by lia.
    rewrite Z.pow_add_r, Ew by lia. nia.
Qed.

(** [ToByteArray] writes a two's-complement string of its argument. *)
Lemma ToByteArray_tc n : tc_val (ToByteArray n) = n /\ bytes_ok (ToByteArray n) /\ ToByteArray n <> [].
Proof.
  destruct (Z.lt_ge_cases n 0) as [Hn|Hn].
  - destruct (ToByteArray_neg n Hn) as (k & Hk & Hm & -> & _).
    assert (0 < 256 ^ k) by (apply Z.pow_pos_nonneg; lia).
    rewrite tc_val_be by lia. repeat split; [lia|auto with go|].
    intros E. apply (f_equal (@length Z)) in E. rewrite be_bytes_length in E. cbn in E. lia.
  - unfold ToByteArray. destruct (Bytes n) as [|h bs] eqn:EB.
    { apply Bytes_nil_iff in EB. subst n. repeat split; [|discriminate].
      repeat constructor; unfold is_byte; lia. }
    pose proof (Bytes_ok n) as Hok. pose proof (SetBytes_Bytes n) as Hval. rewrite EB in Hok, Hval.
    rewrite Z.abs_eq in Hval by lia.
    assert (is_byte h) as Hh by (inversion Hok; assumption).
    replace (negb (n <? 0)) with true by (symmetry; apply negb_true_iff, Z.ltb_ge; lia).
    rewrite (high_bit h Hh). unfold is_byte in Hh.
    destruct (Z.ltb_spec h 128) as [Hs|Hs]; cbn [negb]; unfold tc_val; cbn [hd]; decb.
    + repeat split; [lia|exact Hok|discriminate].
    + cbn [Z.leb]. rewrite SetBytes_cons. repeat split; [lia| |discriminate].
      constructor; [unfold is_byte; lia|exact Hok].
Qed.

(** [FromByteArray] reads any non-empty byte string as two's complement. *)
Lemma FromByteArray_tc bs : bytes_ok bs -> bs <> [] -> FromByteArray bs = Ret (Ok (tc_val bs)).
Proof.
  intros Hok Hne. destruct bs as [|h bs]; [congruence|].
  unfold FromByteArray. rewrite len_cons. pose proof (len_nonneg bs) as Hl.
  replace (len bs + 1 =? 0) with false by (symmetry; apply Z.eqb_neq; lia).
  rewrite index_0. cbn [obind].
  assert (is_byte h) as Hh by (inversion Hok; assumption).
  rewrite (high_bit h Hh). unfold tc_val. cbn [hd].
  pose proof (SetBytes_head h bs Hok) as Hv. set (L := h :: bs) in *.
  assert (EL : len L = len bs + 1) by apply len_cons.
  set (w := 256 ^ len bs) in *.
  assert (Ew : 256 ^ len L = 256 * w) by (subst w; rewrite EL, Z.pow_add_r by lia; lia).
  assert (0 < w) by (apply Z.pow_pos_nonneg; lia).
  unfold is_byte in Hh.
  destruct (Z.ltb_spec h 128) as [Hs|Hs]; cbn [negb]; decb; [rewrite Z.sub_0_r; reflexivity|].
  assert (EB : Bytes (SetBytes L - 1) = be_bytes (Z.to_nat (len L)) (SetBytes L - 1)).
  { apply Bytes_be; [lia|]. replace (len L - 1) with (len bs) by lia. fold w. rewrite Ew. nia. }
  assert (Hok' : bytes_ok (Bytes (SetBytes L - 1))) by auto with go.
  assert (Hlen' : len (Bytes (SetBytes L - 1)) = len L) by (rewrite EB, be_bytes_len; lia).
  assert (Hval' : SetBytes (Bytes (SetBytes L - 1)) = SetBytes L - 1)
    by (rewrite SetBytes_Bytes, Z.abs_eq by nia; reflexivity).
  destruct (Bytes (SetBytes L - 1)) as [|b tb] eqn:E; [cbn in Hlen'; unfold len in Hlen', EL; cbn in *; lia|].
  rewrite index_0. cbn [obind].
  assert (EF : SetBytes (FlipBytes (b :: tb)) = 256 ^ len L - SetBytes L)
    by (rewrite FlipBytes_val, Hlen', Hval' by exact Hok'; lia).
  destruct (Z.eqb_spec b 255) as [->|Hb]; [|cbn [obind]; rewrite EF; do 2 f_equal; lia].
  rewrite slice_ret by (rewrite FlipBytes_len, len_cons; pose proof (len_nonneg tb); lia).
  cbn [obind FlipBytes map] in *. rewrite SetBytes_cons in EF.
  change (Z.to_nat 1) with 1%nat. cbn [skipn].
  rewrite firstn_all2 by (unfold len; cbn [length]; lia).
  fold (FlipBytes tb) in *. change (Z.lxor 255 255) with 0 in EF.
  do 2 f_equal. lia.
Qed.

(** *** Length of the encoding *)

Lemma pow256 k : 0 <= k -> 256 ^ k = 2 ^ (8 * k).
Proof. intros; rewrite Z.pow_mul_r by lia; reflexivity. Qed.

Lemma tc_min_len_eq z k :
  0 < k ->
  (let m := if z <? 0 then - z - 1 else z in BitLen m <= 8 * k - 1 /\ 8 * (k - 1) <= BitLen m) ->
  tc_min_len z = k.
Proof.
  cbv zeta. intros Hk [H1 H2]. unfold tc_min_len.
  enough (BitLen (if z <? 0 then - z - 1 else z) / 8 = k - 1) by lia.
  symmetry. apply Z.div_unique with (r := BitLen (if z <? 0 then - z - 1 else z) - 8 * (k - 1)); lia.
Qed.

Lemma ToByteArray_len_nonneg n : 0 <= n -> len (ToByteArray n) = tc_min_len n.
Proof.
  intros Hn. unfold ToByteArray. destruct (Bytes n) as [|h bs] eqn:EB.
  { apply Bytes_nil_iff in EB. subst n. reflexivity. }
  pose proof (Bytes_ok n) as Hok. pose proof (SetBytes_Bytes n) as Hval. rewrite EB in Hok, Hval.
  rewrite Z.abs_eq in Hval by lia.
  assert (is_byte h) as Hh by (inversion Hok; assumption).
  replace (negb (n <? 0)) with true by (symmetry; apply negb_true_iff, Z.ltb_ge; lia).
  rewrite (high_bit h Hh). pose proof (SetBytes_head h bs Hok) as Hv. unfold is_byte in Hh.
  pose proof (len_nonneg bs) as H0. assert (0 < 256 ^ len bs) by (apply Z.pow_pos_nonneg; lia).
  assert (n <> 0) as Hnz by (intros ->; discriminate EB).
  pose proof (byte_len_lower n Hnz) as Hlow. rewrite <- Bytes_len, EB, len_cons, Z.add_simpl_r in Hlow.
  rewrite Z.abs_eq, pow256 in Hlow by lia.
  assert (Hb : 8 * len bs < BitLen n) by (apply BitLen_gt_iff; lia).
  assert (E7 : 128 * 256 ^ len bs = 2 ^ (8 * len bs + 7))
    by (rewrite pow256, Z.pow_add_r by lia; change (2 ^ 7) with 128; lia).
  destruct (Z.ltb_spec h 128) as [Hs|Hs]; cbn [negb]; rewrite !len_cons; symmetry;
    apply tc_min_len_eq; try lia; cbv zeta; decb.
  - split; [|lia]. enough (BitLen n <= 8 * len bs + 7) by lia. apply BitLen_le_iff; [lia|]. rewrite <- E7. nia.
  - split; [|enough (8 * len bs + 7 < BitLen n) by lia; apply BitLen_gt_iff; [lia|]; rewrite <- E7; nia].
    enough (BitLen n <= 8 * len bs + 8) by lia. apply BitLen_le_iff; [lia|].
    replace (2 ^ (8 * len bs + 8)) with (256 * 256 ^ len bs)
      by (rewrite pow256, Z.pow_add_r by lia; change (2 ^ 8) with 256; lia). nia.
Qed.

Lemma ToByteArray_len_neg n :
  n < 0 -> (forall k, 0 <= k -> n <> - 2 ^ (8 * k + 7)) -> len (ToByteArray n) = tc_min_len n.
Proof.
  intros Hn Hex. destruct (ToByteArray_neg n Hn) as (k & Hk & Hm & -> & Hc).
  rewrite be_bytes_len, Z2Nat.id by lia. symmetry. apply tc_min_len_eq; [lia|].
  cbv zeta. decb. rewrite pow256 in Hm by lia.
  assert (E : 2 ^ (8 * k) = 2 * 2 ^ (8 * k - 1)) by (rewrite <- Z.pow_succ_r by lia; f_equal; lia).
  split; [apply BitLen_le_iff; lia|].
  destruct Hc as [[-> _] | [Ek Hc]].
  - destruct (Z.eq_dec (byte_len n) 1) as [E1|E1]; [rewrite E1; apply BitLen_nonneg|].
    pose proof (byte_len_lower n ltac:(lia)) as Hlow. rewrite pow256, Z.abs_neq in Hlow by lia.
    enough (8 * (byte_len n - 1) - 1 < BitLen (- n - 1)) by lia.
    apply BitLen_gt_iff; [lia|]. rewrite Z.abs_eq by lia.
    assert (2 ^ (8 * (byte_len n - 1)) = 2 * 2 ^ (8 * (byte_len n - 1) - 1))
      by (rewrite <- Z.pow_succ_r by lia; f_equal; lia).
    assert (0 < 2 ^ (8 * (byte_len n - 1) - 1)) by (apply Z.pow_pos_nonneg; lia). lia.
  - pose proof (byte_len_nonneg n) as H0.
    destruct (Z.eq_dec (byte_len n) 0) as [E0|E0]; [rewrite E0 in *; pose proof (BitLen_nonneg (- n - 1)); lia|].
    rewrite pow256 in Hc by lia.
    assert (E2 : 2 ^ (8 * byte_len n) = 2 * 2 ^ (8 * byte_len n - 1))
      by (rewrite <- Z.pow_succ_r by lia; f_equal; lia).
    pose proof (Hex (byte_len n - 1) ltac:(lia)) as Hne.
    replace (8 * (byte_len n - 1) + 7) with (8 * byte_len n - 1) in Hne by lia.
    enough (8 * byte_len n - 1 < BitLen (- n - 1)) by lia.
    apply BitLen_gt_iff; [lia|]. rewrite Z.abs_eq by lia. lia.
Qed.

Lemma ToByteArray_len_pow k :
  0 <= k -> len (ToByteArray (- 2 ^ (8 * k + 7))) = tc_min_len (- 2 ^ (8 * k + 7)) + 1.
Proof.
  intros Hk. set (n := - 2 ^ (8 * k + 7)).
  assert (Hp : 0 < 2 ^ (8 * k + 7)) by (apply Z.pow_pos_nonneg; lia).
  assert (EP : 2 ^ (8 * k + 7) = 128 * 256 ^ k) by (rewrite pow256, Z.pow_add_r by lia; change (2 ^ 7) with 128; lia).
  assert (0 < 256 ^ k) by (apply Z.pow_pos_nonneg; lia).
  assert (Eb : byte_len n = k + 1).
  { apply byte_len_unique; [lia|]. replace (k + 1 - 1) with k by lia.
    rewrite Z.pow_add_r by lia. subst n. rewrite Z.abs_neq by lia. lia. }
  assert (Et : tc_min_len n = k + 1).
  { apply tc_min_len_eq; [lia|]. cbv zeta. subst n. decb. rewrite Z.opp_involutive.
    split; [apply BitLen_le_iff; [lia|]; replace (8 * (k + 1) - 1) with (8 * k + 7) by lia; lia|].
    enough (8 * k - 1 < BitLen (2 ^ (8 * k + 7) - 1)) by lia.
    destruct (Z.eq_dec k 0) as [->|]; [cbn; lia|].
    apply BitLen_gt_iff; [lia|]. rewrite Z.abs_eq by lia.
    assert (2 ^ (8 * k - 1) < 2 ^ (8 * k + 7)) by (apply Z.pow_lt_mono_r; lia). lia. }
  destruct (ToByteArray_neg n ltac:(lia)) as (j & Hj & Hm & -> & Hc).
  rewrite be_bytes_len, Z2Nat.id, Et by lia.
  destruct Hc as [[_ Hlt] | [-> _]]; [|lia]. exfalso.
  rewrite Eb, Z.pow_add_r in Hlt by lia. subst n. lia.
Qed.

(** ** parse.go *)

(** The validation loop of [ConvertToBigInt], from position [idx] on. *)
Fixpoint valid_from (idx : Z) (s : list Z) : bool :=
  match s with
  | [] => true
  | element :: s =>
      if negb (((48 <=? element) && (element <=? 57)) || ((idx =? 0) && (element =? 45)))
      then false else valid_from (idx + 1) s
  end.

(** The receiver keeps the value 0 when [SetString] fails (no digits), and the
    failure is not reported. *)
Definition ConvertToBigInt (s : list Z) : result Z convErr :=
  if valid_from 0 s
  then Ok (match SetString10 s with Some v => v | None => 0 end)
  else Err errInvalidBigInteger.

(** The [range] loop of [ParseInput]: [rest] is what is left of [s] from
    position [idx] on; the state is [prevIndex] and [output]. *)
Fixpoint parse_loop (s rest : list Z) (idx prevIndex : Z) (output : list Z)
  : outcome (result (Z * list Z) convErr) :=
  match rest with
  | [] => Ret (Ok (prevIndex, output))
  | element :: rest =>
      if element =? 44 then
        let! part := slice s prevIndex idx in
        try! newInt := ConvertToBigInt part in
        parse_loop s rest (idx + 1) (idx + 1) (output ++ [newInt])
      else parse_loop s rest (idx + 1) prevIndex output
  end.

Definition ParseInput (s : list Z) : outcome (result (list Z) convErr) :=
  let! r := parse_loop s s 0 0 [] in
  try! (prevIndex, output) := r in
  let! part := slice s prevIndex (len s) in
  try! newInt := ConvertToBigInt part in
  Ret (Ok (output ++ [newInt])).

(** *** Specification *)

(** The parts of [s] between commas; [cur] is the part being read. *)
Fixpoint split_commas (cur s : list Z) : list (list Z) :=
  match s with
  | [] => [cur]
  | b :: s => if b =? 44 then cur :: split_commas [] s else split_commas (cur ++ [b]) s
  end.

(** Convert the parts in order and stop at the first invalid one. *)
Fixpoint convert_all (parts : list (list Z)) : result (list Z) convErr :=
  match parts with
  | [] => Ok []
  | p :: parts =>
      match ConvertToBigInt p with
      | Err e => Err e
      | Ok v => match convert_all parts with Err e => Err e | Ok vs => Ok (v :: vs) end
      end
  end.

(** The decimal numeral of an integer, as [String()] and Java's [toString] write it. *)
Fixpoint dec_digits (fuel : nat) (x : Z) : list Z :=
  match fuel with
  | O => []
  | S fuel => if x <? 10 then [48 + x] else dec_digits fuel (x / 10) ++ [48 + x mod 10]
  end.

Definition decimal (z : Z) : list Z :=
  let ds := dec_digits (Z.to_nat (BitLen z + 1)) (Z.abs z) in
  if z <? 0 then 45 :: ds else ds.

(** Numerals joined by commas. *)
Fixpoint join_commas (zs : list Z) : list Z :=
  match zs with
  | [] => []
  | [z] => decimal z
  | z :: zs => decimal z ++ 44 :: join_commas zs
  end.

(** [ParseInput] never slices out of range: it converts the comma-separated
    parts from left to right. *)
Lemma parse_loop_spec s : forall rest pre cur output,
  s = pre ++ cur ++ rest ->
  (let! r := parse_loop s rest (len pre + len cur) (len pre) output in
   try! (prevIndex, output) := r in
   let! part := slice s prevIndex (len s) in
   try! newInt := ConvertToBigInt part in
   Ret (Ok (output ++ [newInt]))) =
  Ret (match convert_all (split_commas cur rest) with
       | Ok vs => Ok (output ++ vs) | Err e => Err e end).
Proof.
  assert (sl : forall (pre cur rest : list Z),
    slice (pre ++ cur ++ rest) (len pre) (len pre + len cur) = Ret cur).
  { intros pre cur rest. rewrite slice_ret
      by (rewrite ?len_app; pose proof (len_nonneg pre); pose proof (len_nonneg cur); pose proof (len_nonneg rest); lia).
    unfold len. replace (Z.to_nat (Z.of_nat (length pre))) with (length pre) by lia.
    rewrite skipn_app, skipn_all, Nat.sub_diag. cbn [skipn app].
    replace (Z.to_nat _) with (length cur) by lia.
    rewrite firstn_app, Nat.sub_diag, firstn_all. cbn. rewrite app_nil_r. reflexivity. }
  induction rest as [|b rest IH]; intros pre cur output Hs.
  - cbn [parse_loop obind split_commas convert_all]. subst s.
    rewrite !len_app. change (len []) with 0. rewrite Z.add_0_r, sl. cbn [obind].
    destruct (ConvertToBigInt cur); reflexivity.
  - cbn [parse_loop split_commas]. destruct (b =? 44) eqn:Eb.
    + replace (slice s (len pre) (len pre + len cur)) with (Ret cur) by (rewrite Hs, sl; reflexivity).
      cbn [obind convert_all].
      destruct (ConvertToBigInt cur) as [v|e]; [|reflexivity].
      specialize (IH (pre ++ cur ++ [b]) [] (output ++ [v])).
      replace (len (pre ++ cur ++ [b])) with (len pre + len cur + 1) in IH
        by (rewrite !len_app; change (len [b]) with 1; lia).
      change (len []) with 0 in IH.
      rewrite Z.add_0_r in IH. rewrite IH by (rewrite Hs, <- !app_assoc; reflexivity).
      destruct (convert_all (split_commas [] rest)); [|reflexivity].
      rewrite <- app_assoc. reflexivity.
    + specialize (IH pre (cur ++ [b]) output).
      rewrite len_app in IH. change (len [b]) with 1 in IH. rewrite Z.add_assoc in IH.
      apply IH. rewrite Hs, <- app_assoc. reflexivity.
Qed.

Lemma ParseInput_spec s : ParseInput s = Ret (convert_all (split_commas [] s)).
Proof.
  etransitivity; [exact (parse_loop_spec s s [] [] [] eq_refl)|].
  destruct (convert_all _); reflexivity.
Qed.

(** *** Decimal numerals *)

Definition is_digit (b : Z) : Prop := 48 <= b <= 57.

Lemma digits_val_app s1 s2 a :
  digits_val a (s1 ++ s2) = match digits_val a s1 with Some v => digits_val v s2 | None => None end.
Proof.
  revert a; induction s1 as [|b s1 IH]; intros a; [reflexivity|].
  cbn [digits_val app]. destruct (_ && _); [apply IH | reflexivity].
Qed.

Lemma dec_digits_S fuel x :
  dec_digits (S fuel) x = if x <? 10 then [48 + x] else dec_digits fuel (x / 10) ++ [48 + x mod 10].
Proof. reflexivity. Qed.

Lemma dec_digits_spec fuel x :
  0 <= x < 2 ^ Z.of_nat fuel ->
  digits_val 0 (dec_digits (S fuel) x) = Some x /\
  Forall is_digit (dec_digits (S fuel) x) /\ dec_digits (S fuel) x <> [].
Proof.
  revert x; induction fuel as [|fuel IH]; intros x Hx.
  - assert (x = 0) as -> by (cbn in Hx; lia).
    repeat split; [|discriminate]. constructor; [unfold is_digit; lia | constructor].
  - rewrite dec_digits_S. destruct (Z.ltb_spec x 10) as [Hs|Hs].
    { cbn [digits_val]. decb. cbn [andb]. repeat split; [f_equal; lia| |discriminate].
      constructor; [unfold is_digit; lia | constructor]. }
    rewrite Nat2Z.inj_succ, Z.pow_succ_r in Hx by lia.
    pose proof (Z.mod_pos_bound x 10 ltac:(lia)).
    pose proof (Z.div_mod x 10 ltac:(lia)).
    destruct (IH (x / 10)) as (E & F & _).
    { split; [apply Z.div_pos; lia|]. apply Z.div_lt_upper_bound; lia. }
    rewrite digits_val_app, E. cbn [digits_val]. decb. cbn [andb].
    repeat split; [f_equal; lia| |intros E'; apply app_eq_nil in E' as [_ E']; discriminate].
    apply Forall_app; split; [exact F|]. constructor; [unfold is_digit; lia | constructor].
Qed.

Lemma valid_from_digits s idx : Forall is_digit s -> valid_from idx s = true.
Proof.
  intros H; revert idx; induction H as [|b s Hb _ IH]; intros idx; [reflexivity|].
  cbn [valid_from]. unfold is_digit in Hb. decb. cbn. apply IH.
Qed.

Lemma valid_from_minus s : valid_from 0 (45 :: s) = valid_from 1 s.
Proof. reflexivity. Qed.

Lemma decimal_digits z :
  exists d ds, decimal z = (if z <? 0 then [45] else []) ++ d :: ds /\
    Forall is_digit (d :: ds) /\ digits_val 0 (d :: ds) = Some (Z.abs z).
Proof.
  unfold decimal.
  pose proof (BitLen_nonneg z). pose proof (BitLen_bound z).
  replace (Z.to_nat (BitLen z + 1)) with (S (Z.to_nat (BitLen z))) by lia.
  destruct (dec_digits_spec (Z.to_nat (BitLen z)) (Z.abs z)) as (E & F & N).
  { rewrite Z2Nat.id by lia. lia. }
  destruct (dec_digits _ _) as [|d ds]; [congruence|].
  exists d, ds. destruct (z <? 0); auto.
Qed.

(** Reading a decimal numeral gives the integer back. *)
Lemma ConvertToBigInt_decimal z : ConvertToBigInt (decimal z) = Ok z.
Proof.
  destruct (decimal_digits z) as (d & ds & -> & F & E).
  unfold ConvertToBigInt. destruct (Z.ltb_spec z 0) as [Hz|Hz]; cbn [app].
  - rewrite (valid_from_minus (d :: ds)), valid_from_digits by exact F.
    cbn [SetString10]. change ((45 =? 45) || (45 =? 43)) with true. cbv iota.
    rewrite E. cbn. f_equal. lia.
  - rewrite valid_from_digits by exact F. cbn [SetString10].
    inversion F as [|? ? Hd _]; subst. unfold is_digit in Hd. decb. cbn [orb].
    rewrite E. f_equal. lia.
Qed.

Lemma decimal_no_comma z : Forall (fun b => b <> 44) (decimal z).
Proof.
  destruct (decimal_digits z) as (d & ds & -> & F & _).
  apply Forall_app; split; [destruct (z <? 0); repeat constructor; lia|].
  eapply Forall_impl; [|exact F]. unfold is_digit; intros; lia.
Qed.

Lemma split_commas_app cur p s :
  Forall (fun b => b <> 44) p -> split_commas cur (p ++ s) = split_commas (cur ++ p) s.
Proof.
  intros H; revert cur; induction H as [|b p Hb _ IH]; intros cur; [rewrite app_nil_r; reflexivity|].
  cbn [app split_commas]. rewrite (proj2 (Z.eqb_neq b 44) Hb), IH, <- app_assoc. reflexivity.
Qed.

Lemma split_join zs : zs <> [] -> split_commas [] (join_commas zs) = map decimal zs.
Proof.
  induction zs as [|z zs IH]; [congruence|]. intros _.
  destruct zs as [|z' zs].
  - cbn [join_commas map]. rewrite <- (app_nil_r (decimal z)).
    rewrite split_commas_app by apply decimal_no_comma. rewrite app_nil_r. reflexivity.
  - cbn [map]. change (join_commas (z :: z' :: zs)) with (decimal z ++ 44 :: join_commas (z' :: zs)).
    rewrite split_commas_app by apply decimal_no_comma. cbn [split_commas Z.eqb Pos.eqb app].
    rewrite IH by discriminate. reflexivity.
Qed.

Lemma convert_all_decimal zs : convert_all (map decimal zs) = Ok zs.
Proof.
  induction zs as [|z zs IH]; [reflexivity|].
  cbn [map convert_all]. rewrite ConvertToBigInt_decimal, IH. reflexivity.
Qed.

Lemma ParseInput_join zs : zs <> [] -> ParseInput (join_commas zs) = Ret (Ok zs).
Proof. intros H. rewrite ParseInput_spec, split_join, convert_all_decimal by exact H. reflexivity. Qed.

(** What is written is ASCII and not empty. *)
Lemma decimal_ok z : bytes_ok (decimal z) /\ 0 < len (decimal z).
Proof.
  destruct (decimal_digits z) as (d & ds & -> & F & _). split.
  - apply bytes_ok_app. split; [destruct (z <? 0); repeat constructor; lia|].
    eapply Forall_impl; [|exact F]. unfold is_digit, is_byte; intros; lia.
  - rewrite len_app, len_cons. pose proof (len_nonneg (if z <? 0 then [45] else [])). pose proof (len_nonneg ds). lia.
Qed.

Lemma join_commas_ok zs : zs <> [] -> bytes_ok (join_commas zs) /\ 0 < len (join_commas zs).
Proof.
  induction zs as [|z zs IH]; [congruence|]. intros _. destruct zs as [|z' zs]; [apply decimal_ok|].
  change (join_commas (z :: z' :: zs)) with (decimal z ++ 44 :: join_commas (z' :: zs)).
  destruct (decimal_ok z), (IH ltac:(discriminate)). rewrite len_app, len_cons. split; [|lia].
  apply bytes_ok_app. split; [assumption|]. constructor; [unfold is_byte; lia | assumption].
Qed.

(** ** Properties *)

(** [ToByteArray] produces a non-empty byte string whose two's-complement
    value is the number, and [FromByteArray] reads it back. *)
Theorem conversion_roundtrip n :
  bytes_ok (ToByteArray n) /\ ToByteArray n <> [] /\ tc_val (ToByteArray n) = n /\
  FromByteArray (ToByteArray n) = Ret (Ok n).
Proof.
  destruct (ToByteArray_tc n) as (E & H1 & H2).
  rewrite FromByteArray_tc by assumption. rewrite E. auto.
Qed.

(** [FromByteArray] returns the two's-complement value of every byte string,
    padded or not, and the error for the empty one only. *)
Theorem FromByteArray_correct bs : bytes_ok bs ->
  FromByteArray bs = Ret (match bs with [] => Err errEmptyArray | _ => Ok (tc_val bs) end).
Proof.
  intros H. destruct bs as [|b bs]; [reflexivity|]. apply FromByteArray_tc; [exact H|discriminate].
Qed.

Lemma FromByteArray_correct_witness : FromByteArray [255; 128; 0] = Ret (Ok (- 32768)).
Proof. apply (FromByteArray_correct [255; 128; 0]). repeat constructor; unfold is_byte; lia. Defined.

(** The encoding has the minimal length [ceil((bitLength + 1) / 8)] the
    comment promises, except for the numbers [-2^(8k+7)], for which it has one
    byte more. *)
Theorem ToByteArray_length n :
  ((exists k, 0 <= k /\ n = - 2 ^ (8 * k + 7)) /\ len (ToByteArray n) = tc_min_len n + 1) \/
  ((forall k, 0 <= k -> n <> - 2 ^ (8 * k + 7)) /\ len (ToByteArray n) = tc_min_len n).
Proof.
  destruct (Z.lt_ge_cases n 0) as [Hn|Hn].
  - set (k := (Z.log2 (- n) - 7) / 8).
    destruct (Z.eq_dec n (- 2 ^ (8 * k + 7))) as [E|E].
    + destruct (Z.lt_ge_cases k 0) as [Hk|Hk].
      * exfalso. assert (7 + 8 * k < 0) by lia. rewrite Z.pow_neg_r in E; lia.
      * left. split; [eauto|]. rewrite E. apply ToByteArray_len_pow, Hk.
    + assert (F : forall j, 0 <= j -> n <> - 2 ^ (8 * j + 7)).
      { intros j Hj Ej. apply E. unfold k. rewrite Ej, Z.opp_involutive, Z.log2_pow2 by lia.
        replace ((8 * j + 7 - 7) / 8) with j by (apply Z.div_unique with 0; lia). reflexivity. }
      right. split; [exact F|]. apply ToByteArray_len_neg; assumption.
  - right. split; [|apply ToByteArray_len_nonneg; lia].
    intros k Hk ->. pose proof (Z.pow_pos_nonneg 2 (8 * k + 7)). lia.
Qed.

(** C37: [ParseInput] splits the string at its commas and converts every part,
    the first bad part being reported as the error; it never panics. *)
Theorem ParseInput_refines s : ParseInput s = Ret (convert_all (split_commas [] s)).
Proof. apply ParseInput_spec. Qed.

(** [ParseInput] reads back any list of numbers written in decimal and
    joined with commas. *)
Theorem ParseInput_roundtrip zs : zs <> [] -> ParseInput (join_commas zs) = Ret (Ok zs).
Proof. apply ParseInput_join. Qed.

Lemma ParseInput_roundtrip_witness : ParseInput [45; 49; 44; 50; 51] = Ret (Ok [-1; 23]).
Proof. apply (ParseInput_roundtrip [-1; 23]). discriminate. Defined.
