(* ===== verification/ByteBuf.v ===== *)
(** * Byte buffers

    Go's [copy] into a slice of a buffer, padded big-endian words, and the
    layout shared by the marshalled points of [bn256] and the words of the EVM:
    a sequence of 32-byte big-endian numbers. *)

From Stdlib Require Import ZArith List Lia Bool.
From S2P Require Import Prelude GoBig.
Import ListNotations.
Local Open Scope Z_scope.

(** [copy(dst[off:], src)]: the new contents of [dst]. *)
Definition copy_to (dst : list Z) (off : Z) (src : list Z) : outcome (list Z) :=
  if (0 <=? off) && (off <=? len dst) then
    Ret (firstn (Z.to_nat off) dst ++ firstn (Z.to_nat (len dst - off)) src
         ++ skipn (Z.to_nat off + length src) dst)
  else Panic.

Lemma copy_to_app pre mid post src : length mid = length src ->
  copy_to (pre ++ mid ++ post) (len pre) src = Ret (pre ++ src ++ post).
Proof.
  intros H. unfold copy_to. rewrite !len_app. pose proof (len_nonneg pre). pose proof (len_nonneg mid).
  pose proof (len_nonneg post). decb. cbn [andb]. f_equal.
  replace (Z.to_nat (len pre)) with (length pre) by (unfold len; lia).
  rewrite firstn_app, Nat.sub_diag, firstn_all, firstn_O, app_nil_r.
  rewrite (firstn_all2 src) by (unfold len in *; lia).
  rewrite <- H, <- length_app, (app_assoc pre mid post), skipn_app, skipn_all, Nat.sub_diag. reflexivity.
Qed.

Lemma copy_to_len dst off src r : copy_to dst off src = Ret r -> len r = len dst.
Proof.
  unfold copy_to. destruct (_ && _) eqn:E; [|discriminate]. intros [= <-]. b2p. unfold len in *.
  rewrite !length_app, !length_firstn, length_skipn. lia.
Qed.

(** ** Padded words *)

(** Left-padding the bytes of [v] to [n] bytes writes [v] in [n] bytes. *)
Lemma pad_be_bytes n v : 0 <= v < 256 ^ Z.of_nat n ->
  (byte_len v <= Z.of_nat n) /\ zeros (Z.of_nat n - byte_len v) ++ Bytes v = be_bytes n v.
Proof.
  intros Hv. assert (Hl : byte_len v <= Z.of_nat n).
  { destruct (Z.eq_dec v 0) as [->|H0]; [cbn; lia|]. pose proof (byte_len_lower v H0) as L.
    rewrite Z.abs_eq in L by lia. apply Z.nlt_ge. intros Hlt.
    assert (256 ^ Z.of_nat n <= 256 ^ (byte_len v - 1)) by (apply Z.pow_le_mono_r; lia). lia. }
  split; [exact Hl|]. pose proof (byte_len_nonneg v) as H0.
  set (bs := zeros (Z.of_nat n - byte_len v) ++ Bytes v).
  assert (Hlen : length bs = n).
  { assert (E : len bs = Z.of_nat n) by (unfold bs; rewrite len_app, zeros_len, Bytes_len by lia; lia).
    unfold len in E. lia. }
  assert (Hok : bytes_ok bs) by (apply bytes_ok_app; split; [apply zeros_ok | apply Bytes_ok]).
  assert (Hval : SetBytes bs = v)
    by (unfold bs; rewrite SetBytes_app, SetBytes_zeros, SetBytes_Bytes, Z.abs_eq by lia; lia).
  pose proof (be_bytes_SetBytes bs Hok) as E. rewrite Hlen, Hval in E. symmetry. exact E.
Qed.

Definition numBytes : Z := 32.

(** [copy(ret[k*numBytes-len(b):], b)] for each number [b], [k] counting from 1. *)
Fixpoint put_words (ret : list Z) (k : Z) (vs : list Z) : outcome (list Z) :=
  match vs with
  | [] => Ret ret
  | v :: vs =>
      let bs := Bytes v in
      let! ret := copy_to ret (k * numBytes - len bs) bs in
      put_words ret (k + 1) vs
  end.

(** [SetBytes(m[k*numBytes : (k+1)*numBytes])] for [n] words, [k] counting from 0. *)
Fixpoint get_words (m : list Z) (k : Z) (n : nat) : outcome (list Z) :=
  match n with
  | O => Ret []
  | S n =>
      let! w := slice m (k * numBytes) ((k + 1) * numBytes) in
      let! ws := get_words m (k + 1) n in
      Ret (SetBytes w :: ws)
  end.

Definition word_range (v : Z) : Prop := 0 <= v < 256 ^ 32.
Definition words_bytes (vs : list Z) : list Z := flat_map (be_bytes 32) vs.

Lemma words_bytes_len vs : len (words_bytes vs) = 32 * len vs.
Proof.
  induction vs as [|v vs IH]; [reflexivity|]. cbn [words_bytes flat_map]. fold (words_bytes vs).
  rewrite len_app, len_cons, be_bytes_len, IH. lia.
Qed.

Lemma words_bytes_ok vs : bytes_ok (words_bytes vs).
Proof.
  induction vs as [|v vs IH]; [constructor|]. apply bytes_ok_app. split; [apply be_bytes_ok | exact IH].
Qed.

Lemma zeros_split m n : 0 <= m -> 0 <= n -> zeros (m + n) = zeros m ++ zeros n.
Proof. intros. unfold zeros. rewrite Z2Nat.inj_add by assumption. apply repeat_app. Qed.

Lemma put_words_spec vs : forall pre, Forall word_range vs -> len pre mod 32 = 0 ->
  put_words (pre ++ zeros (32 * len vs)) (len pre / 32 + 1) vs = Ret (pre ++ words_bytes vs).
Proof.
  induction vs as [|v vs IH]; intros pre Hv Hp; [reflexivity|].
  inversion Hv as [|? ? Hv1 Hvs]; subst. cbn [put_words words_bytes flat_map]. cbv zeta.
  destruct (pad_be_bytes 32 v Hv1) as [Hl Hb]. change (Z.of_nat 32) with 32 in *.
  pose proof (byte_len_nonneg v) as H0. pose proof (len_nonneg vs) as H1.
  pose proof (Z.div_mod (len pre) 32 ltac:(lia)) as D.
  replace (32 * len (v :: vs)) with ((32 - byte_len v) + byte_len v + 32 * len vs) by (rewrite len_cons; lia).
  rewrite !zeros_split by lia. rewrite Bytes_len. unfold numBytes.
  replace ((len pre / 32 + 1) * 32 - byte_len v) with (len (pre ++ zeros (32 - byte_len v)))
    by (rewrite len_app, zeros_len by lia; lia).
  rewrite !app_assoc, <- (app_assoc (pre ++ _)).
  rewrite copy_to_app by (pose proof (zeros_len (byte_len v) H0); pose proof (Bytes_len v); unfold len in *; lia).
  cbn [obind]. replace ((pre ++ zeros (32 - byte_len v)) ++ Bytes v ++ zeros (32 * len vs))
    with ((pre ++ be_bytes 32 v) ++ zeros (32 * len vs)) by (rewrite <- Hb, <- !app_assoc; reflexivity).
  assert (Hlen : len (pre ++ be_bytes 32 v) = len pre + 32) by (rewrite len_app, be_bytes_len; reflexivity).
  replace (len pre / 32 + 1 + 1) with (len (pre ++ be_bytes 32 v) / 32 + 1)
    by (rewrite Hlen; replace (len pre + 32) with (len pre + 1 * 32) by ring; rewrite Z.div_add by lia; lia).
  rewrite IH; [reflexivity | exact Hvs |].
  rewrite Hlen. replace (len pre + 32) with (len pre + 1 * 32) by ring. rewrite Z.mod_add by lia. exact Hp.
Qed.

Lemma put_words_zeros vs : Forall word_range vs -> put_words (zeros (32 * len vs)) 1 vs = Ret (words_bytes vs).
Proof. intros H. exact (put_words_spec vs [] H eq_refl). Qed.

Lemma get_words_spec vs : forall pre, Forall word_range vs -> len pre mod 32 = 0 ->
  get_words (pre ++ words_bytes vs) (len pre / 32) (length vs) = Ret vs.
Proof.
  induction vs as [|v vs IH]; intros pre Hv Hp; [reflexivity|].
  inversion Hv as [|? ? Hv1 Hvs]; subst. cbn [get_words length words_bytes flat_map]. fold (words_bytes vs).
  pose proof (Z.div_mod (len pre) 32 ltac:(lia)) as D. unfold numBytes.
  replace (len pre / 32 * 32) with (len pre) by lia.
  replace ((len pre / 32 + 1) * 32) with (len pre + 32) by lia.
  rewrite slice_ret.
  2: pose proof (len_nonneg pre); lia.
  2: rewrite !len_app, be_bytes_len; pose proof (len_nonneg (words_bytes vs)); lia.
  replace (Z.to_nat (len pre + 32 - len pre)) with 32%nat by lia.
  replace (Z.to_nat (len pre)) with (length pre) by (unfold len; lia).
  rewrite skipn_app, skipn_all, Nat.sub_diag. cbn [skipn app].
  rewrite firstn_app, be_bytes_length, Nat.sub_diag, firstn_O, app_nil_r.
  rewrite firstn_all2 by (rewrite be_bytes_length; lia). cbn [obind].
  assert (Hlen : len (pre ++ be_bytes 32 v) = len pre + 32) by (rewrite len_app, be_bytes_len; reflexivity).
  replace (len pre / 32 + 1) with (len (pre ++ be_bytes 32 v) / 32)
    by (rewrite Hlen; replace (len pre + 32) with (len pre + 1 * 32) by ring; rewrite Z.div_add by lia; lia).
  rewrite app_assoc, IH; [|exact Hvs|].
  - cbn [obind]. rewrite SetBytes_be_bytes, Z.mod_small by exact Hv1. reflexivity.
  - rewrite Hlen. replace (len pre + 32) with (len pre + 1 * 32) by ring. rewrite Z.mod_add by lia. exact Hp.
Qed.

Lemma get_words_bytes vs : Forall word_range vs -> get_words (words_bytes vs) 0 (length vs) = Ret vs.
Proof. intros H. exact (get_words_spec vs [] H eq_refl). Qed.
