(* ===== verification/Rlp.v ===== *)
(** * Package [rlp]: encoding and splitting

    [rlp/encode.go] and [rlp/raw.go].  The writers the reflection of the source
    selects by type are the cases of [encode] on a value; an encoder buffer is
    its string data and the list headers with their offsets, as in the source.
    [int] sizes are not wrapped: they are lengths of slices in memory. *)

From Stdlib Require Import ZArith List Lia Bool.
From S2P Require Import Prelude GoBig ByteBuf.
Import ListNotations.
Local Open Scope Z_scope.

Inductive rlpErr : Type :=
| ErrUnexpectedEOF
| ErrCanonSize
| ErrValueTooLarge
| ErrExpectedString
| ErrExpectedList
| errNegativeBigInt.

(** ** Sizes *)

Fixpoint intsize_loop (fuel : nat) (size i : Z) : Z :=
  match fuel with
  | O => size
  | S fuel => let i := Z.shiftr i 8 in if i =? 0 then size else intsize_loop fuel (size + 1) i
  end.
(** Eight iterations suffice for a [uint64]. *)
Definition intsize (i : Z) : Z := intsize_loop 8 1 i.

Definition headsize (size : Z) : Z := if size <? 56 then 1 else 1 + intsize size.

(** [putint(b, i)]: the bytes it writes at the beginning of [b]. *)
Definition putint (i : Z) : list Z :=
  let byte k := u8 (Z.shiftr i k) in
  if i <? Z.shiftl 1 8 then [byte 0]
  else if i <? Z.shiftl 1 16 then [byte 8; byte 0]
  else if i <? Z.shiftl 1 24 then [byte 16; byte 8; byte 0]
  else if i <? Z.shiftl 1 32 then [byte 24; byte 16; byte 8; byte 0]
  else if i <? Z.shiftl 1 40 then [byte 32; byte 24; byte 16; byte 8; byte 0]
  else if i <? Z.shiftl 1 48 then [byte 40; byte 32; byte 24; byte 16; byte 8; byte 0]
  else if i <? Z.shiftl 1 56 then [byte 48; byte 40; byte 32; byte 24; byte 16; byte 8; byte 0]
  else [byte 56; byte 48; byte 40; byte 32; byte 24; byte 16; byte 8; byte 0].

(** The header [puthead] writes; [encodeStringHeader] writes the one of strings. *)
Definition puthead (smalltag largetag size : Z) : list Z :=
  if size <? 56 then [u8 (smalltag + u8 size)]
  else let b := putint size in u8 (largetag + u8 (len b)) :: b.

(** ** The buffer *)

Record listhead : Type := mkHead { offset : Z; size : Z }.
Record encbuf : Type := mkBuf { str : list Z; lheads : list listhead; lhsize : Z }.

Definition reset : encbuf := mkBuf [] [] 0.
Definition write (w : encbuf) (b : list Z) : encbuf := mkBuf (str w ++ b) (lheads w) (lhsize w).
Definition listhead_encode (head : listhead) : list Z := puthead 0xC0 0xF7 (size head).

Definition encodeStringHeader (w : encbuf) (size : Z) : encbuf := write w (puthead 0x80 0xB7 size).

Definition encodeString (w : encbuf) (b : list Z) : encbuf :=
  match b with
  | [x] => if x <=? 0x7F then write w [x] else write (encodeStringHeader w 1) b
  | _ => write (encodeStringHeader w (len b)) b
  end.

Definition buf_size (w : encbuf) : Z := len (str w) + lhsize w.

(** [w.list()]: the new header, as its position among the headers. *)
Definition list_ (w : encbuf) : nat * encbuf :=
  (length (lheads w), mkBuf (str w) (lheads w ++ [mkHead (len (str w)) (lhsize w)]) (lhsize w)).

Definition listEnd (w : encbuf) (lh : nat) : encbuf :=
  match nth_error (lheads w) lh with
  | None => w
  | Some h =>
      let sz := buf_size w - offset h - size h in
      mkBuf (str w) (firstn lh (lheads w) ++ mkHead (offset h) sz :: skipn (S lh) (lheads w))
        (lhsize w + (if sz <? 56 then 1 else 1 + intsize sz))
  end.

(** ** The writers *)

Inductive val : Type :=
| VRaw (b : list Z)
| VUint (i : Z)
| VBool (b : bool)
| VBigInt (i : option Z)
| VBytes (b : list Z)
| VString (b : list Z)
| VNil
| VList (vs : list val).

Definition writeUint (w : encbuf) (i : Z) : encbuf :=
  if i =? 0 then write w [0x80]
  else if i <? 128 then write w [u8 i]
  else let b := putint i in write w (u8 (0x80 + u8 (len b)) :: b).

Definition writeBigInt (w : encbuf) (i : Z) : result encbuf rlpErr :=
  if i <? 0 then Err errNegativeBigInt
  else if i =? 0 then Ok (write w [0x80])
  else Ok (encodeString w (Bytes i)).

Fixpoint encode (v : val) (w : encbuf) : result encbuf rlpErr :=
  match v with
  | VRaw b => Ok (write w b)
  | VUint i => Ok (writeUint w i)
  | VBool b => Ok (write w [if b then 0x01 else 0x80])
  | VBigInt None => Ok (write w [0x80])
  | VBigInt (Some i) => writeBigInt w i
  | VBytes b => Ok (encodeString w b)
  | VString b => Ok (encodeString w b)
  | VNil => Ok (write w [0xC0])
  | VList vs =>
      let '(lh, w) := list_ w in
      match
        (fix elems (vs : list val) (w : encbuf) : result encbuf rlpErr :=
           match vs with
           | [] => Ok w
           | v :: vs => match encode v w with Ok w => elems vs w | Err e => Err e end
           end) vs w
      with
      | Ok w => Ok (listEnd w lh)
      | Err e => Err e
      end
  end.
Fixpoint encode_elems (vs : list val) (w : encbuf) : result encbuf rlpErr :=
  match vs with
  | [] => Ok w
  | v :: vs => match encode v w with Ok w => encode_elems vs w | Err e => Err e end
  end.

(** The pieces [toBytes] copies to its output one after the other. *)
Fixpoint pieces (heads : list listhead) (str : list Z) (strpos : Z) : outcome (list Z) :=
  match heads with
  | [] => slice str strpos (len str)
  | head :: heads =>
      let! before := slice str strpos (offset head) in
      let! after := pieces heads str (strpos + len before) in
      Ret (before ++ listhead_encode head ++ after)
  end.
Definition toBytes (w : encbuf) : outcome (list Z) :=
  let! out := pieces (lheads w) (str w) 0 in
  copy_to (zeros (buf_size w)) 0 out.

Definition EncodeToBytes (v : val) : outcome (result (list Z) rlpErr) :=
  match encode v reset with
  | Err e => Ret (Err e)
  | Ok w => let! out := toBytes w in Ret (Ok out)
  end.

(** ** [raw.go] *)

Inductive Kind : Type := KByte | KString | KList.

Definition ListSize (contentSize : Z) : Z := u64 (headsize contentSize + contentSize).

(** [uint64(b[0])<<8*(slen-1) | ... | uint64(b[slen-1])] *)
Definition be_or (b : list Z) : Z := fold_left (fun s x => Z.lor (Z.shiftl s 8) x) b 0.

Definition readSize (b : list Z) (slen : Z) : outcome (result Z rlpErr) :=
  if slen >? len b then Ret (Err ErrUnexpectedEOF)
  else
    let s := if (1 <=? slen) && (slen <=? 8) then be_or (firstn (Z.to_nat slen) b) else 0 in
    if s <? 56 then Ret (Err ErrCanonSize)
    else
      let! b0 := index b 0 in
      if b0 =? 0 then Ret (Err ErrCanonSize) else Ret (Ok s).

(** The kind, the size of the tag and that of the content. *)
Definition readKind (buf : list Z) : outcome (result (Kind * Z * Z) rlpErr) :=
  match buf with
  | [] => Ret (Err ErrUnexpectedEOF)
  | b :: tail =>
      let! r :=
        (if b <? 0x80 then Ret (Ok (KByte, 0, 1))
         else if b <? 0xB8 then
           let contentsize := b - 0x80 in
           let! small := (if contentsize =? 1 then let! x := index buf 1 in Ret (x <? 128) else Ret false) in
           if small then Ret (Err ErrCanonSize) else Ret (Ok (KString, 1, contentsize))
         else if b <? 0xC0 then
           let! r := readSize tail (b - 0xB7) in
           match r with Ok s => Ret (Ok (KString, b - 0xB7 + 1, s)) | Err e => Ret (Err e) end
         else if b <? 0xF8 then Ret (Ok (KList, 1, b - 0xC0))
         else
           let! r := readSize tail (b - 0xF7) in
           match r with Ok s => Ret (Ok (KList, b - 0xF7 + 1, s)) | Err e => Ret (Err e) end) in
      match r with
      | Err e => Ret (Err e)
      | Ok (k, tagsize, contentsize) =>
          if contentsize >? u64 (len buf - tagsize) then Ret (Err ErrValueTooLarge)
          else Ret (Ok (k, tagsize, contentsize))
      end
  end.

Definition Split (b : list Z) : outcome (result (Kind * list Z * list Z) rlpErr) :=
  let! r := readKind b in
  match r with
  | Err e => Ret (Err e)
  | Ok (k, ts, cs) =>
      let! content := slice b ts (u64 (ts + cs)) in
      let! rest := slice b (u64 (ts + cs)) (len b) in
      Ret (Ok (k, content, rest))
  end.

Definition SplitString (b : list Z) : outcome (result (list Z * list Z) rlpErr) :=
  let! r := Split b in
  match r with
  | Err e => Ret (Err e)
  | Ok (KList, _, _) => Ret (Err ErrExpectedString)
  | Ok (_, content, rest) => Ret (Ok (content, rest))
  end.

Definition SplitList (b : list Z) : outcome (result (list Z * list Z) rlpErr) :=
  let! r := Split b in
  match r with
  | Err e => Ret (Err e)
  | Ok (KList, content, rest) => Ret (Ok (content, rest))
  | Ok (_, _, _) => Ret (Err ErrExpectedList)
  end.

(** A value takes at least a byte, so [length b] iterations are enough. *)
Fixpoint count_loop (fuel : nat) (b : list Z) (i : Z) : outcome (result Z rlpErr) :=
  match b, fuel with
  | [], _ => Ret (Ok i)
  | _, O => Panic
  | _, S fuel =>
      let! r := readKind b in
      match r with
      | Err e => Ret (Err e)
      | Ok (_, tagsize, size) =>
          let! rest := slice b (u64 (tagsize + size)) (len b) in
          count_loop fuel rest (i + 1)
      end
  end.
Definition CountValues (b : list Z) : outcome (result Z rlpErr) := count_loop (length b) b 0.

(** ** The format *)

Definition rlp_head (small large n : Z) : list Z :=
  if n <? 56 then [small + n] else large + byte_len n :: Bytes n.
Definition rlp_string (b : list Z) : list Z :=
  match b with
  | [x] => if x <=? 0x7F then [x] else [0x81; x]
  | _ => rlp_head 0x80 0xB7 (len b) ++ b
  end.
Definition rlp_list (payload : list Z) : list Z := rlp_head 0xC0 0xF7 (len payload) ++ payload.
Fixpoint rlp (v : val) : list Z :=
  match v with
  | VRaw b => b
  | VUint i => rlp_string (Bytes i)
  | VBool b => if b then [1] else rlp_string []
  | VBigInt None => rlp_string []
  | VBigInt (Some i) => rlp_string (Bytes i)
  | VBytes b => rlp_string b
  | VString b => rlp_string b
  | VNil => rlp_list []
  | VList vs => rlp_list (flat_map rlp vs)
  end.
