(* ===== verification/RlpTheorems.v ===== *)
(** * Theorems about package [rlp]

    [EncodeToBytes] writes the format [rlp] of [Rlp.v], although it keeps list
    headers apart from the data and merges them at the end; [Split] and
    [CountValues] read the format back. *)

From Stdlib Require Import ZArith List Lia Bool.
From S2P Require Import Prelude GoBig ByteBuf ByteConversion Rlp.
Import ListNotations.
Local Open Scope Z_scope.

(** ** Sizes in big endian *)

Lemma size_class n : 0 < n < 2 ^ 64 -> exists k, 1 <= k <= 8 /\ 256 ^ (k - 1) <= n < 256 ^ k.
Proof.
  intros H. exists (byte_len n). pose proof (byte_len_bound n). pose proof (byte_len_lower n ltac:(lia)).
  rewrite Z.abs_eq in * by lia. split; [|lia]. split.
  - pose proof (byte_len_nonneg n). assert (byte_len n <> 0); [|lia]. intros E. rewrite E in *. lia.
  - assert (~ 8 < byte_len n); [|lia]. intros L. assert (256 ^ 8 <= 256 ^ (byte_len n - 1)) by (apply Z.pow_le_mono_r; lia). lia.
Qed.

Ltac each_class k := assert (k = 1 \/ k = 2 \/ k = 3 \/ k = 4 \/ k = 5 \/ k = 6 \/ k = 7 \/ k = 8) as Hk8 by lia;
  destruct Hk8 as [->|[->|[->|[->|[->|[->|[->| ->]]]]]]].

Lemma putint_Bytes n : 0 < n < 2 ^ 64 -> putint n = Bytes n.
Proof.
  intros H. destruct (size_class n H) as (k & Hk & Hn). rewrite (Bytes_be n k) by lia. unfold putint. rewrite !Z.shiftl_1_l.
  each_class k.
  all: match goal with |- context [Z.to_nat ?p] => let v := eval vm_compute in (Z.to_nat p) in change (Z.to_nat p) with v end.
  all: repeat match goal with |- context [?m <? ?b] => destruct (Z.ltb_spec m b); [try lia|try lia] end.
  all: rewrite ?be_bytes_head; unfold u8, uwrap; cbn [be_bytes app].
  all: rewrite !Z.shiftr_div_pow2 by lia; reflexivity.
Qed.

Lemma intsize_byte_len n : 0 < n < 2 ^ 64 -> intsize n = byte_len n.
Proof.
  intros H. destruct (size_class n H) as (k & Hk & Hn). rewrite (byte_len_unique n k) by (rewrite ?Z.abs_eq; lia).
  unfold intsize. assert (Hs : forall fuel j s, 0 <= j -> (Z.to_nat (k - 1 - j) < fuel)%nat -> j <= k - 1 -> s = j + 1 ->
    intsize_loop fuel s (Z.shiftr n (8 * j)) = k).
  { induction fuel as [|fuel IH]; intros j s Hj Hf Hjk ->; [lia|]. cbn [intsize_loop].
    rewrite Z.shiftr_shiftr by lia. replace (8 * j + 8) with (8 * (j + 1)) by lia.
    rewrite Z.shiftr_div_pow2 by lia. rewrite <- pow256 by lia.
    destruct (Z.eqb_spec (n / 256 ^ (j + 1)) 0) as [E|N].
    - apply Z.div_small_iff in E; [|lia]. destruct E as [E|E]; [|lia].
      destruct (Z.eq_dec j (k - 1)) as [->|Nj]; [lia|]. exfalso.
      assert (256 ^ (j + 1) <= 256 ^ (k - 1)) by (apply Z.pow_le_mono_r; lia). lia.
    - assert (j <> k - 1). { intros ->. apply N. replace (k - 1 + 1) with k by lia. apply Z.div_small. lia. }
      rewrite pow256, <- Z.shiftr_div_pow2 by lia. apply IH; lia. }
  apply (Hs 8%nat 0 1); lia.
Qed.

Lemma byte_len_small n : 0 < n < 2 ^ 64 -> 1 <= byte_len n <= 8.
Proof. intros H. destruct (size_class n H) as (k & Hk & Hn). rewrite (byte_len_unique n k); [lia..|rewrite Z.abs_eq; lia]. Qed.

Lemma u8_small x : 0 <= x < 256 -> u8 x = x.
Proof. intros H. apply Z.mod_small, H. Qed.

Lemma puthead_head small large n : 0 <= small <= 0xC0 -> 0 <= large <= 0xF7 -> 0 <= n < 2 ^ 64 ->
  puthead small large n = rlp_head small large n.
Proof.
  intros Hs Hl Hn. unfold puthead, rlp_head. destruct (Z.ltb_spec n 56).
  - rewrite (u8_small n), u8_small by lia. reflexivity.
  - rewrite putint_Bytes by lia. cbv zeta. rewrite Bytes_len. pose proof (byte_len_small n ltac:(lia)).
    rewrite (u8_small (byte_len n)), u8_small by lia. reflexivity.
Qed.

Lemma rlp_head_len small large n : 0 <= n < 2 ^ 64 -> len (rlp_head small large n) = headsize n.
Proof.
  intros Hn. unfold rlp_head, headsize. destruct (Z.ltb_spec n 56); [reflexivity|].
  rewrite len_cons, Bytes_len, intsize_byte_len by lia. lia.
Qed.

(** ** The buffer *)

(** The headers [hs] are at offsets of the data [s], which begins at [b]; the
    merged output and its size. *)
Fixpoint heads_ok (b : Z) (hs : list listhead) (s : list Z) : Prop :=
  match hs with
  | [] => True
  | h :: hs => b <= offset h <= b + len s /\ 0 <= size h < 2 ^ 64 /\ heads_ok (offset h) hs (skipn (Z.to_nat (offset h - b)) s)
  end.
Fixpoint render (b : Z) (hs : list listhead) (s : list Z) : list Z :=
  match hs with
  | [] => s
  | h :: hs => firstn (Z.to_nat (offset h - b)) s ++ listhead_encode h ++ render (offset h) hs (skipn (Z.to_nat (offset h - b)) s)
  end.
Definition heads_size (hs : list listhead) : Z := fold_right (fun h n => headsize (size h) + n) 0 hs.

Lemma len_skipn {A : Type} k (l : list A) : 0 <= k <= len l -> len (skipn (Z.to_nat k) l) = len l - k.
Proof. unfold len. rewrite length_skipn. lia. Qed.
Lemma len_firstn {A : Type} k (l : list A) : 0 <= k <= len l -> len (firstn (Z.to_nat k) l) = k.
Proof. unfold len. rewrite length_firstn. lia. Qed.

Lemma heads_size_app hs1 hs2 : heads_size (hs1 ++ hs2) = heads_size hs1 + heads_size hs2.
Proof. induction hs1 as [|h hs1 IH]; cbn [app heads_size fold_right]; [reflexivity|]. unfold heads_size in *. lia. Qed.

Lemma listhead_encode_len h : 0 <= size h < 2 ^ 64 -> len (listhead_encode h) = headsize (size h).
Proof. intros H. unfold listhead_encode. rewrite puthead_head by lia. apply rlp_head_len, H. Qed.

Lemma render_len hs : forall b s, heads_ok b hs s -> len (render b hs s) = len s + heads_size hs.
Proof.
  induction hs as [|h hs IH]; intros b s; cbn [heads_ok render heads_size fold_right]; [lia|].
  intros (H1 & H2 & H3). rewrite !len_app, listhead_encode_len, IH, len_skipn, len_firstn by (assumption || lia).
  unfold heads_size. lia.
Qed.

Lemma render_app hs1 hs2 s2 : forall b s1, heads_ok b hs1 s1 -> heads_ok (b + len s1) hs2 s2 ->
  heads_ok b (hs1 ++ hs2) (s1 ++ s2) /\ render b (hs1 ++ hs2) (s1 ++ s2) = render b hs1 s1 ++ render (b + len s1) hs2 s2.
Proof.
  induction hs1 as [|h hs1 IH]; intros b s1 H1 H2; cbn [app heads_ok render].
  - destruct hs2 as [|h hs2]; cbn [heads_ok render] in *; [auto|]. destruct H2 as (H2 & H3 & H4).
    pose proof (len_nonneg s1). pose proof (len_nonneg s2).
    assert (E : Z.to_nat (offset h - b) = (length s1 + Z.to_nat (offset h - (b + len s1)))%nat) by (unfold len in *; lia).
    rewrite E, firstn_app_2, skipn_app. rewrite (@skipn_all2 _ (length s1 + _)%nat s1) by lia. cbn [app].
    replace (length s1 + _ - length s1)%nat with (Z.to_nat (offset h - (b + len s1))) by lia.
    rewrite len_app, <- app_assoc. repeat split; (assumption || lia).
  - destruct H1 as (H1 & H3 & H4). set (k := Z.to_nat (offset h - b)) in *.
    assert (Hk : (k <= length s1)%nat) by (unfold k, len in *; lia).
    rewrite firstn_app, skipn_app. replace (k - length s1)%nat with 0%nat by lia. rewrite firstn_O, app_nil_r. cbn [skipn].
    assert (Ek : offset h + len (skipn k s1) = b + len s1) by (unfold k; rewrite len_skipn by lia; lia).
    destruct (IH (offset h) (skipn k s1) H4) as [I1 I2]; [rewrite Ek; exact H2|].
    rewrite I2, Ek, len_app, <- !app_assoc. pose proof (len_nonneg s2). repeat split; (assumption || lia).
Qed.

Lemma pieces_render hs : forall str b, 0 <= b <= len str -> heads_ok b hs (skipn (Z.to_nat b) str) ->
  pieces hs str b = Ret (render b hs (skipn (Z.to_nat b) str)).
Proof.
  induction hs as [|h hs IH]; intros str b Hb H; cbn [pieces render].
  - rewrite slice_ret by lia. f_equal. apply firstn_all2. rewrite length_skipn. unfold len. lia.
  - destruct H as (H1 & H2 & H3). rewrite len_skipn in H1 by lia. rewrite slice_ret by lia. cbn [obind].
    rewrite len_firstn by (rewrite len_skipn by lia; lia). replace (b + (offset h - b)) with (offset h) by lia.
    rewrite skipn_skipn in *. replace (Z.to_nat (offset h - b) + Z.to_nat b)%nat with (Z.to_nat (offset h)) in * by lia.
    rewrite IH by (assumption || lia). reflexivity.
Qed.

(** [w'] is [w] after the output [out]. *)
Definition emitted (w : encbuf) (out : list Z) (w' : encbuf) : Prop :=
  exists s hs, w' = mkBuf (str w ++ s) (lheads w ++ hs) (lhsize w + heads_size hs) /\
    heads_ok (len (str w)) hs s /\ render (len (str w)) hs s = out.

Lemma emitted_write w b : emitted w b (write w b).
Proof. exists b, []. unfold write, heads_size. cbn. rewrite app_nil_r, Z.add_0_r. auto. Qed.

Lemma emitted_nil w : emitted w [] w.
Proof. exists [], []. unfold heads_size. cbn. rewrite !app_nil_r, Z.add_0_r. destruct w. auto. Qed.

Lemma emitted_trans w o1 w1 o2 w2 : emitted w o1 w1 -> emitted w1 o2 w2 -> emitted w (o1 ++ o2) w2.
Proof.
  intros (s1 & h1 & -> & H1 & <-) (s2 & h2 & -> & H2 & <-). cbn [str lheads lhsize] in *. rewrite len_app in *.
  destruct (render_app h1 h2 s2 _ s1 H1 H2) as [H3 H4]. exists (s1 ++ s2), (h1 ++ h2).
  rewrite heads_size_app, !app_assoc, Z.add_assoc. auto.
Qed.

Lemma emitted_eq w o o' w' : o = o' -> emitted w o w' -> emitted w o' w'.
Proof. intros ->. exact (fun H => H). Qed.

Lemma emitted_string w b : len b < 2 ^ 64 -> emitted w (rlp_string b) (encodeString w b).
Proof.
  intros Hl. pose proof (len_nonneg b). unfold encodeString, rlp_string, encodeStringHeader.
  assert (Hh : forall x l, len (x :: l) < 2 ^ 64 ->
    emitted w (rlp_head 0x80 0xB7 (len (x :: l)) ++ x :: l) (write (write w (puthead 0x80 0xB7 (len (x :: l)))) (x :: l))).
  { intros x l Hx. pose proof (len_nonneg (x :: l)). rewrite puthead_head by lia.
    apply (emitted_trans _ _ (write w (rlp_head 0x80 0xB7 (len (x :: l))))); apply emitted_write. }
  destruct b as [|x [|y b]].
  - apply (emitted_trans _ [0x80] (write w [0x80]) [] _); apply emitted_write.
  - destruct (x <=? 0x7F); [apply emitted_write|]. exact (Hh x [] Hl).
  - apply (Hh x (y :: b) Hl).
Qed.

Lemma emitted_uint w i : 0 <= i < 2 ^ 64 -> emitted w (rlp_string (Bytes i)) (writeUint w i).
Proof.
  intros Hi. unfold writeUint. destruct (Z.eqb_spec i 0) as [->|N]; [apply emitted_write|].
  destruct (Z.ltb_spec i 128).
  - rewrite u8_small, (Bytes_be i 1) by lia. change (be_bytes (Z.to_nat 1) i) with [i mod 256]. rewrite Z.mod_small by lia.
    cbn [rlp_string]. destruct (Z.leb_spec i 0x7F); [apply emitted_write|lia].
  - rewrite putint_Bytes by lia. cbv zeta. rewrite Bytes_len. pose proof (byte_len_small i ltac:(lia)).
    rewrite (u8_small (byte_len i)), u8_small by lia. apply (emitted_eq _ (0x80 + byte_len i :: Bytes i)); [|apply emitted_write].
    pose proof (Bytes_len i) as El. pose proof (SetBytes_Bytes i) as Ev. rewrite Z.abs_eq in Ev by lia.
    unfold rlp_string, rlp_head. destruct (Bytes i) as [|x [|y l]].
    + cbn in Ev. lia.
    + cbn in Ev, El. rewrite <- El. destruct (Z.leb_spec x 0x7F); [lia|reflexivity].
    + rewrite El. destruct (Z.ltb_spec (byte_len i) 56); [reflexivity|lia].
Qed.

(** ** Values *)

Fixpoint uints_ok (v : val) : bool :=
  match v with
  | VUint i => (0 <=? i) && (i <? 2 ^ 64)
  | VList vs => forallb uints_ok vs
  | _ => true
  end.
Fixpoint has_negative (v : val) : bool :=
  match v with
  | VBigInt (Some i) => i <? 0
  | VList vs => existsb has_negative vs
  | _ => false
  end.

Lemma val_elems_ind (P : val -> Prop) : (forall v, (forall vs, v <> VList vs) -> P v) ->
  (forall vs, Forall P vs -> P (VList vs)) -> forall v, P v.
Proof.
  intros H1 H2. fix IH 1. intros v. destruct v; try (apply H1; discriminate). apply H2. induction vs; constructor; auto.
Qed.

Lemma rlp_string_len b : len b <= len (rlp_string b).
Proof.
  unfold rlp_string. destruct b as [|x [|y b]]; [cbn; lia| |rewrite len_app; pose proof (len_nonneg (rlp_head 0x80 0xB7 (len (x :: y :: b)))); lia].
  destruct (_ <=? _); cbn; lia.
Qed.

Lemma rlp_string_le b : len b < 2 ^ 64 -> len (rlp_string b) <= len b + 9.
Proof.
  intros H. pose proof (len_nonneg b). unfold rlp_string. assert (Hh : headsize (len b) <= 9).
  { unfold headsize. destruct (_ <? _) eqn:E; [lia|]. apply Z.ltb_ge in E. rewrite intsize_byte_len by lia.
    pose proof (byte_len_small (len b) ltac:(lia)). lia. }
  destruct b as [|x [|y b]]; [cbn; lia|destruct (x <=? _); cbn; lia|]. rewrite len_app, rlp_head_len by lia. lia.
Qed.

Lemma encode_list vs w : encode (VList vs) w =
  let '(lh, w) := list_ w in match encode_elems vs w with Ok w => Ok (listEnd w lh) | Err e => Err e end.
Proof.
  cbn [encode]. destruct (list_ w) as [lh w1]. set (elems := fix elems (vs : list val) (w : encbuf) := _).
  assert (E : forall vs w, elems vs w = encode_elems vs w).
  { clear. induction vs as [|v vs IH]; intros w; [reflexivity|]. cbn. destruct (encode v w); auto. }
  rewrite E. reflexivity.
Qed.

Definition encodes (v : val) : Prop := forall w, uints_ok v = true -> len (rlp v) < 2 ^ 63 ->
  match encode v w with
  | Ok w' => has_negative v = false /\ emitted w (rlp v) w'
  | Err e => has_negative v = true /\ e = errNegativeBigInt
  end.

Lemma elems_encode vs : Forall encodes vs -> forall w, forallb uints_ok vs = true -> len (flat_map rlp vs) < 2 ^ 63 ->
  match encode_elems vs w with
  | Ok w' => existsb has_negative vs = false /\ emitted w (flat_map rlp vs) w'
  | Err e => existsb has_negative vs = true /\ e = errNegativeBigInt
  end.
Proof.
  induction 1 as [|v vs Hv _ IH]; intros w; cbn [encode_elems forallb existsb flat_map]; [auto using emitted_nil|].
  rewrite andb_true_iff, len_app. intros [H1 H2] Hl. pose proof (len_nonneg (rlp v)). pose proof (len_nonneg (flat_map rlp vs)).
  specialize (Hv w H1 ltac:(lia)). destruct (encode v w) as [w1|e]; [|destruct Hv as [-> ->]; auto].
  destruct Hv as [-> Hv]. specialize (IH w1 H2 ltac:(lia)). destruct (encode_elems vs w1) as [w2|e]; [|exact IH].
  destruct IH as [-> IH]. eauto using emitted_trans.
Qed.

Lemma emitted_list w out w' : len out < 2 ^ 64 -> emitted (snd (list_ w)) out w' ->
  emitted w (rlp_list out) (listEnd w' (fst (list_ w))).
Proof.
  intros Hl (s & hs & -> & H & <-). cbn [list_ fst snd str lheads lhsize] in *.
  unfold listEnd. cbn [lheads]. rewrite <- app_assoc. cbn [app].
  rewrite nth_error_app2, Nat.sub_diag by lia. cbn [nth_error]. unfold buf_size. cbn [str lhsize offset size].
  rewrite len_app. rewrite (render_len _ _ _ H) in Hl. pose proof (len_nonneg (render (len (str w)) hs s)). rewrite (render_len _ _ _ H) in *.
  replace (len (str w) + len s + (lhsize w + heads_size hs) - len (str w) - lhsize w) with (len s + heads_size hs) by lia.
  rewrite firstn_app, Nat.sub_diag, firstn_all, firstn_O, app_nil_r.
  rewrite skipn_app, skipn_all2, Nat.sub_succ_l, Nat.sub_diag by lia. cbn [app skipn].
  exists s, (mkHead (len (str w)) (len s + heads_size hs) :: hs). split; [|split].
  - f_equal. unfold headsize, heads_size. cbn [fold_right size]. fold (heads_size hs). unfold headsize. lia.
  - cbn [heads_ok offset size]. rewrite Z.sub_diag. cbn [Z.to_nat skipn]. pose proof (len_nonneg s). repeat split; (assumption || lia).
  - cbn [render offset]. rewrite Z.sub_diag. cbn [Z.to_nat firstn skipn app]. unfold rlp_list, listhead_encode.
    rewrite puthead_head by (cbn [size]; lia). cbn [size]. rewrite render_len by exact H. reflexivity.
Qed.

Lemma encode_ok v : encodes v.
Proof.
  induction v as [v Hv|vs IH] using val_elems_ind; intros w Hu Hl.
  - destruct v as [b|i|b|[i|]|b|b| |vs]; cbn [encode has_negative uints_ok rlp] in *; try (split; [reflexivity|]).
    + apply emitted_write.
    + apply andb_true_iff in Hu. apply emitted_uint. lia.
    + destruct b; apply emitted_write.
    + unfold writeBigInt. destruct (Z.ltb_spec i 0) as [|L]; [auto|]. pose proof (rlp_string_len (Bytes i)).
      destruct (Z.eqb_spec i 0) as [->|N]; (split; [reflexivity|]); [apply emitted_write|apply emitted_string; lia].
    + apply emitted_write.
    + pose proof (rlp_string_len b). apply emitted_string. lia.
    + pose proof (rlp_string_len b). apply emitted_string. lia.
    + apply emitted_write.
    + destruct (Hv vs eq_refl).
  - rewrite encode_list. cbn [uints_ok has_negative rlp] in *. destruct (list_ w) as [lh w1] eqn:E.
    assert (Hl' : len (flat_map rlp vs) < 2 ^ 63).
    { unfold rlp_list in Hl. rewrite len_app in Hl. pose proof (len_nonneg (rlp_head 0xC0 0xF7 (len (flat_map rlp vs)))). lia. }
    pose proof (elems_encode vs IH w1 Hu Hl') as He. destruct (encode_elems vs w1) as [w2|e]; [|exact He].
    destruct He as [H1 H2]. split; [exact H1|]. pose proof (emitted_list w (flat_map rlp vs) w2) as H3. rewrite E in H3. cbn [fst snd] in H3.
    apply H3; [lia|exact H2].
Qed.

Lemma toBytes_emitted out w : emitted reset out w -> toBytes w = Ret out.
Proof.
  intros (s & hs & -> & H1 & <-). cbn [reset str lheads lhsize app] in *. unfold toBytes. cbn [lheads str].
  change (len (@nil Z)) with 0 in *. rewrite pieces_render by (cbn [Z.to_nat skipn]; pose proof (len_nonneg s); (assumption || lia)).
  cbn [obind Z.to_nat skipn]. unfold buf_size. cbn [str lhsize]. rewrite Z.add_0_l, <- (render_len _ _ _ H1).
  set (out := render 0 hs s). pose proof (copy_to_app [] (zeros (len out)) [] out) as Hc. cbn [app] in Hc. rewrite !app_nil_r in Hc.
  change (len (@nil Z)) with 0 in Hc. apply Hc. unfold zeros, len. rewrite repeat_length. lia.
Qed.

(** [EncodeToBytes] returns the encoding of the format, or the error of a negative number. *)
Lemma EncodeToBytes_rlp v : uints_ok v = true -> len (rlp v) < 2 ^ 63 ->
  EncodeToBytes v = Ret (if has_negative v then Err errNegativeBigInt else Ok (rlp v)).
Proof.
  intros Hu Hl. unfold EncodeToBytes. pose proof (encode_ok v reset Hu Hl) as H.
  destruct (encode v reset) as [w|e]; [|destruct H as [-> ->]; reflexivity]. destruct H as [-> H].
  rewrite (toBytes_emitted _ _ H). reflexivity.
Qed.

(** A list of a short string and a number of any size, as in [crypto.CreateAddress]. *)
Lemma encode_pair b i : len b < 2 ^ 32 -> exists out, EncodeToBytes (VList [VBytes b; VUint i]) = Ret (Ok out).
Proof.
  intros Hb. unfold EncodeToBytes. rewrite encode_list. cbn [list_ reset str lheads lhsize]. cbn [encode_elems encode].
  set (w := mkBuf [] _ 0). assert (H : exists o, len o <= 9 /\ emitted (encodeString w b) o (writeUint (encodeString w b) i)).
  { unfold writeUint. destruct (i =? 0); [eexists; split; [|apply emitted_write]; cbn; lia|].
    destruct (i <? 128); (eexists; split; [|apply emitted_write]); [cbn; lia|]. rewrite len_cons. unfold putint.
    repeat match goal with |- context [if ?c then _ else _] => destruct c end; cbn; lia. }
  destruct H as (o & Ho & H). pose proof (emitted_trans w _ _ _ _ (emitted_string w b ltac:(lia)) H) as Hw.
  exists (rlp_list (rlp_string b ++ o)).
  pose proof (toBytes_emitted _ _ (emitted_list reset (rlp_string b ++ o) _ ltac:(rewrite len_app; pose proof (rlp_string_le b); lia) Hw)) as E.
  cbn [list_ fst reset lheads length] in *. rewrite E. reflexivity.
Qed.

(** ** Reading *)

Lemma lor_shift a x : 0 <= x < 256 -> Z.lor (Z.shiftl a 8) x = a * 256 + x.
Proof.
  intros H. pose proof (Z.add_lor_land (Z.shiftl a 8) x) as E. pose proof (Z.shiftl_mul_pow2 a 8 ltac:(lia)).
  assert (E' : Z.land (Z.shiftl a 8) x = 0); [|lia]. apply Z.bits_inj'. intros n Hn. rewrite Z.land_spec, Z.bits_0. destruct (Z.lt_ge_cases n 8).
  - rewrite Z.shiftl_spec_low by lia. reflexivity.
  - rewrite <- (Z.mod_small x (2 ^ 8)) by lia. rewrite Z.mod_pow2_bits_high by lia. apply andb_false_r.
Qed.

Lemma be_or_SetBytes b : bytes_ok b -> be_or b = SetBytes b.
Proof.
  unfold be_or, SetBytes. generalize 0 as a. induction b as [|x b IH]; intros a H; [reflexivity|]. cbn [fold_left].
  inversion H; subst. rewrite lor_shift by assumption. apply IH. assumption.
Qed.

Lemma Bytes_head n : 0 < n -> exists x l, Bytes n = x :: l /\ x <> 0.
Proof.
  intros H. pose proof (byte_len_lower n ltac:(lia)) as Hl. pose proof (byte_len_bound n) as Hb. pose proof (byte_len_nonneg n).
  rewrite Z.abs_eq in * by lia. assert (byte_len n <> 0) by (intros E; rewrite E in Hb; cbn in Hb; lia).
  rewrite (Bytes_be n (byte_len n)) by lia.
  replace (Z.to_nat (byte_len n)) with (S (Z.to_nat (byte_len n - 1))) by lia. rewrite be_bytes_head.
  do 2 eexists. split; [reflexivity|]. rewrite Z2Nat.id by lia. set (p := 256 ^ (byte_len n - 1)) in *.
  assert (E : 256 ^ byte_len n = 256 * p) by (unfold p; rewrite <- Z.pow_succ_r by lia; f_equal; lia).
  assert (0 < p) by (apply Z.pow_pos_nonneg; lia).
  rewrite Z.mod_small; [|split; [apply Z.div_pos; lia|apply Z.div_lt_upper_bound; lia]].
  assert (1 <= n / p) by (apply Z.div_le_lower_bound; lia). lia.
Qed.

Lemma readSize_Bytes n rest : 56 <= n < 2 ^ 64 -> readSize (Bytes n ++ rest) (byte_len n) = Ret (Ok n).
Proof.
  intros H. pose proof (byte_len_small n ltac:(lia)) as Hk. unfold readSize. rewrite len_app, Bytes_len, Z.gtb_ltb.
  pose proof (len_nonneg rest). destruct (Z.ltb_spec (byte_len n + len rest) (byte_len n)); [lia|].
  destruct (Z.leb_spec 1 (byte_len n)); [|lia]. destruct (Z.leb_spec (byte_len n) 8); [|lia]. cbn [andb].
  replace (firstn (Z.to_nat (byte_len n)) (Bytes n ++ rest)) with (Bytes n).
  2: { pose proof (Bytes_len n) as El. unfold len in El. rewrite firstn_app, firstn_all2 by lia.
       replace (Z.to_nat (byte_len n) - _)%nat with 0%nat by lia. rewrite app_nil_r. reflexivity. }
  rewrite be_or_SetBytes, SetBytes_Bytes, Z.abs_eq by (apply Bytes_ok || lia). destruct (Z.ltb_spec n 56); [lia|].
  destruct (Bytes_head n ltac:(lia)) as (x & l & -> & Hx). cbn [app]. rewrite index_0. cbn [obind].
  destruct (Z.eqb_spec x 0); [contradiction|reflexivity].
Qed.

(** A value of the format in front of [rest], with a tag and [n] bytes of content. *)
Definition reads_as (b : list Z) (k : Kind) (content rest : list Z) : Prop :=
  exists tag, b = tag ++ content ++ rest /\ readKind b = Ret (Ok (k, len tag, len content)).

Lemma too_large (tag c r : list Z) : len (tag ++ c ++ r) < 2 ^ 64 -> (len c >? u64 (len (tag ++ c ++ r) - len tag)) = false.
Proof.
  rewrite !len_app. pose proof (len_nonneg tag). pose proof (len_nonneg c). pose proof (len_nonneg r). intros H'.
  unfold u64, uwrap. rewrite Z.mod_small by lia. rewrite Z.gtb_ltb. apply Z.ltb_ge. lia.
Qed.

Ltac tag_above := match goal with |- context [if ?a <? ?b then _ else _] => destruct (Z.ltb_spec a b); [lia|] end.
Ltac tag_below := match goal with |- context [if ?a <? ?b then _ else _] => destruct (Z.ltb_spec a b); [|lia] end.

Lemma reads_list p rest : len (rlp_list p ++ rest) < 2 ^ 64 -> reads_as (rlp_list p ++ rest) KList p rest.
Proof.
  intros Hl. unfold rlp_list in *. exists (rlp_head 0xC0 0xF7 (len p)). rewrite <- app_assoc in *. split; [reflexivity|].
  pose proof (too_large _ _ _ Hl) as Ht. pose proof (len_nonneg p). pose proof (len_nonneg rest).
  rewrite !len_app in Hl. pose proof (len_nonneg (rlp_head 0xC0 0xF7 (len p))).
  rewrite rlp_head_len in Ht by lia. rewrite rlp_head_len by lia. unfold rlp_head, headsize in *. destruct (Z.ltb_spec (len p) 56) as [L|L].
  - cbn [app readKind] in *. repeat tag_above. tag_below. cbn [obind]. replace (0xC0 + len p - 0xC0) with (len p) by lia.
    rewrite Ht. reflexivity.
  - rewrite intsize_byte_len in * by lia. pose proof (byte_len_small (len p) ltac:(lia)).
    cbn [app readKind] in *. repeat tag_above.
    replace (0xF7 + byte_len (len p) - 0xF7) with (byte_len (len p)) by lia. rewrite readSize_Bytes by lia. cbn [obind].
    replace (byte_len (len p) + 1) with (1 + byte_len (len p)) by lia. rewrite Ht. reflexivity.
Qed.

(** The kind of a string: a small byte stands for itself. *)
Definition string_kind (b : list Z) : Kind :=
  match b with [x] => if x <=? 0x7F then KByte else KString | _ => KString end.

Lemma reads_header b rest : (forall x, b = [x] -> 0x80 <= x) -> len (rlp_head 0x80 0xB7 (len b) ++ b ++ rest) < 2 ^ 64 ->
  reads_as (rlp_head 0x80 0xB7 (len b) ++ b ++ rest) KString b rest.
Proof.
  intros Hx Hl. exists (rlp_head 0x80 0xB7 (len b)). split; [reflexivity|].
  pose proof (too_large _ _ _ Hl) as Ht. pose proof (len_nonneg b). pose proof (len_nonneg rest).
  rewrite !len_app in Hl. pose proof (len_nonneg (rlp_head 0x80 0xB7 (len b))).
  rewrite rlp_head_len in Ht by lia. rewrite rlp_head_len by lia. unfold rlp_head, headsize in *. destruct (Z.ltb_spec (len b) 56) as [L|L].
  - cbn [app readKind] in *. tag_above. tag_below. replace (0x80 + len b - 0x80) with (len b) by lia.
    destruct (Z.eqb_spec (len b) 1) as [E|N]; [|cbn [obind]; rewrite Ht; reflexivity].
    destruct b as [|x [|y b]]; cbn [app] in *; [discriminate| |rewrite !len_cons in E; pose proof (len_nonneg b); lia].
    specialize (Hx x eq_refl). rewrite (index_ret _ 1 x) by (reflexivity || lia). cbn [obind].
    destruct (Z.ltb_spec x 128); [lia|]. cbn [obind]. rewrite Ht. reflexivity.
  - rewrite intsize_byte_len in * by lia. pose proof (byte_len_small (len b) ltac:(lia)).
    cbn [app readKind] in *. do 2 tag_above. tag_below.
    replace (0xB7 + byte_len (len b) - 0xB7) with (byte_len (len b)) by lia. rewrite readSize_Bytes by lia. cbn [obind].
    replace (byte_len (len b) + 1) with (1 + byte_len (len b)) by lia. rewrite Ht. reflexivity.
Qed.

Lemma reads_string b rest : len (rlp_string b ++ rest) < 2 ^ 64 -> reads_as (rlp_string b ++ rest) (string_kind b) b rest.
Proof.
  unfold rlp_string, string_kind. destruct b as [|x [|y b]]; rewrite <- ?app_assoc.
  - apply (reads_header []). discriminate.
  - destruct (Z.leb_spec x 0x7F); [|apply (reads_header [x]); intros ? [= <-]; lia]. intros Hl. exists []. split; [reflexivity|].
    pose proof (too_large [] [x] rest Hl) as Ht. cbn [app readKind] in *. tag_below. cbn [obind].
    change (len [x]) with 1 in *. change (len (@nil Z)) with 0 in *. rewrite Ht. reflexivity.
  - apply (reads_header (x :: y :: b)). discriminate.
Qed.

Lemma reads_Split b k content rest : len b < 2 ^ 63 -> reads_as b k content rest -> Split b = Ret (Ok (k, content, rest)).
Proof.
  intros Hl (tag & -> & E). unfold Split. rewrite E. cbn [obind]. rewrite !len_app in *.
  pose proof (len_nonneg tag). pose proof (len_nonneg content). pose proof (len_nonneg rest).
  unfold u64, uwrap. rewrite Z.mod_small by lia. rewrite !slice_ret by (rewrite ?len_app; lia). cbn [obind].
  do 3 f_equal; [f_equal|].
  - unfold len. rewrite Nat2Z.id, skipn_app, skipn_all, Nat.sub_diag. cbn [app skipn].
    replace (Z.to_nat (_ - _)) with (length content) by lia. rewrite firstn_app, firstn_all, Nat.sub_diag, firstn_O. apply app_nil_r.
  - rewrite app_assoc. unfold len. rewrite skipn_app, skipn_all2 by (rewrite length_app; lia).
    rewrite length_app. replace (Z.to_nat _ - _)%nat with 0%nat by lia. cbn [app skipn]. apply firstn_all2. lia.
Qed.

(** ** Values read back *)

(** What [Split] gives for the encoding of a value that is not raw. *)
Definition split_of (v : val) : option (Kind * list Z) :=
  match v with
  | VRaw _ => None
  | VUint i => Some (string_kind (Bytes i), Bytes i)
  | VBool b => if b then Some (KByte, [1]) else Some (KString, [])
  | VBigInt None => Some (KString, [])
  | VBigInt (Some i) => Some (string_kind (Bytes i), Bytes i)
  | VBytes b => Some (string_kind b, b)
  | VString b => Some (string_kind b, b)
  | VNil => Some (KList, [])
  | VList vs => Some (KList, flat_map rlp vs)
  end.

Lemma rlp_reads v k content rest : split_of v = Some (k, content) -> len (rlp v ++ rest) < 2 ^ 63 ->
  reads_as (rlp v ++ rest) k content rest.
Proof.
  intros H Hl. destruct v as [b|i|[]|[i|]|b|b| |vs]; cbn [split_of rlp] in *; injection H as <- <- || discriminate H.
  1, 4, 6, 7: apply reads_string; lia.
  1: apply (reads_string [1]); cbn [rlp_string]; cbn in *; lia.
  1, 2: apply (reads_string []); lia.
  all: apply reads_list; lia.
Qed.

Lemma rlp_nonempty v : split_of v <> None -> rlp v <> [].
Proof.
  assert (Hh : forall a b n, rlp_head a b n <> []) by (intros; unfold rlp_head; destruct (_ <? _); discriminate).
  assert (Hs : forall b, rlp_string b <> []).
  { intros b E. unfold rlp_string in E. destruct b as [|x [|y b]]; [discriminate|destruct (x <=? 0x7F); discriminate|].
    apply app_eq_nil in E. exact (Hh _ _ _ (proj1 E)). }
  intros H. destruct v as [b|i|[]|[i|]|b|b| |vs]; cbn [rlp split_of] in *; try apply Hs; try discriminate; [congruence|].
  intros E. apply app_eq_nil in E. exact (Hh _ _ _ (proj1 E)).
Qed.

Lemma count_values vs : Forall (fun v => split_of v <> None) vs -> forall fuel i, len (flat_map rlp vs) < 2 ^ 63 ->
  (length (flat_map rlp vs) <= fuel)%nat -> count_loop fuel (flat_map rlp vs) i = Ret (Ok (i + len vs)).
Proof.
  induction 1 as [|v vs Hv _ IH]; intros fuel i Hl Hf; cbn [flat_map] in *.
  { destruct fuel; cbn; rewrite Z.add_0_r; reflexivity. }
  destruct (split_of v) as [[k c]|] eqn:E; [|congruence]. destruct (rlp_reads v k c _ E Hl) as (tag & Eb & Er).
  assert (Ev : rlp v = tag ++ c) by (rewrite app_assoc in Eb; apply app_inv_tail in Eb; exact Eb).
  pose proof (rlp_nonempty v ltac:(congruence)) as Hn. rewrite length_app in Hf.
  destruct (rlp v ++ flat_map rlp vs) as [|x l] eqn:Ex; [apply app_eq_nil in Ex; tauto|].
  destruct fuel as [|fuel]; [destruct (rlp v); [congruence|cbn in Hf; lia]|]. cbn [count_loop]. rewrite Er. cbn [obind].
  rewrite <- len_app, <- Ev, <- Ex in *. rewrite len_app in *. pose proof (len_nonneg (rlp v)). pose proof (len_nonneg (flat_map rlp vs)).
  unfold u64, uwrap. rewrite Z.mod_small by lia. rewrite slice_ret by (rewrite ?len_app; lia). cbn [obind].
  replace (firstn _ _) with (flat_map rlp vs).
  2: { unfold len. rewrite Nat2Z.id, skipn_app, skipn_all, Nat.sub_diag. cbn [app skipn]. rewrite firstn_all2 by lia. reflexivity. }
  rewrite IH, len_cons; [do 2 f_equal; lia|lia|]. destruct (rlp v); [congruence|cbn in Hf; lia].
Qed.

(** ** The theorems *)

(** For every value (uints of 64 bits, an encoding shorter than 2^63 bytes) EncodeToBytes, which writes list headers
    apart and merges them at the end, returns exactly the recursive encoding of the RLP format; a value with a negative
    big integer anywhere gives the error, and nothing panics. *)
Theorem EncodeToBytes_correct v : uints_ok v = true -> len (rlp v) < 2 ^ 63 ->
  EncodeToBytes v = Ret (if has_negative v then Err errNegativeBigInt else Ok (rlp v)).
Proof. apply EncodeToBytes_rlp. Qed.

Definition sample_value : val := VList [VBytes [1; 2; 3]; VUint 1024; VList [VString [5]; VBool true; VNil]].

Lemma EncodeToBytes_correct_witness :
  EncodeToBytes sample_value = Ret (Ok [203; 131; 1; 2; 3; 130; 4; 0; 195; 5; 1; 192]).
Proof. exact (EncodeToBytes_correct sample_value eq_refl ltac:(vm_compute; reflexivity)). Defined.

(** Round trip: in front of any further bytes, Split of the encoding of a value that is not raw returns its kind,
    exactly its content (the bytes of a string, the concatenated encodings of a list's elements) and the further bytes;
    on the content of a list CountValues returns the number of elements. *)
Theorem Split_roundtrip v k content rest vs : split_of v = Some (k, content) -> len (rlp v ++ rest) < 2 ^ 63 ->
  Forall (fun v => split_of v <> None) vs -> len (rlp (VList vs)) < 2 ^ 63 ->
  Split (rlp v ++ rest) = Ret (Ok (k, content, rest)) /\
  Split (rlp (VList vs) ++ []) = Ret (Ok (KList, flat_map rlp vs, [])) /\
  CountValues (flat_map rlp vs) = Ret (Ok (len vs)).
Proof.
  intros H Hl Hvs Hlist. split; [|split].
  - apply reads_Split; [exact Hl|]. apply rlp_reads; assumption.
  - apply reads_Split; [|apply rlp_reads; [reflexivity|]]; rewrite app_nil_r; exact Hlist.
  - assert (len (flat_map rlp vs) < 2 ^ 63).
    { cbn [rlp] in Hlist. unfold rlp_list in Hlist. rewrite len_app in Hlist. pose proof (len_nonneg (rlp_head 0xC0 0xF7 (len (flat_map rlp vs)))). lia. }
    unfold CountValues. rewrite count_values by (assumption || lia). reflexivity.
Qed.

Lemma Split_roundtrip_witness :
  CountValues (flat_map rlp [VBytes [1; 2; 3]; VUint 1024]) = Ret (Ok 2) /\
  Split (rlp sample_value ++ [9; 9]) = Ret (Ok (KList, [131; 1; 2; 3; 130; 4; 0; 195; 5; 1; 192], [9; 9])).
Proof.
  destruct (Split_roundtrip sample_value _ _ [9; 9] [VBytes [1; 2; 3]; VUint 1024] eq_refl ltac:(vm_compute; reflexivity)
    ltac:(repeat constructor; discriminate) ltac:(vm_compute; reflexivity)) as (H1 & _ & H2).
  split; [exact H2|exact H1].
Defined.

(** A truncated single-byte string: Split and CountValues of the one byte 0x81 index past the end of the input and
    panic, instead of reporting an unexpected end. *)
Theorem Split_panics : Split [0x81] = Panic /\ CountValues [0x81] = Panic /\ SplitString [0x81] = Panic.
Proof. repeat split. Qed.
