(* ===== verification/RlpStream.v ===== *)
(** * Package [rlp]: decoding

    [rlp/decode.go]: the [Stream] that reads an encoding piece by piece, and the
    decoders that the reflection of the source selects by type, here by a
    description of the type.  The reader is a [bytes.Reader]: the bytes left.
    [kind] is [None] where the source has -1.  The content of an error message is
    kept as the error it tells of. *)

From Stdlib Require Import ZArith List Lia Bool.
From S2P Require Import Prelude GoBig ByteBuf Rlp.
Import ListNotations.
Local Open Scope Z_scope.

Inductive streamErr : Type :=
| EOF
| UnexpectedEOF
| EOL
| CanonInt
| CanonSize
| ExpectedString
| ExpectedList
| ElemTooLarge
| ValueTooLarge
| MoreThanOneValue
| NotInList
| NotAtEOL
| UintOverflow
| InvalidBool (n : Z)
(** errors of [decodeError]: a wrapped one, and those the decoders make *)
| WrappedError (e : streamErr)
| TooFewElements
| StringTooLong
| StringTooShort.

Record listpos : Type := mkPos { lp_pos : Z; lp_size : Z }.

(** The innermost list is the head of [stack]. *)
Record Stream : Type := mkStream {
  reader : list Z;
  remaining : Z;
  limited : bool;
  kind : option Kind;
  vsize : Z;
  byteval : Z;
  kinderr : option streamErr;
  stack : list listpos }.

Definition set_reader (s : Stream) (r : list Z) : Stream :=
  mkStream r (remaining s) (limited s) (kind s) (vsize s) (byteval s) (kinderr s) (stack s).
Definition set_remaining (s : Stream) (n : Z) : Stream :=
  mkStream (reader s) n (limited s) (kind s) (vsize s) (byteval s) (kinderr s) (stack s).
Definition set_kind (s : Stream) (k : option Kind) : Stream :=
  mkStream (reader s) (remaining s) (limited s) k (vsize s) (byteval s) (kinderr s) (stack s).
Definition set_vsize (s : Stream) (n : Z) : Stream :=
  mkStream (reader s) (remaining s) (limited s) (kind s) n (byteval s) (kinderr s) (stack s).
Definition set_byteval (s : Stream) (b : Z) : Stream :=
  mkStream (reader s) (remaining s) (limited s) (kind s) (vsize s) b (kinderr s) (stack s).
Definition set_kinderr (s : Stream) (e : option streamErr) : Stream :=
  mkStream (reader s) (remaining s) (limited s) (kind s) (vsize s) (byteval s) e (stack s).
Definition set_stack (s : Stream) (st : list listpos) : Stream :=
  mkStream (reader s) (remaining s) (limited s) (kind s) (vsize s) (byteval s) (kinderr s) st.

(** A method of the stream: it changes it, and returns a value or an error, or panics. *)
Definition D (A : Type) : Type := Stream -> outcome (Stream * result A streamErr).
Definition dret {A : Type} (a : A) : D A := fun s => Ret (s, Ok a).
Definition derr {A : Type} (e : streamErr) : D A := fun s => Ret (s, Err e).
Definition dbind {A B : Type} (m : D A) (k : A -> D B) : D B := fun s =>
  match m s with
  | Ret (s, Ok a) => k a s
  | Ret (s, Err e) => Ret (s, Err e)
  | Panic => Panic
  end.
Definition dmodify (f : Stream -> Stream) : D unit := fun s => Ret (f s, Ok tt).
Definition dget {A : Type} (f : Stream -> A) : D A := fun s => Ret (s, Ok (f s)).
(** [if err := m(); err != nil { return f(err) }] *)
Definition dcatch {A : Type} (m : D A) (h : streamErr -> D A) : D A := fun s =>
  match m s with
  | Ret (s, Err e) => h e s
  | r => r
  end.

Declare Scope stream_scope.
Delimit Scope stream_scope with stream.
Notation "'get!' x <- m ; k" := (dbind m (fun x => k))
  (at level 10, x pattern, m at level 100, k at level 200) : stream_scope.
Notation "'run!' m ; k" := (dbind m (fun _ => k))
  (at level 10, m at level 100, k at level 200) : stream_scope.
Local Open Scope stream_scope.

(** ** Reading bytes *)

Definition willRead (n : Z) : D unit := fun s =>
  let s := set_kind s None in
  let '(s, over) :=
    match stack s with
    | [] => (s, false)
    | tos :: st =>
        if n >? u64 (lp_size tos - lp_pos tos) then (s, true)
        else (set_stack s (mkPos (u64 (lp_pos tos + n)) (lp_size tos) :: st), false)
    end in
  if over then Ret (s, Err ElemTooLarge)
  else if limited s then
    if n >? remaining s then Ret (s, Err ValueTooLarge)
    else Ret (set_remaining s (u64 (remaining s - n)), Ok tt)
  else Ret (s, Ok tt).

Definition readByte : D Z :=
  run! willRead 1;
  fun s =>
    match reader s with
    | [] => Ret (s, Err UnexpectedEOF)
    | b :: r => Ret (set_reader s r, Ok b)
    end.

(** [io.ReadFull] of [n] bytes: a short input is consumed. *)
Definition readFull (n : Z) : D (list Z) :=
  run! willRead n;
  fun s =>
    if n <=? len (reader s) then Ret (set_reader s (skipn (Z.to_nat n) (reader s)), Ok (firstn (Z.to_nat n) (reader s)))
    else Ret (set_reader s [], Err UnexpectedEOF).

Definition readUint (size : Z) : D Z :=
  if size =? 0 then run! dmodify (fun s => set_kind s None); dret 0
  else if size =? 1 then readByte
  else
    get! b <- readFull size;
    match b with
    | [] => dret 0
    | x :: _ => if x =? 0 then derr CanonSize else dret (SetBytes b)
    end.

(** [err == nil && size < 56] *)
Definition checked_size (k : Kind) (size : Z) : D (Kind * Z) :=
  get! n <- readUint size;
  if n <? 56 then derr CanonSize else dret (k, n).

Definition toplevel_error (e : streamErr) : D Z := fun s =>
  Ret (s, Err (match stack s, e with [], UnexpectedEOF => EOF | [], ValueTooLarge => EOF | _, _ => e end)).

Definition stream_readKind : D (Kind * Z) :=
  get! b <- dcatch readByte toplevel_error;
  run! dmodify (fun s => set_byteval s 0);
  if b <? 0x80 then run! dmodify (fun s => set_byteval s b); dret (KByte, 0)
  else if b <? 0xB8 then dret (KString, b - 0x80)
  else if b <? 0xC0 then checked_size KString (b - 0xB7)
  else if b <? 0xF8 then dret (KList, b - 0xC0)
  else checked_size KList (b - 0xF7).

(** ** Kinds *)

(** What [readKind] returned becomes the cached kind, size and error; with an
    error of [readKind] the source keeps the kind it returned, which no one reads
    as the error is returned with it. *)
Definition stream_Kind : D (Kind * Z) := fun s =>
  let tos := match stack s with [] => None | p :: _ => Some p end in
  match kind s with
  | Some k => Ret (s, match kinderr s with None => Ok (k, vsize s) | Some e => Err e end)
  | None =>
      let s := set_kinderr s None in
      if match tos with Some p => lp_pos p =? lp_size p | None => false end then Ret (s, Err EOL)
      else
        match stream_readKind s with
        | Panic => Panic
        | Ret (s, Err e) => Ret (set_kinderr (set_vsize (set_kind s (Some KByte)) 0) (Some e), Err e)
        | Ret (s, Ok (k, n)) =>
            let s := set_vsize (set_kind s (Some k)) n in
            let err :=
              match tos with
              | None => if limited s && (n >? remaining s) then Some ValueTooLarge else None
              | Some p =>
                  (* [tos] points to the list, whose position [readKind] moved *)
                  match stack s with
                  | p :: _ => if n >? u64 (lp_size p - lp_pos p) then Some ElemTooLarge else None
                  | [] => None
                  end
              end in
            Ret (set_kinderr s err, match err with None => Ok (k, n) | Some e => Err e end)
        end
  end.

(** [make([]byte, n)] panics when [n] is no length. *)
Definition make_bytes (n : Z) : D unit := fun s => if n >=? 2 ^ 63 then Panic else Ret (s, Ok tt).

Definition rearm : D unit := dmodify (fun s => set_kind s None).

Definition stream_Bytes : D (list Z) :=
  get! (k, size) <- stream_Kind;
  match k with
  | KByte => run! rearm; get! b <- dget byteval; dret [b]
  | KString =>
      run! make_bytes size;
      get! b <- readFull size;
      if (size =? 1) && (nth 0 b 0 <? 128) then derr CanonSize else dret b
  | KList => derr ExpectedString
  end.

Definition stream_Raw : D (list Z) :=
  get! (k, size) <- stream_Kind;
  match k with
  | KByte => run! rearm; get! b <- dget byteval; dret [b]
  | _ =>
      let start := headsize size in
      run! make_bytes (u64 (start + size));
      get! b <- readFull size;
      dret ((match k with KString => puthead 0x80 0xB7 size | _ => puthead 0xC0 0xF7 size end) ++ b)
  end.

Definition stream_uint (maxbits : Z) : D Z :=
  get! (k, size) <- stream_Kind;
  match k with
  | KByte =>
      get! b <- dget byteval;
      if b =? 0 then derr CanonInt else run! rearm; dret b
  | KString =>
      if size >? maxbits / 8 then derr UintOverflow
      else
        get! v <- dcatch (readUint size) (fun e => derr (match e with CanonSize => CanonInt | _ => e end));
        if (size >? 0) && (v <? 128) then derr CanonSize else dret v
  | KList => derr ExpectedString
  end.

Definition stream_Bool : D bool :=
  get! num <- stream_uint 8;
  if num =? 0 then dret false
  else if num =? 1 then dret true
  else derr (InvalidBool num).

Definition stream_List : D Z :=
  get! (k, size) <- stream_Kind;
  match k with
  | KList => run! dmodify (fun s => set_vsize (set_kind (set_stack s (mkPos 0 size :: stack s)) None) 0); dret size
  | _ => derr ExpectedList
  end.

Definition stream_ListEnd : D unit := fun s =>
  match stack s with
  | [] => Ret (s, Err NotInList)
  | tos :: st =>
      if negb (lp_pos tos =? lp_size tos) then Ret (s, Err NotAtEOL)
      else
        let st := match st with [] => [] | p :: st => mkPos (u64 (lp_pos p + lp_size tos)) (lp_size p) :: st end in
        Ret (set_vsize (set_kind (set_stack s st) None) 0, Ok tt)
  end.

(** ** The decoders *)

(** The types, as [makeDecoder] tells them apart; a string is decoded as a slice of bytes. *)
Inductive typ : Type :=
| TRaw
| TUint (bits : Z)
| TBool
| TBytes
| TArray (n : Z)
| TBigInt
| TSlice (elem : typ)
| TStruct (fields : list typ)
| TPtr (elem : typ)
| TOptional (elem : typ).

Inductive dval : Type :=
| DRaw (b : list Z)
| DUint (n : Z)
| DBool (b : bool)
| DBytes (b : list Z)
| DBigInt (n : Z)
| DList (vs : list dval)
| DNil.

Definition wrapStreamError (e : streamErr) : streamErr :=
  match e with
  | CanonInt | CanonSize | ExpectedList | ExpectedString | UintOverflow | NotAtEOL => WrappedError e
  | _ => e
  end.
Definition wrapped {A : Type} (m : D A) : D A := dcatch m (fun e => derr (wrapStreamError e)).

Definition decodeUint (bits : Z) : D dval := get! n <- wrapped (stream_uint bits); dret (DUint n).
Definition decodeBool : D dval := get! b <- wrapped stream_Bool; dret (DBool b).
Definition decodeByteSlice : D dval := get! b <- wrapped stream_Bytes; dret (DBytes b).
Definition decodeRawValue : D dval := get! b <- stream_Raw; dret (DRaw b).

Definition decodeBigInt : D dval :=
  get! b <- wrapped stream_Bytes;
  if match b with x :: _ => x =? 0 | [] => false end then derr (WrappedError CanonInt)
  else dret (DBigInt (SetBytes b)).

(** The error of [s.Uint()] is ignored. *)
Definition decodeByteArray (vlen : Z) : D dval :=
  get! (k, size) <- stream_Kind;
  match k with
  | KByte =>
      if vlen =? 0 then derr StringTooLong
      else if vlen >? 1 then derr StringTooShort
      else get! bv <- dcatch (stream_uint 64) (fun _ => dret 0); dret (DBytes [u8 bv])
  | KString =>
      if vlen <? size then derr StringTooLong
      else if vlen >? size then derr StringTooShort
      else
        get! b <- readFull vlen;
        if (size =? 1) && (nth 0 b 0 <? 128) then derr (WrappedError CanonSize) else dret (DBytes b)
  | KList => derr (WrappedError ExpectedString)
  end.

(** The loop of [decodeSliceElems].  An element takes at least a byte of the input,
    so the bytes left are enough iterations; an array of one byte that is zero
    takes none when it is met again, and then the slice grows until the memory
    ends. *)
Fixpoint slice_elems (fuel : nat) (elemdec : D dval) (acc : list dval) (s : Stream) : outcome (Stream * result (list dval) streamErr) :=
  match fuel with
  | O => Panic
  | S fuel =>
      match elemdec s with
      | Panic => Panic
      | Ret (s, Ok v) => slice_elems fuel elemdec (acc ++ [v]) s
      | Ret (s, Err EOL) => Ret (s, Ok acc)
      | Ret (s, Err e) => Ret (s, Err e)
      end
  end.
Definition decodeSliceElems (elemdec : D dval) : D (list dval) := fun s => slice_elems (length (reader s) + 2) elemdec [] s.

Definition decodeListSlice (elemdec : D dval) : D dval :=
  get! size <- wrapped stream_List;
  if size =? 0 then run! stream_ListEnd; dret (DList [])
  else
    get! vs <- decodeSliceElems elemdec;
    run! stream_ListEnd;
    dret (DList vs).

Fixpoint struct_fields (decs : list (D dval)) (acc : list dval) : D (list dval) :=
  match decs with
  | [] => dret acc
  | dec :: decs =>
      get! v <- dcatch dec (fun e => derr (match e with EOL => TooFewElements | _ => e end));
      struct_fields decs (acc ++ [v])
  end.
Definition decodeStruct (decs : list (D dval)) : D dval :=
  run! wrapped stream_List;
  get! vs <- struct_fields decs [];
  run! wrapped stream_ListEnd;
  dret (DList vs).

Definition decodeOptional (elemdec : D dval) : D dval := fun s =>
  match stream_Kind s with
  | Panic => Panic
  | Ret (s, Err e) => Ret (set_kind s None, Err e)
  | Ret (s, Ok (k, size)) =>
      if (size =? 0) && match k with KByte => false | _ => true end then Ret (set_kind s None, Ok DNil)
      else elemdec s
  end.

(** [makeDecoder] *)
Fixpoint decode (t : typ) : D dval :=
  match t with
  | TRaw => decodeRawValue
  | TUint bits => decodeUint bits
  | TBool => decodeBool
  | TBytes => decodeByteSlice
  | TArray n => decodeByteArray n
  | TBigInt => decodeBigInt
  | TSlice t => decodeListSlice (decode t)
  | TStruct ts => decodeStruct (map decode ts)
  | TPtr t => decode t
  | TOptional t => decodeOptional (decode t)
  end.

(** ** The entry points *)

Definition stream_Reset (r : list Z) (inputLimit : Z) : Stream :=
  mkStream r (if inputLimit >? 0 then inputLimit else u64 (len r)) true None 0 0 None [].
Definition NewStream (r : list Z) (inputLimit : Z) : Stream := stream_Reset r inputLimit.
Definition NewListStream (r : list Z) (n : Z) : Stream := set_vsize (set_kind (stream_Reset r n) (Some KList)) n.

Definition DecodeBytes (t : typ) (b : list Z) : outcome (result dval streamErr) :=
  match decode t (NewStream b (u64 (len b))) with
  | Panic => Panic
  | Ret (_, Err e) => Ret (Err e)
  | Ret (s, Ok v) => if len (reader s) >? 0 then Ret (Err MoreThanOneValue) else Ret (Ok v)
  end.
