(* ===== verification/RlpDecode.v ===== *)
(** * Theorems: decoding is the inverse of encoding

    A decoder of [RlpStream.v] accepts exactly the encodings of the values of its
    type: what was encoded is read back, and what is read is the one encoding of
    what it gives. *)

From Stdlib Require Import ZArith List Lia Bool.
From S2P Require Import Prelude GoBig ByteBuf Rlp RlpTheorems RlpStream.
Import ListNotations.
Local Open Scope Z_scope.

(** ** Streams of [DecodeBytes] *)

(** The lists the stream is in, innermost first, with [n] bytes of input: what is
    left of each is in the input, and the size of an inner list, which [ListEnd]
    adds, fits in the outer one. *)
Fixpoint stack_ok (n carry : Z) (st : list listpos) : Prop :=
  match st with
  | [] => True
  | p :: st =>
      0 <= lp_pos p /\ lp_pos p + carry <= lp_size p < 2 ^ 63 /\ lp_size p - (lp_pos p + carry) <= n /\
      stack_ok (n - (lp_size p - (lp_pos p + carry))) (lp_size p) st
  end.

Record stream_ok (s : Stream) : Prop := {
  so_limited : limited s = true;
  so_remaining : remaining s = len (reader s);
  so_len : len (reader s) < 2 ^ 63;
  so_bytes : bytes_ok (reader s);
  so_stack : stack_ok (len (reader s)) 0 (stack s) }.

(** The bytes a value may take. *)
Definition avail (s : Stream) : Z := match stack s with [] => len (reader s) | p :: _ => lp_size p - lp_pos p end.

Definition bump (n : Z) (st : list listpos) : list listpos :=
  match st with [] => [] | p :: st => mkPos (lp_pos p + n) (lp_size p) :: st end.

(** The stream after the bytes [p], with [r] left. *)
Definition adv (s : Stream) (p r : list Z) : Stream :=
  mkStream r (remaining s - len p) (limited s) None (vsize s) (byteval s) (kinderr s) (bump (len p) (stack s)).

Lemma avail_bounds s : stream_ok s -> 0 <= avail s <= len (reader s).
Proof.
  intros [_ _ _ _ H]. unfold avail. destruct (stack s) as [|p st]; [pose proof (len_nonneg (reader s)); lia|]. cbn [stack_ok] in H. lia.
Qed.

Lemma adv_ok s p r : stream_ok s -> reader s = p ++ r -> len p <= avail s -> stream_ok (adv s p r) /\ avail (adv s p r) = avail s - len p.
Proof.
  intros [H1 H2 H3 H4 H5] E Hl. pose proof (len_nonneg p). pose proof (len_nonneg r). unfold avail in *. rewrite E, len_app in *. split.
  - split; cbn; auto; [lia|lia|apply bytes_ok_app in H4; apply H4|].
    destruct (stack s) as [|q st]; [exact I|]. cbn [bump stack_ok lp_pos lp_size] in *.
    replace (len r - (lp_size q - (lp_pos q + len p + 0))) with (len p + len r - (lp_size q - (lp_pos q + 0))) by lia. intuition lia.
  - cbn. destruct (stack s) as [|q st]; cbn; lia.
Qed.

Lemma willRead_ok n s : stream_ok s -> 0 <= n <= avail s ->
  willRead n s = Ret (mkStream (reader s) (remaining s - n) (limited s) None (vsize s) (byteval s) (kinderr s) (bump n (stack s)), Ok tt).
Proof.
  intros [H1 H2 H3 H4 H5] Hn. unfold willRead, avail in *. cbn [stack set_kind]. destruct (stack s) as [|q st] eqn:Es.
  - cbn [limited set_kind remaining]. rewrite H1, ?Z.gtb_ltb. destruct (Z.ltb_spec (remaining s) n); [lia|]. rewrite u64_small by lia.
    unfold set_remaining, set_stack, set_kind. cbn. rewrite ?H1, ?Es. reflexivity.
  - cbn [stack_ok] in H5. rewrite ?Z.gtb_ltb, u64_small by lia. destruct (Z.ltb_spec (lp_size q - lp_pos q) n); [lia|].
    cbn [limited set_stack set_kind remaining]. rewrite H1, ?Z.gtb_ltb. destruct (Z.ltb_spec (remaining s) n); [lia|]. rewrite !u64_small by lia.
    unfold set_remaining, set_stack, set_kind. cbn. rewrite ?H1, ?Es. reflexivity.
Qed.

Lemma willRead_over n s : stream_ok s -> avail s < n -> exists s' e, willRead n s = Ret (s', Err e) /\ e <> EOL /\ stack s' = stack s.
Proof.
  intros [H1 H2 H3 H4 H5] Hn. unfold willRead, avail in *. cbn [stack set_kind]. destruct (stack s) as [|q st] eqn:Es.
  - cbn [limited set_kind remaining]. rewrite H1, ?Z.gtb_ltb. destruct (Z.ltb_spec (remaining s) n); [|lia]. do 2 eexists. split; [reflexivity|]. split; [discriminate|exact Es].
  - cbn [stack_ok] in H5. rewrite ?Z.gtb_ltb, u64_small by lia. destruct (Z.ltb_spec (lp_size q - lp_pos q) n); [|lia].
    do 2 eexists. split; [reflexivity|]. split; [discriminate|exact Es].
Qed.

Lemma firstn_split {A : Type} n (l : list A) : 0 <= n <= len l -> exists p r, l = p ++ r /\ len p = n.
Proof.
  intros H. exists (firstn (Z.to_nat n) l), (skipn (Z.to_nat n) l). split; [symmetry; apply firstn_skipn|apply len_firstn, H].
Qed.

Lemma firstn_len {A : Type} (p r : list A) : firstn (Z.to_nat (len p)) (p ++ r) = p /\ skipn (Z.to_nat (len p)) (p ++ r) = r.
Proof.
  unfold len. rewrite Nat2Z.id. split; [rewrite firstn_app, firstn_all, Nat.sub_diag, firstn_O; apply app_nil_r|].
  rewrite skipn_app, skipn_all, Nat.sub_diag. reflexivity.
Qed.

Lemma readFull_ok p r s : stream_ok s -> reader s = p ++ r -> len p <= avail s -> readFull (len p) s = Ret (adv s p r, Ok p).
Proof.
  intros H E Hl. unfold readFull, dbind. rewrite willRead_ok by (auto; pose proof (len_nonneg p); lia). cbn [reader].
  rewrite E, len_app. pose proof (len_nonneg r). destruct (Z.leb_spec (len p) (len p + len r)); [|lia].
  destruct (firstn_len p r) as [-> ->]. reflexivity.
Qed.

Lemma readByte_ok b r s : stream_ok s -> reader s = b :: r -> 1 <= avail s -> readByte s = Ret (adv s [b] r, Ok b).
Proof.
  intros H E Hl. unfold readByte, dbind. rewrite willRead_ok by (auto; lia). cbn [reader]. rewrite E. reflexivity.
Qed.

(** Reading [n] bytes gives them, or an error. *)
Lemma readFull_inv n s s' b : stream_ok s -> 0 <= n -> readFull n s = Ret (s', Ok b) ->
  exists r, reader s = b ++ r /\ len b = n /\ n <= avail s /\ s' = adv s b r.
Proof.
  intros H Hn Hr. pose proof (avail_bounds s H). destruct (Z.le_gt_cases n (avail s)) as [Hl|Hl].
  - destruct (firstn_split n (reader s) ltac:(lia)) as (p & r & E & <-). rewrite (readFull_ok p r s H E Hl) in Hr. injection Hr as <- <-. eauto.
  - destruct (willRead_over n s H Hl) as (s1 & e & E & _). unfold readFull, dbind in Hr. rewrite E in Hr. discriminate.
Qed.

Lemma readByte_inv s s' b : stream_ok s -> readByte s = Ret (s', Ok b) -> exists r, reader s = b :: r /\ 1 <= avail s /\ s' = adv s [b] r.
Proof.
  intros H Hr. pose proof (avail_bounds s H). destruct (Z.le_gt_cases 1 (avail s)) as [Hl|Hl].
  - destruct (reader s) as [|x r] eqn:E; [unfold len in *; cbn in *; lia|]. rewrite (readByte_ok x r s H E Hl) in Hr. injection Hr as <- <-. eauto.
  - destruct (willRead_over 1 s H Hl) as (s1 & e & E & _). unfold readByte, dbind in Hr. rewrite E in Hr. discriminate.
Qed.

(** ** Headers *)

(** The bytes [h] announce a value of kind [k] with [n] bytes of content; a small byte is its own header. *)
Inductive header : list Z -> Kind -> Z -> Z -> Prop :=
| h_byte b : 0 <= b < 0x80 -> header [b] KByte 0 b
| h_string n : 0 <= n < 2 ^ 64 -> header (rlp_head 0x80 0xB7 n) KString n 0
| h_list n : 0 <= n < 2 ^ 64 -> header (rlp_head 0xC0 0xF7 n) KList n 0.

Lemma header_size h k n b : header h k n b -> 0 <= n /\ 1 <= len h.
Proof.
  intros H. destruct H as [b H|n H|n H]; [split; [lia|reflexivity]|..]; rewrite rlp_head_len by lia; unfold headsize; split; try lia.
  all: destruct (Z.ltb_spec n 56); [lia|]; rewrite intsize_byte_len by lia; pose proof (byte_len_small n ltac:(lia)); lia.
Qed.

(** The stream with the kind cached. *)
Definition mark (s : Stream) (k : Kind) (n b : Z) (e : option streamErr) : Stream :=
  mkStream (reader s) (remaining s) (limited s) (Some k) n b e (stack s).

Lemma byteval_ok s b : stream_ok s -> stream_ok (set_byteval s b).
Proof. intros [H1 H2 H3 H4 H5]. split; assumption. Qed.

Lemma readUint_Bytes n r s : 56 <= n < 2 ^ 64 -> stream_ok s -> reader s = Bytes n ++ r -> byte_len n <= avail s ->
  readUint (byte_len n) s = Ret (adv s (Bytes n) r, Ok n).
Proof.
  intros Hn H E Hl. pose proof (byte_len_small n ltac:(lia)) as Hk. unfold readUint. destruct (Z.eqb_spec (byte_len n) 0); [lia|].
  destruct (Bytes_head n ltac:(lia)) as (x & l & Ex & Hx). pose proof (SetBytes_Bytes n) as Hv. rewrite Z.abs_eq in Hv by lia.
  pose proof (Bytes_len n) as El. destruct (Z.eqb_spec (byte_len n) 1) as [E1|N1].
  - rewrite Ex in *. destruct l as [|y l]; [|rewrite !len_cons in El; pose proof (len_nonneg l); lia]. rewrite (readByte_ok x r s H E ltac:(lia)).
    unfold SetBytes in Hv. cbn in Hv. subst x. reflexivity.
  - unfold dbind. rewrite <- El. rewrite (readFull_ok (Bytes n) r s H E ltac:(lia)). rewrite Ex in *. destruct (Z.eqb_spec x 0); [contradiction|].
    unfold dret. rewrite Hv. reflexivity.
Qed.

Lemma readUint_inv m s s' n : stream_ok s -> 1 <= m <= 8 -> readUint m s = Ret (s', Ok n) -> 0 < n ->
  n < 2 ^ (8 * m) /\ exists r, reader s = Bytes n ++ r /\ byte_len n = m /\ m <= avail s /\ s' = adv s (Bytes n) r.
Proof.
  intros H Hm. unfold readUint. destruct (Z.eqb_spec m 0); [lia|]. destruct (Z.eqb_spec m 1) as [->|N].
  - intros Hr Hn. destruct (readByte_inv s s' n H Hr) as (r & E & Ha & ->). assert (Hb : 0 <= n < 256).
    { pose proof (so_bytes s H) as Hb. rewrite E in Hb. inversion Hb; assumption. }
    assert (EB : Bytes n = [n]).
    { pose proof (Bytes_SetBytes n []) as P. unfold SetBytes in P. cbn in P. apply P; [repeat constructor; apply Hb|lia]. }
    split; [cbn; lia|]. exists r. rewrite EB. split; [exact E|]. split; [|split; [lia|reflexivity]]. rewrite <- Bytes_len, EB. reflexivity.
  - unfold dbind. destruct (readFull m s) as [[s1 [b|e]]|] eqn:Ef; [|discriminate..]. destruct (readFull_inv m s s1 b H ltac:(lia) Ef) as (r & E & El & Ha & ->).
    assert (Hb : bytes_ok b) by (pose proof (so_bytes s H) as Hb; rewrite E in Hb; apply bytes_ok_app in Hb; apply Hb).
    destruct b as [|x l]; [unfold len in El; cbn in El; lia|]. destruct (Z.eqb_spec x 0) as [|Nx]; [discriminate|]. unfold dret. intros [= <- <-] _.
    pose proof (Bytes_SetBytes x l Hb Nx) as EB. split; [|exists r; rewrite EB; split; [exact E|]; split; [rewrite <- Bytes_len, EB; exact El|auto]].
    pose proof (SetBytes_range (x :: l) Hb) as Hd. rewrite El in Hd. replace (2 ^ (8 * m)) with (256 ^ m); [apply Hd|].
    rewrite Z.pow_mul_r by lia. reflexivity.
Qed.

Lemma checked_size_ok k n r s : 56 <= n < 2 ^ 64 -> stream_ok s -> reader s = Bytes n ++ r -> byte_len n <= avail s ->
  checked_size k (byte_len n) s = Ret (adv s (Bytes n) r, Ok (k, n)).
Proof.
  intros Hn H E Hl. unfold checked_size, dbind. rewrite (readUint_Bytes n r s Hn H E Hl). destruct (Z.ltb_spec n 56); [lia|reflexivity].
Qed.

Lemma checked_size_inv k m s s' k' n : stream_ok s -> 1 <= m <= 8 -> checked_size k m s = Ret (s', Ok (k', n)) ->
  k' = k /\ 56 <= n < 2 ^ 64 /\ exists r, reader s = Bytes n ++ r /\ byte_len n = m /\ m <= avail s /\ s' = adv s (Bytes n) r.
Proof.
  intros H Hm. unfold checked_size, dbind. destruct (readUint m s) as [[s1 [x|]]|] eqn:E; [|discriminate..].
  destruct (Z.ltb_spec x 56); [discriminate|]. intros [= <- <- <-]. destruct (readUint_inv m s s1 x H Hm E ltac:(lia)) as [Hx He].
  split; [reflexivity|]. split; [|exact He]. split; [lia|]. eapply Z.lt_le_trans; [apply Hx|]. apply Z.pow_le_mono_r; lia.
Qed.

(** A long header is the tag and the bytes of the size. *)
Lemma long_header small large n : 56 <= n -> rlp_head small large n = [large + byte_len n] ++ Bytes n.
Proof. intros H. unfold rlp_head. destruct (Z.ltb_spec n 56); [lia|reflexivity]. Qed.
Lemma short_header small large n : n < 56 -> rlp_head small large n = [small + n].
Proof. intros H. unfold rlp_head. destruct (Z.ltb_spec n 56); [reflexivity|lia]. Qed.

Lemma adv_adv s b p q r : adv (set_byteval (adv s p (q ++ r)) b) q r = set_byteval (adv s (p ++ q) r) b.
Proof.
  unfold adv, set_byteval. cbn. rewrite len_app. f_equal; [lia|]. destruct (stack s); [reflexivity|]. cbn. f_equal. f_equal. lia.
Qed.

(** What [readKind] does after the first byte. *)
Definition after_tag (b : Z) : D (Kind * Z) := fun s =>
  if b <? 0x80 then Ret (set_byteval s b, Ok (KByte, 0))
  else if b <? 0xB8 then Ret (s, Ok (KString, b - 0x80))
  else if b <? 0xC0 then checked_size KString (b - 0xB7) s
  else if b <? 0xF8 then Ret (s, Ok (KList, b - 0xC0))
  else checked_size KList (b - 0xF7) s.

Lemma readKind_tag b r s : stream_ok s -> reader s = b :: r -> 1 <= avail s ->
  stream_readKind s = after_tag b (set_byteval (adv s [b] r) 0) /\ stream_ok (set_byteval (adv s [b] r) 0) /\
  avail (set_byteval (adv s [b] r) 0) = avail s - 1.
Proof.
  intros H E Hl. destruct (adv_ok s [b] r H E Hl) as [H1 A1]. split; [|split; [apply byteval_ok, H1|exact A1]].
  unfold stream_readKind, dbind at 1, dcatch. rewrite (readByte_ok b r s H E Hl). unfold after_tag, dbind, dmodify.
  repeat (destruct (_ <? _); [reflexivity|]). reflexivity.
Qed.

Lemma readKind_ok h k n b r s : stream_ok s -> header h k n b -> reader s = h ++ r -> len h <= avail s ->
  exists s', stream_readKind s = Ret (s', Ok (k, n)) /\ forall e, mark s' k n (byteval s') e = mark (adv s h r) k n b e.
Proof.
  assert (Long : forall small large k n r s, (k, large) = (KString, 0xB7) \/ (k, large) = (KList, 0xF7) -> 56 <= n < 2 ^ 64 ->
    stream_ok s -> reader s = rlp_head small large n ++ r -> len (rlp_head small large n) <= avail s ->
    exists s', stream_readKind s = Ret (s', Ok (k, n)) /\ forall e, mark s' k n (byteval s') e = mark (adv s (rlp_head small large n) r) k n 0 e).
  { clear. intros small large k n r s Hk Hn H E Hl. rewrite (long_header small large n) in * by lia. rewrite <- app_assoc in E.
    pose proof (byte_len_small n ltac:(lia)) as Hs. rewrite len_app, Bytes_len in Hl. change (len [large + byte_len n]) with 1 in Hl.
    destruct (readKind_tag (large + byte_len n) (Bytes n ++ r) s H E ltac:(lia)) as (-> & H1 & A1). eexists. split.
    - unfold after_tag. destruct Hk as [[= -> ->]|[= -> ->]]; repeat (tag_above || tag_below).
      + replace (0xB7 + byte_len n - 0xB7) with (byte_len n) by lia. apply (checked_size_ok _ n r); auto; lia.
      + replace (0xF7 + byte_len n - 0xF7) with (byte_len n) by lia. apply (checked_size_ok _ n r); auto; lia.
    - intros e. rewrite adv_adv. reflexivity. }
  intros H Hh E Hl. destruct Hh as [b Hb|n Hn|n Hn].
  - destruct (readKind_tag b r s H E Hl) as (-> & _ & _). unfold after_tag. tag_below. eexists. split; reflexivity.
  - destruct (Z.lt_ge_cases n 56) as [L|L]; [|apply (Long 0x80 0xB7 KString n r s); auto; lia]. rewrite (short_header 0x80 0xB7 n L) in *.
    destruct (readKind_tag (0x80 + n) r s H E Hl) as (-> & _ & _). unfold after_tag. tag_above. tag_below.
    replace (0x80 + n - 0x80) with n by lia. eexists. split; reflexivity.
  - destruct (Z.lt_ge_cases n 56) as [L|L]; [|apply (Long 0xC0 0xF7 KList n r s); auto; lia]. rewrite (short_header 0xC0 0xF7 n L) in *.
    destruct (readKind_tag (0xC0 + n) r s H E Hl) as (-> & _ & _). unfold after_tag. do 3 tag_above. tag_below.
    replace (0xC0 + n - 0xC0) with n by lia. eexists. split; reflexivity.
Qed.

Lemma readKind_inv s s' k n : stream_ok s -> stream_readKind s = Ret (s', Ok (k, n)) ->
  exists h r b, header h k n b /\ reader s = h ++ r /\ len h <= avail s /\ forall e, mark s' k n (byteval s') e = mark (adv s h r) k n b e.
Proof.
  intros H Hr. pose proof (avail_bounds s H) as Ha. assert (Hb : exists b r, reader s = b :: r /\ 1 <= avail s).
  { unfold stream_readKind, dbind at 1, dcatch in Hr. destruct (readByte s) as [[s1 [b|e]]|] eqn:Eb; [|discriminate..].
    destruct (readByte_inv s s1 b H Eb) as (r & E & Hl & _). eauto. }
  destruct Hb as (b & r & E & Hl). destruct (readKind_tag b r s H E Hl) as (Et & H1 & A1). rewrite Et in Hr. clear Et.
  assert (Hb : 0 <= b < 256) by (pose proof (so_bytes s H) as Hb; rewrite E in Hb; inversion Hb; assumption).
  assert (Long : forall small large, checked_size k (b - large) (set_byteval (adv s [b] r) 0) = Ret (s', Ok (k, n)) -> 1 <= b - large <= 8 ->
    56 <= n < 2 ^ 64 /\ exists r', reader s = rlp_head small large n ++ r' /\ len (rlp_head small large n) <= avail s /\
    forall e, mark s' k n (byteval s') e = mark (adv s (rlp_head small large n) r') k n 0 e).
  { intros small large Hc Hk. destruct (checked_size_inv k (b - large) _ s' k n H1 Hk Hc) as (_ & Hn & r' & Er & El & Hm & ->). split; [exact Hn|].
    exists r'. rewrite (long_header small large n) by lia. rewrite El. replace (large + (b - large)) with b by lia. cbn in Er. subst r.
    split; [exact E|]. rewrite len_app, Bytes_len, El. change (len [b]) with 1. split; [lia|]. intros e. rewrite adv_adv. reflexivity. }
  unfold after_tag in Hr. repeat match type of Hr with (if ?a <? ?c then _ else _) = _ => destruct (Z.ltb_spec a c) end.
  - injection Hr as <- <- <-. exists [b], r, b. split; [constructor; lia|]. split; [exact E|]. split; [exact Hl|reflexivity].
  - injection Hr as <- <- <-. exists (rlp_head 0x80 0xB7 (b - 0x80)), r, 0. split; [constructor; lia|].
    rewrite short_header by lia. replace (0x80 + (b - 0x80)) with b by lia. split; [exact E|]. split; [exact Hl|reflexivity].
  - destruct (checked_size_inv KString (b - 0xB7) _ s' k n H1 ltac:(lia) Hr) as (-> & _ & _).
    destruct (Long 0x80 0xB7 Hr ltac:(lia)) as (Hn & r' & Er & El & Em). do 3 eexists. split; [apply h_string; lia|]. eauto.
  - injection Hr as <- <- <-. exists (rlp_head 0xC0 0xF7 (b - 0xC0)), r, 0. split; [constructor; lia|].
    rewrite short_header by lia. replace (0xC0 + (b - 0xC0)) with b by lia. split; [exact E|]. split; [exact Hl|reflexivity].
  - destruct (checked_size_inv KList (b - 0xF7) _ s' k n H1 ltac:(lia) Hr) as (-> & _ & _).
    destruct (Long 0xC0 0xF7 Hr ltac:(lia)) as (Hn & r' & Er & El & Em). do 3 eexists. split; [apply h_list; lia|]. eauto.
Qed.

(** A method that neither panics nor reports the end of a list. *)
Definition tame_at {A : Type} (m : D A) (s : Stream) : Prop := match m s with Panic => False | Ret (_, Err EOL) => False | _ => True end.
Definition tame {A : Type} (m : D A) : Prop := forall s, tame_at m s.

Lemma tame_bind {A B : Type} (m : D A) (k : A -> D B) : tame m -> (forall a, tame (k a)) -> tame (dbind m k).
Proof. intros Hm Hk s. unfold tame_at, dbind. specialize (Hm s). unfold tame_at in Hm. destruct (m s) as [[s1 [a|e]]|]; [apply Hk|exact Hm|exact Hm]. Qed.
Lemma tame_catch {A : Type} (m : D A) h : tame m -> (forall e, e <> EOL -> tame (h e)) -> tame (dcatch m h).
Proof. intros Hm Hh s. unfold tame_at, dcatch. specialize (Hm s). unfold tame_at in Hm. destruct (m s) as [[s1 [a|e]]|]; [exact I| |exact Hm]. apply Hh. intros ->. exact Hm. Qed.
Lemma tame_ret {A : Type} (a : A) : tame (dret a). Proof. intros s. exact I. Qed.
Lemma tame_modify f : tame (dmodify f). Proof. intros s. exact I. Qed.
Lemma tame_get {A : Type} (f : Stream -> A) : tame (dget f). Proof. intros s. exact I. Qed.
Lemma tame_err {A : Type} e : e <> EOL -> tame (@derr A e). Proof. intros H s. unfold tame_at. cbn. destruct e; auto; congruence. Qed.
Create HintDb tame.
#[local] Hint Resolve tame_bind tame_ret tame_modify tame_get : tame.
#[local] Hint Extern 1 (tame (derr _)) => (apply tame_err; discriminate) : tame.
#[local] Hint Extern 2 (tame (if ?b then _ else _)) => destruct b : tame.
#[local] Hint Extern 2 (tame (let '(_, _) := ?p in _)) => destruct p : tame.

Lemma willRead_tame n : tame (willRead n).
Proof.
  intros s. unfold tame_at, willRead. destruct (stack (set_kind s None)) as [|p st]; cbn; [|destruct (_ >? _); cbn; [exact I|]];
  (destruct (limited s); [destruct (_ >? _)|]; exact I).
Qed.
#[local] Hint Resolve willRead_tame : tame.
Lemma readByte_tame : tame readByte.
Proof. apply tame_bind; auto with tame. intros _ s. unfold tame_at. destruct (reader s); exact I. Qed.
Lemma readFull_tame n : tame (readFull n).
Proof. apply tame_bind; auto with tame. intros _ s. unfold tame_at. destruct (_ <=? _); exact I. Qed.
#[local] Hint Resolve readByte_tame readFull_tame : tame.
Lemma readUint_tame n : tame (readUint n).
Proof. unfold readUint. auto 8 with tame. destruct (_ =? 0); auto with tame. destruct (_ =? 1); auto with tame. apply tame_bind; auto with tame. intros [|x l]; auto with tame. Qed.
#[local] Hint Resolve readUint_tame : tame.
Lemma checked_size_tame k n : tame (checked_size k n).
Proof. unfold checked_size. auto with tame. Qed.
#[local] Hint Resolve checked_size_tame : tame.
Lemma readKind_tame : tame stream_readKind.
Proof.
  apply tame_bind; [|auto 9 with tame]. apply tame_catch; auto with tame. intros e He s. unfold tame_at. cbn. destruct (stack s), e; cbn; auto; congruence.
Qed.

(** ** [Kind] *)

(** The stream is at the end of the list it is in. *)
Definition at_end (s : Stream) : Prop := match stack s with [] => False | p :: _ => lp_pos p = lp_size p end.

Lemma at_end_avail s : at_end s -> avail s = 0.
Proof. unfold at_end, avail. destruct (stack s); [contradiction|lia]. Qed.

Lemma Kind_end s : kind s = None -> at_end s -> stream_Kind s = Ret (set_kinderr s None, Err EOL).
Proof.
  unfold stream_Kind, at_end. intros -> H. destruct (stack s) as [|p st]; [contradiction|]. rewrite H, Z.eqb_refl. reflexivity.
Qed.

Lemma kinderr_ok s e : stream_ok s -> stream_ok (set_kinderr s e).
Proof. intros [H1 H2 H3 H4 H5]. split; assumption. Qed.
Lemma mark_ok s k n b e : stream_ok s -> stream_ok (mark s k n b e).
Proof. intros [H1 H2 H3 H4 H5]. split; assumption. Qed.

(** [Kind] where there is more to read. *)
Lemma Kind_more s : kind s = None -> 0 < avail s \/ stack s = [] -> stream_Kind s =
  match stream_readKind (set_kinderr s None) with
  | Panic => Panic
  | Ret (s', Err e) => Ret (set_kinderr (set_vsize (set_kind s' (Some KByte)) 0) (Some e), Err e)
  | Ret (s', Ok (k, n)) =>
      let err := match stack s with
                 | [] => if limited s' && (n >? remaining s') then Some ValueTooLarge else None
                 | _ => match stack s' with
                        | p :: _ => if n >? u64 (lp_size p - lp_pos p) then Some ElemTooLarge else None
                        | [] => None
                        end
                 end in
      Ret (mark s' k n (byteval s') err, match err with None => Ok (k, n) | Some e => Err e end)
  end.
Proof.
  unfold stream_Kind, avail. intros -> H. destruct (stack s) as [|p st] eqn:Es.
  - destruct (stream_readKind _) as [[s' [[k n]|e]]|]; reflexivity.
  - destruct H as [H|H]; [|discriminate]. destruct (Z.eqb_spec (lp_pos p) (lp_size p)) as [|_]; [lia|].
    destruct (stream_readKind _) as [[s' [[k n]|e]]|]; reflexivity.
Qed.

(** The check of the size is that the content is in the input, or in the list. *)
Lemma size_checked s h r k n b s' : stream_ok s -> reader s = h ++ r -> len h <= avail s -> 0 <= n ->
  (forall e, mark s' k n (byteval s') e = mark (adv s h r) k n b e) ->
  let err := match stack s with
             | [] => if limited s' && (n >? remaining s') then Some ValueTooLarge else None
             | _ => match stack s' with
                    | p :: _ => if n >? u64 (lp_size p - lp_pos p) then Some ElemTooLarge else None
                    | [] => None
                    end
             end in
  (len h + n <= avail s /\ err = None) \/ (avail s < len h + n /\ exists e, err = Some e /\ e <> EOL).
Proof.
  intros H E Hl Hn Em err. destruct (adv_ok s h r H E Hl) as [H1 A1]. specialize (Em None). injection Em as Er Erem Elim Eb Est. subst err.
  rewrite Erem, Elim, Est. destruct H as [K1 K2 K3 K4 K5], H1 as [L1 L2 L3 L4 L5]. unfold avail in *. destruct (stack s) as [|p st] eqn:Es.
  - rewrite K1, Z.gtb_ltb. cbn [andb]. cbn in A1. cbn in L2. destruct (Z.ltb_spec (remaining s - len h) n); [right|left; split; [lia|reflexivity]].
    split; [lia|]. eexists. split; [reflexivity|discriminate].
  - cbn [adv stack bump lp_size lp_pos] in *. rewrite ?Es in *. cbn [bump stack_ok lp_size lp_pos] in *. rewrite Z.gtb_ltb, u64_small by lia.
    destruct (Z.ltb_spec (lp_size p - (lp_pos p + len h)) n); [right|left; split; [lia|reflexivity]].
    split; [lia|]. eexists. split; [reflexivity|discriminate].
Qed.

Lemma Kind_ok h k n b r s : stream_ok s -> kind s = None -> header h k n b -> reader s = h ++ r -> len h + n <= avail s ->
  stream_Kind s = Ret (mark (adv s h r) k n b None, Ok (k, n)).
Proof.
  intros H Hk Hh E Hl. pose proof (header_size h k n b Hh) as [Hn Hh1].
  destruct (readKind_ok h k n b r (set_kinderr s None) (kinderr_ok s None H) Hh E ltac:(change (avail (set_kinderr s None)) with (avail s); lia)) as (s' & Er & Em).
  rewrite (Kind_more s Hk ltac:(lia)), Er. destruct (size_checked s h r k n b s' H E ltac:(lia) Hn Em) as [[_ ->]|[? _]]; [|lia].
  cbv zeta. rewrite Em. reflexivity.
Qed.

(** [Kind] gives a header that is in the input, reports the end of the list, or fails. *)
Lemma Kind_cases s : stream_ok s -> kind s = None ->
  (at_end s /\ stream_Kind s = Ret (set_kinderr s None, Err EOL)) \/
  (exists s' e, stream_Kind s = Ret (s', Err e) /\ e <> EOL /\ ~ at_end s) \/
  (exists h r k n b, header h k n b /\ reader s = h ++ r /\ len h + n <= avail s /\
     stream_Kind s = Ret (mark (adv s h r) k n b None, Ok (k, n))).
Proof.
  intros H Hk. pose proof (avail_bounds s H) as Ha. assert (Hc : at_end s \/ (0 < avail s \/ stack s = []) /\ ~ at_end s).
  { unfold at_end, avail in *. destruct (stack s) as [|p st]; [auto|]. destruct (Z.eq_dec (lp_pos p) (lp_size p)); [auto|lia]. }
  destruct Hc as [He|[Hm Hne]]; [left; auto using Kind_end|right]. rewrite (Kind_more s Hk Hm).
  pose proof (readKind_tame (set_kinderr s None)) as Ht. unfold tame_at in Ht. destruct (stream_readKind _) as [[s' [[k n]|e]]|] eqn:Er; [| |contradiction].
  - destruct (readKind_inv _ s' k n (kinderr_ok s None H) Er) as (h & r & b & Hh & E & Hl & Em). pose proof (header_size h k n b Hh) as [Hn Hh1].
    destruct (size_checked s h r k n b s' H E Hl Hn Em) as [[Hs ->]|[_ (e & -> & He)]]; [right|left; do 2 eexists; split; [reflexivity|auto]].
    exists h, r, k, n, b. cbv zeta. rewrite Em. auto.
  - left. do 2 eexists. split; [reflexivity|]. split; [|exact Hne]. intros ->. exact Ht.
Qed.

(** ** Reading a value *)

(** [s'] is [s] after the bytes [p], up to what is cached. *)
Definition after (s : Stream) (p r : list Z) (s' : Stream) : Prop :=
  kind s' = None /\ mark s' KByte 0 0 None = mark (adv s p r) KByte 0 0 None.

Lemma after_ok s p r s' : stream_ok s -> reader s = p ++ r -> len p <= avail s -> after s p r s' ->
  stream_ok s' /\ avail s' = avail s - len p /\ kind s' = None /\ reader s' = r.
Proof.
  intros H E Hl [Hk Em]. destruct (adv_ok s p r H E Hl) as [[H1 H2 H3 H4 H5] A]. injection Em as Er Erem Elim Est.
  unfold avail in *. cbn in A, H1, H2, H3, H4, H5. rewrite Est, Er. cbn. split; [|split; [exact A|auto]]. split; rewrite ?Er, ?Erem, ?Elim, ?Est; assumption.
Qed.

Lemma bump_bump m n st : bump n (bump m st) = bump (m + n) st.
Proof. destruct st; [reflexivity|]. cbn. do 2 f_equal. lia. Qed.

Lemma after_trans s p q r s1 s2 : after s p (q ++ r) s1 -> after s1 q r s2 -> after s (p ++ q) r s2.
Proof.
  intros [K1 E1] [K2 E2]. split; [exact K2|]. injection E1 as Er1 Em1 El1 Es1. injection E2 as Er2 Em2 El2 Es2. unfold mark. cbn.
  rewrite Er2, Em2, El2, Es2, Em1, El1, Es1, bump_bump, len_app. f_equal. lia.
Qed.

Lemma after_adv s p r : after s p r (adv s p r).
Proof. split; reflexivity. Qed.
Lemma after_mark s h r k n b e : after s h r (set_kind (mark (adv s h r) k n b e) None).
Proof. split; reflexivity. Qed.

(** The content after a header. *)
Lemma content_ok s h k n b c r : stream_ok s -> reader s = h ++ c ++ r -> len h + len c <= avail s ->
  exists s', readFull (len c) (mark (adv s h (c ++ r)) k n b None) = Ret (s', Ok c) /\ after s (h ++ c) r s'.
Proof.
  intros H E Hl. pose proof (len_nonneg c). destruct (adv_ok s h (c ++ r) H E ltac:(lia)) as [H1 A1]. eexists. split.
  - apply (readFull_ok c r); [apply mark_ok, H1|reflexivity|]. change (avail (mark ?s _ _ _ _)) with (avail s). lia.
  - apply (after_trans s h c r (set_kind (mark (adv s h (c ++ r)) k n b None) None)); [apply after_mark|split; reflexivity].
Qed.

Lemma content_inv s h k n b r m s' c : stream_ok s -> reader s = h ++ r -> len h <= avail s -> 0 <= m ->
  readFull m (mark (adv s h r) k n b None) = Ret (s', Ok c) ->
  exists r', r = c ++ r' /\ len c = m /\ len h + m <= avail s /\ after s (h ++ c) r' s' /\ bytes_ok c.
Proof.
  intros H E Hl Hm Hr. destruct (adv_ok s h r H E Hl) as [H1 A1].
  destruct (readFull_inv m _ s' c (mark_ok _ k n b None H1) Hm Hr) as (r' & Er & El & Ha & ->). cbn in Er. subst r.
  change (avail (mark ?s _ _ _ _)) with (avail s) in Ha. exists r'. split; [reflexivity|]. split; [exact El|]. split; [lia|]. split.
  - apply (after_trans s h c r' (set_kind (mark (adv s h (c ++ r')) k n b None) None)); [apply after_mark|split; reflexivity].
  - pose proof (so_bytes s H) as Hb. rewrite E in Hb. apply bytes_ok_app in Hb. destruct Hb as [_ Hb]. apply bytes_ok_app in Hb. apply Hb.
Qed.

(** ** Decoders *)

(** The method reads the values of [T], each from its encoding [f], and nothing else. *)
Record decodes {A : Type} (m : D A) (T : A -> Prop) (f : A -> list Z) : Prop := {
  d_ok s v r : stream_ok s -> kind s = None -> T v -> reader s = f v ++ r -> len (f v) <= avail s ->
    exists s', m s = Ret (s', Ok v) /\ after s (f v) r s';
  d_inv s s' v : stream_ok s -> kind s = None -> m s = Ret (s', Ok v) ->
    T v /\ exists r, reader s = f v ++ r /\ len (f v) <= avail s /\ after s (f v) r s';
  d_end s : stream_ok s -> kind s = None -> at_end s -> m s = Ret (set_kinderr s None, Err EOL);
  d_fail s : stream_ok s -> kind s = None -> m s <> Panic /\ forall s', m s = Ret (s', Err EOL) -> at_end s;
  d_size v : T v -> len (f v) < 2 ^ 63 -> 1 <= len (f v) }.

(** Every decoder asks for the kind first; some wrap the error. *)
Definition from_kind {A : Type} (g : streamErr -> streamErr) (body : Kind -> Z -> D A) : D A := fun s =>
  match stream_Kind s with
  | Ret (s, Ok (k, n)) => body k n s
  | Ret (s, Err e) => Ret (s, Err (g e))
  | Panic => Panic
  end.
Definition keeps_EOL (g : streamErr -> streamErr) : Prop := forall e, g e = EOL <-> e = EOL.

Lemma wrap_keeps_EOL : keeps_EOL wrapStreamError.
Proof. intros e. destruct e; split; intros H; (discriminate H || reflexivity). Qed.
Lemma id_keeps_EOL : keeps_EOL (fun e => e).
Proof. intros e. reflexivity. Qed.

Lemma from_kind_decodes {A : Type} g (body : Kind -> Z -> D A) (T : A -> Prop) (f : A -> list Z) : keeps_EOL g ->
  (forall v, T v -> len (f v) < 2 ^ 63 -> exists h k n b c, header h k n b /\ f v = h ++ c /\ len c = n /\
     forall s r, stream_ok s -> reader s = h ++ c ++ r -> len h + n <= avail s ->
     exists s', body k n (mark (adv s h (c ++ r)) k n b None) = Ret (s', Ok v) /\ after s (h ++ c) r s') ->
  (forall s h r k n b s' v, stream_ok s -> header h k n b -> reader s = h ++ r -> len h + n <= avail s ->
     body k n (mark (adv s h r) k n b None) = Ret (s', Ok v) ->
     T v /\ exists c r', r = c ++ r' /\ f v = h ++ c /\ len c = n /\ after s (h ++ c) r' s') ->
  (forall s h r k n b, stream_ok s -> header h k n b -> reader s = h ++ r -> len h + n <= avail s ->
     tame_at (body k n) (mark (adv s h r) k n b None)) ->
  decodes (from_kind g body) T f.
Proof.
  intros Hg Hok Hinv Htame. split.
  - intros s v r H Hk Hv E Hl. pose proof (so_len s H). pose proof (avail_bounds s H). destruct (Hok v Hv ltac:(lia)) as (h & k & n & b & c & Hh & Ef & Ec & Hb).
    rewrite Ef, <- app_assoc in E. rewrite Ef, len_app in Hl. rewrite Ef.
    unfold from_kind. rewrite (Kind_ok h k n b (c ++ r) s H Hk Hh E ltac:(lia)). apply Hb; auto; lia.
  - intros s s' v H Hk. unfold from_kind.
    destruct (Kind_cases s H Hk) as [[_ ->]|[(s1 & e & -> & _)|(h & r & k & n & b & Hh & E & Hl & ->)]]; [discriminate..|]. intros Hb.
    destruct (Hinv s h r k n b s' v H Hh E Hl Hb) as (Hv & c & r' & -> & Ef & Ec & Ha). split; [exact Hv|]. exists r'. rewrite Ef in *.
    rewrite <- app_assoc, len_app. split; [exact E|]. split; [lia|exact Ha].
  - intros s H Hk He. unfold from_kind. rewrite (Kind_end s Hk He). do 3 f_equal. apply Hg. reflexivity.
  - intros s H Hk. unfold from_kind.
    destruct (Kind_cases s H Hk) as [[He ->]|[(s1 & e & -> & Ne & _)|(h & r & k & n & b & Hh & E & Hl & ->)]].
    + split; [discriminate|auto].
    + split; [discriminate|]. intros s' [= _ He]. exact (False_ind _ (Ne (proj1 (Hg e) He))).
    + pose proof (Htame s h r k n b H Hh E Hl) as Ht. unfold tame_at in Ht. destruct (body k n _) as [[s' [v|e]]|]; [| |contradiction].
      * split; [discriminate|]. discriminate.
      * split; [discriminate|]. intros s2 [= _ ->]. contradiction.
  - intros v Hv Hl. destruct (Hok v Hv Hl) as (h & k & n & b & c & Hh & -> & _). rewrite len_app. pose proof (header_size h k n b Hh).
    pose proof (len_nonneg c). lia.
Qed.

Lemma decodes_ext {A : Type} (m m' : D A) T f : (forall s, m s = m' s) -> decodes m T f -> decodes m' T f.
Proof.
  intros E [H1 H2 H3 H4 H5]. split; auto.
  - intros s. rewrite <- E. apply H1.
  - intros s s'. rewrite <- E. apply H2.
  - intros s. rewrite <- E. apply H3.
  - intros s. rewrite <- E. apply H4.
Qed.

Lemma decodes_same {A : Type} (m : D A) (T T' : A -> Prop) f f' : (forall v, f v = f' v) -> (forall v, T v <-> T' v) -> decodes m T f -> decodes m T' f'.
Proof.
  intros Ef ET [H1 H2 H3 H4 H5]. split; auto.
  - intros s v r H Hk Hv. rewrite <- Ef. apply H1; auto. apply ET, Hv.
  - intros s s' v H Hk E. rewrite <- Ef, <- ET. apply H2; auto.
  - intros v Hv Hl. rewrite <- Ef in *. apply H5; [apply ET, Hv|exact Hl].
Qed.

Lemma kind_first {A : Type} (body : Kind * Z -> D A) T f :
  decodes (from_kind (fun e => e) (fun k n => body (k, n))) T f -> decodes (dbind stream_Kind body) T f.
Proof.
  apply decodes_ext. intros s. unfold from_kind, dbind. destruct (stream_Kind s) as [[s' [[k n]|e]]|]; reflexivity.
Qed.

Lemma decodes_wrapped {A : Type} (m : D A) T f : decodes m T f -> decodes (wrapped m) T f.
Proof.
  intros [H1 H2 H3 H4 H5]. assert (Hok : forall s s' v, wrapped m s = Ret (s', Ok v) <-> m s = Ret (s', Ok v)).
  { intros s s' v. unfold wrapped, dcatch. destruct (m s) as [[s1 [a|e]]|]; cbn; split; intros [=]; subst; reflexivity. }
  split; auto.
  - intros s v r H Hk Hv E Hl. destruct (H1 s v r H Hk Hv E Hl) as (s' & E' & Ha). exists s'. split; [apply Hok, E'|exact Ha].
  - intros s s' v H Hk E. apply Hok in E. apply H2; assumption.
  - intros s H Hk He. unfold wrapped, dcatch. rewrite H3 by assumption. reflexivity.
  - intros s H Hk. destruct (H4 s H Hk) as [Hp He]. unfold wrapped, dcatch. destruct (m s) as [[s1 [a|e]]|]; [split; discriminate| |contradiction].
    split; [discriminate|]. intros s' [= -> Hw]. apply (proj1 (wrap_keeps_EOL e)) in Hw. subst e. apply (He s' eq_refl).
Qed.

(** A decoder that checks what it has read. *)
Lemma decodes_check {A B : Type} (m : D A) (k : A -> result B streamErr) (back : B -> A) (T : A -> Prop) f : decodes m T f ->
  (forall a b, T a -> k a = Ok b -> a = back b) -> (forall a e, k a = Err e -> e <> EOL) ->
  decodes (dbind m (fun a s => Ret (s, k a))) (fun b => T (back b) /\ k (back b) = Ok b) (fun b => f (back b)).
Proof.
  intros [H1 H2 H3 H4 H5] Hb He. unfold dbind. split.
  - intros s v r H Hk [Hv Ek] E Hl. destruct (H1 s (back v) r H Hk Hv E Hl) as (s' & -> & Ha). exists s'. rewrite Ek. auto.
  - intros s s' v H Hk. destruct (m s) as [[s1 [a|e]]|] eqn:Em; [|discriminate..]. intros [= <- Ek].
    destruct (H2 s s1 a H Hk Em) as (Ha & r & Hr). pose proof (Hb a v Ha Ek) as ->. eauto.
  - intros s H Hk Hend. rewrite (H3 s H Hk Hend). reflexivity.
  - intros s H Hk. destruct (H4 s H Hk) as [Hp Hl]. destruct (m s) as [[s1 [a|e]]|] eqn:Em; [| |contradiction].
    + split; [discriminate|]. intros s' [= _ Ek]. destruct (He a EOL Ek eq_refl).
    + split; [discriminate|]. intros s' [= -> ->]. apply (Hl s' eq_refl).
  - intros v [Hv _]. auto.
Qed.

(** ** The decoders of strings *)

Definition small_string (b : list Z) : bool := (len b =? 1) && (nth 0 b 0 <? 128).

Lemma string_cases b : bytes_ok b ->
  if small_string b then exists x, b = [x] /\ 0 <= x < 0x80 /\ rlp_string b = [x] else rlp_string b = rlp_head 0x80 0xB7 (len b) ++ b.
Proof.
  intros Hb. unfold small_string. destruct b as [|x [|y l]]; [reflexivity| |].
  - change (len [x] =? 1) with true. cbn [andb nth]. inversion Hb as [|? ? Hx _]. unfold is_byte in Hx. cbn [rlp_string].
    destruct (Z.ltb_spec x 128), (Z.leb_spec x 127); try lia; [exists x; split; [reflexivity|split; [lia|reflexivity]]|reflexivity].
  - destruct (Z.eqb_spec (len (x :: y :: l)) 1) as [E|_]; [rewrite !len_cons in E; pose proof (len_nonneg l); lia|reflexivity].
Qed.

(** The content of a string that is no small byte. *)
Lemma string_content b : bytes_ok b -> len b < 2 ^ 63 -> small_string b = false -> exists h, header h KString (len b) 0 /\ rlp_string b = h ++ b.
Proof.
  intros Hb Hl Hs. pose proof (string_cases b Hb) as Hc. rewrite Hs in Hc. eexists. split; [apply h_string|exact Hc].
  pose proof (len_nonneg b). lia.
Qed.

Lemma header_string h n b : header h KString n b -> h = rlp_head 0x80 0xB7 n.
Proof. intros H. inversion H; reflexivity. Qed.

Lemma make_bytes_small n s : n < 2 ^ 63 -> make_bytes n s = Ret (s, Ok tt).
Proof. intros H. unfold make_bytes. rewrite Z.geb_leb. destruct (Z.leb_spec (2 ^ 63) n); [lia|reflexivity]. Qed.
Lemma make_bytes_tame n : n < 2 ^ 63 -> tame (make_bytes n).
Proof. intros H s. unfold tame_at. rewrite make_bytes_small by exact H. exact I. Qed.

Lemma Bytes_decodes : decodes stream_Bytes bytes_ok rlp_string.
Proof.
  apply kind_first, from_kind_decodes; [apply id_keeps_EOL|..].
  - intros b Hb Hl. pose proof (rlp_string_len b) as Hl'. destruct (small_string b) eqn:Es.
    + pose proof (string_cases b Hb) as Hc. rewrite Es in Hc. destruct Hc as (x & -> & Hx & Ex). exists [x], KByte, 0, x, [].
      split; [constructor; exact Hx|]. split; [exact Ex|]. split; [reflexivity|]. intros s r H E Ha. eexists. split; [reflexivity|]. apply after_mark.
    + destruct (string_content b Hb ltac:(lia) Es) as (h & Hh & Eh). exists h, KString, (len b), 0, b. split; [exact Hh|]. split; [exact Eh|]. split; [reflexivity|].
      intros s r H E Ha. destruct (content_ok s h KString (len b) 0 b r H E Ha) as (s' & Er & Haft). exists s'. split; [|exact Haft].
      unfold dbind. rewrite make_bytes_small by lia. rewrite Er.
      unfold small_string in Es. rewrite Es. reflexivity.
  - intros s h r k n b s' v H Hh E Ha. pose proof (header_size h k n b Hh) as [Hn Hh1]. destruct k; [| |discriminate].
    + inversion Hh; subst. intros [= <- <-]. split; [repeat constructor; lia|]. exists [], r. split; [reflexivity|].
      pose proof (string_cases [b] ltac:(repeat constructor; lia)) as Hc. unfold small_string in Hc. change (len [b] =? 1) with true in Hc. cbn [nth andb] in Hc.
      destruct (Z.ltb_spec b 128); [|lia]. destruct Hc as (x & [= <-] & _ & Ex). split; [exact Ex|]. split; [reflexivity|]. apply after_mark.
    + pose proof (so_len s H). pose proof (avail_bounds s H). unfold dbind. rewrite make_bytes_small by lia.
      destruct (readFull n _) as [[s1 [c|e]]|] eqn:Er; [|discriminate..]. destruct (_ && _) eqn:Es; [discriminate|]. intros [= <- <-].
      destruct (content_inv s h KString n b r n s1 c H E ltac:(lia) Hn Er) as (r' & -> & Ec & _ & Haft & Hb). split; [exact Hb|].
      exists c, r'. split; [reflexivity|]. pose proof (string_cases c Hb) as Hc. unfold small_string in Hc. rewrite Ec, Es in Hc.
      rewrite (header_string h n b Hh) in *. rewrite Hc. auto.
  - intros s h r k n b H Hh E Ha. pose proof (so_len s H). pose proof (avail_bounds s H). pose proof (header_size h k n b Hh).
    destruct k; try exact I. apply tame_bind; [apply make_bytes_tame; lia|]. auto with tame.
Qed.

Lemma ByteArray_decodes vlen : 0 <= vlen < 2 ^ 63 -> vlen <> 1 ->
  decodes (decodeByteArray vlen) (fun v => exists b, v = DBytes b /\ bytes_ok b /\ len b = vlen) (fun v => match v with DBytes b => rlp_string b | _ => [] end).
Proof.
  intros Hv N1. apply kind_first.
  assert (Nb : forall s v s', (if vlen =? 0 then derr StringTooLong else if vlen >? 1 then derr StringTooShort
    else dbind (dcatch (stream_uint 64) (fun _ => dret 0)) (fun bv => dret (DBytes [u8 bv]))) s <> Ret (s', Ok v)).
  { intros s v s'. rewrite Z.gtb_ltb. destruct (Z.eqb_spec vlen 0); [discriminate|]. destruct (Z.ltb_spec 1 vlen); [discriminate|lia]. }
  apply from_kind_decodes; [apply id_keeps_EOL|..].
  - intros v (b & -> & Hb & El) _. assert (Es : small_string b = false).
    { unfold small_string. rewrite El. destruct (Z.eqb_spec vlen 1); [contradiction|reflexivity]. }
    destruct (string_content b Hb ltac:(lia) Es) as (h & Hh & Eh). exists h, KString, (len b), 0, b.
    split; [exact Hh|]. split; [exact Eh|]. split; [reflexivity|]. intros s r H E Ha.
    destruct (content_ok s h KString (len b) 0 b r H E Ha) as (s' & Er & Haft). exists s'. split; [|exact Haft].
    rewrite <- El, Z.gtb_ltb, Z.ltb_irrefl. unfold dbind. rewrite Er. unfold small_string in Es. rewrite Es. reflexivity.
  - intros s h r k n b s' v H Hh E Ha. pose proof (header_size h k n b Hh) as [Hn Hh1]. destruct k; [intros Er; destruct (Nb _ _ _ Er)| |discriminate].
    rewrite Z.gtb_ltb. destruct (Z.ltb_spec vlen n); [discriminate|]. destruct (Z.ltb_spec n vlen); [discriminate|]. assert (n = vlen) as -> by lia.
    unfold dbind. destruct (readFull vlen _) as [[s1 [c|e]]|] eqn:Er; [|discriminate..]. destruct (_ && _) eqn:Es; [discriminate|]. intros [= <- <-].
    destruct (content_inv s h KString vlen b r vlen s1 c H E ltac:(lia) Hn Er) as (r' & -> & Ec & _ & Haft & Hb).
    split; [exists c; auto|]. exists c, r'. split; [reflexivity|]. pose proof (string_cases c Hb) as Hc. unfold small_string in Hc. rewrite Ec, Es in Hc.
    rewrite (header_string h vlen b Hh) in *. rewrite Hc. auto.
  - intros s h r k n b H Hh E Ha. destruct k.
    + rewrite Z.gtb_ltb. destruct (Z.eqb_spec vlen 0); [exact I|]. destruct (Z.ltb_spec 1 vlen); [exact I|lia].
    + assert (Ht : tame (if vlen <? n then derr StringTooLong else if vlen >? n then derr StringTooShort
        else dbind (readFull vlen) (fun b => if (n =? 1) && (nth 0 b 0 <? 128) then derr (WrappedError CanonSize) else dret (DBytes b)))) by auto 9 with tame.
      apply Ht.
    + exact I.
Qed.

(** A value with its header, whatever its content. *)
Definition raw_item (p : list Z) : Prop :=
  bytes_ok p /\ exists h k n b c, header h k n b /\ p = h ++ c /\ len c = n.

(** [Raw] rebuilds the header it has read. *)
Lemma raw_header s h k n b : k <> KByte -> stream_ok s -> header h k n b -> len h + n <= avail s ->
  u64 (headsize n + n) < 2 ^ 63 /\ match k with KString => puthead 0x80 0xB7 n | _ => puthead 0xC0 0xF7 n end = h.
Proof.
  intros Nk H Hh Ha. pose proof (so_len s H). pose proof (avail_bounds s H). pose proof (header_size h k n b Hh).
  destruct Hh as [|n Hn|n Hn]; [contradiction|..]; rewrite rlp_head_len in * by lia; rewrite u64_small by lia; (split; [lia|]);
    apply puthead_head; lia.
Qed.

Lemma Raw_decodes : decodes stream_Raw raw_item (fun p => p).
Proof.
  apply (decodes_ext (from_kind (fun e => e) (fun k size =>
    if match k with KByte => true | _ => false end then dbind rearm (fun _ => dbind (dget byteval) (fun b => dret [b]))
    else dbind (make_bytes (u64 (headsize size + size))) (fun _ => dbind (readFull size) (fun b =>
             dret ((match k with KString => puthead 0x80 0xB7 size | _ => puthead 0xC0 0xF7 size end) ++ b)))))).
  { intros s. unfold from_kind, stream_Raw, dbind. destruct (stream_Kind s) as [[s' [[[] n]|e]]|]; reflexivity. }
  assert (Kb : forall k, k = KByte \/ k <> KByte /\ match k with KByte => true | _ => false end = false) by (intros []; auto; right; (split; [discriminate|reflexivity])).
  apply from_kind_decodes; [apply id_keeps_EOL|..].
  - intros v (_ & h & k & n & b & c & Hh & -> & <-) _. exists h, k, (len c), b, c. split; [exact Hh|]. split; [reflexivity|]. split; [reflexivity|].
    intros s r H E Ha. destruct (Kb k) as [->|[Nk ->]].
    + inversion Hh as [x Hx E1 E2 E3 E4| |]; subst. destruct c as [|y c]; [|rewrite len_cons in *; pose proof (len_nonneg c); lia].
      eexists. split; [reflexivity|]. apply after_mark.
    + destruct (raw_header s h k (len c) b Nk H Hh Ha) as [Hu Ep]. destruct (content_ok s h k (len c) b c r H E Ha) as (s' & Er & Haft).
      exists s'. split; [|exact Haft]. unfold dbind. rewrite make_bytes_small by exact Hu. rewrite Er, Ep. reflexivity.
  - intros s h r k n b s' v H Hh E Ha. pose proof (header_size h k n b Hh) as [Hn Hh1]. pose proof (so_len s H) as Hlen. pose proof (avail_bounds s H) as Hav.
    pose proof (so_bytes s H) as Hby. rewrite E in Hby. apply bytes_ok_app in Hby. destruct (Kb k) as [->|[Nk ->]].
    + inversion Hh as [x Hx E1 E2 E3 E4| |]; subst. intros [= <- <-]. split; [|exists [], r; split; [reflexivity|]; split; [reflexivity|]; split; [reflexivity|apply after_mark]].
      split; [apply Hby|]. exists [b], KByte, 0, b, []. auto.
    + destruct (raw_header s h k n b Nk H Hh Ha) as [Hu ->]. unfold dbind. rewrite make_bytes_small by exact Hu.
      destruct (readFull n _) as [[s1 [c|e]]|] eqn:Er; [|discriminate..]. intros [= <- <-].
      destruct (content_inv s h k n b r n s1 c H E ltac:(lia) Hn Er) as (r' & -> & Ec & _ & Haft & Hc).
      split; [|exists c, r'; auto]. split; [apply bytes_ok_app; split; [apply Hby|exact Hc]|]. exists h, k, n, b, c. auto.
  - intros s h r k n b H Hh E Ha. destruct (Kb k) as [->|[Nk ->]]; [exact I|]. destruct (raw_header s h k n b Nk H Hh Ha) as [Hu _].
    apply tame_bind; [apply make_bytes_tame, Hu|]. auto with tame.
Qed.

(** ** The decoders of integers *)

Lemma byte_len_le n m : 0 <= n < 2 ^ (8 * m) -> 0 <= m -> byte_len n <= m.
Proof.
  intros H Hm. destruct (Z.eq_dec n 0) as [->|N]; [cbn; exact Hm|]. pose proof (byte_len_lower n N) as Hb. rewrite Z.abs_eq in Hb by lia.
  rewrite Z.pow_mul_r in H by lia. change (2 ^ 8) with 256 in H. destruct (Z.le_gt_cases (byte_len n) m) as [L|L]; [exact L|].
  pose proof (Z.pow_le_mono_r 256 m (byte_len n - 1) ltac:(lia) ltac:(lia)). lia.
Qed.

Lemma Bytes_small_byte n : 0 < n < 256 -> Bytes n = [n].
Proof.
  intros H. pose proof (Bytes_SetBytes n []) as P. unfold SetBytes in P. cbn in P. apply P; [repeat constructor; lia|lia].
Qed.

(** An integer is a small byte, or a string that is none. *)
Lemma uint_small n : 0 <= n -> small_string (Bytes n) = (0 <? n) && (n <? 128).
Proof.
  intros Hn. unfold small_string. rewrite Bytes_len. destruct (Z.ltb_spec 0 n) as [H0|]; [|assert (n = 0) as -> by lia; reflexivity].
  destruct (Z.ltb_spec n 256) as [L|L].
  - rewrite <- Bytes_len, Bytes_small_byte by lia. reflexivity.
  - pose proof (byte_len_bound n) as Hb. rewrite Z.abs_eq in Hb by lia. destruct (Z.eqb_spec (byte_len n) 1) as [E|_]; [rewrite E in Hb; lia|].
    destruct (Z.ltb_spec n 128); [lia|reflexivity].
Qed.

(** What [uint] does for each kind. *)
Definition uint_body (m : Z) (k : Kind) (size : Z) : D Z :=
  match k with
  | KByte => dbind (dget byteval) (fun b => if b =? 0 then derr CanonInt else dbind rearm (fun _ => dret b))
  | KString => if size >? m then derr UintOverflow
               else dbind (dcatch (readUint size) (fun e => derr match e with CanonSize => CanonInt | _ => e end))
                      (fun v => if (size >? 0) && (v <? 128) then derr CanonSize else dret v)
  | KList => derr ExpectedString
  end.

Lemma uint_body_ok m v : 1 <= m <= 8 -> 0 <= v < 2 ^ (8 * m) -> exists h k n b c, header h k n b /\ rlp_string (Bytes v) = h ++ c /\ len c = n /\
  forall s r, stream_ok s -> reader s = h ++ c ++ r -> len h + n <= avail s ->
  exists s', uint_body m k n (mark (adv s h (c ++ r)) k n b None) = Ret (s', Ok v) /\ after s (h ++ c) r s'.
Proof.
  intros Hm Hv. pose proof (byte_len_le v m Hv ltac:(lia)) as Hl. pose proof (uint_small v ltac:(lia)) as Es. destruct (small_string (Bytes v)) eqn:Esv.
  - pose proof (string_cases (Bytes v) (Bytes_ok v)) as Hc. rewrite Esv in Hc. destruct Hc as (x & Ex & Hx & Er).
    symmetry in Es. apply andb_prop in Es. destruct Es as [E0 E1]. apply Z.ltb_lt in E0, E1. rewrite Bytes_small_byte in Ex by lia. injection Ex as <-.
    exists [v], KByte, 0, v, []. split; [constructor; exact Hx|]. split; [exact Er|]. split; [reflexivity|]. intros s r H E Ha.
    eexists. split; [|apply after_mark]. unfold uint_body, dbind, dget. cbn [byteval mark]. destruct (Z.eqb_spec v 0); [lia|]. reflexivity.
  - destruct (string_content (Bytes v) (Bytes_ok v) ltac:(rewrite Bytes_len; lia) Esv) as (h & Hh & Eh).
    exists h, KString, (len (Bytes v)), 0, (Bytes v). split; [exact Hh|]. split; [exact Eh|]. split; [reflexivity|]. intros s r H E Ha.
    pose proof (header_size _ _ _ _ Hh) as Hhs. rewrite Bytes_len in *. unfold uint_body. rewrite Z.gtb_ltb. destruct (Z.ltb_spec m (byte_len v)); [lia|].
    destruct (Z.eq_dec v 0) as [->|Nv]; [eexists; split; [reflexivity|]; rewrite app_nil_r; apply after_mark|].
    destruct (adv_ok s h (Bytes v ++ r) H E ltac:(lia)) as [Hs1 A1].
    assert (128 <= v) by (destruct (Z.ltb_spec 0 v), (Z.ltb_spec v 128); try discriminate; lia).
    assert (v < 2 ^ 64) by (eapply Z.lt_le_trans; [apply Hv|apply Z.pow_le_mono_r; lia]).
    exists (adv (mark (adv s h (Bytes v ++ r)) KString (byte_len v) 0 None) (Bytes v) r).
    split; [|apply (after_trans s h (Bytes v) r (set_kind (mark (adv s h (Bytes v ++ r)) KString (byte_len v) 0 None) None)); [apply after_mark|split; reflexivity]].
    unfold dbind, dcatch. rewrite (readUint_Bytes v r) by (try lia; try apply mark_ok, Hs1; try reflexivity; change (avail (mark ?s _ _ _ _)) with (avail s); lia).
    destruct (Z.ltb_spec v 128); [lia|]. rewrite andb_false_r. reflexivity.
Qed.

Lemma uint_body_inv m s h r k n b s' v : 1 <= m <= 8 -> stream_ok s -> header h k n b -> reader s = h ++ r -> len h + n <= avail s ->
  uint_body m k n (mark (adv s h r) k n b None) = Ret (s', Ok v) ->
  0 <= v < 2 ^ (8 * m) /\ exists c r', r = c ++ r' /\ rlp_string (Bytes v) = h ++ c /\ len c = n /\ after s (h ++ c) r' s'.
Proof.
  intros Hm H Hh E Ha. pose proof (header_size h k n b Hh) as [Hn Hh1]. destruct k; [| |discriminate].
  - inversion Hh as [x Hx E1 E2 E3 E4| |]; subst. unfold uint_body, dbind, dget. cbn [byteval mark]. destruct (Z.eqb_spec b 0); [discriminate|]. intros [= <- <-].
    split; [split; [lia|apply Z.lt_le_trans with (2 ^ 8); [lia|apply Z.pow_le_mono_r; lia]]|].
    exists [], r. rewrite Bytes_small_byte by lia. cbn [rlp_string]. destruct (Z.leb_spec b 127); [|lia]. split; [reflexivity|]. split; [reflexivity|]. split; [reflexivity|apply after_mark].
  - unfold uint_body. rewrite Z.gtb_ltb. destruct (Z.ltb_spec m n); [discriminate|]. destruct (Z.eq_dec n 0) as [->|Nn].
    + intros [= <- <-]. split; [split; [lia|apply Z.pow_pos_nonneg; lia]|]. exists [], r. rewrite (header_string h 0 b Hh).
      split; [reflexivity|]. split; [reflexivity|]. split; [reflexivity|apply after_mark].
    + unfold dbind, dcatch. destruct (readUint n _) as [[s1 [x|e]]|] eqn:Er; [|discriminate..]. rewrite Z.gtb_ltb. destruct (Z.ltb_spec 0 n); [|lia].
      destruct (Z.ltb_spec x 128); [discriminate|]. intros [= <- <-]. destruct (adv_ok s h r H E ltac:(lia)) as [Hs1 A1].
      destruct (readUint_inv n _ s1 x (mark_ok _ KString n b None Hs1) ltac:(lia) Er ltac:(lia)) as (Hx & r' & Er' & El & Hl & ->). cbn in Er'. subst r.
      split; [split; [lia|eapply Z.lt_le_trans; [apply Hx|apply Z.pow_le_mono_r; lia]]|]. exists (Bytes x), r'. split; [reflexivity|].
      pose proof (string_cases (Bytes x) (Bytes_ok x)) as Hc. rewrite uint_small in Hc by lia. destruct (Z.ltb_spec x 128); [lia|]. rewrite andb_false_r in Hc.
      rewrite (header_string h n b Hh) in *. rewrite Bytes_len, El in *. split; [exact Hc|]. split; [reflexivity|].
      apply (after_trans s _ (Bytes x) r' (set_kind (mark (adv s (rlp_head 0x80 0xB7 n) (Bytes x ++ r')) KString n b None) None)); [apply after_mark|split; reflexivity].
Qed.

Lemma uint_body_tame m k n : tame (uint_body m k n).
Proof.
  destruct k; cbn [uint_body]; auto with tame; [unfold rearm; auto 9 with tame|]. destruct (_ >? _); auto with tame. apply tame_bind; auto with tame.
  apply tame_catch; auto with tame. intros e Ne. apply tame_err. destruct e; congruence.
Qed.

Lemma uint_decodes m : 1 <= m <= 8 -> decodes (stream_uint (8 * m)) (fun n => 0 <= n < 2 ^ (8 * m)) (fun n => rlp_string (Bytes n)).
Proof.
  intros Hm. assert (Ed : 8 * m / 8 = m) by (rewrite Z.mul_comm; apply Z.div_mul; lia).
  apply (decodes_ext (from_kind (fun e => e) (uint_body m))).
  { intros s. unfold from_kind, stream_uint, uint_body, dbind. rewrite Ed. destruct (stream_Kind s) as [[s' [[[] n]|e]]|]; reflexivity. }
  apply from_kind_decodes; [apply id_keeps_EOL| | |].
  - intros v Hv _. apply uint_body_ok; assumption.
  - intros s h r k n b s' v. apply uint_body_inv, Hm.
  - intros s h r k n b _ _ _ _. apply uint_body_tame.
Qed.

Definition bool_check (num : Z) : result bool streamErr := if num =? 0 then Ok false else if num =? 1 then Ok true else Err (InvalidBool num).

Lemma Bool_decodes : decodes stream_Bool (fun _ => True) (fun b => if b then [1] else [0x80]).
Proof.
  apply (decodes_ext (dbind (stream_uint 8) (fun num s => Ret (s, bool_check num)))).
  { intros s. unfold stream_Bool, dbind, bool_check. destruct (stream_uint 8 s) as [[s' [n|e]]|]; [|reflexivity..]. destruct (n =? 0); [reflexivity|]. destruct (n =? 1); reflexivity. }
  refine (decodes_same _ _ _ _ _ _ _ (decodes_check (stream_uint 8) bool_check (fun b : bool => if b then 1 else 0) _ _ (uint_decodes 1 ltac:(lia)) _ _)).
  - intros []; reflexivity.
  - intros []; cbn; intuition (reflexivity || lia).
  - intros a b _. unfold bool_check. destruct (Z.eqb_spec a 0); [intros [= <-]; assumption|]. destruct (Z.eqb_spec a 1); [intros [= <-]; assumption|discriminate].
  - intros a e. unfold bool_check. destruct (a =? 0); [discriminate|]. destruct (a =? 1); [discriminate|intros [= <-]; discriminate].
Qed.

(** ** Values and their types *)

Fixpoint enc (v : dval) : val :=
  match v with
  | DRaw b => VRaw b
  | DUint n => VUint n
  | DBool b => VBool b
  | DBytes b => VBytes b
  | DBigInt n => VBigInt (Some n)
  | DList vs => VList (map enc vs)
  | DNil => VNil
  end.
Definition encoding (v : dval) : list Z := rlp (enc v).

(** The values of a type. *)
Fixpoint typed (t : typ) (v : dval) : Prop :=
  match t with
  | TRaw => exists b, v = DRaw b /\ raw_item b
  | TUint bits => exists n, v = DUint n /\ 0 <= n < 2 ^ bits
  | TBool => exists b, v = DBool b
  | TBytes => exists b, v = DBytes b /\ bytes_ok b
  | TArray n => exists b, v = DBytes b /\ bytes_ok b /\ len b = n
  | TBigInt => exists n, v = DBigInt n /\ 0 <= n
  | TSlice t => exists vs, v = DList vs /\ Forall (typed t) vs
  | TStruct ts => exists vs, v = DList vs /\
      (fix fields (ts : list typ) (vs : list dval) : Prop :=
         match ts, vs with
         | [], [] => True
         | t :: ts, v :: vs => typed t v /\ fields ts vs
         | _, _ => False
         end) ts vs
  | TPtr t => typed t v
  | TOptional t => v = DNil \/ typed t v
  end.

(** The types whose values have one encoding: there is no optional pointer, and no
    array of one byte; the integers are those of Go. *)
Fixpoint plain (t : typ) : bool :=
  match t with
  | TUint bits => existsb (Z.eqb bits) [8; 16; 32; 64]
  | TArray n => (0 <=? n) && negb (n =? 1) && (n <? 2 ^ 63)
  | TSlice t => plain t
  | TStruct ts => forallb plain ts
  | TPtr t => plain t
  | TOptional _ => false
  | _ => true
  end.

Lemma typ_fields_ind (P : typ -> Prop) : (forall t, match t with TSlice _ | TStruct _ | TPtr _ | TOptional _ => True | _ => P t end) ->
  (forall t, P t -> P (TSlice t)) -> (forall ts, Forall P ts -> P (TStruct ts)) -> (forall t, P t -> P (TPtr t)) -> (forall t, P t -> P (TOptional t)) ->
  forall t, P t.
Proof.
  intros H0 H1 H2 H3 H4. fix IH 1. intros t. destruct t; try exact (H0 _).
  all: try (apply (H0 TRaw) || apply (H0 (TUint bits)) || apply (H0 TBool) || apply (H0 TBytes) || apply (H0 (TArray n)) || apply (H0 TBigInt)).
  - apply H1, IH.
  - apply H2. induction fields; constructor; auto.
  - apply H3, IH.
  - apply H4, IH.
Qed.

(** ** The scalar types *)

Lemma scalar_decodes {A : Type} (m : D A) (T : A -> Prop) f (g : A -> dval) : decodes m T f -> (forall a, f a = encoding (g a)) ->
  decodes (dbind m (fun a => dret (g a))) (fun v => exists a, v = g a /\ T a) encoding.
Proof.
  intros [H1 H2 H3 H4 H5] Hf. unfold dbind, dret. split.
  - intros s v r H Hk (a & -> & Ha) E Hl. rewrite <- Hf in *. destruct (H1 s a r H Hk Ha E Hl) as (s' & -> & Haft). eauto.
  - intros s s' v H Hk. destruct (m s) as [[s1 [a|e]]|] eqn:Em; [|discriminate..]. intros [= <- <-]. rewrite <- Hf.
    destruct (H2 s s1 a H Hk Em) as (Ha & r & Hr). eauto.
  - intros s H Hk Hend. rewrite (H3 s H Hk Hend). reflexivity.
  - intros s H Hk. destruct (H4 s H Hk) as [Hp Hl]. destruct (m s) as [[s1 [a|e]]|] eqn:Em; [split; discriminate| |contradiction].
    split; [discriminate|]. intros s' [= -> ->]. apply (Hl s' eq_refl).
  - intros v (a & -> & Ha). rewrite <- Hf. auto.
Qed.

Definition bigint_check (b : list Z) : result dval streamErr :=
  if match b with x :: _ => x =? 0 | [] => false end then Err (WrappedError CanonInt) else Ok (DBigInt (SetBytes b)).
Definition bigint_bytes (v : dval) : list Z := match v with DBigInt n => Bytes n | _ => [] end.

Lemma bigint_check_Bytes n : 0 <= n -> bigint_check (Bytes n) = Ok (DBigInt n).
Proof.
  intros Hn. unfold bigint_check. pose proof (SetBytes_Bytes n) as E. rewrite Z.abs_eq in E by lia.
  destruct (Z.eq_dec n 0) as [->|N]; [reflexivity|]. destruct (Bytes_head n ltac:(lia)) as (x & l & Ex & Hx). rewrite Ex in *.
  destruct (Z.eqb_spec x 0); [contradiction|]. rewrite E. reflexivity.
Qed.

Lemma BigInt_decodes : decodes decodeBigInt (typed TBigInt) encoding.
Proof.
  apply (decodes_ext (dbind (wrapped stream_Bytes) (fun b s => Ret (s, bigint_check b)))).
  { intros s. unfold decodeBigInt, dbind, bigint_check. destruct (wrapped stream_Bytes s) as [[s' [b|e]]|]; [|reflexivity..].
    destruct b as [|x b]; [reflexivity|]. destruct (x =? 0); reflexivity. }
  assert (Hb : forall b v, bytes_ok b -> bigint_check b = Ok v -> b = bigint_bytes v /\ typed TBigInt v).
  { intros b v Hb. unfold bigint_check. destruct b as [|x b]; [intros [= <-]; split; [reflexivity|exists 0; split; [reflexivity|lia]]|].
    destruct (Z.eqb_spec x 0); [discriminate|]. intros [= <-]. split; [symmetry; apply Bytes_SetBytes; assumption|].
    eexists. split; [reflexivity|]. apply SetBytes_range, Hb. }
  assert (Ht : forall v, typed TBigInt v -> bytes_ok (bigint_bytes v) /\ bigint_check (bigint_bytes v) = Ok v).
  { intros v (n & -> & Hn). split; [apply Bytes_ok|apply bigint_check_Bytes, Hn]. }
  destruct (decodes_check _ bigint_check bigint_bytes _ _ (decodes_wrapped _ _ _ Bytes_decodes)) as [H1 H2 H3 H4 H5].
  { intros b v H E. apply Hb; assumption. }
  { intros b e. unfold bigint_check. destruct b as [|x b]; [discriminate|]. destruct (x =? 0); [intros [= <-]|]; discriminate. }
  assert (Ef : forall v, typed TBigInt v -> rlp_string (bigint_bytes v) = encoding v) by (intros v (n & -> & Hn); reflexivity).
  split; auto.
  - intros s v r H Hk Hv E Hl. rewrite <- Ef in * by exact Hv. apply H1; auto.
  - intros s s' v H Hk E. destruct (H2 s s' v H Hk E) as ([B C] & R). destruct (Hb _ v B C) as [_ Hv]. rewrite <- Ef by exact Hv. auto.
  - intros v Hv. rewrite <- Ef by exact Hv. auto.
Qed.

Lemma scalars_decode t : plain t = true -> match t with TSlice _ | TStruct _ | TPtr _ | TOptional _ => True | _ => decodes (decode t) (typed t) encoding end.
Proof.
  intros Hp. destruct t; try exact I.
  - refine (scalar_decodes stream_Raw _ _ DRaw Raw_decodes _). reflexivity.
  - assert (exists m, 1 <= m <= 8 /\ bits = 8 * m) as (m & Hm & ->).
    { cbn [plain] in Hp. apply existsb_exists in Hp. destruct Hp as (x & Hx & E). apply Z.eqb_eq in E. subst x.
      destruct Hx as [<-|[<-|[<-|[<-|[]]]]]; [exists 1|exists 2|exists 4|exists 8]; lia. }
    refine (scalar_decodes (wrapped (stream_uint (8 * m))) _ _ DUint (decodes_wrapped _ _ _ (uint_decodes m Hm)) _). reflexivity.
  - refine (decodes_same _ _ _ _ _ _ _ (scalar_decodes (wrapped stream_Bool) _ _ DBool (decodes_wrapped _ _ _ Bool_decodes) _)); [reflexivity| |intros []; reflexivity].
    intros v. cbn. split; intros (b & H); exists b; [apply H|auto].
  - refine (scalar_decodes (wrapped stream_Bytes) _ _ DBytes (decodes_wrapped _ _ _ Bytes_decodes) _). reflexivity.
  - cbn [plain] in Hp. apply andb_prop in Hp. destruct Hp as [Hp H3]. apply andb_prop in Hp. destruct Hp as [H1 H2].
    apply Z.leb_le in H1. apply Z.ltb_lt in H3. destruct (Z.eqb_spec n 1) as [|N]; [discriminate|].
    destruct (ByteArray_decodes n ltac:(lia) N) as [K1 K2 K3 K4 K5]. split; auto.
    + intros s v r H Hk (b & -> & Hb). exact (K1 s (DBytes b) r H Hk (ex_intro _ b (conj eq_refl Hb))).
    + intros s s' v H Hk E. destruct (K2 s s' v H Hk E) as ((b & -> & Hb) & R). split; [exists b; auto|exact R].
    + intros v (b & -> & Hb). apply (K5 (DBytes b)). exists b. auto.
  - apply BigInt_decodes.
Qed.

(** ** Lists *)

(** The stream in the list whose header it has read. *)
Definition enter (s : Stream) (h r : list Z) (n b : Z) : Stream :=
  mkStream r (remaining s - len h) (limited s) None 0 b None (mkPos 0 n :: bump (len h) (stack s)).

Lemma enter_ok s h r n b : stream_ok s -> reader s = h ++ r -> 0 <= n -> len h + n <= avail s ->
  stream_ok (enter s h r n b) /\ avail (enter s h r n b) = n.
Proof.
  intros H E Hn Ha. pose proof (avail_bounds s H) as Hb. destruct (adv_ok s h r H E ltac:(lia)) as [[H1 H2 H3 H4 H5] A]. pose proof (so_stack s H) as Hst.
  pose proof (so_len s H) as Hl. unfold avail in *. cbn in *. split; [|lia]. rewrite E, len_app in *.
  split; cbn; auto. split; [lia|]. split; [lia|]. split; [destruct (stack s) as [|p st]; cbn in *; lia|].
  destruct (stack s) as [|p st]; [exact I|]. cbn [bump stack_ok lp_pos lp_size] in *.
  replace (len r - (n - 0) - (lp_size p - (lp_pos p + len h + n))) with (len r - (lp_size p - (lp_pos p + len h + 0))) by lia.
  destruct H5 as (K1 & K2 & K3 & K4). split; [lia|]. split; [lia|]. split; [lia|exact K4].
Qed.

Lemma in_list s p r s' : after s p r s' -> stack s <> [] -> stack s' <> [].
Proof. intros [_ E] H. injection E as _ _ _ Es. rewrite Es. destruct (stack s); [contradiction|discriminate]. Qed.

Lemma at_end_iff s : stack s <> [] -> avail s = 0 -> at_end s.
Proof. unfold avail, at_end. destruct (stack s); [contradiction|lia]. Qed.

(** Leaving the list, when all of it has been read. *)
Lemma leave s h c r n b s2 : stream_ok s -> reader s = h ++ c ++ r -> 0 <= n -> len h + n <= avail s -> after (enter s h (c ++ r) n b) c r s2 ->
  if len c =? n then exists s3, stream_ListEnd s2 = Ret (s3, Ok tt) /\ after s (h ++ c) r s3 else stream_ListEnd s2 = Ret (s2, Err NotAtEOL).
Proof.
  intros H E Hn Ha [K2 E2]. pose proof (so_stack s H) as Hst. pose proof (so_len s H) as Hl. injection E2 as Er Erem Elim Est.
  unfold stream_ListEnd. rewrite Est. cbn. destruct (Z.eqb_spec (len c) n) as [<-|N]; [|reflexivity].
  eexists. split; [reflexivity|]. split; [reflexivity|]. unfold mark, adv. cbn. rewrite Er, Erem, Elim, len_app. f_equal; [lia|].
  unfold avail in Ha. destruct (stack s) as [|p st]; [reflexivity|]. cbn [bump stack_ok lp_pos lp_size] in *. pose proof (len_nonneg h).
  rewrite u64_small by lia. do 2 f_equal. lia.
Qed.

Lemma after_nil s r e : kind s = None -> reader s = r -> after s [] r (set_kinderr s e).
Proof.
  intros Hk <-. split; [exact Hk|]. unfold mark, adv. cbn. rewrite Z.sub_0_r. f_equal. destruct (stack s) as [|[p n] st]; [reflexivity|]. cbn. rewrite Z.add_0_r. reflexivity.
Qed.

Definition encodings (vs : list dval) : list Z := flat_map encoding vs.

(** A method that reads the elements of a list. *)
Record reads_items (items : Z -> D (list dval)) (T : list dval -> Prop) : Prop := {
  i_ok s vs r : stream_ok s -> kind s = None -> stack s <> [] -> T vs -> reader s = encodings vs ++ r -> len (encodings vs) = avail s ->
    exists s', items (avail s) s = Ret (s', Ok vs) /\ after s (encodings vs) r s';
  i_inv s n s' vs : stream_ok s -> kind s = None -> n = avail s -> items n s = Ret (s', Ok vs) ->
    T vs /\ exists r, reader s = encodings vs ++ r /\ len (encodings vs) <= avail s /\ after s (encodings vs) r s';
  i_tame s n : stream_ok s -> kind s = None -> tame_at (items n) s }.

(** What the decoders of lists do with the kind. *)
Definition list_body (items : Z -> D (list dval)) (fin : D unit) (k : Kind) (n : Z) : D dval :=
  match k with
  | KList => dbind (dmodify (fun s => set_vsize (set_kind (set_stack s (mkPos 0 n :: stack s)) None) 0)) (fun _ =>
             dbind (items n) (fun vs => dbind fin (fun _ => dret (DList vs))))
  | _ => derr (WrappedError ExpectedList)
  end.

(** [ListEnd], perhaps with its error wrapped. *)
Definition is_ListEnd (fin : D unit) : Prop :=
  forall s, match stream_ListEnd s with Ret (s', Ok u) => fin s = Ret (s', Ok u) | Ret (s', Err e) => exists e', fin s = Ret (s', Err e') /\ e' <> EOL | Panic => False end.

Lemma ListEnd_is : is_ListEnd stream_ListEnd.
Proof.
  intros s. unfold stream_ListEnd. destruct (stack s) as [|p st]; [eexists; split; [reflexivity|discriminate]|].
  destruct (negb _); [eexists; split; [reflexivity|discriminate]|reflexivity].
Qed.
Lemma wrapped_ListEnd_is : is_ListEnd (wrapped stream_ListEnd).
Proof.
  intros s. unfold wrapped, dcatch, stream_ListEnd. destruct (stack s) as [|p st]; [eexists; split; [reflexivity|discriminate]|].
  destruct (negb _); [eexists; split; [reflexivity|discriminate]|reflexivity].
Qed.

Lemma encoding_list vs : encoding (DList vs) = rlp_head 0xC0 0xF7 (len (encodings vs)) ++ encodings vs.
Proof.
  unfold encoding, encodings. cbn [enc rlp]. unfold rlp_list. rewrite flat_map_concat_map, map_map, <- flat_map_concat_map. reflexivity.
Qed.

Lemma list_decodes items fin T : reads_items items T -> is_ListEnd fin ->
  decodes (from_kind wrapStreamError (list_body items fin)) (fun v => exists vs, v = DList vs /\ T vs) encoding.
Proof.
  intros [I1 I2 I3] Hf. apply from_kind_decodes; [apply wrap_keeps_EOL|..].
  - intros v (vs & -> & Hv) Hl. rewrite encoding_list in *. rewrite len_app in Hl.
    exists (rlp_head 0xC0 0xF7 (len (encodings vs))), KList, (len (encodings vs)), 0, (encodings vs). pose proof (len_nonneg (encodings vs)).
    pose proof (len_nonneg (rlp_head 0xC0 0xF7 (len (encodings vs)))). split; [constructor; lia|]. split; [reflexivity|]. split; [reflexivity|].
    set (h := rlp_head _ _ _) in *. intros s r H1 E Ha. destruct (enter_ok s h (encodings vs ++ r) (len (encodings vs)) 0 H1 E ltac:(lia) Ha) as [He Ae].
    destruct (I1 _ vs r He eq_refl ltac:(discriminate) Hv eq_refl ltac:(lia)) as (s2 & E2 & Ha2). rewrite Ae in E2.
    pose proof (leave s h (encodings vs) r (len (encodings vs)) 0 s2 H1 E ltac:(lia) Ha Ha2) as L. rewrite Z.eqb_refl in L. destruct L as (s3 & E3 & Ha3).
    exists s3. split; [|exact Ha3]. unfold list_body, dbind, dmodify. change (set_vsize _ 0) with (enter s h (encodings vs ++ r) (len (encodings vs)) 0).
    rewrite E2. specialize (Hf s2). rewrite E3 in Hf. rewrite Hf. reflexivity.
  - intros s h r k n b s' v H Hh E Ha. pose proof (header_size h k n b Hh) as [Hn Hh1]. destruct k; [discriminate..|]. inversion Hh; subst.
    unfold list_body, dbind, dmodify. set (h := rlp_head _ _ n) in *. change (set_vsize _ 0) with (enter s h r n 0).
    destruct (enter_ok s h r n 0 H E Hn Ha) as [He Ae]. destruct (items n _) as [[s2 [vs|e]]|] eqn:E2; [|discriminate..].
    destruct (I2 _ n s2 vs He eq_refl (eq_sym Ae) E2) as (Hv & r' & Er & Hl & Ha2). cbn in Er. subst r.
    pose proof (leave s h (encodings vs) r' n 0 s2 H E Hn Ha Ha2) as L. specialize (Hf s2). destruct (Z.eqb_spec (len (encodings vs)) n) as [El|].
    + destruct L as (s3 & E3 & Ha3). rewrite E3 in Hf. rewrite Hf. intros [= <- <-]. split; [exists vs; auto|]. exists (encodings vs), r'.
      rewrite encoding_list, El. auto.
    + rewrite L in Hf. destruct Hf as (e' & -> & _). discriminate.
  - intros s h r k n b H Hh E Ha. pose proof (header_size h k n b Hh) as [Hn Hh1]. destruct k; [exact I..|].
    destruct (enter_ok s h r n b H E Hn Ha) as [He Ae]. pose proof (I3 (enter s h r n b) n He eq_refl) as Ht.
    unfold tame_at, list_body, dbind, dmodify in *. change (set_vsize _ 0) with (enter s h r n b).
    destruct (items n _) as [[s2 [vs|e]]|]; [|exact Ht..]. specialize (Hf s2). destruct (stream_ListEnd s2) as [[s3 [u|e]]|]; [rewrite Hf; exact I| |contradiction].
    destruct Hf as (e' & -> & Ne). destruct e'; auto.
Qed.

(** ** Slices *)

Lemma encodings_size m T vs : decodes m T encoding -> Forall T vs -> len (encodings vs) < 2 ^ 63 -> Z.of_nat (length vs) <= len (encodings vs).
Proof.
  intros Hd Hv. induction Hv as [|v vs Hv Hvs IH]; intros Hl; [cbn; lia|]. cbn [encodings flat_map length] in *. fold (encodings vs) in *.
  rewrite len_app in *. pose proof (len_nonneg (encoding v)). pose proof (len_nonneg (encodings vs)). pose proof (d_size _ _ _ Hd v Hv ltac:(lia)). lia.
Qed.

Section Slices.
Context (elem : D dval) (T : dval -> Prop).
Hypothesis Hd : decodes elem T encoding.

Lemma slice_elems_ok vs : Forall T vs -> forall fuel acc s r, stream_ok s -> kind s = None -> stack s <> [] -> reader s = encodings vs ++ r ->
  len (encodings vs) = avail s -> (length vs < fuel)%nat -> exists s', slice_elems fuel elem acc s = Ret (s', Ok (acc ++ vs)) /\ after s (encodings vs) r s'.
Proof.
  induction 1 as [|v vs Hv Hvs IH]; intros [|fuel] acc s r H Hk Hst E Hl Hf; [lia| |cbn in Hf; lia|].
  - cbn [slice_elems]. rewrite (d_end _ _ _ Hd s H Hk (at_end_iff s Hst (eq_sym Hl))). rewrite app_nil_r. eexists. split; [reflexivity|]. apply after_nil; assumption.
  - cbn [encodings flat_map length] in *. fold (encodings vs) in *. rewrite <- app_assoc in E. rewrite len_app in Hl. pose proof (len_nonneg (encodings vs)).
    cbn [slice_elems]. destruct (d_ok _ _ _ Hd s v (encodings vs ++ r) H Hk Hv E ltac:(lia)) as (s1 & -> & Ha).
    destruct (after_ok s (encoding v) (encodings vs ++ r) s1 H E ltac:(lia) Ha) as (H1 & A1 & K1 & R1).
    destruct (IH fuel (acc ++ [v]) s1 r H1 K1 (in_list _ _ _ _ Ha Hst) R1 ltac:(lia) ltac:(lia)) as (s2 & -> & Ha2).
    exists s2. rewrite <- app_assoc. split; [reflexivity|]. apply (after_trans s _ _ r s1); assumption.
Qed.

Lemma slice_inv fuel : forall acc s s' res, stream_ok s -> kind s = None -> slice_elems fuel elem acc s = Ret (s', Ok res) ->
  exists vs, res = acc ++ vs /\ Forall T vs /\ exists r, reader s = encodings vs ++ r /\ len (encodings vs) <= avail s /\ after s (encodings vs) r s'.
Proof.
  induction fuel as [|fuel IH]; intros acc s s' res H Hk; cbn [slice_elems]; [discriminate|]. destruct (elem s) as [[s1 [v|e]]|] eqn:E; [| |discriminate].
  - intros Hs. destruct (d_inv _ _ _ Hd s s1 v H Hk E) as (Hv & r1 & E1 & L1 & A1). destruct (after_ok s _ _ s1 H E1 L1 A1) as (H1 & Av & K1 & R1).
    destruct (IH _ s1 s' res H1 K1 Hs) as (vs & -> & Hvs & r & E2 & L2 & A2). exists (v :: vs). rewrite <- app_assoc. split; [reflexivity|].
    split; [constructor; assumption|]. exists r. cbn [encodings flat_map]. fold (encodings vs). rewrite R1 in E2. clear R1. subst r1. rewrite <- app_assoc, len_app.
    split; [exact E1|]. split; [lia|]. apply (after_trans s _ _ r s1); assumption.
  - destruct e; try discriminate. intros [= <- <-]. pose proof (proj2 (d_fail _ _ _ Hd s H Hk) s1 E) as He.
    rewrite (d_end _ _ _ Hd s H Hk He) in E. injection E as <-. exists []. rewrite app_nil_r. split; [reflexivity|]. split; [constructor|].
    exists (reader s). pose proof (avail_bounds s H). split; [reflexivity|]. split; [cbn; lia|]. apply after_nil; auto.
Qed.

Lemma slice_tame fuel : forall acc s, stream_ok s -> kind s = None -> (length (reader s) < fuel)%nat -> tame_at (slice_elems fuel elem acc) s.
Proof.
  induction fuel as [|fuel IH]; intros acc s H Hk Hf; [lia|]. unfold tame_at. cbn [slice_elems]. pose proof (d_fail _ _ _ Hd s H Hk) as [Hp _].
  destruct (elem s) as [[s1 [v|e]]|] eqn:E; [|destruct e; exact I|contradiction].
  destruct (d_inv _ _ _ Hd s s1 v H Hk E) as (Hv & r1 & E1 & L1 & A1). destruct (after_ok s _ _ s1 H E1 L1 A1) as (H1 & Av & K1 & R1).
  apply IH; auto. pose proof (so_len s H). pose proof (avail_bounds s H). pose proof (d_size _ _ _ Hd v Hv ltac:(lia)) as Hs.
  rewrite R1. rewrite E1, length_app in Hf. unfold len in Hs. lia.
Qed.

Lemma slice_items : reads_items (fun n => if n =? 0 then dret [] else decodeSliceElems elem) (Forall T).
Proof.
  split.
  - intros s vs r H Hk Hst Hv E Hl. pose proof (so_len s H). pose proof (avail_bounds s H). pose proof (encodings_size elem T vs Hd Hv ltac:(lia)) as Hs.
    destruct (Z.eqb_spec (avail s) 0) as [E0|N0].
    + assert (vs = []) as -> by (destruct vs; [reflexivity|cbn [length] in Hs; lia]). exists s. split; [reflexivity|].
      pose proof (after_nil s r (kinderr s) Hk E) as Ha. destruct s; exact Ha.
    + apply (slice_elems_ok vs Hv _ [] s r); auto. rewrite E, length_app. unfold len in Hs. lia.
  - intros s n s' vs H Hk -> E. destruct (Z.eqb_spec (avail s) 0) as [E0|N0].
    + injection E as <- <-. split; [constructor|]. exists (reader s). split; [reflexivity|]. split; [cbn; lia|].
      pose proof (after_nil s (reader s) (kinderr s) Hk eq_refl) as Ha. destruct s; exact Ha.
    + destruct (slice_inv _ [] s s' vs H Hk E) as (vs' & -> & Hv & R). split; [exact Hv|exact R].
  - intros s n H Hk. destruct (n =? 0); [exact I|]. apply slice_tame; auto. lia.
Qed.
End Slices.

(** ** Structs *)

Inductive fields_of : list (dval -> Prop) -> list dval -> Prop :=
| fo_nil : fields_of [] []
| fo_cons (T : dval -> Prop) Ts v vs : T v -> fields_of Ts vs -> fields_of (T :: Ts) (v :: vs).

Definition all_decode (decs : list (D dval)) (Ts : list (dval -> Prop)) : Prop := Forall2 (fun m T => decodes m T encoding) decs Ts.

Lemma fields_ok decs Ts : all_decode decs Ts -> forall vs acc s r, fields_of Ts vs -> stream_ok s -> kind s = None -> reader s = encodings vs ++ r ->
  len (encodings vs) <= avail s -> exists s', struct_fields decs acc s = Ret (s', Ok (acc ++ vs)) /\ after s (encodings vs) r s'.
Proof.
  induction 1 as [|m T decs Ts Hm Hs IH]; intros vs acc s r Hv H Hk E Hl; inversion Hv as [|T' Ts' v vs' Hv1 Hvs E1 E2]; subst.
  - exists s. cbn. rewrite app_nil_r. split; [reflexivity|]. pose proof (after_nil s r (kinderr s) Hk E) as Ha. destruct s; exact Ha.
  - cbn [encodings flat_map] in *. fold (encodings vs') in *. rewrite <- app_assoc in E. rewrite len_app in Hl. pose proof (len_nonneg (encodings vs')).
    cbn [struct_fields]. unfold dbind, dcatch. destruct (d_ok _ _ _ Hm s v (encodings vs' ++ r) H Hk Hv1 E ltac:(lia)) as (s1 & -> & Ha).
    destruct (after_ok s (encoding v) (encodings vs' ++ r) s1 H E ltac:(lia) Ha) as (H1 & A1 & K1 & R1).
    destruct (IH vs' (acc ++ [v]) s1 r Hvs H1 K1 R1 ltac:(lia)) as (s2 & -> & Ha2).
    exists s2. rewrite <- app_assoc. split; [reflexivity|]. apply (after_trans s _ _ r s1); assumption.
Qed.

Lemma fields_inv decs Ts : all_decode decs Ts -> forall acc s s' res, stream_ok s -> kind s = None -> struct_fields decs acc s = Ret (s', Ok res) ->
  exists vs, res = acc ++ vs /\ fields_of Ts vs /\ exists r, reader s = encodings vs ++ r /\ len (encodings vs) <= avail s /\ after s (encodings vs) r s'.
Proof.
  induction 1 as [|m T decs Ts Hm Hs IH]; intros acc s s' res H Hk; cbn [struct_fields].
  - intros [= <- <-]. exists []. rewrite app_nil_r. split; [reflexivity|]. split; [constructor|]. exists (reader s). pose proof (avail_bounds s H).
    split; [reflexivity|]. split; [cbn; lia|]. pose proof (after_nil s (reader s) (kinderr s) Hk eq_refl) as Ha. destruct s; exact Ha.
  - unfold dbind, dcatch. destruct (m s) as [[s1 [v|e]]|] eqn:E; [|discriminate..]. intros Hf.
    destruct (d_inv _ _ _ Hm s s1 v H Hk E) as (Hv & r1 & E1 & L1 & A1). destruct (after_ok s _ _ s1 H E1 L1 A1) as (H1 & Av & K1 & R1).
    destruct (IH _ s1 s' res H1 K1 Hf) as (vs & -> & Hvs & r & E2 & L2 & A2). exists (v :: vs). rewrite <- app_assoc. split; [reflexivity|].
    split; [constructor; assumption|]. exists r. cbn [encodings flat_map]. fold (encodings vs). rewrite R1 in E2. clear R1. subst r1. rewrite <- app_assoc, len_app.
    split; [exact E1|]. split; [lia|]. apply (after_trans s _ _ r s1); assumption.
Qed.

Lemma fields_tame decs Ts : all_decode decs Ts -> forall acc s, stream_ok s -> kind s = None -> tame_at (struct_fields decs acc) s.
Proof.
  induction 1 as [|m T decs Ts Hm Hs IH]; intros acc s H Hk; [exact I|]. unfold tame_at. cbn [struct_fields]. unfold dbind, dcatch.
  pose proof (d_fail _ _ _ Hm s H Hk) as [Hp _]. destruct (m s) as [[s1 [v|e]]|] eqn:E; [|destruct e; exact I|contradiction].
  destruct (d_inv _ _ _ Hm s s1 v H Hk E) as (Hv & r1 & E1 & L1 & A1). destruct (after_ok s _ _ s1 H E1 L1 A1) as (H1 & Av & K1 & R1). apply IH; assumption.
Qed.

Lemma struct_items decs Ts : all_decode decs Ts -> reads_items (fun _ => struct_fields decs []) (fields_of Ts).
Proof.
  intros Hd. split.
  - intros s vs r H Hk _ Hv E Hl. apply (fields_ok decs Ts Hd vs []); auto. lia.
  - intros s n s' vs H Hk _ E. destruct (fields_inv decs Ts Hd [] s s' vs H Hk E) as (vs' & -> & R). exact R.
  - intros s n H Hk. apply (fields_tame decs Ts Hd); assumption.
Qed.

(** ** Every plain type *)

Lemma typed_fields ts vs : typed (TStruct ts) (DList vs) <-> fields_of (map typed ts) vs.
Proof.
  cbn [typed]. split.
  - intros (vs' & [= <-] & H). revert vs H. induction ts as [|t ts IH]; intros [|v vs]; cbn; try contradiction; [constructor|].
    intros [Hv Hs]. constructor; [exact Hv|apply IH, Hs].
  - intros H. exists vs. split; [reflexivity|]. revert vs H. induction ts as [|t ts IH]; intros vs H; inversion H; subst; cbn; [exact I|]. split; [assumption|apply IH; assumption].
Qed.

Lemma decode_decodes t : plain t = true -> decodes (decode t) (typed t) encoding.
Proof.
  apply (typ_fields_ind (fun t => plain t = true -> decodes (decode t) (typed t) encoding)); clear t; [intros t|intros t IH Hp|intros ts IH Hp|intros t IH Hp|intros t IH Hp].
  - destruct t; try exact I; intros Hp; exact (scalars_decode _ Hp).
  - apply (decodes_ext (from_kind wrapStreamError (list_body (fun n => if n =? 0 then dret [] else decodeSliceElems (decode t)) stream_ListEnd))).
    { intros s. cbn [decode]. unfold from_kind, list_body, decodeListSlice, wrapped, dbind, dcatch, stream_List, dbind.
      destruct (stream_Kind s) as [[s' [[[] n]|e]]|]; try reflexivity. cbn. destruct (n =? 0); reflexivity. }
    apply list_decodes; [apply slice_items, IH, Hp|apply ListEnd_is].
  - apply (decodes_ext (from_kind wrapStreamError (list_body (fun _ => struct_fields (map decode ts) []) (wrapped stream_ListEnd)))).
    { intros s. cbn [decode]. unfold from_kind, list_body, decodeStruct, wrapped at 2, dbind, dcatch, stream_List, dbind.
      destruct (stream_Kind s) as [[s' [[[] n]|e]]|]; reflexivity. }
    refine (decodes_same _ _ _ _ _ (fun v => eq_refl) _ (list_decodes _ _ (fields_of (map typed ts)) (struct_items _ _ _) wrapped_ListEnd_is)).
    + intros v. split; [intros (vs & -> & Hv); apply typed_fields, Hv|]. intros Hv. destruct Hv as (vs & -> & Hv). exists vs. split; [reflexivity|].
      apply typed_fields. exists vs. auto.
    + cbn [plain] in Hp. rewrite forallb_forall in Hp. clear -IH Hp. induction IH as [|t ts Ht _ IHts]; [constructor|]. cbn [map].
      constructor; [apply Ht, Hp; left; reflexivity|]. apply IHts. intros x Hx. apply Hp. right. exact Hx.
  - apply IH, Hp.
  - discriminate Hp.
Qed.

Lemma Reset_ok b : bytes_ok b -> len b < 2 ^ 63 -> stream_ok (NewStream b (u64 (len b))) /\ avail (NewStream b (u64 (len b))) = len b.
Proof.
  intros Hb Hl. pose proof (len_nonneg b). split; [|reflexivity]. unfold NewStream, stream_Reset. rewrite u64_small by lia. rewrite Z.gtb_ltb.
  split; cbn [limited remaining reader stack stack_ok]; auto. destruct (_ <? _); reflexivity.
Qed.

(** What a decoder of the stream does, as [DecodeBytes] uses it. *)
Lemma DecodeBytes_spec t b : plain t = true -> bytes_ok b -> len b < 2 ^ 63 ->
  DecodeBytes t b <> Panic /\ forall v, DecodeBytes t b = Ret (Ok v) <-> typed t v /\ b = encoding v.
Proof.
  intros Hp Hb Hl. destruct (decode_decodes t Hp) as [H1 H2 H3 H4 H5]. destruct (Reset_ok b Hb Hl) as [H0 A0]. unfold DecodeBytes.
  set (s := NewStream b (u64 (len b))) in *. assert (R0 : reader s = b) by reflexivity. split.
  - destruct (H4 s H0 eq_refl) as [Hn _]. destruct (decode t s) as [[s' [v|e]]|]; [destruct (_ >? _)| |contradiction]; discriminate.
  - intros v. split.
    + destruct (decode t s) as [[s' [v'|e]]|] eqn:E; [|discriminate..]. destruct (H2 s s' v' H0 eq_refl E) as (Hv & r & Er & Hlen & Ha).
      destruct (after_ok s _ r s' H0 Er Hlen Ha) as (_ & _ & _ & Rs). rewrite Rs, Z.gtb_ltb. destruct (Z.ltb_spec 0 (len r)); [discriminate|].
      intros [= <-]. split; [exact Hv|]. destruct r as [|x r]; [rewrite app_nil_r in Er; congruence|rewrite len_cons in *; pose proof (len_nonneg r); lia].
    + intros [Hv Eb]. destruct (H1 s v [] H0 eq_refl Hv ltac:(rewrite app_nil_r; congruence) ltac:(rewrite <- Eb; lia)) as (s' & -> & Ha).
      destruct (after_ok s (encoding v) [] s' H0 ltac:(rewrite app_nil_r; congruence) ltac:(rewrite <- Eb; lia) Ha) as (_ & _ & _ & Rs).
      rewrite Rs. reflexivity.
Qed.

(** ** What the encoder accepts *)

Lemma head_bytes_ok small large n : 0 <= small <= 0xC0 -> 0 <= large <= 0xF7 -> 0 <= n < 2 ^ 64 -> bytes_ok (rlp_head small large n).
Proof.
  intros Hs Hl Hn. unfold rlp_head. destruct (Z.ltb_spec n 56); [repeat constructor; lia|]. pose proof (byte_len_small n ltac:(lia)).
  constructor; [unfold is_byte; lia|apply Bytes_ok].
Qed.

Lemma string_bytes_ok b : bytes_ok b -> len b < 2 ^ 64 -> bytes_ok (rlp_string b).
Proof.
  intros Hb Hl. pose proof (len_nonneg b). unfold rlp_string. destruct b as [|x [|y b]].
  - repeat constructor; unfold is_byte; lia.
  - destruct (x <=? 0x7F); [exact Hb|]. constructor; [unfold is_byte; lia|exact Hb].
  - apply bytes_ok_app. split; [apply head_bytes_ok; lia|exact Hb].
Qed.

(** The value encodes, to bytes. *)
Definition encodable (v : dval) : Prop :=
  uints_ok (enc v) = true /\ has_negative (enc v) = false /\ (len (encoding v) < 2 ^ 63 -> bytes_ok (encoding v)).

Lemma list_encodable vs : Forall encodable vs -> encodable (DList vs).
Proof.
  intros H. split; [|split].
  - cbn [enc uints_ok]. induction H as [|v vs Hv Hs IH]; [reflexivity|]. cbn. rewrite (proj1 Hv). exact IH.
  - cbn [enc has_negative]. induction H as [|v vs Hv Hs IH]; [reflexivity|]. cbn. rewrite (proj1 (proj2 Hv)). exact IH.
  - rewrite encoding_list, len_app. intros Hl. pose proof (len_nonneg (encodings vs)). pose proof (len_nonneg (rlp_head 0xC0 0xF7 (len (encodings vs)))).
    apply bytes_ok_app. split; [apply head_bytes_ok; lia|]. assert (Hb : len (encodings vs) < 2 ^ 63) by lia. clear -H Hb.
    induction H as [|v vs (_ & _ & Hv) Hs IH]; [constructor|]. cbn [encodings flat_map] in *. fold (encodings vs) in *. rewrite len_app in Hb.
    pose proof (len_nonneg (encodings vs)). pose proof (len_nonneg (encoding v)). apply bytes_ok_app. split; [apply Hv; lia|apply IH; lia].
Qed.

Lemma string_encodable v b : uints_ok (enc v) = true -> has_negative (enc v) = false -> encoding v = rlp_string b -> bytes_ok b -> encodable v.
Proof.
  intros H1 H2 E Hb. split; [exact H1|]. split; [exact H2|]. intros Hl. rewrite E in *. pose proof (rlp_string_len b). apply string_bytes_ok; [exact Hb|lia].
Qed.

Lemma typed_encodable t : plain t = true -> forall v, typed t v -> encodable v.
Proof.
  apply (typ_fields_ind (fun t => plain t = true -> forall v, typed t v -> encodable v)); clear t; [intros t|intros t IH Hp|intros ts IH Hp|intros t IH Hp|discriminate].
  - destruct t; try exact I; intros Hp v.
    + intros (b & -> & Hb & _). split; [reflexivity|]. split; [reflexivity|]. intros _. exact Hb.
    + intros (n & -> & Hn). apply (string_encodable _ (Bytes n)); [|reflexivity|reflexivity|apply Bytes_ok]. cbn. apply andb_true_intro. split; [apply Z.leb_le; lia|].
      apply Z.ltb_lt. change 18446744073709551616 with (2 ^ 64). eapply Z.lt_le_trans; [apply Hn|]. apply Z.pow_le_mono_r; [lia|]. cbn [plain] in Hp. apply existsb_exists in Hp.
      destruct Hp as (x & Hx & E). apply Z.eqb_eq in E. subst x. cbn in Hx. lia.
    + intros (b & ->). split; [reflexivity|]. split; [reflexivity|]. intros _. destruct b; vm_compute; repeat constructor; discriminate.
    + intros (b & -> & Hb). apply (string_encodable _ b); auto.
    + intros (b & -> & Hb & _). apply (string_encodable _ b); auto.
    + intros (n & -> & Hn). apply (string_encodable _ (Bytes n)); [reflexivity| |reflexivity|apply Bytes_ok]. cbn. apply Z.ltb_ge. exact Hn.
  - intros v (vs & -> & Hv). apply list_encodable. eapply Forall_impl; [|exact Hv]. apply IH, Hp.
  - intros v Hv. pose proof Hv as (vs & -> & _). apply list_encodable. apply typed_fields in Hv. cbn [plain] in Hp.
    revert vs Hv Hp. induction IH as [|t ts Ht Hts IHts]; intros vs Hv Hp; inversion Hv; subst; constructor; cbn in Hp; apply andb_prop in Hp; [apply Ht; [apply Hp|assumption]|].
    apply IHts; [assumption|apply Hp].
  - apply IH, Hp.
Qed.

(** ** Theorems *)

(** C26: [rlp.DecodeBytes] on any input, for every type without optional pointers
    and one-byte arrays: it does not panic, and it succeeds with [v] exactly when
    [v] is a value of the type and the input is the encoding of [v]; so no value is
    read from two inputs, a truncated, padded or non-canonical encoding is
    rejected, and so is input after the value. *)
Theorem DecodeBytes_correct t b : plain t = true -> bytes_ok b -> len b < 2 ^ 63 ->
  DecodeBytes t b <> Panic /\ forall v, DecodeBytes t b = Ret (Ok v) <-> typed t v /\ b = rlp (enc v).
Proof. apply DecodeBytes_spec. Qed.

(** The account of the state: nonce, balance, root and code hash. *)
Definition account_typ : typ := TStruct [TUint 64; TBigInt; TArray 32; TBytes].
Definition sample_account : dval := DList [DUint 5; DBigInt 1000; DBytes (repeat 7 32); DBytes (repeat 9 32)].

Lemma sample_account_typed : typed account_typ sample_account.
Proof.
  apply typed_fields. assert (Hb : forall x n, 0 <= x < 256 -> bytes_ok (repeat x n)).
  { intros x n Hx. apply Forall_forall. intros y Hy. apply repeat_spec in Hy. subst y. exact Hx. }
  cbn [map]. apply fo_cons; [exists 5; split; [reflexivity|lia]|]. apply fo_cons; [exists 1000; split; [reflexivity|lia]|].
  apply fo_cons; [exists (repeat 7 32); split; [reflexivity|]; split; [apply Hb; lia|reflexivity]|].
  apply fo_cons; [exists (repeat 9 32); split; [reflexivity|apply Hb; lia]|]. apply fo_nil.
Qed.

Lemma DecodeBytes_correct_witness :
  DecodeBytes account_typ (rlp (enc sample_account)) = Ret (Ok sample_account) /\
  DecodeBytes (TStruct [TUint 64; TSlice TBytes]) [0xC5; 0x82; 0x01; 0x00; 0xC1; 0x05] <> Panic.
Proof.
  split.
  - refine (proj2 (proj2 (DecodeBytes_correct account_typ (rlp (enc sample_account)) eq_refl _ eq_refl) sample_account) (conj sample_account_typed eq_refl)).
    vm_compute. repeat constructor; discriminate.
  - refine (proj1 (DecodeBytes_correct (TStruct [TUint 64; TSlice TBytes]) [0xC5; 0x82; 0x01; 0x00; 0xC1; 0x05] eq_refl _ eq_refl)).
    repeat constructor; discriminate.
Defined.

(** What [rlp.EncodeToBytes] writes for a value of the type, [rlp.DecodeBytes] reads back. *)
Theorem encode_decode_roundtrip t v : plain t = true -> typed t v -> len (rlp (enc v)) < 2 ^ 63 ->
  exists b, EncodeToBytes (enc v) = Ret (Ok b) /\ DecodeBytes t b = Ret (Ok v).
Proof.
  intros Hp Hv Hl. destruct (typed_encodable t Hp v Hv) as (Hu & Hn & Hb). exists (rlp (enc v)). split.
  - rewrite EncodeToBytes_rlp, Hn by assumption. reflexivity.
  - apply (DecodeBytes_spec t (rlp (enc v)) Hp (Hb Hl) Hl). auto.
Qed.

Lemma encode_decode_roundtrip_witness : exists b, EncodeToBytes (enc sample_account) = Ret (Ok b) /\ DecodeBytes account_typ b = Ret (Ok sample_account).
Proof. apply (encode_decode_roundtrip account_typ sample_account eq_refl sample_account_typed). reflexivity. Defined.

Lemma stuck_slice fuel : forall s acc, kind s = Some KByte -> kinderr s = None -> byteval s = 0 -> slice_elems fuel (decode (TArray 1)) acc s = Panic.
Proof.
  induction fuel as [|fuel IH]; intros s acc Hk He Hb; [reflexivity|].
  assert (Ek : stream_Kind s = Ret (s, Ok (KByte, vsize s))) by (unfold stream_Kind; rewrite Hk, He; reflexivity).
  cbn [slice_elems decode]. unfold decodeByteArray, dbind at 1. rewrite Ek. change (1 =? 0) with false. change (1 >? 1) with false. cbv iota.
  unfold dbind, dcatch, stream_uint, dbind. rewrite Ek. unfold dget. rewrite Hb. cbn. apply IH; assumption.
Qed.

(** The stream in a list of one zero byte. *)
Definition zero_list : Stream := mkStream [0] 1 true None 0 0 None [mkPos 0 1].

(** an array of one byte is not read back when the byte is zero: the error of
    [s.Uint] is dropped with the kind still cached, so that the next field reads the
    byte again, and the loop over a slice of such arrays never ends. *)
Theorem one_byte_array_lost :
  EncodeToBytes (VList [VBytes [0]; VBytes [7]]) = Ret (Ok [0xC2; 0; 7]) /\
  DecodeBytes (TStruct [TArray 1; TBytes]) [0xC2; 0; 7] = Ret (Err (WrappedError NotAtEOL)) /\
  DecodeBytes (TStruct [TArray 1; TBytes]) [0xC2; 1; 7] = Ret (Ok (DList [DBytes [1]; DBytes [7]])) /\
  forall fuel, slice_elems fuel (decode (TArray 1)) [] zero_list = Panic.
Proof.
  split; [vm_compute; reflexivity|]. split; [vm_compute; reflexivity|]. split; [vm_compute; reflexivity|]. intros [|fuel]; [reflexivity|].
  cbn [slice_elems]. set (e := decode (TArray 1) zero_list). vm_compute in e. subst e. cbv iota. apply stuck_slice; reflexivity.
Qed.
