(* ===== verification/ZkValidator.v ===== *)
(** * Package [zkrangeproof]: the range-proof validator

    [zkp_validator.go], function by function.  [*big.Int] values are [Z], a
    slice of them is a [list Z]; a function that can reach a run-time panic
    (division by zero, index out of range) returns an [outcome].  Messages
    printed on the way are left out.  [ValidateRangeProof] overwrites the first
    element of the slice it is given, so its model returns the slice as the
    caller finds it after the call. *)

From Stdlib Require Import ZArith List Lia Bool.
From S2P Require Import Prelude GoBig Sha256 ByteConversion.
Import ListNotations.
Local Open Scope Z_scope.

Module zkrangeproof.

(** Security parameters. *)
Definition t : Z := 128.
Definition l : Z := 40.

(** ** Arithmetic helpers *)

Definition Add (x y : Z) : Z := x + y.
Definition Sub (x y : Z) : Z := x - y.
Definition Div (x y : Z) : outcome Z := big.Div x y.
Definition Mod (base modulo : Z) : outcome Z := big.Mod base modulo.
Definition Multiply (factor1 factor2 : Z) : Z := factor1 * factor2.
Definition ModInverse (base modulo : Z) : outcome Z := big.ModInverse base modulo.

Definition DivMod (a b N : Z) : outcome Z :=
  let! i := ModInverse b N in Mod (Multiply a i) N.

Definition ShiftLeft (a b : Z) : Z := Multiply a (setbit0 b).

Definition ModPow (base exponent modulo : Z) : outcome Z :=
  if exponent >=? 0 then Ret (big.Exp base exponent modulo)
  else ModInverse (big.Exp base (Z.abs exponent) modulo) modulo.

(** The [for] loop of [FloorSquareRoot].  Out of fuel it reports [Panic]; the
    fuel [FloorSquareRoot] gives it is always enough. *)
Fixpoint sqrt_loop (fuel : nat) (input prev2 prev approx : Z) : outcome Z :=
  match fuel with
  | O => Panic
  | S fuel =>
      if negb (approx =? prev) && negb (approx =? prev2) then
        let! q := Div input approx in
        let! approx' := Div (Add q approx) 2 in
        sqrt_loop fuel input prev approx approx'
      else Ret approx
  end.

Definition FloorSquareRoot (input : Z) : outcome Z :=
  if input <? 0 then Ret 0
  else
    let approx := setbit0 (Z.quot (BitLen input) 2) in
    let! approx := sqrt_loop (Z.to_nat (BitLen input + 5)) input 0 0 approx in
    Ret (if Multiply approx approx >? input then Sub approx 1 else approx).

(** ** The challenge hash *)

Definition CalculateHash (b1 : Z) (b2 : option Z) : outcome (result Z convErr) :=
  let written := ToByteArray b1 ++ match b2 with Some b2 => ToByteArray b2 | None => [] end in
  let output := sha256.Sum256 written in
  let! tmp := slice output 0 (len output) in
  FromByteArray tmp.

(** ** The three proofs of knowledge *)

Definition CFTValidateZeroKnowledgeProof (b N g h E : Z) (cftProof : list Z) : outcome bool :=
  let! C := index cftProof 0 in
  let! c := Mod C (setbit0 t) in
  let! D1 := index cftProof 1 in
  let! D2 := index cftProof 2 in
  let! gD1 := ModPow g D1 N in
  let! hD2 := ModPow h D2 N in
  let! Ec := ModPow E (Multiply c (-1)) N in
  let! W := Mod (Multiply (Multiply gD1 hD2) Ec) N in
  let! hashW := CalculateHash W None in
  match hashW with
  | Err _ => Ret false
  | Ok hashW =>
      Ret ((C =? hashW) && (D1 >=? Multiply b c) && (D1 <=? Multiply b (setbit0 (t + l))))
  end.

Definition HPAKEEqualityConstraintValidateZeroKnowledgeProof
    (N g1 g2 h1 h2 E F : Z) (ecProof : list Z) : outcome bool :=
  let! C := index ecProof 0 in
  let! D := index ecProof 1 in
  let! D1 := index ecProof 2 in
  let! D2 := index ecProof 3 in
  let! a1 := ModPow g1 D N in
  let! b1 := ModPow h1 D1 N in
  let! e1 := ModPow E (Multiply C (-1)) N in
  let! W1 := Mod (Multiply (Multiply a1 b1) e1) N in
  let! a2 := ModPow g2 D N in
  let! b2 := ModPow h2 D2 N in
  let! e2 := ModPow F (Multiply C (-1)) N in
  let! W2 := Mod (Multiply (Multiply a2 b2) e2) N in
  let! hashW := CalculateHash W1 (Some W2) in
  match hashW with
  | Err _ => Ret false
  | Ok hashW => Ret (C =? hashW)
  end.

Definition HPAKESquareValidateZeroKnowledgeProof (N g h E : Z) (sqProof : list Z) : outcome bool :=
  let! F := index sqProof 0 in
  let! ecProof := slice sqProof 1 (len sqProof) in
  HPAKEEqualityConstraintValidateZeroKnowledgeProof N g F h h F E ecProof.

(** ** The range proof *)

Definition ValidateProofWithTolerance
    (lowerLimit upperLimit : Z) (commitment proof : list Z) : outcome bool :=
  if (len commitment <? 4) || (len proof <? 18) then Ret false
  else
    let! c := index commitment 0 in
    let! N := index commitment 1 in
    let! g := index commitment 2 in
    let! h := index commitment 3 in
    if N <=? 0 then Ret false
    else
      let! cLeftSquare := index proof 0 in
      let! cRightSquare := index proof 1 in
      let! squareProofLeft := slice proof 2 7 in
      let! squareProofRight := slice proof 7 12 in
      let! cftProofLeft := slice proof 12 15 in
      let! cftProofRight := slice proof 15 18 in
      (* Step 2 *)
      let! gLower := ModPow g lowerLimit N in
      let! cLeft := DivMod c gLower N in
      let! gUpper := ModPow g upperLimit N in
      let! cRight := DivMod gUpper c N in
      (* Step 6 *)
      let! cLeftRemaining := DivMod cLeft cLeftSquare N in
      let! cRightRemaining := DivMod cRight cRightSquare N in
      (* Step 7 *)
      let! sqLeft := HPAKESquareValidateZeroKnowledgeProof N g h cLeftSquare squareProofLeft in
      if negb sqLeft then Ret false
      else
        let! sqRight := HPAKESquareValidateZeroKnowledgeProof N g h cRightSquare squareProofRight in
        if negb sqRight then Ret false
        else
          (* Step 8 *)
          let! CFT_maxCommitment := FloorSquareRoot (ShiftLeft (Sub upperLimit lowerLimit) 2) in
          let! cftLeft :=
            CFTValidateZeroKnowledgeProof CFT_maxCommitment N g h cLeftRemaining cftProofLeft in
          if negb cftLeft then Ret false
          else
            let! cftRight :=
              CFTValidateZeroKnowledgeProof CFT_maxCommitment N g h cRightRemaining cftProofRight in
            if negb cftRight then Ret false else Ret true.

(** The exponent of the expansion factor of a range. *)
Definition expansion (lowerLimit upperLimit : Z) : Z :=
  2 * (t + l + 1) + BitLen (Sub upperLimit lowerLimit).

(** Returns the verdict and the commitment slice after the call:
    [commitmentPrime := commitment[:]] shares its storage. *)
Definition ValidateRangeProof
    (lowerLimit upperLimit : Z) (commitment proof : list Z) : outcome (bool * list Z) :=
  if (len commitment <? 4) || (len proof <? 18) then Ret (false, commitment)
  else
    let T := expansion lowerLimit upperLimit in
    let lowerLimitPrime := ShiftLeft lowerLimit T in
    let upperLimitPrime := ShiftLeft upperLimit T in
    let! c0 := index commitment 0 in
    let! N := index commitment 1 in
    let! c0' := ModPow c0 (ShiftLeft 1 T) N in
    let! tail := slice commitment 1 (len commitment) in
    let commitmentPrime := c0' :: tail in
    let! ok := ValidateProofWithTolerance lowerLimitPrime upperLimitPrime commitmentPrime proof in
    Ret (ok, commitmentPrime).

End zkrangeproof.
