(* ===== verification/ZkArith.v ===== *)
(** * Arithmetic of the validator: square root, totality, powers of units

    [FloorSquareRoot] is the integer square root; every validation returns (no
    panic) whatever its input; and, for a base coprime to the modulus, [ModPow]
    is exponentiation in the group of units, negative exponents included. *)

From Stdlib Require Import ZArith List Lia Bool Znumtheory Setoid Morphisms.
From S2P Require Import Prelude GoBig ModArith Sha256 ByteConversion ZkValidator.
Import ListNotations zkrangeproof.
Local Open Scope Z_scope.

(** ** Heron's iteration *)

Section heron.
Variable n : Z.
Hypothesis n_pos : 1 <= n.

Definition heron (a : Z) : Z := (n / a + a) / 2.

Local Abbreviation s := (Z.sqrt n).

Lemma sqrt_bounds : 1 <= s /\ s * s <= n < (s + 1) * (s + 1).
Proof.
  pose proof (Z.sqrt_spec n ltac:(lia)). pose proof (Z.sqrt_pos n).
  unfold Z.succ in *. lia.
Qed.

Lemma heron_ge a : 1 <= a -> s <= heron a.
Proof.
  intros Ha. destruct sqrt_bounds as [Hs [H1 H2]]. unfold heron.
  apply Z.div_le_lower_bound; [lia|].
  destruct (Z.le_gt_cases (2 * s) a) as [Hc|Hc].
  { assert (0 <= n / a) by (apply Z.div_pos; lia). lia. }
  enough (2 * s - a <= n / a) by lia.
  apply Z.div_le_lower_bound; [lia|]. pose proof (Z.square_nonneg (s - a)). lia.
Qed.

(** Above the root the iteration decreases, and the distance to it halves. *)
Lemma heron_halves a : s + 1 <= a -> 2 * (heron a - s) <= a - s.
Proof.
  intros Ha. destruct sqrt_bounds as [Hs [H1 H2]]. unfold heron.
  assert (n / a < s + 1) by (apply Z.div_lt_upper_bound; nia).
  pose proof (Z.mul_div_le (n / a + a) 2 ltac:(lia)). lia.
Qed.

Lemma heron_sqrt : heron s = s \/ heron s = s + 1.
Proof.
  destruct sqrt_bounds as [Hs [H1 H2]]. unfold heron.
  assert (s <= n / s) by (apply Z.div_le_lower_bound; lia).
  assert (n / s < s + 3) by (apply Z.div_lt_upper_bound; nia).
  assert (n / s = s \/ n / s = s + 1 \/ n / s = s + 2) as [-> | [-> | ->]] by lia.
  - left. rewrite Z.add_diag, Z.mul_comm, Z.div_mul; lia.
  - left. symmetry; apply Z.div_unique with 1; lia.
  - right. symmetry; apply Z.div_unique with 0; lia.
Qed.

Lemma heron_sqrt_succ : heron (s + 1) = s.
Proof.
  pose proof (heron_halves (s + 1) ltac:(lia)).
  pose proof (heron_ge (s + 1)). destruct sqrt_bounds as [Hs _]. lia.
Qed.

(** The last three values of the loop: zeros are the initial placeholders. *)
Definition trail (prev2 prev approx : Z) : Prop :=
  s <= approx /\
  (prev = 0 \/ 1 <= prev /\ approx = heron prev) /\
  (prev2 = 0 \/ 1 <= prev2 /\ prev = heron prev2).

(** When the loop stops, it is at the root or one above it. *)
Lemma trail_stop prev2 prev approx :
  trail prev2 prev approx -> approx = prev \/ approx = prev2 ->
  approx = s \/ approx = s + 1.
Proof.
  intros (Ha & H1 & H2) Hstop. destruct sqrt_bounds as [Hs _].
  assert (dec : forall x y, s <= x -> y = heron x -> x = s \/ 2 * (y - s) <= x - s).
  { intros x y Hx ->. destruct (Z.eq_dec x s); [auto|]. right; apply heron_halves; lia. }
  destruct Hstop as [-> | ->].
  - destruct H1 as [->|[Hp E]]; [lia|]. destruct (dec prev prev Ha E); lia.
  - destruct H2 as [->|[Hp2 E2]]; [lia|].
    assert (Hp : s <= prev) by (rewrite E2; apply heron_ge; lia).
    destruct H1 as [->|[_ E1]]; [lia|].
    destruct (dec prev2 prev Ha E2) as [->|D2]; [auto|].
    destruct (dec prev prev2 Hp E1) as [->|D1]; [|lia].
    rewrite E1. destruct heron_sqrt as [->| ->]; auto.
Qed.

Lemma sqrt_loop_S fuel prev2 prev approx :
  1 <= approx ->
  sqrt_loop (S fuel) n prev2 prev approx =
  (if negb (approx =? prev) && negb (approx =? prev2)
   then sqrt_loop fuel n prev approx (heron approx) else Ret approx).
Proof.
  intros Ha. cbn [sqrt_loop]. destruct (_ && _); [|reflexivity].
  unfold Div, Add; rewrite Div_pos by lia; cbn [obind]; rewrite Div_pos by lia. reflexivity.
Qed.

Lemma trail_step prev2 prev approx :
  trail prev2 prev approx -> trail prev approx (heron approx).
Proof.
  intros (Ha & H1 & H2). destruct sqrt_bounds as [Hs _]. split; [apply heron_ge; lia|].
  split; [right; split; [lia|reflexivity]|exact H1].
Qed.

(** One turn of the loop, or its end. *)
Lemma sqrt_loop_turn fuel prev2 prev approx :
  trail prev2 prev approx ->
  (exists r, sqrt_loop (S fuel) n prev2 prev approx = Ret r /\ (r = s \/ r = s + 1)) \/
  (sqrt_loop (S fuel) n prev2 prev approx = sqrt_loop fuel n prev approx (heron approx)) /\
  approx <> prev /\ approx <> prev2.
Proof.
  intros Ht. pose proof Ht as (Ha & _). destruct sqrt_bounds as [Hs _].
  rewrite sqrt_loop_S by lia.
  destruct (Z.eqb_spec approx prev) as [E|E]; cbn [negb andb].
  - left. exists approx. split; [reflexivity|]. apply (trail_stop prev2 prev); auto.
  - destruct (Z.eqb_spec approx prev2) as [E2|E2]; cbn [negb andb]; [|auto].
    left. exists approx. split; [reflexivity|]. apply (trail_stop prev2 prev); auto.
Qed.

(** From the root itself the loop ends within three turns. *)
Lemma sqrt_loop_at_root fuel prev2 prev :
  trail prev2 prev s ->
  exists r, sqrt_loop (S (S (S fuel))) n prev2 prev s = Ret r /\ (r = s \/ r = s + 1).
Proof.
  intros H0. destruct (sqrt_loop_turn (S (S fuel)) _ _ _ H0) as [D|(-> & N1 & N2)]; [exact D|].
  apply trail_step in H0.
  destruct (sqrt_loop_turn (S fuel) _ _ _ H0) as [D|(-> & N3 & N4)]; [exact D|].
  apply trail_step in H0.
  destruct (sqrt_loop_turn fuel _ _ _ H0) as [D|(_ & N5 & N6)]; [exact D|].
  exfalso. destruct heron_sqrt as [E|E]; rewrite E in *; [congruence|].
  apply N6. apply heron_sqrt_succ.
Qed.

Lemma sqrt_loop_ends k : forall prev2 prev approx,
  trail prev2 prev approx -> approx - s < 2 ^ Z.of_nat k ->
  exists r, sqrt_loop (k + 3) n prev2 prev approx = Ret r /\ (r = s \/ r = s + 1).
Proof.
  induction k as [|k IH]; intros prev2 prev approx Ht Hk.
  - pose proof Ht as (Ha & _). assert (approx = s) as -> by (cbn in Hk; lia).
    apply sqrt_loop_at_root, Ht.
  - pose proof Ht as (Ha & _). rewrite Nat2Z.inj_succ, Z.pow_succ_r in Hk by lia.
    destruct (Z.eq_dec approx s) as [->|Hne].
    { destruct (sqrt_loop_at_root (S k) _ _ Ht) as (r & E & D). exists r. split; [|exact D].
      rewrite <- E. f_equal. lia. }
    cbn [Nat.add]. destruct (sqrt_loop_turn (k + 3) _ _ _ Ht) as [D|(-> & _)]; [exact D|].
    apply IH; [apply (trail_step prev2 prev), Ht|].
    pose proof (heron_halves approx ltac:(lia)). lia.
Qed.

(** The first approximation may lie below the root; one turn brings it above. *)
Lemma sqrt_loop_start k a0 :
  1 <= a0 -> heron a0 - s < 2 ^ Z.of_nat k ->
  exists r, sqrt_loop (k + 4) n 0 0 a0 = Ret r /\ (r = s \/ r = s + 1).
Proof.
  intros Ha Hk. replace (k + 4)%nat with (S (k + 3)) by lia.
  rewrite sqrt_loop_S by lia.
  replace (negb (a0 =? 0) && negb (a0 =? 0)) with true
    by (symmetry; rewrite (proj2 (Z.eqb_neq a0 0)) by lia; reflexivity).
  apply sqrt_loop_ends; [|exact Hk].
  split; [apply heron_ge; exact Ha|]. split; [right; split; [exact Ha|reflexivity]|auto].
Qed.

End heron.

Lemma heron_first_bound n :
  1 <= n -> heron n (2 ^ (BitLen n / 2)) - Z.sqrt n < 2 ^ (BitLen n + 1).
Proof.
  intros Hn. pose proof (BitLen_nonneg n) as H0. pose proof (BitLen_bound n) as Hb.
  rewrite Z.abs_eq in Hb by lia. pose proof (Z.sqrt_nonneg n).
  pose proof (Z.div_mod (BitLen n) 2 ltac:(lia)). pose proof (Z.mod_pos_bound (BitLen n) 2 ltac:(lia)).
  set (a := 2 ^ (BitLen n / 2)).
  assert (1 <= a) by (subst a; pose proof (Z.pow_pos_nonneg 2 (BitLen n / 2)); lia).
  assert (a <= 2 ^ BitLen n) by (apply Z.pow_le_mono_r; lia).
  assert (n / a <= n) by (apply Z.div_le_upper_bound; nia).
  unfold heron. rewrite Z.pow_add_r by lia. change (2 ^ 1) with 2.
  enough ((n / a + a) / 2 < 2 ^ BitLen n * 2) by lia.
  apply Z.div_lt_upper_bound; lia.
Qed.

(** [FloorSquareRoot] returns the integer square root (0 for a negative input). *)
Lemma FloorSquareRoot_sqrt input : FloorSquareRoot input = Ret (Z.sqrt input).
Proof.
  unfold FloorSquareRoot. destruct (Z.ltb_spec input 0) as [Hneg|Hpos].
  { rewrite Z.sqrt_neg by lia. reflexivity. }
  destruct (Z.eq_dec input 0) as [->|Hnz]; [reflexivity|].
  pose proof (BitLen_nonneg input).
  assert (Hq : 0 <= BitLen input / 2) by (apply Z.div_pos; lia).
  rewrite Z.quot_div_nonneg, setbit0_pow by lia.
  destruct (sqrt_loop_start input ltac:(lia) (Z.to_nat (BitLen input + 1)) (2 ^ (BitLen input / 2)))
    as (r & E & D).
  - pose proof (Z.pow_pos_nonneg 2 (BitLen input / 2)); lia.
  - rewrite Z2Nat.id by lia. apply heron_first_bound; lia.
  - replace (Z.to_nat (BitLen input + 1) + 4)%nat with (Z.to_nat (BitLen input + 5)) in E by lia.
    rewrite E. cbn [obind]. unfold Multiply, Sub.
    destruct (sqrt_bounds input ltac:(lia)) as [_ [H1 H2]].
    destruct D as [-> | ->]; rewrite Z.gtb_ltb; decb; do 2 f_equal; lia.
Qed.

(** ** Totality *)

Lemma returns_ret {A : Type} (a : A) : returns (Ret a).
Proof. exists a; reflexivity. Qed.

Lemma returns_bind {A B : Type} (m : outcome A) (k : A -> outcome B) :
  returns m -> (forall a, m = Ret a -> returns (k a)) -> returns (let! x := m in k x).
Proof. intros [a E] H. rewrite E. cbn. apply H, E. Qed.

Lemma index_returns {A : Type} (xs : list A) i : 0 <= i < len xs -> returns (index xs i).
Proof.
  intros H. unfold len in H. destruct (nth_error xs (Z.to_nat i)) as [a|] eqn:E.
  - exists a. apply index_ret; [exact E | lia].
  - apply nth_error_None in E. lia.
Qed.

Lemma slice_returns {A : Type} (xs : list A) i j : 0 <= i <= j -> j <= len xs -> returns (slice xs i j).
Proof. intros. rewrite slice_ret by assumption. apply returns_ret. Qed.

Lemma Mod_returns x y : 0 < y -> returns (Mod x y).
Proof. intros. unfold Mod. rewrite Mod_pos by assumption. apply returns_ret. Qed.

Lemma ModPow_returns b e N : 0 < N -> returns (ModPow b e N).
Proof.
  intros. unfold ModPow. destruct (_ >=? _); [apply returns_ret | apply ModInverse_ret; assumption].
Qed.

Lemma DivMod_returns a b N : 0 < N -> returns (DivMod a b N).
Proof.
  intros. apply returns_bind; [apply ModInverse_ret; assumption|]. intros; apply Mod_returns; assumption.
Qed.

(** The challenge: the digest of the encodings, read as two's complement. *)
Definition challenge (b1 : Z) (b2 : option Z) : Z :=
  tc_val (sha256.Sum256 (ToByteArray b1 ++ match b2 with Some b2 => ToByteArray b2 | None => [] end)).

(** The error branches of [CalculateHash] are dead: a digest is never empty. *)
Lemma CalculateHash_challenge b1 b2 : CalculateHash b1 b2 = Ret (Ok (challenge b1 b2)).
Proof.
  unfold CalculateHash. cbv zeta. rewrite slice_full. cbn [obind].
  apply FromByteArray_tc; [apply Sum256_ok|].
  intros E. pose proof (Sum256_len (ToByteArray b1 ++ match b2 with Some b2 => ToByteArray b2 | None => [] end)) as H.
  rewrite E in H. discriminate H.
Qed.

Lemma CalculateHash_returns b1 b2 : returns (CalculateHash b1 b2).
Proof. rewrite CalculateHash_challenge. apply returns_ret. Qed.

Lemma FloorSquareRoot_returns x : returns (FloorSquareRoot x).
Proof. rewrite FloorSquareRoot_sqrt. apply returns_ret. Qed.

Lemma setbit0_pos i : 0 <= i -> 0 < setbit0 i.
Proof. intros. rewrite setbit0_pow by assumption. apply Z.pow_pos_nonneg; lia. Qed.

Create HintDb total.
#[export] Hint Resolve returns_ret Mod_returns ModPow_returns DivMod_returns CalculateHash_returns
  FloorSquareRoot_returns : total.

Ltac total :=
  repeat match goal with
  | |- returns (Ret _) => apply returns_ret
  | |- returns (obind _ _) => apply returns_bind; [|intros ? ?]
  | |- returns (if ?b then _ else _) => destruct b eqn:?
  | |- returns (match ?r with Ok _ => _ | Err _ => _ end) => destruct r
  | |- returns (index _ _) => apply index_returns; lia
  | |- returns (slice _ _ _) => apply slice_returns; lia
  | |- returns _ => solve [auto with total]
  end.

Lemma CFT_returns b N g h E p : 0 < N -> 3 <= len p ->
  returns (CFTValidateZeroKnowledgeProof b N g h E p).
Proof.
  intros HN Hp. pose proof (setbit0_pos t ltac:(unfold t; lia)).
  unfold CFTValidateZeroKnowledgeProof. total.
Qed.

Lemma EC_returns N g1 g2 h1 h2 E F p : 0 < N -> 4 <= len p ->
  returns (HPAKEEqualityConstraintValidateZeroKnowledgeProof N g1 g2 h1 h2 E F p).
Proof. intros HN Hp. unfold HPAKEEqualityConstraintValidateZeroKnowledgeProof. total. Qed.

Lemma Square_returns N g h E p : 0 < N -> 5 <= len p ->
  returns (HPAKESquareValidateZeroKnowledgeProof N g h E p).
Proof.
  intros HN Hp. unfold HPAKESquareValidateZeroKnowledgeProof. total.
  apply EC_returns; [exact HN|]. apply slice_len in H0. lia.
Qed.

Lemma Tolerance_returns lo up c p : returns (ValidateProofWithTolerance lo up c p).
Proof.
  unfold ValidateProofWithTolerance. destruct (_ || _) eqn:E; [apply returns_ret|].
  b2p. apply returns_bind; [apply index_returns; lia|]. intros c0 _.
  apply returns_bind; [apply index_returns; lia|]. intros N _.
  apply returns_bind; [apply index_returns; lia|]. intros g _.
  apply returns_bind; [apply index_returns; lia|]. intros h _.
  destruct (Z.leb_spec N 0) as [HN|HN]; [apply returns_ret|].
  total;
    repeat match goal with H : slice _ _ _ = Ret _ |- _ => apply slice_len in H end;
    first [apply Square_returns | apply CFT_returns]; lia.
Qed.

(** Every call of the validator returns a verdict: no panic, and its loops end. *)
Lemma ValidateRangeProof_returns lo up c p : returns (ValidateRangeProof lo up c p).
Proof.
  unfold ValidateRangeProof. destruct (_ || _) eqn:E; [apply returns_ret|]. b2p.
  apply returns_bind; [apply index_returns; lia|]. intros c0 _.
  apply returns_bind; [apply index_returns; lia|]. intros N _.
  apply returns_bind.
  { unfold ModPow. replace (_ >=? 0) with true; [apply returns_ret|].
    symmetry. rewrite Z.geb_leb. apply Z.leb_le. unfold ShiftLeft, Multiply, setbit0.
    rewrite Z.setbit_spec', Z.lor_0_l. pose proof (Z.pow_nonneg 2 (expansion lo up)). lia. }
  intros c0' _. apply returns_bind; [apply slice_returns; lia|]. intros tl _.
  apply returns_bind; [apply Tolerance_returns|]. intros ok _. apply returns_ret.
Qed.

(** ** Powers of units *)

Section unit_powers.
Variable N : Z.
Hypothesis N_pos : 0 < N.

Lemma ModPow_zpow a e : unitm N a -> exists v, ModPow a e N = Ret v /\ v ≡[N] zpow N a e.
Proof.
  intros Ha. unfold ModPow. rewrite Z.geb_leb. destruct (Z.leb_spec 0 e) as [He|He].
  - eexists; split; [reflexivity|]. rewrite Exp_pos, mod_eqm, zpow_nonneg by lia. reflexivity.
  - unfold ModInverse. rewrite (ModInverse_inv N N_pos).
    eexists; split; [reflexivity|]. rewrite Exp_pos, Z.abs_neq by lia.
    assert (Hu : unitm N (a ^ (- e))) by (apply unit_pow; [assumption|assumption|lia]).
    transitivity (inv N (a ^ (- e))).
    + symmetry. apply inv_eqm; [assumption|exact Hu|]. symmetry. apply mod_eqm.
    + rewrite <- (zpow_nonneg N a (- e)) by lia.
      rewrite <- zpow_opp, Z.opp_involutive by assumption. reflexivity.
Qed.

Lemma DivMod_inv a b : DivMod a b N = Ret ((a * inv N b) mod N).
Proof.
  unfold DivMod, ModInverse, Mod, Multiply. rewrite (ModInverse_inv N N_pos). cbn [obind].
  apply Mod_pos, N_pos.
Qed.

End unit_powers.
