(* ===== verification/ZkProver.v ===== *)
(** * The Java prover

    The code that makes the commitments and proofs the validator checks:
    [com.ing.blockchain.zk] ([RangeProof], [TTPGenerator], its [components] and
    [util]) and the wire format of [demo/RangeproofPacket].  A method that
    throws is [None]; the random numbers it draws are arguments.  The retry
    loop of [CFT.calculateProof] takes the list of the draws of its turns and
    is [None] while no draw of the list has passed its test. *)

From Stdlib Require Import ZArith List Lia Bool Zpow_facts.
From S2P Require Import Prelude GoBig ModArith Sha256 ByteConversion ZkValidator.
Import ListNotations.
Local Open Scope Z_scope.

Notation "'let?' x ':=' m 'in' k" :=
  (match m with Some x => k | None => None end)
  (at level 10, x pattern, m at level 100, k at level 200) : go_scope.

(** ** [java.math.BigInteger] *)

Module BigInteger.

(** [b.modInverse(m)]: the inverse in [0, m); an exception when there is none. *)
Definition modInverse (b m : Z) : option Z :=
  if m <=? 0 then None
  else if Z.gcd b m =? 1 then Some (inv m b mod m) else None.

(** [b.modPow(e, m)]: a negative exponent is a power of the inverse. *)
Definition modPow (b e m : Z) : option Z :=
  if m <=? 0 then None
  else if 0 <=? e then Some (Zpow_mod b e m)
  else let? i := modInverse b m in Some (Zpow_mod i (- e) m).

(** [z.toByteArray()]: the shortest two's-complement string of [z]. *)
Definition toByteArray (z : Z) : list Z := be_bytes (Z.to_nat (tc_min_len z)) z.

(** [new BigInteger(bs)] *)
Definition ofByteArray (bs : list Z) : Z := tc_val bs.

Definition bitLength (z : Z) : Z := BitLen (if z <? 0 then - z - 1 else z).

End BigInteger.
Import BigInteger.

(** ** [util] *)

Module BigIntUtil.

(** The [while] loop of [approximateSquareRoot]. *)
Fixpoint approx_loop (fuel : nat) (input prev2 prev approx : Z) : option Z :=
  match fuel with
  | O => None
  | S fuel =>
      if negb (approx =? prev) && negb (approx =? prev2) then
        if approx =? 0 then None
        else approx_loop fuel input prev approx (Z.shiftr (Z.quot input approx + approx) 1)
      else Some approx
  end.

Definition approximateSquareRoot (input : Z) : option Z :=
  if input <? 1 then Some 0
  else approx_loop (Z.to_nat (bitLength input + 5)) input 0 0 (Z.setbit 0 (Z.quot (bitLength input) 2)).

Definition floorSquareRoot (input : Z) : option Z :=
  if input <? 0 then None
  else
    let? res := approximateSquareRoot input in
    Some (if res * res >? input then res - 1 else res).

End BigIntUtil.
Import BigIntUtil.

Module DigestUtil.

Definition calculateHash (bigIntegers : list Z) : Z :=
  ofByteArray (sha256.Sum256 (flat_map toByteArray bigIntegers)).

End DigestUtil.
Import DigestUtil.

(** ** [dto] *)

Record SecretOrderGroup := mkGroup { getN : Z; getG : Z; getH : Z }.
Record Commitment := mkCommitment { getGroup : SecretOrderGroup; getCommitmentValue : Z }.
Record TTPMessage := mkTTPMessage { getCommitment : Commitment; getX : Z; getY : Z }.
Record ClosedRange := mkRange { getStart : Z; getEnd : Z }.
Record ECProof := mkECProof { ec_c : Z; ec_D : Z; ec_D1 : Z; ec_D2 : Z }.
Record SquareProof := mkSquareProof { sq_F : Z; sq_ecProof : ECProof }.
Record CFTProof := mkCFTProof { cft_C : Z; cft_D1 : Z; cft_D2 : Z }.
Record BoudotRangeProof := mkProof {
  cLeftSquare : Z; cRightSquare : Z;
  sqrProofLeft : SquareProof; sqrProofRight : SquareProof;
  cftProofLeft : CFTProof; cftProofRight : CFTProof }.

(** [ClosedRange.contains] *)
Definition contains (r : ClosedRange) (n : Z) : bool := (getStart r <=? n) && (n <=? getEnd r).

(** ** [TTPGenerator.commit] *)

Definition commit (group : SecretOrderGroup) (valueToHide key : Z) : option Commitment :=
  let N := getN group in
  let? a := modPow (getG group) valueToHide N in
  let? b := modPow (getH group) key N in
  Some (mkCommitment group ((a * b) mod N)).

(** ** [components.CFT] *)

Module CFT.

Definition t : Z := 128.
Definition l : Z := 40.

Definition isValidD1 (D1 c b : Z) : bool := (D1 >=? c * b) && (D1 <=? 2 ^ (l + t) * b).

(** One turn of the [do] loop, with its draws [w] and [n]. *)
Definition attempt (b N g h x r w n : Z) : option (CFTProof * bool) :=
  let? gw := modPow g w N in
  let? hn := modPow h n N in
  let W := (gw * hn) mod N in
  let C := calculateHash [W] in
  let c := C mod 2 ^ t in
  let D1 := w + c * x in
  let D2 := n + c * r in
  Some (mkCFTProof C D1 D2, isValidD1 D1 c b).

Fixpoint loop (b N g h x r : Z) (draws : list (Z * Z)) : option CFTProof :=
  match draws with
  | [] => None
  | (w, n) :: draws =>
      let? (p, valid) := attempt b N g h x r w n in
      if (valid : bool) then Some p else loop b N g h x r draws
  end.

Definition calculateProof (b N g h x r : Z) (draws : list (Z * Z)) : option CFTProof :=
  if x >? b then None else loop b N g h x r draws.

Definition validateZeroKnowledgeProof (b N g h E : Z) (cftProof : CFTProof) : option unit :=
  if E =? 0 then None
  else
    let C := cft_C cftProof in
    let c := C mod 2 ^ t in
    let D1 := cft_D1 cftProof in
    let D2 := cft_D2 cftProof in
    let? a := modPow g D1 N in
    let? b' := modPow h D2 N in
    let? e := modPow E (- c) N in
    let W := (a * b' * e) mod N in
    if negb (isValidD1 D1 c b) || negb (C =? calculateHash [W]) then None else Some tt.

End CFT.

(** ** [components.HPAKEEqualityConstraint] *)

Record ECDraws := mkECDraws { dr_w : Z; dr_n1 : Z; dr_n2 : Z }.

Definition ec_calculateZeroKnowledgeProof
    (N g1 g2 h1 h2 x r1 r2 : Z) (d : ECDraws) : option ECProof :=
  let w := dr_w d in
  let? a1 := modPow g1 w N in
  let? b1 := modPow h1 (dr_n1 d) N in
  let W1 := (a1 * b1) mod N in
  let? a2 := modPow g2 w N in
  let? b2 := modPow h2 (dr_n2 d) N in
  let W2 := (a2 * b2) mod N in
  let c := calculateHash [W1; W2] in
  Some (mkECProof c (w + c * x) (dr_n1 d + c * r1) (dr_n2 d + c * r2)).

Definition ec_validateZeroKnowledgeProof
    (N g1 g2 h1 h2 E F : Z) (ecProof : ECProof) : option unit :=
  if (E =? 0) || (F =? 0) then None
  else
    let c := ec_c ecProof in
    let D := ec_D ecProof in
    let? a1 := modPow g1 D N in
    let? b1 := modPow h1 (ec_D1 ecProof) N in
    let? e1 := modPow E (- c) N in
    let W1 := (a1 * b1 * e1) mod N in
    let? a2 := modPow g2 D N in
    let? b2 := modPow h2 (ec_D2 ecProof) N in
    let? e2 := modPow F (- c) N in
    let W2 := (a2 * b2 * e2) mod N in
    if negb (c =? calculateHash [W1; W2]) then None else Some tt.

(** ** [components.HPAKESquare] *)

Record SquareDraws := mkSquareDraws { dr_r2 : Z; dr_ec : ECDraws }.

Definition sq_calculateZeroKnowledgeProof
    (N g h x r1 : Z) (d : SquareDraws) : option SquareProof :=
  let r2 := dr_r2 d in
  let r3 := r1 - r2 * x in
  let? gx := modPow g x N in
  let? hr := modPow h r2 N in
  let F := (gx * hr) mod N in
  let? ecProof := ec_calculateZeroKnowledgeProof N g F h h x r2 r3 (dr_ec d) in
  Some (mkSquareProof F ecProof).

Definition sq_validateZeroKnowledgeProof (N g h E : Z) (proof : SquareProof) : option unit :=
  let F := sq_F proof in
  ec_validateZeroKnowledgeProof N g F h h F E (sq_ecProof proof).

(** ** [components.ProofWithTolerance] *)

Record Draws := mkDraws {
  randomLS : Z; randomRS : Z;
  sqLeftDraws : SquareDraws; sqRightDraws : SquareDraws;
  cftLeftDraws : list (Z * Z); cftRightDraws : list (Z * Z) }.

Definition tolerance_calculateRangeProof
    (ttpMessage : TTPMessage) (range : ClosedRange) (d : Draws) : option BoudotRangeProof :=
  let group := getGroup (getCommitment ttpMessage) in
  let N := getN group in
  let g := getG group in
  let h := getH group in
  let a := getStart range in
  let b := getEnd range in
  let m := getX ttpMessage in
  let r := getY ttpMessage in
  (* Step 3 *)
  let? leftSquareRoot := floorSquareRoot (m - a) in
  let? rightSquareRoot := floorSquareRoot (b - m) in
  let leftSquare := leftSquareRoot * leftSquareRoot in
  let rightSquare := rightSquareRoot * rightSquareRoot in
  let leftRemaining := m - a - leftSquare in
  let rightRemaining := b - m - rightSquare in
  (* Step 4 *)
  let randomLR := r - randomLS d in
  let randomRR := - r - randomRS d in
  (* Step 5 *)
  let? gls := modPow g leftSquare N in
  let? hls := modPow h (randomLS d) N in
  let cLeftSquare := (gls * hls) mod N in
  let? grs := modPow g rightSquare N in
  let? hrs := modPow h (randomRS d) N in
  let cRightSquare := (grs * hrs) mod N in
  (* Step 7 *)
  let? sqrProofLeft :=
    sq_calculateZeroKnowledgeProof N g h leftSquareRoot (randomLS d) (sqLeftDraws d) in
  let? sqrProofRight :=
    sq_calculateZeroKnowledgeProof N g h rightSquareRoot (randomRS d) (sqRightDraws d) in
  (* Step 8 *)
  let? CFT_maxCommitment := floorSquareRoot (Z.shiftl (b - a) 2) in
  let? cftProofLeft :=
    CFT.calculateProof CFT_maxCommitment N g h leftRemaining randomLR (cftLeftDraws d) in
  let? cftProofRight :=
    CFT.calculateProof CFT_maxCommitment N g h rightRemaining randomRR (cftRightDraws d) in
  Some (mkProof cLeftSquare cRightSquare sqrProofLeft sqrProofRight cftProofLeft cftProofRight).

(** [BigIntUtil.divMod] *)
Definition divMod (a b N : Z) : option Z :=
  let? i := modInverse b N in Some ((a * i) mod N).

Definition tolerance_validateRangeProof
    (proof : BoudotRangeProof) (commitment : Commitment) (range : ClosedRange) : option unit :=
  let N := getN (getGroup commitment) in
  let g := getG (getGroup commitment) in
  let h := getH (getGroup commitment) in
  let c := getCommitmentValue commitment in
  let a := getStart range in
  let b := getEnd range in
  let cLeftSquare := cLeftSquare proof in
  let cRightSquare := cRightSquare proof in
  if (N =? 0) || (c =? 0) || (cLeftSquare =? 0) || (cRightSquare =? 0) then None
  else
    (* Step 2 *)
    let? ga := modPow g a N in
    let? cLeft := divMod c ga N in
    let? gb := modPow g b N in
    let? cRight := divMod gb c N in
    (* Step 6 *)
    let? cLeftRemaining := divMod cLeft cLeftSquare N in
    let? cRightRemaining := divMod cRight cRightSquare N in
    (* Step 7 *)
    let? _ := sq_validateZeroKnowledgeProof N g h cLeftSquare (sqrProofLeft proof) in
    let? _ := sq_validateZeroKnowledgeProof N g h cRightSquare (sqrProofRight proof) in
    (* Step 8 *)
    let? CFT_maxCommitment := floorSquareRoot (Z.shiftl (b - a) 2) in
    let? _ := CFT.validateZeroKnowledgeProof CFT_maxCommitment N g h cLeftRemaining (cftProofLeft proof) in
    CFT.validateZeroKnowledgeProof CFT_maxCommitment N g h cRightRemaining (cftProofRight proof).

(** ** [RangeProof] *)

Definition calculateRangeProof
    (ttpMessage : TTPMessage) (range : ClosedRange) (d : Draws) : option BoudotRangeProof :=
  let T := 2 * (CFT.t + CFT.l + 1) + bitLength (getEnd range - getStart range) in
  let xPrime := Z.shiftl (getX ttpMessage) T in
  let yPrime := Z.shiftl (getY ttpMessage) T in
  let group := getGroup (getCommitment ttpMessage) in
  let? cPrime := commit group xPrime yPrime in
  let ttpMessagePrime := mkTTPMessage cPrime xPrime yPrime in
  let rangePrime := mkRange (Z.shiftl (getStart range) T) (Z.shiftl (getEnd range) T) in
  tolerance_calculateRangeProof ttpMessagePrime rangePrime d.

Definition validateRangeProof
    (proof : BoudotRangeProof) (commitment : Commitment) (range : ClosedRange) : option unit :=
  let T := 2 * (CFT.t + CFT.l + 1) + bitLength (getEnd range - getStart range) in
  let group := getGroup commitment in
  let? cPrime := modPow (getCommitmentValue commitment) (Z.shiftl 1 T) (getN group) in
  let rangePrime := mkRange (Z.shiftl (getStart range) T) (Z.shiftl (getEnd range) T) in
  tolerance_validateRangeProof proof (mkCommitment group cPrime) rangePrime.

(** ** [demo.RangeproofPacket] *)

(** The numbers [exportProof] appends, in order. *)
Definition proof_numbers (p : BoudotRangeProof) : list Z :=
  let sq q := [sq_F q; ec_c (sq_ecProof q); ec_D (sq_ecProof q); ec_D1 (sq_ecProof q); ec_D2 (sq_ecProof q)] in
  let cf q := [cft_C q; cft_D1 q; cft_D2 q] in
  [cLeftSquare p; cRightSquare p] ++ sq (sqrProofLeft p) ++ sq (sqrProofRight p)
    ++ cf (cftProofLeft p) ++ cf (cftProofRight p).

Definition exportProof (p : BoudotRangeProof) : list Z := join_commas (proof_numbers p).

(** The packet: the range test, the proof, its validation, the export. *)
Definition rangeproofPacket (ttp : TTPMessage) (range : ClosedRange) (d : Draws) : option (list Z) :=
  if negb (contains range (getX ttp)) then None
  else
    let? p := calculateRangeProof ttp range d in
    let? _ := validateRangeProof p (getCommitment ttp) range in
    Some (exportProof p).
