(* ===== verification/ZkRefine.v ===== *)
(** * The Go validator accepts what the Java validator accepts

    The Java and Go implementations are used against each other: proofs are
    made and pre-checked in Java and validated on chain in Go.  The two agree
    on square roots, on the hash of non-negative numbers and, up to congruence,
    on modular powers; so a proof that passes the Java validator passes the Go
    one. *)

From Stdlib Require Import ZArith List Lia Bool Zpow_facts Setoid Morphisms.
From S2P Require Import Prelude GoBig ModArith Sha256 ByteConversion ZkValidator ZkArith ZkProver.
Import ListNotations zkrangeproof BigInteger BigIntUtil DigestUtil.
Local Open Scope Z_scope.

(** ** Square roots *)

Lemma approx_loop_go n fuel : 1 <= n -> forall prev2 prev approx, 1 <= approx ->
  approx_loop fuel n prev2 prev approx =
  match sqrt_loop fuel n prev2 prev approx with Ret r => Some r | Panic => None end.
Proof.
  intros Hn. induction fuel as [|fuel IH]; intros prev2 prev approx Ha; [reflexivity|].
  rewrite sqrt_loop_S by assumption. cbn [approx_loop].
  destruct (_ && _); [|reflexivity].
  rewrite (proj2 (Z.eqb_neq approx 0)) by lia.
  assert (E : Z.shiftr (Z.quot n approx + approx) 1 = heron n approx).
  { rewrite Z.shiftr_div_pow2, Z.quot_div_nonneg by lia. reflexivity. }
  rewrite E. apply IH. pose proof (heron_ge n Hn approx Ha).
  destruct (sqrt_bounds n Hn). lia.
Qed.

Lemma bitLength_nonneg z : 0 <= z -> bitLength z = BitLen z.
Proof. intros; unfold bitLength; decb; reflexivity. Qed.

Lemma floorSquareRoot_sqrt x : floorSquareRoot x = if x <? 0 then None else Some (Z.sqrt x).
Proof.
  unfold floorSquareRoot. destruct (Z.ltb_spec x 0) as [H|H]; [reflexivity|].
  unfold approximateSquareRoot. destruct (Z.ltb_spec x 1) as [H1|H1].
  { assert (x = 0) as -> by lia. reflexivity. }
  rewrite bitLength_nonneg by lia. pose proof (BitLen_nonneg x).
  pose proof (FloorSquareRoot_sqrt x) as E. unfold FloorSquareRoot in E.
  rewrite (proj2 (Z.ltb_ge x 0)) in E by lia. unfold setbit0 in E.
  assert (Ha : 1 <= Z.setbit 0 (Z.quot (BitLen x) 2)).
  { pose proof (setbit0_pos (Z.quot (BitLen x) 2)) as P. unfold setbit0 in P.
    rewrite Z.quot_div_nonneg in * by lia. assert (0 <= BitLen x / 2) by (apply Z.div_pos; lia). lia. }
  rewrite (approx_loop_go x _ H1 0 0 _ Ha).
  destruct (sqrt_loop _ _ _ _ _) as [r|]; [|discriminate E].
  cbn [obind] in E. injection E as E. unfold Multiply, Sub in E. rewrite E. reflexivity.
Qed.

(** ** Hashes *)

Lemma ToByteArray_val z : 0 <= z -> SetBytes (ToByteArray z) = z.
Proof.
  intros Hz. unfold ToByteArray. pose proof (SetBytes_Bytes z) as E. rewrite Z.abs_eq in E by lia.
  destruct (Bytes z) as [|h bs]; [rewrite <- E; reflexivity|].
  rewrite (proj2 (Z.ltb_ge z 0)) by lia. cbn [negb].
  destruct (_ =? 0); cbn [negb]; [exact E|]. rewrite SetBytes_cons, E. lia.
Qed.

Lemma toByteArray_go z : 0 <= z -> toByteArray z = ToByteArray z.
Proof.
  intros Hz. destruct (ToByteArray_tc z) as (_ & Hok & _).
  pose proof (be_bytes_SetBytes _ Hok) as E. rewrite ToByteArray_val in E by exact Hz.
  unfold toByteArray. rewrite <- ToByteArray_len_nonneg by exact Hz.
  unfold len. rewrite Nat2Z.id. exact E.
Qed.

Lemma calculateHash_1 W : 0 <= W -> calculateHash [W] = challenge W None.
Proof.
  intros. unfold calculateHash, challenge, ofByteArray. cbn [flat_map].
  rewrite toByteArray_go by assumption. reflexivity.
Qed.

Lemma calculateHash_2 W1 W2 : 0 <= W1 -> 0 <= W2 -> calculateHash [W1; W2] = challenge W1 (Some W2).
Proof.
  intros. unfold calculateHash, challenge, ofByteArray. cbn [flat_map].
  rewrite !toByteArray_go, app_nil_r by assumption. reflexivity.
Qed.

(** ** Modular powers and quotients *)

Section modular.
Variable N : Z.

Lemma modInverse_some b i : modInverse b N = Some i -> 0 < N /\ unitm N b /\ i = inv N b mod N.
Proof.
  unfold modInverse. destruct (Z.leb_spec N 0); [discriminate|].
  destruct (Z.eqb_spec (Z.gcd b N) 1); [|discriminate]. intros [= <-]. auto.
Qed.

Lemma modPow_pos b e v : modPow b e N = Some v -> 0 < N /\ 0 <= v < N.
Proof.
  unfold modPow. destruct (Z.leb_spec N 0); [discriminate|].
  destruct (0 <=? e).
  - intros [= <-]. rewrite Zpow_mod_correct by lia. split; [lia|apply Z.mod_pos_bound; lia].
  - destruct (modInverse b N); [|discriminate]. intros [= <-].
    rewrite Zpow_mod_correct by lia. split; [lia|apply Z.mod_pos_bound; lia].
Qed.

Lemma modPow_go b e v :
  modPow b e N = Some v -> exists v', ModPow b e N = Ret v' /\ v' ≡[N] v.
Proof.
  intros H. pose proof (modPow_pos _ _ _ H) as [HN _]. unfold modPow in H.
  destruct (Z.leb_spec N 0); [lia|]. destruct (Z.leb_spec 0 e) as [He|He].
  - injection H as <-. unfold ModPow. rewrite Z.geb_leb. decb.
    eexists; split; [reflexivity|]. rewrite Exp_pos, Zpow_mod_correct by lia. reflexivity.
  - destruct (modInverse b N) as [i|] eqn:Ei; [|discriminate]. injection H as <-.
    destruct (modInverse_some _ _ Ei) as (_ & Hu & ->).
    destruct (ModPow_zpow N HN b e Hu) as (v' & E & C). exists v'. split; [exact E|].
    rewrite C, Zpow_mod_correct by lia. unfold zpow. decb. rewrite !mod_eqm. reflexivity.
Qed.

Lemma modPow_go_nonneg b e v : 0 <= e -> modPow b e N = Some v -> ModPow b e N = Ret v.
Proof.
  intros He H. pose proof (modPow_pos _ _ _ H) as [HN _]. unfold modPow in H. unfold ModPow.
  rewrite (proj2 (Z.leb_gt N 0)), (proj2 (Z.leb_le 0 e)) in H by lia. injection H as <-.
  rewrite Z.geb_leb, (proj2 (Z.leb_le 0 e)), Exp_pos, Zpow_mod_correct by lia. reflexivity.
Qed.

Lemma divMod_go a a' b b' v :
  divMod a b N = Some v -> a' ≡[N] a -> b' ≡[N] b -> DivMod a' b' N = Ret v.
Proof.
  unfold divMod. intros H Ca Cb. destruct (modInverse b N) as [i|] eqn:Ei; [|discriminate].
  injection H as <-. destruct (modInverse_some _ _ Ei) as (HN & Hu & ->).
  rewrite DivMod_inv by exact HN. f_equal. apply eqm_mod.
  rewrite Ca, mod_eqm. apply mul_eqm; [reflexivity|].
  symmetry. apply inv_eqm; [exact HN|exact Hu|symmetry; exact Cb].
Qed.

Lemma mul3_mod a a' b b' c c' :
  a ≡[N] a' -> b ≡[N] b' -> c ≡[N] c' -> (a * b * c) mod N = (a' * b' * c') mod N.
Proof. intros Ha Hb Hc. apply eqm_mod. rewrite Ha, Hb, Hc. reflexivity. Qed.

End modular.

(** ** The three proofs of knowledge *)

Ltac java_split H :=
  repeat match type of H with
  | (if ?b then None else _) = Some _ => destruct b eqn:?; [discriminate H|]
  | (match ?m with Some _ => _ | None => None end) = Some _ =>
      destruct m eqn:?; [|discriminate H]
  end.

(** Replace each Go power by a number congruent to the Java one. *)
Ltac go_pows :=
  repeat match goal with
  | H : modPow ?b ?e ?N = Some ?v |- _ =>
      let v' := fresh "v" in let E := fresh "E" in let C := fresh "C" in
      pose proof (modPow_pos _ _ _ _ H) as [? ?];
      destruct (modPow_go _ _ _ _ H) as (v' & E & C); clear H
  end.

(** Read the elements of a concrete list. *)
Ltac go_index :=
  repeat match goal with
  | |- context [index ?l ?k] => rewrite (index_nth l k _ eq_refl eq_refl)
  end; cbn [obind].

(** Cut a concrete list at concrete bounds. *)
Ltac go_slice :=
  rewrite !slice_ret by (cbn; lia);
  repeat match goal with
  | |- context [Z.to_nat ?z] => let n := eval cbv in (Z.to_nat z) in change (Z.to_nat z) with n
  end; cbn [obind firstn skipn].

(** Use the known results of the calls of the goal. *)
Ltac go_rets :=
  repeat match goal with
  | H : ?m = Ret _ |- context [obind ?m _] => rewrite H; cbn [obind negb]
  end.

Lemma cft_refines b N g h E p :
  CFT.validateZeroKnowledgeProof b N g h E p = Some tt ->
  CFTValidateZeroKnowledgeProof b N g h E [cft_C p; cft_D1 p; cft_D2 p] = Ret true.
Proof.
  unfold CFT.validateZeroKnowledgeProof, CFTValidateZeroKnowledgeProof. cbv zeta.
  change (setbit0 t) with (2 ^ CFT.t). intros H. java_split H. go_pows.
  go_index. unfold Mod. rewrite Mod_pos by (apply Z.pow_pos_nonneg; unfold CFT.t; lia). cbn [obind].
  unfold Multiply. replace (cft_C p mod 2 ^ CFT.t * -1) with (- (cft_C p mod 2 ^ CFT.t)) by ring.
  rewrite E0, E1, E2. cbn [obind]. rewrite Mod_pos by lia. cbn [obind].
  rewrite CalculateHash_challenge. cbn [obind]. b2p.
  rewrite (mul3_mod N v1 z v0 z0 v z1) by assumption.
  rewrite calculateHash_1 in * by (apply Z.mod_pos_bound; lia).
  match goal with Hc : cft_C p = challenge _ _ |- _ => rewrite <- Hc, Z.eqb_refl end.
  unfold CFT.isValidD1 in *. b2p.
  change (setbit0 (t + l)) with (2 ^ (CFT.l + CFT.t)). rewrite Z.geb_leb. decb. reflexivity.
Qed.

Lemma ec_refines N g1 g2 h1 h2 E F p :
  ec_validateZeroKnowledgeProof N g1 g2 h1 h2 E F p = Some tt ->
  HPAKEEqualityConstraintValidateZeroKnowledgeProof N g1 g2 h1 h2 E F
    [ec_c p; ec_D p; ec_D1 p; ec_D2 p] = Ret true.
Proof.
  unfold ec_validateZeroKnowledgeProof, HPAKEEqualityConstraintValidateZeroKnowledgeProof. cbv zeta.
  intros H. java_split H. go_pows. go_index.
  unfold Multiply. replace (ec_c p * -1) with (- ec_c p) by ring.
  rewrite E0, E1, E2, E3, E4, E5. cbn [obind]. unfold Mod. rewrite !Mod_pos by lia. cbn [obind].
  rewrite CalculateHash_challenge. cbn [obind]. b2p.
  rewrite (mul3_mod N v4 z v3 z0 v2 z1), (mul3_mod N v1 z2 v0 z3 v z4) by assumption.
  rewrite calculateHash_2 in * by (apply Z.mod_pos_bound; lia).
  match goal with Hc : ec_c p = challenge _ _ |- _ => rewrite <- Hc, Z.eqb_refl end. reflexivity.
Qed.

Lemma sq_refines N g h E p :
  sq_validateZeroKnowledgeProof N g h E p = Some tt ->
  HPAKESquareValidateZeroKnowledgeProof N g h E
    [sq_F p; ec_c (sq_ecProof p); ec_D (sq_ecProof p); ec_D1 (sq_ecProof p); ec_D2 (sq_ecProof p)] = Ret true.
Proof.
  unfold sq_validateZeroKnowledgeProof, HPAKESquareValidateZeroKnowledgeProof. intros H.
  go_index. rewrite slice_ret by (cbn; lia). cbn [obind]. apply ec_refines. exact H.
Qed.

(** ** The range proof *)

Lemma ShiftLeft_shiftl a T : 0 <= T -> ShiftLeft a T = Z.shiftl a T.
Proof. intros. unfold ShiftLeft, Multiply. rewrite setbit0_pow, Z.shiftl_mul_pow2 by assumption. ring. Qed.

Definition commitment_numbers (c : Commitment) : list Z :=
  [getCommitmentValue c; getN (getGroup c); getG (getGroup c); getH (getGroup c)].

Lemma tolerance_refines p c range :
  tolerance_validateRangeProof p c range = Some tt ->
  getStart range <= getEnd range /\
  ValidateProofWithTolerance (getStart range) (getEnd range) (commitment_numbers c) (proof_numbers p) = Ret true.
Proof.
  unfold tolerance_validateRangeProof. cbv zeta. intros H. java_split H.
  rewrite floorSquareRoot_sqrt, Z.shiftl_mul_pow2 in * by lia.
  repeat match goal with E : (if ?b then None else Some _) = Some _ |- _ =>
    destruct b eqn:?; [discriminate E|]; injection E as <- end.
  go_pows. unfold ValidateProofWithTolerance, commitment_numbers, proof_numbers.
  cbn [app]. go_index.
  match goal with |- context [if ?b then Ret false else _] => change b with false end. cbv iota.
  go_slice. decb.
  rewrite E, E0. cbn [obind].
  repeat match goal with Hd : divMod _ _ _ = Some _ |- _ =>
    rewrite (divMod_go _ _ _ _ _ _ Hd); [clear Hd; cbn [obind] | assumption || reflexivity ..] end.
  repeat match goal with u : unit |- _ => destruct u end.
  repeat match goal with Hs : sq_validateZeroKnowledgeProof _ _ _ _ _ = Some _ |- _ =>
    apply sq_refines in Hs end.
  repeat match goal with Hs : CFT.validateZeroKnowledgeProof _ _ _ _ _ _ = Some _ |- _ =>
    apply cft_refines in Hs end.
  split; [b2p; lia|].
  rewrite FloorSquareRoot_sqrt, ShiftLeft_shiftl, Z.shiftl_mul_pow2 by lia. unfold Sub.
  change (Z.pow_pos 2 2) with (2 ^ 2) in *. go_rets. reflexivity.
Qed.

(** Every proof the Java validator accepts, the Go validator accepts. *)
Lemma validate_go p c range :
  validateRangeProof p c range = Some tt ->
  exists c', ValidateRangeProof (getStart range) (getEnd range)
               (commitment_numbers c) (proof_numbers p) = Ret (true, c').
Proof.
  unfold validateRangeProof. cbv zeta. intros H. java_split H.
  set (T := 2 * (CFT.t + CFT.l + 1) + bitLength (getEnd range - getStart range)) in *.
  destruct (tolerance_refines _ _ _ H) as [Hle Ht]. cbn [getStart getEnd] in Hle, Ht.
  assert (HT : 0 <= T).
  { unfold T, bitLength, CFT.t, CFT.l. pose proof (BitLen_nonneg (getEnd range - getStart range)).
    pose proof (BitLen_nonneg (- (getEnd range - getStart range) - 1)). split_match; lia. }
  rewrite !Z.shiftl_mul_pow2 in Hle by exact HT.
  assert (Hle' : getStart range <= getEnd range)
    by (pose proof (Z.pow_pos_nonneg 2 T); nia).
  assert (E : ModPow (getCommitmentValue c) (Z.shiftl 1 T) (getN (getGroup c)) = Ret z)
    by (apply modPow_go_nonneg; [apply Z.shiftl_nonneg; lia | assumption]).
  unfold ValidateRangeProof. change (len (commitment_numbers c) <? 4) with false.
  change (len (proof_numbers p) <? 18) with false. cbv iota. cbn [orb]. cbv zeta.
  replace (expansion (getStart range) (getEnd range)) with T
    by (unfold T; rewrite bitLength_nonneg by lia; reflexivity).
  rewrite !ShiftLeft_shiftl by exact HT.
  unfold commitment_numbers in *. go_index. rewrite E. cbn [obind]. go_slice.
  cbn [getCommitmentValue getGroup] in Ht. rewrite Ht. eexists; reflexivity.
Qed.
