(* ===== verification/ZkSpec.v ===== *)
(** * Completeness: an honest prover convinces the validator

    Commitments [E = g^x h^r] in the group of units modulo [N]; each proof of
    knowledge the Java prover makes for the numbers inside a commitment passes
    the Java checks, hence (see [ZkRefine]) the Go ones; the prover itself
    always produces a proof when the number is in the range. *)

From Stdlib Require Import ZArith List Lia Bool Zpow_facts Setoid Morphisms.
From S2P Require Import Prelude GoBig ModArith Sha256 ByteConversion ZkValidator ZkArith ZkProver ZkRefine.
Import ListNotations zkrangeproof BigInteger BigIntUtil DigestUtil.
Local Open Scope Z_scope.

(** [E] commits to [x] with the key [r]. *)
Definition commits (N g h x r E : Z) : Prop := E ≡[N] zpow N g x * zpow N h r.

Section group.
Variable N : Z.
Hypothesis N_gt1 : 1 < N.

Let N_pos : 0 < N.
Proof. lia. Qed.

Lemma modPow_unit a e : unitm N a ->
  exists v, modPow a e N = Some v /\ v ≡[N] zpow N a e /\ 0 <= v < N.
Proof.
  intros Ha.
  assert (Hs : exists v, modPow a e N = Some v).
  { unfold modPow. rewrite (proj2 (Z.leb_gt N 0)) by lia. destruct (0 <=? e); [eauto|].
    unfold modInverse. rewrite (proj2 (Z.leb_gt N 0)) by lia.
    unfold unitm in Ha. rewrite Ha. cbn. eauto. }
  destruct Hs as [v Hv]. exists v. split; [exact Hv|].
  pose proof (modPow_pos _ _ _ _ Hv) as [_ Hr]. split; [|exact Hr].
  destruct (modPow_go _ _ _ _ Hv) as (v' & E & C).
  destruct (ModPow_zpow N N_pos a e Ha) as (v'' & E' & C').
  rewrite E in E'. injection E' as <-. rewrite <- C. exact C'.
Qed.

Lemma unit_nonzero a : unitm N a -> a <> 0.
Proof. intros Ha ->. unfold unitm in Ha. rewrite Z.gcd_0_l, Z.abs_eq in Ha; lia. Qed.

Lemma divMod_unit a b : unitm N b -> exists v, divMod a b N = Some v /\ v ≡[N] a * inv N b.
Proof.
  intros Hb. unfold divMod, modInverse. rewrite (proj2 (Z.leb_gt N 0)) by lia.
  unfold unitm in Hb. rewrite Hb. cbn. eexists; split; [reflexivity|].
  rewrite !mod_eqm. reflexivity.
Qed.

(** Products, powers and quotients of commitments are commitments. *)
Section bases.
Variables g h : Z.
Hypothesis g_unit : unitm N g.
Hypothesis h_unit : unitm N h.

Lemma commits_unit x r E : commits N g h x r E -> unitm N E.
Proof.
  intros H. apply unit_eqm with (zpow N g x * zpow N h r); [exact N_pos| |symmetry; exact H].
  apply unit_mul; auto using unit_zpow.
Qed.

Lemma commits_pow x r E e F :
  commits N g h x r E -> F ≡[N] zpow N E e -> commits N g h (x * e) (r * e) F.
Proof.
  intros HE HF. unfold commits. rewrite HF.
  rewrite (zpow_base N N_pos E _ e (commits_unit _ _ _ HE) HE).
  rewrite zpow_mul_base, !zpow_zpow by auto using unit_zpow. reflexivity.
Qed.

Lemma commits_div x r E y s F Q :
  commits N g h x r E -> commits N g h y s F -> Q ≡[N] E * inv N F -> commits N g h (x - y) (r - s) Q.
Proof.
  intros HE HF HQ. pose proof (commits_unit _ _ _ HF) as UF. unfold commits in *. rewrite HQ, HE.
  rewrite (inv_eqm N N_pos F _ UF HF), inv_mul by auto using unit_zpow.
  rewrite <- !zpow_opp by assumption. unfold Z.sub. rewrite !zpow_add by assumption. mod_ring N.
Qed.

Lemma commits_g e F : F ≡[N] zpow N g e -> commits N g h e 0 F.
Proof. intros H. unfold commits. rewrite H, zpow_0. mod_ring N. Qed.

Lemma commits_mul gx hr x r : gx ≡[N] zpow N g x -> hr ≡[N] zpow N h r -> commits N g h x r ((gx * hr) mod N).
Proof. intros H1 H2. unfold commits. rewrite mod_eqm, H1, H2. reflexivity. Qed.

(** What the verifier recomputes from the responses is what the prover hashed. *)
Lemma responses_cancel c w n x r E a b e W :
  commits N g h x r E ->
  a ≡[N] zpow N g (w + c * x) -> b ≡[N] zpow N h (n + c * r) -> e ≡[N] zpow N E (- c) ->
  W ≡[N] zpow N g w * zpow N h n -> (a * b * e) mod N = W mod N.
Proof.
  intros HE Ha Hb He HW. apply eqm_mod. pose proof (commits_pow _ _ _ _ _ HE He) as P. unfold commits in P. rewrite Ha, Hb, HW, P.
  rewrite !zpow_add by assumption.
  replace (c * x) with (- (x * - c)) by ring. replace (c * r) with (- (r * - c)) by ring.
  rewrite !zpow_opp by assumption.
  transitivity (zpow N g w * zpow N h n * (inv N (zpow N g (x * - c)) * zpow N g (x * - c))
                 * (inv N (zpow N h (r * - c)) * zpow N h (r * - c))); [mod_ring N|].
  rewrite !inv_l by auto using unit_zpow. mod_ring N.
Qed.

End bases.
End group.

(** ** The proofs of knowledge *)

(** Compute the next power of the goal, whose base is a unit. *)
Ltac java_pow N1 :=
  match goal with
  | |- context [modPow ?a ?e ?N] =>
      let v := fresh "v" in let Q := fresh "Q" in let C := fresh "C" in let R := fresh "R" in
      destruct (modPow_unit N N1 a e ltac:(eauto 3 using commits_unit)) as (v & Q & C & R);
      rewrite !Q
  end.

#[local] Opaque calculateHash.

Section knowledge.
Variable N : Z.
Hypothesis N_gt1 : 1 < N.

Lemma ec_complete g1 g2 h1 h2 x r1 r2 d E F :
  unitm N g1 -> unitm N g2 -> unitm N h1 -> unitm N h2 ->
  commits N g1 h1 x r1 E -> commits N g2 h2 x r2 F ->
  exists p, ec_calculateZeroKnowledgeProof N g1 g2 h1 h2 x r1 r2 d = Some p /\
            ec_validateZeroKnowledgeProof N g1 g2 h1 h2 E F p = Some tt.
Proof.
  intros Hg1 Hg2 Hh1 Hh2 HE HF.
  pose proof (commits_unit N N_gt1 g1 h1 Hg1 Hh1 _ _ _ HE) as UE.
  pose proof (commits_unit N N_gt1 g2 h2 Hg2 Hh2 _ _ _ HF) as UF.
  unfold ec_calculateZeroKnowledgeProof. cbv zeta. do 4 java_pow N_gt1.
  eexists; split; [reflexivity|].
  unfold ec_validateZeroKnowledgeProof. cbn [ec_c ec_D ec_D1 ec_D2]. cbv zeta.
  rewrite (proj2 (Z.eqb_neq E 0)), (proj2 (Z.eqb_neq F 0)) by eauto using unit_nonzero. cbn [orb].
  set (c := calculateHash _). do 6 java_pow N_gt1.
  rewrite (responses_cancel N N_gt1 g1 h1 Hg1 Hh1 c (dr_w d) (dr_n1 d) x r1 E v3 v4 v5 (v * v0))
    by (assumption || (rewrite C, C0; reflexivity)).
  rewrite (responses_cancel N N_gt1 g2 h2 Hg2 Hh2 c (dr_w d) (dr_n2 d) x r2 F v6 v7 v8 (v1 * v2))
    by (assumption || (rewrite C1, C2; reflexivity)).
  unfold c. rewrite Z.eqb_refl. reflexivity.
Qed.

Section bases2.
Variables g h : Z.
Hypothesis g_unit : unitm N g.
Hypothesis h_unit : unitm N h.

Lemma sq_complete x r1 d E :
  commits N g h (x * x) r1 E ->
  exists p, sq_calculateZeroKnowledgeProof N g h x r1 d = Some p /\
            sq_validateZeroKnowledgeProof N g h E p = Some tt.
Proof.
  intros HE. unfold sq_calculateZeroKnowledgeProof. cbv zeta. do 2 java_pow N_gt1.
  set (F := (v * v0) mod N).
  assert (HF : commits N g h x (dr_r2 d) F) by (apply commits_mul; assumption).
  pose proof (commits_unit N N_gt1 g h g_unit h_unit _ _ _ HF) as UF.
  destruct (ec_complete g F h h x (dr_r2 d) (r1 - dr_r2 d * x) (dr_ec d) F E) as (p & -> & V);
    try assumption.
  - pose proof (commits_pow N N_gt1 g h g_unit h_unit _ _ _ x _ HF ltac:(reflexivity)) as P.
    unfold commits in *. rewrite HE, P, <- Z.mul_assoc, <- zpow_add by (lia || assumption).
    replace (dr_r2 d * x + (r1 - dr_r2 d * x)) with r1 by ring. reflexivity.
  - eexists; split; [reflexivity|exact V].
Qed.

Lemma some_pair {A B : Type} (a a' : A) (b b' : B) : Some (a, b) = Some (a', b') -> a = a' /\ b = b'.
Proof. intros H. inversion H. auto. Qed.

Lemma attempt_complete b x r w n E p :
  commits N g h x r E -> CFT.attempt b N g h x r w n = Some (p, true) ->
  CFT.validateZeroKnowledgeProof b N g h E p = Some tt.
Proof.
  intros HE. pose proof (commits_unit N N_gt1 g h g_unit h_unit _ _ _ HE) as UE.
  unfold CFT.attempt. cbv zeta. do 2 java_pow N_gt1. set (C' := calculateHash _).
  intros H. apply some_pair in H as [<- HD].
  unfold CFT.validateZeroKnowledgeProof. cbn [cft_C cft_D1 cft_D2]. cbv zeta.
  rewrite (proj2 (Z.eqb_neq E 0)) by eauto using unit_nonzero.
  do 3 java_pow N_gt1. rewrite HD. cbn [negb orb].
  rewrite (responses_cancel N N_gt1 g h g_unit h_unit (C' mod 2 ^ CFT.t) w n x r E v1 v2 v3 (v * v0))
    by (assumption || (rewrite C, C0; reflexivity)).
  unfold C'. rewrite Z.eqb_refl. reflexivity.
Qed.

(** A turn of the loop succeeds unless its draw is near an end of the interval. *)
Definition good_draw (b w : Z) : Prop := b * 2 ^ CFT.t <= w <= b * 2 ^ (CFT.l + CFT.t) - b * 2 ^ CFT.t.

Lemma attempt_good b x r w n : 0 <= x <= b -> good_draw b w ->
  exists p, CFT.attempt b N g h x r w n = Some (p, true).
Proof.
  intros Hx [Hl Hu]. unfold CFT.attempt. cbv zeta. do 2 java_pow N_gt1.
  eexists. do 2 f_equal. unfold CFT.isValidD1. set (c := _ mod 2 ^ CFT.t).
  assert (Hc : 0 <= c < 2 ^ CFT.t) by (apply Z.mod_pos_bound; reflexivity).
  rewrite Z.geb_leb. apply andb_true_intro. split; apply Z.leb_le; nia.
Qed.

Lemma cft_loop_complete b x r draws E : commits N g h x r E -> 0 <= x <= b ->
  Exists (fun d => good_draw b (fst d)) draws ->
  exists p, CFT.loop b N g h x r draws = Some p /\ CFT.validateZeroKnowledgeProof b N g h E p = Some tt.
Proof.
  intros HE Hx. induction draws as [|[w n] draws IH]; intros Hd; [inversion Hd|].
  cbn [CFT.loop]. destruct (CFT.attempt b N g h x r w n) as [[p [|]]|] eqn:A.
  - exists p. split; [reflexivity|]. eapply attempt_complete; eassumption.
  - apply IH. inversion Hd as [? ? G|? ? G]; [|exact G]. exfalso.
    destruct (attempt_good b x r w n Hx G) as [q Hq]. rewrite A in Hq. discriminate Hq.
  - exfalso. revert A. unfold CFT.attempt. cbv zeta. do 2 java_pow N_gt1. discriminate.
Qed.

Lemma cft_complete b x r draws E : commits N g h x r E -> 0 <= x <= b ->
  Exists (fun d => good_draw b (fst d)) draws ->
  exists p, CFT.calculateProof b N g h x r draws = Some p /\
            CFT.validateZeroKnowledgeProof b N g h E p = Some tt.
Proof.
  intros HE Hx Hd. unfold CFT.calculateProof. rewrite Z.gtb_ltb, (proj2 (Z.ltb_ge b x)) by lia.
  apply cft_loop_complete; assumption.
Qed.

End bases2.
End knowledge.

(** ** The range proof *)

Lemma remaining_bound x y : 0 <= x <= y -> 0 <= x - Z.sqrt x * Z.sqrt x <= Z.sqrt (y * 2 ^ 2).
Proof.
  intros [H0 H1]. pose proof (Z.sqrt_spec x H0) as [Hl Hu]. pose proof (Z.sqrt_nonneg x).
  split; [lia|]. transitivity (2 * Z.sqrt x); [lia|].
  apply Z.sqrt_le_square; nia.
Qed.

Lemma floorSquareRoot_nonneg x : 0 <= x -> floorSquareRoot x = Some (Z.sqrt x).
Proof. intros. rewrite floorSquareRoot_sqrt. decb. reflexivity. Qed.

(** A group a trusted party may hand out. *)
Definition good_group (G : SecretOrderGroup) : Prop :=
  1 < getN G /\ unitm (getN G) (getG G) /\ unitm (getN G) (getH G).

(** Draws that end the retry loops for a range of the given width. *)
Definition good_draws (width : Z) (d : Draws) : Prop :=
  let good := Exists (fun wn => good_draw (Z.sqrt (width * 2 ^ 2)) (fst wn)) in
  good (cftLeftDraws d) /\ good (cftRightDraws d).

(** Compute the next quotient of the goal, whose divisor is a unit. *)
Ltac java_div N1 :=
  match goal with
  | |- context [divMod ?a ?b ?N] =>
      let v := fresh "q" in let Q := fresh "Q" in let C := fresh "CQ" in
      destruct (divMod_unit N N1 a b ltac:(eauto 3 using commits_unit)) as (v & Q & C); rewrite !Q
  end.

Section tolerance.
Variables (G : SecretOrderGroup) (c c0 m r a b : Z) (d : Draws).
Hypothesis G_ok : good_group G.
Hypothesis c_commits : commits (getN G) (getG G) (getH G) m r c.
Hypothesis m_range : a <= m <= b.
Hypothesis d_ok : good_draws (b - a) d.

Local Abbreviation N := (getN G).
Local Abbreviation g := (getG G).
Local Abbreviation h := (getH G).

(** Steps 2 and 6: the commitments to the remainders, as the validator derives them. *)
Lemma quotients sl rl cl sr rr cr :
  commits N g h sl rl cl -> commits N g h sr rr cr ->
  exists ga cLeft gb cRight cLR cRR,
    modPow g a N = Some ga /\ divMod c ga N = Some cLeft /\
    modPow g b N = Some gb /\ divMod gb c N = Some cRight /\
    divMod cLeft cl N = Some cLR /\ divMod cRight cr N = Some cRR /\
    commits N g h (m - a - sl) (r - rl) cLR /\ commits N g h (b - m - sr) (- r - rr) cRR.
Proof.
  intros HL HR. destruct G_ok as (N1 & Ug & Uh).
  pose proof (commits_unit N N1 g h Ug Uh) as U.
  destruct (modPow_unit N N1 g a Ug) as (ga & Qa & Ca & _).
  destruct (modPow_unit N N1 g b Ug) as (gb & Qb & Cb & _).
  pose proof (commits_g N g h a ga Ca) as Ha. pose proof (commits_g N g h b gb Cb) as Hb.
  destruct (divMod_unit N N1 c ga (U _ _ _ Ha)) as (cLeft & Ql & Cl).
  destruct (divMod_unit N N1 gb c (U _ _ _ c_commits)) as (cRight & Qr & Cr).
  destruct (divMod_unit N N1 cLeft cl (U _ _ _ HL)) as (cLR & QL & CL).
  destruct (divMod_unit N N1 cRight cr (U _ _ _ HR)) as (cRR & QR & CR).
  pose proof (commits_div N N1 g h Ug Uh) as D.
  exists ga, cLeft, gb, cRight, cLR, cRR. do 6 (split; [assumption|]). split.
  - replace (r - rl) with (r - 0 - rl) by ring. eauto.
  - replace (- r - rr) with (0 - r - rr) by ring. eauto.
Qed.

Lemma tolerance_complete :
  exists p, tolerance_calculateRangeProof (mkTTPMessage (mkCommitment G c0) m r) (mkRange a b) d = Some p /\
            tolerance_validateRangeProof p (mkCommitment G c) (mkRange a b) = Some tt.
Proof.
  destruct G_ok as (N1 & Ug & Uh). destruct d_ok as [DL DR].
  pose proof (commits_unit N N1 g h Ug Uh _ _ _ c_commits) as Uc.
  unfold tolerance_calculateRangeProof. cbn [getGroup getCommitment getStart getEnd getX getY]. cbv zeta.
  rewrite !floorSquareRoot_nonneg by (rewrite ?Z.shiftl_mul_pow2 by lia; lia).
  set (sl := Z.sqrt (m - a)). set (sr := Z.sqrt (b - m)). rewrite Z.shiftl_mul_pow2 by lia.
  do 4 java_pow N1.
  set (cl := (v * v0) mod N). set (cr := (v1 * v2) mod N).
  assert (HL : commits N g h (sl * sl) (randomLS d) cl) by (apply commits_mul; assumption).
  assert (HR : commits N g h (sr * sr) (randomRS d) cr) by (apply commits_mul; assumption).
  pose proof (commits_unit N N1 g h Ug Uh _ _ _ HL) as UL.
  pose proof (commits_unit N N1 g h Ug Uh _ _ _ HR) as UR.
  destruct (sq_complete N N1 g h Ug Uh _ _ (sqLeftDraws d) _ HL) as (pl & -> & VL).
  destruct (sq_complete N N1 g h Ug Uh _ _ (sqRightDraws d) _ HR) as (pr & -> & VR).
  destruct (quotients _ _ _ _ _ _ HL HR)
    as (ga & cLeft & gb & cRight & cLR & cRR & E1 & E2 & E3 & E4 & E5 & E6 & HLR & HRR).
  destruct (cft_complete N N1 g h Ug Uh (Z.sqrt ((b - a) * 2 ^ 2)) _ _ (cftLeftDraws d) _ HLR)
    as (fl & -> & WL); [apply remaining_bound; lia|exact DL|].
  destruct (cft_complete N N1 g h Ug Uh (Z.sqrt ((b - a) * 2 ^ 2)) _ _ (cftRightDraws d) _ HRR)
    as (fr & -> & WR); [apply remaining_bound; lia|exact DR|].
  eexists; split; [reflexivity|]. unfold tolerance_validateRangeProof.
  cbn [getGroup getCommitmentValue getStart getEnd cLeftSquare cRightSquare sqrProofLeft sqrProofRight
       cftProofLeft cftProofRight]. cbv zeta.
  rewrite (proj2 (Z.eqb_neq N 0)), (proj2 (Z.eqb_neq c 0)), (proj2 (Z.eqb_neq cl 0)),
    (proj2 (Z.eqb_neq cr 0)) by (lia || eauto using unit_nonzero). cbn [orb].
  rewrite E1, E2, E3, E4, E5, E6, VL, VR, Z.shiftl_mul_pow2, floorSquareRoot_nonneg, WL by lia.
  exact WR.
Qed.

End tolerance.

(** The commitment to the expanded number, from both sides. *)
Lemma commit_some G x y : good_group G ->
  exists v, commit G x y = Some (mkCommitment G v) /\ commits (getN G) (getG G) (getH G) x y v.
Proof.
  intros (N1 & Ug & Uh). unfold commit. cbv zeta. do 2 java_pow N1.
  eexists; split; [reflexivity|]. apply commits_mul; assumption.
Qed.

Definition expansion_of (range : ClosedRange) : Z :=
  2 * (CFT.t + CFT.l + 1) + bitLength (getEnd range - getStart range).

Lemma expansion_of_nonneg range : 0 <= expansion_of range.
Proof.
  unfold expansion_of, bitLength, CFT.t, CFT.l.
  match goal with |- context [BitLen ?z] => pose proof (BitLen_nonneg z) end. lia.
Qed.

(** For a number in the range the prover makes a proof and the packet is exported. *)
Lemma packet_complete G x y C range d :
  good_group G -> commit G x y = Some C -> contains range x = true ->
  good_draws ((getEnd range - getStart range) * 2 ^ expansion_of range) d ->
  exists p, calculateRangeProof (mkTTPMessage C x y) range d = Some p /\
            validateRangeProof p C range = Some tt /\
            rangeproofPacket (mkTTPMessage C x y) range d = Some (exportProof p).
Proof.
  intros HG HC Hx Hd. pose proof HG as (N1 & Ug & Uh). pose proof (expansion_of_nonneg range) as HT.
  destruct (commit_some G x y HG) as (v & E & Hv). rewrite E in HC. injection HC as <-.
  set (T := expansion_of range) in *.
  unfold rangeproofPacket, calculateRangeProof, validateRangeProof.
  cbn [getGroup getCommitment getX getY getCommitmentValue]. cbv zeta.
  change (2 * (CFT.t + CFT.l + 1) + bitLength (getEnd range - getStart range)) with T.
  rewrite Hx. cbn [negb].
  destruct (commit_some G (Z.shiftl x T) (Z.shiftl y T) HG) as (w & -> & _).
  destruct (modPow_unit _ N1 v (Z.shiftl 1 T) (commits_unit _ N1 _ _ Ug Uh _ _ _ Hv)) as (v' & -> & Cv & _).
  rewrite !Z.shiftl_mul_pow2 in * by exact HT. rewrite Z.mul_1_l in Cv.
  unfold contains in Hx. b2p.
  destruct (tolerance_complete G v' w (x * 2 ^ T) (y * 2 ^ T) (getStart range * 2 ^ T) (getEnd range * 2 ^ T) d)
    as (p & P1 & P2); [exact HG| | | |].
  - eapply commits_pow; eassumption.
  - pose proof (Z.pow_pos_nonneg 2 T). nia.
  - rewrite <- Z.mul_sub_distr_r. exact Hd.
  - exists p. rewrite P1, P2. auto.
Qed.

(** * What the Go validator checks

    The verification equations of the range proof in the group of units modulo
    [N] (Boudot's scheme made non-interactive with SHA-256), and the theorem
    that the validator accepts exactly the proofs that satisfy them. *)

Import ListNotations zkrangeproof.

(** ** The equations *)

(** A committed number is small: the proof of Chan, Frankel and Tsiounis. *)
Definition cft_spec (N g h b E : Z) (p : CFTProof) : Prop :=
  let c := cft_C p mod 2 ^ t in
  cft_C p = challenge ((zpow N g (cft_D1 p) * zpow N h (cft_D2 p) * zpow N E (- c)) mod N) None /\
  b * c <= cft_D1 p <= b * 2 ^ (t + l).

(** Two commitments hide the same number. *)
Definition ec_spec (N g1 g2 h1 h2 E F : Z) (p : ECProof) : Prop :=
  ec_c p = challenge
    ((zpow N g1 (ec_D p) * zpow N h1 (ec_D1 p) * zpow N E (- ec_c p)) mod N)
    (Some ((zpow N g2 (ec_D p) * zpow N h2 (ec_D2 p) * zpow N F (- ec_c p)) mod N)).

(** A committed number is a square. *)
Definition sq_spec (N g h E : Z) (p : SquareProof) : Prop :=
  ec_spec N g (sq_F p) h h (sq_F p) E (sq_ecProof p).

(** [c] commits to a number of [lo, up], up to the tolerance of the proofs. *)
Definition range_spec (N g h c lo up : Z) (p : BoudotRangeProof) : Prop :=
  let b := Z.sqrt (4 * (up - lo)) in
  sq_spec N g h (cLeftSquare p) (sqrProofLeft p) /\
  sq_spec N g h (cRightSquare p) (sqrProofRight p) /\
  cft_spec N g h b (c * zpow N g (- lo) * inv N (cLeftSquare p)) (cftProofLeft p) /\
  cft_spec N g h b (zpow N g up * inv N c * inv N (cRightSquare p)) (cftProofRight p).

Local Abbreviation numbers_ec p := [ec_c p; ec_D p; ec_D1 p; ec_D2 p].
Local Abbreviation numbers_cft p := [cft_C p; cft_D1 p; cft_D2 p].

(** ** Each check decides its equation *)

(** Compute the next power of the goal, whose base is a unit. *)
Ltac go_pow N_pos :=
  match goal with
  | |- context [ModPow ?a ?e ?N] =>
      let v := fresh "v" in let Q := fresh "Q" in let C := fresh "C" in
      destruct (ModPow_zpow N N_pos a e ltac:(assumption)) as (v & Q & C); rewrite !Q; cbn [obind]
  end.

Section checks.
Variable N : Z.
Hypothesis N_pos : 0 < N.

Lemma cft_decides b g h E p : unitm N g -> unitm N h -> unitm N E ->
  (CFTValidateZeroKnowledgeProof b N g h E (numbers_cft p) = Ret true <-> cft_spec N g h b E p).
Proof.
  intros Hg Hh HE. unfold CFTValidateZeroKnowledgeProof, cft_spec. cbv zeta. go_index.
  rewrite setbit0_pow by (unfold t; lia). unfold Mod. rewrite Mod_pos by reflexivity. cbn [obind].
  unfold Multiply. replace (cft_C p mod 2 ^ t * -1) with (- (cft_C p mod 2 ^ t)) by ring.
  do 3 go_pow N_pos. rewrite Mod_pos by lia. cbn [obind]. rewrite CalculateHash_challenge. cbn [obind].
  rewrite (mul3_mod N v _ v0 _ v1 _ C C0 C1), setbit0_pow by (unfold t, l; lia).
  split; [intros H; injection H as H | intros (E1 & E2 & E3); f_equal];
    rewrite !andb_true_iff, Z.eqb_eq, Z.geb_le, Z.leb_le in *; tauto.
Qed.

Lemma ec_decides g1 g2 h1 h2 E F p :
  unitm N g1 -> unitm N g2 -> unitm N h1 -> unitm N h2 -> unitm N E -> unitm N F ->
  (HPAKEEqualityConstraintValidateZeroKnowledgeProof N g1 g2 h1 h2 E F (numbers_ec p) = Ret true
   <-> ec_spec N g1 g2 h1 h2 E F p).
Proof.
  intros. unfold HPAKEEqualityConstraintValidateZeroKnowledgeProof, ec_spec. go_index.
  unfold Multiply. replace (ec_c p * -1) with (- ec_c p) by ring.
  do 3 go_pow N_pos. unfold Mod. rewrite Mod_pos by lia. cbn [obind].
  do 3 go_pow N_pos. rewrite Mod_pos by lia. cbn [obind].
  rewrite CalculateHash_challenge. cbn [obind].
  rewrite (mul3_mod N v _ v0 _ v1 _ C C0 C1), (mul3_mod N v2 _ v3 _ v4 _ C2 C3 C4).
  split; [intros H'; injection H' as H'; apply Z.eqb_eq, H' | intros H'; f_equal; apply Z.eqb_eq, H'].
Qed.

Lemma sq_decides g h E p : unitm N g -> unitm N h -> unitm N E -> unitm N (sq_F p) ->
  (HPAKESquareValidateZeroKnowledgeProof N g h E (sq_F p :: numbers_ec (sq_ecProof p)) = Ret true
   <-> sq_spec N g h E p).
Proof.
  intros. unfold HPAKESquareValidateZeroKnowledgeProof, sq_spec. go_index. go_slice.
  apply ec_decides; assumption.
Qed.

(** The equation depends on the class of the commitment only. *)
Lemma cft_spec_eqm g h b E E' p : unitm N E -> E ≡[N] E' -> cft_spec N g h b E p -> cft_spec N g h b E' p.
Proof.
  intros HE H. unfold cft_spec. cbv zeta. intros [H1 H2]. split; [|exact H2].
  rewrite H1 at 1. f_equal. apply eqm_mod. apply mul_eqm; [reflexivity|].
  apply zpow_base; assumption.
Qed.

Lemma DivMod_unit a b : exists v, DivMod a b N = Ret v /\ v ≡[N] a * inv N b.
Proof. rewrite DivMod_inv by exact N_pos. eexists; split; [reflexivity|]. apply mod_eqm. Qed.

End checks.

(** ** The validator decides the range equations *)

(** All the group elements of a statement and a proof are units. *)
Definition units_ok (N g h c : Z) (p : BoudotRangeProof) : Prop :=
  unitm N g /\ unitm N h /\ unitm N c /\ unitm N (cLeftSquare p) /\ unitm N (cRightSquare p) /\
  unitm N (sq_F (sqrProofLeft p)) /\ unitm N (sq_F (sqrProofRight p)).

Lemma proof_numbers_cut p :
  proof_numbers p = cLeftSquare p :: cRightSquare p ::
    (sq_F (sqrProofLeft p) :: numbers_ec (sq_ecProof (sqrProofLeft p))) ++
    (sq_F (sqrProofRight p) :: numbers_ec (sq_ecProof (sqrProofRight p))) ++
    numbers_cft (cftProofLeft p) ++ numbers_cft (cftProofRight p).
Proof. reflexivity. Qed.

(** Run the checks one after another, each accepted or not. *)
Lemma seq_checks (m1 m2 m3 m4 : outcome bool) :
  returns m1 -> returns m2 -> returns m3 -> returns m4 ->
  ((let! a := m1 in if negb a then Ret false else
    let! b := m2 in if negb b then Ret false else
    let! c := m3 in if negb c then Ret false else
    let! d := m4 in if negb d then Ret false else Ret true) = Ret true
   <-> m1 = Ret true /\ m2 = Ret true /\ m3 = Ret true /\ m4 = Ret true).
Proof.
  intros [[|] ->] [[|] ->] [[|] ->] [[|] ->]; cbn;
    (split; [intros H; try discriminate H; auto | intros (H1 & H2 & H3 & H4); try discriminate; reflexivity]).
Qed.

Lemma tolerance_decides N g h c lo up p : 0 < N -> units_ok N g h c p ->
  (ValidateProofWithTolerance lo up [c; N; g; h] (proof_numbers p) = Ret true
   <-> range_spec N g h c lo up p).
Proof.
  intros HN (Ug & Uh & Uc & UL & UR & UFL & UFR).
  unfold ValidateProofWithTolerance. rewrite proof_numbers_cut. cbn [app].
  match goal with |- context [if ?b then Ret false else _] => change b with false end. cbv iota.
  go_index. go_slice. rewrite (proj2 (Z.leb_gt N 0)) by exact HN.
  do 1 go_pow HN. destruct (DivMod_unit N HN c v) as (cLeft & -> & CL). cbn [obind].
  do 1 go_pow HN. destruct (DivMod_unit N HN v0 c) as (cRight & -> & CR). cbn [obind].
  destruct (DivMod_unit N HN cLeft (cLeftSquare p)) as (cLR & -> & CLR).
  destruct (DivMod_unit N HN cRight (cRightSquare p)) as (cRR & -> & CRR). cbn [obind].
  rewrite FloorSquareRoot_sqrt. cbn [obind].
  assert (EL : cLR ≡[N] c * zpow N g (- lo) * inv N (cLeftSquare p)).
  { rewrite CLR, CL, zpow_opp, (inv_eqm N HN v _ (unit_eqm N _ _ HN (unit_zpow N HN g lo Ug) (symmetry C)) C)
      by assumption. reflexivity. }
  assert (ER : cRR ≡[N] zpow N g up * inv N c * inv N (cRightSquare p)) by (rewrite CRR, CR, C0; reflexivity).
  rewrite seq_checks by (apply Square_returns || apply CFT_returns; (exact HN || (cbn; lia))).
  replace (ShiftLeft (Sub up lo) 2) with (4 * (up - lo))
    by (unfold ShiftLeft, Multiply, Sub; rewrite setbit0_pow by lia; ring).
  assert (UcL : unitm N (c * zpow N g (- lo) * inv N (cLeftSquare p))) by auto 6 using unit_mul, unit_zpow, unit_inv.
  assert (UcR : unitm N (zpow N g up * inv N c * inv N (cRightSquare p))) by auto 6 using unit_mul, unit_zpow, unit_inv.
  pose proof (unit_eqm N _ _ HN UcL (symmetry EL)) as UcL'. pose proof (unit_eqm N _ _ HN UcR (symmetry ER)) as UcR'.
  rewrite !sq_decides, !cft_decides by assumption. unfold range_spec. cbv zeta.
  split; intros (S1 & S2 & S3 & S4); (split; [exact S1|split; [exact S2|split]]).
  - exact (cft_spec_eqm N HN g h _ _ _ _ UcL' EL S3).
  - exact (cft_spec_eqm N HN g h _ _ _ _ UcR' ER S4).
  - exact (cft_spec_eqm N HN g h _ _ _ _ UcL (symmetry EL) S3).
  - exact (cft_spec_eqm N HN g h _ _ _ _ UcR (symmetry ER) S4).
Qed.
