(* ===== verification/ZkTheorems.v ===== *)
(** * The properties of the range-proof validator and its prover *)

From Stdlib Require Import ZArith List Lia Bool Zpow_facts Setoid Morphisms.
From S2P Require Import Prelude GoBig ModArith Sha256 ByteConversion ZkValidator ZkArith ZkProver ZkRefine.
From S2P Require Import ZkSpec.
Import ListNotations zkrangeproof BigInteger BigIntUtil DigestUtil.
Local Open Scope Z_scope.

#[local] Opaque calculateHash challenge.

(** ** Completeness, through the wire format *)

(** C2: for a number inside the range, an honest commitment and draws that end
    the retry loops, the Java packet is produced, [ParseInput] reads it back
    and [ValidateRangeProof] accepts it. *)
Theorem honest_packet_accepted G x y C range d :
  good_group G -> commit G x y = Some C -> contains range x = true ->
  good_draws ((getEnd range - getStart range) * 2 ^ expansion_of range) d ->
  exists packet proof c',
    rangeproofPacket (mkTTPMessage C x y) range d = Some packet /\
    ParseInput packet = Ret (Ok proof) /\
    ValidateRangeProof (getStart range) (getEnd range) (commitment_numbers C) proof = Ret (true, c').
Proof.
  intros HG HC Hx Hd. destruct (packet_complete G x y C range d HG HC Hx Hd) as (p & _ & HV & HP).
  destruct (validate_go p C range HV) as [c' Hc].
  exists (exportProof p), (proof_numbers p), c'. split; [exact HP|]. split; [|exact Hc].
  apply ParseInput_join. discriminate.
Qed.

(** The group of the tests: [N = 77], [g = 2], [h = 3]; 5 lies in [1, 9]. *)
Definition sample_group : SecretOrderGroup := mkGroup 77 2 3.
Definition sample_range : ClosedRange := mkRange 1 9.
Definition sample_draws : Draws :=
  let w := Z.sqrt (8 * 2 ^ expansion_of sample_range * 2 ^ 2) * 2 ^ 129 in
  mkDraws 11 12 (mkSquareDraws 5 (mkECDraws 6 7 8)) (mkSquareDraws 9 (mkECDraws 10 11 12))
    [(w, 13)] [(w, 14)].

(** The proof of the sample packet. *)
Definition sample_proof : BoudotRangeProof :=
  Eval vm_compute in
    match calculateRangeProof (mkTTPMessage (mkCommitment sample_group 68) 5 7) sample_range sample_draws with
    | Some p => p
    | None => let e := mkECProof 0 0 0 0 in let q := mkSquareProof 0 e in let f := mkCFTProof 0 0 0 in
              mkProof 0 0 q q f f
    end.

Lemma sample_group_ok : good_group sample_group.
Proof. split; [reflexivity | split; vm_compute; reflexivity]. Qed.

Lemma sample_draws_ok : good_draws (8 * 2 ^ expansion_of sample_range) sample_draws.
Proof.
  split; apply Exists_cons_hd; (split; apply Z.leb_le; vm_compute; reflexivity).
Qed.

Lemma honest_packet_accepted_witness :
  exists packet proof c',
    rangeproofPacket (mkTTPMessage (mkCommitment sample_group 68) 5 7) sample_range sample_draws = Some packet /\
    ParseInput packet = Ret (Ok proof) /\
    ValidateRangeProof 1 9 [68; 77; 2; 3] proof = Ret (true, c').
Proof.
  exact (honest_packet_accepted sample_group 5 7 (mkCommitment sample_group 68) sample_range sample_draws
    sample_group_ok ltac:(vm_compute; reflexivity) eq_refl sample_draws_ok).
Defined.

(** ** Exactness *)

(** C3: on a group element commitment and a proof made of group elements,
    [ValidateRangeProof] returns true exactly when the verification equations
    hold for the expanded commitment [c^(2^T)] and the expanded limits. *)
Theorem ValidateRangeProof_decides N g h c lo up p : 0 < N -> units_ok N g h c p ->
  let T := expansion lo up in
  ((exists c', ValidateRangeProof lo up [c; N; g; h] (proof_numbers p) = Ret (true, c'))
   <-> range_spec N g h (c ^ 2 ^ T mod N) (lo * 2 ^ T) (up * 2 ^ T) p).
Proof.
  intros HN HU T. assert (HT : 0 <= T) by (unfold T, expansion, t, l; pose proof (BitLen_nonneg (Sub up lo)); lia).
  assert (HP : 0 <= 2 ^ T) by (apply Z.pow_nonneg; lia).
  assert (HU' : units_ok N g h (c ^ 2 ^ T mod N) p).
  { destruct HU as (Ug & Uh & Uc & U). repeat split; try tauto.
    apply unit_eqm with (c ^ 2 ^ T); [exact HN|apply unit_pow; assumption|symmetry; apply mod_eqm]. }
  rewrite <- tolerance_decides by assumption.
  unfold ValidateRangeProof. change (len [c; N; g; h] <? 4) with false.
  change (len (proof_numbers p) <? 18) with false. cbn [orb]. cbv zeta. fold T. go_index.
  rewrite !ShiftLeft_shiftl, !Z.shiftl_mul_pow2, Z.mul_1_l by exact HT.
  unfold ModPow. rewrite Z.geb_leb, (proj2 (Z.leb_le 0 _)), Exp_pos by assumption. cbn [obind]. go_slice.
  destruct (Tolerance_returns (lo * 2 ^ T) (up * 2 ^ T) [c ^ 2 ^ T mod N; N; g; h] (proof_numbers p)) as [ok ->].
  cbn [obind]. split; [intros [c' [= -> _]]; reflexivity | intros [= ->]; eexists; reflexivity].
Qed.

Lemma ValidateRangeProof_decides_witness :
  let T := expansion 1 9 in
  ((exists c', ValidateRangeProof 1 9 [68; 77; 2; 3] (proof_numbers sample_proof) = Ret (true, c'))
   <-> range_spec 77 2 3 (68 ^ 2 ^ T mod 77) (1 * 2 ^ T) (9 * 2 ^ T) sample_proof).
Proof.
  apply (ValidateRangeProof_decides 77 2 3 68 1 9 sample_proof); [reflexivity|].
  repeat split; vm_compute; reflexivity.
Defined.

(** C29: every proof the Java validator accepts, the Go validator accepts. *)
Theorem Java_accepts_Go_accepts p c range :
  validateRangeProof p c range = Some tt ->
  exists c', ValidateRangeProof (getStart range) (getEnd range)
               (commitment_numbers c) (proof_numbers p) = Ret (true, c').
Proof. apply validate_go. Qed.

Lemma Java_accepts_Go_accepts_witness :
  exists c', ValidateRangeProof 1 9 [68; 77; 2; 3] (proof_numbers sample_proof) = Ret (true, c').
Proof.
  apply (Java_accepts_Go_accepts sample_proof (mkCommitment sample_group 68) sample_range).
  vm_compute. reflexivity.
Defined.

(** No input makes the validator panic or diverge. *)
Theorem ValidateRangeProof_total lo up c p :
  exists ok c', ValidateRangeProof lo up c p = Ret (ok, c') /\ len c' = len c.
Proof.
  destruct (ValidateRangeProof_returns lo up c p) as [[ok c'] E]. exists ok, c'. split; [exact E|].
  revert E. unfold ValidateRangeProof. destruct (_ || _) eqn:B; [intros [= _ <-]; reflexivity|]. b2p.
  destruct (index c 0); [|discriminate]. destruct (index c 1); [|discriminate]. cbn [obind].
  destruct (ModPow _ _ _); [|discriminate]. cbn [obind].
  destruct (slice c 1 (len c)) as [tl|] eqn:S; [|discriminate]. cbn [obind].
  apply slice_len in S. destruct (ValidateProofWithTolerance _ _ _ _); [|discriminate].
  intros [= _ <-]. rewrite len_cons. lia.
Qed.

(** C36: [FloorSquareRoot] ends for every input and returns the integer square
    root, 0 for a negative one. *)
Theorem FloorSquareRoot_correct input :
  exists r, FloorSquareRoot input = Ret r /\
    (0 <= input -> r * r <= input < (r + 1) * (r + 1)) /\ (input < 0 -> r = 0).
Proof.
  exists (Z.sqrt input). split; [apply FloorSquareRoot_sqrt|]. split; intros H.
  - pose proof (Z.sqrt_spec input H). unfold Z.succ in *. lia.
  - apply Z.sqrt_neg, H.
Qed.

(** ** The expansion closes the tolerance *)

Lemma tolerance_small lo up : lo <= up ->
  2 ^ (t + l) * Z.sqrt (4 * (up - lo) * 2 ^ expansion lo up) < 2 ^ expansion lo up.
Proof.
  intros H. unfold expansion, Sub. set (w := up - lo).
  pose proof (BitLen_bound w) as Hb. pose proof (BitLen_nonneg w) as Hn. rewrite Z.abs_eq in Hb by lia.
  assert (E : 2 ^ (2 * (t + l + 1) + BitLen w) = 2 ^ (t + l) * 2 ^ (t + l) * 4 * 2 ^ BitLen w).
  { replace (2 * (t + l + 1) + BitLen w) with ((t + l) + (t + l) + 2 + BitLen w) by ring.
    rewrite !Z.pow_add_r by (unfold t, l; lia). ring. }
  set (T2 := 2 ^ (2 * (t + l + 1) + BitLen w)) in *.
  assert (HT : 0 < T2) by (apply Z.pow_pos_nonneg; unfold t, l; lia).
  pose proof (Z.sqrt_spec (4 * w * T2) ltac:(nia)) as [Hs _].
  pose proof (Z.sqrt_nonneg (4 * w * T2)). set (s := Z.sqrt _) in *.
  set (K := 2 ^ (t + l)) in *. assert (0 < K) by (apply Z.pow_pos_nonneg; unfold t, l; lia).
  destruct (Z.le_gt_cases T2 (K * s)) as [Hle|]; [exfalso|assumption].
  assert (T2 * T2 <= K * s * (K * s)) by nia.
  assert (K * K * (s * s) <= K * K * (4 * w * T2)) by nia.
  assert (K * K * 4 * w < T2) by nia. nia.
Qed.

(** what the four proofs establish of the hidden number [x] (its distance
    to each expanded limit is a square plus a number bounded by the tolerance
    [2^(t+l) * b] of the CFT proof) puts [x] in the range exactly: the
    expansion factor [2^T] is large enough to absorb the tolerance. *)
Theorem tolerance_closed lo up x sl rl sr rr :
  let T := expansion lo up in
  let b := Z.sqrt (4 * (up * 2 ^ T - lo * 2 ^ T)) in
  lo <= up ->
  x * 2 ^ T - lo * 2 ^ T = sl * sl + rl -> - (2 ^ (t + l) * b) <= rl ->
  up * 2 ^ T - x * 2 ^ T = sr * sr + rr -> - (2 ^ (t + l) * b) <= rr ->
  lo <= x <= up.
Proof.
  intros T b H El Hl Er Hr. pose proof (tolerance_small lo up H) as B. fold T in B.
  unfold b in *. rewrite <- Z.mul_sub_distr_r, Z.mul_assoc in *. set (W := 2 ^ (t + l) * _) in *.
  split; apply Z.nlt_ge; intros Hlt; nia.
Qed.

Lemma tolerance_closed_witness : 1 <= 5 <= 9.
Proof.
  apply (tolerance_closed 1 9 5 0 ((5 - 1) * 2 ^ expansion 1 9) 0 ((9 - 5) * 2 ^ expansion 1 9)); vm_compute;
    first [reflexivity | discriminate].
Defined.

(** ** What the validator lets through *)

(** A proof made of zeros and fixed hashes, from the limits alone. *)
Definition forged_proof (lo up : Z) : BoudotRangeProof :=
  let T := expansion lo up in
  let b := Z.sqrt (4 * (up * 2 ^ T - lo * 2 ^ T)) in
  let sq := mkSquareProof 0 (mkECProof (challenge 0 (Some 0)) 0 0 0) in
  let cft := mkCFTProof (challenge 0 None) (b * (challenge 0 None mod 2 ^ t)) 0 in
  mkProof 0 0 sq sq cft cft.

Lemma challenge_0_0 : challenge 0 (Some 0) <> 0.
Proof. intros H. vm_compute in H. discriminate H. Qed.

Lemma challenge_0 : 0 < challenge 0 None mod 2 ^ t.
Proof. vm_compute. reflexivity. Qed.

Section zero.
Variable N : Z.
Hypothesis N_pos : 0 < N.

Lemma ModPow_zero e : e <> 0 -> ModPow 0 e N = Ret 0.
Proof.
  intros He. unfold ModPow. rewrite Z.geb_leb. destruct (Z.leb_spec 0 e).
  - rewrite Exp_pos, Z.pow_0_l, Z.mod_0_l by lia. reflexivity.
  - rewrite Exp_pos, Z.pow_0_l, Z.mod_0_l by lia. apply ModInverse_0; exact N_pos.
Qed.

Lemma DivMod_zero a : DivMod a 0 N = Ret 0.
Proof.
  unfold DivMod, ModInverse. rewrite ModInverse_0 by exact N_pos. cbn [obind].
  unfold Mod, Multiply. rewrite Mod_pos, Z.mul_0_r, Z.mod_0_l by lia. reflexivity.
Qed.

(** A product with a zero factor, reduced: the [W] of the forged proofs. *)
Lemma W_zero a b : Mod (Multiply (Multiply a b) 0) N = Ret 0.
Proof. unfold Mod, Multiply. rewrite Mod_pos, Z.mul_0_r, Z.mod_0_l by lia. reflexivity. Qed.

Lemma ModPow_some a e : exists v, ModPow a e N = Ret v.
Proof. apply ModPow_returns, N_pos. Qed.

Lemma forged_sq g h c : challenge 0 (Some 0) = c -> c <> 0 ->
  HPAKESquareValidateZeroKnowledgeProof N g h 0 [0; c; 0; 0; 0] = Ret true.
Proof.
  intros Ec Hc. unfold HPAKESquareValidateZeroKnowledgeProof. go_index. go_slice.
  unfold HPAKEEqualityConstraintValidateZeroKnowledgeProof. go_index.
  destruct (ModPow_some g 0) as [v1 ->], (ModPow_some h 0) as [v2 ->], (ModPow_some 0 0) as [v3 ->].
  rewrite ModPow_zero by (unfold Multiply; lia).
  cbn [obind]. rewrite !W_zero. cbn [obind]. rewrite CalculateHash_challenge. cbn [obind].
  rewrite Ec, Z.eqb_refl. reflexivity.
Qed.

Lemma forged_cft g h b C : 0 <= b -> challenge 0 None = C -> 0 < C mod 2 ^ t ->
  CFTValidateZeroKnowledgeProof b N g h 0 [C; b * (C mod 2 ^ t); 0] = Ret true.
Proof.
  intros Hb EC HC. unfold CFTValidateZeroKnowledgeProof. go_index.
  rewrite !setbit0_pow by (unfold t, l; lia). unfold Mod at 1. rewrite Mod_pos by reflexivity. cbn [obind].
  destruct (ModPow_some g (b * (C mod 2 ^ t))) as [v1 ->], (ModPow_some h 0) as [v2 ->].
  assert (C mod 2 ^ t < 2 ^ t) by (apply Z.mod_pos_bound; reflexivity).
  rewrite ModPow_zero by (unfold Multiply; lia).
  cbn [obind]. rewrite W_zero. cbn [obind]. rewrite CalculateHash_challenge. cbn [obind].
  rewrite EC, Z.eqb_refl. unfold Multiply.
  rewrite Z.geb_leb, Z.leb_refl, (proj2 (Z.leb_le _ _)); [reflexivity|].
  apply Z.mul_le_mono_nonneg_l; [exact Hb|]. transitivity (2 ^ t); [lia|]. apply Z.pow_le_mono_r; unfold t, l; lia.
Qed.

End zero.

Lemma forged_tolerance N g h c lo up C1 C2 : 0 < N ->
  challenge 0 None = C1 -> 0 < C1 mod 2 ^ t -> challenge 0 (Some 0) = C2 -> C2 <> 0 ->
  let D := Z.sqrt (4 * (up - lo)) * (C1 mod 2 ^ t) in
  ValidateProofWithTolerance lo up [c; N; g; h]
    [0; 0; 0; C2; 0; 0; 0; 0; C2; 0; 0; 0; C1; D; 0; C1; D; 0] = Ret true.
Proof.
  intros HN E1 H1 E2 H2 D. unfold ValidateProofWithTolerance.
  match goal with |- context [if ?b then Ret false else _] => change b with false end. cbv iota.
  go_index. go_slice. rewrite (proj2 (Z.leb_gt N 0)) by exact HN.
  destruct (ModPow_some N HN g lo) as [v1 ->], (ModPow_some N HN g up) as [v2 ->]. cbn [obind].
  destruct (DivMod_returns c v1 N HN) as [v3 ->], (DivMod_returns v2 c N HN) as [v4 ->]. cbn [obind].
  rewrite !DivMod_zero, !forged_sq by assumption. cbn [obind negb].
  replace (ShiftLeft (Sub up lo) 2) with (4 * (up - lo))
    by (unfold ShiftLeft, Multiply, Sub; rewrite setbit0_pow by lia; ring).
  rewrite FloorSquareRoot_sqrt. cbn [obind].
  unfold D. rewrite forged_cft by (assumption || apply Z.sqrt_nonneg). reflexivity.
Qed.

(** C5: the validator accepts the forged proof for every commitment with a
    positive modulus and every range, also for ranges the committed number is
    outside of; the Java validator, which rejects zero group elements, refuses
    it. *)
Theorem forged_proof_accepted N g h c lo up : 0 < N ->
  (exists c', ValidateRangeProof lo up [c; N; g; h] (proof_numbers (forged_proof lo up)) = Ret (true, c')) /\
  validateRangeProof (forged_proof lo up) (mkCommitment (mkGroup N g h) c) (mkRange lo up) = None.
Proof.
  intros HN. split.
  - unfold ValidateRangeProof. change (len [c; N; g; h] <? 4) with false.
    change (len (proof_numbers (forged_proof lo up)) <? 18) with false. cbn [orb]. cbv zeta. go_index.
    destruct (ModPow_some N HN c (ShiftLeft 1 (expansion lo up))) as [v ->]. cbn [obind]. go_slice.
    rewrite !ShiftLeft_shiftl, !Z.shiftl_mul_pow2
      by (unfold expansion, t, l; pose proof (BitLen_nonneg (Sub up lo)); lia).
    unfold proof_numbers, forged_proof. cbv zeta.
    cbn [cLeftSquare cRightSquare sqrProofLeft sqrProofRight cftProofLeft cftProofRight sq_F sq_ecProof
         ec_c ec_D ec_D1 ec_D2 cft_C cft_D1 cft_D2 app].
    rewrite forged_tolerance by (exact HN || reflexivity || exact challenge_0 || exact challenge_0_0).
    eexists; reflexivity.
  - unfold validateRangeProof. cbv zeta. split_match; [|reflexivity].
    unfold tolerance_validateRangeProof. cbn [cLeftSquare cRightSquare forged_proof]. cbv zeta.
    rewrite Z.eqb_refl, !orb_true_r. reflexivity.
Qed.

(** 5 does not lie in [100, 200]. *)
Lemma forged_proof_accepted_witness :
  exists c', ValidateRangeProof 100 200 [68; 77; 2; 3] (proof_numbers (forged_proof 100 200)) = Ret (true, c').
Proof. exact (proj1 (forged_proof_accepted 77 2 3 68 100 200 eq_refl)). Defined.

(** ** The caller's slice *)

(** The call overwrites the first element of the slice it is given by
    [c^(2^T) mod N], so that calling again with the same slice and the same valid
    proof gives another answer. *)
Theorem ValidateRangeProof_mutates :
  (forall c0 N tl lo up proof, 0 < N -> 2 <= len tl -> 18 <= len proof ->
     exists ok, ValidateRangeProof lo up (c0 :: N :: tl) proof =
                Ret (ok, (c0 ^ 2 ^ expansion lo up) mod N :: N :: tl)) /\
  exists c' c'', ValidateRangeProof 1 9 [68; 77; 2; 3] (proof_numbers sample_proof) = Ret (true, c') /\
                 ValidateRangeProof 1 9 c' (proof_numbers sample_proof) = Ret (false, c'').
Proof.
  split.
  - intros c0 N tl lo up proof HN Hc Hp. unfold ValidateRangeProof.
    rewrite !len_cons, (proj2 (Z.ltb_ge _ 4)), (proj2 (Z.ltb_ge (len proof) 18)) by lia. cbn [orb]. cbv zeta.
    assert (HT : 0 <= expansion lo up) by (unfold expansion, t, l; pose proof (BitLen_nonneg (Sub up lo)); lia).
    rewrite !ShiftLeft_shiftl, !Z.shiftl_mul_pow2, Z.mul_1_l by exact HT. go_index.
    pose proof (Z.pow_nonneg 2 (expansion lo up)).
    unfold ModPow. rewrite Z.geb_leb, (proj2 (Z.leb_le 0 _)), Exp_pos by lia. cbn [obind].
    rewrite slice_ret by (rewrite ?len_cons; lia).
    replace (Z.to_nat (_ - 1)) with (S (length tl)) by (unfold len; lia).
    change (Z.to_nat 1) with 1%nat. cbn [skipn firstn obind]. rewrite firstn_all.
    destruct (Tolerance_returns (lo * 2 ^ expansion lo up) (up * 2 ^ expansion lo up)
      ((c0 ^ 2 ^ expansion lo up) mod N :: N :: tl) proof) as [ok ->].
    exists ok. reflexivity.
  - exists [16; 77; 2; 3], [9; 77; 2; 3]. split; vm_compute; reflexivity.
Qed.

Lemma BitLen_pow c k : 2 <= Z.abs c -> 0 <= k -> k < BitLen (c ^ k).
Proof.
  intros Hc Hk. apply BitLen_gt_iff; [exact Hk|]. rewrite Z.abs_pow.
  apply Z.pow_le_mono_l. lia.
Qed.

(** With the modulus 0 the verdict is false, but only after the expanded
    commitment has been computed without a modulus: a number of more than
    [2^338] bits. *)
Theorem zero_modulus_unreduced c g h lo up proof : 2 <= Z.abs c -> 18 <= len proof ->
  exists c', ValidateRangeProof lo up [c; 0; g; h] proof = Ret (false, [c'; 0; g; h]) /\ 2 ^ 338 < BitLen c'.
Proof.
  intros Hc Hp. pose proof (BitLen_nonneg (Sub up lo)).
  assert (HT : 338 <= expansion lo up) by (unfold expansion, t, l; lia).
  assert (HP : 2 ^ 338 <= 2 ^ expansion lo up) by (apply Z.pow_le_mono_r; lia).
  exists (c ^ 2 ^ expansion lo up). split; [|apply Z.le_lt_trans with (1 := HP), BitLen_pow; lia].
  unfold ValidateRangeProof. change (len [c; 0; g; h] <? 4) with false.
  rewrite (proj2 (Z.ltb_ge (len proof) 18)) by exact Hp. cbn [orb]. cbv zeta. go_index.
  rewrite !ShiftLeft_shiftl, !Z.shiftl_mul_pow2, Z.mul_1_l by lia.
  unfold ModPow. rewrite Z.geb_leb, (proj2 (Z.leb_le 0 _)), Exp_nomod by lia. cbn [obind]. go_slice.
  unfold ValidateProofWithTolerance. rewrite (proj2 (Z.ltb_ge (len proof) 18)) by exact Hp.
  match goal with |- context [if ?b then Ret false else _] => change b with false end. cbv iota.
  go_index. reflexivity.
Qed.

Lemma zero_modulus_unreduced_witness :
  exists c', ValidateRangeProof 1 9 [2; 0; 2; 3] (proof_numbers sample_proof) = Ret (false, [c'; 0; 2; 3]) /\ 2 ^ 338 < BitLen c'.
Proof. apply (zero_modulus_unreduced 2 2 3 1 9 (proof_numbers sample_proof)); [discriminate | vm_compute; discriminate]. Defined.
