(* ===== verification/Jacobian.v ===== *)
(** * Powers in a commutative monoid and square-and-multiply

    Shared by the exponentiations of the field tower. *)

From Stdlib Require Import ZArith Lia Setoid Morphisms Ring_theory Ring.
From S2P Require Import Prelude GoBig.
Local Open Scope Z_scope.

Section pow.
Context {R : Type} (req : R -> R -> Prop) (one : R) (mul : R -> R -> R).
Context {req_equiv : Equivalence req} {mul_proper : Proper (req ==> req ==> req) mul}.
Hypothesis mul_assoc : forall a b c, req (mul a (mul b c)) (mul (mul a b) c).
Hypothesis mul_comm : forall a b, req (mul a b) (mul b a).
Hypothesis mul_one : forall a, req (mul one a) a.

Fixpoint npow (a : R) (n : nat) : R :=
  match n with
  | O => one
  | S n => mul a (npow a n)
  end.

Lemma npow_add a n m : req (npow a (n + m)) (mul (npow a n) (npow a m)).
Proof.
  induction n as [|n IH]; cbn; [symmetry; apply mul_one|]. rewrite IH. apply mul_assoc.
Qed.

Lemma npow_mul_base a b n : req (npow (mul a b) n) (mul (npow a n) (npow b n)).
Proof.
  induction n as [|n IH]; cbn; [symmetry; apply mul_one|]. rewrite IH.
  rewrite <- (mul_assoc a b), (mul_assoc b (npow a n)), (mul_comm b (npow a n)).
  rewrite <- (mul_assoc (npow a n) b), (mul_assoc a). reflexivity.
Qed.

Lemma npow_mul a n m : req (npow a (n * m)) (npow (npow a n) m).
Proof.
  induction m as [|m IH]; [rewrite Nat.mul_0_r; reflexivity|].
  rewrite Nat.mul_succ_r, Nat.add_comm, npow_add, IH. reflexivity.
Qed.

Lemma npow_proper_base a b n : req a b -> req (npow a n) (npow b n).
Proof. intros H. induction n as [|n IH]; cbn; [reflexivity|]. apply mul_proper; assumption. Qed.

(** Left-to-right binary exponentiation computes the power. *)
Lemma square_multiply (square : R -> R) a power :
  (forall s, req (square s) (mul s s)) -> 0 <= power ->
  req (for_down (Z.to_nat (BitLen power))
         (fun i sum => let t := square sum in if Z.testbit power i then mul t a else t) one)
      (npow a (Z.to_nat power)).
Proof.
  intros Hsq Hp. set (n := Z.to_nat (BitLen power)).
  enough (E : (fun (i : nat) s => req s (npow a (Z.to_nat (power / 2 ^ Z.of_nat i)))) O
    (for_down n (fun i sum => let t := square sum in if Z.testbit power i then mul t a else t) one))
    by (cbn beta in E; rewrite Z.div_1_r in E; exact E).
  apply for_down_ind.
  - subst n. rewrite Z2Nat.id by apply BitLen_nonneg.
    rewrite Z.div_small by (pose proof (BitLen_bound power); lia). reflexivity.
  - intros i s _ Hs. cbv zeta.
    assert (E : Z.to_nat (power / 2 ^ Z.of_nat i) =
      (Z.to_nat (power / 2 ^ Z.of_nat (S i)) + Z.to_nat (power / 2 ^ Z.of_nat (S i)) +
       Nat.b2n (Z.testbit power (Z.of_nat i)))%nat).
    { rewrite Nat2Z.inj_succ, Z.pow_succ_r, (Z.mul_comm 2), <- Z.div_div by lia.
      pose proof (Z.div_pos power (2 ^ Z.of_nat i)) as D. set (q := power / 2 ^ Z.of_nat i) in *.
      rewrite Z.testbit_odd, Z.shiftr_div_pow2 by lia. fold q.
      pose proof (Z.div2_odd q) as O. rewrite Z.div2_div in O.
      assert (0 <= q / 2) by (apply Z.div_pos; lia). destruct (Z.odd q); cbn [Z.b2z Nat.b2n] in *; lia. }
    rewrite E, npow_add, npow_add, <- Hs.
    destruct (Z.testbit power (Z.of_nat i)); cbn [Nat.b2n npow]; rewrite Hsq.
    + rewrite (mul_comm a one), mul_one. reflexivity.
    + rewrite (mul_comm _ one), mul_one. reflexivity.
Qed.

End pow.

(** * Jacobian coordinates over a commutative ring

    The addition and doubling formulas of [curve.go] and [twist.go] for the
    curve [y^2 = x^3 + b], over any commutative ring: [bn256] uses them over the
    integers modulo [P] and over [gfP2].  A triple [(X, Y, Z)] stands for the
    affine point [(X / Z^2, Y / Z^3)]. *)

Section jacobian.
Context {R : Type} (rO rI : R) (radd rmul rsub : R -> R -> R) (ropp : R -> R) (req : R -> R -> Prop).
Context {R_equiv : Equivalence req}.
Hypothesis R_theory : ring_theory rO rI radd rmul rsub ropp req.
Hypothesis R_ext : ring_eq_ext radd rmul ropp req.

Declare Scope jac_scope.
Local Open Scope jac_scope.
Infix "==" := req (at level 70, no associativity) : jac_scope.
Infix "+" := radd : jac_scope.
Infix "-" := rsub : jac_scope.
Infix "*" := rmul : jac_scope.

Add Ring jac_ring : R_theory (setoid R_equiv R_ext).

#[local] Instance jac_add_proper : Proper (req ==> req ==> req) radd := Radd_ext R_ext.
#[local] Instance jac_mul_proper : Proper (req ==> req ==> req) rmul := Rmul_ext R_ext.
#[local] Instance jac_opp_proper : Proper (req ==> req) ropp := Ropp_ext R_ext.
#[local] Instance jac_sub_proper : Proper (req ==> req ==> req) rsub.
Proof.
  intros a a' Ha b b' Hb. rewrite !(Rsub_def R_theory), Ha, Hb. reflexivity.
Qed.

Local Abbreviation two := (rI + rI).
Local Abbreviation sq a := (a * a).
Local Abbreviation cube a := (a * a * a).

(** The point is on the curve. *)
Definition jac_on (b x y z : R) : Prop := sq y == cube x + b * sq (cube z).

(** The triple stands for the affine point [(px, py)]. *)
Definition jac_is (x y z px py : R) : Prop := x == px * sq z /\ y == py * cube z.

(** ** Doubling *)

Definition dbl_d (x y : R) : R := two * (two * (x * sq y)).
Definition dbl_e (x : R) : R := (two + rI) * sq x.
Definition dbl_x (x y : R) : R := sq (dbl_e x) - two * dbl_d x y.
Definition dbl_y (x y : R) : R := dbl_e x * (dbl_d x y - dbl_x x y) - two * two * two * sq (sq y).
Definition dbl_z (y z : R) : R := two * (y * z).

Lemma dbl_on b x y z : jac_on b x y z -> jac_on b (dbl_x x y) (dbl_y x y) (dbl_z y z).
Proof.
  unfold jac_on. intros H.
  assert (E : b * sq (cube z) == sq y - cube x) by (rewrite H; ring).
  transitivity (cube (dbl_x x y) + sq (cube (two * y)) * (b * sq (cube z))).
  - rewrite E. unfold dbl_y, dbl_x, dbl_d, dbl_e. ring.
  - unfold dbl_z. ring.
Qed.

(** Doubling follows the tangent: [2 py slope = 3 px^2]. *)
Lemma dbl_tangent x y z px py slope :
  jac_is x y z px py -> two * py * slope == (two + rI) * sq px ->
  let px' := sq slope - two * px in
  jac_is (dbl_x x y) (dbl_y x y) (dbl_z y z) px' (slope * (px - px') - py).
Proof.
  intros [Hx Hy] Hs px'. assert (Ee : dbl_e x == two * py * slope * sq (sq z)) by
    (rewrite Hs; unfold dbl_e; rewrite Hx; ring).
  split.
  - unfold dbl_x, dbl_z, dbl_d, px'. rewrite Ee, Hx, Hy. ring.
  - unfold dbl_y, dbl_x, dbl_z, dbl_d, px'. rewrite Ee, Hx, Hy. ring.
Qed.

(** ** Addition *)

Section sum.
Variables x1 y1 z1 x2 y2 z2 : R.

Definition add_u1 : R := x1 * sq z2.
Definition add_u2 : R := x2 * sq z1.
Definition add_s1 : R := y1 * cube z2.
Definition add_s2 : R := y2 * cube z1.
Definition add_h : R := add_u2 - add_u1.
Definition add_r : R := two * (add_s2 - add_s1).
Definition add_j : R := add_h * (two * two * sq add_h).
Definition add_v : R := add_u1 * (two * two * sq add_h).
Definition add_x : R := sq add_r - add_j - two * add_v.
Definition add_y : R := add_r * (add_v - add_x) - two * (add_s1 * add_j).
Definition add_z : R := two * (z1 * z2) * add_h.

Lemma add_on b : jac_on b x1 y1 z1 -> jac_on b x2 y2 z2 -> jac_on b add_x add_y add_z.
Proof.
  unfold jac_on. intros H1 H2. set (w := b * sq (cube (z1 * z2))).
  assert (E1 : sq add_s1 == cube add_u1 + w).
  { transitivity (sq y1 * sq (cube z2)); [unfold add_s1; ring|]. rewrite H1. unfold w, add_u1. ring. }
  assert (E2 : sq add_s2 == cube add_u2 + w).
  { transitivity (sq y2 * sq (cube z1)); [unfold add_s2; ring|]. rewrite H2. unfold w, add_u2. ring. }
  assert (EZ : b * sq (cube add_z) == sq (cube (two * add_h)) * (sq add_s1 - cube add_u1)).
  { rewrite E1. unfold w, add_z. ring. }
  rewrite EZ.
  assert (D : sq add_s2 - cube add_u2 - (sq add_s1 - cube add_u1) == rO) by (rewrite E1, E2; ring).
  transitivity (cube add_x + sq (cube (two * add_h)) * (sq add_s1 - cube add_u1)
    + sq (two * two * two) * cube add_h *
      (sq (add_s2 - add_s1) - two * cube add_u1 + (two + rI) * (sq add_u1 * add_u2) - cube add_u2)
      * (sq add_s2 - cube add_u2 - (sq add_s1 - cube add_u1))).
  - unfold add_y, add_x, add_v, add_j, add_r, add_h. ring.
  - rewrite D. ring.
Qed.

(** Addition follows the chord: [slope (px2 - px1) = py2 - py1]. *)
Lemma add_chord px1 py1 px2 py2 slope :
  jac_is x1 y1 z1 px1 py1 -> jac_is x2 y2 z2 px2 py2 -> slope * (px2 - px1) == py2 - py1 ->
  let px' := sq slope - px1 - px2 in
  jac_is add_x add_y add_z px' (slope * (px1 - px') - py1).
Proof.
  intros [Hx1 Hy1] [Hx2 Hy2] Hs px'.
  assert (Eh : add_h == (px2 - px1) * sq (z1 * z2)) by
    (unfold add_h, add_u1, add_u2; rewrite Hx1, Hx2; ring).
  assert (Er : add_r == two * (slope * (px2 - px1)) * cube (z1 * z2)) by
    (rewrite Hs; unfold add_r, add_s1, add_s2; rewrite Hy1, Hy2; ring).
  assert (Eu : add_u1 == px1 * sq (z1 * z2)) by (unfold add_u1; rewrite Hx1; ring).
  assert (Es : add_s1 == py1 * cube (z1 * z2)) by (unfold add_s1; rewrite Hy1; ring).
  split.
  - unfold add_x, add_z, add_v, add_j, px'. rewrite Eh, Er, Eu. ring.
  - unfold add_y, add_x, add_z, add_v, add_j, px'. rewrite Eh, Er, Eu, Es. ring.
Qed.

End sum.

Lemma jac_on_affine b x y z px py i :
  jac_is x y z px py -> z * i == rI -> (jac_on b x y z <-> sq py == cube px + b).
Proof.
  unfold jac_on. intros [Hx Hy] Hi. rewrite Hx, Hy. split; intros H.
  - transitivity (sq py * sq (cube (z * i))); [rewrite Hi; ring|].
    transitivity (sq (py * cube z) * sq (cube i)); [ring|]. rewrite H.
    transitivity ((cube px + b) * sq (cube (z * i))); [ring|]. rewrite Hi. ring.
  - transitivity (sq py * sq (cube z)); [ring|]. rewrite H. ring.
Qed.

End jacobian.
