(* ===== verification/Bn256Field.v ===== *)
(** * Package [bn256]: the field tower

    [gfp2.go], [gfp6.go], [gfp12.go] and [constants.go].  A method that sets
    its receiver and returns it is a function of its arguments; every method
    here reads its arguments before it overwrites them, so a receiver that is
    also an argument makes no difference ([gfP12.MulScalar], which reads the
    receiver instead of its first argument, takes the receiver).  Numbers are
    kept reduced modulo [P] only where the code reduces them, and two elements
    are equal when their coefficients are congruent.

    Each level of the tower is shown to be a commutative ring, so that
    [ring] decides the identities of the level above. *)

From Stdlib Require Import ZArith List Lia Bool Setoid Morphisms Ring_theory Ring Zpow_facts Zmod.
From S2P Require Import Prelude GoBig ModArith.
Import ListNotations.
Local Open Scope Z_scope.

(** ** Constants *)

Definition u : Z := 4965661367192848881.
Definition P : Z := 21888242871839275222246405745257275088696311157297823662689037894645226208583.
Definition Order : Z := 21888242871839275222246405745257275088548364400416034343698204186575808495617.

Lemma P_pos : 0 < P.
Proof. reflexivity. Qed.

(** ** [gfP2]: [x i + y] with [i^2 = -1] *)

Record gfP2 := mkGFp2 { x2 : Z; y2 : Z }.

Definition xiToPMinus1Over6 : gfP2 := mkGFp2
  16469823323077808223889137241176536799009286646108169935659301613961712198316
  8376118865763821496583973867626364092589906065868298776909617916018768340080.
Definition xiToPMinus1Over3 : gfP2 := mkGFp2
  10307601595873709700152284273816112264069230130616436755625194854815875713954
  21575463638280843010398324269430826099269044274347216827212613867836435027261.
Definition xiToPMinus1Over2 : gfP2 := mkGFp2
  3505843767911556378687030309984248845540243509899259641013678093033130930403
  2821565182194536844548159561693502659359617185244120367078079554186484126554.
Definition xiToPSquaredMinus1Over3 : Z :=
  21888242871839275220042445260109153167277707414472061641714758635765020556616.
Definition xiTo2PSquaredMinus2Over3 : Z :=
  2203960485148121921418603742825762020974279258880205651966.
Definition xiToPSquaredMinus1Over6 : Z :=
  21888242871839275220042445260109153167277707414472061641714758635765020556617.
Definition xiTo2PMinus2Over3 : gfP2 := mkGFp2
  19937756971775647987995932169929341994314640652964949448313374472400716661030
  2581911344467009335267311115468803099551665605076196740867805258568234346338.

(** [if v.Sign() < 0 || v.Cmp(P) >= 0 { v.Mod(v, P) }] *)
Definition reduce (v : Z) : Z := if (v <? 0) || (v >=? P) then v mod P else v.

Module GFp2.

Definition SetZero : gfP2 := mkGFp2 0 0.
Definition SetOne : gfP2 := mkGFp2 0 1.

Definition Minimal (e : gfP2) : gfP2 := mkGFp2 (reduce (x2 e)) (reduce (y2 e)).

Definition IsZero (e : gfP2) : bool := (x2 e =? 0) && (y2 e =? 0).

(** [Bits] is the magnitude, so [-1] passes too. *)
Definition IsOne (e : gfP2) : bool :=
  if negb (x2 e =? 0) then false else Z.abs (y2 e) =? 1.

Definition Conjugate (a : gfP2) : gfP2 := mkGFp2 (- x2 a) (y2 a).
Definition Negative (a : gfP2) : gfP2 := mkGFp2 (- x2 a) (- y2 a).
Definition Add (a b : gfP2) : gfP2 := mkGFp2 (x2 a + x2 b) (y2 a + y2 b).
Definition Sub (a b : gfP2) : gfP2 := mkGFp2 (x2 a - x2 b) (y2 a - y2 b).
Definition Double (a : gfP2) : gfP2 := mkGFp2 (Z.shiftl (x2 a) 1) (Z.shiftl (y2 a) 1).

Definition Mul (a b : gfP2) : gfP2 :=
  let tx := x2 a * y2 b in
  let t := x2 b * y2 a in
  let tx := tx + t in
  let tx := tx mod P in
  let ty := y2 a * y2 b in
  let t := x2 a * x2 b in
  let ty := ty - t in
  mkGFp2 tx (ty mod P).

Definition MulScalar (a : gfP2) (b : Z) : gfP2 := mkGFp2 (x2 a * b) (y2 a * b).

Definition MulXi (a : gfP2) : gfP2 :=
  let tx := Z.shiftl (x2 a) 3 in
  let tx := tx + x2 a in
  let tx := tx + y2 a in
  let ty := Z.shiftl (y2 a) 3 in
  let ty := ty + y2 a in
  let ty := ty - x2 a in
  mkGFp2 tx ty.

Definition Square (a : gfP2) : gfP2 :=
  let t1 := y2 a - x2 a in
  let t2 := x2 a + y2 a in
  let ty := t1 * t2 in
  let ty := ty mod P in
  let t1 := x2 a * y2 a in
  let t1 := Z.shiftl t1 1 in
  mkGFp2 (t1 mod P) ty.

(** [inv P] is what [ModInverse] computes for the modulus [P]. *)
Definition Invert (a : gfP2) : gfP2 :=
  let t := y2 a * y2 a in
  let t2 := x2 a * x2 a in
  let t := t + t2 in
  let inv := inv P t in
  mkGFp2 ((- x2 a * inv) mod P) ((y2 a * inv) mod P).

Definition Exp (a : gfP2) (power : Z) : gfP2 :=
  for_down (Z.to_nat (BitLen power))
    (fun i sum => let t := Square sum in if Z.testbit power i then Mul t a else t) SetOne.

Definition Real (e : gfP2) : Z := x2 e.
Definition Imag (e : gfP2) : Z := y2 e.

End GFp2.

(** ** [gfP6]: [x tau^2 + y tau + z] with [tau^3 = xi] *)

Record gfP6 := mkGFp6 { x6 : gfP2; y6 : gfP2; z6 : gfP2 }.

Module GFp6.

Definition SetZero : gfP6 := mkGFp6 GFp2.SetZero GFp2.SetZero GFp2.SetZero.
Definition SetOne : gfP6 := mkGFp6 GFp2.SetZero GFp2.SetZero GFp2.SetOne.
Definition Minimal (e : gfP6) : gfP6 :=
  mkGFp6 (GFp2.Minimal (x6 e)) (GFp2.Minimal (y6 e)) (GFp2.Minimal (z6 e)).
Definition IsZero (e : gfP6) : bool := GFp2.IsZero (x6 e) && GFp2.IsZero (y6 e) && GFp2.IsZero (z6 e).
Definition IsOne (e : gfP6) : bool := GFp2.IsZero (x6 e) && GFp2.IsZero (y6 e) && GFp2.IsOne (z6 e).
Definition Negative (a : gfP6) : gfP6 :=
  mkGFp6 (GFp2.Negative (x6 a)) (GFp2.Negative (y6 a)) (GFp2.Negative (z6 a)).

Definition Frobenius (a : gfP6) : gfP6 :=
  mkGFp6 (GFp2.Mul (GFp2.Conjugate (x6 a)) xiTo2PMinus2Over3)
         (GFp2.Mul (GFp2.Conjugate (y6 a)) xiToPMinus1Over3)
         (GFp2.Conjugate (z6 a)).

Definition FrobeniusP2 (a : gfP6) : gfP6 :=
  mkGFp6 (GFp2.MulScalar (x6 a) xiTo2PSquaredMinus2Over3)
         (GFp2.MulScalar (y6 a) xiToPSquaredMinus1Over3)
         (z6 a).

Definition Add (a b : gfP6) : gfP6 :=
  mkGFp6 (GFp2.Add (x6 a) (x6 b)) (GFp2.Add (y6 a) (y6 b)) (GFp2.Add (z6 a) (z6 b)).
Definition Sub (a b : gfP6) : gfP6 :=
  mkGFp6 (GFp2.Sub (x6 a) (x6 b)) (GFp2.Sub (y6 a) (y6 b)) (GFp2.Sub (z6 a) (z6 b)).
Definition Double (a : gfP6) : gfP6 :=
  mkGFp6 (GFp2.Double (x6 a)) (GFp2.Double (y6 a)) (GFp2.Double (z6 a)).

Definition Mul (a b : gfP6) : gfP6 :=
  let v0 := GFp2.Mul (z6 a) (z6 b) in
  let v1 := GFp2.Mul (y6 a) (y6 b) in
  let v2 := GFp2.Mul (x6 a) (x6 b) in
  let t0 := GFp2.Add (x6 a) (y6 a) in
  let t1 := GFp2.Add (x6 b) (y6 b) in
  let tz := GFp2.Mul t0 t1 in
  let tz := GFp2.Sub tz v1 in
  let tz := GFp2.Sub tz v2 in
  let tz := GFp2.MulXi tz in
  let tz := GFp2.Add tz v0 in
  let t0 := GFp2.Add (y6 a) (z6 a) in
  let t1 := GFp2.Add (y6 b) (z6 b) in
  let ty := GFp2.Mul t0 t1 in
  let ty := GFp2.Sub ty v0 in
  let ty := GFp2.Sub ty v1 in
  let t0 := GFp2.MulXi v2 in
  let ty := GFp2.Add ty t0 in
  let t0 := GFp2.Add (x6 a) (z6 a) in
  let t1 := GFp2.Add (x6 b) (z6 b) in
  let tx := GFp2.Mul t0 t1 in
  let tx := GFp2.Sub tx v0 in
  let tx := GFp2.Add tx v1 in
  let tx := GFp2.Sub tx v2 in
  mkGFp6 tx ty tz.

Definition MulScalar (a : gfP6) (b : gfP2) : gfP6 :=
  mkGFp6 (GFp2.Mul (x6 a) b) (GFp2.Mul (y6 a) b) (GFp2.Mul (z6 a) b).
Definition MulGFP (a : gfP6) (b : Z) : gfP6 :=
  mkGFp6 (GFp2.MulScalar (x6 a) b) (GFp2.MulScalar (y6 a) b) (GFp2.MulScalar (z6 a) b).

Definition MulTau (a : gfP6) : gfP6 :=
  let tz := GFp2.MulXi (x6 a) in
  let ty := y6 a in
  mkGFp6 ty (z6 a) tz.

Definition Square (a : gfP6) : gfP6 :=
  let v0 := GFp2.Square (z6 a) in
  let v1 := GFp2.Square (y6 a) in
  let v2 := GFp2.Square (x6 a) in
  let c0 := GFp2.Add (x6 a) (y6 a) in
  let c0 := GFp2.Square c0 in
  let c0 := GFp2.Sub c0 v1 in
  let c0 := GFp2.Sub c0 v2 in
  let c0 := GFp2.MulXi c0 in
  let c0 := GFp2.Add c0 v0 in
  let c1 := GFp2.Add (y6 a) (z6 a) in
  let c1 := GFp2.Square c1 in
  let c1 := GFp2.Sub c1 v0 in
  let c1 := GFp2.Sub c1 v1 in
  let xiV2 := GFp2.MulXi v2 in
  let c1 := GFp2.Add c1 xiV2 in
  let c2 := GFp2.Add (x6 a) (z6 a) in
  let c2 := GFp2.Square c2 in
  let c2 := GFp2.Sub c2 v0 in
  let c2 := GFp2.Add c2 v1 in
  let c2 := GFp2.Sub c2 v2 in
  mkGFp6 c2 c1 c0.

Definition Invert (a : gfP6) : gfP6 :=
  let A := GFp2.Square (z6 a) in
  let t1 := GFp2.Mul (x6 a) (y6 a) in
  let t1 := GFp2.MulXi t1 in
  let A := GFp2.Sub A t1 in
  let B := GFp2.Square (x6 a) in
  let B := GFp2.MulXi B in
  let t1 := GFp2.Mul (y6 a) (z6 a) in
  let B := GFp2.Sub B t1 in
  let C_ := GFp2.Square (y6 a) in
  let t1 := GFp2.Mul (x6 a) (z6 a) in
  let C_ := GFp2.Sub C_ t1 in
  let F := GFp2.Mul C_ (y6 a) in
  let F := GFp2.MulXi F in
  let t1 := GFp2.Mul A (z6 a) in
  let F := GFp2.Add F t1 in
  let t1 := GFp2.Mul B (x6 a) in
  let t1 := GFp2.MulXi t1 in
  let F := GFp2.Add F t1 in
  let F := GFp2.Invert F in
  mkGFp6 (GFp2.Mul C_ F) (GFp2.Mul B F) (GFp2.Mul A F).

End GFp6.

(** ** [gfP12]: [x omega + y] with [omega^2 = tau] *)

Record gfP12 := mkGFp12 { x12 : gfP6; y12 : gfP6 }.

Module GFp12.

Definition SetZero : gfP12 := mkGFp12 GFp6.SetZero GFp6.SetZero.
Definition SetOne : gfP12 := mkGFp12 GFp6.SetZero GFp6.SetOne.
Definition Minimal (e : gfP12) : gfP12 := mkGFp12 (GFp6.Minimal (x12 e)) (GFp6.Minimal (y12 e)).
Definition IsZero (e : gfP12) : bool :=
  let e := Minimal e in GFp6.IsZero (x12 e) && GFp6.IsZero (y12 e).
Definition IsOne (e : gfP12) : bool :=
  let e := Minimal e in GFp6.IsZero (x12 e) && GFp6.IsOne (y12 e).

(** The value left in the receiver (the method returns its argument). *)
Definition Conjugate (a : gfP12) : gfP12 := mkGFp12 (GFp6.Negative (x12 a)) (y12 a).
Definition Negative (a : gfP12) : gfP12 := mkGFp12 (GFp6.Negative (x12 a)) (GFp6.Negative (y12 a)).

Definition Frobenius (a : gfP12) : gfP12 :=
  let ex := GFp6.Frobenius (x12 a) in
  let ey := GFp6.Frobenius (y12 a) in
  mkGFp12 (GFp6.MulScalar ex xiToPMinus1Over6) ey.

Definition FrobeniusP2 (a : gfP12) : gfP12 :=
  let ex := GFp6.FrobeniusP2 (x12 a) in
  mkGFp12 (GFp6.MulGFP ex xiToPSquaredMinus1Over6) (GFp6.FrobeniusP2 (y12 a)).

Definition Add (a b : gfP12) : gfP12 := mkGFp12 (GFp6.Add (x12 a) (x12 b)) (GFp6.Add (y12 a) (y12 b)).
Definition Sub (a b : gfP12) : gfP12 := mkGFp12 (GFp6.Sub (x12 a) (x12 b)) (GFp6.Sub (y12 a) (y12 b)).

Definition Mul (a b : gfP12) : gfP12 :=
  let tx := GFp6.Mul (x12 a) (y12 b) in
  let t := GFp6.Mul (x12 b) (y12 a) in
  let tx := GFp6.Add tx t in
  let ty := GFp6.Mul (y12 a) (y12 b) in
  let t := GFp6.Mul (x12 a) (x12 b) in
  let t := GFp6.MulTau t in
  mkGFp12 tx (GFp6.Add ty t).

(** The first argument is not read: the receiver [e] is scaled. *)
Definition MulScalar (e a : gfP12) (b : gfP6) : gfP12 :=
  mkGFp12 (GFp6.Mul (x12 e) b) (GFp6.Mul (y12 e) b).

Definition Square (a : gfP12) : gfP12 :=
  let v0 := GFp6.Mul (x12 a) (y12 a) in
  let t := GFp6.MulTau (x12 a) in
  let t := GFp6.Add (y12 a) t in
  let ty := GFp6.Add (x12 a) (y12 a) in
  let ty := GFp6.Mul ty t in
  let ty := GFp6.Sub ty v0 in
  let t := GFp6.MulTau v0 in
  let ty := GFp6.Sub ty t in
  mkGFp12 (GFp6.Double v0) ty.

Definition Exp (a : gfP12) (power : Z) : gfP12 :=
  for_down (Z.to_nat (BitLen power))
    (fun i sum => let t := Square sum in if Z.testbit power i then Mul t a else t) SetOne.

Definition Invert (a : gfP12) : gfP12 :=
  let t1 := GFp6.Square (x12 a) in
  let t2 := GFp6.Square (y12 a) in
  let t1 := GFp6.MulTau t1 in
  let t1 := GFp6.Sub t2 t1 in
  let t2 := GFp6.Invert t1 in
  let e := mkGFp12 (GFp6.Negative (x12 a)) (y12 a) in
  MulScalar e e t2.

End GFp12.

(** * The prime modulus of the curve

    A certificate that the field modulus [P] of the elliptic-curve code is
    prime, and what follows for the fields: an element is invertible as soon as
    it is not zero. *)

(** ** Certificates *)

Ltac certify N cs :=
  apply (pocklington N cs);
    [repeat (apply Forall_cons; [cbn [fst]; auto with primes|]); apply Forall_nil | vm_compute; reflexivity].

Lemma prime_127 : Z.prime 127.
Proof. apply small_prime. reflexivity. Qed.
#[local] Hint Resolve prime_127 : primes.

Lemma prime_3557 : Z.prime 3557.
Proof. certify 3557 [(127, 2)]. Qed.
#[local] Hint Resolve prime_3557 : primes.

Lemma prime_13 : Z.prime 13.
Proof. apply small_prime. reflexivity. Qed.
#[local] Hint Resolve prime_13 : primes.

Lemma prime_7 : Z.prime 7.
Proof. apply small_prime. reflexivity. Qed.
#[local] Hint Resolve prime_7 : primes.

Lemma prime_911 : Z.prime 911.
Proof. certify 911 [(13, 2); (7, 2)]. Qed.
#[local] Hint Resolve prime_911 : primes.

Lemma prime_1263766531 : Z.prime 1263766531.
Proof. certify 1263766531 [(3557, 2); (911, 2)]. Qed.
#[local] Hint Resolve prime_1263766531 : primes.

Lemma prime_35385462869 : Z.prime 35385462869.
Proof. certify 35385462869 [(1263766531, 2)]. Qed.
#[local] Hint Resolve prime_35385462869 : primes.

Lemma prime_2480874801745591 : Z.prime 2480874801745591.
Proof. certify 2480874801745591 [(35385462869, 2)]. Qed.
#[local] Hint Resolve prime_2480874801745591 : primes.

Lemma prime_37 : Z.prime 37.
Proof. apply small_prime. reflexivity. Qed.
#[local] Hint Resolve prime_37 : primes.

Lemma prime_5 : Z.prime 5.
Proof. apply small_prime. reflexivity. Qed.
#[local] Hint Resolve prime_5 : primes.

Lemma prime_2221 : Z.prime 2221.
Proof. certify 2221 [(37, 2); (5, 2)]. Qed.
#[local] Hint Resolve prime_2221 : primes.

Lemma prime_13327 : Z.prime 13327.
Proof. certify 13327 [(2221, 2)]. Qed.
#[local] Hint Resolve prime_13327 : primes.

Lemma prime_173171039 : Z.prime 173171039.
Proof. certify 173171039 [(13327, 2)]. Qed.
#[local] Hint Resolve prime_173171039 : primes.

Lemma prime_13427688667394608761327070753331941386769 : Z.prime 13427688667394608761327070753331941386769.
Proof. certify 13427688667394608761327070753331941386769 [(2480874801745591, 2); (173171039, 2)]. Qed.
#[local] Hint Resolve prime_13427688667394608761327070753331941386769 : primes.

Lemma prime_P : Z.prime P.
Proof. certify P [(13427688667394608761327070753331941386769, 2)]. Qed.
#[local] Hint Resolve prime_P : primes.

(** ** The prime field *)

(** An integer is invertible modulo [P] unless [P] divides it. *)
Lemma unit_P_iff z : unitm P z <-> z mod P <> 0.
Proof. apply prime_unit_iff, prime_P. Qed.

Lemma unit_P_dec z : z mod P = 0 \/ unitm P z.
Proof. destruct (Z.eq_dec (z mod P) 0) as [E|E]; [left; exact E | right; apply unit_P_iff, E]. Qed.

(** [-1] is not a square: [P] is 3 modulo 4. *)
Lemma minus_1_nonresidue x : ~ x * x ≡[P] -1.
Proof.
  intros H. assert (HP : 0 < P) by reflexivity.
  assert (U : unitm P x).
  { apply unit_intro with (b := - x); [exact HP|]. transitivity (- (x * x)); [apply eqm_eq; ring|].
    rewrite H. apply eqm_eq. ring. }
  pose proof (fermat P prime_P x U) as F. set (k := (P - 3) / 4).
  assert (Ek : P - 1 = 2 * (2 * k + 1)) by reflexivity. rewrite Ek, Z.pow_mul_r in F by (vm_compute; discriminate).
  rewrite Z.pow_2_r, H in F. rewrite Z.pow_add_r, Z.pow_mul_r in F by (vm_compute; discriminate).
  change ((-1) ^ 2) with 1 in F. rewrite Z.pow_1_l in F by (vm_compute; discriminate). discriminate F.
Qed.

(** A sum of two squares vanishes only for multiples of [P]. *)
Lemma sum_squares_unit x y : x mod P <> 0 \/ y mod P <> 0 -> unitm P (x * x + y * y).
Proof.
  intros H. assert (HP : 0 < P) by reflexivity. destruct (unit_P_dec (x * x + y * y)) as [E|U]; [exfalso|exact U].
  assert (S : forall a b, unitm P b -> a * a + b * b ≡[P] 0 -> False).
  { intros a b Ub C. apply (minus_1_nonresidue (a * inv P b)). pose proof (inv_r P HP b Ub) as I.
    transitivity ((a * a + b * b) * (inv P b * inv P b) - (b * inv P b) * (b * inv P b)); [apply eqm_eq; ring|].
    rewrite C, I. apply eqm_eq. ring. }
  assert (C : x * x + y * y ≡[P] 0) by (unfold eqm; rewrite E; reflexivity).
  destruct H as [H|H]; apply unit_P_iff in H; [apply (S y x H)|apply (S x y H)]; [rewrite Z.add_comm|]; exact C.
Qed.
