(* ===== verification/Bn256Tower.v ===== *)
(** * The field tower of [bn256] is a tower of commutative rings

    Equality of elements up to congruence of their coefficients modulo [P];
    each level is a commutative ring for it, the optimised products (Karatsuba,
    complex squaring, [MulXi], [MulTau]) are the ring's products, [Exp] is the
    power and [Invert] an inverse whenever the norm is a unit. *)

From Stdlib Require Import ZArith List Lia Bool Setoid Morphisms Ring_theory Ring.
From S2P Require Import Prelude GoBig ModArith Jacobian Bn256Field.
Import ListNotations.
Local Open Scope Z_scope.

(** ** [gfP2] *)

Definition eq2 (a b : gfP2) : Prop := x2 a ≡[P] x2 b /\ y2 a ≡[P] y2 b.

Declare Scope fp2_scope.
Delimit Scope fp2_scope with fp2.
Bind Scope fp2_scope with gfP2.
Infix "==" := eq2 (at level 70, no associativity) : fp2_scope.
Infix "+" := GFp2.Add : fp2_scope.
Infix "-" := GFp2.Sub : fp2_scope.
Infix "*" := GFp2.Mul : fp2_scope.
Notation "- a" := (GFp2.Negative a) : fp2_scope.
Notation "0" := GFp2.SetZero : fp2_scope.
Notation "1" := GFp2.SetOne : fp2_scope.

#[export] Instance eq2_equivalence : Equivalence eq2.
Proof.
  split.
  - intros a; split; reflexivity.
  - intros a b [H1 H2]; split; symmetry; assumption.
  - intros a b c [H1 H2] [H3 H4]; split; etransitivity; eassumption.
Qed.

(** Prove an equation of [gfP2] coefficient by coefficient. *)
Ltac fp2_unfold :=
  unfold eq2, GFp2.Add, GFp2.Sub, GFp2.Mul, GFp2.Negative, GFp2.Conjugate, GFp2.SetZero, GFp2.SetOne,
    GFp2.Double, GFp2.Square, GFp2.MulXi, GFp2.MulScalar in *;
  cbv zeta in *; cbn [x2 y2] in *; rewrite ?Z.shiftl_mul_pow2 in * by lia.
Ltac fp2_coeffs := intros; fp2_unfold; split; mod_ring P.

#[export] Instance fp2_add_proper : Proper (eq2 ==> eq2 ==> eq2) GFp2.Add.
Proof. intros a a' [H1 H2] b b' [H3 H4]. split; cbn; [rewrite H1, H3 | rewrite H2, H4]; reflexivity. Qed.
#[export] Instance fp2_sub_proper : Proper (eq2 ==> eq2 ==> eq2) GFp2.Sub.
Proof. intros a a' [H1 H2] b b' [H3 H4]. split; cbn; [rewrite H1, H3 | rewrite H2, H4]; reflexivity. Qed.
#[export] Instance fp2_neg_proper : Proper (eq2 ==> eq2) GFp2.Negative.
Proof. intros a a' [H1 H2]. split; cbn; [rewrite H1 | rewrite H2]; reflexivity. Qed.
#[export] Instance fp2_mul_proper : Proper (eq2 ==> eq2 ==> eq2) GFp2.Mul.
Proof.
  intros a a' [H1 H2] b b' [H3 H4]. split; cbn; rewrite !mod_eqm, H1, H2, H3, H4; reflexivity.
Qed.

Lemma fp2_ring_theory :
  ring_theory GFp2.SetZero GFp2.SetOne GFp2.Add GFp2.Mul GFp2.Sub GFp2.Negative eq2.
Proof. split; fp2_coeffs. Qed.

Lemma fp2_ring_ext : ring_eq_ext GFp2.Add GFp2.Mul GFp2.Negative eq2.
Proof. split; [exact fp2_add_proper | exact fp2_mul_proper | exact fp2_neg_proper]. Qed.

Add Ring fp2_ring : fp2_ring_theory (setoid eq2_equivalence fp2_ring_ext).

(** [xi = i + 9] and the embedding of the integers. *)
Definition xi : gfP2 := mkGFp2 1 9.
Definition of_Z (k : Z) : gfP2 := mkGFp2 0 k.

Section fp2.
Local Open Scope fp2_scope.

(** These two hold of the representations, not only up to congruence. *)
Lemma fp2_double a : GFp2.Double a = a + a.
Proof. unfold GFp2.Double, GFp2.Add. f_equal; rewrite Z.shiftl_mul_pow2 by lia; ring. Qed.
Lemma fp2_square a : GFp2.Square a = a * a.
Proof.
  unfold GFp2.Square, GFp2.Mul. cbv zeta. f_equal; f_equal; rewrite ?Z.shiftl_mul_pow2 by lia; ring.
Qed.
Lemma fp2_mulxi a : GFp2.MulXi a == xi * a.
Proof. unfold xi. fp2_coeffs. Qed.
Lemma fp2_mulscalar a k : GFp2.MulScalar a k == of_Z k * a.
Proof. unfold of_Z. fp2_coeffs. Qed.

(** The norm [x^2 + y^2] of [x i + y]. *)
Definition norm2 (a : gfP2) : Z := (y2 a * y2 a + x2 a * x2 a)%Z.

Lemma fp2_invert a : unitm P (norm2 a) -> a * GFp2.Invert a == 1.
Proof.
  intros H. pose proof (inv_r P P_pos _ H) as E. unfold norm2 in *.
  unfold GFp2.Invert. cbv zeta. set (i := inv P _) in *.
  fp2_unfold. split; rewrite !mod_eqm; [|rewrite <- E]; mod_ring P.
Qed.

Lemma fp2_unit_cancel a b c : a * b == 1 -> a * c == 1 -> b == c.
Proof.
  intros Hb Hc. transitivity (b * (a * c)); [rewrite Hc; ring|].
  transitivity (a * b * c); [ring|]. rewrite Hb. ring.
Qed.

Lemma fp2_minimal a : GFp2.Minimal a == a.
Proof.
  assert (R : forall v, reduce v ≡[P] v) by (intros v; unfold reduce; split_match; [apply mod_eqm | reflexivity]).
  split; apply R.
Qed.

(** Reduced elements are equal as soon as they are congruent. *)
Definition reduced2 (a : gfP2) : Prop := (0 <= x2 a < P)%Z /\ (0 <= y2 a < P)%Z.

Lemma fp2_eq_reduced a b : reduced2 a -> reduced2 b -> a == b -> a = b.
Proof.
  destruct a as [ax ay], b as [bx by_]. intros [Ha1 Ha2] [Hb1 Hb2] [E1 E2]. cbn in *.
  unfold eqm in *. rewrite !Z.mod_small in E1, E2 by assumption. congruence.
Qed.

Lemma reduced2_mul a b : reduced2 (a * b).
Proof. split; cbn; apply Z.mod_pos_bound, P_pos. Qed.
Lemma reduced2_square a : reduced2 (GFp2.Square a).
Proof. split; cbn; apply Z.mod_pos_bound, P_pos. Qed.
Lemma reduce_range v : (0 <= reduce v < P)%Z.
Proof.
  unfold reduce. pose proof (Z.mod_pos_bound v P P_pos). rewrite Z.geb_leb.
  destruct (Z.ltb_spec v 0), (Z.leb_spec P v); cbn; lia.
Qed.
Lemma reduced2_minimal a : reduced2 (GFp2.Minimal a).
Proof. split; apply reduce_range. Qed.

End fp2.

#[export] Instance fp2_double_proper : Proper (eq2 ==> eq2) GFp2.Double.
Proof. intros a b H. rewrite !fp2_double, H. reflexivity. Qed.
#[export] Instance fp2_square_proper : Proper (eq2 ==> eq2) GFp2.Square.
Proof. intros a b H. rewrite !fp2_square, H. reflexivity. Qed.
#[export] Instance fp2_mulxi_proper : Proper (eq2 ==> eq2) GFp2.MulXi.
Proof. intros a b H. rewrite !fp2_mulxi, H. reflexivity. Qed.

Definition pow2 : gfP2 -> nat -> gfP2 := npow GFp2.SetOne GFp2.Mul.

Lemma fp2_exp a power : 0 <= power -> eq2 (GFp2.Exp a power) (pow2 a (Z.to_nat power)).
Proof.
  intros H. apply (square_multiply eq2 GFp2.SetOne GFp2.Mul); intros; try ring; [rewrite fp2_square; reflexivity | exact H].
Qed.

(** ** [gfP6] *)

Definition eq6 (a b : gfP6) : Prop := eq2 (x6 a) (x6 b) /\ eq2 (y6 a) (y6 b) /\ eq2 (z6 a) (z6 b).

Declare Scope fp6_scope.
Delimit Scope fp6_scope with fp6.
Bind Scope fp6_scope with gfP6.
Infix "==" := eq6 (at level 70, no associativity) : fp6_scope.
Infix "+" := GFp6.Add : fp6_scope.
Infix "-" := GFp6.Sub : fp6_scope.
Infix "*" := GFp6.Mul : fp6_scope.
Notation "- a" := (GFp6.Negative a) : fp6_scope.
Notation "0" := GFp6.SetZero : fp6_scope.
Notation "1" := GFp6.SetOne : fp6_scope.

#[export] Instance eq6_equivalence : Equivalence eq6.
Proof.
  split.
  - intros a; repeat split; reflexivity.
  - intros a b (H1 & H2 & H3); split; [|split]; symmetry; assumption.
  - intros a b c (H1 & H2 & H3) (H4 & H5 & H6); split; [|split]; etransitivity; eassumption.
Qed.

#[export] Instance mkGFp6_proper : Proper (eq2 ==> eq2 ==> eq2 ==> eq6) mkGFp6.
Proof. intros a a' H1 b b' H2 c c' H3. split; [|split]; assumption. Qed.
#[export] Instance x6_proper : Proper (eq6 ==> eq2) x6.
Proof. intros a b H. apply H. Qed.
#[export] Instance y6_proper : Proper (eq6 ==> eq2) y6.
Proof. intros a b H. apply H. Qed.
#[export] Instance z6_proper : Proper (eq6 ==> eq2) z6.
Proof. intros a b H. apply H. Qed.

(** Bring the optimised products of [gfP2] back to products. *)
Ltac fp2_norm := rewrite ?fp2_square, ?fp2_mulxi, ?fp2_double, ?fp2_mulscalar.

Ltac fp6_unfold :=
  unfold eq6, GFp6.Add, GFp6.Sub, GFp6.Mul, GFp6.Negative, GFp6.SetZero, GFp6.SetOne,
    GFp6.Double, GFp6.Square, GFp6.MulTau, GFp6.MulScalar, GFp6.MulGFP in *;
  cbv zeta in *; cbn [x6 y6 z6] in *.
Ltac fp6_coeffs := intros; fp6_unfold; split; [|split]; fp2_norm; ring.

#[export] Instance fp6_add_proper : Proper (eq6 ==> eq6 ==> eq6) GFp6.Add.
Proof.
  intros a a' (H1 & H2 & H3) b b' (H4 & H5 & H6).
  split; [|split]; cbn; [rewrite H1, H4 | rewrite H2, H5 | rewrite H3, H6]; reflexivity.
Qed.
#[export] Instance fp6_sub_proper : Proper (eq6 ==> eq6 ==> eq6) GFp6.Sub.
Proof.
  intros a a' (H1 & H2 & H3) b b' (H4 & H5 & H6).
  split; [|split]; cbn; [rewrite H1, H4 | rewrite H2, H5 | rewrite H3, H6]; reflexivity.
Qed.
#[export] Instance fp6_neg_proper : Proper (eq6 ==> eq6) GFp6.Negative.
Proof.
  intros a a' (H1 & H2 & H3). split; [|split]; cbn; [rewrite H1 | rewrite H2 | rewrite H3]; reflexivity.
Qed.
#[export] Instance fp6_mul_proper : Proper (eq6 ==> eq6 ==> eq6) GFp6.Mul.
Proof.
  intros a a' (H1 & H2 & H3) b b' (H4 & H5 & H6). unfold GFp6.Mul. cbv zeta.
  split; [|split]; cbn [x6 y6 z6]; rewrite H1, H2, H3, H4, H5, H6; reflexivity.
Qed.

Lemma fp6_ring_theory :
  ring_theory GFp6.SetZero GFp6.SetOne GFp6.Add GFp6.Mul GFp6.Sub GFp6.Negative eq6.
Proof. split; fp6_coeffs. Qed.

Lemma fp6_ring_ext : ring_eq_ext GFp6.Add GFp6.Mul GFp6.Negative eq6.
Proof. split; [exact fp6_add_proper | exact fp6_mul_proper | exact fp6_neg_proper]. Qed.

Add Ring fp6_ring : fp6_ring_theory (setoid eq6_equivalence fp6_ring_ext).

Definition tau : gfP6 := mkGFp6 GFp2.SetZero GFp2.SetOne GFp2.SetZero.
Definition of_fp2 (a : gfP2) : gfP6 := mkGFp6 GFp2.SetZero GFp2.SetZero a.

Section fp6.
Local Open Scope fp6_scope.

(** The Karatsuba product is the product of polynomials in [tau] with [tau^3 = xi]. *)
Lemma fp6_mul_schoolbook a b :
  a * b == (mkGFp6 (x6 a * z6 b + y6 a * y6 b + z6 a * x6 b)
                   (y6 a * z6 b + z6 a * y6 b + xi * (x6 a * x6 b))
                   (z6 a * z6 b + xi * (x6 a * y6 b + y6 a * x6 b)))%fp2.
Proof. fp6_coeffs. Qed.

Lemma fp6_tau3 : tau * tau * tau == of_fp2 xi.
Proof. unfold tau, of_fp2. fp6_coeffs. Qed.

Lemma fp6_square a : GFp6.Square a == a * a.
Proof. fp6_coeffs. Qed.
Lemma fp6_double a : GFp6.Double a == a + a.
Proof. fp6_coeffs. Qed.
Lemma fp6_multau a : GFp6.MulTau a == tau * a.
Proof. unfold tau. fp6_coeffs. Qed.
Lemma fp6_mulscalar a b : GFp6.MulScalar a b == of_fp2 b * a.
Proof. unfold of_fp2. fp6_coeffs. Qed.

(** The norm [x^3 xi^2 + y^3 xi + z^3 - 3 xi x y z] of [x tau^2 + y tau + z]. *)
Definition norm6 (a : gfP6) : gfP2 :=
  (xi * xi * (x6 a * x6 a * x6 a) + xi * (y6 a * y6 a * y6 a) + z6 a * z6 a * z6 a
   - (1 + 1 + 1) * xi * (x6 a * y6 a * z6 a))%fp2.

Lemma norm2_proper a b : eq2 a b -> norm2 a ≡[P] norm2 b.
Proof. intros [H1 H2]. unfold norm2. rewrite H1, H2. reflexivity. Qed.

Lemma fp6_invert a : unitm P (norm2 (norm6 a)) -> a * GFp6.Invert a == 1.
Proof.
  intros H. unfold GFp6.Invert. cbv zeta.
  match goal with |- context [GFp2.Invert ?f] => set (F := f) end.
  assert (EF : eq2 F (norm6 a)) by (unfold F, norm6; fp2_norm; ring).
  assert (EI : eq2 (norm6 a * GFp2.Invert F)%fp2 1%fp2).
  { rewrite <- EF. apply fp2_invert. apply (unit_eqm P _ _ P_pos H). symmetry. apply norm2_proper, EF. }
  clearbody F. set (F' := GFp2.Invert F) in *. clearbody F'.
  rewrite fp6_mul_schoolbook. fp6_unfold. split; [|split]; fp2_norm; [ring|ring|].
  rewrite <- EI. unfold norm6. ring.
Qed.

Lemma fp6_minimal a : GFp6.Minimal a == a.
Proof. split; [|split]; apply fp2_minimal. Qed.

End fp6.

#[export] Instance fp6_square_proper : Proper (eq6 ==> eq6) GFp6.Square.
Proof. intros a b H. rewrite !fp6_square, H. reflexivity. Qed.
#[export] Instance fp6_multau_proper : Proper (eq6 ==> eq6) GFp6.MulTau.
Proof. intros a b H. rewrite !fp6_multau, H. reflexivity. Qed.
#[export] Instance fp6_double_proper : Proper (eq6 ==> eq6) GFp6.Double.
Proof. intros a b H. rewrite !fp6_double, H. reflexivity. Qed.

(** ** [gfP12] *)

Definition eq12 (a b : gfP12) : Prop := eq6 (x12 a) (x12 b) /\ eq6 (y12 a) (y12 b).

Declare Scope fp12_scope.
Delimit Scope fp12_scope with fp12.
Bind Scope fp12_scope with gfP12.
Infix "==" := eq12 (at level 70, no associativity) : fp12_scope.
Infix "+" := GFp12.Add : fp12_scope.
Infix "-" := GFp12.Sub : fp12_scope.
Infix "*" := GFp12.Mul : fp12_scope.
Notation "- a" := (GFp12.Negative a) : fp12_scope.
Notation "0" := GFp12.SetZero : fp12_scope.
Notation "1" := GFp12.SetOne : fp12_scope.

#[export] Instance eq12_equivalence : Equivalence eq12.
Proof.
  split.
  - intros a; split; reflexivity.
  - intros a b [H1 H2]; split; symmetry; assumption.
  - intros a b c [H1 H2] [H3 H4]; split; etransitivity; eassumption.
Qed.

#[export] Instance mkGFp12_proper : Proper (eq6 ==> eq6 ==> eq12) mkGFp12.
Proof. intros a a' H1 b b' H2. split; assumption. Qed.
#[export] Instance x12_proper : Proper (eq12 ==> eq6) x12.
Proof. intros a b H. apply H. Qed.
#[export] Instance y12_proper : Proper (eq12 ==> eq6) y12.
Proof. intros a b H. apply H. Qed.

(** Bring the optimised products of [gfP6] back to products. *)
Ltac fp6_norm := rewrite ?fp6_square, ?fp6_multau, ?fp6_double.

Ltac fp12_unfold :=
  unfold eq12, GFp12.Add, GFp12.Sub, GFp12.Mul, GFp12.Negative, GFp12.SetZero, GFp12.SetOne,
    GFp12.Square, GFp12.MulScalar, GFp12.Conjugate in *;
  cbv zeta in *; cbn [x12 y12] in *.
Ltac fp12_coeffs := intros; fp12_unfold; split; fp6_norm; ring.

#[export] Instance fp12_add_proper : Proper (eq12 ==> eq12 ==> eq12) GFp12.Add.
Proof. intros a a' [H1 H2] b b' [H3 H4]. split; cbn [x12 y12 GFp12.Add]; [rewrite H1, H3 | rewrite H2, H4]; reflexivity. Qed.
#[export] Instance fp12_sub_proper : Proper (eq12 ==> eq12 ==> eq12) GFp12.Sub.
Proof. intros a a' [H1 H2] b b' [H3 H4]. split; cbn [x12 y12 GFp12.Sub]; [rewrite H1, H3 | rewrite H2, H4]; reflexivity. Qed.
#[export] Instance fp12_neg_proper : Proper (eq12 ==> eq12) GFp12.Negative.
Proof. intros a a' [H1 H2]. split; cbn [x12 y12 GFp12.Negative]; [rewrite H1 | rewrite H2]; reflexivity. Qed.
#[export] Instance fp12_mul_proper : Proper (eq12 ==> eq12 ==> eq12) GFp12.Mul.
Proof.
  intros a a' [H1 H2] b b' [H3 H4]. unfold GFp12.Mul. cbv zeta.
  split; cbn [x12 y12]; rewrite H1, H2, H3, H4; reflexivity.
Qed.

Lemma fp12_ring_theory :
  ring_theory GFp12.SetZero GFp12.SetOne GFp12.Add GFp12.Mul GFp12.Sub GFp12.Negative eq12.
Proof. split; fp12_coeffs. Qed.

Lemma fp12_ring_ext : ring_eq_ext GFp12.Add GFp12.Mul GFp12.Negative eq12.
Proof. split; [exact fp12_add_proper | exact fp12_mul_proper | exact fp12_neg_proper]. Qed.

Add Ring fp12_ring : fp12_ring_theory (setoid eq12_equivalence fp12_ring_ext).

Definition omega : gfP12 := mkGFp12 GFp6.SetOne GFp6.SetZero.
Definition of_fp6 (a : gfP6) : gfP12 := mkGFp12 GFp6.SetZero a.
Definition pow12 : gfP12 -> nat -> gfP12 := npow GFp12.SetOne GFp12.Mul.

Section fp12.
Local Open Scope fp12_scope.

Lemma fp12_omega2 : omega * omega == of_fp6 tau.
Proof. unfold omega, of_fp6. fp12_coeffs. Qed.

Lemma fp12_square a : GFp12.Square a == a * a.
Proof. fp12_coeffs. Qed.

Lemma fp12_exp a power : (0 <= power)%Z -> GFp12.Exp a power == pow12 a (Z.to_nat power).
Proof.
  intros H. apply (square_multiply eq12 GFp12.SetOne GFp12.Mul); intros; try ring; [apply fp12_square | exact H].
Qed.

(** The norm [y^2 - tau x^2] of [x omega + y]. *)
Definition norm12 (a : gfP12) : gfP6 := (y12 a * y12 a - tau * (x12 a * x12 a))%fp6.

Lemma norm6_proper a b : eq6 a b -> eq2 (norm6 a) (norm6 b).
Proof. intros (H1 & H2 & H3). unfold norm6. rewrite H1, H2, H3. reflexivity. Qed.

(** The norm down to the integers. *)
Definition norm (a : gfP12) : Z := norm2 (norm6 (norm12 a)).

Lemma fp12_invert a : unitm P (norm a) -> a * GFp12.Invert a == 1.
Proof.
  intros H. unfold GFp12.Invert, GFp12.MulScalar. cbv zeta. cbn [x12 y12].
  match goal with |- context [GFp6.Invert ?f] => set (F := f) end.
  assert (EF : eq6 F (norm12 a)) by (unfold F, norm12; fp6_norm; ring).
  assert (EI : eq6 (norm12 a * GFp6.Invert F)%fp6 1%fp6).
  { rewrite <- EF. apply fp6_invert. apply (unit_eqm P _ _ P_pos H). symmetry. apply norm2_proper, norm6_proper, EF. }
  clearbody F. set (F' := GFp6.Invert F) in *. clearbody F'.
  fp12_unfold. split; fp6_norm; [ring|]. rewrite <- EI. unfold norm12. ring.
Qed.

Lemma fp12_minimal a : GFp12.Minimal a == a.
Proof. split; apply fp6_minimal. Qed.

End fp12.
