(* ===== verification/Bn256Curve.v ===== *)
(** * Package [bn256]: the curve of G1

    [curve.go]: points of [y^2 = x^3 + 3] over the integers modulo [P], in
    Jacobian coordinates.  [Add] and [Double] leave the field [t] of their
    receiver as it was, so they take the receiver; the receiver of [Double] is
    assumed to be another object than its argument (with [c == a] the code
    would read the new [y]), which is how the package calls it. *)

From Stdlib Require Import ZArith List Lia Bool Setoid Morphisms Ring_theory Ring.
From S2P Require Import Prelude GoBig ModArith Jacobian Bn256Field.
Import ListNotations.
Local Open Scope Z_scope.

Record curvePoint := mkCurve { cx : Z; cy : Z; cz : Z; ct : Z }.

Definition curveB : Z := 3.

Module CurvePoint.

Definition curveGen : curvePoint := mkCurve 1 (-2) 1 1.

(** A point fresh from an empty pool. *)
Definition newCurvePoint : curvePoint := mkCurve 0 0 0 0.

Definition IsOnCurve (c : curvePoint) : bool :=
  let yy := cy c * cy c in
  let xxx := cx c * cx c in
  let xxx := xxx * cx c in
  let yy := yy - xxx in
  let yy := yy - curveB in
  let yy := if (yy <? 0) || (yy >=? P) then yy mod P else yy in
  yy =? 0.

Definition SetInfinity (c : curvePoint) : curvePoint := mkCurve (cx c) (cy c) 0 (ct c).
Definition IsInfinity (c : curvePoint) : bool := cz c =? 0.

Definition Double (c a : curvePoint) : curvePoint :=
  let A := (cx a * cx a) mod P in
  let B := (cy a * cy a) mod P in
  let C_ := (B * B) mod P in
  let t := cx a + B in
  let t2 := (t * t) mod P in
  let t := t2 - A in
  let t2 := t - C_ in
  let d := t2 + t2 in
  let t := A + A in
  let e := t + A in
  let f := (e * e) mod P in
  let t := d + d in
  let c_x := f - t in
  let t := C_ + C_ in
  let t2 := t + t in
  let t := t2 + t2 in
  let c_y := d - c_x in
  let t2 := (e * c_y) mod P in
  let c_y := t2 - t in
  let t := (cy a * cz a) mod P in
  let c_z := t + t in
  mkCurve c_x c_y c_z (ct c).

Definition Add (c a b : curvePoint) : curvePoint :=
  if IsInfinity a then b
  else if IsInfinity b then a
  else
    let z1z1 := (cz a * cz a) mod P in
    let z2z2 := (cz b * cz b) mod P in
    let u1 := (cx a * z2z2) mod P in
    let u2 := (cx b * z1z1) mod P in
    let t := (cz b * z2z2) mod P in
    let s1 := (cy a * t) mod P in
    let t := (cz a * z1z1) mod P in
    let s2 := (cy b * t) mod P in
    let h := u2 - u1 in
    let xEqual := h =? 0 in
    let t := h + h in
    let i := (t * t) mod P in
    let j := (h * i) mod P in
    let t := s2 - s1 in
    let yEqual := t =? 0 in
    if xEqual && yEqual then Double c a
    else
      let r := t + t in
      let v := (u1 * i) mod P in
      let t4 := (r * r) mod P in
      let t := v + v in
      let t6 := t4 - j in
      let c_x := t6 - t in
      let t := v - c_x in
      let t4 := (s1 * j) mod P in
      let t6 := t4 + t4 in
      let t4 := (r * t) mod P in
      let c_y := t4 - t6 in
      let t := cz a + cz b in
      let t4 := (t * t) mod P in
      let t := t4 - z1z1 in
      let t4 := t - z2z2 in
      let c_z := (t4 * h) mod P in
      mkCurve c_x c_y c_z (ct c).

(** The loop runs from [BitLen] down to 0; [sum] and [t] are its two points. *)
Definition Mul (a : curvePoint) (scalar : Z) : curvePoint :=
  fst (for_down (Z.to_nat (BitLen scalar + 1))
    (fun i '(sum, t) =>
       let t := Double t sum in
       if Z.testbit scalar i then (Add sum t a, t) else (t, t))
    (SetInfinity newCurvePoint, newCurvePoint)).

(** [Bits] is the magnitude of [z]. *)
Definition MakeAffine (c : curvePoint) : curvePoint :=
  if Z.abs (cz c) =? 1 then c
  else
    let zInv := inv P (cz c) in
    let t := (cy c * zInv) mod P in
    let zInv2 := (zInv * zInv) mod P in
    let c_y := (t * zInv2) mod P in
    let t := (cx c * zInv2) mod P in
    mkCurve t c_y 1 1.

Definition Negative (a : curvePoint) : curvePoint := mkCurve (cx a) (- cy a) (cz a) 0.

End CurvePoint.
Import CurvePoint.

(** ** The integers modulo [P] as the ring of the formulas *)

Lemma fp_ring_theory : ring_theory 0 1 Z.add Z.mul Z.sub Z.opp (eqm P).
Proof. split; intros; apply eqm_eq; ring. Qed.

Lemma fp_ring_ext : ring_eq_ext Z.add Z.mul Z.opp (eqm P).
Proof. split; [exact (add_eqm P) | exact (mul_eqm P) | exact (opp_eqm P)]. Qed.

Definition on_curve (c : curvePoint) : Prop := jac_on Z.add Z.mul (eqm P) curveB (cx c) (cy c) (cz c).
Definition stands_for (c : curvePoint) (px py : Z) : Prop := jac_is Z.mul (eqm P) (cx c) (cy c) (cz c) px py.

Local Abbreviation Fdbl_x := (dbl_x 1 Z.add Z.mul Z.sub).
Local Abbreviation Fdbl_y := (dbl_y 1 Z.add Z.mul Z.sub).
Local Abbreviation Fdbl_z := (dbl_z 1 Z.add Z.mul).
Local Abbreviation Fadd f := (f _ 1 Z.add Z.mul Z.sub).

(** [Double] computes the doubling formulas. *)
Lemma Double_formulas c a :
  cx (Double c a) ≡[P] Fdbl_x (cx a) (cy a) /\ cy (Double c a) ≡[P] Fdbl_y (cx a) (cy a) /\
  cz (Double c a) ≡[P] Fdbl_z (cy a) (cz a) /\ ct (Double c a) = ct c.
Proof.
  unfold Double, dbl_y, dbl_x, dbl_z, dbl_d, dbl_e. cbv zeta. cbn [cx cy cz ct].
  split; [|split; [|split; [|reflexivity]]]; mod_ring P.
Qed.

Section add_formulas.
Variables c a b : curvePoint.
Local Abbreviation args f := (f (cx a) (cy a) (cz a) (cx b) (cy b) (cz b)).

(** The two points have the same coordinates, as [Add] tests it. *)
Definition same_point : bool :=
  (((cx b * ((cz a * cz a) mod P)) mod P - (cx a * ((cz b * cz b) mod P)) mod P) =? 0) &&
  (((cy b * ((cz a * ((cz a * cz a) mod P)) mod P)) mod P -
    (cy a * ((cz b * ((cz b * cz b) mod P)) mod P)) mod P) =? 0).

Lemma same_point_iff :
  same_point = true <->
  cx b * (cz a * cz a) ≡[P] cx a * (cz b * cz b) /\
  cy b * (cz a * cz a * cz a) ≡[P] cy a * (cz b * cz b * cz b).
Proof.
  assert (D : forall m n, (m mod P - n mod P =? 0) = true <-> m ≡[P] n).
  { intros m n. rewrite Z.eqb_eq. unfold eqm. lia. }
  unfold same_point. rewrite andb_true_iff, !D.
  split; intros [H1 H2]; split;
    repeat setoid_rewrite (mod_eqm P); repeat setoid_rewrite (mod_eqm P) in H1;
    repeat setoid_rewrite (mod_eqm P) in H2; try exact H1; rewrite ?Z.mul_assoc in *; exact H2.
Qed.

(** [Add] computes the addition formulas on two finite, different points. *)
Lemma Add_formulas : cz a <> 0 -> cz b <> 0 -> same_point = false ->
  cx (Add c a b) ≡[P] args (add_x 1 Z.add Z.mul Z.sub) /\
  cy (Add c a b) ≡[P] args (add_y 1 Z.add Z.mul Z.sub) /\
  cz (Add c a b) ≡[P] add_z 1 Z.add Z.mul Z.sub (cx a) (cz a) (cx b) (cz b) /\ ct (Add c a b) = ct c.
Proof.
  intros Ha Hb Hs. unfold Add, IsInfinity.
  rewrite (proj2 (Z.eqb_neq (cz a) 0) Ha), (proj2 (Z.eqb_neq (cz b) 0) Hb). cbv zeta.
  unfold same_point in Hs. rewrite Hs. cbn [cx cy cz ct].
  unfold add_y, add_x, add_z, add_v, add_j, add_r, add_h, add_u1, add_u2, add_s1, add_s2.
  split; [|split; [|split; [|reflexivity]]]; mod_ring P.
Qed.

Lemma Add_same : cz a <> 0 -> cz b <> 0 -> same_point = true -> Add c a b = Double c a.
Proof.
  intros Ha Hb Hs. unfold Add, IsInfinity.
  rewrite (proj2 (Z.eqb_neq (cz a) 0) Ha), (proj2 (Z.eqb_neq (cz b) 0) Hb). cbv zeta.
  unfold same_point in Hs. rewrite Hs. reflexivity.
Qed.

End add_formulas.

(** ** Points stay on the curve *)

(** Infinity, or a point of the curve. *)
Definition valid_point (c : curvePoint) : Prop := cz c = 0 \/ on_curve c.

Lemma jac_on_eqm b x x' y y' z z' : x ≡[P] x' -> y ≡[P] y' -> z ≡[P] z' ->
  jac_on Z.add Z.mul (eqm P) b x' y' z' -> jac_on Z.add Z.mul (eqm P) b x y z.
Proof. unfold jac_on. intros -> -> ->. exact (fun H => H). Qed.

Lemma jac_is_eqm x x' y y' z z' px px' py py' :
  x ≡[P] x' -> y ≡[P] y' -> z ≡[P] z' -> px ≡[P] px' -> py ≡[P] py' ->
  jac_is Z.mul (eqm P) x' y' z' px' py' -> jac_is Z.mul (eqm P) x y z px py.
Proof. unfold jac_is. intros -> -> -> -> ->. exact (fun H => H). Qed.

Lemma Double_on c a : on_curve a -> on_curve (Double c a).
Proof.
  intros H. destruct (Double_formulas c a) as (E1 & E2 & E3 & _).
  eapply jac_on_eqm; [exact E1|exact E2|exact E3|]. exact (dbl_on _ _ _ _ _ _ _ fp_ring_theory fp_ring_ext _ _ _ _ H).
Qed.

Lemma Double_infinity c a : cz a = 0 -> cz (Double c a) = 0.
Proof. intros H. unfold Double. cbv zeta. cbn [cz]. rewrite H, Z.mul_0_r, Z.mod_0_l by discriminate. reflexivity. Qed.

Lemma Double_valid c a : valid_point a -> valid_point (Double c a).
Proof. intros [H|H]; [left; apply Double_infinity | right; apply Double_on]; exact H. Qed.

Lemma Add_infinity_l c a b : cz a = 0 -> Add c a b = b.
Proof. intros H. unfold Add, IsInfinity. rewrite H. reflexivity. Qed.

Lemma Add_infinity_r c a b : cz a <> 0 -> cz b = 0 -> Add c a b = a.
Proof.
  intros Ha H. unfold Add, IsInfinity. rewrite H, (proj2 (Z.eqb_neq (cz a) 0) Ha). reflexivity.
Qed.

Lemma Add_valid c a b : valid_point a -> valid_point b -> valid_point (Add c a b).
Proof.
  intros Ha Hb. destruct (Z.eq_dec (cz a) 0) as [Za|Za]; [rewrite Add_infinity_l; assumption|].
  destruct (Z.eq_dec (cz b) 0) as [Zb|Zb]; [rewrite Add_infinity_r; assumption|].
  destruct (same_point a b) eqn:S; [rewrite Add_same by assumption; apply Double_valid; exact Ha|].
  destruct Ha as [Ha|Ha]; [contradiction|]. destruct Hb as [Hb|Hb]; [contradiction|].
  right. destruct (Add_formulas c a b Za Zb S) as (E1 & E2 & E3 & _).
  eapply jac_on_eqm; [exact E1|exact E2|exact E3|]. exact (add_on _ _ _ _ _ _ _ fp_ring_theory fp_ring_ext _ _ _ _ _ _ _ Ha Hb).
Qed.

Lemma Mul_valid a scalar : valid_point a -> valid_point (Mul a scalar).
Proof.
  intros Ha. unfold Mul.
  match goal with |- context [for_down ?n ?body ?s] =>
    enough (V : valid_point (fst (for_down n body s)) /\ True) by exact (proj1 V);
    apply (for_down_ind (fun _ st => valid_point (fst st) /\ True) n body s) end.
  - split; [left; reflexivity|exact I].
  - intros i [sum t] _ [Hs _]. cbn [fst] in Hs. cbv zeta.
    split; [|exact I]. destruct (Z.testbit _ _); cbn [fst]; auto using Add_valid, Double_valid.
Qed.

Lemma Negative_valid a : valid_point a -> valid_point (Negative a).
Proof.
  intros [H|H]; [left; exact H|right]. unfold on_curve, jac_on, Negative in *. cbn [cx cy cz].
  rewrite <- H. mod_ring P.
Qed.

(** ** [IsOnCurve] and [MakeAffine] *)

Lemma reduce_zero v : (reduce v =? 0) = true <-> v ≡[P] 0.
Proof.
  unfold reduce, eqm. rewrite Z.mod_0_l by discriminate. rewrite Z.geb_leb.
  destruct (Z.ltb_spec v 0), (Z.leb_spec P v); cbn [orb]; rewrite Z.eqb_eq; try tauto.
  rewrite Z.mod_small by lia. tauto.
Qed.

Lemma IsOnCurve_iff c : IsOnCurve c = true <-> cy c * cy c ≡[P] cx c * cx c * cx c + curveB.
Proof.
  unfold IsOnCurve. cbv zeta. fold (reduce (cy c * cy c - cx c * cx c * cx c - curveB)).
  rewrite reduce_zero. split; intros H.
  - transitivity (cy c * cy c - cx c * cx c * cx c - curveB + (cx c * cx c * cx c + curveB)); [mod_ring P|].
    rewrite H. mod_ring P.
  - rewrite H. mod_ring P.
Qed.

(** A point with unit [z] stands for the point [MakeAffine] computes, which is
    on the curve when it is; [z = -1] is the exception the code makes. *)
Lemma MakeAffine_stands c : unitm P (cz c) -> cz c <> -1 ->
  stands_for c (cx (MakeAffine c)) (cy (MakeAffine c)) /\ cz (MakeAffine c) = 1.
Proof.
  intros U H1. unfold stands_for, jac_is, MakeAffine. destruct (Z.eqb_spec (Z.abs (cz c)) 1) as [E|E].
  - assert (cz c = 1) as -> by lia. split; [split; mod_ring P | reflexivity].
  - cbv zeta. cbn [cx cy cz]. pose proof (inv_l P P_pos _ U) as I. set (i := inv P (cz c)) in *.
    split; [split|reflexivity]; repeat setoid_rewrite (mod_eqm P).
    + transitivity (cx c * (i * cz c) * (i * cz c)); [rewrite I|]; mod_ring P.
    + transitivity (cy c * (i * cz c) * (i * cz c) * (i * cz c)); [rewrite I|]; mod_ring P.
Qed.

(** ** Refinement of the affine group law *)

(** A point of the curve in affine coordinates; [None] is infinity. *)
Definition affine : Type := option (Z * Z).

Definition slope_point (s x1 y1 x2 : Z) : affine :=
  let x' := s * s - x1 - x2 in Some (x', s * (x1 - x') - y1).

(** The chord-and-tangent law. *)
Definition affine_double (x y : Z) : affine :=
  if (2 * y) mod P =? 0 then None else slope_point (3 * (x * x) * inv P (2 * y)) x y x.

Definition affine_add (p q : affine) : affine :=
  match p, q with
  | None, q => q
  | p, None => p
  | Some (x1, y1), Some (x2, y2) =>
      if x1 mod P =? x2 mod P
      then if y1 mod P =? y2 mod P then affine_double x1 y1 else None
      else slope_point ((y2 - y1) * inv P (x2 - x1)) x1 y1 x2
  end.

Definition reps (c : curvePoint) (p : affine) : Prop :=
  match p with
  | None => cz c = 0
  | Some (px, py) => unitm P (cz c) /\ stands_for c px py
  end.

(** The divisions of the law are by invertible numbers (all numbers that are
    not multiples of [P] are, [P] being prime). *)
Definition divisible (d : Z) : Prop := d mod P = 0 \/ unitm P d.
Definition defined (p q : affine) : Prop :=
  match p, q with
  | Some (x1, y1), Some (x2, y2) => divisible (x2 - x1) /\ divisible (2 * y1)
  | _, _ => True
  end.

Lemma unit_P_nonzero z : unitm P z -> z <> 0.
Proof. intros H ->. vm_compute in H. discriminate H. Qed.

Lemma unit_P_not_0 z : unitm P z -> z mod P <> 0.
Proof.
  intros H E. pose proof (unit_eqm P z 0 P_pos H) as U. apply (unit_P_nonzero 0); [|reflexivity].
  apply U. unfold eqm. rewrite E, Z.mod_0_l by discriminate. reflexivity.
Qed.

Lemma unit_2 : unitm P 2.
Proof. vm_compute. reflexivity. Qed.

Ltac unit_solve := repeat first [assumption | exact P_pos | exact unit_2 | apply unit_mul].

(** Doubles of residues vanish only at 0: [P] is odd. *)
Lemma double_residue t : (2 * t) mod P = 0 -> t mod P + t mod P = 0.
Proof.
  intros H. apply Z.mod_divide in H; [|discriminate]. apply Z.gauss in H; [|vm_compute; reflexivity].
  apply Z.mod_divide in H; [|discriminate]. rewrite H. reflexivity.
Qed.

Lemma Double_reps c a px py : reps a (Some (px, py)) -> divisible (2 * py) ->
  reps (Double c a) (affine_double px py).
Proof.
  intros [U [Hx Hy]] D. destruct (Double_formulas c a) as (E1 & E2 & E3 & _).
  unfold affine_double. destruct (Z.eqb_spec ((2 * py) mod P) 0) as [E|E].
  - unfold reps, Double. cbv zeta. cbn [cz]. apply double_residue.
    apply (eqm_mod P _ 0). rewrite Hy.
    transitivity (2 * py * (cz a * cz a * cz a) * cz a); [mod_ring P|].
    assert (Z0 : 2 * py ≡[P] 0) by exact E. rewrite Z0. mod_ring P.
  - destruct D as [D|D]; [contradiction|]. pose proof (inv_r P P_pos _ D) as I. set (i := inv P (2 * py)) in *.
    unfold slope_point. split.
    + apply unit_eqm with (2 * py * (cz a * cz a * cz a) * cz a); [exact P_pos| |].
      * unit_solve.
      * rewrite E3. unfold dbl_z. rewrite Hy. mod_ring P.
    + assert (S : (1 + 1) * py * (3 * (px * px) * i) ≡[P] (1 + 1 + 1) * (px * px)).
      { transitivity (3 * (px * px) * (2 * py * i)); [mod_ring P|]. rewrite I. mod_ring P. }
      pose proof (dbl_tangent _ _ _ _ _ _ _ fp_ring_theory fp_ring_ext _ _ _ _ _ _ (conj Hx Hy) S) as T.
      cbv zeta in T. unfold stands_for.
      eapply jac_is_eqm; [exact E1|exact E2|exact E3| | |exact T]; mod_ring P.
Qed.

Section add_reps.
Variables (c a b : curvePoint) (x1 y1 x2 y2 : Z).
Hypothesis Ra : reps a (Some (x1, y1)).
Hypothesis Rb : reps b (Some (x2, y2)).

Lemma add_finite : cz a <> 0 /\ cz b <> 0.
Proof. split; apply unit_P_nonzero; [apply Ra | apply Rb]. Qed.

(** [Add] compares the affine coordinates. *)
Lemma same_point_affine : same_point a b = true <-> x1 ≡[P] x2 /\ y1 ≡[P] y2.
Proof.
  destruct Ra as [Ua [Ax Ay]], Rb as [Ub [Bx By]]. rewrite same_point_iff, Ax, Ay, Bx, By.
  assert (U2 : unitm P (cz a * cz a * (cz b * cz b))) by unit_solve.
  assert (U3 : unitm P (cz a * cz a * cz a * (cz b * cz b * cz b))) by unit_solve.
  split; intros [H1 H2].
  - split; [apply (unit_cancel P P_pos _ _ _ U2) | apply (unit_cancel P P_pos _ _ _ U3)].
    + etransitivity; [etransitivity; [|symmetry; exact H1]|]; mod_ring P.
    + etransitivity; [etransitivity; [|symmetry; exact H2]|]; mod_ring P.
  - rewrite H1, H2. split; mod_ring P.
Qed.

Lemma Add_vertical : x1 ≡[P] x2 -> same_point a b = false -> cz (Add c a b) = 0.
Proof.
  intros Hx S. destruct add_finite as [Za Zb]. destruct (Add_formulas c a b Za Zb S) as (_ & _ & E3 & _).
  assert (R : cz (Add c a b) = cz (Add c a b) mod P).
  { unfold Add, IsInfinity. rewrite (proj2 (Z.eqb_neq (cz a) 0) Za), (proj2 (Z.eqb_neq (cz b) 0) Zb). cbv zeta.
    unfold same_point in S. rewrite S. cbn [cz]. rewrite Z.mod_mod by discriminate. reflexivity. }
  rewrite R. apply (eqm_mod P _ 0). rewrite E3. unfold add_z, add_h, add_u1, add_u2.
  destruct Ra as [_ [Ax _]], Rb as [_ [Bx _]]. rewrite Ax, Bx, Hx. mod_ring P.
Qed.

Lemma Add_chord_reps : unitm P (x2 - x1) ->
  reps (Add c a b) (slope_point ((y2 - y1) * inv P (x2 - x1)) x1 y1 x2).
Proof.
  intros U. destruct add_finite as [Za Zb].
  assert (S : same_point a b = false).
  { apply not_true_iff_false. intros S. apply same_point_affine in S as [S _].
    apply (unit_P_not_0 _ U). apply (eqm_mod P _ 0). rewrite S. mod_ring P. }
  destruct (Add_formulas c a b Za Zb S) as (E1 & E2 & E3 & _).
  pose proof (inv_r P P_pos _ U) as I. set (i := inv P (x2 - x1)) in *.
  unfold slope_point. destruct Ra as [Ua Sa], Rb as [Ub Sb]. split.
  - apply unit_eqm with (2 * (cz a * cz b) * ((x2 - x1) * (cz a * cz b * (cz a * cz b)))); [exact P_pos| |].
    + unit_solve.
    + rewrite E3. unfold add_z, add_h, add_u1, add_u2. destruct Sa as [Ax _], Sb as [Bx _].
      rewrite Ax, Bx. mod_ring P.
  - assert (L : (y2 - y1) * i * (x2 - x1) ≡[P] y2 - y1).
    { transitivity ((y2 - y1) * ((x2 - x1) * i)); [mod_ring P|]. rewrite I. mod_ring P. }
    pose proof (add_chord _ _ _ _ _ _ _ fp_ring_theory fp_ring_ext _ _ _ _ _ _ _ _ _ _ _ Sa Sb L) as T.
    cbv zeta in T. unfold stands_for. eapply jac_is_eqm; [exact E1|exact E2|exact E3| | |exact T]; reflexivity.
Qed.

End add_reps.

Lemma Add_reps c a b p q : reps a p -> reps b q -> defined p q -> reps (Add c a b) (affine_add p q).
Proof.
  intros Ra Rb D. destruct p as [[x1 y1]|]; [|rewrite Add_infinity_l by exact Ra; exact Rb].
  destruct q as [[x2 y2]|].
  2: { rewrite Add_infinity_r; [exact Ra | apply unit_P_nonzero, Ra | exact Rb]. }
  destruct D as [Dx Dy]. pose proof (same_point_affine a b x1 y1 x2 y2 Ra Rb) as SP.
  destruct (add_finite a b x1 y1 x2 y2 Ra Rb) as [Za Zb]. unfold affine_add.
  destruct (Z.eqb_spec (x1 mod P) (x2 mod P)) as [Ex|Ex].
  - destruct (Z.eqb_spec (y1 mod P) (y2 mod P)) as [Ey|Ey].
    + rewrite Add_same by (assumption || (apply SP; split; assumption)). apply Double_reps; assumption.
    + apply (Add_vertical c a b x1 y1 x2 y2 Ra Rb Ex). apply not_true_iff_false. intros S.
      apply SP in S as [_ S]. contradiction.
  - destruct Dx as [Dx|Dx]; [|apply Add_chord_reps; assumption]. exfalso. apply Ex.
    apply eqm_mod. transitivity (x1 + (x2 - x1)); [|mod_ring P].
    assert (Z0 : x2 - x1 ≡[P] 0) by exact Dx. rewrite Z0. mod_ring P.
Qed.
