(* ===== verification/Bn256Twist.v ===== *)
(** * Package [bn256]: the twist of G2

    [twist.go]: points of [y^2 = x^3 + 3/xi] over [gfP2], in Jacobian
    coordinates, with the conventions of [Bn256Curve]. *)

From Stdlib Require Import ZArith List Lia Bool Setoid Morphisms Ring_theory Ring.
From S2P Require Import Prelude GoBig ModArith Jacobian Bn256Field Bn256Tower.
Import ListNotations.
Local Open Scope Z_scope.

Record twistPoint := mkTwist { tx : gfP2; ty : gfP2; tz : gfP2; tt_ : gfP2 }.

Definition twistB : gfP2 := mkGFp2
  266929791119991161246907387137283842545076965332900288569378510910307636690
  19485874751759354771024239261021720505790618469301721065564631296452457478373.

Module TwistPoint.

Definition twistGen : twistPoint := mkTwist
  (mkGFp2 11559732032986387107991004021392285783925812861821192530917403151452391805634
          10857046999023057135944570762232829481370756359578518086990519993285655852781)
  (mkGFp2 4082367875863433681332203403145435568316851327593401208105741076214120093531
          8495653923123431417604973247489272438418190587263600148770280649306958101930)
  (mkGFp2 0 1) (mkGFp2 0 1).

(** A point fresh from an empty pool. *)
Definition newTwistPoint : twistPoint :=
  mkTwist (mkGFp2 0 0) (mkGFp2 0 0) (mkGFp2 0 0) (mkGFp2 0 0).

Definition IsOnCurve (c : twistPoint) : bool :=
  let yy := GFp2.Square (ty c) in
  let xxx := GFp2.Square (tx c) in
  let xxx := GFp2.Mul xxx (tx c) in
  let yy := GFp2.Sub yy xxx in
  let yy := GFp2.Sub yy twistB in
  let yy := GFp2.Minimal yy in
  (x2 yy =? 0) && (y2 yy =? 0).

Definition SetInfinity (c : twistPoint) : twistPoint := mkTwist (tx c) (ty c) GFp2.SetZero (tt_ c).
Definition IsInfinity (c : twistPoint) : bool := GFp2.IsZero (tz c).

Definition Double (c a : twistPoint) : twistPoint :=
  let A := GFp2.Square (tx a) in
  let B := GFp2.Square (ty a) in
  let C_ := GFp2.Square B in
  let t := GFp2.Add (tx a) B in
  let t2 := GFp2.Square t in
  let t := GFp2.Sub t2 A in
  let t2 := GFp2.Sub t C_ in
  let d := GFp2.Add t2 t2 in
  let t := GFp2.Add A A in
  let e := GFp2.Add t A in
  let f := GFp2.Square e in
  let t := GFp2.Add d d in
  let c_x := GFp2.Sub f t in
  let t := GFp2.Add C_ C_ in
  let t2 := GFp2.Add t t in
  let t := GFp2.Add t2 t2 in
  let c_y := GFp2.Sub d c_x in
  let t2 := GFp2.Mul e c_y in
  let c_y := GFp2.Sub t2 t in
  let t := GFp2.Mul (ty a) (tz a) in
  let c_z := GFp2.Add t t in
  mkTwist c_x c_y c_z (tt_ c).

Definition Add (c a b : twistPoint) : twistPoint :=
  if IsInfinity a then b
  else if IsInfinity b then a
  else
    let z1z1 := GFp2.Square (tz a) in
    let z2z2 := GFp2.Square (tz b) in
    let u1 := GFp2.Mul (tx a) z2z2 in
    let u2 := GFp2.Mul (tx b) z1z1 in
    let t := GFp2.Mul (tz b) z2z2 in
    let s1 := GFp2.Mul (ty a) t in
    let t := GFp2.Mul (tz a) z1z1 in
    let s2 := GFp2.Mul (ty b) t in
    let h := GFp2.Sub u2 u1 in
    let xEqual := GFp2.IsZero h in
    let t := GFp2.Add h h in
    let i := GFp2.Square t in
    let j := GFp2.Mul h i in
    let t := GFp2.Sub s2 s1 in
    let yEqual := GFp2.IsZero t in
    if xEqual && yEqual then Double c a
    else
      let r := GFp2.Add t t in
      let v := GFp2.Mul u1 i in
      let t4 := GFp2.Square r in
      let t := GFp2.Add v v in
      let t6 := GFp2.Sub t4 j in
      let c_x := GFp2.Sub t6 t in
      let t := GFp2.Sub v c_x in
      let t4 := GFp2.Mul s1 j in
      let t6 := GFp2.Add t4 t4 in
      let t4 := GFp2.Mul r t in
      let c_y := GFp2.Sub t4 t6 in
      let t := GFp2.Add (tz a) (tz b) in
      let t4 := GFp2.Square t in
      let t := GFp2.Sub t4 z1z1 in
      let t4 := GFp2.Sub t z2z2 in
      let c_z := GFp2.Mul t4 h in
      mkTwist c_x c_y c_z (tt_ c).

Definition Mul (a : twistPoint) (scalar : Z) : twistPoint :=
  fst (for_down (Z.to_nat (BitLen scalar + 1))
    (fun i '(sum, t) =>
       let t := Double t sum in
       if Z.testbit scalar i then (Add sum t a, t) else (t, t))
    (SetInfinity newTwistPoint, newTwistPoint)).

Definition MakeAffine (c : twistPoint) : twistPoint :=
  if GFp2.IsOne (tz c) then c
  else
    let zInv := GFp2.Invert (tz c) in
    let t := GFp2.Mul (ty c) zInv in
    let zInv2 := GFp2.Square zInv in
    let c_y := GFp2.Mul t zInv2 in
    let t := GFp2.Mul (tx c) zInv2 in
    mkTwist t c_y GFp2.SetOne GFp2.SetOne.

Definition Negative (a : twistPoint) : twistPoint :=
  mkTwist (tx a) (GFp2.Sub GFp2.SetZero (ty a)) (tz a) GFp2.SetZero.

End TwistPoint.
Import TwistPoint.

(** ** The formulas *)

Definition on_twist (c : twistPoint) : Prop := jac_on GFp2.Add GFp2.Mul eq2 twistB (tx c) (ty c) (tz c).
Definition twist_stands (c : twistPoint) (px py : gfP2) : Prop :=
  jac_is GFp2.Mul eq2 (tx c) (ty c) (tz c) px py.

Lemma TDouble_formulas c a :
  eq2 (tx (Double c a)) (dbl_x GFp2.SetOne GFp2.Add GFp2.Mul GFp2.Sub (tx a) (ty a)) /\
  eq2 (ty (Double c a)) (dbl_y GFp2.SetOne GFp2.Add GFp2.Mul GFp2.Sub (tx a) (ty a)) /\
  eq2 (tz (Double c a)) (dbl_z GFp2.SetOne GFp2.Add GFp2.Mul (ty a) (tz a)) /\ tt_ (Double c a) = tt_ c.
Proof.
  unfold Double, dbl_y, dbl_x, dbl_z, dbl_d, dbl_e. cbv zeta. cbn [tx ty tz tt_].
  split; [|split; [|split; [|reflexivity]]]; fp2_norm; ring.
Qed.

Section add_formulas2.
Variables c a b : twistPoint.
Local Abbreviation args f := (f (tx a) (ty a) (tz a) (tx b) (ty b) (tz b)).

Definition same_twist : bool :=
  GFp2.IsZero (GFp2.Sub (GFp2.Mul (tx b) (GFp2.Square (tz a))) (GFp2.Mul (tx a) (GFp2.Square (tz b)))) &&
  GFp2.IsZero (GFp2.Sub (GFp2.Mul (ty b) (GFp2.Mul (tz a) (GFp2.Square (tz a))))
                        (GFp2.Mul (ty a) (GFp2.Mul (tz b) (GFp2.Square (tz b))))).

(** The difference of two reduced elements is zero when they are equal. *)
Lemma IsZero_sub m n : reduced2 m -> reduced2 n -> (GFp2.IsZero (GFp2.Sub m n) = true <-> eq2 m n).
Proof.
  intros Hm Hn. unfold GFp2.IsZero, GFp2.Sub. cbn [x2 y2]. rewrite andb_true_iff, !Z.eqb_eq. split.
  - intros [E1 E2]. split; apply eqm_eq; lia.
  - intros E. rewrite (fp2_eq_reduced m n Hm Hn E). lia.
Qed.

Lemma TAdd_formulas : IsInfinity a = false -> IsInfinity b = false -> same_twist = false ->
  eq2 (tx (Add c a b)) (args (add_x GFp2.SetOne GFp2.Add GFp2.Mul GFp2.Sub)) /\
  eq2 (ty (Add c a b)) (args (add_y GFp2.SetOne GFp2.Add GFp2.Mul GFp2.Sub)) /\
  eq2 (tz (Add c a b)) (add_z GFp2.SetOne GFp2.Add GFp2.Mul GFp2.Sub (tx a) (tz a) (tx b) (tz b)) /\
  tt_ (Add c a b) = tt_ c.
Proof.
  intros Ha Hb Hs. unfold Add. rewrite Ha, Hb. cbv zeta.
  unfold same_twist in Hs. rewrite Hs. cbn [tx ty tz tt_].
  unfold add_y, add_x, add_z, add_v, add_j, add_r, add_h, add_u1, add_u2, add_s1, add_s2.
  split; [|split; [|split; [|reflexivity]]]; fp2_norm; ring.
Qed.

Lemma TAdd_same : IsInfinity a = false -> IsInfinity b = false -> same_twist = true -> Add c a b = Double c a.
Proof.
  intros Ha Hb Hs. unfold Add. rewrite Ha, Hb. cbv zeta. unfold same_twist in Hs. rewrite Hs. reflexivity.
Qed.

End add_formulas2.

(** ** Points stay on the twist *)

Definition valid_twist (c : twistPoint) : Prop := IsInfinity c = true \/ on_twist c.

Lemma jac_on_eq2 b x x' y y' z z' : eq2 x x' -> eq2 y y' -> eq2 z z' ->
  jac_on GFp2.Add GFp2.Mul eq2 b x' y' z' -> jac_on GFp2.Add GFp2.Mul eq2 b x y z.
Proof. unfold jac_on. intros -> -> ->. exact (fun H => H). Qed.

Lemma jac_is_eq2 x x' y y' z z' px py : eq2 x x' -> eq2 y y' -> eq2 z z' ->
  jac_is GFp2.Mul eq2 x' y' z' px py -> jac_is GFp2.Mul eq2 x y z px py.
Proof. unfold jac_is. intros -> -> ->. exact (fun H => H). Qed.

Lemma IsZero_iff a : GFp2.IsZero a = true <-> a = GFp2.SetZero.
Proof.
  destruct a as [x y]. unfold GFp2.IsZero, GFp2.SetZero. cbn [x2 y2].
  rewrite andb_true_iff, !Z.eqb_eq. split; [intros [-> ->]; reflexivity | intros [= -> ->]; auto].
Qed.

Lemma TDouble_infinity c a : IsInfinity a = true -> IsInfinity (Double c a) = true.
Proof.
  unfold IsInfinity. intros H. apply IsZero_iff in H. unfold Double. cbv zeta. cbn [tz]. rewrite H.
  unfold GFp2.Mul, GFp2.SetZero. cbn [x2 y2]. rewrite !Z.mul_0_r, Z.mul_0_l. reflexivity.
Qed.

Lemma TDouble_valid c a : valid_twist a -> valid_twist (Double c a).
Proof.
  intros [H|H]; [left; apply TDouble_infinity, H|right].
  destruct (TDouble_formulas c a) as (E1 & E2 & E3 & _).
  eapply jac_on_eq2; [exact E1|exact E2|exact E3|].
  exact (dbl_on _ _ _ _ _ _ _ fp2_ring_theory fp2_ring_ext _ _ _ _ H).
Qed.

Lemma TAdd_valid c a b : valid_twist a -> valid_twist b -> valid_twist (Add c a b).
Proof.
  intros Ha Hb. destruct (IsInfinity a) eqn:Za; [unfold Add; rewrite Za; exact Hb|].
  destruct (IsInfinity b) eqn:Zb; [unfold Add; rewrite Za, Zb; exact Ha|].
  destruct (same_twist a b) eqn:S; [rewrite TAdd_same by assumption; apply TDouble_valid; exact Ha|].
  destruct Ha as [Ha|Ha]; [congruence|]. destruct Hb as [Hb|Hb]; [congruence|].
  right. destruct (TAdd_formulas c a b Za Zb S) as (E1 & E2 & E3 & _).
  eapply jac_on_eq2; [exact E1|exact E2|exact E3|].
  exact (add_on _ _ _ _ _ _ _ fp2_ring_theory fp2_ring_ext _ _ _ _ _ _ _ Ha Hb).
Qed.

Lemma TMul_valid a scalar : valid_twist a -> valid_twist (Mul a scalar).
Proof.
  intros Ha. unfold Mul.
  match goal with |- context [for_down ?n ?body ?s] =>
    apply (for_down_ind (fun _ st => valid_twist (fst st)) n body s) end.
  - left; reflexivity.
  - intros i [sum t] _ Hs. cbn [fst] in Hs. cbv zeta.
    destruct (Z.testbit _ _); cbn [fst]; auto using TAdd_valid, TDouble_valid.
Qed.

Lemma TNegative_valid a : valid_twist a -> valid_twist (Negative a).
Proof.
  intros [H|H]; [left; exact H|right]. unfold on_twist, jac_on, Negative in *. cbn [tx ty tz].
  rewrite <- H. ring.
Qed.

(** ** [IsOnCurve], [MakeAffine] and the chord-and-tangent law *)

Lemma minimal_zero v : (x2 (GFp2.Minimal v) =? 0) && (y2 (GFp2.Minimal v) =? 0) = true <-> eq2 v GFp2.SetZero.
Proof.
  rewrite andb_true_iff, !Z.eqb_eq. split.
  - intros [H1 H2]. rewrite <- fp2_minimal. destruct (GFp2.Minimal v) as [x y]. cbn in *. subst. reflexivity.
  - intros H. assert (E : GFp2.Minimal v = GFp2.SetZero).
    { apply fp2_eq_reduced; [apply reduced2_minimal | split; cbn; pose proof P_pos; lia|].
      rewrite fp2_minimal. exact H. }
    rewrite E. split; reflexivity.
Qed.

Lemma TIsOnCurve_iff c :
  IsOnCurve c = true <->
  eq2 (GFp2.Mul (ty c) (ty c)) (GFp2.Add (GFp2.Mul (GFp2.Mul (tx c) (tx c)) (tx c)) twistB).
Proof.
  unfold IsOnCurve. cbv zeta. rewrite minimal_zero. fp2_norm. split; intros H.
  - transitivity (GFp2.Add (GFp2.Sub (GFp2.Sub (GFp2.Mul (ty c) (ty c))
      (GFp2.Mul (GFp2.Mul (tx c) (tx c)) (tx c))) twistB) (GFp2.Add (GFp2.Mul (GFp2.Mul (tx c) (tx c)) (tx c)) twistB));
      [ring|]. rewrite H. ring.
  - rewrite H. ring.
Qed.

Lemma TMakeAffine_stands c : unitm P (norm2 (tz c)) -> GFp2.IsOne (tz c) = false \/ tz c = GFp2.SetOne ->
  twist_stands c (tx (MakeAffine c)) (ty (MakeAffine c)) /\ tz (MakeAffine c) = GFp2.SetOne.
Proof.
  intros U HO. unfold twist_stands, jac_is, MakeAffine. destruct (GFp2.IsOne (tz c)) eqn:E.
  - destruct HO as [HO|HO]; [discriminate|]. rewrite HO. split; [split; ring | reflexivity].
  - cbv zeta. cbn [tx ty tz]. pose proof (fp2_invert _ U) as I. set (i := GFp2.Invert (tz c)) in *.
    split; [split|reflexivity]; fp2_norm.
    + transitivity (GFp2.Mul (GFp2.Mul (tx c) (GFp2.Mul (tz c) i)) (GFp2.Mul (tz c) i)); [rewrite I|]; ring.
    + transitivity (GFp2.Mul (GFp2.Mul (GFp2.Mul (ty c) (GFp2.Mul (tz c) i)) (GFp2.Mul (tz c) i)) (GFp2.Mul (tz c) i));
        [rewrite I|]; ring.
Qed.

Section law2.
Local Open Scope fp2_scope.
Local Abbreviation two := (1 + 1).

Lemma TDouble_tangent c a px py s :
  twist_stands a px py -> two * py * s == (two + 1) * (px * px) ->
  let px' := s * s - two * px in
  twist_stands (Double c a) px' (s * (px - px') - py).
Proof.
  intros H Hs px'. destruct (TDouble_formulas c a) as (E1 & E2 & E3 & _).
  eapply jac_is_eq2; [exact E1|exact E2|exact E3|].
  exact (dbl_tangent _ _ _ _ _ _ _ fp2_ring_theory fp2_ring_ext _ _ _ _ _ _ H Hs).
Qed.

Lemma TAdd_chord c a b px1 py1 px2 py2 s :
  IsInfinity a = false -> IsInfinity b = false -> same_twist a b = false ->
  twist_stands a px1 py1 -> twist_stands b px2 py2 -> s * (px2 - px1) == py2 - py1 ->
  let px' := s * s - px1 - px2 in
  twist_stands (Add c a b) px' (s * (px1 - px') - py1).
Proof.
  intros Za Zb S Ha Hb Hs px'. destruct (TAdd_formulas c a b Za Zb S) as (E1 & E2 & E3 & _).
  eapply jac_is_eq2; [exact E1|exact E2|exact E3|].
  exact (add_chord _ _ _ _ _ _ _ fp2_ring_theory fp2_ring_ext _ _ _ _ _ _ _ _ _ _ _ Ha Hb Hs).
Qed.

End law2.
