(* ===== verification/Bn256Frobenius.v ===== *)
(** * The Frobenius maps of the field tower

    [Frobenius] and [FrobeniusP2] of [gfp6.go] and [gfp12.go] are ring
    endomorphisms, the second is the square of the first, and the sixth power
    of the first is the conjugation: the constants of [constants.go] are the
    right ones. *)

From Stdlib Require Import ZArith List Lia Bool Setoid Morphisms Ring_theory Ring.
From S2P Require Import Prelude GoBig ModArith Jacobian Bn256Field Bn256Tower.
Local Open Scope Z_scope.

(** Decide an equality of constants of [gfP2]. *)
Ltac fp2_const := split; vm_compute; reflexivity.

(** ** The constants *)

Section constants.
Local Open Scope fp2_scope.

(** [tau^p = tau * xiToPMinus1Over3] is consistent with [tau^3 = xi]. *)
Lemma const_xi : xi * (xiToPMinus1Over3 * xiToPMinus1Over3 * xiToPMinus1Over3) == GFp2.Conjugate xi.
Proof. fp2_const. Qed.
Lemma const_3_sq : xiTo2PMinus2Over3 == xiToPMinus1Over3 * xiToPMinus1Over3.
Proof. fp2_const. Qed.
Lemma const_6_sq : xiToPMinus1Over6 * xiToPMinus1Over6 == xiToPMinus1Over3.
Proof. fp2_const. Qed.
Lemma const_p2_3 : GFp2.Conjugate xiToPMinus1Over3 * xiToPMinus1Over3 == of_Z xiToPSquaredMinus1Over3.
Proof. fp2_const. Qed.
Lemma const_p2_6 : GFp2.Conjugate xiToPMinus1Over6 * xiToPMinus1Over6 == of_Z xiToPSquaredMinus1Over6.
Proof. fp2_const. Qed.
Lemma const_p2_33 : of_Z xiTo2PSquaredMinus2Over3 == of_Z xiToPSquaredMinus1Over3 * of_Z xiToPSquaredMinus1Over3.
Proof. fp2_const. Qed.
Lemma const_p2_66 : of_Z xiToPSquaredMinus1Over6 * of_Z xiToPSquaredMinus1Over6 == of_Z xiToPSquaredMinus1Over3.
Proof. fp2_const. Qed.
Lemma const_p6 : of_Z xiToPSquaredMinus1Over3 * of_Z xiToPSquaredMinus1Over3 * of_Z xiToPSquaredMinus1Over3 == 1.
Proof. fp2_const. Qed.
Lemma const_p6_6 : of_Z xiToPSquaredMinus1Over6 * of_Z xiToPSquaredMinus1Over6 * of_Z xiToPSquaredMinus1Over6 == - (1).
Proof. fp2_const. Qed.

Lemma conj_add a b : GFp2.Conjugate (a + b) == GFp2.Conjugate a + GFp2.Conjugate b.
Proof. fp2_coeffs. Qed.
Lemma conj_mul a b : GFp2.Conjugate (a * b) == GFp2.Conjugate a * GFp2.Conjugate b.
Proof. fp2_coeffs. Qed.
Lemma conj_conj a : GFp2.Conjugate (GFp2.Conjugate a) == a.
Proof. fp2_coeffs. Qed.

End constants.

#[export] Instance conj_proper : Proper (eq2 ==> eq2) GFp2.Conjugate.
Proof. intros a b [H1 H2]. split; cbn; [rewrite H1 | rewrite H2]; reflexivity. Qed.

(** Push conjugations to the leaves. *)
Ltac conj_norm :=
  repeat match goal with
  | |- context [GFp2.Conjugate (GFp2.Add ?a ?b)] => rewrite (conj_add a b)
  | |- context [GFp2.Conjugate (GFp2.Mul ?a ?b)] => rewrite (conj_mul a b)
  | |- context [GFp2.Conjugate (GFp2.Conjugate ?a)] => rewrite (conj_conj a)
  end.

(** From here on the constants are only what the equations above say. *)
#[local] Opaque xiToPMinus1Over3 xiToPMinus1Over6 xiTo2PMinus2Over3 xiToPSquaredMinus1Over3
  xiToPSquaredMinus1Over6 xiTo2PSquaredMinus2Over3 xi of_Z.

(** ** [gfP6] *)

Section frob6.
Local Open Scope fp6_scope.

Local Abbreviation c3 := xiToPMinus1Over3.

Lemma frob6_coeffs a : GFp6.Frobenius a ==
  (mkGFp6 (GFp2.Conjugate (x6 a) * (c3 * c3)) (GFp2.Conjugate (y6 a) * c3) (GFp2.Conjugate (z6 a)))%fp2.
Proof. unfold GFp6.Frobenius. split; [|split]; cbn [x6 y6 z6]; rewrite ?const_3_sq; reflexivity. Qed.

Lemma frob6_add a b : GFp6.Frobenius (a + b) == GFp6.Frobenius a + GFp6.Frobenius b.
Proof.
  rewrite !frob6_coeffs. fp6_unfold. split; [|split]; rewrite !conj_add; ring.
Qed.

Lemma frob6_mul a b : GFp6.Frobenius (a * b) == GFp6.Frobenius a * GFp6.Frobenius b.
Proof.
  rewrite !frob6_coeffs, !fp6_mul_schoolbook. fp6_unfold. pose proof const_xi as X.
  generalize dependent xiToPMinus1Over3. intros c X.
  split; [|split]; conj_norm; rewrite <- ?X; ring.
Qed.

Lemma frob6_tau : GFp6.Frobenius tau == of_fp2 c3 * tau.
Proof.
  rewrite frob6_coeffs. unfold tau, of_fp2. fp6_unfold. split; [|split]; fp2_norm.
  - transitivity (GFp2.SetZero * (c3 * c3))%fp2; [apply fp2_mul_proper; [split; reflexivity|reflexivity]|ring].
  - transitivity (GFp2.SetOne * c3)%fp2; [apply fp2_mul_proper; [split; reflexivity|reflexivity]|ring].
  - transitivity GFp2.SetZero; [split; reflexivity|ring].
Qed.

Local Abbreviation e3 := (of_Z xiToPSquaredMinus1Over3).

Lemma frobP2_6_coeffs a : GFp6.FrobeniusP2 a ==
  (mkGFp6 (e3 * e3 * x6 a) (e3 * y6 a) (z6 a))%fp2.
Proof.
  unfold GFp6.FrobeniusP2. split; [|split]; cbn [x6 y6 z6]; rewrite ?fp2_mulscalar, ?const_p2_33; reflexivity.
Qed.

Lemma frobP2_6_square a : GFp6.FrobeniusP2 a == GFp6.Frobenius (GFp6.Frobenius a).
Proof.
  rewrite frobP2_6_coeffs, (frob6_coeffs (GFp6.Frobenius a)), <- !const_p2_3. unfold GFp6.Frobenius.
  split; [|split]; cbn [x6 y6 z6]; rewrite ?const_3_sq, ?conj_mul, ?conj_conj; [ring|ring|reflexivity].
Qed.

End frob6.

#[export] Instance frob6_proper : Proper (eq6 ==> eq6) GFp6.Frobenius.
Proof.
  intros a b (H1 & H2 & H3). rewrite !frob6_coeffs. split; [|split]; cbn [x6 y6 z6];
    [rewrite H1 | rewrite H2 | rewrite H3]; reflexivity.
Qed.

#[export] Instance frobP2_6_proper : Proper (eq6 ==> eq6) GFp6.FrobeniusP2.
Proof. intros a b H. rewrite !frobP2_6_square, H. reflexivity. Qed.

(** ** [gfP12] *)

Section frob12.
Local Open Scope fp12_scope.

Local Abbreviation c6 := xiToPMinus1Over6.

Lemma frob12_coeffs a : GFp12.Frobenius a ==
  mkGFp12 (of_fp2 c6 * GFp6.Frobenius (x12 a))%fp6 (GFp6.Frobenius (y12 a)).
Proof. unfold GFp12.Frobenius. split; cbn [x12 y12]; rewrite ?fp6_mulscalar; reflexivity. Qed.

Lemma of_fp2_mul a b : eq6 (of_fp2 a * of_fp2 b)%fp6 (of_fp2 (a * b)).
Proof. unfold of_fp2. fp6_coeffs. Qed.

#[local] Instance of_fp2_proper : Proper (eq2 ==> eq6) of_fp2.
Proof. intros a b H. split; [|split]; [reflexivity|reflexivity|exact H]. Qed.

Lemma frob12_add a b : GFp12.Frobenius (a + b) == GFp12.Frobenius a + GFp12.Frobenius b.
Proof. rewrite !frob12_coeffs. fp12_unfold. split; rewrite !frob6_add; ring. Qed.

Lemma frob12_mul a b : GFp12.Frobenius (a * b) == GFp12.Frobenius a * GFp12.Frobenius b.
Proof.
  rewrite !frob12_coeffs. fp12_unfold. fp6_norm.
  split; rewrite ?fp6_multau, !frob6_add, !frob6_mul, ?frob6_tau; [ring|].
  rewrite <- const_6_sq, <- of_fp2_mul. ring.
Qed.

Lemma frob12_one : GFp12.Frobenius 1 == 1.
Proof.
  rewrite frob12_coeffs. fp12_unfold.
  assert (Z0 : eq6 (GFp6.Frobenius GFp6.SetZero) GFp6.SetZero).
  { rewrite frob6_coeffs. split; [|split]; cbn [x6 y6 z6 GFp6.SetZero]; try ring;
      transitivity (0 * c6)%fp2; try ring; split; reflexivity. }
  split; [rewrite Z0; ring|]. rewrite frob6_coeffs.
  split; [|split]; cbn [x6 y6 z6 GFp6.SetOne]; try (split; reflexivity);
    match goal with |- context [(_ * ?k)%fp2] => transitivity (0 * k)%fp2; [|ring] end;
    apply fp2_mul_proper; split; reflexivity.
Qed.

#[local] Instance frob12_proper0 : Proper (eq12 ==> eq12) GFp12.Frobenius.
Proof. intros a b [H1 H2]. rewrite !frob12_coeffs. rewrite H1, H2. reflexivity. Qed.

Local Abbreviation e6 := (of_Z xiToPSquaredMinus1Over6).

Lemma mulgfp_of_fp2 a k : eq6 (GFp6.MulGFP a k) (of_fp2 (of_Z k) * a)%fp6.
Proof. rewrite <- fp6_mulscalar. unfold GFp6.MulGFP, GFp6.MulScalar. fp6_unfold. split; [|split]; fp2_norm; ring. Qed.

Lemma frobP2_12_coeffs a : GFp12.FrobeniusP2 a ==
  mkGFp12 (of_fp2 e6 * GFp6.FrobeniusP2 (x12 a))%fp6 (GFp6.FrobeniusP2 (y12 a)).
Proof. unfold GFp12.FrobeniusP2. cbv zeta. rewrite mulgfp_of_fp2. reflexivity. Qed.

Lemma frob6_of_fp2 c : eq6 (GFp6.Frobenius (of_fp2 c)) (of_fp2 (GFp2.Conjugate c)).
Proof.
  rewrite frob6_coeffs. unfold of_fp2. cbn [x6 y6 z6].
  assert (E : eq2 (GFp2.Conjugate GFp2.SetZero) GFp2.SetZero) by (split; reflexivity).
  rewrite E. split; [|split]; cbn [x6 y6 z6]; ring.
Qed.

Lemma frobP2_12_square a : GFp12.FrobeniusP2 a == GFp12.Frobenius (GFp12.Frobenius a).
Proof.
  rewrite frobP2_12_coeffs, (frob12_coeffs (GFp12.Frobenius a)), frob12_coeffs. cbn [x12 y12].
  rewrite frob6_mul, frob6_of_fp2, !frobP2_6_square, <- const_p2_6, <- of_fp2_mul.
  split; cbn [x12 y12]; ring.
Qed.

Lemma frobP2_12_mul a b : GFp12.FrobeniusP2 (a * b) == GFp12.FrobeniusP2 a * GFp12.FrobeniusP2 b.
Proof. rewrite !frobP2_12_square, !frob12_mul. reflexivity. Qed.

Lemma conj12_mul a b : GFp12.Conjugate (a * b) == GFp12.Conjugate a * GFp12.Conjugate b.
Proof. fp12_coeffs. Qed.

(** Three times the square of the Frobenius map is the conjugation. *)
Lemma frobP2_cube a :
  GFp12.FrobeniusP2 (GFp12.FrobeniusP2 (GFp12.FrobeniusP2 a)) == GFp12.Conjugate a.
Proof.
  rewrite !frobP2_12_coeffs. cbn [x12 y12].
  assert (C : forall b, eq6 (GFp6.FrobeniusP2 (GFp6.FrobeniusP2 (GFp6.FrobeniusP2 b))) b).
  { intros b. rewrite !frobP2_6_coeffs. cbn [x6 y6 z6]. pose proof const_p6 as K.
    generalize dependent (of_Z xiToPSquaredMinus1Over3). intros e K.
    split; [|split]; cbn [x6 y6 z6]; [| |reflexivity].
    - transitivity ((e * e * e) * (e * e * e) * x6 b)%fp2; [ring|]. rewrite K. ring.
    - transitivity ((e * e * e) * y6 b)%fp2; [ring|]. rewrite K. ring. }
  assert (S : forall k b, eq6 (GFp6.FrobeniusP2 (of_fp2 k * b)%fp6) (of_fp2 k * GFp6.FrobeniusP2 b)%fp6).
  { intros k b. rewrite !frobP2_6_coeffs, !fp6_mul_schoolbook. unfold of_fp2. cbn [x6 y6 z6].
    split; [|split]; cbn [x6 y6 z6]; ring. }
  unfold GFp12.Conjugate. split; cbn [x12 y12]; [rewrite !S, C|apply C].
  transitivity (of_fp2 e6 * of_fp2 e6 * of_fp2 e6 * x12 a)%fp6; [ring|].
  rewrite !of_fp2_mul, const_p6_6. unfold of_fp2. fp6_coeffs.
Qed.

Lemma exp12_mul a b n : (0 <= n)%Z -> GFp12.Exp (a * b) n == GFp12.Exp a n * GFp12.Exp b n.
Proof.
  intros H. rewrite !fp12_exp by exact H. unfold pow12.
  apply (npow_mul_base eq12 GFp12.SetOne GFp12.Mul); intros; ring.
Qed.

End frob12.

#[export] Instance frob12_proper : Proper (eq12 ==> eq12) GFp12.Frobenius.
Proof. intros a b H. rewrite !frob12_coeffs, H. reflexivity. Qed.
#[export] Instance frobP2_12_proper : Proper (eq12 ==> eq12) GFp12.FrobeniusP2.
Proof. intros a b H. rewrite !frobP2_12_square, H. reflexivity. Qed.
#[export] Instance conj12_proper : Proper (eq12 ==> eq12) GFp12.Conjugate.
Proof. intros a b [H1 H2]. unfold GFp12.Conjugate. rewrite H1, H2. reflexivity. Qed.
#[export] Instance square12_proper : Proper (eq12 ==> eq12) GFp12.Square.
Proof. intros a b H. rewrite !fp12_square, H. reflexivity. Qed.

Lemma exp12_proper a b n : 0 <= n -> eq12 a b -> eq12 (GFp12.Exp a n) (GFp12.Exp b n).
Proof.
  intros Hn H. rewrite !fp12_exp by exact Hn. apply (npow_proper_base eq12 GFp12.SetOne GFp12.Mul). exact H.
Qed.

(** ** Norms and inverses are multiplicative *)

Lemma norm2_mul a b : norm2 (GFp2.Mul a b) ≡[P] norm2 a * norm2 b.
Proof. unfold norm2, GFp2.Mul. cbv zeta. cbn [x2 y2]. mod_ring P. Qed.

Lemma norm6_mul a b : eq2 (norm6 (GFp6.Mul a b)) (GFp2.Mul (norm6 a) (norm6 b)).
Proof.
  rewrite (norm6_proper _ _ (fp6_mul_schoolbook a b)). unfold norm6. cbn [x6 y6 z6]. ring.
Qed.

Lemma norm12_mul a b : eq6 (norm12 (GFp12.Mul a b)) (GFp6.Mul (norm12 a) (norm12 b)).
Proof. unfold norm12. fp12_unfold. fp6_norm. ring. Qed.

Lemma norm_mul a b : norm (GFp12.Mul a b) ≡[P] norm a * norm b.
Proof.
  unfold norm. rewrite <- norm2_mul. apply norm2_proper.
  rewrite (norm6_proper _ _ (norm12_mul a b)). apply norm6_mul.
Qed.

Lemma norm_proper a b : eq12 a b -> norm a ≡[P] norm b.
Proof.
  intros H. apply norm2_proper, norm6_proper. unfold norm12. rewrite H. reflexivity.
Qed.

Definition invertible (a : gfP12) : Prop := unitm P (norm a).

Lemma invertible_mul a b : invertible a -> invertible b -> invertible (GFp12.Mul a b).
Proof.
  intros Ha Hb. apply unit_eqm with (norm a * norm b); [exact P_pos| |symmetry; apply norm_mul].
  apply unit_mul; [exact P_pos|exact Ha|exact Hb].
Qed.

Lemma invert12_unique a b : invertible a -> eq12 (GFp12.Mul a b) GFp12.SetOne -> eq12 b (GFp12.Invert a).
Proof.
  intros Ha H. pose proof (fp12_invert a Ha) as I. set (i := GFp12.Invert a) in *. clearbody i.
  transitivity (GFp12.Mul b (GFp12.Mul a i)); [rewrite I; ring|].
  transitivity (GFp12.Mul (GFp12.Mul a b) i); [ring|]. rewrite H. ring.
Qed.

Lemma invert12_mul a b : invertible a -> invertible b ->
  eq12 (GFp12.Invert (GFp12.Mul a b)) (GFp12.Mul (GFp12.Invert a) (GFp12.Invert b)).
Proof.
  intros Ha Hb. symmetry. apply invert12_unique; [apply invertible_mul; assumption|].
  pose proof (fp12_invert a Ha) as Ia. pose proof (fp12_invert b Hb) as Ib.
  set (i := GFp12.Invert a) in *. set (j := GFp12.Invert b) in *. clearbody i j.
  transitivity (GFp12.Mul (GFp12.Mul a i) (GFp12.Mul b j)); [ring|]. rewrite Ia, Ib. ring.
Qed.

Lemma invert12_proper a b : invertible a -> eq12 a b -> eq12 (GFp12.Invert a) (GFp12.Invert b).
Proof.
  intros Ha H. apply invert12_unique; [apply (unit_eqm P (norm a)); [exact P_pos|exact Ha|apply norm_proper, H]|].
  rewrite <- H. apply fp12_invert, Ha.
Qed.
