(* ===== verification/Bn256Pairing.v ===== *)
(** * Package [bn256]: the optimal Ate pairing

    [optate.go] and [Pair], [PairingCheck] of [bn256.go].  Functions that write
    to a parameter return its new value. *)

From Stdlib Require Import ZArith List Lia Bool Setoid Morphisms Ring_theory Ring.
From S2P Require Import Prelude GoBig ModArith Jacobian Bn256Field Bn256Tower Bn256Curve Bn256Twist Bn256Frobenius.
Import ListNotations.
Local Open Scope Z_scope.

Definition lineFunctionAdd (r p : twistPoint) (q : curvePoint) (r2 : gfP2)
  : gfP2 * gfP2 * gfP2 * twistPoint :=
  let B := GFp2.Mul (tx p) (tt_ r) in
  let D := GFp2.Add (ty p) (tz r) in
  let D := GFp2.Square D in
  let D := GFp2.Sub D r2 in
  let D := GFp2.Sub D (tt_ r) in
  let D := GFp2.Mul D (tt_ r) in
  let H := GFp2.Sub B (tx r) in
  let I := GFp2.Square H in
  let E := GFp2.Add I I in
  let E := GFp2.Add E E in
  let J := GFp2.Mul H E in
  let L1 := GFp2.Sub D (ty r) in
  let L1 := GFp2.Sub L1 (ty r) in
  let V := GFp2.Mul (tx r) E in
  let out_x := GFp2.Square L1 in
  let out_x := GFp2.Sub out_x J in
  let out_x := GFp2.Sub out_x V in
  let out_x := GFp2.Sub out_x V in
  let out_z := GFp2.Add (tz r) H in
  let out_z := GFp2.Square out_z in
  let out_z := GFp2.Sub out_z (tt_ r) in
  let out_z := GFp2.Sub out_z I in
  let t := GFp2.Sub V out_x in
  let t := GFp2.Mul t L1 in
  let t2 := GFp2.Mul (ty r) J in
  let t2 := GFp2.Add t2 t2 in
  let out_y := GFp2.Sub t t2 in
  let out_t := GFp2.Square out_z in
  let t := GFp2.Add (ty p) out_z in
  let t := GFp2.Square t in
  let t := GFp2.Sub t r2 in
  let t := GFp2.Sub t out_t in
  let t2 := GFp2.Mul L1 (tx p) in
  let t2 := GFp2.Add t2 t2 in
  let a := GFp2.Sub t2 t in
  let c := GFp2.MulScalar out_z (cy q) in
  let c := GFp2.Add c c in
  let b := GFp2.SetZero in
  let b := GFp2.Sub b L1 in
  let b := GFp2.MulScalar b (cx q) in
  let b := GFp2.Add b b in
  (a, b, c, mkTwist out_x out_y out_z out_t).

Definition lineFunctionDouble (r : twistPoint) (q : curvePoint) : gfP2 * gfP2 * gfP2 * twistPoint :=
  let A := GFp2.Square (tx r) in
  let B := GFp2.Square (ty r) in
  let C_ := GFp2.Square B in
  let D := GFp2.Add (tx r) B in
  let D := GFp2.Square D in
  let D := GFp2.Sub D A in
  let D := GFp2.Sub D C_ in
  let D := GFp2.Add D D in
  let E := GFp2.Add A A in
  let E := GFp2.Add E A in
  let G := GFp2.Square E in
  let out_x := GFp2.Sub G D in
  let out_x := GFp2.Sub out_x D in
  let out_z := GFp2.Add (ty r) (tz r) in
  let out_z := GFp2.Square out_z in
  let out_z := GFp2.Sub out_z B in
  let out_z := GFp2.Sub out_z (tt_ r) in
  let out_y := GFp2.Sub D out_x in
  let out_y := GFp2.Mul out_y E in
  let t := GFp2.Add C_ C_ in
  let t := GFp2.Add t t in
  let t := GFp2.Add t t in
  let out_y := GFp2.Sub out_y t in
  let out_t := GFp2.Square out_z in
  let t := GFp2.Mul E (tt_ r) in
  let t := GFp2.Add t t in
  let b := GFp2.SetZero in
  let b := GFp2.Sub b t in
  let b := GFp2.MulScalar b (cx q) in
  let a := GFp2.Add (tx r) E in
  let a := GFp2.Square a in
  let a := GFp2.Sub a A in
  let a := GFp2.Sub a G in
  let t := GFp2.Add B B in
  let t := GFp2.Add t t in
  let a := GFp2.Sub a t in
  let c := GFp2.Mul out_z (tt_ r) in
  let c := GFp2.Add c c in
  let c := GFp2.MulScalar c (cy q) in
  (a, b, c, mkTwist out_x out_y out_z out_t).

(** The value [ret] holds after the call. *)
Definition mulLine (ret : gfP12) (a b c : gfP2) : gfP12 :=
  let a2 := mkGFp6 GFp2.SetZero a b in
  let a2 := GFp6.Mul a2 (x12 ret) in
  let t3 := GFp6.MulScalar (y12 ret) c in
  let t := GFp2.Add b c in
  let t2 := mkGFp6 GFp2.SetZero a t in
  let ret_x := GFp6.Add (x12 ret) (y12 ret) in
  let ret_y := t3 in
  let ret_x := GFp6.Mul ret_x t2 in
  let ret_x := GFp6.Sub ret_x a2 in
  let ret_x := GFp6.Sub ret_x ret_y in
  let a2 := GFp6.MulTau a2 in
  let ret_y := GFp6.Add ret_y a2 in
  mkGFp12 ret_x ret_y.

Definition sixuPlus2NAF : list Z :=
  [0; 0; 0; 1; 0; 1; 0; -1; 0; 0; 1; -1; 0; 0; 1; 0;
   0; 1; 1; 0; -1; 0; 0; 1; 0; -1; 0; 0; 0; 0; 1; 1;
   1; 0; 0; -1; 0; 0; 1; 0; 0; 0; 0; 0; -1; 0; 0; 1;
   1; 0; 0; -1; 0; 0; 0; 1; 1; 0; -1; 0; 0; 1; 0; 1; 1].

(** The turn [i] of the loop of [miller]; [k] is [i - 1], from 63 down to 0. *)
Definition miller_turn (aAffine minusA : twistPoint) (bAffine : curvePoint) (r2 : gfP2)
    (k : Z) (st : gfP12 * twistPoint) : gfP12 * twistPoint :=
  let i := k + 1 in
  let '(ret, r) := st in
  let '(a, b, c, newR) := lineFunctionDouble r bAffine in
  let ret := if negb (i =? len sixuPlus2NAF - 1) then GFp12.Square ret else ret in
  let ret := mulLine ret a b c in
  let r := newR in
  let d := nth (Z.to_nat (i - 1)) sixuPlus2NAF 0 in
  if d =? 1 then
    let '(a, b, c, newR) := lineFunctionAdd r aAffine bAffine r2 in (mulLine ret a b c, newR)
  else if d =? -1 then
    let '(a, b, c, newR) := lineFunctionAdd r minusA bAffine r2 in (mulLine ret a b c, newR)
  else (ret, r).

Definition miller (q : twistPoint) (p : curvePoint) : gfP12 :=
  let ret := GFp12.SetOne in
  let aAffine := TwistPoint.MakeAffine q in
  let bAffine := CurvePoint.MakeAffine p in
  let minusA := TwistPoint.Negative aAffine in
  let r := aAffine in
  let r2 := GFp2.Square (ty aAffine) in
  let '(ret, r) :=
    for_down (Z.to_nat (len sixuPlus2NAF - 1)) (miller_turn aAffine minusA bAffine r2) (ret, r) in
  let q1 := mkTwist (GFp2.Mul (GFp2.Conjugate (tx aAffine)) xiToPMinus1Over3)
                    (GFp2.Mul (GFp2.Conjugate (ty aAffine)) xiToPMinus1Over2)
                    GFp2.SetOne GFp2.SetOne in
  let minusQ2 := mkTwist (GFp2.MulScalar (tx aAffine) xiToPSquaredMinus1Over3)
                         (ty aAffine) GFp2.SetOne GFp2.SetOne in
  let r2 := GFp2.Square (ty q1) in
  let '(a, b, c, newR) := lineFunctionAdd r q1 bAffine r2 in
  let ret := mulLine ret a b c in
  let r := newR in
  let r2 := GFp2.Square (ty minusQ2) in
  let '(a, b, c, newR) := lineFunctionAdd r minusQ2 bAffine r2 in
  mulLine ret a b c.

Definition finalExponentiation (in_ : gfP12) : gfP12 :=
  let t1 := mkGFp12 (GFp6.Negative (x12 in_)) (y12 in_) in
  let inv := GFp12.Invert in_ in
  let t1 := GFp12.Mul t1 inv in
  let t2 := GFp12.FrobeniusP2 t1 in
  let t1 := GFp12.Mul t1 t2 in
  let fp := GFp12.Frobenius t1 in
  let fp2 := GFp12.FrobeniusP2 t1 in
  let fp3 := GFp12.Frobenius fp2 in
  let fu := GFp12.Exp t1 u in
  let fu2 := GFp12.Exp fu u in
  let fu3 := GFp12.Exp fu2 u in
  let y3 := GFp12.Frobenius fu in
  let fu2p := GFp12.Frobenius fu2 in
  let fu3p := GFp12.Frobenius fu3 in
  let y2 := GFp12.FrobeniusP2 fu2 in
  let y0 := GFp12.Mul fp fp2 in
  let y0 := GFp12.Mul y0 fp3 in
  let y1 := GFp12.Conjugate t1 in
  let y5 := GFp12.Conjugate fu2 in
  let y3 := GFp12.Conjugate y3 in
  let y4 := GFp12.Mul fu fu2p in
  let y4 := GFp12.Conjugate y4 in
  let y6 := GFp12.Mul fu3 fu3p in
  let y6 := GFp12.Conjugate y6 in
  let t0 := GFp12.Square y6 in
  let t0 := GFp12.Mul t0 y4 in
  let t0 := GFp12.Mul t0 y5 in
  let t1 := GFp12.Mul y3 y5 in
  let t1 := GFp12.Mul t1 t0 in
  let t0 := GFp12.Mul t0 y2 in
  let t1 := GFp12.Square t1 in
  let t1 := GFp12.Mul t1 t0 in
  let t1 := GFp12.Square t1 in
  let t0 := GFp12.Mul t1 y1 in
  let t1 := GFp12.Mul t1 y0 in
  let t0 := GFp12.Square t0 in
  GFp12.Mul t0 t1.

Definition optimalAte (a : twistPoint) (b : curvePoint) : gfP12 :=
  let e := miller a b in
  let ret := finalExponentiation e in
  if TwistPoint.IsInfinity a || CurvePoint.IsInfinity b then GFp12.SetOne else ret.

Definition Pair (g1 : curvePoint) (g2 : twistPoint) : gfP12 := optimalAte g2 g1.

(** [PairingCheck]: [b[i]] panics when [b] is the shorter slice. *)
Fixpoint pairing_loop (acc : gfP12) (a : list curvePoint) (b : list twistPoint) : outcome gfP12 :=
  match a with
  | [] => Ret acc
  | p :: a =>
      if CurvePoint.IsInfinity p then pairing_loop acc a (tl b)
      else match b with
           | [] => Panic
           | q :: b =>
               if TwistPoint.IsInfinity q then pairing_loop acc a b
               else pairing_loop (GFp12.Mul acc (miller q p)) a b
           end
  end.

Definition PairingCheck (a : list curvePoint) (b : list twistPoint) : outcome bool :=
  let! acc := pairing_loop GFp12.SetOne a b in
  Ret (GFp12.IsOne (finalExponentiation acc)).

(** ** The line functions *)

Section lines.
Local Open Scope fp12_scope.

(** The sparse element a line contributes to the Miller product. *)
Definition line (a b c : gfP2) : gfP12 := mkGFp12 (mkGFp6 GFp2.SetZero a b) (of_fp2 c).

Lemma mulLine_mul ret a b c : mulLine ret a b c == ret * line a b c.
Proof.
  unfold mulLine, line. cbv zeta. fp12_unfold. rewrite fp6_mulscalar.
  assert (S : eq6 (mkGFp6 GFp2.SetZero a (GFp2.Add b c)) (GFp6.Add (mkGFp6 GFp2.SetZero a b) (of_fp2 c)))
    by (unfold of_fp2; fp6_coeffs).
  rewrite S. split; fp6_norm; ring.
Qed.

Local Open Scope fp2_scope.
Local Abbreviation two := (1 + 1).

(** [lineFunctionDouble] doubles the point and keeps [t = z^2]. *)
Lemma lineFunctionDouble_point r q : tt_ r == tz r * tz r ->
  let '(_, _, _, r') := lineFunctionDouble r q in
  tx r' == dbl_x 1 GFp2.Add GFp2.Mul GFp2.Sub (tx r) (ty r) /\
  ty r' == dbl_y 1 GFp2.Add GFp2.Mul GFp2.Sub (tx r) (ty r) /\
  tz r' == dbl_z 1 GFp2.Add GFp2.Mul (ty r) (tz r) /\ tt_ r' == tz r' * tz r'.
Proof.
  intros Ht. unfold lineFunctionDouble. cbv zeta. cbn [tx ty tz tt_].
  unfold dbl_y, dbl_x, dbl_z, dbl_d, dbl_e. split; [|split; [|split]]; fp2_norm; rewrite ?Ht; ring.
Qed.

(** Its line is the tangent at the point, up to the factor [4 py z^6]. *)
Lemma lineFunctionDouble_line r q px py s : tt_ r == tz r * tz r -> twist_stands r px py ->
  two * py * s == (two + 1) * (px * px) ->
  let '(a, b, c, _) := lineFunctionDouble r q in
  let k := two * two * py * (tz r * tz r * tz r * (tz r * tz r * tz r)) in
  a == k * (s * px - py) /\ b == k * - (s * of_Z (cx q)) /\ c == k * of_Z (cy q).
Proof.
  intros Ht [Hx Hy] Hs. unfold lineFunctionDouble. cbv zeta.
  assert (E3 : (two + 1) * (tx r * tx r) == two * py * s * (tz r * tz r * (tz r * tz r)))
    by (rewrite Hs, Hx; ring).
  split; [|split]; fp2_norm; rewrite ?Ht.
  - transitivity (two * tx r * ((two + 1) * (tx r * tx r)) - two * two * (ty r * ty r)); [ring|].
    rewrite E3, Hx, Hy. ring.
  - transitivity (two * - (of_Z (cx q)) * ((two + 1) * (tx r * tx r)) * (tz r * tz r)); [ring|].
    rewrite E3. ring.
  - rewrite Hy. ring.
Qed.

(** [lineFunctionAdd] adds the affine point [p]. *)
Lemma lineFunctionAdd_point r p q r2 : tt_ r == tz r * tz r -> r2 == ty p * ty p ->
  let '(_, _, _, r') := lineFunctionAdd r p q r2 in
  tx r' == add_x 1 GFp2.Add GFp2.Mul GFp2.Sub (tx r) (ty r) (tz r) (tx p) (ty p) 1 /\
  ty r' == add_y 1 GFp2.Add GFp2.Mul GFp2.Sub (tx r) (ty r) (tz r) (tx p) (ty p) 1 /\
  tz r' == add_z 1 GFp2.Add GFp2.Mul GFp2.Sub (tx r) (tz r) (tx p) 1 /\ tt_ r' == tz r' * tz r'.
Proof.
  intros Ht H2. unfold lineFunctionAdd. cbv zeta. cbn [tx ty tz tt_].
  unfold add_y, add_x, add_z, add_v, add_j, add_r, add_h, add_u1, add_u2, add_s1, add_s2.
  split; [|split; [|split]]; fp2_norm; rewrite ?Ht, ?H2; ring.
Qed.

(** Its line is the chord through the two points, up to a factor. *)
Lemma lineFunctionAdd_line r p q r2 px py s : tt_ r == tz r * tz r -> r2 == ty p * ty p ->
  twist_stands r px py -> s * (tx p - px) == ty p - py ->
  let '(a, b, c, _) := lineFunctionAdd r p q r2 in
  let k := two * two * (tx p - px) * (tz r * tz r * tz r) in
  a == k * (s * tx p - ty p) /\ b == k * - (s * of_Z (cx q)) /\ c == k * of_Z (cy q).
Proof.
  intros Ht H2 [Hx Hy] Hs. unfold lineFunctionAdd. cbv zeta.
  split; [|split]; fp2_norm; rewrite ?Ht, ?H2, ?Hx, ?Hy.
  - transitivity (two * two * (tz r * tz r * tz r) * ((ty p - py) * tx p - (tx p - px) * ty p)); [ring|].
    rewrite <- Hs. ring.
  - transitivity (- (two * two * (tz r * tz r * tz r) * (ty p - py) * of_Z (cx q))); [ring|].
    rewrite <- Hs. ring.
  - ring.
Qed.

End lines.

(** ** The final exponentiation *)

Section final.
Local Open Scope fp12_scope.

(** Steps 13 and 14: [f^((p^6 - 1)(p^2 + 1))]. *)
Definition easy_part (f : gfP12) : gfP12 :=
  let g := GFp12.Conjugate f * GFp12.Invert f in g * GFp12.FrobeniusP2 g.

(** The factors of the last step, for [t = easy_part f]. *)
Definition final_ys (t : gfP12) : list (gfP12 * nat) :=
  let fu := GFp12.Exp t u in
  let fu2 := GFp12.Exp fu u in
  let fu3 := GFp12.Exp fu2 u in
  let p := GFp12.Frobenius in
  let p2 := GFp12.FrobeniusP2 in
  let c := GFp12.Conjugate in
  [(p t * p2 t * p (p2 t), 1%nat); (c t, 2%nat); (p2 fu2, 6%nat); (c (p fu), 12%nat);
   (c (fu * p fu2), 18%nat); (c fu2, 30%nat); (c (fu3 * p fu3), 36%nat)].

(** The product of the powers of a list of factors. *)
Definition prod_pows (l : list (gfP12 * nat)) : gfP12 :=
  fold_right (fun yn acc => pow12 (fst yn) (snd yn) * acc) 1 l.

Lemma pow12_mul a b n : pow12 (a * b) n == pow12 a n * pow12 b n.
Proof. apply (npow_mul_base eq12 GFp12.SetOne GFp12.Mul); intros; ring. Qed.

Lemma pow12_proper a b n : a == b -> pow12 a n == pow12 b n.
Proof. apply (npow_proper_base eq12 GFp12.SetOne GFp12.Mul). Qed.

(** The addition chain at the end of [finalExponentiation]. *)
Lemma addition_chain (y0 y1 y2 y3 y4 y5 y6 : gfP12) :
  (let t0 := GFp12.Square y6 in
   let t0 := t0 * y4 in
   let t0 := t0 * y5 in
   let t1 := y3 * y5 in
   let t1 := t1 * t0 in
   let t0 := t0 * y2 in
   let t1 := GFp12.Square t1 in
   let t1 := t1 * t0 in
   let t1 := GFp12.Square t1 in
   let t0 := t1 * y1 in
   let t1 := t1 * y0 in
   let t0 := GFp12.Square t0 in
   t0 * t1) ==
  prod_pows [(y0, 1%nat); (y1, 2%nat); (y2, 6%nat); (y3, 12%nat); (y4, 18%nat); (y5, 30%nat); (y6, 36%nat)].
Proof.
  cbv zeta. rewrite !fp12_square. unfold prod_pows, pow12. cbn [fold_right fst snd npow]. ring.
Qed.

Lemma finalExponentiation_factors f : finalExponentiation f == prod_pows (final_ys (easy_part f)).
Proof.
  set (t := easy_part f). set (fu := GFp12.Exp t u).
  set (fu2 := GFp12.Exp fu u). set (fu3 := GFp12.Exp fu2 u).
  exact (addition_chain
    (GFp12.Frobenius t * GFp12.FrobeniusP2 t * GFp12.Frobenius (GFp12.FrobeniusP2 t))
    (GFp12.Conjugate t) (GFp12.FrobeniusP2 fu2) (GFp12.Conjugate (GFp12.Frobenius fu))
    (GFp12.Conjugate (fu * GFp12.Frobenius fu2)) (GFp12.Conjugate fu2)
    (GFp12.Conjugate (fu3 * GFp12.Frobenius fu3))).
Qed.

Lemma easy_part_mul a b : invertible a -> invertible b -> easy_part (a * b) == easy_part a * easy_part b.
Proof.
  intros Ha Hb. unfold easy_part. cbv zeta.
  rewrite conj12_mul, (invert12_mul a b Ha Hb).
  set (ca := GFp12.Conjugate a). set (cb := GFp12.Conjugate b).
  set (ia := GFp12.Invert a). set (ib := GFp12.Invert b).
  assert (E : ca * cb * (ia * ib) == (ca * ia) * (cb * ib)) by ring.
  rewrite E, frobP2_12_mul. ring.
Qed.

Lemma exp_u_mul t a b : t == a * b -> GFp12.Exp t u == GFp12.Exp a u * GFp12.Exp b u.
Proof. intros H. rewrite (exp12_proper _ _ u ltac:(discriminate) H). apply exp12_mul. discriminate. Qed.

(** Two lists of factors multiply to a third one, factor by factor. *)
Definition factors_mul (l l1 l2 : list (gfP12 * nat)) : Prop :=
  Forall2 (fun y y12 => snd y = snd (fst y12) /\ snd y = snd (snd y12) /\
                        fst y == fst (fst y12) * fst (snd y12)) l (combine l1 l2).

Lemma prod_pows_mul l l1 l2 : length l1 = length l2 -> factors_mul l l1 l2 ->
  prod_pows l == prod_pows l1 * prod_pows l2.
Proof.
  revert l l2; induction l1 as [|[y1 n1] l1 IH]; intros l [|[y2 n2] l2] L H; try discriminate L.
  - inversion H. cbn. ring.
  - inversion H as [|[y n] ? l' ? (E1 & E2 & E3) H']; subst. cbn in E1, E2, E3. subst.
    injection L as L. unfold prod_pows in *. cbn [fold_right fst snd].
    rewrite (IH l' l2 L H'), (pow12_proper _ _ _ E3), pow12_mul. ring.
Qed.

Lemma final_ys_mul t a b : t == a * b -> factors_mul (final_ys t) (final_ys a) (final_ys b).
Proof.
  intros H. pose proof (exp_u_mul _ _ _ H) as H1. pose proof (exp_u_mul _ _ _ H1) as H2.
  pose proof (exp_u_mul _ _ _ H2) as H3. unfold final_ys. cbv zeta.
  set (fu := GFp12.Exp t u) in *. set (fa := GFp12.Exp a u) in *. set (fb := GFp12.Exp b u) in *.
  set (gu := GFp12.Exp fu u) in *. set (ga := GFp12.Exp fa u) in *. set (gb := GFp12.Exp fb u) in *.
  set (hu := GFp12.Exp gu u) in *. set (ha := GFp12.Exp ga u) in *. set (hb := GFp12.Exp gb u) in *.
  clearbody fu fa fb gu ga gb hu ha hb. unfold factors_mul. cbn [combine].
  repeat (constructor; [split; [reflexivity|split; [reflexivity|cbn [fst snd]]]|]); [..|constructor];
    rewrite ?H, ?H1, ?H2, ?H3; rewrite ?frob12_mul, ?frobP2_12_mul, ?frob12_mul, ?conj12_mul, ?frob12_mul;
    try reflexivity; ring.
Qed.

Lemma finalExponentiation_mul a b : invertible a -> invertible b ->
  finalExponentiation (a * b) == finalExponentiation a * finalExponentiation b.
Proof.
  intros Ha Hb. rewrite !finalExponentiation_factors.
  apply prod_pows_mul; [reflexivity|]. apply final_ys_mul, easy_part_mul; assumption.
Qed.

End final.

(** ** [PairingCheck] *)

Section check.
Local Open Scope fp12_scope.

Lemma reduce_small v : (0 <= v < P)%Z -> reduce v = v.
Proof. intros H. unfold reduce. rewrite Z.geb_leb. destruct (Z.ltb_spec v 0), (Z.leb_spec P v); cbn; lia. Qed.

Lemma minimal_is_zero a : GFp2.IsZero (GFp2.Minimal a) = true <-> eq2 a GFp2.SetZero.
Proof. exact (minimal_zero a). Qed.

Lemma minimal_is_one a : GFp2.IsOne (GFp2.Minimal a) = true <-> eq2 a GFp2.SetOne.
Proof.
  pose proof (reduced2_minimal a) as [R1 R2]. rewrite <- (fp2_minimal a) at 2.
  unfold GFp2.IsOne. destruct (Z.eqb_spec (x2 (GFp2.Minimal a)) 0) as [E|E]; cbn [negb].
  - rewrite Z.abs_eq, Z.eqb_eq by lia. split.
    + intros E1. split; cbn [x2 y2 GFp2.SetOne]; rewrite ?E, ?E1; reflexivity.
    + intros H. apply fp2_eq_reduced in H; [rewrite H; reflexivity|split; assumption|].
      split; cbn; pose proof P_pos; unfold P; lia.
  - split; [discriminate|]. intros H. exfalso. apply E.
    apply fp2_eq_reduced in H; [rewrite H; reflexivity|split; assumption|].
    split; cbn; unfold P; lia.
Qed.

(** [IsOne] decides equality with one. *)
Lemma IsOne_iff e : GFp12.IsOne e = true <-> e == 1.
Proof.
  destruct e as [[a b c] [d f g]]. unfold GFp12.IsOne, GFp6.IsZero, GFp6.IsOne. cbv zeta.
  cbn [GFp12.Minimal GFp6.Minimal x12 y12 x6 y6 z6].
  rewrite !andb_true_iff, !minimal_is_zero, minimal_is_one.
  unfold eq12, eq6. cbn [x12 y12 x6 y6 z6 GFp12.SetOne GFp6.SetZero GFp6.SetOne]. tauto.
Qed.

Lemma finalExponentiation_one : finalExponentiation 1 == 1.
Proof. apply IsOne_iff. vm_compute. reflexivity. Qed.

Lemma invertible_one : invertible 1.
Proof. vm_compute. reflexivity. Qed.

(** The product of the pairings of the two lists. *)
Definition pairing_product (a : list curvePoint) (b : list twistPoint) : gfP12 :=
  fold_right (fun pq acc => Pair (fst pq) (snd pq) * acc) 1 (combine a b).

(** The Miller values the check multiplies are invertible. *)
Definition miller_ok (p : curvePoint) (q : twistPoint) : Prop :=
  CurvePoint.IsInfinity p = false -> TwistPoint.IsInfinity q = false -> invertible (miller q p).

Lemma Pair_infinity p q : CurvePoint.IsInfinity p = true \/ TwistPoint.IsInfinity q = true -> Pair p q = 1.
Proof.
  intros H. unfold Pair, optimalAte. cbv zeta. destruct H as [-> | ->]; [rewrite orb_true_r|]; reflexivity.
Qed.

Lemma Pair_finite p q : CurvePoint.IsInfinity p = false -> TwistPoint.IsInfinity q = false ->
  Pair p q = finalExponentiation (miller q p).
Proof. intros H1 H2. unfold Pair, optimalAte. cbv zeta. rewrite H1, H2. reflexivity. Qed.

Lemma pairing_loop_spec a : forall b acc, length a = length b -> invertible acc ->
  Forall2 miller_ok a b ->
  exists acc', pairing_loop acc a b = Ret acc' /\ invertible acc' /\
    finalExponentiation acc' == finalExponentiation acc * pairing_product a b.
Proof.
  induction a as [|p a IH]; intros [|q b] acc L Hacc Hok; try discriminate L.
  { exists acc. split; [reflexivity|]. split; [exact Hacc|]. cbn. ring. }
  injection L as L. inversion Hok as [|? ? ? ? Hm Hok']; subst.
  unfold pairing_product. cbn [combine fold_right fst snd pairing_loop tl]. fold (pairing_product a b).
  destruct (CurvePoint.IsInfinity p) eqn:Ip; [|destruct (TwistPoint.IsInfinity q) eqn:Iq].
  - destruct (IH b acc L Hacc Hok') as (acc' & E & H1 & H2). exists acc'. split; [exact E|]. split; [exact H1|].
    rewrite H2, Pair_infinity by auto. ring.
  - destruct (IH b acc L Hacc Hok') as (acc' & E & H1 & H2). exists acc'. split; [exact E|]. split; [exact H1|].
    rewrite H2, Pair_infinity by auto. ring.
  - pose proof (Hm Ip Iq) as Hi.
    destruct (IH b (acc * miller q p) L (invertible_mul _ _ Hacc Hi) Hok') as (acc' & E & H1 & H2).
    exists acc'. split; [exact E|]. split; [exact H1|].
    rewrite H2, finalExponentiation_mul, Pair_finite by assumption. ring.
Qed.

End check.
