(* ===== verification/Bn256Group.v ===== *)
(** * Package [bn256]: the groups G1, G2 and GT

    [bn256.go]: the exported groups and their byte representations.  A group
    object is its point; [Marshal] also normalises the point it is called on,
    so it returns the bytes and the point as it leaves it.  [Unmarshal] is
    [None] for [nil, false]. *)

From Stdlib Require Import ZArith List Lia Bool Setoid Morphisms Ring.
From S2P Require Import Prelude GoBig ModArith ByteBuf Jacobian Bn256Field Bn256Tower Bn256Curve Bn256Twist Bn256Frobenius Bn256Pairing.
Import ListNotations.
Local Open Scope Z_scope.

Module G1.

Definition ScalarBaseMult (k : Z) : curvePoint := CurvePoint.Mul CurvePoint.curveGen k.
Definition ScalarMult (a : curvePoint) (k : Z) : curvePoint := CurvePoint.Mul a k.
(** [e] is the receiver. *)
Definition Add (e a b : curvePoint) : curvePoint := CurvePoint.Add e a b.
Definition Neg (a : curvePoint) : curvePoint := CurvePoint.Negative a.
Definition CurvePoints (e : curvePoint) : Z * Z * Z * Z := (cx e, cy e, cz e, ct e).

Definition Marshal (n : curvePoint) : outcome (list Z * curvePoint) :=
  let n := CurvePoint.MakeAffine n in
  let! ret := put_words (zeros (numBytes * 2)) 1 [cx n mod P; cy n mod P] in
  Ret (ret, n).

Definition Unmarshal (m : list Z) : outcome (option curvePoint) :=
  if negb (len m =? 2 * numBytes) then Ret None
  else
    let! ws := get_words m 0 2 in
    let x := nth 0 ws 0 in
    let y := nth 1 ws 0 in
    if (x =? 0) && (y =? 0) then Ret (Some (mkCurve x 1 0 0))
    else
      let e := mkCurve x y 1 1 in
      if negb (CurvePoint.IsOnCurve e) then Ret None else Ret (Some e).

End G1.

Module G2.

Definition ScalarBaseMult (k : Z) : twistPoint := TwistPoint.Mul TwistPoint.twistGen k.
Definition ScalarMult (a : twistPoint) (k : Z) : twistPoint := TwistPoint.Mul a k.
Definition Add (e a b : twistPoint) : twistPoint := TwistPoint.Add e a b.
Definition CurvePoints (e : twistPoint) : gfP2 * gfP2 * gfP2 * gfP2 := (tx e, ty e, tz e, tt_ e).

Definition Marshal (n : twistPoint) : outcome (list Z * twistPoint) :=
  let n := TwistPoint.MakeAffine n in
  let! ret := put_words (zeros (numBytes * 4)) 1
                [x2 (tx n) mod P; y2 (tx n) mod P; x2 (ty n) mod P; y2 (ty n) mod P] in
  Ret (ret, n).

Definition Unmarshal (m : list Z) : outcome (option twistPoint) :=
  if negb (len m =? 4 * numBytes) then Ret None
  else
    let! ws := get_words m 0 4 in
    let x := mkGFp2 (nth 0 ws 0) (nth 1 ws 0) in
    let y := mkGFp2 (nth 2 ws 0) (nth 3 ws 0) in
    if (x2 x =? 0) && (y2 x =? 0) && (x2 y =? 0) && (y2 y =? 0) then
      Ret (Some (mkTwist x GFp2.SetOne GFp2.SetZero GFp2.SetZero))
    else
      let e := mkTwist x y GFp2.SetOne GFp2.SetOne in
      if negb (TwistPoint.IsOnCurve e) then Ret None else Ret (Some e).

End G2.

Module GT.

Definition ScalarMult (a : gfP12) (k : Z) : gfP12 := GFp12.Exp a k.
Definition Add (a b : gfP12) : gfP12 := GFp12.Mul a b.
Definition Neg (a : gfP12) : gfP12 := GFp12.Invert a.

(** The twelve coefficients in the order of the byte format. *)
Definition coeffs2 (a : gfP2) : list Z := [x2 a; y2 a].
Definition coeffs6 (a : gfP6) : list Z := coeffs2 (x6 a) ++ coeffs2 (y6 a) ++ coeffs2 (z6 a).
Definition coeffs (a : gfP12) : list Z := coeffs6 (x12 a) ++ coeffs6 (y12 a).

Definition Marshal (n : gfP12) : outcome (list Z * gfP12) :=
  let n := GFp12.Minimal n in
  let! ret := put_words (zeros (numBytes * 12)) 1 (coeffs n) in
  Ret (ret, n).

Definition Unmarshal (m : list Z) : outcome (option gfP12) :=
  if negb (len m =? 12 * numBytes) then Ret None
  else
    let! ws := get_words m 0 12 in
    let w k := nth k ws 0 in
    Ret (Some (mkGFp12
      (mkGFp6 (mkGFp2 (w 0%nat) (w 1%nat)) (mkGFp2 (w 2%nat) (w 3%nat)) (mkGFp2 (w 4%nat) (w 5%nat)))
      (mkGFp6 (mkGFp2 (w 6%nat) (w 7%nat)) (mkGFp2 (w 8%nat) (w 9%nat)) (mkGFp2 (w 10%nat) (w 11%nat))))).

End GT.

(** ** Round trips *)

Lemma P_word v : 0 <= v < P -> word_range v.
Proof. unfold word_range. intros H. assert (P < 256 ^ 32) by reflexivity. lia. Qed.

Lemma mod_P_word v : word_range (v mod P).
Proof. apply P_word, Z.mod_pos_bound, P_pos. Qed.

Ltac words_ok := repeat first [assumption | apply Forall_nil | apply mod_P_word | apply Forall_cons].

(** Marshalling writes the reduced affine coordinates. *)
Lemma G1_Marshal_bytes p : let a := CurvePoint.MakeAffine p in
  G1.Marshal p = Ret (words_bytes [cx a mod P; cy a mod P], a).
Proof.
  intros a. unfold G1.Marshal. fold a. cbv zeta. change (numBytes * 2) with (32 * len [cx a mod P; cy a mod P]).
  rewrite put_words_zeros by words_ok. reflexivity.
Qed.

Lemma G2_Marshal_bytes p : let a := TwistPoint.MakeAffine p in
  G2.Marshal p = Ret (words_bytes [x2 (tx a) mod P; y2 (tx a) mod P; x2 (ty a) mod P; y2 (ty a) mod P], a).
Proof.
  intros a. unfold G2.Marshal. fold a. cbv zeta.
  change (numBytes * 4) with (32 * len [x2 (tx a) mod P; y2 (tx a) mod P; x2 (ty a) mod P; y2 (ty a) mod P]).
  rewrite put_words_zeros by words_ok. reflexivity.
Qed.

Lemma G1_Unmarshal_words x y : word_range x -> word_range y ->
  G1.Unmarshal (words_bytes [x; y]) =
  Ret (if (x =? 0) && (y =? 0) then Some (mkCurve x 1 0 0)
       else if CurvePoint.IsOnCurve (mkCurve x y 1 1) then Some (mkCurve x y 1 1) else None).
Proof.
  intros Hx Hy. unfold G1.Unmarshal. rewrite words_bytes_len.
  change (32 * len [x; y] =? 2 * numBytes) with true. cbn [negb].
  change 2%nat with (length [x; y]). rewrite (get_words_bytes [x; y]) by words_ok. cbn [obind nth]. cbv zeta.
  destruct ((x =? 0) && (y =? 0)); [reflexivity|]. destruct (CurvePoint.IsOnCurve _); reflexivity.
Qed.

Lemma G2_Unmarshal_words a b c d : Forall word_range [a; b; c; d] ->
  let e := mkTwist (mkGFp2 a b) (mkGFp2 c d) GFp2.SetOne GFp2.SetOne in
  G2.Unmarshal (words_bytes [a; b; c; d]) =
  Ret (if (a =? 0) && (b =? 0) && (c =? 0) && (d =? 0)
       then Some (mkTwist (mkGFp2 a b) GFp2.SetOne GFp2.SetZero GFp2.SetZero)
       else if TwistPoint.IsOnCurve e then Some e else None).
Proof.
  intros H e. unfold G2.Unmarshal. rewrite words_bytes_len.
  change (32 * len [a; b; c; d] =? 4 * numBytes) with true. cbn [negb].
  change 4%nat with (length [a; b; c; d]). rewrite (get_words_bytes [a; b; c; d]) by exact H. cbn [obind nth]. cbv zeta. cbn [x2 y2].
  destruct ((a =? 0) && (b =? 0) && (c =? 0) && (d =? 0)); [reflexivity|].
  fold e. destruct (TwistPoint.IsOnCurve e); reflexivity.
Qed.

(** * The affine group law of G1, without side conditions

    [P] being prime, every division of the chord-and-tangent law is possible;
    so addition, doubling and scalar multiplication in Jacobian coordinates
    compute the affine law on all points, and [Marshal] writes the affine
    coordinates. *)

Import ListNotations CurvePoint.

Lemma defined_all p q : defined p q.
Proof. destruct p as [[x1 y1]|], q as [[x2 y2]|]; cbn; try exact I. split; apply unit_P_dec. Qed.

Definition affine_dbl (p : affine) : affine := match p with None => None | Some (x, y) => affine_double x y end.

(** Double-and-add from the top bit, on affine points. *)
Definition affine_mul (k : Z) (p : affine) : affine :=
  for_down (Z.to_nat (BitLen k + 1))
    (fun i s => let d := affine_dbl s in if Z.testbit k i then affine_add d p else d) None.

Lemma Double_law c a p : reps a p -> reps (Double c a) (affine_dbl p).
Proof.
  destruct p as [[x y]|]; cbn [affine_dbl]; intros H.
  - apply Double_reps; [exact H | apply unit_P_dec].
  - unfold reps, Double in *. cbv zeta. cbn [cz]. rewrite H, Z.mul_0_r. reflexivity.
Qed.

Lemma Add_law c a b p q : reps a p -> reps b q -> reps (Add c a b) (affine_add p q).
Proof. intros Ha Hb. apply Add_reps; [exact Ha | exact Hb | apply defined_all]. Qed.

Lemma Mul_law a p k : reps a p -> reps (Mul a k) (affine_mul k p).
Proof.
  intros Ha. unfold Mul, affine_mul.
  apply (for_down_rel (fun st s => reps (fst st) s)); [reflexivity|].
  intros i [sum t] s _ Hs. cbn [fst] in Hs. cbv zeta. pose proof (Double_law t sum s Hs) as D.
  destruct (Z.testbit k (Z.of_nat i)); cbn [fst]; [apply Add_law; assumption | exact D].
Qed.

(** ** The [z] coordinate is never negative *)

Lemma Double_z c a : 0 <= cz (Double c a).
Proof.
  unfold Double. cbv zeta. cbn [cz]. pose proof (Z.mod_pos_bound (cy a * cz a) P eq_refl). lia.
Qed.

Lemma Add_z c a b : 0 <= cz a -> 0 <= cz b -> 0 <= cz (Add c a b).
Proof.
  intros Ha Hb. unfold Add. destruct (IsInfinity a); [exact Hb|]. destruct (IsInfinity b); [exact Ha|]. cbv zeta.
  destruct (_ && _); [apply Double_z|]. cbn [cz]. apply Z.mod_pos_bound. reflexivity.
Qed.

Lemma Mul_z a k : 0 <= cz a -> 0 <= cz (Mul a k).
Proof.
  intros Ha. unfold Mul. apply (for_down_ind (fun _ st => 0 <= cz (fst st))); [reflexivity || discriminate|].
  intros i [sum t] _ _. cbv zeta. pose proof (Double_z t sum) as D.
  destruct (Z.testbit k (Z.of_nat i)); cbn [fst]; [apply Add_z; assumption | exact D].
Qed.

(** ** The byte format *)

Definition g1_encode (p : affine) : list Z :=
  match p with
  | None => words_bytes [0; 0]
  | Some (x, y) => words_bytes [x mod P; y mod P]
  end.

Lemma MakeAffine_infinity c : cz c = 0 -> MakeAffine c = mkCurve 0 0 1 1.
Proof.
  intros H. unfold MakeAffine. rewrite H. cbn [Z.abs Z.eqb]. cbv zeta.
  replace (inv P 0) with 0 by (vm_compute; reflexivity). change ((0 * 0) mod P) with 0. rewrite !Z.mul_0_r. reflexivity.
Qed.

(** Two affine points a Jacobian point stands for are the same. *)
Lemma stands_unique c x y x' y' : unitm P (cz c) -> stands_for c x y -> stands_for c x' y' -> x ≡[P] x' /\ y ≡[P] y'.
Proof.
  intros U [Hx Hy] [Hx' Hy']. assert (U2 : unitm P (cz c * cz c)) by unit_solve.
  assert (U3 : unitm P (cz c * cz c * cz c)) by unit_solve. split.
  - apply (unit_cancel P P_pos _ _ _ U2). rewrite Z.mul_comm, (Z.mul_comm _ x').
    etransitivity; [symmetry; exact Hx | exact Hx'].
  - apply (unit_cancel P P_pos _ _ _ U3). rewrite Z.mul_comm, (Z.mul_comm _ y').
    etransitivity; [symmetry; exact Hy | exact Hy'].
Qed.

Lemma Marshal_law c p : reps c p -> 0 <= cz c -> exists c', G1.Marshal c = Ret (g1_encode p, c').
Proof.
  intros Hr Hz. exists (MakeAffine c). rewrite G1_Marshal_bytes. destruct p as [[x y]|]; cbn [g1_encode].
  - destruct Hr as [U S]. destruct (MakeAffine_stands c U ltac:(lia)) as [S' _].
    destruct (stands_unique c _ _ _ _ U S S') as [Ex Ey]. rewrite (eqm_mod _ _ _ Ex), (eqm_mod _ _ _ Ey). reflexivity.
  - rewrite MakeAffine_infinity by exact Hr. reflexivity.
Qed.

(** What the two coordinates of a point stand for. *)
Definition on_curve_xy (x y : Z) : bool := (y * y - x * x * x - 3) mod P =? 0.

Lemma IsOnCurve_xy x y z t : IsOnCurve (mkCurve x y z t) = on_curve_xy x y.
Proof.
  unfold IsOnCurve, on_curve_xy. cbv zeta. cbn [cx cy]. change curveB with 3. set (v := y * y - x * x * x - 3).
  destruct ((v <? 0) || (v >=? P)) eqn:E; [reflexivity|]. rewrite Z.geb_leb in E. b2p.
  rewrite Z.mod_small by lia. reflexivity.
Qed.
