(* ===== verification/Bn256Theorems.v ===== *)
(** * The properties of package [bn256] *)

From Stdlib Require Import ZArith List Lia Bool Setoid Morphisms Ring.
From S2P Require Import Prelude GoBig ModArith Jacobian ByteBuf Bn256Field Bn256Tower Bn256Curve.
From S2P Require Import Bn256Twist Bn256Frobenius Bn256Pairing Bn256Group.
Import ListNotations.
Local Open Scope Z_scope.

(** ** The field tower *)

(** The Karatsuba product and the dedicated squaring of [gfP6] compute the
    product of polynomials in [tau] with [tau^3 = xi], and the product and
    squaring of [gfP12] the product of polynomials in [omega] with
    [omega^2 = tau]. *)
Theorem tower_products_correct :
  (forall a b : gfP6, eq6 (GFp6.Mul a b)
     (mkGFp6 (x6 a * z6 b + y6 a * y6 b + z6 a * x6 b)
             (y6 a * z6 b + z6 a * y6 b + xi * (x6 a * x6 b))
             (z6 a * z6 b + xi * (x6 a * y6 b + y6 a * x6 b)))%fp2) /\
  (forall a : gfP6, eq6 (GFp6.Square a) (GFp6.Mul a a)) /\
  (forall a b : gfP12, eq12 (GFp12.Mul a b)
     (mkGFp12 (x12 a * y12 b + y12 a * x12 b) (y12 a * y12 b + tau * (x12 a * x12 b)))%fp6) /\
  (forall a : gfP12, eq12 (GFp12.Square a) (GFp12.Mul a a)).
Proof.
  split; [exact fp6_mul_schoolbook|]. split; [exact fp6_square|]. split; [|exact fp12_square].
  intros a b. fp12_unfold. split; fp6_norm; ring.
Qed.

(** [Invert] returns the inverse, and the only one, of every element whose
    norm is prime to [P]; the norm is multiplicative. *)
Theorem gfP12_Invert_correct a : invertible a ->
  eq12 (GFp12.Mul a (GFp12.Invert a)) GFp12.SetOne /\
  (forall b, eq12 (GFp12.Mul a b) GFp12.SetOne -> eq12 b (GFp12.Invert a)) /\
  (forall b, norm (GFp12.Mul a b) ≡[P] norm a * norm b).
Proof.
  intros H. split; [apply fp12_invert, H|]. split; [intros b; apply invert12_unique, H | apply norm_mul].
Qed.

Lemma gfP12_Invert_correct_witness :
  let a := GFp12.Add omega (of_fp6 (of_fp2 xi)) in eq12 (GFp12.Mul a (GFp12.Invert a)) GFp12.SetOne.
Proof.
  exact (proj1 (gfP12_Invert_correct (GFp12.Add omega (of_fp6 (of_fp2 xi))) ltac:(vm_compute; reflexivity))).
Defined.

(** [Exp] is exponentiation: it equals the iterated product, hence turns
    sums of exponents into products. *)
Theorem gfP12_Exp_correct a m n : 0 <= m -> 0 <= n ->
  eq12 (GFp12.Exp a n) (pow12 a (Z.to_nat n)) /\
  eq12 (GFp12.Exp a (m + n)) (GFp12.Mul (GFp12.Exp a m) (GFp12.Exp a n)).
Proof.
  intros Hm Hn. rewrite !fp12_exp, Z2Nat.inj_add by lia. split; [reflexivity|].
  apply (npow_add eq12 GFp12.SetOne GFp12.Mul); intros; ring.
Qed.

Lemma gfP12_Exp_correct_witness : eq12 (GFp12.Exp omega 5) (GFp12.Mul (GFp12.Exp omega 2) (GFp12.Exp omega 3)).
Proof. apply (gfP12_Exp_correct omega 2 3); lia. Defined.

(** [Frobenius] and [FrobeniusP2] are ring endomorphisms of [gfP12],
    [FrobeniusP2] is [Frobenius] twice, and [Conjugate] is [Frobenius] six
    times, the [p^6]-power map. *)
Theorem Frobenius_correct (a b : gfP12) :
  (GFp12.Frobenius (a + b) == GFp12.Frobenius a + GFp12.Frobenius b /\
   GFp12.Frobenius (a * b) == GFp12.Frobenius a * GFp12.Frobenius b /\
   GFp12.FrobeniusP2 a == GFp12.Frobenius (GFp12.Frobenius a) /\
   GFp12.FrobeniusP2 (GFp12.FrobeniusP2 (GFp12.FrobeniusP2 a)) == GFp12.Conjugate a)%fp12.
Proof.
  split; [apply frob12_add|]. split; [apply frob12_mul|]. split; [apply frobP2_12_square | apply frobP2_cube].
Qed.

Lemma xi_power_6 : GFp2.Exp xi ((P - 1) / 6) = xiToPMinus1Over6.
Proof. vm_compute. reflexivity. Qed.

(** The constants [xiToPMinus1Over6], [...Over3], [...Over2] and
    [xiTo2PMinus2Over3] are the powers of [xi] their names say. *)
Theorem xi_constants_correct :
  eq2 (GFp2.Exp xi ((P - 1) / 6)) xiToPMinus1Over6 /\
  eq2 (GFp2.Exp xi ((P - 1) / 3)) xiToPMinus1Over3 /\
  eq2 (GFp2.Exp xi ((P - 1) / 2)) xiToPMinus1Over2 /\
  eq2 (GFp2.Exp xi (2 * (P - 1) / 3)) xiTo2PMinus2Over3.
Proof.
  assert (H6 : eq2 (GFp2.Exp xi ((P - 1) / 6)) xiToPMinus1Over6) by (rewrite xi_power_6; reflexivity).
  assert (K : forall k, 0 <= k -> eq2 (GFp2.Exp xi (k * ((P - 1) / 6))) (pow2 xiToPMinus1Over6 (Z.to_nat k))).
  { intros k Hk. rewrite fp2_exp by (apply Z.mul_nonneg_nonneg; [exact Hk|vm_compute; discriminate]).
    rewrite Z.mul_comm, Z2Nat.inj_mul by (exact Hk || (vm_compute; discriminate)). unfold pow2.
    rewrite (npow_mul eq2 GFp2.SetOne GFp2.Mul) by (intros; ring).
    apply (npow_proper_base eq2 GFp2.SetOne GFp2.Mul).
    rewrite <- H6, fp2_exp by (vm_compute; discriminate). reflexivity. }
  split; [exact H6|]. split; [|split].
  - change ((P - 1) / 3) with (2 * ((P - 1) / 6)). rewrite (K 2) by lia. split; vm_compute; reflexivity.
  - change ((P - 1) / 2) with (3 * ((P - 1) / 6)). rewrite (K 3) by lia. split; vm_compute; reflexivity.
  - change (2 * (P - 1) / 3) with (4 * ((P - 1) / 6)). rewrite (K 4) by lia. split; vm_compute; reflexivity.
Qed.

(** ** The curves *)

(** The operations of G1 in Jacobian coordinates refine the chord-and-tangent
    law on affine points: infinity is neutral, different abscissas follow the
    chord, equal points the tangent, opposite points give infinity; scalar
    multiplication is double-and-add of that law.  No side condition on the
    points is needed: the modulus is proved prime. *)
Theorem curve_Add_refines c a b p q k :
  reps a p -> reps b q ->
  reps (G1.Add c a b) (affine_add p q) /\ reps (G1.ScalarMult a k) (affine_mul k p).
Proof. intros Ha Hb. split; [apply Add_law | apply Mul_law]; assumption. Qed.

(** The generator, and its double in Jacobian coordinates. *)
Definition G : curvePoint := CurvePoint.curveGen.
Definition GG : curvePoint := CurvePoint.Double CurvePoint.newCurvePoint G.

Lemma G_reps : reps G (Some (1, -2)).
Proof. split; [vm_compute; reflexivity | split; vm_compute; reflexivity]. Qed.

Lemma curve_Add_refines_witness :
  reps (G1.Add CurvePoint.newCurvePoint G GG) (affine_add (Some (1, -2)) (affine_double 1 (-2))) /\
  reps (G1.ScalarMult G 5) (affine_mul 5 (Some (1, -2))).
Proof.
  apply (curve_Add_refines CurvePoint.newCurvePoint G GG (Some (1, -2)) (affine_double 1 (-2)) 5).
  - exact G_reps.
  - exact (Double_law _ _ _ G_reps).
Defined.

(** Every operation of G1 keeps points on the curve (or at infinity):
    doubling, addition, scalar multiplication by any number, negation and
    reading from bytes; the generator is on it. *)
Theorem G1_closed :
  valid_point CurvePoint.curveGen /\
  (forall c a, valid_point a -> valid_point (CurvePoint.Double c a)) /\
  (forall e a b, valid_point a -> valid_point b -> valid_point (G1.Add e a b)) /\
  (forall a k, valid_point a -> valid_point (G1.ScalarMult a k)) /\
  (forall a, valid_point a -> valid_point (G1.Neg a)) /\
  (forall m e, G1.Unmarshal m = Ret (Some e) -> valid_point e).
Proof.
  split; [right; vm_compute; reflexivity|]. split; [exact Double_valid|]. split; [exact Add_valid|].
  split; [exact Mul_valid|]. split; [exact Negative_valid|].
  intros m e. unfold G1.Unmarshal. destruct (negb _); [discriminate|].
  destruct (get_words m 0 2) as [ws|]; [|discriminate]. cbn [obind].
  destruct (_ && _); [intros [= <-]; left; reflexivity|].
  destruct (CurvePoint.IsOnCurve _) eqn:E; [|discriminate]. intros [= <-]. right.
  apply IsOnCurve_iff in E. cbn [cx cy] in E. unfold on_curve, jac_on. cbn [cx cy cz]. rewrite E. mod_ring P.
Qed.

(** The same on the twist, the curve of G2. *)
Theorem G2_closed :
  valid_twist TwistPoint.twistGen /\
  (forall c a, valid_twist a -> valid_twist (TwistPoint.Double c a)) /\
  (forall e a b, valid_twist a -> valid_twist b -> valid_twist (G2.Add e a b)) /\
  (forall a k, valid_twist a -> valid_twist (G2.ScalarMult a k)) /\
  (forall a, valid_twist a -> valid_twist (TwistPoint.Negative a)) /\
  (forall m e, G2.Unmarshal m = Ret (Some e) -> valid_twist e).
Proof.
  split; [right; split; vm_compute; reflexivity|]. split; [exact TDouble_valid|]. split; [exact TAdd_valid|].
  split; [exact TMul_valid|]. split; [exact TNegative_valid|].
  intros m e. unfold G2.Unmarshal. destruct (negb _); [discriminate|].
  destruct (get_words m 0 4) as [ws|]; [|discriminate]. cbn [obind].
  destruct (_ && _ && _ && _); [intros [= <-]; left; reflexivity|].
  destruct (TwistPoint.IsOnCurve _) eqn:E; [|discriminate]. intros [= <-]. right.
  apply TIsOnCurve_iff in E. cbn [tx ty] in E. unfold on_twist, jac_on. cbn [tx ty tz]. rewrite E. ring.
Qed.

(** Addition and doubling on the twist follow the chord and the tangent. *)
Theorem twist_law_correct c a b px1 py1 px2 py2 s :
  (TwistPoint.IsInfinity a = false -> TwistPoint.IsInfinity b = false -> same_twist a b = false ->
   twist_stands a px1 py1 -> twist_stands b px2 py2 -> s * (px2 - px1) == py2 - py1 ->
   let px' := s * s - px1 - px2 in
   twist_stands (TwistPoint.Add c a b) px' (s * (px1 - px') - py1))%fp2 /\
  (twist_stands a px1 py1 -> (1 + 1) * py1 * s == (1 + 1 + 1) * (px1 * px1) ->
   let px' := s * s - (1 + 1) * px1 in
   twist_stands (TwistPoint.Double c a) px' (s * (px1 - px') - py1))%fp2.
Proof.
  split; [|apply TDouble_tangent]. intros. apply TAdd_chord with (px2 := px2) (py2 := py2) (b := b); assumption.
Qed.

(** ** The pairing *)

(** The loop constant is [6u + 2] in signed binary digits (which, despite
    its name, are not in non-adjacent form). *)
Theorem sixuPlus2NAF_value :
  fold_right (fun d acc => d + 2 * acc) 0 sixuPlus2NAF = 6 * u + 2 /\
  Forall (fun d => -1 <= d <= 1) sixuPlus2NAF /\
  nth 17 sixuPlus2NAF 0 * nth 18 sixuPlus2NAF 0 <> 0.
Proof.
  split; [reflexivity|]. split; [|discriminate]. repeat (constructor; [lia|]). constructor.
Qed.

(** [mulLine] multiplies by the sparse element of the line. *)
Theorem mulLine_correct ret a b c : eq12 (mulLine ret a b c) (GFp12.Mul ret (line a b c)).
Proof. apply mulLine_mul. Qed.

(** [lineFunctionDouble] returns the doubled point (with [t = z^2] kept)
    and, up to a factor, the tangent line [y - py - s (x - px)] at [q]. *)
Theorem lineFunctionDouble_correct r q px py s :
  (tt_ r == tz r * tz r)%fp2 -> twist_stands r px py -> ((1 + 1) * py * s == (1 + 1 + 1) * (px * px))%fp2 ->
  let '(a, b, c, r') := lineFunctionDouble r q in
  let k := ((1 + 1) * (1 + 1) * py * (tz r * tz r * tz r * (tz r * tz r * tz r)))%fp2 in
  let px' := (s * s - (1 + 1) * px)%fp2 in
  (a == k * (s * px - py) /\ b == k * - (s * of_Z (cx q)) /\ c == k * of_Z (cy q))%fp2 /\
  twist_stands r' px' (s * (px - px') - py)%fp2 /\ (tt_ r' == tz r' * tz r')%fp2.
Proof.
  intros Ht Hr Hs. pose proof (lineFunctionDouble_point r q Ht) as HP.
  pose proof (lineFunctionDouble_line r q px py s Ht Hr Hs) as HL.
  destruct (lineFunctionDouble r q) as [[[a b] c] r']. cbv zeta in *.
  destruct HP as (E1 & E2 & E3 & E4). split; [exact HL|]. split; [|exact E4].
  eapply jac_is_eq2; [exact E1|exact E2|exact E3|].
  exact (dbl_tangent _ _ _ _ _ _ _ fp2_ring_theory fp2_ring_ext _ _ _ _ _ _ Hr Hs).
Qed.

Lemma lineFunctionDouble_correct_witness :
  let r := mkTwist GFp2.SetOne GFp2.SetOne GFp2.SetOne GFp2.SetOne in
  let s := of_Z ((3 * ((P + 1) / 2)) mod P) in
  twist_stands (snd (lineFunctionDouble r G)) (s * s - (1 + 1) * 1)%fp2
    (s * (1 - (s * s - (1 + 1) * 1)) - 1)%fp2.
Proof.
  intros r s.
  assert (H : ((1 + 1) * 1 * s == (1 + 1 + 1) * (1 * 1))%fp2) by (split; vm_compute; reflexivity).
  pose proof (lineFunctionDouble_correct r G 1%fp2 1%fp2 s ltac:(split; reflexivity)
    ltac:(split; split; reflexivity) H) as T.
  destruct (lineFunctionDouble r G) as [[[a b] c] r']. exact (proj1 (proj2 T)).
Defined.

(** [finalExponentiation] is multiplicative, which is what allows
    [PairingCheck] to multiply the Miller values first. *)
Theorem finalExponentiation_multiplicative a b : invertible a -> invertible b ->
  eq12 (finalExponentiation (GFp12.Mul a b))
       (GFp12.Mul (finalExponentiation a) (finalExponentiation b)).
Proof. apply finalExponentiation_mul. Qed.

Lemma finalExponentiation_multiplicative_witness :
  eq12 (finalExponentiation (GFp12.Mul omega omega))
       (GFp12.Mul (finalExponentiation omega) (finalExponentiation omega)).
Proof.
  exact (finalExponentiation_multiplicative omega omega ltac:(vm_compute; reflexivity) ltac:(vm_compute; reflexivity)).
Defined.



(** ** Byte representations *)

Lemma IsOnCurve_mod p x y : on_curve p -> stands_for p x y -> unitm P (cz p) ->
  CurvePoint.IsOnCurve (mkCurve (x mod P) (y mod P) 1 1) = true.
Proof.
  intros Hp Hs U. apply IsOnCurve_iff. cbn [cx cy]. pose proof (inv_r P P_pos _ U) as I.
  apply (jac_on_affine 0 1 Z.add Z.mul Z.sub Z.opp (eqm P) fp_ring_theory fp_ring_ext curveB _ _ _ _ _ _ Hs I) in Hp.
  rewrite !mod_eqm. exact Hp.
Qed.

(** [Unmarshal] undoes [Marshal] on G1: [Marshal] never panics and writes
    the reduced affine coordinates of the point (zeros for infinity) in 64
    bytes, and [Unmarshal] reads the same affine point back. *)
Theorem G1_roundtrip p a : reps p a -> 0 <= cz p -> valid_point p ->
  exists p', G1.Marshal p = Ret (g1_encode a, p') /\ len (g1_encode a) = 64 /\
    G1.Unmarshal (g1_encode a) =
      Ret (Some (match a with None => mkCurve 0 1 0 0 | Some (x, y) => mkCurve (x mod P) (y mod P) 1 1 end)).
Proof.
  intros Hr Hz Hv. destruct (Marshal_law p a Hr Hz) as [p' E]. exists p'. split; [exact E|].
  destruct a as [[x y]|]; cbn [g1_encode]; [|split; reflexivity].
  split; [rewrite words_bytes_len; reflexivity|]. destruct Hr as [U S].
  destruct Hv as [Hv|Hv]; [exfalso; exact (unit_P_nonzero _ U Hv)|].
  pose proof (IsOnCurve_mod p x y Hv S U) as HC.
  rewrite G1_Unmarshal_words by apply mod_P_word. rewrite HC.
  destruct (Z.eqb_spec (x mod P) 0) as [Ex|Ex]; [|reflexivity].
  destruct (Z.eqb_spec (y mod P) 0) as [Ey|Ey]; [|reflexivity].
  exfalso. rewrite Ex, Ey in HC. vm_compute in HC. discriminate HC.
Qed.

Lemma G1_roundtrip_witness :
  exists p', G1.Marshal G = Ret (g1_encode (Some (1, -2)), p') /\ len (g1_encode (Some (1, -2))) = 64 /\
    G1.Unmarshal (g1_encode (Some (1, -2))) = Ret (Some (mkCurve (1 mod P) (-2 mod P) 1 1)).
Proof.
  apply (G1_roundtrip G (Some (1, -2)) G_reps); [discriminate | right; vm_compute; reflexivity].
Defined.

Lemma TIsOnCurve_mod p x y i : on_twist p -> twist_stands p x y -> eq2 (GFp2.Mul (tz p) i) GFp2.SetOne ->
  TwistPoint.IsOnCurve (mkTwist (mkGFp2 (x2 x mod P) (y2 x mod P)) (mkGFp2 (x2 y mod P) (y2 y mod P))
                                GFp2.SetOne GFp2.SetOne) = true.
Proof.
  intros Hp Hs I. apply TIsOnCurve_iff. cbn [tx ty].
  apply (jac_on_affine GFp2.SetZero GFp2.SetOne GFp2.Add GFp2.Mul GFp2.Sub GFp2.Negative eq2
           fp2_ring_theory fp2_ring_ext twistB _ _ _ _ _ _ Hs I) in Hp.
  assert (R : forall v, eq2 (mkGFp2 (x2 v mod P) (y2 v mod P)) v) by (intros v; split; apply mod_eqm).
  rewrite !R. exact Hp.
Qed.

(** An element of [gfP2] is invertible unless it is zero. *)
Lemma norm2_unit a : ~ eq2 a GFp2.SetZero -> unitm P (norm2 a).
Proof.
  intros N. unfold norm2. rewrite Z.add_comm. apply sum_squares_unit.
  destruct (Z.eq_dec (x2 a mod P) 0) as [Ex|Ex]; [|left; exact Ex].
  destruct (Z.eq_dec (y2 a mod P) 0) as [Ey|Ey]; [|right; exact Ey].
  exfalso. apply N. split; unfold eqm; cbn [GFp2.SetZero x2 y2]; rewrite ?Ex, ?Ey; reflexivity.
Qed.

(** [Unmarshal] undoes [Marshal] on G2, for every point of the twist that is
    not infinity and whose [z] is not the representation of one that
    [MakeAffine] mistakes for it. *)
Theorem G2_roundtrip p : ~ eq2 (tz p) GFp2.SetZero -> GFp2.IsOne (tz p) = false \/ tz p = GFp2.SetOne -> on_twist p ->
  exists bs p' x y, G2.Marshal p = Ret (bs, p') /\ len bs = 128 /\ twist_stands p x y /\
    reduced2 x /\ reduced2 y /\ G2.Unmarshal bs = Ret (Some (mkTwist x y GFp2.SetOne GFp2.SetOne)).
Proof.
  intros N Hz Hp. pose proof (norm2_unit _ N) as U. destruct (TMakeAffine_stands p U Hz) as [S _].
  set (x := tx (TwistPoint.MakeAffine p)) in *. set (y := ty (TwistPoint.MakeAffine p)) in *.
  pose proof (TIsOnCurve_mod p x y _ Hp S (fp2_invert _ U)) as HC.
  eexists _, _, (mkGFp2 (x2 x mod P) (y2 x mod P)), (mkGFp2 (x2 y mod P) (y2 y mod P)).
  split; [apply G2_Marshal_bytes|]. fold x y. split; [rewrite words_bytes_len; reflexivity|].
  assert (R : forall v, eq2 (mkGFp2 (x2 v mod P) (y2 v mod P)) v) by (intros v; split; apply mod_eqm).
  split; [destruct S as [S1 S2]; split; rewrite R; assumption|].
  split; [split; apply Z.mod_pos_bound, P_pos|]. split; [split; apply Z.mod_pos_bound, P_pos|].
  rewrite G2_Unmarshal_words by words_ok. rewrite HC.
  destruct (_ && _ && _ && _) eqn:E; [|reflexivity]. exfalso. b2p.
  repeat match goal with H : _ mod P = 0 |- _ => rewrite H in HC end. vm_compute in HC. discriminate HC.
Qed.

Lemma G2_roundtrip_witness :
  exists bs p' x y, G2.Marshal TwistPoint.twistGen = Ret (bs, p') /\ len bs = 128 /\
    twist_stands TwistPoint.twistGen x y /\
    reduced2 x /\ reduced2 y /\ G2.Unmarshal bs = Ret (Some (mkTwist x y GFp2.SetOne GFp2.SetOne)).
Proof.
  apply (G2_roundtrip TwistPoint.twistGen); [intros [_ H]; discriminate H | right; reflexivity |].
  split; vm_compute; reflexivity.
Defined.

Lemma infinity_roundtrip_words :
  words_bytes [0; 0] = zeros 64 /\ words_bytes [0; 0; 0; 0] = zeros 128.
Proof. split; reflexivity. Qed.

(** Infinity is written as zeros on both curves and read back as infinity. *)
Theorem infinity_roundtrip p q : cz p = 0 -> tz q = GFp2.SetZero ->
  (exists p', G1.Marshal p = Ret (zeros 64, p')) /\ G1.Unmarshal (zeros 64) = Ret (Some (mkCurve 0 1 0 0)) /\
  (exists q', G2.Marshal q = Ret (zeros 128, q')) /\
  G2.Unmarshal (zeros 128) = Ret (Some (mkTwist GFp2.SetZero GFp2.SetOne GFp2.SetZero GFp2.SetZero)).
Proof.
  intros Hp Hq. destruct infinity_roundtrip_words as [W1 W2]. split; [|split; [reflexivity|split; [|reflexivity]]].
  - eexists. rewrite G1_Marshal_bytes, <- W1. unfold CurvePoint.MakeAffine. rewrite Hp.
    change (Z.abs 0 =? 1) with false. cbv zeta iota. cbn [cx cy].
    change (inv P 0) with 0. rewrite !Z.mul_0_r. reflexivity.
  - eexists. rewrite G2_Marshal_bytes, <- W2. unfold TwistPoint.MakeAffine. rewrite Hq.
    change (GFp2.IsOne GFp2.SetZero) with false. cbv zeta iota. cbn [tx ty].
    change (GFp2.Invert GFp2.SetZero) with GFp2.SetZero. change (GFp2.Square GFp2.SetZero) with GFp2.SetZero.
    unfold GFp2.Mul, GFp2.SetZero. cbn [x2 y2]. rewrite !Z.mul_0_r, !Z.mul_0_l. reflexivity.
Qed.

Lemma infinity_roundtrip_witness : exists p', G1.Marshal (mkCurve 5 7 0 9) = Ret (zeros 64, p').
Proof.
  exact (proj1 (infinity_roundtrip (mkCurve 5 7 0 9) TwistPoint.newTwistPoint eq_refl eq_refl)).
Defined.

(** [GT.Marshal] writes the twelve reduced coefficients and
    [GT.Unmarshal] reads back the same element. *)
Theorem GT_roundtrip e :
  exists bs, GT.Marshal e = Ret (bs, GFp12.Minimal e) /\ len bs = 384 /\
    GT.Unmarshal bs = Ret (Some (GFp12.Minimal e)) /\ eq12 (GFp12.Minimal e) e.
Proof.
  set (m := GFp12.Minimal e). assert (W : Forall word_range (GT.coeffs m)).
  { unfold GT.coeffs, GT.coeffs6, GT.coeffs2, m. cbn [app GFp12.Minimal GFp6.Minimal GFp2.Minimal x12 y12 x6 y6 z6 x2 y2].
    repeat (apply Forall_cons; [apply P_word, reduce_range|]). apply Forall_nil. }
  exists (words_bytes (GT.coeffs m)). split; [|split; [|split; [|apply fp12_minimal]]].
  - unfold GT.Marshal. fold m. cbv zeta. change (numBytes * 12) with (32 * len (GT.coeffs m)).
    rewrite put_words_zeros by exact W. reflexivity.
  - rewrite words_bytes_len. reflexivity.
  - unfold GT.Unmarshal. rewrite words_bytes_len. change (32 * len (GT.coeffs m) =? 12 * numBytes) with true.
    cbn [negb]. change 12%nat with (length (GT.coeffs m)). rewrite (get_words_bytes _ W). cbn [obind].
    destruct m as [[[] [] []] [[] [] []]]. reflexivity.
Qed.
