(* ===== verification/VmCommon.v ===== *)
(** * Packages [common], [common/math] and the helpers of [core/vm/common.go]

    [common/bytes.go], [common/math/big.go], [common/math/integer.go] and
    [core/vm/common.go].  A [uint64] is a [Z] in [0, 2^64), an [int] a [Z] in
    [-2^63, 2^63); conversions and additions wrap where the code's do.  [nil]
    and the empty slice are both [[]]. *)

From Stdlib Require Import ZArith List Lia Bool Zpow_facts.
From S2P Require Import Prelude GoBig ModArith ByteBuf.
Import ListNotations.
Local Open Scope Z_scope.

Definition MaxUint64 : Z := 2 ^ 64 - 1.
Definition is_u64 (x : Z) : Prop := 0 <= x < 2 ^ 64.

(** ** [common/bytes.go] *)

Definition RightPadBytes (slice : list Z) (l : Z) : list Z :=
  if l <=? len slice then slice else slice ++ zeros (l - len slice).

Definition LeftPadBytes (slice : list Z) (l : Z) : outcome (list Z) :=
  if l <=? len slice then Ret slice
  else copy_to (zeros l) (l - len slice) slice.

Definition CopyBytes (b : list Z) : outcome (list Z) := copy_to (zeros (len b)) 0 b.

(** [encoding/hex]: lower-case digits out, both cases in. *)
Definition hex_digit (n : Z) : Z := if n <? 10 then 48 + n else 87 + n.
Definition hex_EncodeToString (src : list Z) : list Z :=
  flat_map (fun b => [hex_digit (Z.shiftr b 4); hex_digit (Z.land b 15)]) src.
Definition hex_val (c : Z) : option Z :=
  if (48 <=? c) && (c <=? 57) then Some (c - 48)
  else if (97 <=? c) && (c <=? 102) then Some (c - 87)
  else if (65 <=? c) && (c <=? 70) then Some (c - 55)
  else None.
(** [None] stands for an error, and then the returned slice is [nil]. *)
Fixpoint hex_DecodeString (s : list Z) : option (list Z) :=
  match s with
  | [] => Some []
  | [_] => None
  | a :: b :: s =>
      match hex_val a, hex_val b, hex_DecodeString s with
      | Some x, Some y, Some r => Some (Z.lor (Z.shiftl x 4) y :: r)
      | _, _, _ => None
      end
  end.

Definition Bytes2Hex (d : list Z) : list Z := hex_EncodeToString d.
Definition Hex2Bytes (str : list Z) : list Z := match hex_DecodeString str with Some h => h | None => [] end.

Definition ToHex (b : list Z) : list Z :=
  let hex := Bytes2Hex b in
  let hex := if len hex =? 0 then [48] else hex in
  [48; 120] ++ hex.

Definition FromHex (s : list Z) : list Z :=
  match s with
  | c0 :: c1 :: rest =>
      let s := if (c0 =? 48) && ((c1 =? 120) || (c1 =? 88)) then rest else s in
      let s := if len s mod 2 =? 1 then 48 :: s else s in
      Hex2Bytes s
  | _ => []
  end.

Definition HasHexPrefix (str : list Z) : bool :=
  match str with c0 :: c1 :: _ => (c0 =? 48) && (c1 =? 120) | _ => false end.

Definition IsHex (str : list Z) : bool :=
  (4 <=? len str) && (len str mod 2 =? 0) && HasHexPrefix str.

Definition Hex2BytesFixed (str : list Z) (flen : Z) : outcome (list Z) :=
  let h := Hex2Bytes str in
  if len h =? flen then Ret h
  else if len h >? flen then slice h (len h - flen) (len h)
  else copy_to (zeros flen) (flen - len h) h.

(** ** [common/math/integer.go] *)

Definition SafeSub (x y : Z) : Z * bool := (u64 (x - y), x <? y).
Definition SafeAdd (x y : Z) : Z * bool := (u64 (x + y), y >? MaxUint64 - x).
Definition SafeMul (x y : Z) : Z * bool :=
  if (x =? 0) || (y =? 0) then (0, false) else (u64 (x * y), y >? MaxUint64 / x).

(** ** [common/math/big.go] *)

Definition tt255 : Z := 2 ^ 255.
Definition tt256 : Z := 2 ^ 256.
Definition tt256m1 : Z := tt256 - 1.

Definition BigPow (a b : Z) : Z := big.Exp a b 0.
Definition BigMax (x y : Z) : Z := if x <? y then y else x.
Definition BigMin (x y : Z) : Z := if x >? y then y else x.

Fixpoint first_bit (n : nat) (i v : Z) : Z :=
  match n with
  | O => i
  | S n => if Z.testbit v i then i else first_bit n (i + 1) v
  end.
Definition FirstBitSet (v : Z) : Z := first_bit (Z.to_nat (BitLen v)) 0 v.

Definition wordBits : Z := 64.
Definition wordBytes : Z := wordBits / 8.

(** [x.Bits()]: the 64-bit limbs of the magnitude, least significant first. *)
Fixpoint limbs (n : nat) (x : Z) : list Z :=
  match n with
  | O => []
  | S n => x mod 2 ^ 64 :: limbs n (x / 2 ^ 64)
  end.
Definition Bits (x : Z) : list Z := limbs (Z.to_nat ((BitLen x + 63) / 64)) (Z.abs x).

(** The inner loop of [ReadBits] for one limb: the position and the buffer. *)
Fixpoint read_word (j : nat) (d i : Z) (buf : list Z) : Z * list Z :=
  match j with
  | O => (i, buf)
  | S j => if i >? 0 then
             let i := i - 1 in
             read_word j (Z.shiftr d 8) i (firstn (Z.to_nat i) buf ++ u8 d :: skipn (S (Z.to_nat i)) buf)
           else (i, buf)
  end.
Fixpoint read_words (ds : list Z) (i : Z) (buf : list Z) : Z * list Z :=
  match ds with
  | [] => (i, buf)
  | d :: ds => let '(i, buf) := read_word (Z.to_nat wordBytes) d i buf in read_words ds i buf
  end.
(** [ReadBits(bigint, buf)]: the buffer after the call. *)
Definition ReadBits (bigint : Z) (buf : list Z) : list Z := snd (read_words (Bits bigint) (len buf) buf).

Definition PaddedBigBytes (bigint n : Z) : list Z :=
  if Z.quot (BitLen bigint) 8 >=? n then Bytes bigint else ReadBits bigint (zeros n).

(** A negative [n] reads below the limbs and panics. *)
Definition bigEndianByteAt (bigint n : Z) : outcome Z :=
  let words := Bits bigint in
  let i := Z.quot n wordBytes in
  if i >=? len words then Ret 0
  else
    let! word := index words i in
    let shift := 8 * Z.rem n wordBytes in
    Ret (u8 (Z.shiftr word shift)).

Definition Byte (bigint padlength n : Z) : outcome Z :=
  if n >=? padlength then Ret 0 else bigEndianByteAt bigint (padlength - 1 - n).

Definition U256 (x : Z) : Z := Z.land x tt256m1.
Definition S256 (x : Z) : Z := if x <? tt255 then x else x - tt256.

(** The state of [Exp] is the result and [base], which the loop overwrites. *)
Fixpoint exp_bits (n : nat) (word result base : Z) : Z * Z :=
  match n with
  | O => (result, base)
  | S n =>
      let result := if Z.land word 1 =? 1 then U256 (result * base) else result in
      exp_bits n (Z.shiftr word 1) result (U256 (base * base))
  end.
Fixpoint exp_words (ws : list Z) (result base : Z) : Z * Z :=
  match ws with
  | [] => (result, base)
  | word :: ws => let '(result, base) := exp_bits (Z.to_nat wordBits) word result base in exp_words ws result base
  end.
(** [math.Exp(base, exponent)]: the result and [base] as the caller finds it. *)
Definition Exp (base exponent : Z) : Z * Z := exp_words (Bits exponent) 1 base.

(** ** [core/vm/common.go] *)

Definition calcMemSize (off l : Z) : Z := if l =? 0 then 0 else off + l.

Definition getData (data : list Z) (start size : Z) : outcome (list Z) :=
  let length := len data in
  let start := if start >? length then length else start in
  let end_ := u64 (start + size) in
  let end_ := if end_ >? length then length else end_ in
  let! s := slice data start end_ in
  Ret (RightPadBytes s (i64 size)).

Definition getDataBig (data : list Z) (start size : Z) : outcome (list Z) :=
  let dlen := len data in
  let s := BigMin start dlen in
  let e := BigMin (s + size) dlen in
  let! d := slice data (Uint64 s) (Uint64 e) in
  Ret (RightPadBytes d (i64 (Uint64 size))).

Definition bigUint64 (v : Z) : Z * bool := (Uint64 v, BitLen v >? 64).

Definition toWordSize (size : Z) : Z :=
  if size >? MaxUint64 - 31 then MaxUint64 / 32 + 1 else u64 (size + 31) / 32.

Definition allZero (b : list Z) : bool := forallb (fun x => x =? 0) b.

(** ** Limbs *)

(** The number a list of limbs stands for. *)
Fixpoint limbs_val (ws : list Z) : Z :=
  match ws with
  | [] => 0
  | w :: ws => w + 2 ^ 64 * limbs_val ws
  end.

Lemma limbs_length n x : length (limbs n x) = n.
Proof. revert x; induction n as [|n IH]; intros x; cbn; [|rewrite IH]; reflexivity. Qed.

Lemma limbs_val_mod n x : limbs_val (limbs n x) = x mod 2 ^ (64 * Z.of_nat n).
Proof.
  revert x; induction n as [|n IH]; intros x; [cbn; rewrite Z.mod_1_r; reflexivity|].
  cbn [limbs limbs_val]. rewrite IH, Nat2Z.inj_succ.
  replace (64 * Z.succ (Z.of_nat n)) with (64 + 64 * Z.of_nat n) by ring.
  rewrite Z.pow_add_r, Z.rem_mul_r by lia. reflexivity.
Qed.

Lemma Bits_val x : limbs_val (Bits x) = Z.abs x.
Proof.
  unfold Bits. rewrite limbs_val_mod. apply Z.mod_small. split; [lia|].
  apply Z.lt_le_trans with (1 := BitLen_bound x). apply Z.pow_le_mono_r; [lia|].
  pose proof (BitLen_nonneg x). rewrite Z2Nat.id by (apply Z.div_pos; lia).
  pose proof (Z.div_mod (BitLen x + 63) 64). pose proof (Z.mod_pos_bound (BitLen x + 63) 64). lia.
Qed.

Definition is_limb (w : Z) : Prop := 0 <= w < 2 ^ 64.

Lemma Bits_limbs x : Forall is_limb (Bits x).
Proof.
  unfold Bits. generalize (Z.abs x). induction (Z.to_nat ((BitLen x + 63) / 64)) as [|n IH]; intros y; constructor;
    [apply Z.mod_pos_bound; lia | apply IH].
Qed.

(** ** Exponentiation modulo [2^256] *)

Lemma U256_mod x : U256 x = x mod tt256.
Proof. unfold U256, tt256m1, tt256. change (2 ^ 256 - 1) with (Z.ones 256). apply Z.land_ones. lia. Qed.

Lemma U256_range x : 0 <= U256 x < tt256.
Proof. rewrite U256_mod. apply Z.mod_pos_bound. reflexivity. Qed.

Lemma U256_eqm x : U256 x ≡[tt256] x.
Proof. rewrite U256_mod. apply mod_eqm. Qed.

Lemma exp_bits_spec n : forall word result base, 0 <= word -> 0 <= result < tt256 ->
  let '(r, b) := exp_bits n word result base in
  0 <= r < tt256 /\ r ≡[tt256] result * base ^ (word mod 2 ^ Z.of_nat n) /\ b ≡[tt256] base ^ (2 ^ Z.of_nat n).
Proof.
  induction n as [|n IH]; intros word result base Hw Hr.
  { cbn. rewrite Z.mod_1_r. split; [exact Hr|]. split; apply eqm_eq; ring. }
  cbn [exp_bits]. set (result' := if Z.land word 1 =? 1 then U256 (result * base) else result).
  assert (Hr' : 0 <= result' < tt256) by (unfold result'; destruct (_ =? 1); [apply U256_range | exact Hr]).
  assert (E1 : Z.land word 1 = word mod 2) by (change 1 with (Z.ones 1); rewrite Z.land_ones by lia; reflexivity).
  assert (Er : result' ≡[tt256] result * base ^ (word mod 2)).
  { unfold result'. rewrite E1. destruct (Z.eqb_spec (word mod 2) 1) as [E|E].
    - rewrite E, U256_eqm. apply eqm_eq. ring.
    - pose proof (Z.mod_pos_bound word 2 ltac:(lia)). replace (word mod 2) with 0 by lia. apply eqm_eq. ring. }
  assert (H2 : 0 <= Z.shiftr word 1) by (apply Z.shiftr_nonneg; exact Hw).
  pose proof (IH (Z.shiftr word 1) result' (U256 (base * base)) H2 Hr') as H.
  destruct (exp_bits n _ _ _) as [r b]. destruct H as (H0 & H1 & H3). split; [exact H0|].
  rewrite Z.shiftr_div_pow2 in H1 by lia. change (2 ^ 1) with 2 in *.
  rewrite Nat2Z.inj_succ, Z.pow_succ_r by lia. rewrite H1, Er, H3, U256_eqm.
  pose proof (Z.mod_pos_bound word 2 ltac:(lia)). assert (0 < 2 ^ Z.of_nat n) by (apply Z.pow_pos_nonneg; lia).
  pose proof (Z.mod_pos_bound (word / 2) (2 ^ Z.of_nat n) ltac:(lia)).
  split; apply eqm_eq.
  - rewrite Z.rem_mul_r, Z.pow_add_r, Z.pow_mul_r, Z.pow_2_r by lia. ring.
  - rewrite Z.pow_mul_r, Z.pow_2_r by lia. reflexivity.
Qed.

Lemma exp_step M K w v result base r b res : 0 <= w -> 0 <= K -> 0 <= v ->
  r ≡[M] result * base ^ w -> b ≡[M] base ^ K -> res ≡[M] r * b ^ v -> res ≡[M] result * base ^ (w + K * v).
Proof.
  intros Hw HK Hv Hr Hb Hres. rewrite Hres, Hr, Hb. apply eqm_eq.
  rewrite Z.pow_add_r, Z.pow_mul_r by nia. ring.
Qed.

Lemma exp_words_spec ws : Forall is_limb ws -> forall result base, 0 <= result < tt256 ->
  0 <= fst (exp_words ws result base) < tt256 /\ 0 <= limbs_val ws /\
  fst (exp_words ws result base) ≡[tt256] result * base ^ limbs_val ws.
Proof.
  assert (EW : Z.of_nat (Z.to_nat wordBits) = 64) by reflexivity.
  induction 1 as [|w ws Hw _ IH]; intros result base Hr.
  { cbn. split; [exact Hr|]. split; [lia|]. apply eqm_eq. ring. }
  cbn [exp_words].
  pose proof (exp_bits_spec (Z.to_nat wordBits) w result base (proj1 Hw) Hr) as H.
  destruct (exp_bits (Z.to_nat wordBits) w result base) as [r b]. rewrite EW in H.
  destruct H as (H0 & H1 & H2). destruct (IH r b H0) as (I0 & I1 & I2).
  rewrite (Z.mod_small w _ Hw) in H1. cbn [limbs_val]. split; [exact I0|].
  split; [apply Z.add_nonneg_nonneg; [apply Hw|]; apply Z.mul_nonneg_nonneg; [discriminate|exact I1]|].
  exact (exp_step tt256 (2 ^ 64) w _ result base r b _ (proj1 Hw) ltac:(discriminate) I1 H1 H2 I2).
Qed.

Lemma Exp_pow base exponent : fst (Exp base exponent) = base ^ Z.abs exponent mod tt256.
Proof.
  destruct (exp_words_spec (Bits exponent) (Bits_limbs exponent) 1 base ltac:(split; reflexivity || discriminate))
    as (H0 & _ & H1). unfold Exp.
  rewrite Bits_val, Z.mul_1_l in H1. rewrite <- (Z.mod_small _ tt256 H0). exact H1.
Qed.

(** ** Reading big integers into buffers *)

Lemma be_bytes_split a b x : be_bytes (a + b) x = be_bytes a (x / 256 ^ Z.of_nat b) ++ be_bytes b x.
Proof.
  revert x; induction b as [|b IH]; intros x.
  { rewrite Nat.add_0_r, Z.div_1_r, app_nil_r. reflexivity. }
  rewrite Nat.add_succ_r. cbn [be_bytes]. rewrite IH, app_assoc, Nat2Z.inj_succ, Z.pow_succ_r, Z.div_div by lia.
  reflexivity.
Qed.

Lemma be_bytes_mod n k x : Z.of_nat n <= k -> be_bytes n (x mod 256 ^ k) = be_bytes n x.
Proof.
  revert k x; induction n as [|n IH]; intros k x Hk; [reflexivity|]. cbn [be_bytes].
  assert (E : 256 ^ k = 256 * 256 ^ (k - 1)) by (rewrite <- Z.pow_succ_r by lia; f_equal; lia).
  assert (0 < 256 ^ (k - 1)) by (apply Z.pow_pos_nonneg; lia).
  rewrite E, Z.rem_mul_r by lia. f_equal; [|f_equal].
  - replace ((x mod 256 + 256 * ((x / 256) mod 256 ^ (k - 1))) / 256) with ((x / 256) mod 256 ^ (k - 1)).
    + apply IH. lia.
    + rewrite Z.mul_comm, Z.div_add, (Z.div_small (x mod 256)) by (lia || (apply Z.mod_pos_bound; lia)). lia.
  - rewrite Z.mul_comm, Z.mod_add, Z.mod_mod by lia. reflexivity.
Qed.

Lemma read_word_spec j : forall d pre suf, read_word j d (len pre) (pre ++ suf) =
  let k := Nat.min j (length pre) in
  (len pre - Z.of_nat k, firstn (length pre - k) pre ++ be_bytes k d ++ suf).
Proof.
  induction j as [|j IH]; intros d pre suf; cbv zeta.
  { cbn. rewrite Nat.sub_0_r, firstn_all. f_equal. lia. }
  cbn [read_word]. destruct pre as [|x pre _] using rev_ind; [reflexivity|].
  rewrite len_app. change (len [x]) with 1. pose proof (len_nonneg pre) as Hp.
  rewrite Z.gtb_ltb, (proj2 (Z.ltb_lt 0 (len pre + 1))), Z.add_simpl_r by lia.
  replace (Z.to_nat (len pre)) with (length pre) by (unfold len; lia).
  rewrite <- app_assoc, firstn_app, Nat.sub_diag, firstn_all, firstn_O, app_nil_r.
  replace (skipn (S (length pre)) (pre ++ [x] ++ suf)) with suf
    by (rewrite skipn_app, skipn_all2, Nat.sub_succ_l, Nat.sub_diag by lia; reflexivity).
  rewrite IH. cbv zeta. rewrite length_app. cbn [length]. rewrite Nat.add_1_r. cbn [Nat.min be_bytes].
  set (k := Nat.min j (length pre)). f_equal; [unfold len; lia|].
  replace (S (length pre) - S k)%nat with (length pre - k)%nat by lia.
  rewrite firstn_app. replace (length pre - k - length pre)%nat with 0%nat by lia.
  rewrite firstn_O, app_nil_r, Z.shiftr_div_pow2 by lia. rewrite <- app_assoc. reflexivity.
Qed.

Lemma read_words_spec ds : Forall is_limb ds -> forall pre suf,
  let k := Nat.min (8 * length ds) (length pre) in
  snd (read_words ds (len pre) (pre ++ suf)) = firstn (length pre - k) pre ++ be_bytes k (limbs_val ds) ++ suf.
Proof.
  induction 1 as [|d ds Hd Hds IH]; intros pre suf k.
  { subst k. cbn. rewrite Nat.sub_0_r, firstn_all. reflexivity. }
  cbn [read_words]. rewrite read_word_spec. change (Z.to_nat wordBytes) with 8%nat. cbv zeta iota beta.
  set (k1 := Nat.min 8 (length pre)). set (pre1 := firstn (length pre - k1) pre).
  assert (L1 : length pre1 = (length pre - k1)%nat) by (unfold pre1; rewrite length_firstn; lia).
  replace (len pre - Z.of_nat k1) with (len pre1) by (unfold len; rewrite L1; lia).
  rewrite IH. set (k2 := Nat.min (8 * length ds) (length pre1)).
  assert (Hk : k = (k2 + k1)%nat) by (subst k k1 k2; rewrite L1; cbn [length]; lia).
  unfold pre1 at 2. rewrite firstn_firstn, L1.
  replace (Nat.min (length pre - k1 - k2) (length pre - k1)) with (length pre - k)%nat by lia.
  f_equal. rewrite app_assoc. f_equal. rewrite Hk, be_bytes_split. cbn [limbs_val].
  pose proof Hd as Hd'. unfold is_limb in Hd'. change (2 ^ 64) with (256 ^ 8) in *. f_equal.
  - destruct (Nat.eq_dec k1 8) as [E8|E8].
    + rewrite E8. change (Z.of_nat 8) with 8. rewrite (Z.mul_comm (256 ^ 8)), Z.div_add, Z.div_small by lia. reflexivity.
    + assert (k2 = 0)%nat as -> by (unfold k2; rewrite L1; lia). reflexivity.
  - rewrite <- (be_bytes_mod k1 8 (d + 256 ^ 8 * limbs_val ds)) by lia.
    rewrite (Z.mul_comm (256 ^ 8)), Z.mod_add, Z.mod_small by lia. reflexivity.
Qed.

Lemma limbs_val_bound ws : Forall is_limb ws -> limbs_val ws < 256 ^ Z.of_nat (8 * length ws).
Proof.
  induction 1 as [|w ws Hw _ IH]; [reflexivity|]. cbn [limbs_val length]. unfold is_limb in Hw.
  replace (Z.of_nat (8 * S (length ws))) with (8 + Z.of_nat (8 * length ws)) by lia.
  rewrite Z.pow_add_r by lia. change (256 ^ 8) with (2 ^ 64).
  set (K := 256 ^ Z.of_nat (8 * length ws)) in *. lia.
Qed.

Lemma firstn_repeat_le {A : Type} (x : A) m n : (m <= n)%nat -> firstn m (repeat x n) = repeat x m.
Proof.
  intros H. replace n with (m + (n - m))%nat by lia.
  rewrite repeat_app, firstn_app, repeat_length, Nat.sub_diag, firstn_O, app_nil_r.
  apply firstn_all2. rewrite repeat_length. lia.
Qed.

Lemma ReadBits_zeros x n : 0 <= n -> ReadBits x (zeros n) = be_bytes (Z.to_nat n) (Z.abs x).
Proof.
  intros Hn. unfold ReadBits.
  pose proof (read_words_spec (Bits x) (Bits_limbs x) (zeros n) []) as H. cbv zeta in H.
  rewrite app_nil_r in H. rewrite H, app_nil_r, Bits_val.
  assert (Lz : length (zeros n) = Z.to_nat n) by (unfold zeros; apply repeat_length). rewrite Lz.
  set (k := Nat.min (8 * length (Bits x)) (Z.to_nat n)).
  replace (Z.to_nat n) with ((Z.to_nat n - k) + k)%nat at 2 by lia. rewrite be_bytes_split. f_equal.
  destruct (Nat.eq_dec k (Z.to_nat n)) as [->|E]; [rewrite Nat.sub_diag; reflexivity|].
  rewrite Z.div_small.
  - unfold zeros. rewrite be_bytes_zero. unfold zeros. rewrite Nat2Z.id.
    apply firstn_repeat_le. lia.
  - split; [lia|]. rewrite <- Bits_val. replace k with (8 * length (Bits x))%nat by lia.
    apply limbs_val_bound, Bits_limbs.
Qed.

(** ** Checked arithmetic and word sizes *)

Lemma SafeAdd_spec x y : is_u64 x -> is_u64 y ->
  SafeAdd x y = (u64 (x + y), 2 ^ 64 <=? x + y).
Proof.
  unfold is_u64, SafeAdd, MaxUint64. intros. f_equal. rewrite Z.gtb_ltb.
  destruct (Z.ltb_spec (2 ^ 64 - 1 - x) y), (Z.leb_spec (2 ^ 64) (x + y)); lia.
Qed.

Lemma SafeMul_spec x y : is_u64 x -> is_u64 y ->
  SafeMul x y = (u64 (x * y), 2 ^ 64 <=? x * y).
Proof.
  unfold is_u64, SafeMul, MaxUint64. intros Hx Hy.
  destruct (Z.eqb_spec x 0) as [->|Nx]; [reflexivity|].
  destruct (Z.eqb_spec y 0) as [->|Ny]; [rewrite Z.mul_0_r; reflexivity|]. cbn [orb]. f_equal. rewrite Z.gtb_ltb.
  pose proof (Z.div_mod (2 ^ 64 - 1) x ltac:(lia)). pose proof (Z.mod_pos_bound (2 ^ 64 - 1) x ltac:(lia)).
  set (q := (2 ^ 64 - 1) / x) in *.
  destruct (Z.ltb_spec q y), (Z.leb_spec (2 ^ 64) (x * y)); try reflexivity; exfalso; nia.
Qed.

Lemma toWordSize_ceil size : is_u64 size -> toWordSize size = (size + 31) / 32.
Proof.
  unfold is_u64, toWordSize, MaxUint64. intros H. rewrite Z.gtb_ltb.
  destruct (Z.ltb_spec (2 ^ 64 - 1 - 31) size) as [L|L].
  - change ((2 ^ 64 - 1) / 32 + 1) with (2 ^ 59). apply Z.div_unique with (size + 31 - 32 * 2 ^ 59); lia.
  - rewrite u64_small by lia. reflexivity.
Qed.

Lemma toWordSize_range size : is_u64 size -> 0 <= toWordSize size <= 2 ^ 59.
Proof.
  intros H. rewrite toWordSize_ceil by exact H. unfold is_u64 in H.
  split; [apply Z.div_pos; lia|].
  enough ((size + 31) / 32 < 2 ^ 59 + 1) by lia. apply Z.div_lt_upper_bound; lia.
Qed.

(** ** Padding *)

Lemma RightPadBytes_len s l : len (RightPadBytes s l) = Z.max (len s) l.
Proof.
  unfold RightPadBytes. destruct (Z.leb_spec l (len s)); [lia|]. rewrite len_app, zeros_len by lia. lia.
Qed.

Lemma LeftPadBytes_ret s l : LeftPadBytes s l = Ret (zeros (l - len s) ++ s).
Proof.
  unfold LeftPadBytes. destruct (Z.leb_spec l (len s)) as [H|H].
  - unfold zeros. replace (Z.to_nat (l - len s)) with 0%nat by lia. reflexivity.
  - pose proof (len_nonneg s) as H0.
    assert (E : copy_to (zeros (l - len s) ++ zeros (len s) ++ []) (len (zeros (l - len s))) s
                = Ret (zeros (l - len s) ++ s ++ []))
      by (apply copy_to_app; pose proof (zeros_len (len s) H0); unfold len in *; lia).
    rewrite zeros_len, !app_nil_r, <- zeros_split, Z.sub_add in E by lia. exact E.
Qed.

(** The bytes of [data] from [start] on, [size] of them, zeros beyond the end. *)
Definition window (data : list Z) (start size : Z) : list Z :=
  RightPadBytes (firstn (Z.to_nat size) (skipn (Z.to_nat start) data)) size.

Lemma window_len data start size : 0 <= size -> len (window data start size) = size.
Proof.
  intros H. unfold window. rewrite RightPadBytes_len. unfold len. rewrite length_firstn. lia.
Qed.

Lemma window_ok data start size : bytes_ok data -> bytes_ok (window data start size).
Proof.
  intros H. unfold window, RightPadBytes. destruct (_ <=? _); [auto with go|].
  apply bytes_ok_app. split; auto with go.
Qed.

Lemma getData_window data start size : 0 <= start -> 0 <= size < 2 ^ 63 -> len data < 2 ^ 63 ->
  getData data start size = Ret (window data start size).
Proof.
  intros Hs Hz Hd. unfold getData, window. cbv zeta. rewrite i64_small by lia. pose proof (len_nonneg data) as H0.
  rewrite Z.gtb_ltb. destruct (Z.ltb_spec (len data) start) as [L|L].
  - rewrite u64_small by lia. rewrite Z.gtb_ltb.
    replace (if len data <? len data + size then len data else len data + size) with (len data)
      by (destruct (Z.ltb_spec (len data) (len data + size)); lia).
    rewrite slice_ret by lia. cbn [obind]. rewrite Z.sub_diag. cbn [Z.to_nat firstn].
    rewrite skipn_all2 by (unfold len in *; lia). rewrite firstn_nil. reflexivity.
  - rewrite u64_small by lia. rewrite Z.gtb_ltb. destruct (Z.ltb_spec (len data) (start + size)) as [L2|L2].
    + rewrite slice_ret by lia. cbn [obind]. do 2 f_equal.
      rewrite !firstn_all2; [reflexivity| |]; rewrite length_skipn; unfold len in *; lia.
    + rewrite slice_ret by lia. cbn [obind]. rewrite Z.add_simpl_l. reflexivity.
Qed.

(** ** Properties *)

(** [getData] returns the window of the data padded with zeros, except that
    it panics exactly when the clamped start plus the size does not fit in 64
    bits (its comment calls it overflow safe). *)
Theorem getData_correct data start size : is_u64 start -> is_u64 size -> len data < 2 ^ 63 ->
  (size < 2 ^ 63 -> getData data start size = Ret (window data start size)) /\
  (getData data start size = Panic <-> 2 ^ 64 <= Z.min start (len data) + size).
Proof.
  intros Hs Hz Hd. unfold is_u64 in *. split; [intros; apply getData_window; lia|].
  unfold getData. cbv zeta. pose proof (len_nonneg data) as H0.
  replace (if start >? len data then len data else start) with (Z.min start (len data))
    by (rewrite Z.gtb_ltb; destruct (Z.ltb_spec (len data) start); lia).
  set (s := Z.min start (len data)). assert (Hs' : 0 <= s <= len data) by lia. rewrite u64_mod.
  change (2 ^ 64) with 18446744073709551616 in *. change (2 ^ 63) with 9223372036854775808 in *.
  destruct (Z.le_gt_cases 18446744073709551616 (s + size)) as [L|L].
  - replace ((s + size) mod 18446744073709551616) with (s + size - 18446744073709551616)
      by (apply Z.mod_unique with 1; lia).
    rewrite Z.gtb_ltb, (proj2 (Z.ltb_ge _ _)) by lia. rewrite slice_panic by lia. cbn. tauto.
  - rewrite Z.mod_small by lia. rewrite Z.gtb_ltb.
    rewrite slice_ret by (destruct (Z.ltb_spec (len data) (s + size)); lia). cbn [obind].
    split; [discriminate|lia].
Qed.

Lemma getData_correct_witness :
  getData [1; 2; 3] 2 4 = Ret [3; 0; 0; 0] /\ getData [1; 2; 3] 2 (2 ^ 64 - 1) = Panic.
Proof.
  split.
  - apply (getData_correct [1; 2; 3] 2 4); unfold is_u64; cbn; lia.
  - apply (getData_correct [1; 2; 3] 2 (2 ^ 64 - 1)); unfold is_u64; cbn; lia.
Defined.

(** [PaddedBigBytes] writes the magnitude big-endian in [n] bytes, or in as
    many as it needs. *)
Theorem PaddedBigBytes_correct x n : 0 <= n ->
  SetBytes (PaddedBigBytes x n) = Z.abs x /\ len (PaddedBigBytes x n) = Z.max n (byte_len x) /\
  bytes_ok (PaddedBigBytes x n).
Proof.
  intros Hn. unfold PaddedBigBytes. pose proof (BitLen_nonneg x) as H0.
  rewrite Z.quot_div_nonneg, Z.geb_leb by lia. destruct (Z.leb_spec n (BitLen x / 8)) as [L|L].
  - rewrite SetBytes_Bytes, Bytes_len. split; [reflexivity|]. split; [|apply Bytes_ok].
    rewrite Z.max_r; [reflexivity|]. unfold byte_len. transitivity (BitLen x / 8); [exact L|].
    apply Z.div_le_mono; lia.
  - assert (B : BitLen x < 8 * n) by
      (apply Z.nle_gt; intros C; pose proof (Z.div_le_lower_bound (BitLen x) 8 n ltac:(lia) C); lia).
    rewrite ReadBits_zeros, SetBytes_be_bytes, be_bytes_len, Z2Nat.id by lia.
    split; [|split; [|apply be_bytes_ok]].
    + apply Z.mod_small. split; [lia|]. apply Z.lt_le_trans with (1 := BitLen_bound x).
      replace (256 ^ n) with (2 ^ (8 * n)) by (rewrite Z.pow_mul_r by lia; reflexivity).
      apply Z.pow_le_mono_r; lia.
    + rewrite Z.max_l; [reflexivity|]. unfold byte_len.
      enough ((BitLen x + 7) / 8 < n + 1) by lia. apply Z.div_lt_upper_bound; lia.
Qed.

Lemma PaddedBigBytes_correct_witness : PaddedBigBytes 515 4 = [0; 0; 2; 3] /\ SetBytes (PaddedBigBytes 515 4) = 515.
Proof. split; [reflexivity | apply (PaddedBigBytes_correct 515 4); lia]. Defined.

(** [math.Exp] computes the power modulo [2^256]; it also overwrites its
    argument [base], which its comment says it leaves alone. *)
Theorem math_Exp_correct base exponent :
  fst (Exp base exponent) = base ^ Z.abs exponent mod 2 ^ 256 /\ snd (Exp 3 1) <> 3.
Proof. split; [apply Exp_pow|]. vm_compute. discriminate. Qed.

(** [S256] after [U256] is the two's-complement reading of the low 256 bits. *)
Theorem S256_correct x : - 2 ^ 255 <= S256 (U256 x) < 2 ^ 255 /\ S256 (U256 x) ≡[2 ^ 256] x.
Proof.
  pose proof (U256_range x) as R. pose proof (U256_eqm x) as E. unfold S256, tt255, tt256 in *.
  assert (D : 2 ^ 256 = 2 * 2 ^ 255) by reflexivity. set (h := 2 ^ 255) in *.
  destruct (Z.ltb_spec (U256 x) h); (split; [lia|]); [exact E|].
  transitivity (U256 x - 1 * 2 ^ 256); [apply eqm_eq; ring|]. unfold eqm. rewrite <- (mod_eqm _ x), <- E.
  rewrite Zminus_mod, Z.mod_mul, Z.sub_0_r, !Z.mod_mod by discriminate. reflexivity.
Qed.
