(* ===== verification/Params.v ===== *)
(** * Package [params]: protocol constants, gas tables and chain configuration

    [params/protocol_params.go], [params/gas_table.go] and [params/config.go].
    A fork block that is [nil] is [None].  The consensus-engine settings of
    [ChainConfig] are only printed and are left out. *)

From Stdlib Require Import ZArith List Lia Bool String.
From S2P Require Import Prelude GoBig.
Import ListNotations.
Local Open Scope Z_scope.

(** ** Protocol constants *)

Definition CallValueTransferGas : Z := 9000.
Definition CallNewAccountGas : Z := 25000.
Definition QuadCoeffDiv : Z := 512.
Definition SstoreSetGas : Z := 20000.
Definition LogDataGas : Z := 8.
Definition CallStipend : Z := 2300.
Definition Sha3Gas : Z := 30.
Definition Sha3WordGas : Z := 6.
Definition SstoreResetGas : Z := 5000.
Definition SstoreClearGas : Z := 5000.
Definition SstoreRefundGas : Z := 15000.
Definition JumpdestGas : Z := 1.
Definition CreateDataGas : Z := 200.
Definition CallCreateDepth : Z := 1024.
Definition LogGas : Z := 375.
Definition CopyGas : Z := 3.
Definition StackLimit : Z := 1024.
Definition LogTopicGas : Z := 375.
Definition CreateGas : Z := 32000.
Definition SuicideRefundGas : Z := 24000.
Definition MemoryGas : Z := 3.
Definition MaxCodeSize : Z := 24576.
Definition EcrecoverGas : Z := 3000.
Definition Sha256BaseGas : Z := 60.
Definition Sha256PerWordGas : Z := 12.
Definition Ripemd160BaseGas : Z := 600.
Definition Ripemd160PerWordGas : Z := 120.
Definition IdentityBaseGas : Z := 15.
Definition IdentityPerWordGas : Z := 3.
Definition ModExpQuadCoeffDiv : Z := 100.
Definition Bn256AddGas : Z := 500.
Definition Bn256ScalarMulGas : Z := 2000.
Definition Bn256PairingBaseGas : Z := 100000.
Definition Bn256PairingPerPointGas : Z := 80000.

(** ** Gas tables *)

Record GasTable : Type := mkGasTable {
  ExtcodeSize : Z; ExtcodeCopy : Z; Balance : Z; SLoad : Z; Calls : Z; Suicide : Z;
  ExpByte : Z; CreateBySuicide : Z }.

Definition GasTableHomestead : GasTable := mkGasTable 20 20 20 50 40 0 10 0.
Definition GasTableHomesteadGasRepriceFork : GasTable := mkGasTable 700 700 400 200 700 5000 10 25000.
Definition GasTableEIP158 : GasTable := mkGasTable 700 700 400 200 700 5000 50 25000.

(** ** Chain configuration *)

Record ChainConfig : Type := mkChainConfig {
  ChainId : option Z; HomesteadBlock : option Z; DAOForkBlock : option Z; DAOForkSupport : bool;
  EIP150Block : option Z; EIP155Block : option Z; EIP158Block : option Z; MetropolisBlock : option Z }.

Definition isForked (s head : option Z) : bool :=
  match s, head with
  | Some s, Some head => s <=? head
  | _, _ => false
  end.

Definition configNumEqual (x y : option Z) : bool :=
  match x, y with
  | None, None => true
  | None, Some _ => false
  | Some _, None => false
  | Some x, Some y => x =? y
  end.

Definition isForkIncompatible (s1 s2 head : option Z) : bool :=
  (isForked s1 head || isForked s2 head) && negb (configNumEqual s1 s2).

Definition IsHomestead (c : ChainConfig) (num : option Z) : bool := isForked (HomesteadBlock c) num.
Definition IsDAOFork (c : ChainConfig) (num : option Z) : bool := isForked (DAOForkBlock c) num.
Definition IsEIP150 (c : ChainConfig) (num : option Z) : bool := isForked (EIP150Block c) num.
Definition IsEIP155 (c : ChainConfig) (num : option Z) : bool := isForked (EIP155Block c) num.
Definition IsEIP158 (c : ChainConfig) (num : option Z) : bool := isForked (EIP158Block c) num.
Definition IsMetropolis (c : ChainConfig) (num : option Z) : bool := isForked (MetropolisBlock c) num.

Definition gasTable (c : ChainConfig) (num : option Z) : GasTable :=
  match num with
  | None => GasTableHomestead
  | Some _ =>
      if IsEIP158 c num then GasTableEIP158
      else if IsEIP150 c num then GasTableHomesteadGasRepriceFork
      else GasTableHomestead
  end.

Record Rules : Type := mkRules {
  r_ChainId : Z; r_IsHomestead : bool; r_IsEIP150 : bool; r_IsEIP155 : bool; r_IsEIP158 : bool;
  r_IsMetropolis : bool }.

Definition rules (c : ChainConfig) (num : option Z) : Rules :=
  let chainId := match ChainId c with None => 0 | Some i => i end in
  mkRules chainId (IsHomestead c num) (IsEIP150 c num) (IsEIP155 c num) (IsEIP158 c num) (IsMetropolis c num).

(** ** Compatibility of configurations *)

Record ConfigCompatError : Type := mkCompatError {
  What : string; StoredConfig : option Z; NewConfig : option Z; RewindTo : Z }.

Definition newCompatError (what : string) (storedblock newblock : option Z) : ConfigCompatError :=
  let rew :=
    match storedblock, newblock with
    | None, _ => newblock
    | Some _, None => storedblock
    | Some s, Some n => if s <? n then storedblock else newblock
    end in
  let rewindTo := match rew with
                  | Some r => if Sign r >? 0 then u64 (Uint64 r - 1) else 0
                  | None => 0
                  end in
  mkCompatError what storedblock newblock rewindTo.

Definition checkCompatible (c newcfg : ChainConfig) (head : Z) : option ConfigCompatError :=
  let h := Some head in
  if isForkIncompatible (HomesteadBlock c) (HomesteadBlock newcfg) h then
    Some (newCompatError "Homestead fork block" (HomesteadBlock c) (HomesteadBlock newcfg))
  else if isForkIncompatible (DAOForkBlock c) (DAOForkBlock newcfg) h then
    Some (newCompatError "DAO fork block" (DAOForkBlock c) (DAOForkBlock newcfg))
  else if IsDAOFork c h && negb (Bool.eqb (DAOForkSupport c) (DAOForkSupport newcfg)) then
    Some (newCompatError "DAO fork support flag" (DAOForkBlock c) (DAOForkBlock newcfg))
  else if isForkIncompatible (EIP150Block c) (EIP150Block newcfg) h then
    Some (newCompatError "EIP150 fork block" (EIP150Block c) (EIP150Block newcfg))
  else if isForkIncompatible (EIP155Block c) (EIP155Block newcfg) h then
    Some (newCompatError "EIP155 fork block" (EIP155Block c) (EIP155Block newcfg))
  else if isForkIncompatible (EIP158Block c) (EIP158Block newcfg) h then
    Some (newCompatError "EIP158 fork block" (EIP158Block c) (EIP158Block newcfg))
  else if IsEIP158 c h && negb (configNumEqual (ChainId c) (ChainId newcfg)) then
    Some (newCompatError "EIP158 chain ID" (EIP158Block c) (EIP158Block newcfg))
  else if isForkIncompatible (MetropolisBlock c) (MetropolisBlock newcfg) h then
    Some (newCompatError "Metropolis fork block" (MetropolisBlock c) (MetropolisBlock newcfg))
  else None.

(** The loop of [CheckCompatible]; [None] when the fuel runs out. *)
Fixpoint compat_loop (fuel : nat) (c newcfg : ChainConfig) (bhead : Z) (lasterr : option ConfigCompatError)
    : option (option ConfigCompatError) :=
  match fuel with
  | O => None
  | S fuel =>
      match checkCompatible c newcfg bhead with
      | None => Some lasterr
      | Some err =>
          if match lasterr with Some e => RewindTo err =? RewindTo e | None => false end
          then Some lasterr
          else compat_loop fuel c newcfg (RewindTo err) (Some err)
      end
  end.

(** [height + 2] turns are enough: see [compat_loop_returns]. *)
Definition CheckCompatible (c newcfg : ChainConfig) (height : Z) : option (option ConfigCompatError) :=
  compat_loop (S (S (Z.to_nat height))) c newcfg height None.

(** ** The rewind target *)

(** An error raised at [head] rewinds below it (or to block 0). *)
Lemma newCompatError_rewind what s n head : 0 <= head < 2 ^ 64 ->
  isForked s (Some head) || isForked n (Some head) = true ->
  0 <= RewindTo (newCompatError what s n) <= Z.max 0 (head - 1).
Proof.
  intros Hh H. unfold newCompatError. cbv zeta. cbn [RewindTo].
  assert (R : forall r, r <= head -> 0 <= (if Sign r >? 0 then u64 (Uint64 r - 1) else 0) <= Z.max 0 (head - 1)).
  { intros r Hr. rewrite Z.gtb_ltb. destruct (Z.ltb_spec 0 (Sign r)) as [Hs|Hs]; [|lia].
    assert (0 < r) by (unfold Sign in Hs; destruct r; cbn in Hs; lia).
    unfold Uint64. rewrite Z.abs_eq, (u64_small r), u64_small by lia. lia. }
  unfold isForked in H. destruct s as [s|], n as [n|]; cbn [orb] in H; try discriminate H.
  - destruct (Z.ltb_spec s n); apply R; apply orb_true_iff in H; b2p; destruct H; b2p; lia.
  - apply R. rewrite orb_false_r in H. b2p. lia.
  - apply R. b2p. lia.
Qed.

Lemma incompatible_forked s n head : isForkIncompatible s n head = true ->
  isForked s head || isForked n head = true.
Proof. unfold isForkIncompatible. intros H. apply andb_true_iff in H. apply H. Qed.

Lemma checkCompatible_rewind c newcfg head err : 0 <= head < 2 ^ 64 ->
  checkCompatible c newcfg head = Some err -> 0 <= RewindTo err <= Z.max 0 (head - 1).
Proof.
  intros Hh. unfold checkCompatible. cbv zeta.
  repeat match goal with
  | |- context [if isForkIncompatible ?s ?n ?h then _ else _] =>
      destruct (isForkIncompatible s n h) eqn:?;
        [intros [= <-]; apply newCompatError_rewind; [exact Hh|]; apply incompatible_forked; assumption|]
  | |- context [if ?b && ?b' then _ else _] =>
      destruct b eqn:?; [destruct b'; cbn [andb];
        [intros [= <-]; apply newCompatError_rewind; [exact Hh|]; apply orb_true_iff; left; assumption|]|cbn [andb]]
  end; discriminate.
Qed.

(** The loop returns, and what it returns is nothing only if nothing was found
    before it, and otherwise an error no lower conflict follows. *)
Lemma compat_loop_returns c newcfg fuel : forall bhead lasterr, 0 <= bhead < 2 ^ 64 ->
  (match lasterr with Some e => RewindTo e = bhead | None => True end) ->
  (Z.to_nat bhead + match lasterr with Some _ => 1 | None => 2 end <= fuel)%nat ->
  exists r, compat_loop fuel c newcfg bhead lasterr = Some r /\
    match r with
    | None => lasterr = None /\ checkCompatible c newcfg bhead = None
    | Some e => 0 <= RewindTo e <= bhead /\
        match checkCompatible c newcfg (RewindTo e) with
        | None => True
        | Some e' => RewindTo e' = RewindTo e
        end
    end.
Proof.
  induction fuel as [|fuel IH]; intros bhead lasterr Hb Hl Hf; [destruct lasterr; lia|].
  cbn [compat_loop]. destruct (checkCompatible c newcfg bhead) as [err|] eqn:E.
  - pose proof (checkCompatible_rewind c newcfg bhead err Hb E) as Hr.
    destruct lasterr as [e|]; cbv iota in Hf.
    + destruct (Z.eqb_spec (RewindTo err) (RewindTo e)) as [Eq|Ne].
      * exists (Some e). split; [reflexivity|]. rewrite Hl, E. split; [lia|]. congruence.
      * assert (0 < bhead) by lia.
        destruct (IH (RewindTo err) (Some err) ltac:(lia) eq_refl ltac:(cbv iota; lia)) as (r & -> & Hr').
        exists r. split; [reflexivity|]. destruct r as [e'|]; [|destruct Hr'; discriminate].
        destruct Hr'. split; [lia|assumption].
    + destruct (IH (RewindTo err) (Some err) ltac:(lia) eq_refl ltac:(cbv iota; lia)) as (r & -> & Hr').
      exists r. split; [reflexivity|]. destruct r as [e'|]; [|destruct Hr'; discriminate].
      destruct Hr'. split; [lia|assumption].
  - exists lasterr. split; [reflexivity|]. destruct lasterr as [e|]; [|split; [reflexivity|reflexivity]].
    rewrite Hl, E. split; [lia|exact I].
Qed.

(** [CheckCompatible] ends; it returns nil exactly when the configurations
    agree on the past of the head block, and otherwise an error whose rewind
    target is at most the head and from which no lower conflict remains. *)
Theorem CheckCompatible_correct c newcfg height : 0 <= height < 2 ^ 64 ->
  exists r, CheckCompatible c newcfg height = Some r /\
    (r = None <-> checkCompatible c newcfg height = None) /\
    forall e, r = Some e -> 0 <= RewindTo e <= height /\
      match checkCompatible c newcfg (RewindTo e) with
      | None => True
      | Some e' => RewindTo e' = RewindTo e
      end.
Proof.
  intros H. destruct (compat_loop_returns c newcfg (S (S (Z.to_nat height))) height None H I ltac:(cbv iota; lia)) as (r & E & Hr).
  exists r. split; [exact E|]. destruct r as [e|].
  - split; [|intros e' [= <-]; exact Hr]. split; [discriminate|]. intros C.
    unfold CheckCompatible in E. cbn [compat_loop] in E. rewrite C in E. discriminate.
  - split; [|discriminate]. split; [intros _; apply Hr | reflexivity].
Qed.

Lemma CheckCompatible_correct_witness :
  exists r, CheckCompatible (mkChainConfig (Some 1) (Some 30) None false (Some 10) None None None)
              (mkChainConfig (Some 1) (Some 25) None false (Some 20) None None None) 25 = Some r /\
    (r = None <-> checkCompatible (mkChainConfig (Some 1) (Some 30) None false (Some 10) None None None)
              (mkChainConfig (Some 1) (Some 25) None false (Some 20) None None None) 25 = None) /\
    forall e, r = Some e -> 0 <= RewindTo e <= 25 /\
      match checkCompatible (mkChainConfig (Some 1) (Some 30) None false (Some 10) None None None)
              (mkChainConfig (Some 1) (Some 25) None false (Some 20) None None None) (RewindTo e) with
      | None => True
      | Some e' => RewindTo e' = RewindTo e
      end.
Proof. apply CheckCompatible_correct. lia. Defined.
