(* ===== verification/CommonTypes.v ===== *)
(** * [common/types.go]: hashes and addresses

    A [common.Hash] is an array of 32 bytes and a [common.Address] one of 20;
    here both are the big-endian numbers they hold, so that equality of arrays
    is equality of numbers.  [SetBytes], the only operation that looks at the
    array, is also given on byte lists, and the numeric reading is proved to be
    what it computes. *)

From Stdlib Require Import ZArith List Lia Bool.
From S2P Require Import Prelude GoBig ByteBuf VmCommon.
Import ListNotations.
Local Open Scope Z_scope.

Definition HashLength : Z := 32.
Definition AddressLength : Z := 20.

Definition Hash : Type := Z.
Definition Address : Type := Z.

(** [SetBytes] of both types on the array [h] of [n] bytes. *)
Definition array_SetBytes (n : Z) (h b : list Z) : outcome (list Z) :=
  let! b := (if len b >? len h then slice b (len b - n) (len b) else Ret b) in
  copy_to h (n - len b) b.

Definition Hash_SetBytes (h b : list Z) : outcome (list Z) := array_SetBytes HashLength h b.
Definition Address_SetBytes (a b : list Z) : outcome (list Z) := array_SetBytes AddressLength a b.

Definition BytesToHash (b : list Z) : Hash := SetBytes b mod 256 ^ HashLength.
Definition BigToHash (b : Z) : Hash := BytesToHash (Bytes b).
Definition Hash_Bytes (h : Hash) : list Z := be_bytes (Z.to_nat HashLength) h.
Definition Hash_Big (h : Hash) : Z := SetBytes (Hash_Bytes h).
Definition EmptyHash (h : Hash) : bool := h =? 0.

Definition BytesToAddress (b : list Z) : Address := SetBytes b mod 256 ^ AddressLength.
Definition BigToAddress (b : Z) : Address := BytesToAddress (Bytes b).
Definition Address_Bytes (a : Address) : list Z := be_bytes (Z.to_nat AddressLength) a.
Definition Address_Big (a : Address) : Z := SetBytes (Address_Bytes a).
Definition Address_Hash (a : Address) : Hash := BytesToHash (Address_Bytes a).

Definition IsHexAddress (s : list Z) : bool :=
  if (len s =? 2 + 2 * AddressLength) && IsHex s then true
  else if (len s =? 2 * AddressLength) && IsHex (48 :: 120 :: s) then true
  else false.

Definition hash_ok (h : Hash) : Prop := 0 <= h < 2 ^ 256.
Definition address_ok (a : Address) : Prop := 0 <= a < 2 ^ 160.

(** ** The byte arrays *)

Lemma SetBytes_tail l k : bytes_ok l -> 0 <= k <= len l ->
  SetBytes (skipn (Z.to_nat k) l) = SetBytes l mod 256 ^ (len l - k).
Proof.
  intros Hl Hk. rewrite <- (firstn_skipn (Z.to_nat k) l) at 2. rewrite SetBytes_app.
  assert (E : len (skipn (Z.to_nat k) l) = len l - k) by (unfold len in *; rewrite length_skipn; lia).
  rewrite E, Z.add_comm, Z.mod_add by (apply Z.pow_nonzero; lia). symmetry. apply Z.mod_small.
  rewrite <- E. apply SetBytes_range. auto with go.
Qed.

(** On a zero array the copy leaves the last [n] bytes of [b], left-padded. *)
Lemma array_SetBytes_val n b : bytes_ok b -> 0 <= n ->
  exists r, array_SetBytes n (zeros n) b = Ret r /\ len r = n /\ bytes_ok r /\
            SetBytes r = SetBytes b mod 256 ^ n.
Proof.
  intros Hb Hn. unfold array_SetBytes. rewrite zeros_len by exact Hn. rewrite Z.gtb_ltb.
  assert (P : forall t, bytes_ok t -> len t <= n ->
    exists r, copy_to (zeros n) (n - len t) t = Ret r /\ len r = n /\ bytes_ok r /\ SetBytes r = SetBytes t).
  { intros t Ht Hl. exists (zeros (n - len t) ++ t). pose proof (len_nonneg t).
    assert (E := copy_to_app (zeros (n - len t)) (zeros (len t)) [] t).
    rewrite !app_nil_r, <- zeros_split, Z.sub_add, zeros_len in E by lia.
    rewrite E by (pose proof (zeros_len (len t)); unfold len in *; lia).
    split; [reflexivity|]. rewrite len_app, zeros_len by lia. split; [lia|].
    split; [apply bytes_ok_app; auto with go|]. rewrite SetBytes_app, SetBytes_zeros. lia. }
  destruct (Z.ltb_spec n (len b)) as [L|L].
  - rewrite slice_ret by lia. cbn [obind].
    replace (firstn _ _) with (skipn (Z.to_nat (len b - n)) b)
      by (symmetry; apply firstn_all2; unfold len in *; rewrite length_skipn; lia).
    destruct (P (skipn (Z.to_nat (len b - n)) b)) as (r & E & H1 & H2 & H3); [auto with go| |].
    { unfold len in *. rewrite length_skipn. lia. }
    exists r. rewrite E, H3, SetBytes_tail by (assumption || lia).
    replace (len b - (len b - n)) with n by lia. repeat split; auto.
  - cbn [obind]. destruct (P b Hb L) as (r & E & H1 & H2 & H3). exists r. rewrite E, H3.
    repeat split; auto. symmetry. apply Z.mod_small. pose proof (SetBytes_range b Hb) as R.
    pose proof (Z.pow_le_mono_r 256 (len b) n ltac:(lia) L). lia.
Qed.

Lemma BytesToHash_array b : bytes_ok b ->
  exists r, Hash_SetBytes (zeros HashLength) b = Ret r /\ r = Hash_Bytes (BytesToHash b).
Proof.
  intros Hb. destruct (array_SetBytes_val HashLength b Hb ltac:(discriminate)) as (r & E & H1 & H2 & H3).
  exists r. split; [exact E|]. unfold Hash_Bytes, BytesToHash. rewrite <- H3.
  replace (Z.to_nat HashLength) with (length r) by (unfold len in H1; lia).
  symmetry. apply be_bytes_SetBytes, H2.
Qed.

Lemma BytesToAddress_array b : bytes_ok b ->
  exists r, Address_SetBytes (zeros AddressLength) b = Ret r /\ r = Address_Bytes (BytesToAddress b).
Proof.
  intros Hb. destruct (array_SetBytes_val AddressLength b Hb ltac:(discriminate)) as (r & E & H1 & H2 & H3).
  exists r. split; [exact E|]. unfold Address_Bytes, BytesToAddress. rewrite <- H3.
  replace (Z.to_nat AddressLength) with (length r) by (unfold len in H1; lia).
  symmetry. apply be_bytes_SetBytes, H2.
Qed.

Lemma BigToHash_mod x : BigToHash x = Z.abs x mod 2 ^ 256.
Proof. unfold BigToHash, BytesToHash. rewrite SetBytes_Bytes. reflexivity. Qed.

Lemma BigToAddress_mod x : BigToAddress x = Z.abs x mod 2 ^ 160.
Proof. unfold BigToAddress, BytesToAddress. rewrite SetBytes_Bytes. reflexivity. Qed.

Lemma BigToHash_ok x : hash_ok (BigToHash x).
Proof. rewrite BigToHash_mod. apply Z.mod_pos_bound. reflexivity. Qed.

Lemma BigToAddress_ok x : address_ok (BigToAddress x).
Proof. rewrite BigToAddress_mod. apply Z.mod_pos_bound. reflexivity. Qed.

Lemma Hash_Big_id h : hash_ok h -> Hash_Big h = h.
Proof.
  intros H. unfold Hash_Big, Hash_Bytes. rewrite SetBytes_be_bytes. apply Z.mod_small. exact H.
Qed.

Lemma Address_Big_id a : address_ok a -> Address_Big a = a.
Proof.
  intros H. unfold Address_Big, Address_Bytes. rewrite SetBytes_be_bytes. apply Z.mod_small. exact H.
Qed.

#[export] Hint Resolve BigToHash_ok BigToAddress_ok : go.
