(* ===== verification/Sha3.v ===== *)
(** * Package [crypto/sha3]: Keccak, SHA-3 and SHAKE

    The permutation of [keccakf.go], with its four unrolled rounds, and the sponge
    of [sha3.go] with its buffer, a slice of the array [storage].  [xorIn] and
    [copyOut] are those of [xor_generic.go].  The variants for amd64, in assembly
    and with unaligned reads, are not modelled. *)

From Stdlib Require Import ZArith List Lia Bool.
From S2P Require Import Prelude GoBig ByteBuf CommonTypes.
Import ListNotations.
Local Open Scope Z_scope.

Declare Scope lane_scope.
Delimit Scope lane_scope with lane.
#[local] Infix "^^" := Z.lxor (at level 50, left associativity) : lane_scope.
(** Go's [&^]. *)
#[local] Infix "&~" := Z.ldiff (at level 45, left associativity) : lane_scope.
#[local] Open Scope lane_scope.

(** [t<<n | t>>(64-n)] of a [uint64]. *)
Definition rol (t n : Z) : Z := Z.lor (u64 (Z.shiftl t n)) (Z.shiftr t (64 - n)).

(** ** keccakf.go *)

Definition rc : list Z :=
  [0x0000000000000001; 0x0000000000008082; 0x800000000000808A; 0x8000000080008000; 0x000000000000808B; 0x0000000080000001;
   0x8000000080008081; 0x8000000000008009; 0x000000000000008A; 0x0000000000000088; 0x0000000080008009; 0x000000008000000A;
   0x000000008000808B; 0x800000000000008B; 0x8000000000008089; 0x8000000000008003; 0x8000000000008002; 0x8000000000000080;
   0x000000000000800A; 0x800000008000000A; 0x8000000080008081; 0x8000000000008080; 0x0000000080000001; 0x8000000080008008].

(** The four rounds of the body of the loop; [a] is an array of 25. *)
Definition round1 (a : list Z) (rci : Z) : list Z :=
  match a with
  | [a0; a1; a2; a3; a4; a5; a6; a7; a8; a9; a10; a11; a12; a13; a14; a15; a16; a17; a18; a19; a20; a21; a22; a23; a24] =>
      let bc0 := a0 ^^ a5 ^^ a10 ^^ a15 ^^ a20 in let bc1 := a1 ^^ a6 ^^ a11 ^^ a16 ^^ a21 in let bc2 := a2 ^^ a7 ^^ a12 ^^ a17 ^^ a22 in
      let bc3 := a3 ^^ a8 ^^ a13 ^^ a18 ^^ a23 in let bc4 := a4 ^^ a9 ^^ a14 ^^ a19 ^^ a24 in let d0 := bc4 ^^ (rol bc1 1) in
      let d1 := bc0 ^^ (rol bc2 1) in let d2 := bc1 ^^ (rol bc3 1) in let d3 := bc2 ^^ (rol bc4 1) in let d4 := bc3 ^^ (rol bc0 1) in
      let bc0 := a0 ^^ d0 in let t := a6 ^^ d1 in let bc1 := rol t 44 in let t := a12 ^^ d2 in let bc2 := rol t 43 in let t := a18 ^^ d3 in
      let bc3 := rol t 21 in let t := a24 ^^ d4 in let bc4 := rol t 14 in let a0 := bc0 ^^ (bc2 &~ bc1) ^^ rci in
      let a6 := bc1 ^^ (bc3 &~ bc2) in let a12 := bc2 ^^ (bc4 &~ bc3) in let a18 := bc3 ^^ (bc0 &~ bc4) in let a24 := bc4 ^^ (bc1 &~ bc0) in
      let t := a10 ^^ d0 in let bc2 := rol t 3 in let t := a16 ^^ d1 in let bc3 := rol t 45 in let t := a22 ^^ d2 in let bc4 := rol t 61 in
      let t := a3 ^^ d3 in let bc0 := rol t 28 in let t := a9 ^^ d4 in let bc1 := rol t 20 in let a10 := bc0 ^^ (bc2 &~ bc1) in
      let a16 := bc1 ^^ (bc3 &~ bc2) in let a22 := bc2 ^^ (bc4 &~ bc3) in let a3 := bc3 ^^ (bc0 &~ bc4) in let a9 := bc4 ^^ (bc1 &~ bc0) in
      let t := a20 ^^ d0 in let bc4 := rol t 18 in let t := a1 ^^ d1 in let bc0 := rol t 1 in let t := a7 ^^ d2 in let bc1 := rol t 6 in
      let t := a13 ^^ d3 in let bc2 := rol t 25 in let t := a19 ^^ d4 in let bc3 := rol t 8 in let a20 := bc0 ^^ (bc2 &~ bc1) in
      let a1 := bc1 ^^ (bc3 &~ bc2) in let a7 := bc2 ^^ (bc4 &~ bc3) in let a13 := bc3 ^^ (bc0 &~ bc4) in let a19 := bc4 ^^ (bc1 &~ bc0) in
      let t := a5 ^^ d0 in let bc1 := rol t 36 in let t := a11 ^^ d1 in let bc2 := rol t 10 in let t := a17 ^^ d2 in let bc3 := rol t 15 in
      let t := a23 ^^ d3 in let bc4 := rol t 56 in let t := a4 ^^ d4 in let bc0 := rol t 27 in let a5 := bc0 ^^ (bc2 &~ bc1) in
      let a11 := bc1 ^^ (bc3 &~ bc2) in let a17 := bc2 ^^ (bc4 &~ bc3) in let a23 := bc3 ^^ (bc0 &~ bc4) in let a4 := bc4 ^^ (bc1 &~ bc0) in
      let t := a15 ^^ d0 in let bc3 := rol t 41 in let t := a21 ^^ d1 in let bc4 := rol t 2 in let t := a2 ^^ d2 in let bc0 := rol t 62 in
      let t := a8 ^^ d3 in let bc1 := rol t 55 in let t := a14 ^^ d4 in let bc2 := rol t 39 in let a15 := bc0 ^^ (bc2 &~ bc1) in
      let a21 := bc1 ^^ (bc3 &~ bc2) in let a2 := bc2 ^^ (bc4 &~ bc3) in let a8 := bc3 ^^ (bc0 &~ bc4) in let a14 := bc4 ^^ (bc1 &~ bc0) in
      [a0; a1; a2; a3; a4; a5; a6; a7; a8; a9; a10; a11; a12; a13; a14; a15; a16; a17; a18; a19; a20; a21; a22; a23; a24]
  | _ => a
  end.

Definition round2 (a : list Z) (rci : Z) : list Z :=
  match a with
  | [a0; a1; a2; a3; a4; a5; a6; a7; a8; a9; a10; a11; a12; a13; a14; a15; a16; a17; a18; a19; a20; a21; a22; a23; a24] =>
      let bc0 := a0 ^^ a5 ^^ a10 ^^ a15 ^^ a20 in let bc1 := a1 ^^ a6 ^^ a11 ^^ a16 ^^ a21 in let bc2 := a2 ^^ a7 ^^ a12 ^^ a17 ^^ a22 in
      let bc3 := a3 ^^ a8 ^^ a13 ^^ a18 ^^ a23 in let bc4 := a4 ^^ a9 ^^ a14 ^^ a19 ^^ a24 in let d0 := bc4 ^^ (rol bc1 1) in
      let d1 := bc0 ^^ (rol bc2 1) in let d2 := bc1 ^^ (rol bc3 1) in let d3 := bc2 ^^ (rol bc4 1) in let d4 := bc3 ^^ (rol bc0 1) in
      let bc0 := a0 ^^ d0 in let t := a16 ^^ d1 in let bc1 := rol t 44 in let t := a7 ^^ d2 in let bc2 := rol t 43 in let t := a23 ^^ d3 in
      let bc3 := rol t 21 in let t := a14 ^^ d4 in let bc4 := rol t 14 in let a0 := bc0 ^^ (bc2 &~ bc1) ^^ rci in
      let a16 := bc1 ^^ (bc3 &~ bc2) in let a7 := bc2 ^^ (bc4 &~ bc3) in let a23 := bc3 ^^ (bc0 &~ bc4) in let a14 := bc4 ^^ (bc1 &~ bc0) in
      let t := a20 ^^ d0 in let bc2 := rol t 3 in let t := a11 ^^ d1 in let bc3 := rol t 45 in let t := a2 ^^ d2 in let bc4 := rol t 61 in
      let t := a18 ^^ d3 in let bc0 := rol t 28 in let t := a9 ^^ d4 in let bc1 := rol t 20 in let a20 := bc0 ^^ (bc2 &~ bc1) in
      let a11 := bc1 ^^ (bc3 &~ bc2) in let a2 := bc2 ^^ (bc4 &~ bc3) in let a18 := bc3 ^^ (bc0 &~ bc4) in let a9 := bc4 ^^ (bc1 &~ bc0) in
      let t := a15 ^^ d0 in let bc4 := rol t 18 in let t := a6 ^^ d1 in let bc0 := rol t 1 in let t := a22 ^^ d2 in let bc1 := rol t 6 in
      let t := a13 ^^ d3 in let bc2 := rol t 25 in let t := a4 ^^ d4 in let bc3 := rol t 8 in let a15 := bc0 ^^ (bc2 &~ bc1) in
      let a6 := bc1 ^^ (bc3 &~ bc2) in let a22 := bc2 ^^ (bc4 &~ bc3) in let a13 := bc3 ^^ (bc0 &~ bc4) in let a4 := bc4 ^^ (bc1 &~ bc0) in
      let t := a10 ^^ d0 in let bc1 := rol t 36 in let t := a1 ^^ d1 in let bc2 := rol t 10 in let t := a17 ^^ d2 in let bc3 := rol t 15 in
      let t := a8 ^^ d3 in let bc4 := rol t 56 in let t := a24 ^^ d4 in let bc0 := rol t 27 in let a10 := bc0 ^^ (bc2 &~ bc1) in
      let a1 := bc1 ^^ (bc3 &~ bc2) in let a17 := bc2 ^^ (bc4 &~ bc3) in let a8 := bc3 ^^ (bc0 &~ bc4) in let a24 := bc4 ^^ (bc1 &~ bc0) in
      let t := a5 ^^ d0 in let bc3 := rol t 41 in let t := a21 ^^ d1 in let bc4 := rol t 2 in let t := a12 ^^ d2 in let bc0 := rol t 62 in
      let t := a3 ^^ d3 in let bc1 := rol t 55 in let t := a19 ^^ d4 in let bc2 := rol t 39 in let a5 := bc0 ^^ (bc2 &~ bc1) in
      let a21 := bc1 ^^ (bc3 &~ bc2) in let a12 := bc2 ^^ (bc4 &~ bc3) in let a3 := bc3 ^^ (bc0 &~ bc4) in let a19 := bc4 ^^ (bc1 &~ bc0) in
      [a0; a1; a2; a3; a4; a5; a6; a7; a8; a9; a10; a11; a12; a13; a14; a15; a16; a17; a18; a19; a20; a21; a22; a23; a24]
  | _ => a
  end.

Definition round3 (a : list Z) (rci : Z) : list Z :=
  match a with
  | [a0; a1; a2; a3; a4; a5; a6; a7; a8; a9; a10; a11; a12; a13; a14; a15; a16; a17; a18; a19; a20; a21; a22; a23; a24] =>
      let bc0 := a0 ^^ a5 ^^ a10 ^^ a15 ^^ a20 in let bc1 := a1 ^^ a6 ^^ a11 ^^ a16 ^^ a21 in let bc2 := a2 ^^ a7 ^^ a12 ^^ a17 ^^ a22 in
      let bc3 := a3 ^^ a8 ^^ a13 ^^ a18 ^^ a23 in let bc4 := a4 ^^ a9 ^^ a14 ^^ a19 ^^ a24 in let d0 := bc4 ^^ (rol bc1 1) in
      let d1 := bc0 ^^ (rol bc2 1) in let d2 := bc1 ^^ (rol bc3 1) in let d3 := bc2 ^^ (rol bc4 1) in let d4 := bc3 ^^ (rol bc0 1) in
      let bc0 := a0 ^^ d0 in let t := a11 ^^ d1 in let bc1 := rol t 44 in let t := a22 ^^ d2 in let bc2 := rol t 43 in let t := a8 ^^ d3 in
      let bc3 := rol t 21 in let t := a19 ^^ d4 in let bc4 := rol t 14 in let a0 := bc0 ^^ (bc2 &~ bc1) ^^ rci in
      let a11 := bc1 ^^ (bc3 &~ bc2) in let a22 := bc2 ^^ (bc4 &~ bc3) in let a8 := bc3 ^^ (bc0 &~ bc4) in let a19 := bc4 ^^ (bc1 &~ bc0) in
      let t := a15 ^^ d0 in let bc2 := rol t 3 in let t := a1 ^^ d1 in let bc3 := rol t 45 in let t := a12 ^^ d2 in let bc4 := rol t 61 in
      let t := a23 ^^ d3 in let bc0 := rol t 28 in let t := a9 ^^ d4 in let bc1 := rol t 20 in let a15 := bc0 ^^ (bc2 &~ bc1) in
      let a1 := bc1 ^^ (bc3 &~ bc2) in let a12 := bc2 ^^ (bc4 &~ bc3) in let a23 := bc3 ^^ (bc0 &~ bc4) in let a9 := bc4 ^^ (bc1 &~ bc0) in
      let t := a5 ^^ d0 in let bc4 := rol t 18 in let t := a16 ^^ d1 in let bc0 := rol t 1 in let t := a2 ^^ d2 in let bc1 := rol t 6 in
      let t := a13 ^^ d3 in let bc2 := rol t 25 in let t := a24 ^^ d4 in let bc3 := rol t 8 in let a5 := bc0 ^^ (bc2 &~ bc1) in
      let a16 := bc1 ^^ (bc3 &~ bc2) in let a2 := bc2 ^^ (bc4 &~ bc3) in let a13 := bc3 ^^ (bc0 &~ bc4) in let a24 := bc4 ^^ (bc1 &~ bc0) in
      let t := a20 ^^ d0 in let bc1 := rol t 36 in let t := a6 ^^ d1 in let bc2 := rol t 10 in let t := a17 ^^ d2 in let bc3 := rol t 15 in
      let t := a3 ^^ d3 in let bc4 := rol t 56 in let t := a14 ^^ d4 in let bc0 := rol t 27 in let a20 := bc0 ^^ (bc2 &~ bc1) in
      let a6 := bc1 ^^ (bc3 &~ bc2) in let a17 := bc2 ^^ (bc4 &~ bc3) in let a3 := bc3 ^^ (bc0 &~ bc4) in let a14 := bc4 ^^ (bc1 &~ bc0) in
      let t := a10 ^^ d0 in let bc3 := rol t 41 in let t := a21 ^^ d1 in let bc4 := rol t 2 in let t := a7 ^^ d2 in let bc0 := rol t 62 in
      let t := a18 ^^ d3 in let bc1 := rol t 55 in let t := a4 ^^ d4 in let bc2 := rol t 39 in let a10 := bc0 ^^ (bc2 &~ bc1) in
      let a21 := bc1 ^^ (bc3 &~ bc2) in let a7 := bc2 ^^ (bc4 &~ bc3) in let a18 := bc3 ^^ (bc0 &~ bc4) in let a4 := bc4 ^^ (bc1 &~ bc0) in
      [a0; a1; a2; a3; a4; a5; a6; a7; a8; a9; a10; a11; a12; a13; a14; a15; a16; a17; a18; a19; a20; a21; a22; a23; a24]
  | _ => a
  end.

Definition round4 (a : list Z) (rci : Z) : list Z :=
  match a with
  | [a0; a1; a2; a3; a4; a5; a6; a7; a8; a9; a10; a11; a12; a13; a14; a15; a16; a17; a18; a19; a20; a21; a22; a23; a24] =>
      let bc0 := a0 ^^ a5 ^^ a10 ^^ a15 ^^ a20 in let bc1 := a1 ^^ a6 ^^ a11 ^^ a16 ^^ a21 in let bc2 := a2 ^^ a7 ^^ a12 ^^ a17 ^^ a22 in
      let bc3 := a3 ^^ a8 ^^ a13 ^^ a18 ^^ a23 in let bc4 := a4 ^^ a9 ^^ a14 ^^ a19 ^^ a24 in let d0 := bc4 ^^ (rol bc1 1) in
      let d1 := bc0 ^^ (rol bc2 1) in let d2 := bc1 ^^ (rol bc3 1) in let d3 := bc2 ^^ (rol bc4 1) in let d4 := bc3 ^^ (rol bc0 1) in
      let bc0 := a0 ^^ d0 in let t := a1 ^^ d1 in let bc1 := rol t 44 in let t := a2 ^^ d2 in let bc2 := rol t 43 in let t := a3 ^^ d3 in
      let bc3 := rol t 21 in let t := a4 ^^ d4 in let bc4 := rol t 14 in let a0 := bc0 ^^ (bc2 &~ bc1) ^^ rci in
      let a1 := bc1 ^^ (bc3 &~ bc2) in let a2 := bc2 ^^ (bc4 &~ bc3) in let a3 := bc3 ^^ (bc0 &~ bc4) in let a4 := bc4 ^^ (bc1 &~ bc0) in
      let t := a5 ^^ d0 in let bc2 := rol t 3 in let t := a6 ^^ d1 in let bc3 := rol t 45 in let t := a7 ^^ d2 in let bc4 := rol t 61 in
      let t := a8 ^^ d3 in let bc0 := rol t 28 in let t := a9 ^^ d4 in let bc1 := rol t 20 in let a5 := bc0 ^^ (bc2 &~ bc1) in
      let a6 := bc1 ^^ (bc3 &~ bc2) in let a7 := bc2 ^^ (bc4 &~ bc3) in let a8 := bc3 ^^ (bc0 &~ bc4) in let a9 := bc4 ^^ (bc1 &~ bc0) in
      let t := a10 ^^ d0 in let bc4 := rol t 18 in let t := a11 ^^ d1 in let bc0 := rol t 1 in let t := a12 ^^ d2 in let bc1 := rol t 6 in
      let t := a13 ^^ d3 in let bc2 := rol t 25 in let t := a14 ^^ d4 in let bc3 := rol t 8 in let a10 := bc0 ^^ (bc2 &~ bc1) in
      let a11 := bc1 ^^ (bc3 &~ bc2) in let a12 := bc2 ^^ (bc4 &~ bc3) in let a13 := bc3 ^^ (bc0 &~ bc4) in
      let a14 := bc4 ^^ (bc1 &~ bc0) in let t := a15 ^^ d0 in let bc1 := rol t 36 in let t := a16 ^^ d1 in let bc2 := rol t 10 in
      let t := a17 ^^ d2 in let bc3 := rol t 15 in let t := a18 ^^ d3 in let bc4 := rol t 56 in let t := a19 ^^ d4 in let bc0 := rol t 27 in
      let a15 := bc0 ^^ (bc2 &~ bc1) in let a16 := bc1 ^^ (bc3 &~ bc2) in let a17 := bc2 ^^ (bc4 &~ bc3) in
      let a18 := bc3 ^^ (bc0 &~ bc4) in let a19 := bc4 ^^ (bc1 &~ bc0) in let t := a20 ^^ d0 in let bc3 := rol t 41 in let t := a21 ^^ d1 in
      let bc4 := rol t 2 in let t := a22 ^^ d2 in let bc0 := rol t 62 in let t := a23 ^^ d3 in let bc1 := rol t 55 in let t := a24 ^^ d4 in
      let bc2 := rol t 39 in let a20 := bc0 ^^ (bc2 &~ bc1) in let a21 := bc1 ^^ (bc3 &~ bc2) in let a22 := bc2 ^^ (bc4 &~ bc3) in
      let a23 := bc3 ^^ (bc0 &~ bc4) in let a24 := bc4 ^^ (bc1 &~ bc0) in
      [a0; a1; a2; a3; a4; a5; a6; a7; a8; a9; a10; a11; a12; a13; a14; a15; a16; a17; a18; a19; a20; a21; a22; a23; a24]
  | _ => a
  end.

Definition four_rounds (a : list Z) (i : nat) : list Z :=
  round4 (round3 (round2 (round1 a (nth i rc 0)) (nth (i + 1) rc 0)) (nth (i + 2) rc 0)) (nth (i + 3) rc 0).

Definition keccakF1600 (a : list Z) : list Z := fold_left four_rounds [0; 4; 8; 12; 16; 20]%nat a.

(** ** xor_generic.go *)

Definition LittleEndian_Uint64 (b : list Z) : Z :=
  let at_ i := nth i b 0 in
  Z.lor (Z.lor (Z.lor (Z.lor (Z.lor (Z.lor (Z.lor (at_ 0%nat) (Z.shiftl (at_ 1%nat) 8)) (Z.shiftl (at_ 2%nat) 16)) (Z.shiftl (at_ 3%nat) 24))
    (Z.shiftl (at_ 4%nat) 32)) (Z.shiftl (at_ 5%nat) 40)) (Z.shiftl (at_ 6%nat) 48)) (Z.shiftl (at_ 7%nat) 56).

Definition LittleEndian_PutUint64 (v : Z) : list Z := map (fun i => u8 (Z.shiftr v (8 * Z.of_nat i))) (seq 0 8).

(** The lanes [a[i:]] and the rest of the buffer; an index out of the array panics. *)
Fixpoint xorInGeneric (a buf : list Z) : outcome (list Z) :=
  if len buf <? 8 then Ret a
  else match a with
  | [] => Panic
  | x :: a => let! a := xorInGeneric a (skipn 8 buf) in Ret ((x ^^ LittleEndian_Uint64 buf) :: a)
  end.

Fixpoint copyOutGeneric (a b : list Z) : outcome (list Z) :=
  if len b <? 8 then Ret b
  else match a with
  | [] => Panic
  | x :: a => let! b := copyOutGeneric a (skipn 8 b) in Ret (LittleEndian_PutUint64 x ++ b)
  end.

(** ** sha3.go *)

Inductive spongeDirection : Type := spongeAbsorbing | spongeSqueezing.

Definition maxRate : Z := 168.

(** A slice of [storage], of which the capacity reaches to the end of the array. *)
Inductive buffer : Type := nilBuf | storageBuf (off n : Z).
Definition buf_len (b : buffer) : Z := match b with nilBuf => 0 | storageBuf _ n => n end.
Definition buf_cap (b : buffer) : Z := match b with nilBuf => 0 | storageBuf off _ => maxRate - off end.

Record sponge : Type := mkSponge {
  sp_a : list Z;
  sp_buf : buffer;
  sp_rate : Z;
  sp_dsbyte : Z;
  sp_storage : list Z;
  sp_outputLen : Z;
  sp_state : spongeDirection }.

Definition set_lanes (d : sponge) (a : list Z) : sponge := mkSponge a (sp_buf d) (sp_rate d) (sp_dsbyte d) (sp_storage d) (sp_outputLen d) (sp_state d).
Definition set_buf (d : sponge) (b : buffer) : sponge := mkSponge (sp_a d) b (sp_rate d) (sp_dsbyte d) (sp_storage d) (sp_outputLen d) (sp_state d).
Definition set_stored (d : sponge) (s : list Z) : sponge := mkSponge (sp_a d) (sp_buf d) (sp_rate d) (sp_dsbyte d) s (sp_outputLen d) (sp_state d).
Definition set_direction (d : sponge) (s : spongeDirection) : sponge := mkSponge (sp_a d) (sp_buf d) (sp_rate d) (sp_dsbyte d) (sp_storage d) (sp_outputLen d) s.

(** The bytes of the buffer, and bytes written at a place of the storage. *)
Definition buf_bytes (d : sponge) : list Z := match sp_buf d with nilBuf => [] | storageBuf off n => firstn (Z.to_nat n) (skipn (Z.to_nat off) (sp_storage d)) end.
Definition splice (s : list Z) (off : Z) (bs : list Z) : list Z := firstn (Z.to_nat off) s ++ bs ++ skipn (Z.to_nat (off + len bs)) s.

(** [storage[lo:hi]] *)
Definition storage_slice (lo hi : Z) : outcome buffer := if (0 <=? lo) && (lo <=? hi) && (hi <=? maxRate) then Ret (storageBuf lo (hi - lo)) else Panic.

Definition BlockSize (d : sponge) : Z := sp_rate d.
Definition Size (d : sponge) : Z := sp_outputLen d.

Definition sponge_Reset (d : sponge) : sponge := set_buf (set_direction (set_lanes d (map (fun _ => 0) (sp_a d))) spongeAbsorbing) (storageBuf 0 0).

Definition clone (d : sponge) : outcome sponge :=
  let! b := match sp_state d with
    | spongeAbsorbing => storage_slice 0 (buf_len (sp_buf d))
    | spongeSqueezing => storage_slice (sp_rate d - buf_cap (sp_buf d)) (sp_rate d)
    end in
  Ret (set_buf d b).

(** [copyOut(d, d.buf)], after [d.buf = d.storage[:d.rate]]. *)
Definition fill_buffer (d : sponge) : outcome sponge :=
  let! b := storage_slice 0 (sp_rate d) in
  let d := set_buf d b in
  let! out := copyOutGeneric (sp_a d) (buf_bytes d) in
  Ret (set_stored d (splice (sp_storage d) 0 out)).

Definition permute (d : sponge) : outcome sponge :=
  match sp_state d with
  | spongeAbsorbing =>
      let! a := xorInGeneric (sp_a d) (buf_bytes d) in
      Ret (set_lanes (set_buf d (storageBuf 0 0)) (keccakF1600 a))
  | spongeSqueezing => fill_buffer (set_lanes d (keccakF1600 (sp_a d)))
  end.

(** [if d.buf == nil { d.buf = d.storage[:0] }] *)
Definition some_buffer (d : sponge) : sponge := match sp_buf d with nilBuf => set_buf d (storageBuf 0 0) | _ => d end.

(** [d.buf = append(d.buf, p...)] in the storage.  A buffer that would grow out of
    the storage, which the methods do not let happen, is not modelled. *)
Definition append_buf (d : sponge) (p : list Z) : outcome sponge :=
  match sp_buf d with
  | nilBuf => Panic
  | storageBuf off n =>
      if off + n + len p <=? maxRate then Ret (set_buf (set_stored d (splice (sp_storage d) (off + n) p)) (storageBuf off (n + len p)))
      else Panic
  end.

Definition padAndPermute (d : sponge) (dsbyte : Z) : outcome sponge :=
  let d := some_buffer d in
  let! d := append_buf d [dsbyte] in
  let zerosStart := buf_len (sp_buf d) in
  let! b := storage_slice 0 (sp_rate d) in
  let d := set_buf d b in
  let d := if zerosStart <? sp_rate d then set_stored d (splice (sp_storage d) zerosStart (zeros (sp_rate d - zerosStart))) else d in
  let! last := index (buf_bytes d) (sp_rate d - 1) in
  let d := set_stored d (splice (sp_storage d) (sp_rate d - 1) [last ^^ 0x80]) in
  let! d := permute d in
  fill_buffer (set_direction d spongeSqueezing).

(** The loop of [Write], with the rest of [p]. *)
Fixpoint write_loop (fuel : nat) (d : sponge) (p : list Z) : outcome sponge :=
  match fuel with
  | O => Panic
  | S fuel =>
      if len p =? 0 then Ret d
      else if (buf_len (sp_buf d) =? 0) && (sp_rate d <=? len p) then
        let! block := slice p 0 (sp_rate d) in
        let! a := xorInGeneric (sp_a d) block in
        let! p := slice p (sp_rate d) (len p) in
        write_loop fuel (set_lanes d (keccakF1600 a)) p
      else
        let todo := sp_rate d - buf_len (sp_buf d) in
        let todo := if len p <? todo then len p else todo in
        let! part := slice p 0 todo in
        let! d := append_buf d part in
        let! p := slice p todo (len p) in
        let! d := (if buf_len (sp_buf d) =? sp_rate d then permute d else Ret d) in
        write_loop fuel d p
  end.

(** The sponge and what [Write] returns; a sponge that was read from panics. *)
Definition Write (d : sponge) (p : list Z) : outcome (sponge * Z) :=
  match sp_state d with
  | spongeSqueezing => Panic
  | spongeAbsorbing =>
      let! d := write_loop (S (length p)) (some_buffer d) p in
      Ret (d, len p)
  end.

(** The loop of [Read], with [n] bytes of [out] remaining. *)
Fixpoint read_loop (fuel : nat) (d : sponge) (n : Z) : outcome (sponge * list Z) :=
  match fuel with
  | O => Panic
  | S fuel =>
      if n =? 0 then Ret (d, [])
      else
        let copied := firstn (Z.to_nat n) (buf_bytes d) in
        let d := set_buf d (match sp_buf d with nilBuf => nilBuf | storageBuf off m => storageBuf (off + len copied) (m - len copied) end) in
        let! d := (if buf_len (sp_buf d) =? 0 then permute d else Ret d) in
        let! x := read_loop fuel d (n - len copied) in
        Ret (fst x, copied ++ snd x)
  end.

(** The sponge and the bytes that [Read] puts into a slice of [n] bytes. *)
Definition Read (d : sponge) (n : Z) : outcome (sponge * list Z) :=
  let! d := match sp_state d with spongeAbsorbing => padAndPermute d (sp_dsbyte d) | spongeSqueezing => Ret d end in
  read_loop (S (Z.to_nat n)) d n.

Definition Sum (d : sponge) (in_ : list Z) : outcome (list Z) :=
  let! dup := clone d in
  let! x := Read dup (sp_outputLen dup) in
  Ret (in_ ++ snd x).

(** ** hashes.go and shake.go *)

Definition newState (rate outputLen dsbyte : Z) : sponge := mkSponge (repeat 0 25) nilBuf rate dsbyte (zeros maxRate) outputLen spongeAbsorbing.

Definition NewKeccak256 : sponge := newState 136 32 0x01.
Definition NewKeccak512 : sponge := newState 72 64 0x01.
Definition New224 : sponge := newState 144 28 0x06.
Definition New256 : sponge := newState 136 32 0x06.
Definition New384 : sponge := newState 104 48 0x06.
Definition New512 : sponge := newState 72 64 0x06.
Definition NewShake128 : sponge := newState 168 0 0x1f.
Definition NewShake256 : sponge := newState 136 0 0x1f.

(** The chunks written one after the other. *)
Fixpoint write_all (d : sponge) (data : list (list Z)) : outcome sponge :=
  match data with
  | [] => Ret d
  | b :: data => let! x := Write d b in write_all (fst x) data
  end.

(** [h := New(); h.Write(data); h.Sum(digest[:0])] *)
Definition sum_of (h : sponge) (data : list Z) : outcome (list Z) :=
  let! x := Write h data in
  Sum (fst x) [].
Definition sha3_Sum224 : list Z -> outcome (list Z) := sum_of New224.
Definition sha3_Sum256 : list Z -> outcome (list Z) := sum_of New256.
Definition sha3_Sum384 : list Z -> outcome (list Z) := sum_of New384.
Definition sha3_Sum512 : list Z -> outcome (list Z) := sum_of New512.

(** The [n] bytes of the digest. *)
Definition shake_sum (h : sponge) (n : Z) (data : list Z) : outcome (list Z) :=
  let! x := Write h data in
  let! y := Read (fst x) n in
  Ret (snd y).
Definition ShakeSum128 : Z -> list Z -> outcome (list Z) := shake_sum NewShake128.
Definition ShakeSum256 : Z -> list Z -> outcome (list Z) := shake_sum NewShake256.

(** ** crypto/crypto.go *)

Definition Keccak256_of (data : list (list Z)) : outcome (list Z) :=
  let! d := write_all NewKeccak256 data in
  Sum d [].
Definition Keccak512_of (data : list (list Z)) : outcome (list Z) :=
  let! d := write_all NewKeccak512 data in
  Sum d [].
