(* ===== verification/Sha3Spec.v ===== *)
(** * Package [crypto/sha3]: the standard, and the permutation

    The step mappings of KECCAK-p[1600, 24] on the bits of the state, as FIPS 202
    defines them, and the proof that the unrolled rounds of [keccakF1600] compute
    them. *)

From Stdlib Require Import ZArith List Lia Bool PeanoNat.
From S2P Require Import Prelude GoBig ByteBuf CommonTypes Sha3.
Import ListNotations.
Local Open Scope nat_scope.

(** ** FIPS 202, section 3 *)

(** The bits [A[x, y, z]] of a state. *)
Definition cube : Type := nat -> nat -> nat -> bool.

Definition parity (A : cube) (x z : nat) : bool := xorb (xorb (xorb (xorb (A x 0 z) (A x 1 z)) (A x 2 z)) (A x 3 z)) (A x 4 z).
Definition theta (A : cube) : cube := fun x y z => xorb (A x y z) (xorb (parity A ((x + 4) mod 5) z) (parity A ((x + 1) mod 5) ((z + 63) mod 64))).

(** The walk over the lanes that gives the offsets: [n] lanes from [(x, y)], at step [t]. *)
Fixpoint rho_walk (n t x y : nat) : list (nat * nat * nat) :=
  match n with
  | O => []
  | S n => (x, y, ((t + 1) * (t + 2) / 2) mod 64) :: rho_walk n (S t) y ((2 * x + 3 * y) mod 5)
  end.
Definition rho_offset (x y : nat) : nat :=
  match find (fun p => let '(x', y', _) := p in (x =? x') && (y =? y')) (rho_walk 24 0 1 0) with Some (_, _, o) => o | None => 0 end.
Definition rho (A : cube) : cube := fun x y z => A x y ((z + 64 - rho_offset x y) mod 64).

Definition pi (A : cube) : cube := fun x y z => A ((x + 3 * y) mod 5) x z.
Definition chi (A : cube) : cube := fun x y z => xorb (A x y z) (negb (A ((x + 1) mod 5) y z) && A ((x + 2) mod 5) y z).

(** The shift register of the round constants. *)
Definition lfsr_step (r : list bool) : list bool :=
  match r with
  | [r0; r1; r2; r3; r4; r5; r6; r7] => [r7; r0; r1; r2; xorb r3 r7; xorb r4 r7; xorb r5 r7; r6]
  | _ => r
  end.
Definition rc_bit (t : nat) : bool := if t mod 255 =? 0 then true else nth 0 (Nat.iter (t mod 255) lfsr_step [true; false; false; false; false; false; false; false]) false.
Definition RC (ir z : nat) : bool := existsb (fun j => (z =? 2 ^ j - 1) && rc_bit (j + 7 * ir)) (seq 0 7).
Definition iota (ir : nat) (A : cube) : cube := fun x y z => if (x =? 0) && (y =? 0) then xorb (A x y z) (RC ir z) else A x y z.

Definition Rnd (ir : nat) (A : cube) : cube := iota ir (chi (pi (rho (theta A)))).
Definition keccak_f (A : cube) : cube := fold_left (fun A ir => Rnd ir A) (seq 0 24) A.

(** ** The mappings on lanes *)

Definition lane (l : list Z) (x y : nat) : Z := nth (x + 5 * y) l 0%Z.
Definition of_lanes (f : nat -> nat -> Z) : list Z := map (fun i => f (i mod 5) (i / 5)) (seq 0 25).
Definition column (l : list Z) (x : nat) : Z := Z.lxor (Z.lxor (Z.lxor (Z.lxor (lane l x 0) (lane l x 1)) (lane l x 2)) (lane l x 3)) (lane l x 4).
Definition theta_lanes (l : list Z) : list Z := of_lanes (fun x y => Z.lxor (lane l x y) (Z.lxor (column l ((x + 4) mod 5)) (rol (column l ((x + 1) mod 5)) 1))).
Definition rho_lanes (l : list Z) : list Z := of_lanes (fun x y => match rho_offset x y with O => lane l x y | S n => rol (lane l x y) (Z.of_nat (S n)) end).
Definition pi_lanes (l : list Z) : list Z := of_lanes (fun x y => lane l ((x + 3 * y) mod 5) x).
Definition chi_lanes (l : list Z) : list Z := of_lanes (fun x y => Z.lxor (lane l x y) (Z.ldiff (lane l ((x + 2) mod 5) y) (lane l ((x + 1) mod 5) y))).
Definition iota_lanes (c : Z) (l : list Z) : list Z := match l with [] => [] | x :: l => Z.lxor x c :: l end.
Definition round_lanes (c : Z) (l : list Z) : list Z := iota_lanes c (chi_lanes (pi_lanes (rho_lanes (theta_lanes l)))).

(** ** The unrolled rounds *)

(** Where the lanes are after a round: lane [i] at place [nth i places]. *)
Definition places : list nat := [0; 6; 12; 18; 24; 10; 16; 22; 3; 9; 20; 1; 7; 13; 19; 5; 11; 17; 23; 4; 15; 21; 2; 8; 14].
Definition after (s : list nat) : list nat := map (fun i => nth i s 0) places.
Fixpoint place_of (s : list nat) (i : nat) : nat := match s with [] => 0 | j :: s => if i =? j then 0 else S (place_of s i) end.
Definition placed (s : list nat) (l : list Z) : list Z := map (fun i => nth (place_of s i) l 0%Z) (seq 0 25).

Definition places2 : list nat := Eval vm_compute in after places.
Definition places3 : list nat := Eval vm_compute in after places2.

Lemma places_back : after places3 = seq 0 25.
Proof. reflexivity. Qed.

(** A list of 25 lanes, by name. *)
Ltac lanes25 l H :=
  destruct l as [|a0 l]; [discriminate H|]; destruct l as [|a1 l]; [discriminate H|]; destruct l as [|a2 l]; [discriminate H|]; destruct l as [|a3 l]; [discriminate H|]; destruct l as [|a4 l]; [discriminate H|]; destruct l as [|a5 l]; [discriminate H|]; destruct l as [|a6 l]; [discriminate H|]; destruct l as [|a7 l]; [discriminate H|]; destruct l as [|a8 l]; [discriminate H|]; destruct l as [|a9 l]; [discriminate H|]; destruct l as [|a10 l]; [discriminate H|]; destruct l as [|a11 l]; [discriminate H|]; destruct l as [|a12 l]; [discriminate H|]; destruct l as [|a13 l]; [discriminate H|]; destruct l as [|a14 l]; [discriminate H|]; destruct l as [|a15 l]; [discriminate H|]; destruct l as [|a16 l]; [discriminate H|]; destruct l as [|a17 l]; [discriminate H|]; destruct l as [|a18 l]; [discriminate H|]; destruct l as [|a19 l]; [discriminate H|]; destruct l as [|a20 l]; [discriminate H|]; destruct l as [|a21 l]; [discriminate H|]; destruct l as [|a22 l]; [discriminate H|]; destruct l as [|a23 l]; [discriminate H|]; destruct l as [|a24 l]; [discriminate H|]; destruct l; [|discriminate H]; clear H.

(** The sum of a column, in another order. *)
Ltac column_order p q r s t a b c d e :=
  replace (Z.lxor (Z.lxor (Z.lxor (Z.lxor p q) r) s) t) with (Z.lxor (Z.lxor (Z.lxor (Z.lxor a b) c) d) e)
    by (apply Z.bits_inj'; intros n _; rewrite !Z.lxor_spec;
        destruct (Z.testbit a n), (Z.testbit b n), (Z.testbit c n), (Z.testbit d n), (Z.testbit e n); reflexivity).

Lemma round1_lanes l c : length l = 25 -> round1 l c = placed places (round_lanes c l).
Proof. intros H. lanes25 l H. lazy -[Z.lxor Z.ldiff rol]. reflexivity. Qed.

Lemma round2_lanes l c : length l = 25 -> round2 (placed places l) c = placed places2 (round_lanes c l).
Proof.
  intros H. lanes25 l H. lazy -[Z.lxor Z.ldiff rol].
  column_order a0 a15 a5 a20 a10 a0 a5 a10 a15 a20.
  column_order a11 a1 a16 a6 a21 a1 a6 a11 a16 a21.
  column_order a22 a12 a2 a17 a7 a2 a7 a12 a17 a22.
  column_order a8 a23 a13 a3 a18 a3 a8 a13 a18 a23.
  column_order a19 a9 a24 a14 a4 a4 a9 a14 a19 a24.
  reflexivity.
Qed.

Lemma round3_lanes l c : length l = 25 -> round3 (placed places2 l) c = placed places3 (round_lanes c l).
Proof.
  intros H. lanes25 l H. lazy -[Z.lxor Z.ldiff rol].
  column_order a0 a20 a15 a10 a5 a0 a5 a10 a15 a20.
  column_order a16 a11 a6 a1 a21 a1 a6 a11 a16 a21.
  column_order a7 a2 a22 a17 a12 a2 a7 a12 a17 a22.
  column_order a23 a18 a13 a8 a3 a3 a8 a13 a18 a23.
  column_order a14 a9 a4 a24 a19 a4 a9 a14 a19 a24.
  reflexivity.
Qed.

Lemma round4_lanes l c : length l = 25 -> round4 (placed places3 l) c = placed (seq 0 25) (round_lanes c l).
Proof.
  intros H. lanes25 l H. lazy -[Z.lxor Z.ldiff rol].
  column_order a0 a10 a20 a5 a15 a0 a5 a10 a15 a20.
  column_order a6 a16 a1 a11 a21 a1 a6 a11 a16 a21.
  column_order a12 a22 a7 a17 a2 a2 a7 a12 a17 a22.
  column_order a18 a3 a13 a23 a8 a3 a8 a13 a18 a23.
  column_order a24 a9 a19 a4 a14 a4 a9 a14 a19 a24.
  reflexivity.
Qed.

Lemma placed_self l : length l = 25 -> placed (seq 0 25) l = l.
Proof. intros H. lanes25 l H. reflexivity. Qed.

Lemma of_lanes_length f : length (of_lanes f) = 25.
Proof. unfold of_lanes. rewrite length_map, length_seq. reflexivity. Qed.

Lemma round_lanes_length c l : length (round_lanes c l) = 25.
Proof. assert (H : forall l, length (iota_lanes c l) = length l) by (intros [|x r]; reflexivity). unfold round_lanes. rewrite H. apply of_lanes_length. Qed.

Lemma four_rounds_lanes l i : length l = 25 ->
  four_rounds l i = fold_left (fun l ir => round_lanes (nth ir rc 0%Z) l) (seq i 4) l.
Proof.
  intros H. unfold four_rounds. rewrite (round1_lanes l _ H), (round2_lanes (round_lanes _ l)), (round3_lanes (round_lanes _ _)), (round4_lanes (round_lanes _ _)) by apply round_lanes_length.
  rewrite placed_self by apply round_lanes_length. cbn [seq fold_left]. rewrite !Nat.add_1_r, !Nat.add_succ_r, !Nat.add_0_r. reflexivity.
Qed.

Lemma rounds_length is_ : forall l, length l = 25 -> length (fold_left (fun l ir => round_lanes (nth ir rc 0%Z) l) is_ l) = 25.
Proof. induction is_ as [|i is_ IH]; intros l H; [exact H|]. apply IH, round_lanes_length. Qed.

(** The unrolled rounds are the 24 rounds. *)
Lemma keccakF1600_rounds l : length l = 25 -> keccakF1600 l = fold_left (fun l ir => round_lanes (nth ir rc 0%Z) l) (seq 0 24) l.
Proof.
  intros H. change (seq 0 24) with (flat_map (fun i => seq i 4) [0; 4; 8; 12; 16; 20]). unfold keccakF1600. revert l H.
  induction [0; 4; 8; 12; 16; 20] as [|i is_ IH]; intros l H; [reflexivity|]. cbn [fold_left flat_map]. rewrite fold_left_app, four_rounds_lanes by exact H.
  apply IH, rounds_length, H.
Qed.

Lemma keccakF1600_length l : length l = 25 -> length (keccakF1600 l) = 25.
Proof. intros H. rewrite keccakF1600_rounds by exact H. apply rounds_length, H. Qed.

(** ** Bits *)

Definition is_lane (v : Z) : Prop := (0 <= v < 2 ^ 64)%Z.
Definition lanes_ok (l : list Z) : Prop := length l = 25 /\ Forall is_lane l.

Lemma is_lane_bits v : is_lane v <-> (0 <= v)%Z /\ forall i, (64 <= i)%Z -> Z.testbit v i = false.
Proof.
  split.
  - intros [H1 H2]. split; [exact H1|]. intros i Hi. destruct (Z.eq_dec v 0) as [->|N]; [apply Z.bits_0|]. apply Z.bits_above_log2; [exact H1|]. apply Z.log2_lt_pow2; [lia|]. apply (Z.lt_le_trans _ _ _ H2). apply Z.pow_le_mono_r; lia.
  - intros [H1 H2]. split; [exact H1|]. destruct (Z.eq_dec v 0) as [->|N]; [reflexivity|]. apply Z.log2_lt_pow2; [lia|]. destruct (Z.lt_ge_cases (Z.log2 v) 64) as [H|H]; [exact H|].
    specialize (H2 (Z.log2 v) H). rewrite Z.bit_log2 in H2 by lia. discriminate.
Qed.

Lemma xor_lane a b : is_lane a -> is_lane b -> is_lane (Z.lxor a b).
Proof.
  rewrite !is_lane_bits. intros [A1 A2] [B1 B2]. split; [apply Z.lxor_nonneg; tauto|]. intros i Hi. rewrite Z.lxor_spec, A2, B2 by exact Hi. reflexivity.
Qed.

Lemma ldiff_lane a b : is_lane a -> is_lane b -> is_lane (Z.ldiff a b).
Proof.
  rewrite !is_lane_bits. intros [A1 A2] [B1 B2]. split; [apply Z.ldiff_nonneg; tauto|]. intros i Hi. rewrite Z.ldiff_spec, A2 by exact Hi. reflexivity.
Qed.

Lemma u64_bits x i : (0 <= i < 64)%Z -> Z.testbit (u64 x) i = Z.testbit x i.
Proof. intros Hi. unfold u64, uwrap. rewrite Z.mod_pow2_bits_low by lia. reflexivity. Qed.

Lemma rol_lane t n : is_lane t -> (0 < n < 64)%Z -> is_lane (rol t n).
Proof.
  intros Ht Hn. apply is_lane_bits. pose proof (u64_range (Z.shiftl t n)) as Hu. apply is_lane_bits in Ht. destruct Ht as [T1 T2]. unfold rol.
  split; [apply Z.lor_nonneg; split; [lia|apply Z.shiftr_nonneg; exact T1]|]. intros i Hi. rewrite Z.lor_spec, Z.shiftr_spec by lia.
  rewrite T2 by lia. rewrite (proj2 (proj1 (is_lane_bits (u64 (Z.shiftl t n))) Hu) i Hi). reflexivity.
Qed.

(** A rotation moves the bits around. *)
Lemma rol_bits t n z : is_lane t -> (0 < n < 64)%nat -> z < 64 -> Z.testbit (rol t (Z.of_nat n)) (Z.of_nat z) = Z.testbit t (Z.of_nat ((z + 64 - n) mod 64)).
Proof.
  intros Ht Hn Hz. apply is_lane_bits in Ht. destruct Ht as [T1 T2]. unfold rol. rewrite Z.lor_spec, u64_bits, Z.shiftl_spec, Z.shiftr_spec by lia.
  destruct (Nat.lt_ge_cases z n) as [L|L].
  - rewrite (Z.testbit_neg_r t (Z.of_nat z - Z.of_nat n)) by lia. cbn [orb]. f_equal. rewrite Nat.mod_small by lia. lia.
  - rewrite (T2 (Z.of_nat z + (64 - Z.of_nat n))%Z) by lia. rewrite orb_false_r. f_equal. replace (z + 64 - n) with (z - n + 1 * 64) by lia. rewrite Nat.Div0.mod_add, Nat.mod_small by lia. lia.
Qed.

(** ** The steps on lanes are the steps on bits *)

Definition cube_of (l : list Z) : cube := fun x y z => Z.testbit (lane l x y) (Z.of_nat z).
Definition same (A B : cube) : Prop := forall x y z, x < 5 -> y < 5 -> z < 64 -> A x y z = B x y z.

Lemma same_trans A B C : same A B -> same B C -> same A C.
Proof. intros H1 H2 x y z Hx Hy Hz. rewrite H1, H2 by assumption. reflexivity. Qed.

Lemma mod5 x : x mod 5 < 5.
Proof. apply Nat.mod_upper_bound. lia. Qed.
Lemma mod64 z : z mod 64 < 64.
Proof. apply Nat.mod_upper_bound. lia. Qed.
#[local] Hint Resolve mod5 mod64 : core.

Lemma lane_of_lanes f x y : x < 5 -> y < 5 -> lane (of_lanes f) x y = f x y.
Proof.
  intros Hx Hy. unfold lane, of_lanes. rewrite (nth_indep _ 0%Z (f (0 mod 5) (0 / 5))) by (rewrite length_map, length_seq; lia).
  rewrite (map_nth (fun i => f (i mod 5) (i / 5))), seq_nth by lia. rewrite Nat.add_0_l. f_equal.
  - replace (x + 5 * y) with (x + y * 5) by lia. rewrite Nat.Div0.mod_add, Nat.mod_small by lia. reflexivity.
  - replace (x + 5 * y) with (y * 5 + x) by lia. rewrite Nat.div_add_l, Nat.div_small by lia. lia.
Qed.

Lemma of_lanes_ok f : (forall x y, x < 5 -> y < 5 -> is_lane (f x y)) -> lanes_ok (of_lanes f).
Proof.
  intros Hf. split; [apply of_lanes_length|]. unfold of_lanes. apply Forall_map. apply Forall_forall. intros i Hi. apply in_seq in Hi. apply Hf; [auto|]. apply Nat.Div0.div_lt_upper_bound. lia.
Qed.

Lemma lane_ok l x y : lanes_ok l -> x < 5 -> y < 5 -> is_lane (lane l x y).
Proof. intros [H1 H2] Hx Hy. rewrite Forall_forall in H2. apply H2, nth_In. lia. Qed.
#[local] Hint Resolve lane_ok xor_lane ldiff_lane : core.

Lemma column_ok l x : lanes_ok l -> x < 5 -> is_lane (column l x).
Proof. intros Hl Hx. unfold column. auto 12 with arith. Qed.
#[local] Hint Resolve column_ok : core.

Lemma rho_offset_range x y : rho_offset x y < 64.
Proof.
  unfold rho_offset. destruct (find _ _) as [[[x' y'] o]|] eqn:E; [|lia]. apply find_some in E. destruct E as [Hin _].
  assert (H : forallb (fun p => snd p <? 64) (rho_walk 24 0 1 0) = true) by reflexivity. rewrite forallb_forall in H. specialize (H _ Hin). apply Nat.ltb_lt, H.
Qed.

Lemma theta_ok l : lanes_ok l -> lanes_ok (theta_lanes l).
Proof. intros Hl. apply of_lanes_ok. intros x y Hx Hy. apply xor_lane; [auto|]. apply xor_lane; [auto|]. apply rol_lane; [auto|lia]. Qed.
Lemma rho_ok l : lanes_ok l -> lanes_ok (rho_lanes l).
Proof.
  intros Hl. apply of_lanes_ok. intros x y Hx Hy. pose proof (rho_offset_range x y). destruct (rho_offset x y) as [|n]; [auto|]. apply rol_lane; [auto|lia].
Qed.
Lemma pi_ok l : lanes_ok l -> lanes_ok (pi_lanes l).
Proof. intros Hl. apply of_lanes_ok. auto. Qed.
Lemma chi_ok l : lanes_ok l -> lanes_ok (chi_lanes l).
Proof. intros Hl. apply of_lanes_ok. auto 8. Qed.
Lemma iota_ok c l : is_lane c -> lanes_ok l -> lanes_ok (iota_lanes c l).
Proof. intros Hc [H1 H2]. destruct l as [|x l]; [split; assumption|]. inversion H2; subst. split; [exact H1|]. constructor; auto. Qed.

Lemma column_bits l x z : Z.testbit (column l x) (Z.of_nat z) = parity (cube_of l) x z.
Proof. unfold column, parity, cube_of. rewrite !Z.lxor_spec. reflexivity. Qed.

Lemma theta_bits l : lanes_ok l -> same (cube_of (theta_lanes l)) (theta (cube_of l)).
Proof.
  intros Hl x y z Hx Hy Hz. unfold cube_of at 1, theta_lanes. rewrite lane_of_lanes, !Z.lxor_spec by assumption. unfold theta. f_equal. f_equal; [apply column_bits|].
  change 1%Z with (Z.of_nat 1). rewrite rol_bits by (auto; lia). rewrite column_bits. f_equal. f_equal. lia.
Qed.

Lemma rho_bits l : lanes_ok l -> same (cube_of (rho_lanes l)) (rho (cube_of l)).
Proof.
  intros Hl x y z Hx Hy Hz. unfold cube_of at 1, rho_lanes. rewrite lane_of_lanes by assumption. unfold rho, cube_of. pose proof (rho_offset_range x y) as Ho.
  destruct (rho_offset x y) as [|n]; [|apply rol_bits; auto; lia]. f_equal. replace (z + 64 - 0) with (z + 1 * 64) by lia. rewrite Nat.Div0.mod_add, Nat.mod_small by lia. reflexivity.
Qed.

Lemma pi_bits l : same (cube_of (pi_lanes l)) (pi (cube_of l)).
Proof. intros x y z Hx Hy Hz. unfold cube_of at 1, pi_lanes. rewrite lane_of_lanes by assumption. reflexivity. Qed.

Lemma chi_bits l : same (cube_of (chi_lanes l)) (chi (cube_of l)).
Proof.
  intros x y z Hx Hy Hz. unfold cube_of at 1, chi_lanes. rewrite lane_of_lanes, Z.lxor_spec, Z.ldiff_spec by assumption. unfold chi, cube_of. f_equal. apply andb_comm.
Qed.

Lemma iota_bits c ir l : lanes_ok l -> (forall z, z < 64 -> Z.testbit c (Z.of_nat z) = RC ir z) -> same (cube_of (iota_lanes c l)) (iota ir (cube_of l)).
Proof.
  intros [H1 _] Hc x y z Hx Hy Hz. unfold iota, cube_of, lane. destruct l as [|a l]; [discriminate|]. destruct x as [|x]; [destruct y as [|y]|]; cbn [iota_lanes Nat.eqb andb].
  - cbn [Nat.add Nat.mul nth]. rewrite Z.lxor_spec, Hc by exact Hz. reflexivity.
  - replace (0 + 5 * S y) with (S (5 * y + 4)) by lia. reflexivity.
  - reflexivity.
Qed.

Lemma RC_rc ir z : ir < 24 -> z < 64 -> Z.testbit (nth ir rc 0%Z) (Z.of_nat z) = RC ir z.
Proof.
  intros Hi Hz. assert (H : forallb (fun ir => forallb (fun z => Bool.eqb (Z.testbit (nth ir rc 0%Z) (Z.of_nat z)) (RC ir z)) (seq 0 64)) (seq 0 24) = true) by (vm_compute; reflexivity).
  rewrite forallb_forall in H. specialize (H ir ltac:(apply in_seq; lia)). rewrite forallb_forall in H. apply Bool.eqb_prop, H, in_seq. lia.
Qed.

Lemma rc_lane ir : is_lane (nth ir rc 0%Z).
Proof.
  destruct (Nat.lt_ge_cases ir 24) as [H|H]; [|rewrite nth_overflow by exact H; split; [lia|reflexivity]].
  assert (Hr : Forall is_lane rc) by (repeat (constructor; [split; [lia|reflexivity]|]); constructor). rewrite Forall_forall in Hr. apply Hr, nth_In, H.
Qed.

(** ** The steps read only the state *)

Lemma theta_same A B : same A B -> same (theta A) (theta B).
Proof. intros H x y z Hx Hy Hz. unfold theta, parity. rewrite !H by (auto; lia). reflexivity. Qed.
Lemma rho_same A B : same A B -> same (rho A) (rho B).
Proof. intros H x y z Hx Hy Hz. unfold rho. apply H; auto. Qed.
Lemma pi_same A B : same A B -> same (pi A) (pi B).
Proof. intros H x y z Hx Hy Hz. unfold pi. apply H; auto. Qed.
Lemma chi_same A B : same A B -> same (chi A) (chi B).
Proof. intros H x y z Hx Hy Hz. unfold chi. rewrite !H by auto. reflexivity. Qed.
Lemma iota_same ir A B : same A B -> same (iota ir A) (iota ir B).
Proof. intros H x y z Hx Hy Hz. unfold iota. rewrite !H by auto. reflexivity. Qed.

Lemma Rnd_same ir A B : same A B -> same (Rnd ir A) (Rnd ir B).
Proof. intros H. apply iota_same, chi_same, pi_same, rho_same, theta_same, H. Qed.

Lemma round_bits ir l : ir < 24 -> lanes_ok l -> lanes_ok (round_lanes (nth ir rc 0%Z) l) /\ same (cube_of (round_lanes (nth ir rc 0%Z) l)) (Rnd ir (cube_of l)).
Proof.
  intros Hi Hl. pose proof (theta_ok l Hl) as H1. pose proof (rho_ok _ H1) as H2. pose proof (pi_ok _ H2) as H3. pose proof (chi_ok _ H3) as H4.
  split; [apply iota_ok; [apply rc_lane|exact H4]|]. unfold round_lanes, Rnd.
  apply (same_trans _ _ _ (iota_bits _ ir _ H4 (fun z => RC_rc ir z Hi))), iota_same. apply (same_trans _ _ _ (chi_bits _)), chi_same. apply (same_trans _ _ _ (pi_bits _)), pi_same.
  apply (same_trans _ _ _ (rho_bits _ H1)), rho_same. apply theta_bits, Hl.
Qed.

Lemma rounds_bits is_ : (forall ir, In ir is_ -> ir < 24) -> forall l A, lanes_ok l -> same (cube_of l) A ->
  let l' := fold_left (fun l ir => round_lanes (nth ir rc 0%Z) l) is_ l in lanes_ok l' /\ same (cube_of l') (fold_left (fun A ir => Rnd ir A) is_ A).
Proof.
  induction is_ as [|ir is_ IH]; intros Hr l A Hl Hs; [split; assumption|]. destruct (round_bits ir l (Hr ir ltac:(left; reflexivity)) Hl) as [H1 H2].
  apply IH; [intros i Hi; apply Hr; right; exact Hi|exact H1|]. apply (same_trans _ _ _ H2), Rnd_same, Hs.
Qed.

(** The permutation is the one of the standard. *)
Lemma keccakF1600_bits l : lanes_ok l -> lanes_ok (keccakF1600 l) /\ same (cube_of (keccakF1600 l)) (keccak_f (cube_of l)).
Proof.
  intros Hl. rewrite keccakF1600_rounds by apply Hl. apply rounds_bits; [intros ir H; apply in_seq in H; lia|exact Hl|]. intros x y z _ _ _. reflexivity.
Qed.

(** * Package [crypto/sha3]: the sponge

    The sponge construction of FIPS 202 on bytes, and the proof that [Write], [Read]
    and [Sum] compute it, however the input is cut into calls of [Write] and the
    output into calls of [Read]. *)

Local Open Scope Z_scope.

(** ** FIPS 202, sections 4 and 5 *)

(** The value of a string of bytes, the first byte the least, and the bytes of a lane. *)
Definition le_value (b : list Z) : Z := fold_right (fun x v => x + 256 * v) 0 b.
Definition lane_bytes (v : Z) : list Z := map (fun i => v / 256 ^ Z.of_nat i mod 256) (seq 0 8).

(** [st ⊕ (block || 0^c)] *)
Fixpoint xor_block (st block : list Z) : list Z :=
  match st with
  | [] => []
  | x :: st => Z.lxor x (le_value (firstn 8 block)) :: xor_block st (skipn 8 block)
  end.

(** The padding of a message of [n] bytes: the bits of the domain with the first bit
    of the padding in the byte [ds], zeros, and the last bit of the padding. *)
Definition padding (rate ds n : Z) : list Z :=
  let q := rate - n mod rate in
  if q =? 1 then [Z.lxor ds 0x80] else ds :: zeros (q - 2) ++ [0x80].

(** The blocks of a string. *)
Fixpoint blocks (k : nat) (rate : Z) (s : list Z) : list (list Z) :=
  match k with
  | O => []
  | S k => firstn (Z.to_nat rate) s :: blocks k rate (skipn (Z.to_nat rate) s)
  end.

Section sponge.
(** The permutation, on lanes. *)
Variable f : list Z -> list Z.

Definition absorb (st : list Z) (bl : list (list Z)) : list Z := fold_left (fun st b => f (xor_block st b)) bl st.

(** The state after a padded message. *)
Definition absorbed (rate ds : Z) (m : list Z) : list Z :=
  absorb (repeat 0 25) (blocks (Z.to_nat (len m / rate + 1)) rate (m ++ padding rate ds (len m))).

(** The byte [i] of the output, and [n] bytes from the byte [pos]. *)
Definition output_byte (rate : Z) (st : list Z) (i : nat) : Z :=
  nth (i mod Z.to_nat rate) (flat_map lane_bytes (Nat.iter (i / Z.to_nat rate) f st)) 0.
Definition squeeze (rate : Z) (st : list Z) (pos n : nat) : list Z := map (output_byte rate st) (seq pos n).

Definition digest (rate ds : Z) (m : list Z) (n : Z) : list Z := squeeze rate (absorbed rate ds m) 0 (Z.to_nat n).
End sponge.

(** KECCAK-f on lanes. *)
Definition lanes_of (A : cube) : list Z := of_lanes (fun x y => fold_right (fun z v => (if A x y z then 2 ^ Z.of_nat z else 0) + v) 0 (seq 0 64)).
Definition standard_f (l : list Z) : list Z := lanes_of (keccak_f (cube_of l)).

(** ** Lanes *)

Lemma bits_value (b : nat -> bool) n : forall i, fold_right (fun z v => (if b z then 2 ^ Z.of_nat z else 0) + v) 0 (seq i n) = 2 ^ Z.of_nat i * fold_right (fun z v => Z.b2z (b z) + 2 * v) 0 (seq i n).
Proof.
  induction n as [|n IH]; intros i; cbn [seq fold_right]; [lia|]. rewrite IH. rewrite Nat2Z.inj_succ, Z.pow_succ_r by lia. destruct (b i); cbn [Z.b2z]; lia.
Qed.

Lemma bits_fold (b : nat -> bool) n : forall i z, (z < n)%nat -> Z.testbit (fold_right (fun z v => Z.b2z (b z) + 2 * v) 0 (seq i n)) (Z.of_nat z) = b (i + z)%nat.
Proof.
  induction n as [|n IH]; intros i z Hz; [lia|]. cbn [seq fold_right]. rewrite Z.add_comm. destruct z as [|z]; [rewrite Nat.add_0_r; apply Z.testbit_0_r|].
  rewrite Nat2Z.inj_succ, Z.testbit_succ_r by lia. rewrite IH by lia. f_equal. lia.
Qed.

Lemma bits_range (b : nat -> bool) n : forall i, 0 <= fold_right (fun z v => Z.b2z (b z) + 2 * v) 0 (seq i n) < 2 ^ Z.of_nat n.
Proof.
  induction n as [|n IH]; intros i; [cbn; lia|]. cbn [seq fold_right]. specialize (IH (S i)). rewrite Nat2Z.inj_succ, Z.pow_succ_r by lia. destruct (b i); cbn [Z.b2z]; lia.
Qed.

Lemma lane_eq a b : is_lane a -> is_lane b -> (forall z, (z < 64)%nat -> Z.testbit a (Z.of_nat z) = Z.testbit b (Z.of_nat z)) -> a = b.
Proof.
  intros Ha Hb H. apply is_lane_bits in Ha, Hb. apply Z.bits_inj'. intros i Hi. destruct (Z.lt_ge_cases i 64) as [L|L]; [|rewrite (proj2 Ha), (proj2 Hb) by exact L; reflexivity].
  rewrite <- (Z2Nat.id i Hi). apply H. lia.
Qed.

Lemma lanes_eq l l' : lanes_ok l -> lanes_ok l' -> same (cube_of l) (cube_of l') -> l = l'.
Proof.
  intros Hl Hl' H. apply (nth_ext _ _ 0 0); [rewrite (proj1 Hl), (proj1 Hl'); reflexivity|]. intros i Hi. rewrite (proj1 Hl) in Hi.
  assert (Hx : (i mod 5 < 5)%nat) by (apply Nat.mod_upper_bound; lia). assert (Hy : (i / 5 < 5)%nat) by (apply Nat.Div0.div_lt_upper_bound; lia).
  assert (Ei : (i mod 5 + 5 * (i / 5) = i)%nat) by (pose proof (Nat.div_mod_eq i 5); lia). pose proof (lane_ok l _ _ Hl Hx Hy) as L1. pose proof (lane_ok l' _ _ Hl' Hx Hy) as L2.
  unfold lane in L1, L2. rewrite Ei in L1, L2. apply lane_eq; [exact L1|exact L2|]. intros z Hz. specialize (H _ _ z Hx Hy Hz). unfold cube_of, lane in H. rewrite Ei in H. exact H.
Qed.

Lemma lanes_of_bits A : lanes_ok (lanes_of A) /\ same (cube_of (lanes_of A)) A.
Proof.
  assert (E : forall x y, fold_right (fun z v => (if A x y z then 2 ^ Z.of_nat z else 0) + v) 0 (seq 0 64) = fold_right (fun z v => Z.b2z (A x y z) + 2 * v) 0 (seq 0 64)).
  { intros x y. rewrite bits_value. rewrite Z.mul_1_l. reflexivity. }
  split; [apply of_lanes_ok; intros x y _ _; rewrite E; apply (bits_range (A x y) 64 0)|]. intros x y z Hx Hy Hz. unfold cube_of, lanes_of. rewrite lane_of_lanes, E by assumption.
  apply (bits_fold (A x y) 64 0 z Hz).
Qed.

Lemma keccakF1600_standard l : lanes_ok l -> keccakF1600 l = standard_f l.
Proof.
  intros Hl. destruct (keccakF1600_bits l Hl) as [H1 H2]. destruct (lanes_of_bits (keccak_f (cube_of l))) as [H3 H4]. apply lanes_eq; [exact H1|exact H3|].
  intros x y z Hx Hy Hz. rewrite H2, H4 by assumption. reflexivity.
Qed.

(** ** Bytes and lanes *)

Lemma lor_shiftl_add a b k : 0 <= k -> 0 <= a < 2 ^ k -> Z.lor a (Z.shiftl b k) = a + 2 ^ k * b.
Proof.
  intros Hk Ha. assert (Hd : Z.land a (Z.shiftl b k) = 0).
  { apply Z.bits_inj'. intros i Hi. rewrite Z.land_spec, Z.bits_0. destruct (Z.lt_ge_cases i k) as [L|L]; [rewrite Z.shiftl_spec_low by exact L; apply andb_false_r|].
    replace (Z.testbit a i) with false; [reflexivity|symmetry]. destruct (Z.eq_dec a 0) as [->|N]; [apply Z.bits_0|].
    apply Z.bits_above_log2; [lia|]. apply (Z.lt_le_trans _ k); [apply Z.log2_lt_pow2; lia|exact L]. }
  rewrite <- Z.lxor_lor, <- Z.add_nocarry_lxor by exact Hd. rewrite Z.shiftl_mul_pow2 by exact Hk. lia.
Qed.

Lemma le_value_range b : bytes_ok b -> 0 <= le_value b < 256 ^ len b.
Proof.
  induction 1 as [|x b Hx _ IH]; [cbn; lia|]. cbn [le_value fold_right]. fold (le_value b). rewrite len_cons, Z.pow_add_r, Z.pow_1_r by (pose proof (len_nonneg b); lia). unfold is_byte in Hx. nia.
Qed.

Lemma Uint64_value b : bytes_ok b -> 8 <= len b -> LittleEndian_Uint64 b = le_value (firstn 8 b).
Proof.
  intros Hb Hl. do 8 (destruct b as [|? b]; [unfold len in Hl; cbn in Hl; lia|]). do 8 (inversion Hb as [|? ? ? Hb']; subst; clear Hb; rename Hb' into Hb). clear Hb Hl.
  unfold LittleEndian_Uint64. cbn [nth firstn le_value fold_right]. unfold is_byte in *.
  rewrite (lor_shiftl_add _ _ 8), (lor_shiftl_add _ _ 16), (lor_shiftl_add _ _ 24), (lor_shiftl_add _ _ 32), (lor_shiftl_add _ _ 40), (lor_shiftl_add _ _ 48), (lor_shiftl_add _ _ 56) by lia. lia.
Qed.

Lemma xor_block_nil st : xor_block st [] = st.
Proof. induction st as [|x st IH]; [reflexivity|]. cbn [xor_block firstn skipn le_value fold_right]. rewrite Z.lxor_0_r, IH. reflexivity. Qed.

Lemma len_skipn_nat {A : Type} n (l : list A) : Z.of_nat n <= len l -> len (skipn n l) = len l - Z.of_nat n.
Proof. unfold len. rewrite length_skipn. lia. Qed.
Lemma len_firstn_nat {A : Type} n (l : list A) : Z.of_nat n <= len l -> len (firstn n l) = Z.of_nat n.
Proof. unfold len. rewrite length_firstn. lia. Qed.

Lemma xorIn_spec a : forall buf, bytes_ok buf -> len buf mod 8 = 0 -> len buf <= 8 * len a -> xorInGeneric a buf = Ret (xor_block a buf).
Proof.
  induction a as [|x a IH]; intros buf Hb Hm Hl; cbn [xorInGeneric]; pose proof (len_nonneg buf) as H0.
  - change (len (@nil Z)) with 0 in Hl. destruct (Z.ltb_spec (len buf) 8); [reflexivity|lia].
  - destruct (Z.ltb_spec (len buf) 8) as [L|L].
    + rewrite Z.mod_small in Hm by lia. destruct buf; [rewrite xor_block_nil; reflexivity|rewrite len_cons in Hm; pose proof (len_nonneg buf); lia].
    + assert (Es : len (skipn 8 buf) = len buf - 8) by (apply (len_skipn_nat 8 buf); lia). rewrite len_cons in Hl.
      rewrite IH; [cbn [obind xor_block]; rewrite Uint64_value by assumption; reflexivity|apply bytes_ok_skipn, Hb| |lia].
      rewrite Es. replace (len buf - 8) with (len buf + (-1) * 8) by lia. rewrite Z.mod_add by lia. exact Hm.
Qed.

Lemma xor_block_length st : forall b, length (xor_block st b) = length st.
Proof. induction st as [|x st IH]; intros b; [reflexivity|]. cbn [xor_block length]. rewrite IH. reflexivity. Qed.

Lemma xor_block_ok st b : lanes_ok st -> bytes_ok b -> lanes_ok (xor_block st b).
Proof.
  intros [H1 H2] Hb. split; [rewrite xor_block_length; exact H1|]. clear H1. revert b Hb. induction H2 as [|x st Hx _ IH]; intros b Hb; [constructor|]. cbn [xor_block]. constructor.
  - apply xor_lane; [exact Hx|]. pose proof (le_value_range (firstn 8 b) (bytes_ok_firstn 8 b Hb)) as Hr. unfold is_lane. split; [lia|]. apply (Z.lt_le_trans _ _ _ (proj2 Hr)).
    change (2 ^ 64) with (256 ^ 8). apply Z.pow_le_mono_r; [lia|]. unfold len. rewrite length_firstn. lia.
  - apply IH, bytes_ok_skipn, Hb.
Qed.

Lemma PutUint64_bytes v : LittleEndian_PutUint64 v = lane_bytes v.
Proof.
  apply map_ext. intros i. unfold u8, uwrap. rewrite Z.shiftr_div_pow2, Z.pow_mul_r by lia. reflexivity.
Qed.

Lemma copyOut_spec a : forall b, len b mod 8 = 0 -> len b <= 8 * len a -> copyOutGeneric a b = Ret (firstn (length b) (flat_map lane_bytes a)).
Proof.
  induction a as [|x a IH]; intros b Hm Hl; cbn [copyOutGeneric]; pose proof (len_nonneg b) as H0.
  - change (len (@nil Z)) with 0 in Hl. destruct b; [reflexivity|rewrite len_cons in Hl; pose proof (len_nonneg b); lia].
  - destruct (Z.ltb_spec (len b) 8) as [L|L].
    + rewrite Z.mod_small in Hm by lia. destruct b; [reflexivity|rewrite len_cons in Hm; pose proof (len_nonneg b); lia].
    + assert (Es : len (skipn 8 b) = len b - 8) by (apply (len_skipn_nat 8 b); lia). rewrite len_cons in Hl.
      rewrite IH; [|rewrite Es; replace (len b - 8) with (len b + (-1) * 8) by lia; rewrite Z.mod_add by lia; exact Hm|lia].
      cbn [obind flat_map]. rewrite PutUint64_bytes. f_equal. rewrite length_skipn. rewrite firstn_app. change (length (lane_bytes x)) with 8%nat.
      rewrite (firstn_all2 (n := length b) (lane_bytes x)) by (change (length (lane_bytes x)) with 8%nat; unfold len in L; lia). reflexivity.
Qed.

(** ** Absorbing *)

#[local] Opaque keccakF1600.

Definition rate_ok (r : Z) : Prop := 0 < r <= maxRate /\ r mod 8 = 0.
Abbreviation absorb_f := (absorb keccakF1600).

(** The fields that stay. *)
Definition same_hash (d d' : sponge) : Prop := sp_rate d' = sp_rate d /\ sp_dsbyte d' = sp_dsbyte d /\ sp_outputLen d' = sp_outputLen d.

(** The sponge has absorbed the full blocks of [m], and has the rest in its buffer. *)
Record absorbing (d : sponge) (m : list Z) : Prop := {
  ab_rate : rate_ok (sp_rate d);
  ab_state : sp_state d = spongeAbsorbing;
  ab_storage : len (sp_storage d) = maxRate;
  ab_buf : sp_buf d = nilBuf \/ exists n, sp_buf d = storageBuf 0 n /\ 0 <= n < sp_rate d;
  ab_bytes : bytes_ok m;
  ab_lanes : lanes_ok (sp_a d);
  ab_message : exists bl, Forall (fun b => len b = sp_rate d) bl /\ m = concat bl ++ buf_bytes d /\ sp_a d = absorb_f (repeat 0 25) bl }.

Lemma absorbed_app st bl b : absorb_f st (bl ++ [b]) = keccakF1600 (xor_block (absorb_f st bl) b).
Proof. unfold absorb. rewrite fold_left_app. reflexivity. Qed.

Lemma splice_len s n p : 0 <= n -> n + len p <= len s -> len (splice s n p) = len s.
Proof. intros Hn Hl. pose proof (len_nonneg p). unfold splice. rewrite !len_app, len_firstn_nat, len_skipn_nat by lia. lia. Qed.

Lemma splice_prefix s n p : 0 <= n <= len s -> firstn (Z.to_nat (n + len p)) (splice s n p) = firstn (Z.to_nat n) s ++ p.
Proof.
  intros Hn. unfold splice. rewrite app_assoc. rewrite firstn_app. assert (E : length (firstn (Z.to_nat n) s ++ p) = Z.to_nat (n + len p)).
  { rewrite length_app, length_firstn. unfold len in *. lia. }
  rewrite firstn_all2, E, Nat.sub_diag by lia. cbn [firstn]. rewrite app_nil_r. reflexivity.
Qed.

Lemma absorb_step a b : lanes_ok a -> bytes_ok b -> rate_ok (len b) -> xorInGeneric a b = Ret (xor_block a b) /\ lanes_ok (keccakF1600 (xor_block a b)).
Proof.
  intros Ha Hb [Hr Hm]. split; [apply xorIn_spec; auto; unfold len at 2; rewrite (proj1 Ha); unfold maxRate in Hr; lia|]. apply keccakF1600_bits, xor_block_ok; assumption.
Qed.

Lemma some_absorbing d m : absorbing d m -> absorbing (some_buffer d) m /\ (exists n, sp_buf (some_buffer d) = storageBuf 0 n /\ 0 <= n < sp_rate d) /\ same_hash d (some_buffer d).
Proof.
  intros H. unfold some_buffer. destruct (ab_buf d m H) as [E|(n & E & Hn)]; rewrite E; cbn [sp_buf set_buf]; [|split; [exact H|split; [eauto|split; auto]]].
  destruct H as [H1 H2 H3 _ H5 H6 H7]. split; [|split; [exists 0; destruct H1; split; [reflexivity|lia]|split; auto]]. unfold buf_bytes in H7. rewrite E in H7.
  split; auto. right. exists 0. split; [reflexivity|]. destruct H1. cbn. lia.
Qed.

(** A full block, directly from the input. *)
Lemma absorbing_block d m block : absorbing d m -> buf_len (sp_buf d) = 0 -> bytes_ok block -> len block = sp_rate d -> absorbing (set_lanes d (keccakF1600 (xor_block (sp_a d) block))) (m ++ block).
Proof.
  intros [H1 H2 H3 H4 H5 H6 (bl & B1 & B2 & B3)] H0 Hb Hl. assert (Eb : buf_bytes d = []).
  { unfold buf_bytes. destruct (sp_buf d) as [|off n]; [reflexivity|]. cbn in H0. subst n. reflexivity. }
  destruct (absorb_step (sp_a d) block H6 Hb ltac:(rewrite Hl; exact H1)) as [_ Hok]. split; auto; [apply bytes_ok_app; auto|].
  exists (bl ++ [block]). split; [apply Forall_app; auto|]. split.
  - rewrite concat_app. cbn [concat]. change (buf_bytes (set_lanes d _)) with (buf_bytes d). rewrite Eb in *. rewrite B2, !app_nil_r. reflexivity.
  - rewrite absorbed_app, <- B3. reflexivity.
Qed.

(** Bytes that fill the buffer in part or to the end. *)
Lemma append_part d m n part : absorbing d m -> sp_buf d = storageBuf 0 n -> 0 <= n -> bytes_ok part -> n + len part <= sp_rate d ->
  exists d', append_buf d part = Ret d' /\ sp_buf d' = storageBuf 0 (n + len part) /\ same_hash d d' /\ sp_a d' = sp_a d /\ sp_state d' = sp_state d /\
    len (sp_storage d') = maxRate /\ buf_bytes d' = buf_bytes d ++ part /\ len (buf_bytes d') = n + len part.
Proof.
  intros H Eb Hn Hp Hl. destruct (ab_rate d m H) as [[_ Hr] _]. unfold append_buf. rewrite Eb, Z.add_0_l. pose proof (ab_storage d m H) as Hs. pose proof (len_nonneg part) as H0.
  destruct (Z.leb_spec (n + len part) maxRate); [|lia]. assert (Es : buf_bytes (set_buf (set_stored d (splice (sp_storage d) n part)) (storageBuf 0 (n + len part))) = buf_bytes d ++ part).
  { unfold buf_bytes. rewrite Eb. cbn [sp_buf set_buf set_stored sp_storage Z.to_nat skipn]. apply splice_prefix. lia. }
  assert (El : len (buf_bytes d) = n) by (unfold buf_bytes; rewrite Eb; cbn [Z.to_nat skipn]; rewrite len_firstn_nat; lia).
  eexists. split; [reflexivity|]. rewrite Es. cbn. rewrite splice_len by lia. repeat split; auto. rewrite len_app. lia.
Qed.

Lemma absorbing_part d m n part : absorbing d m -> sp_buf d = storageBuf 0 n -> 0 <= n -> bytes_ok part -> n + len part <= sp_rate d ->
  exists d1 d', append_buf d part = Ret d1 /\ (if buf_len (sp_buf d1) =? sp_rate d1 then permute d1 else Ret d1) = Ret d' /\ absorbing d' (m ++ part) /\ same_hash d d' /\
    exists n', sp_buf d' = storageBuf 0 n'.
Proof.
  intros H Eb Hn Hp Hl. destruct (append_part d m n part H Eb Hn Hp Hl) as (d1 & E1 & B1 & [R1 R2] & A1 & S1 & L1 & Eq & Ln). exists d1. rewrite B1, R1. cbn [buf_len].
  pose proof (len_nonneg part) as H0. destruct H as [H1 H2 H3 H4 H5 H6 (bl & M1 & M2 & M3)]. assert (Hb : bytes_ok (buf_bytes d1)).
  { rewrite Eq. apply bytes_ok_app. split; [|exact Hp]. rewrite M2 in H5. apply bytes_ok_app in H5. apply H5. }
  destruct (Z.eqb_spec (n + len part) (sp_rate d)) as [E|N].
  - destruct (absorb_step (sp_a d1) (buf_bytes d1) ltac:(rewrite A1; exact H6) Hb ltac:(rewrite Ln, E; exact H1)) as [Ex Hok].
    unfold permute. rewrite S1, H2, Ex. cbn [obind]. eexists. split; [exact E1|]. split; [reflexivity|]. split; [|split; [split; auto|cbn; eauto]]. split; cbn [sp_rate sp_state sp_storage sp_buf sp_a set_lanes set_buf]; rewrite ?R1, ?S1; auto.
    + right. exists 0. destruct H1. split; [reflexivity|lia].
    + apply bytes_ok_app; auto.
    + exists (bl ++ [buf_bytes d1]). split; [apply Forall_app; split; [exact M1|constructor; [lia|constructor]]|]. split; [|rewrite absorbed_app, <- M3, A1; reflexivity].
      rewrite concat_app. cbn [concat]. unfold buf_bytes at 2. cbn. rewrite !app_nil_r, M2, Eq, app_assoc. reflexivity.
  - exists d1. split; [exact E1|]. split; [reflexivity|]. split; [|split; [split; auto|eauto]]. split; rewrite ?R1, ?S1, ?A1; auto.
    + right. exists (n + len part). split; [exact B1|lia].
    + apply bytes_ok_app; auto.
    + exists bl. split; [exact M1|]. split; [rewrite M2, Eq, app_assoc; reflexivity|exact M3].
Qed.

Lemma same_hash_trans d1 d2 d3 : same_hash d1 d2 -> same_hash d2 d3 -> same_hash d1 d3.
Proof. unfold same_hash. intuition congruence. Qed.

Lemma write_loop_spec fuel : forall d m p, (length p < fuel)%nat -> absorbing d m -> (exists n, sp_buf d = storageBuf 0 n) -> bytes_ok p ->
  exists d', write_loop fuel d p = Ret d' /\ absorbing d' (m ++ p) /\ same_hash d d'.
Proof.
  induction fuel as [|fuel IH]; intros d m p Hf Hd (n & En) Hp; [lia|]. cbn [write_loop]. pose proof (ab_rate d m Hd) as [Hr _]. rewrite En. cbn [buf_len].
  destruct (Z.eqb_spec (len p) 0) as [E0|N0]; [destruct p; [|rewrite len_cons in E0; pose proof (len_nonneg p); lia]; exists d; rewrite app_nil_r; repeat split; auto; apply Hd|].
  assert (Hn : 0 <= n < sp_rate d) by (destruct (ab_buf d m Hd) as [E|(k & E & Hk)]; rewrite En in E; [discriminate|injection E as ->; exact Hk]).
  pose proof (len_nonneg p) as Hp0. destruct ((n =? 0) && (sp_rate d <=? len p)) eqn:Ef.
  - apply andb_true_iff in Ef. destruct Ef as [Ef1 Ef2]. apply Z.eqb_eq in Ef1. apply Z.leb_le in Ef2. subst n. rewrite !slice_ret by lia. cbn [obind]. rewrite Z.sub_0_r. cbn [Z.to_nat skipn].
    set (block := firstn (Z.to_nat (sp_rate d)) p). assert (Hb : bytes_ok block) by apply bytes_ok_firstn, Hp. assert (Hl : len block = sp_rate d) by (unfold block; rewrite len_firstn_nat; lia).
    destruct (absorb_step (sp_a d) block (ab_lanes d m Hd) Hb ltac:(rewrite Hl; apply Hd)) as [-> _]. cbn [obind].
    rewrite (firstn_all2 (n := Z.to_nat (len p - sp_rate d))) by (rewrite length_skipn; unfold len; lia).
    destruct (IH (set_lanes d (keccakF1600 (xor_block (sp_a d) block))) (m ++ block) (skipn (Z.to_nat (sp_rate d)) p)) as (d' & E1 & A1 & S1).
    + rewrite length_skipn. unfold len in *. lia.
    + apply absorbing_block; auto. rewrite En. reflexivity.
    + exists 0. exact En.
    + apply bytes_ok_skipn, Hp.
    + exists d'. split; [exact E1|]. split; [|exact S1]. rewrite <- app_assoc in A1. unfold block in A1. rewrite firstn_skipn in A1. exact A1.
  - set (todo := if len p <? sp_rate d - n then len p else sp_rate d - n). assert (Ht : 0 < todo <= len p /\ n + todo <= sp_rate d) by (unfold todo; destruct (Z.ltb_spec (len p) (sp_rate d - n)); lia).
    rewrite !slice_ret by lia. cbn [obind]. rewrite Z.sub_0_r. cbn [Z.to_nat skipn]. set (part := firstn (Z.to_nat todo) p).
    assert (Hl : len part = todo) by (unfold part; rewrite len_firstn_nat; lia).
    destruct (absorbing_part d m n part Hd En ltac:(lia) (bytes_ok_firstn _ _ Hp) ltac:(lia)) as (d1 & d2 & E1 & E2 & A2 & S2 & B2). rewrite E1. cbn [obind]. rewrite E2. cbn [obind].
    rewrite (firstn_all2 (n := Z.to_nat (len p - todo))) by (rewrite length_skipn; unfold len; lia).
    destruct (IH d2 (m ++ part) (skipn (Z.to_nat todo) p)) as (d' & E3 & A3 & S3); [rewrite length_skipn; unfold len in *; lia|exact A2|exact B2|apply bytes_ok_skipn, Hp|].
    exists d'. split; [exact E3|]. split; [|apply (same_hash_trans _ _ _ S2 S3)]. rewrite <- app_assoc in A3. unfold part in A3. rewrite firstn_skipn in A3. exact A3.
Qed.

Lemma Write_spec d m p : absorbing d m -> bytes_ok p -> exists d', Write d p = Ret (d', len p) /\ absorbing d' (m ++ p) /\ same_hash d d'.
Proof.
  intros Hd Hp. unfold Write. rewrite (ab_state d m Hd). destruct (some_absorbing d m Hd) as (H1 & (n & En & _) & H3).
  destruct (write_loop_spec (S (length p)) (some_buffer d) m p (Nat.lt_succ_diag_r _) H1 (ex_intro _ n En) Hp) as (d' & -> & A & S1). exists d'. split; [reflexivity|]. split; [exact A|apply (same_hash_trans _ _ _ H3 S1)].
Qed.

Lemma write_all_spec data : Forall bytes_ok data -> forall d m, absorbing d m -> exists d', write_all d data = Ret d' /\ absorbing d' (m ++ concat data) /\ same_hash d d'.
Proof.
  induction 1 as [|b data Hb _ IH]; intros d m Hd; cbn [write_all concat]; [exists d; rewrite app_nil_r; repeat split; auto; apply Hd|].
  destruct (Write_spec d m b Hd Hb) as (d1 & -> & A1 & S1). cbn [obind fst]. destruct (IH d1 (m ++ b) A1) as (d' & -> & A2 & S2). exists d'. rewrite app_assoc.
  split; [reflexivity|]. split; [exact A2|apply (same_hash_trans _ _ _ S1 S2)].
Qed.

Lemma zero_lanes_ok : lanes_ok (repeat 0 25).
Proof. split; [reflexivity|]. apply Forall_forall. intros x Hx. apply repeat_spec in Hx. subst x. split; [lia|reflexivity]. Qed.

Lemma new_absorbing r out ds : rate_ok r -> absorbing (newState r out ds) [].
Proof.
  intros Hr. split; [exact Hr|reflexivity|reflexivity|left; reflexivity|constructor|apply zero_lanes_ok|]. exists []. split; [constructor|]. split; reflexivity.
Qed.

(** ** Padding *)

Lemma blocks_concat r bl t : 0 < r -> Forall (fun b => len b = r) bl -> len t = r -> blocks (length bl + 1) r (concat bl ++ t) = bl ++ [t].
Proof.
  intros Hr Hbl Ht. induction Hbl as [|b bl Hb _ IH]; cbn [length Nat.add blocks concat app].
  - rewrite firstn_all2 by (unfold len in Ht; lia). reflexivity.
  - rewrite <- app_assoc, firstn_app, skipn_app. assert (E : Z.to_nat r = length b) by (unfold len in Hb; lia).
    rewrite E, firstn_all, skipn_all, Nat.sub_diag. cbn [firstn skipn app]. rewrite app_nil_r, IH. reflexivity.
Qed.

Lemma concat_len r bl : Forall (fun b : list Z => len b = r) bl -> len (concat bl) = r * Z.of_nat (length bl).
Proof. induction 1 as [|b bl Hb _ IH]; cbn [concat length]; [cbn; lia|]. rewrite len_app, IH, Hb. lia. Qed.

Lemma padding_len r ds n : 0 < r -> 0 <= n -> len (padding r ds n) = r - n mod r.
Proof.
  intros Hr Hn. pose proof (Z.mod_pos_bound n r Hr). unfold padding. destruct (Z.eqb_spec (r - n mod r) 1) as [E|N]; [rewrite E; reflexivity|].
  rewrite len_cons, len_app, zeros_len by lia. change (len [0x80]) with 1. lia.
Qed.

Lemma padding_ok r ds n : is_byte ds -> bytes_ok (padding r ds n).
Proof.
  intros Hds. unfold padding. destruct (_ =? 1).
  - constructor; [|constructor]. pose proof (byte_forall (fun b => (0 <=? Z.lxor b 128) && (Z.lxor b 128 <? 256)) eq_refl ds Hds) as Hx. apply andb_true_iff in Hx. unfold is_byte. lia.
  - constructor; [exact Hds|]. apply bytes_ok_app. split; [apply zeros_ok|]. constructor; [unfold is_byte; lia|constructor].
Qed.

(** The last block is the rest of the message and the padding. *)
Lemma absorbed_spec d m ds : absorbing d m -> absorbed keccakF1600 (sp_rate d) ds m = keccakF1600 (xor_block (sp_a d) (buf_bytes d ++ padding (sp_rate d) ds (len (buf_bytes d)))).
Proof.
  intros [[Hr _] _ Hs Hbuf _ _ (bl & M1 & M2 & M3)]. assert (Hl : 0 <= len (buf_bytes d) < sp_rate d).
  { unfold buf_bytes. destruct Hbuf as [->|(n & -> & Hn)]; [split; [reflexivity|apply Hr]|]. cbn [Z.to_nat skipn]. unfold maxRate in Hr, Hs. rewrite len_firstn_nat; lia. }
  assert (El : len m = sp_rate d * Z.of_nat (length bl) + len (buf_bytes d)) by (rewrite M2, len_app, (concat_len (sp_rate d) bl M1); reflexivity).
  assert (Ed : len m / sp_rate d = Z.of_nat (length bl)) by (rewrite El, Z.mul_comm, Z.div_add_l, Z.div_small by lia; lia).
  assert (Em : len m mod sp_rate d = len (buf_bytes d)) by (rewrite El, Z.add_comm, Z.mul_comm, Z.mod_add, Z.mod_small by lia; reflexivity).
  assert (Ep : padding (sp_rate d) ds (len m) = padding (sp_rate d) ds (len (buf_bytes d))) by (unfold padding; rewrite Em, (Z.mod_small (len (buf_bytes d))) by exact Hl; reflexivity).
  unfold absorbed. rewrite Ed, Ep. rewrite M2 at 1. rewrite <- app_assoc. replace (Z.to_nat (Z.of_nat (length bl) + 1)) with (length bl + 1)%nat by lia.
  rewrite blocks_concat; [rewrite absorbed_app, <- M3; reflexivity|apply Hr|exact M1|]. rewrite len_app, padding_len, Z.mod_small by lia. lia.
Qed.

(** ** Squeezing *)

(** The bytes of a state that are put out. *)
Definition out_block (r : Z) (st : list Z) : list Z := firstn (Z.to_nat r) (flat_map lane_bytes st).

Lemma lane_bytes_total st : length (flat_map lane_bytes st) = (8 * length st)%nat.
Proof. induction st as [|x st IH]; [reflexivity|]. cbn [flat_map]. rewrite length_app, IH. change (length (lane_bytes x)) with 8%nat. cbn [length]. lia. Qed.

Lemma out_block_len r st : rate_ok r -> lanes_ok st -> len (out_block r st) = r.
Proof. intros [Hr _] [Hl _]. unfold out_block, maxRate in *. rewrite len_firstn_nat; [lia|]. unfold len. rewrite lane_bytes_total, Hl. lia. Qed.

Lemma fill_buffer_spec d : rate_ok (sp_rate d) -> len (sp_storage d) = maxRate -> lanes_ok (sp_a d) ->
  exists d', fill_buffer d = Ret d' /\ sp_buf d' = storageBuf 0 (sp_rate d) /\ firstn (Z.to_nat (sp_rate d)) (sp_storage d') = out_block (sp_rate d) (sp_a d) /\
    len (sp_storage d') = maxRate /\ sp_a d' = sp_a d /\ sp_state d' = sp_state d /\ same_hash d d'.
Proof.
  intros Hr Hs Ha. pose proof Hr as [Hr1 Hr2]. unfold fill_buffer, storage_slice. destruct (Z.leb_spec 0 (sp_rate d)); [|lia]. destruct (Z.leb_spec (sp_rate d) maxRate); [|lia]. cbn [Z.leb Z.compare andb obind].
  rewrite Z.sub_0_r. set (d1 := set_buf d (storageBuf 0 (sp_rate d))). assert (El : len (buf_bytes d1) = sp_rate d) by (unfold buf_bytes; cbn [d1 set_buf sp_buf sp_storage Z.to_nat skipn]; rewrite len_firstn_nat; lia).
  change (sp_a d1) with (sp_a d). rewrite (copyOut_spec (sp_a d) (buf_bytes d1)); [|rewrite El; exact Hr2|rewrite El; unfold len; rewrite (proj1 Ha); unfold maxRate in Hr1; lia]. cbn [obind].
  replace (length (buf_bytes d1)) with (Z.to_nat (sp_rate d)) by (unfold len in El; lia). fold (out_block (sp_rate d) (sp_a d)). pose proof (out_block_len (sp_rate d) (sp_a d) Hr Ha) as Eo.
  eexists. split; [reflexivity|]. cbn [set_stored sp_buf sp_storage sp_a sp_state d1 set_buf]. split; [reflexivity|]. split.
  - pose proof (splice_prefix (sp_storage d) 0 (out_block (sp_rate d) (sp_a d)) ltac:(unfold maxRate in *; lia)) as H1. rewrite Eo, Z.add_0_l in H1. exact H1.
  - split; [rewrite splice_len; lia|]. repeat split.
Qed.

(** The sponge has put out the first [pos] bytes of the output of the state [st]. *)
Record squeezing (d : sponge) (st : list Z) (pos : nat) : Prop := {
  sq_rate : rate_ok (sp_rate d);
  sq_state : sp_state d = spongeSqueezing;
  sq_storage : len (sp_storage d) = maxRate;
  sq_lanes : lanes_ok (sp_a d);
  sq_a : sp_a d = Nat.iter (pos / Z.to_nat (sp_rate d)) keccakF1600 st;
  sq_buf : sp_buf d = storageBuf (Z.of_nat (pos mod Z.to_nat (sp_rate d))) (sp_rate d - Z.of_nat (pos mod Z.to_nat (sp_rate d)));
  sq_block : firstn (Z.to_nat (sp_rate d)) (sp_storage d) = out_block (sp_rate d) (sp_a d) }.

(** The last block of the code is the block of the standard. *)
Lemma last_block (tail : list Z) r ds : 0 <= len tail < r -> let b := tail ++ ds :: zeros (r - len tail - 1) in
  exists x, nth_error b (Z.to_nat (r - 1)) = Some x /\ firstn (Z.to_nat (r - 1)) b ++ [Z.lxor x 0x80] = tail ++ padding r ds (len tail).
Proof.
  intros Hl. cbn zeta. unfold padding. rewrite (Z.mod_small (len tail)) by exact Hl. destruct (Z.eqb_spec (r - len tail) 1) as [E|N].
  - replace (r - len tail - 1) with 0 by lia. replace (Z.to_nat (r - 1)) with (length tail) by (unfold len in *; lia). exists ds. rewrite nth_error_app2, Nat.sub_diag by lia.
    split; [reflexivity|]. rewrite firstn_app, firstn_all, Nat.sub_diag. cbn [firstn]. rewrite app_nil_r. reflexivity.
  - replace (zeros (r - len tail - 1)) with (zeros (r - len tail - 2) ++ [0]).
    2: { unfold zeros. replace (Z.to_nat (r - len tail - 1)) with (Z.to_nat (r - len tail - 2) + 1)%nat by lia. rewrite repeat_app. reflexivity. }
    set (h := tail ++ ds :: zeros (r - len tail - 2)). replace (tail ++ ds :: zeros (r - len tail - 2) ++ [0]) with (h ++ [0]) by (unfold h; rewrite <- app_assoc; reflexivity).
    assert (Eh : Z.to_nat (r - 1) = length h). { assert (H : len h = r - 1) by (unfold h; rewrite len_app, len_cons, zeros_len by lia; lia). unfold len in H. lia. }
    exists 0. rewrite Eh, nth_error_app2, Nat.sub_diag by lia. split; [reflexivity|]. rewrite firstn_app, firstn_all, Nat.sub_diag. cbn [firstn]. rewrite app_nil_r. unfold h. rewrite <- app_assoc. reflexivity.
Qed.

(** Writing into the storage keeps what is before. *)
Lemma splice_before s n p k : 0 <= k <= n -> n <= len s -> firstn (Z.to_nat k) (splice s n p) = firstn (Z.to_nat k) s.
Proof.
  intros Hk Hn. unfold splice. rewrite firstn_app, firstn_firstn, length_firstn. rewrite Nat.min_l by lia. replace (Z.to_nat k - Nat.min (Z.to_nat n) (length s))%nat with O by (unfold len in Hn; lia). cbn [firstn]. apply app_nil_r.
Qed.

(** The storage before the last block is absorbed. *)
Lemma pad_storage s n r ds : 0 <= n < r -> r <= len s ->
  let s1 := splice s n [ds] in let s2 := if n + 1 <? r then splice s1 (n + 1) (zeros (r - (n + 1))) else s1 in
  len s2 = len s /\ firstn (Z.to_nat r) s2 = firstn (Z.to_nat n) s ++ ds :: zeros (r - n - 1).
Proof.
  intros Hn Hr. cbn zeta. assert (L1 : len (splice s n [ds]) = len s) by (apply splice_len; [lia|change (len [ds]) with 1; lia]).
  pose proof (splice_prefix s n [ds] ltac:(lia)) as P1. change (len [ds]) with 1 in P1. destruct (Z.ltb_spec (n + 1) r) as [L|L].
  - split; [rewrite splice_len; [exact L1|lia|rewrite zeros_len; lia]|]. pose proof (splice_prefix (splice s n [ds]) (n + 1) (zeros (r - (n + 1))) ltac:(lia)) as P2. rewrite zeros_len in P2 by lia.
    replace (n + 1 + (r - (n + 1))) with r in P2 by lia. rewrite P2, P1, <- app_assoc. replace (r - (n + 1)) with (r - n - 1) by lia. reflexivity.
  - split; [exact L1|]. replace r with (n + 1) by lia. rewrite P1. replace (n + 1 - n - 1) with 0 by lia. reflexivity.
Qed.

Lemma index_error {A : Type} (l : list A) i x : 0 <= i -> nth_error l (Z.to_nat i) = Some x -> index l i = Ret x.
Proof. intros Hi E. apply index_ret; assumption. Qed.

(** Padding: the state of the standard, ready to be put out. *)
Lemma pad_spec d m ds : absorbing d m -> is_byte ds -> exists d', padAndPermute d ds = Ret d' /\ squeezing d' (absorbed keccakF1600 (sp_rate d) ds m) 0 /\ same_hash d d'.
Proof.
  intros Hd Hds. destruct (some_absorbing d m Hd) as (H & (n & En & Hn) & (R1 & R2 & R3)). unfold padAndPermute. set (d0 := some_buffer d) in *.
  pose proof (ab_rate d m Hd) as Hro. pose proof Hro as [[Hr1 Hr2] Hr3]. pose proof (ab_storage d0 m H) as Hs. unfold append_buf. rewrite En, Z.add_0_l. change (len [ds]) with 1. destruct (Z.leb_spec (n + 1) maxRate); [|lia]. cbn [obind].
  unfold storage_slice. cbn [sp_rate set_buf set_stored sp_buf buf_len sp_storage]. rewrite R1. destruct (Z.leb_spec 0 (sp_rate d)); [|lia]. destruct (Z.leb_spec (sp_rate d) maxRate); [|lia]. cbn [Z.leb Z.compare andb obind]. rewrite Z.sub_0_r.
  destruct (pad_storage (sp_storage d0) n (sp_rate d) ds Hn ltac:(lia)) as [L2 P2]. set (s2 := if n + 1 <? sp_rate d then _ else _) in *. cbn zeta in L2, P2.
  assert (Eb : buf_bytes d0 = firstn (Z.to_nat n) (sp_storage d0)) by (unfold buf_bytes; rewrite En; reflexivity).
  assert (El : len (buf_bytes d0) = n) by (rewrite Eb, len_firstn_nat; lia).
  match goal with |- context [index (buf_bytes ?x)] => set (d2 := x) end.
  assert (E2 : d2 = mkSponge (sp_a d0) (storageBuf 0 (sp_rate d)) (sp_rate d) (sp_dsbyte d0) s2 (sp_outputLen d0) (sp_state d0)).
  { unfold d2, s2, set_buf, set_stored. destruct (n + 1 <? sp_rate d); cbn; rewrite R1; reflexivity. }
  clearbody d2. subst d2. unfold buf_bytes at 1. cbn [sp_buf sp_storage sp_rate Z.to_nat skipn]. rewrite P2, <- Eb.
  destruct (last_block (buf_bytes d0) (sp_rate d) ds ltac:(lia)) as (x & Ex & Eq). rewrite El in Ex, Eq.
  rewrite (index_error _ (sp_rate d - 1) x ltac:(lia) Ex). cbn [obind sp_rate sp_storage set_stored].
  set (s3 := splice s2 (sp_rate d - 1) [Z.lxor x 128]). assert (E3 : firstn (Z.to_nat (sp_rate d)) s3 = buf_bytes d0 ++ padding (sp_rate d) ds n).
  { pose proof (splice_prefix s2 (sp_rate d - 1) [Z.lxor x 128] ltac:(lia)) as P3. change (len [Z.lxor x 128]) with 1 in P3. replace (sp_rate d - 1 + 1) with (sp_rate d) in P3 by lia. unfold s3. rewrite P3, <- Eq. f_equal.
    rewrite Eb, <- P2, firstn_firstn. f_equal. lia. }
  assert (L3 : len s3 = maxRate) by (unfold s3; rewrite splice_len; [lia|lia|change (len [Z.lxor x 128]) with 1; lia]).
  unfold permute, set_stored. cbn [sp_rate sp_dsbyte sp_outputLen sp_storage sp_state sp_a sp_buf set_lanes set_buf]. rewrite (ab_state d0 m H). unfold buf_bytes at 1. cbn [sp_buf sp_storage Z.to_nat skipn]. rewrite E3.
  assert (Hb : bytes_ok (buf_bytes d0 ++ padding (sp_rate d) ds n)).
  { apply bytes_ok_app. split; [destruct (ab_message d0 m H) as (bl & _ & M2 & _); pose proof (ab_bytes d0 m H) as Hm; rewrite M2 in Hm; apply bytes_ok_app in Hm; apply Hm|].
    apply padding_ok, Hds. }
  assert (Hl : len (buf_bytes d0 ++ padding (sp_rate d) ds n) = sp_rate d) by (rewrite len_app, padding_len, Z.mod_small by lia; lia).
  destruct (absorb_step (sp_a d0) _ (ab_lanes d0 m H) Hb ltac:(rewrite Hl; exact Hro)) as [-> Hok]. cbn [obind set_direction].
  assert (Ha : absorbed keccakF1600 (sp_rate d) ds m = keccakF1600 (xor_block (sp_a d0) (buf_bytes d0 ++ padding (sp_rate d) ds n))) by (rewrite <- R1, <- El, (absorbed_spec d0 m ds H); reflexivity).
  rewrite <- Ha in Hok |- *. match goal with |- context [fill_buffer ?x] => set (d3 := x) end.
  destruct (fill_buffer_spec d3 Hro L3 Hok) as (d' & E4 & B4 & F4 & S4 & A4 & D4 & (T1 & T2 & T3)). exists d'. split; [exact E4|]. cbn in T1, T2, T3, A4, D4, B4, F4. split.
  - split; rewrite ?T1, ?A4, ?D4; auto.
    + rewrite Nat.Div0.div_0_l. reflexivity.
    + rewrite Nat.Div0.mod_0_l. rewrite B4. f_equal. lia.
  - repeat split; congruence.
Qed.

Lemma step_position r pos k : (0 < r)%nat -> (pos mod r + k < r)%nat -> ((pos + k) / r = pos / r)%nat /\ ((pos + k) mod r = pos mod r + k)%nat.
Proof.
  intros Hr Hk. pose proof (Nat.div_mod_eq pos r) as E. assert (H : (pos + k = r * (pos / r) + (pos mod r + k))%nat) by lia.
  split; [symmetry; apply (Nat.div_unique _ _ _ _ Hk H)|symmetry; apply (Nat.mod_unique _ _ _ _ Hk H)].
Qed.

Lemma next_position r pos k : (0 < r)%nat -> (pos mod r + k = r)%nat -> ((pos + k) / r = S (pos / r))%nat /\ ((pos + k) mod r = 0)%nat.
Proof.
  intros Hr Hk. pose proof (Nat.div_mod_eq pos r) as E. assert (H : (pos + k = r * S (pos / r) + 0)%nat) by lia.
  split; [symmetry; apply (Nat.div_unique _ _ _ 0 Hr H)|symmetry; apply (Nat.mod_unique _ _ (S (pos / r)) _ Hr H)].
Qed.

(** Bytes of one block of the output. *)
Lemma squeeze_block r st pos k : rate_ok r -> lanes_ok (Nat.iter (pos / Z.to_nat r) keccakF1600 st) -> (pos mod Z.to_nat r + k <= Z.to_nat r)%nat ->
  squeeze keccakF1600 r st pos k = firstn k (skipn (pos mod Z.to_nat r) (out_block r (Nat.iter (pos / Z.to_nat r) keccakF1600 st))).
Proof.
  intros Hr Hl Hk. pose proof (out_block_len r _ Hr Hl) as Eo. destruct Hr as [[Hr _] _]. set (b := out_block r _) in *. assert (El : length b = Z.to_nat r) by (unfold len in Eo; lia).
  apply (nth_ext _ _ 0 0); [unfold squeeze; rewrite length_map, length_seq, length_firstn, length_skipn; lia|]. unfold squeeze. intros i Hi. rewrite length_map, length_seq in Hi.
  rewrite (nth_indep _ 0 (output_byte keccakF1600 r st 0)), (map_nth (output_byte keccakF1600 r st)), seq_nth by (rewrite ?length_map, ?length_seq; lia).
  rewrite nth_firstn, nth_skipn. destruct (Nat.ltb_spec i k); [|lia]. unfold output_byte. destruct (step_position (Z.to_nat r) pos i) as [-> ->]; [lia|lia|].
  unfold b, out_block. rewrite nth_firstn. destruct (Nat.ltb_spec (pos mod Z.to_nat r + i) (Z.to_nat r)); [reflexivity|lia].
Qed.

Lemma squeeze_app f r st pos k n : squeeze f r st pos (k + n) = squeeze f r st pos k ++ squeeze f r st (pos + k) n.
Proof. unfold squeeze. rewrite seq_app, map_app. reflexivity. Qed.

(** The buffer is the rest of the block. *)
Lemma squeezing_buffer d st pos : squeezing d st pos -> let off := (pos mod Z.to_nat (sp_rate d))%nat in
  (off < Z.to_nat (sp_rate d))%nat /\ buf_bytes d = skipn off (out_block (sp_rate d) (sp_a d)) /\ length (buf_bytes d) = (Z.to_nat (sp_rate d) - off)%nat.
Proof.
  intros [H1 H2 H3 H4 H5 H6 H7]. cbn zeta. set (off := (pos mod Z.to_nat (sp_rate d))%nat) in *. pose proof (out_block_len _ _ H1 H4) as Eo. destruct H1 as [[Hr _] _].
  assert (Ho : (off < Z.to_nat (sp_rate d))%nat) by (apply Nat.mod_upper_bound; lia). assert (Eb : buf_bytes d = skipn off (out_block (sp_rate d) (sp_a d))).
  { rewrite <- H7, skipn_firstn_comm. unfold buf_bytes. rewrite H6, Nat2Z.id. f_equal. lia. }
  split; [exact Ho|]. split; [exact Eb|]. rewrite Eb, length_skipn. unfold len in Eo. lia.
Qed.

(** One copy out of the buffer, and the next block when it is dry. *)
Lemma read_step d st pos (n : nat) : squeezing d st pos -> (0 < n)%nat -> let copied := firstn n (buf_bytes d) in
  let d1 := set_buf d (match sp_buf d with nilBuf => nilBuf | storageBuf off m => storageBuf (off + len copied) (m - len copied) end) in
  (0 < length copied <= n)%nat /\ copied = squeeze keccakF1600 (sp_rate d) st pos (length copied) /\
  exists d', (if buf_len (sp_buf d1) =? 0 then permute d1 else Ret d1) = Ret d' /\ squeezing d' st (pos + length copied) /\ same_hash d d'.
Proof.
  intros Hd Hn. destruct (squeezing_buffer d st pos Hd) as (Ho & Eb & El). cbn zeta in *. set (off := (pos mod Z.to_nat (sp_rate d))%nat) in *. set (k := length (firstn n (buf_bytes d))).
  assert (Ek : k = Nat.min n (Z.to_nat (sp_rate d) - off)) by (unfold k; rewrite length_firstn, El; reflexivity). pose proof Hd as [H1 H2 H3 H4 H5 H6 H7]. pose proof H1 as [[Hr _] _]. split; [lia|]. split.
  - rewrite squeeze_block; [|exact H1|rewrite <- H5; exact H4|fold off; lia]. rewrite <- H5. fold off. rewrite <- Eb, Ek. rewrite <- El. destruct (Nat.min_dec n (length (buf_bytes d))) as [->|E2]; [reflexivity|].
    rewrite E2, !firstn_all2 by lia. reflexivity.
  - rewrite H6. cbn [set_buf sp_buf buf_len]. unfold len. fold k. fold off. destruct (Z.eqb_spec (sp_rate d - Z.of_nat off - Z.of_nat k) 0) as [E0|N0].
    + destruct (next_position (Z.to_nat (sp_rate d)) pos k) as [P1 P2]; [lia|fold off; lia|]. unfold permute. cbn [sp_state sp_a set_buf]. rewrite H2.
      assert (Hf : lanes_ok (keccakF1600 (sp_a d))) by apply keccakF1600_bits, H4. match goal with |- context [fill_buffer ?x] => set (d3 := x) end.
      destruct (fill_buffer_spec d3 H1 H3 Hf) as (d' & E4 & B4 & F4 & S4 & A4 & D4 & (T1 & T2 & T3)). exists d'. split; [exact E4|]. cbn in T1, T2, T3, A4, D4, B4, F4. split; [|split; auto].
      split; rewrite ?T1, ?A4, ?D4; auto; [rewrite P1, Nat.iter_succ, <- H5; reflexivity|rewrite P2, B4; f_equal; lia].
    + destruct (step_position (Z.to_nat (sp_rate d)) pos k) as [P1 P2]; [lia|fold off; lia|]. eexists. split; [reflexivity|]. split; [|repeat split].
      split; cbn [sp_rate sp_state sp_storage sp_a sp_buf set_buf]; auto; [rewrite P1; exact H5|]. rewrite P2. fold off. f_equal; lia.
Qed.

Lemma read_loop_spec fuel : forall d st pos n, (Z.to_nat n < fuel)%nat -> 0 <= n -> squeezing d st pos ->
  exists d', read_loop fuel d n = Ret (d', squeeze keccakF1600 (sp_rate d) st pos (Z.to_nat n)) /\ squeezing d' st (pos + Z.to_nat n) /\ same_hash d d'.
Proof.
  induction fuel as [|fuel IH]; intros d st pos n Hf Hn Hd; [lia|]. cbn [read_loop]. destruct (Z.eqb_spec n 0) as [->|N].
  - exists d. cbn [Z.to_nat]. rewrite Nat.add_0_r. split; [reflexivity|]. split; [exact Hd|repeat split].
  - destruct (read_step d st pos (Z.to_nat n) Hd ltac:(lia)) as (Hk & Ec & d1 & E1 & S1 & T1). set (copied := firstn (Z.to_nat n) (buf_bytes d)) in *. rewrite E1. cbn [obind].
    destruct (IH d1 st (pos + length copied)%nat (n - len copied)) as (d' & E2 & S2 & T2); [unfold len; lia|unfold len; lia|exact S1|]. rewrite E2. cbn [obind fst snd].
    assert (En : Z.to_nat n = (length copied + Z.to_nat (n - len copied))%nat) by (unfold len; lia). exists d'. split; [|split; [|apply (same_hash_trans _ _ _ T1 T2)]].
    + rewrite En, squeeze_app, <- Ec. do 2 f_equal. destruct T1 as [-> _]. reflexivity.
    + rewrite En, Nat.add_assoc. exact S2.
Qed.

(** ** [Read], [Sum] and [clone] *)

Lemma Read_squeezing d st pos n : squeezing d st pos -> 0 <= n ->
  exists d', Read d n = Ret (d', squeeze keccakF1600 (sp_rate d) st pos (Z.to_nat n)) /\ squeezing d' st (pos + Z.to_nat n) /\ same_hash d d'.
Proof. intros Hd Hn. unfold Read. rewrite (sq_state _ _ _ Hd). apply read_loop_spec; auto. Qed.

Lemma Read_absorbing d m n : absorbing d m -> is_byte (sp_dsbyte d) -> 0 <= n ->
  exists d', Read d n = Ret (d', digest keccakF1600 (sp_rate d) (sp_dsbyte d) m n) /\ squeezing d' (absorbed keccakF1600 (sp_rate d) (sp_dsbyte d) m) (Z.to_nat n) /\ same_hash d d'.
Proof.
  intros Hd Hds Hn. unfold Read. rewrite (ab_state _ _ Hd). destruct (pad_spec d m (sp_dsbyte d) Hd Hds) as (d1 & -> & S1 & T1). cbn [obind].
  destruct (read_loop_spec (S (Z.to_nat n)) d1 _ 0 n (Nat.lt_succ_diag_r _) Hn S1) as (d' & -> & S2 & T2). exists d'. destruct T1 as [R1 R2]. rewrite R1.
  split; [reflexivity|]. split; [exact S2|]. apply (same_hash_trans _ d1); [split; assumption|exact T2].
Qed.

Lemma clone_absorbing d m : absorbing d m -> exists d', clone d = Ret d' /\ absorbing d' m /\ same_hash d d'.
Proof.
  intros Hd. destruct (some_absorbing d m Hd) as (H & (n & En & Hn) & HT). destruct (ab_rate d m Hd) as [[Hr1 Hr2] _].
  assert (El : buf_len (sp_buf d) = n) by (unfold some_buffer in En; destruct (sp_buf d) as [|o k] eqn:Eb; cbn [set_buf sp_buf] in En; [|rewrite Eb in En]; injection En; intros; subst; reflexivity).
  unfold clone. rewrite (ab_state d m Hd), El. unfold storage_slice. destruct (Z.leb_spec 0 n); [|lia]. destruct (Z.leb_spec n maxRate); [|lia]. cbn [Z.leb Z.compare andb obind]. rewrite Z.sub_0_r.
  exists (some_buffer d). split; [|split; [exact H|exact HT]]. f_equal. rewrite <- En. unfold some_buffer, set_buf in *. destruct d as [a b r ds s o st]. cbn in *. destruct b; reflexivity.
Qed.

(** [Sum] is the digest of what was written; the sponge stays as it is. *)
Lemma Sum_absorbing d m in_ : absorbing d m -> is_byte (sp_dsbyte d) -> 0 <= sp_outputLen d ->
  Sum d in_ = Ret (in_ ++ digest keccakF1600 (sp_rate d) (sp_dsbyte d) m (sp_outputLen d)).
Proof.
  intros Hd Hds Ho. unfold Sum. destruct (clone_absorbing d m Hd) as (d1 & -> & H1 & (R1 & R2 & R3)). cbn [obind]. rewrite <- R1, <- R2, <- R3.
  destruct (Read_absorbing d1 m (sp_outputLen d1) H1 ltac:(rewrite R2; exact Hds) ltac:(rewrite R3; exact Ho)) as (d' & -> & _). reflexivity.
Qed.

(** ** The standard *)

Lemma absorb_cons f st b bl : absorb f st (b :: bl) = absorb f (f (xor_block st b)) bl.
Proof. reflexivity. Qed.

Lemma absorb_standard bl : Forall bytes_ok bl -> forall st, lanes_ok st -> absorb keccakF1600 st bl = absorb standard_f st bl /\ lanes_ok (absorb keccakF1600 st bl).
Proof.
  induction 1 as [|b bl Hb _ IH]; intros st Hst; [split; [reflexivity|exact Hst]|]. pose proof (xor_block_ok st b Hst Hb) as Hx. rewrite !absorb_cons.
  rewrite <- (keccakF1600_standard _ Hx). apply IH. apply keccakF1600_bits, Hx.
Qed.

Lemma blocks_ok k r : forall s, bytes_ok s -> Forall bytes_ok (blocks k r s).
Proof. induction k as [|k IH]; intros s Hs; cbn [blocks]; constructor; [apply bytes_ok_firstn, Hs|apply IH, bytes_ok_skipn, Hs]. Qed.

Lemma iter_standard st k : lanes_ok st -> Nat.iter k keccakF1600 st = Nat.iter k standard_f st /\ lanes_ok (Nat.iter k keccakF1600 st).
Proof.
  intros Hst. induction k as [|k [IH1 IH2]]; [split; [reflexivity|exact Hst]|]. rewrite !Nat.iter_succ, <- IH1, <- (keccakF1600_standard _ IH2). split; [reflexivity|]. apply keccakF1600_bits, IH2.
Qed.

Lemma absorbed_standard r ds m : bytes_ok m -> is_byte ds -> absorbed keccakF1600 r ds m = absorbed standard_f r ds m /\ lanes_ok (absorbed keccakF1600 r ds m).
Proof.
  intros Hm Hds. apply absorb_standard; [|apply zero_lanes_ok]. apply blocks_ok, bytes_ok_app. split; [exact Hm|apply padding_ok, Hds].
Qed.

Lemma squeeze_standard r st pos n : lanes_ok st -> squeeze keccakF1600 r st pos n = squeeze standard_f r st pos n.
Proof. intros Hst. apply map_ext. intros i. unfold output_byte. rewrite (proj1 (iter_standard st (i / Z.to_nat r) Hst)). reflexivity. Qed.

Lemma digest_standard r ds m n : bytes_ok m -> is_byte ds -> digest keccakF1600 r ds m n = digest standard_f r ds m n.
Proof.
  intros Hm Hds. destruct (absorbed_standard r ds m Hm Hds) as [E H]. unfold digest. rewrite (squeeze_standard _ _ _ _ H), E. reflexivity.
Qed.

Lemma squeeze_ok f r st pos n : len (squeeze f r st pos n) = Z.of_nat n /\ bytes_ok (squeeze f r st pos n).
Proof.
  split; [unfold len, squeeze; rewrite length_map, length_seq; reflexivity|]. apply Forall_map, Forall_forall. intros i _. unfold output_byte. set (l := flat_map lane_bytes _).
  destruct (nth_in_or_default (i mod Z.to_nat r) l 0) as [H|H]; [|rewrite H; split; [lia|reflexivity]]. unfold l in H at 2. apply in_flat_map in H. destruct H as (v & _ & Hv). unfold lane_bytes in Hv.
  apply in_map_iff in Hv. destruct Hv as (j & <- & _). apply Z.mod_pos_bound. lia.
Qed.
