(* ===== verification/TrieNode.v ===== *)
(** * Package [trie]: keys, nodes and the decoding of nodes

    [trie/encoding.go] and [trie/node.go].  A key is in one of three encodings:
    its bytes, its nibbles with a terminator 16 ([HEX]), or the nibbles packed
    with a flag ([COMPACT]).  A nil node is [nilNode]; a nil hash is [None]. *)

From Stdlib Require Import ZArith List Lia Bool.
From S2P Require Import Prelude GoBig ByteBuf Rlp.
Import ListNotations.
Local Open Scope Z_scope.

(** [x, err := m; if err != nil { return ..., err }] for an [m] that may also panic. *)
Definition try_bind {A B E : Type} (m : outcome (result A E)) (k : A -> outcome (result B E)) : outcome (result B E) :=
  let! r := m in try! a := r in k a.
Notation "'let?' x ':=' m 'in' k" := (try_bind m (fun x => k))
  (at level 10, x pattern, m at level 100, k at level 200) : go_scope.

(** ** [encoding.go] *)

Definition hasTerm (s : list Z) : bool := (0 <? len s) && (last s 0 =? 16).

Definition nibbles_of (b : Z) : list Z := [b / 16; b mod 16].
Definition keybytesToHex (str : list Z) : list Z := flat_map nibbles_of str ++ [16].

(** The bytes written; the buffer has room for them in both callers. *)
Fixpoint decodeNibbles (nibbles : list Z) : outcome (list Z) :=
  match nibbles with
  | [] => Ret []
  | [_] => Panic
  | a :: b :: t => let! r := decodeNibbles t in Ret (Z.lor (u8 (Z.shiftl a 4)) b :: r)
  end.

Definition hexToCompact (hex : list Z) : outcome (list Z) :=
  let terminator := if hasTerm hex then 1 else 0 in
  let hex := if hasTerm hex then removelast hex else hex in
  let buf0 := Z.shiftl terminator 5 in
  let '(buf0, hex) :=
    if Z.odd (len hex) then (Z.lor (Z.lor buf0 (Z.shiftl 1 4)) (hd 0 hex), tl hex) else (buf0, hex) in
  let! r := decodeNibbles hex in
  Ret (buf0 :: r).

Definition compactToHex (compact : list Z) : outcome (list Z) :=
  let base := removelast (keybytesToHex compact) in
  let! b0 := index base 0 in
  let base := if b0 >=? 2 then base ++ [16] else base in
  slice base (2 - Z.land b0 1) (len base).

Definition hexToKeybytes (hex : list Z) : outcome (list Z) :=
  let hex := if hasTerm hex then removelast hex else hex in
  if Z.odd (len hex) then Panic else decodeNibbles hex.

Fixpoint prefixLen (a b : list Z) : nat :=
  match a, b with
  | x :: a, y :: b => if x =? y then S (prefixLen a b) else O
  | _, _ => O
  end.

(** ** [node.go] *)

Record nodeFlag : Type := mkFlag {
  flag_hash : option (list Z);
  flag_gen : Z;
  flag_dirty : bool }.

Inductive node : Type :=
| nilNode
| fullNode (Children : list node) (flags : nodeFlag)
| shortNode (Key : list Z) (Val : node) (flags : nodeFlag)
| hashNode (h : list Z)
| valueNode (v : list Z).

Definition u16 : Z -> Z := uwrap 16.
Definition flag_canUnload (n : nodeFlag) (cachegen cachelimit : Z) : bool :=
  negb (flag_dirty n) && (u16 (cachegen - flag_gen n) >=? cachelimit).
Definition canUnload (n : node) (gen limit : Z) : bool :=
  match n with
  | fullNode _ flags | shortNode _ _ flags => flag_canUnload flags gen limit
  | _ => false
  end.
Definition cache (n : node) : option (list Z) * bool :=
  match n with
  | fullNode _ flags | shortNode _ _ flags => (flag_hash flags, flag_dirty flags)
  | _ => (None, true)
  end.

Inductive nodeErr : Type :=
| nodeEOF
| nodeRlp (e : rlpErr)
| badCount
| oversized
| badSize.

Definition lift_rlp {A : Type} (m : outcome (result A rlpErr)) : outcome (result A nodeErr) :=
  let! r := m in Ret (match r with Ok a => Ok a | Err e => Err (nodeRlp e) end).

Definition hashLen : Z := 32.

Section decode.
Variable cachegen : Z.

(** The functions call each other on an element of the list they decode, which is
    shorter; [dec] is [decodeNode] on such a list. *)
Definition decodeRef (dec : option (list Z) -> list Z -> outcome (result node nodeErr)) (buf : list Z) : outcome (result (node * list Z) nodeErr) :=
  let? (kind, val, rest) := lift_rlp (Split buf) in
  match kind with
  | KList =>
      if len buf - len rest >? hashLen then Ret (Err oversized)
      else let? n := dec None buf in Ret (Ok (n, rest))
  | KString =>
      if len val =? 0 then Ret (Ok (nilNode, rest))
      else if len val =? 32 then Ret (Ok (hashNode val, rest))
      else Ret (Err badSize)
  | KByte => Ret (Err badSize)
  end.

Definition decodeShort (dec : option (list Z) -> list Z -> outcome (result node nodeErr)) (hash : option (list Z)) (elems : list Z) : outcome (result node nodeErr) :=
  let? (kbuf, rest) := lift_rlp (SplitString elems) in
  let flag := mkFlag hash cachegen false in
  let! key := compactToHex kbuf in
  if hasTerm key then
    let? (val, _) := lift_rlp (SplitString rest) in
    Ret (Ok (shortNode key (valueNode val) flag))
  else
    let? (r, _) := decodeRef dec rest in
    Ret (Ok (shortNode key r flag)).

(** [n] children. *)
Fixpoint decodeChildren (dec : option (list Z) -> list Z -> outcome (result node nodeErr)) (n : nat) (elems : list Z) : outcome (result (list node * list Z) nodeErr) :=
  match n with
  | O => Ret (Ok ([], elems))
  | S n =>
      let? (cld, elems) := decodeRef dec elems in
      let? (clds, elems) := decodeChildren dec n elems in
      Ret (Ok (cld :: clds, elems))
  end.

Definition decodeFull (dec : option (list Z) -> list Z -> outcome (result node nodeErr)) (hash : option (list Z)) (elems : list Z) : outcome (result node nodeErr) :=
  let? (clds, elems) := decodeChildren dec 16 elems in
  let? (val, _) := lift_rlp (SplitString elems) in
  Ret (Ok (fullNode (clds ++ [if 0 <? len val then valueNode val else nilNode]) (mkFlag hash cachegen false))).

(** An embedded node is an element of the list that has it, so the length of the
    buffer bounds the depth.  The error of [CountValues] is ignored: its count is 0
    then. *)
Fixpoint decodeNode_depth (fuel : nat) (hash : option (list Z)) (buf : list Z) : outcome (result node nodeErr) :=
  match fuel with
  | O => Panic
  | S fuel =>
      if len buf =? 0 then Ret (Err nodeEOF)
      else
        let? (elems, _) := lift_rlp (SplitList buf) in
        let! c := CountValues elems in
        match c with
        | Ok 2 => decodeShort (decodeNode_depth fuel) hash elems
        | Ok 17 => decodeFull (decodeNode_depth fuel) hash elems
        | _ => Ret (Err badCount)
        end
  end.
Definition decodeNode (hash : option (list Z)) (buf : list Z) : outcome (result node nodeErr) := decodeNode_depth (S (length buf)) hash buf.

Definition mustDecodeNode (hash : list Z) (buf : list Z) : outcome node :=
  let! r := decodeNode (Some hash) buf in
  match r with Ok n => Ret n | Err _ => Panic end.
End decode.
