(* ===== verification/TrieOps.v ===== *)
(** * Package [trie]: the operations

    [trie/trie.go] and the key hashing of [trie/secure_trie.go].  [Get] is the
    database; it gives [None] for an error as for a missing key.  The path in an
    error is kept; the counters of cache misses are not.  [t.root] is the state. *)

From Stdlib Require Import ZArith List Lia Bool.
From S2P Require Import Prelude GoBig CommonTypes Rlp TrieNode.
Import ListNotations.
Local Open Scope Z_scope.

Inductive trieErr : Type := MissingNodeError (NodeHash : Hash) (Path : list Z).

Definition bytes_Equal (a b : list Z) : bool := if list_eq_dec Z.eq_dec a b then true else false.

Fixpoint set_child {A : Type} (l : list A) (i : nat) (a : A) : list A :=
  match l, i with
  | [], _ => []
  | _ :: l, O => a :: l
  | x :: l, S i => x :: set_child l i a
  end.

Section ops.
Variable Get : list Z -> option (list Z).
Variable cachegen : Z.

Definition newFlag : nodeFlag := mkFlag None cachegen true.

Definition resolveHash (n : list Z) (prefix : list Z) : outcome (result node trieErr) :=
  match Get n with
  | None => Ret (Err (MissingNodeError (BytesToHash n) prefix))
  | Some enc => let! dec := mustDecodeNode cachegen n enc in Ret (Ok dec)
  end.

Definition resolve (n : node) (prefix : list Z) : outcome (result node trieErr) :=
  match n with
  | hashNode h => resolveHash h prefix
  | _ => Ret (Ok n)
  end.

(** [key[:pos]] is [path] and [key[pos:]] is [key]; the nodes returned with an
    error are not used.  A nil value is [[]].  The recursion goes down the key; a
    hash is resolved to a node that is none, so twice the key is enough depth when
    the keys of short nodes are not empty. *)
Fixpoint tryGet (fuel : nat) (origNode : node) (path key : list Z) : outcome (result (list Z * node * bool) trieErr) :=
  match fuel with
  | O => Panic
  | S fuel =>
      match origNode with
      | nilNode => Ret (Ok ([], nilNode, false))
      | valueNode v => Ret (Ok (v, origNode, false))
      | shortNode k val flags =>
          let n := length k in
          if (length key <? n)%nat || negb (bytes_Equal k (firstn n key)) then Ret (Ok ([], origNode, false))
          else
            let? (value, newnode, didResolve) := tryGet fuel val (path ++ firstn n key) (skipn n key) in
            Ret (Ok (value, if didResolve then shortNode k newnode (mkFlag (flag_hash flags) cachegen (flag_dirty flags)) else origNode, didResolve))
      | fullNode clds flags =>
          let! x := index key 0 in
          let! c := index clds x in
          let? (value, newnode, didResolve) := tryGet fuel c (path ++ [x]) (tl key) in
          Ret (Ok (value,
            if didResolve then fullNode (set_child clds (Z.to_nat x) newnode) (mkFlag (flag_hash flags) cachegen (flag_dirty flags)) else origNode,
            didResolve))
      | hashNode h =>
          let? child := resolveHash h path in
          let? (value, newnode, _) := tryGet fuel child path key in
          Ret (Ok (value, newnode, true))
      end
  end.

(** Whether the node changed, and the node. *)
Fixpoint insert (fuel : nat) (n : node) (prefix key : list Z) (value : node) : outcome (result (bool * node) trieErr) :=
  match fuel with
  | O => Panic
  | S fuel =>
      match key with
      | [] =>
          match n with
          | valueNode v =>
              match value with
              | valueNode w => Ret (Ok (negb (bytes_Equal v w), value))
              | _ => Panic
              end
          | _ => Ret (Ok (true, value))
          end
      | k0 :: ktail =>
          match n with
          | shortNode nkey nval _ =>
              let matchlen := prefixLen key nkey in
              if (matchlen =? length nkey)%nat then
                let? (dirty, nn) := insert fuel nval (prefix ++ firstn matchlen key) (skipn matchlen key) value in
                Ret (Ok (if dirty then (true, shortNode nkey nn newFlag) else (false, n)))
              else
                let branch := repeat nilNode 17 in
                let! i := index nkey (Z.of_nat matchlen) in
                let? (_, c) := insert fuel nilNode (prefix ++ firstn (S matchlen) nkey) (skipn (S matchlen) nkey) nval in
                let! _ := index branch i in
                let branch := set_child branch (Z.to_nat i) c in
                let! j := index key (Z.of_nat matchlen) in
                let? (_, c) := insert fuel nilNode (prefix ++ firstn (S matchlen) key) (skipn (S matchlen) key) value in
                let! _ := index branch j in
                let branch := fullNode (set_child branch (Z.to_nat j) c) newFlag in
                if (matchlen =? 0)%nat then Ret (Ok (true, branch))
                else Ret (Ok (true, shortNode (firstn matchlen key) branch newFlag))
          | fullNode clds _ =>
              let! c := index clds k0 in
              let? (dirty, nn) := insert fuel c (prefix ++ [k0]) ktail value in
              Ret (Ok (if dirty then (true, fullNode (set_child clds (Z.to_nat k0) nn) newFlag) else (false, n)))
          | nilNode => Ret (Ok (true, shortNode key value newFlag))
          | hashNode h =>
              let? rn := resolveHash h prefix in
              let? (dirty, nn) := insert fuel rn prefix key value in
              Ret (Ok (if dirty then (true, nn) else (false, rn)))
          | valueNode _ => Panic
          end
      end
  end.

Definition is_nil (n : node) : bool := match n with nilNode => true | _ => false end.

(** The loop over the children: -1 when none is left, -2 when two are. *)
Fixpoint single_child (clds : list node) (i pos : Z) : Z :=
  match clds with
  | [] => pos
  | c :: clds =>
      if is_nil c then single_child clds (i + 1) pos
      else if pos =? -1 then single_child clds (i + 1) i
      else -2
  end.

Fixpoint delete (fuel : nat) (n : node) (prefix key : list Z) : outcome (result (bool * node) trieErr) :=
  match fuel with
  | O => Panic
  | S fuel =>
      match n with
      | shortNode nkey nval _ =>
          let matchlen := prefixLen key nkey in
          if (matchlen <? length nkey)%nat then Ret (Ok (false, n))
          else if (matchlen =? length key)%nat then Ret (Ok (true, nilNode))
          else
            let? (dirty, child) := delete fuel nval (prefix ++ firstn (length nkey) key) (skipn (length nkey) key) in
            if dirty then
              match child with
              | shortNode ckey cval _ => Ret (Ok (true, shortNode (nkey ++ ckey) cval newFlag))
              | _ => Ret (Ok (true, shortNode nkey child newFlag))
              end
            else Ret (Ok (false, n))
      | fullNode clds _ =>
          let! k0 := index key 0 in
          let! c := index clds k0 in
          let? (dirty, nn) := delete fuel c (prefix ++ [k0]) (tl key) in
          if dirty then
            let clds := set_child clds (Z.to_nat k0) nn in
            let pos := single_child clds 0 (-1) in
            if pos >=? 0 then
              let! last := index clds pos in
              let short := shortNode [pos] last newFlag in
              if pos =? 16 then Ret (Ok (true, short))
              else
                let? cnode := resolve last prefix in
                match cnode with
                | shortNode ckey cval _ => Ret (Ok (true, shortNode (pos :: ckey) cval newFlag))
                | _ => Ret (Ok (true, short))
                end
            else Ret (Ok (true, fullNode clds newFlag))
          else Ret (Ok (false, n))
      | valueNode _ => Ret (Ok (true, nilNode))
      | nilNode => Ret (Ok (false, nilNode))
      | hashNode h =>
          let? rn := resolveHash h prefix in
          let? (dirty, nn) := delete fuel rn prefix key in
          Ret (Ok (if dirty then (true, nn) else (false, rn)))
      end
  end.

(** ** The methods: the root, and the result *)

Definition depth (key : list Z) : nat := 2 * length key + 2.

Definition trie_TryGet (root : node) (key : list Z) : outcome (node * result (list Z) trieErr) :=
  let key := keybytesToHex key in
  let! r := tryGet (depth key) root [] key in
  match r with
  | Ok (value, newroot, didResolve) => Ret (if didResolve then newroot else root, Ok value)
  | Err e => Ret (root, Err e)
  end.

Definition trie_TryUpdate (root : node) (key value : list Z) : outcome (node * option trieErr) :=
  let k := keybytesToHex key in
  let! r := (if negb (len value =? 0) then insert (depth k) root [] k (valueNode value) else delete (depth k) root [] k) in
  match r with
  | Ok (_, n) => Ret (n, None)
  | Err e => Ret (root, Some e)
  end.

Definition trie_TryDelete (root : node) (key : list Z) : outcome (node * option trieErr) :=
  let k := keybytesToHex key in
  let! r := delete (depth k) root [] k in
  match r with
  | Ok (_, n) => Ret (n, None)
  | Err e => Ret (root, Some e)
  end.
End ops.
