(* ===== verification/TrieHash.v ===== *)
(** * Package [trie]: hashing and committing

    [trie/hasher.go] and the methods of [trie/trie.go] that use it.  The hash
    function and the writer of a database are parameters; a nil writer, for
    hashing only, is [None].  The pool of hashers and the counters are not
    modelled. *)

From Stdlib Require Import ZArith List Lia Bool.
From S2P Require Import Prelude GoBig CommonTypes Rlp TrieNode TrieOps.
Import ListNotations.
Local Open Scope Z_scope.

(** What [rlp.Encode] is given: the exported fields of a short node, the children
    of a full one; a nil node is an empty list. *)
Fixpoint node_val (n : node) : val :=
  match n with
  | nilNode => VNil
  | fullNode clds _ => VList (map node_val clds)
  | shortNode k v _ => VList [VBytes k; node_val v]
  | hashNode h => VBytes h
  | valueNode v => VBytes v
  end.

Section hasher.
Variable Keccak256 : list Z -> list Z.
Context {W E : Type}.
Variable Put : W -> list Z -> list Z -> W * option E.
Variables cachegen cachelimit : Z.

(** [rlp.Encode] into a buffer; an error of it is a panic of [store]. *)
Definition store (n : node) (db : option W) (force : bool) : outcome (option W * result node E) :=
  match n with
  | hashNode _ | nilNode => Ret (db, Ok n)
  | _ =>
      let! r := EncodeToBytes (node_val n) in
      match r with
      | Err _ => Panic
      | Ok tmp =>
          if (len tmp <? 32) && negb force then Ret (db, Ok n)
          else
            let hash := match fst (cache n) with Some h => h | None => Keccak256 tmp end in
            match db with
            | None => Ret (db, Ok (hashNode hash))
            | Some w =>
                let '(w, err) := Put w hash tmp in
                Ret (Some w, match err with None => Ok (hashNode hash) | Some e => Err e end)
            end
      end
  end.

(** The assignments to the flags of the cached node. *)
Definition set_cache (n : node) (h : option (list Z)) (written : bool) : node :=
  let flag (f : nodeFlag) := mkFlag h (flag_gen f) (if written then false else flag_dirty f) in
  match n with
  | shortNode k v flags => shortNode k v (flag flags)
  | fullNode clds flags => fullNode clds (flag flags)
  | _ => n
  end.

Definition hash_of (n : node) : option (list Z) := match n with hashNode h => Some h | _ => None end.
Definition not_nil (n : node) : node := match n with nilNode => valueNode [] | _ => n end.

(** What [hash] returns at once for a node with a cached hash. *)
Definition cached_result (n : node) (db : option W) : option (node * node) :=
  let '(h, dirty) := cache n in
  match h with
  | None => None
  | Some h =>
      match db with
      | None => Some (hashNode h, n)
      | Some _ =>
          if canUnload n cachegen cachelimit then Some (hashNode h, hashNode h)
          else if negb dirty then Some (hashNode h, n)
          else None
      end
  end.

(** After [hashChildren]: storing the collapsed node, and the flags of the cached one. *)
Definition finish_hash (collapsed cached : node) (db : option W) (force : bool) : outcome (option W * result (node * node) E) :=
  let! x := store collapsed db force in
  let '(db, r) := x in
  match r with
  | Err e => Ret (db, Err e)
  | Ok hashed => Ret (db, Ok (hashed, set_cache cached (hash_of hashed) (match db with Some _ => true | None => false end)))
  end.

(** The loop over the children of a full node, [hsh] being [hash]: the last child is left. *)
Definition hash_children (hsh : node -> option W -> bool -> outcome (option W * result (node * node) E)) :
    nat -> list node -> option W -> outcome (option W * result (list node * list node) E) :=
  fix children (i : nat) (clds : list node) (db : option W) : outcome (option W * result (list node * list node) E) :=
    match clds with
    | [] => Ret (db, Ok ([], []))
    | c :: clds =>
        let! x := (if (i <? 16)%nat && negb (is_nil c) then hsh c db false else Ret (db, Ok (not_nil c, c))) in
        let '(db, r) := x in
        match r with
        | Err e => Ret (db, Err e)
        | Ok (cc, kc) =>
            let! x := children (S i) clds db in
            let '(db, r) := x in
            Ret (db, match r with Err e => Err e | Ok (ccs, kcs) => Ok (cc :: ccs, kc :: kcs) end)
        end
    end.

(** [hash] and [hashChildren]; a method of a nil node panics. *)
Fixpoint hash (n : node) (db : option W) (force : bool) : outcome (option W * result (node * node) E) :=
  match cached_result n db with
  | Some r => Ret (db, Ok r)
  | None =>
      match n with
      | nilNode => Panic
      | shortNode key val flags =>
          let! ckey := hexToCompact key in
          let! x :=
            match val with
            | valueNode _ => Ret (db, Ok (val, val))
            | _ => hash val db false
            end in
          let '(db, r) := x in
          match r with
          | Err e => Ret (db, Err e)
          | Ok (cv, kv) => finish_hash (shortNode ckey (not_nil cv) flags) (shortNode key kv flags) db force
          end
      | fullNode clds flags =>
          let! x := hash_children hash O clds db in
          let '(db, r) := x in
          match r with
          | Err e => Ret (db, Err e)
          | Ok (ccs, kcs) => finish_hash (fullNode ccs flags) (fullNode kcs flags) db force
          end
      | _ => finish_hash n n db force
      end
  end.

(** ** The methods of the trie *)

Definition emptyRoot : Hash := 0x56e81f171bcc55a6ff8345e692c0f86e5b48e01b996cadc001622fb5e363b421.

Definition hashRoot (root : node) (db : option W) : outcome (option W * result (node * node) E) :=
  match root with
  | nilNode => Ret (db, Ok (hashNode (Hash_Bytes emptyRoot), nilNode))
  | _ => hash root db true
  end.

Definition trie_Commit (root : node) (w : W) : outcome (node * Z * W * result Hash E) :=
  let! x := hashRoot root (Some w) in
  match x with
  | (Some w, Ok (hashNode h, cached)) => Ret (cached, u16 (cachegen + 1), w, Ok (BytesToHash h))
  | (Some w, Err e) => Ret (root, cachegen, w, Err e)
  | _ => Panic
  end.

(** [New], for a database that is not nil. *)
Definition trie_New (Get : list Z -> option (list Z)) (root : Hash) : outcome (result node trieErr) :=
  if negb (root =? 0) && negb (root =? emptyRoot) then resolveHash Get 0 (Hash_Bytes root) [] else Ret (Ok nilNode).
End hasher.

(** [Hash] has no writer. *)
Definition no_writer (w : Empty_set) (k v : list Z) : Empty_set * option Empty_set := match w with end.

(** The new root and the hash; [hash.(hashNode)] panics for another node. *)
Definition trie_HashRoot (Keccak256 : list Z -> list Z) (cachegen cachelimit : Z) (root : node) : outcome (node * Hash) :=
  let! x := hashRoot Keccak256 no_writer cachegen cachelimit root None in
  match snd x with
  | Ok (hashNode h, cached) => Ret (cached, BytesToHash h)
  | Ok _ => Panic
  | Err _ => Ret (root, BytesToHash [])
  end.
