(* ===== verification/TrieSecure.v ===== *)
(** * Package [trie]: secure tries

    [trie/secure_trie.go]: a trie whose keys are hashed, with a cache of the keys.
    The cache belongs to the trie that made it: [sec_owned] is whether
    [secKeyCacheOwner] is the trie itself, which it is not for a copy. *)

From Stdlib Require Import ZArith List Lia Bool.
From S2P Require Import Prelude GoBig CommonTypes Rlp TrieNode TrieOps TrieHash.
Import ListNotations.
Local Open Scope Z_scope.

Record SecureTrie : Type := mkSecure {
  sec_root : node;
  sec_cachegen : Z;
  secKeyCache : list (list Z * list Z);
  sec_owned : bool }.

Definition set_sec_root (t : SecureTrie) (root : node) : SecureTrie := mkSecure root (sec_cachegen t) (secKeyCache t) (sec_owned t).
Definition set_sec_cache (t : SecureTrie) (c : list (list Z * list Z)) : SecureTrie := mkSecure (sec_root t) (sec_cachegen t) c true.

(** The prefix ["secure-key-"]. *)
Definition secureKeyPrefix : list Z := [115; 101; 99; 117; 114; 101; 45; 107; 101; 121; 45].
Definition secKey (key : list Z) : list Z := secureKeyPrefix ++ key.

Definition cache_delete (c : list (list Z * list Z)) (k : list Z) : list (list Z * list Z) := filter (fun kv => negb (bytes_Equal (fst kv) k)) c.
Definition cache_set (c : list (list Z * list Z)) (k v : list Z) : list (list Z * list Z) := (k, v) :: cache_delete c k.
Definition cache_get (c : list (list Z * list Z)) (k : list Z) : option (list Z) := option_map snd (find (fun kv => bytes_Equal (fst kv) k) c).

(** The trie that owns its cache. *)
Definition getSecKeyCache (t : SecureTrie) : SecureTrie := if sec_owned t then t else set_sec_cache t [].

Section secure.
Variable Keccak256 : list Z -> list Z.
Variable Get : list Z -> option (list Z).

Definition hashKey (key : list Z) : list Z := Keccak256 key.

Definition NewSecure (root : Hash) : outcome (result SecureTrie trieErr) :=
  let? n := trie_New Get root in
  Ret (Ok (mkSecure n 0 [] false)).

Definition secure_TryGet (t : SecureTrie) (key : list Z) : outcome (SecureTrie * result (list Z) trieErr) :=
  let! x := trie_TryGet Get (sec_cachegen t) (sec_root t) (hashKey key) in
  Ret (set_sec_root t (fst x), snd x).

Definition secure_TryUpdate (t : SecureTrie) (key value : list Z) : outcome (SecureTrie * option trieErr) :=
  let hk := hashKey key in
  let! x := trie_TryUpdate Get (sec_cachegen t) (sec_root t) hk value in
  let t := set_sec_root t (fst x) in
  match snd x with
  | Some e => Ret (t, Some e)
  | None =>
      let t := getSecKeyCache t in
      Ret (set_sec_cache t (cache_set (secKeyCache t) hk key), None)
  end.

Definition secure_TryDelete (t : SecureTrie) (key : list Z) : outcome (SecureTrie * option trieErr) :=
  let hk := hashKey key in
  let t := getSecKeyCache t in
  let t := set_sec_cache t (cache_delete (secKeyCache t) hk) in
  let! x := trie_TryDelete Get (sec_cachegen t) (sec_root t) hk in
  Ret (set_sec_root t (fst x), snd x).

(** The preimage of a hashed key; one that is nowhere is nil. *)
Definition GetKey (t : SecureTrie) (shaKey : list Z) : SecureTrie * list Z :=
  let t := getSecKeyCache t in
  match cache_get (secKeyCache t) shaKey with
  | Some key => (t, key)
  | None => (t, match Get (secKey shaKey) with Some key => key | None => [] end)
  end.

Definition secure_Hash (cachelimit : Z) (t : SecureTrie) : outcome (SecureTrie * Hash) :=
  let! x := trie_HashRoot Keccak256 (sec_cachegen t) cachelimit (sec_root t) in
  Ret (set_sec_root t (fst x), snd x).

Definition secure_Copy (t : SecureTrie) : SecureTrie := mkSecure (sec_root t) (sec_cachegen t) (secKeyCache t) false.

Section commit.
Context {W E : Type}.
Variable Put : W -> list Z -> list Z -> W * option E.
Variable cachelimit : Z.

(** The keys, in an order that Go does not define. *)
Fixpoint put_keys (c : list (list Z * list Z)) (w : W) : W * option E :=
  match c with
  | [] => (w, None)
  | (hk, key) :: c =>
      match Put w (secKey hk) key with
      | (w, Some e) => (w, Some e)
      | (w, None) => put_keys c w
      end
  end.

Definition secure_CommitTo (t : SecureTrie) (w : W) : outcome (SecureTrie * W * result Hash E) :=
  let t := getSecKeyCache t in
  match put_keys (secKeyCache t) w with
  | (w, Some e) => Ret (t, w, Err e)
  | (w, None) =>
      let! x := trie_Commit Keccak256 Put (sec_cachegen t) cachelimit (sec_root t) w in
      let '(root, gen, w, r) := x in
      Ret (mkSecure root gen [] true, w, r)
  end.
End commit.
End secure.
