(* ===== verification/TrieSpec.v ===== *)
(** * Tries without hashes, and the maps they are

    The trie as it is when every node is loaded: what it maps each key to, the
    form that the operations keep it in, and that a map has one such form. *)

From Stdlib Require Import ZArith List Lia Bool.
From S2P Require Import Prelude.
Import ListNotations.
Local Open Scope Z_scope.

Inductive ptrie : Type :=
| PNil
| PVal (v : list Z)
| PShort (k : list Z) (p : ptrie)
| PFull (ps : list ptrie).

Lemma ptrie_children_ind (P : ptrie -> Prop) : P PNil -> (forall v, P (PVal v)) -> (forall k p, P p -> P (PShort k p)) ->
  (forall ps, Forall P ps -> P (PFull ps)) -> forall p, P p.
Proof.
  intros H1 H2 H3 H4. fix IH 1. intros [|v|k p|ps]; [exact H1|apply H2|apply H3, IH|]. apply H4. induction ps as [|p ps IHps]; constructor; [apply IH|exact IHps].
Qed.

(** ** Keys *)

Definition nibble (x : Z) : Prop := 0 <= x < 16.

(** Nibbles and the terminator. *)
Inductive hexkey : list Z -> Prop :=
| hk_end : hexkey [16]
| hk_cons x k : nibble x -> hexkey k -> hexkey (x :: k).

Lemma hexkey_app k k' : Forall nibble k -> hexkey k' -> hexkey (k ++ k').
Proof. induction 1 as [|x k Hx Hk IH]; intros Hk2; [exact Hk2|]. constructor; auto. Qed.

Lemma hexkey_split k k' : hexkey (k ++ k') -> k' <> [] -> Forall nibble k /\ hexkey k'.
Proof.
  revert k'. induction k as [|x k IH]; intros k' H N; [auto|]. inversion H as [E|y l Hx Hk E]; subst.
  - destruct k; [destruct k'; [contradiction|discriminate]|discriminate].
  - destruct (IH k' Hk N). auto.
Qed.

Lemma hexkey_not_nil k : hexkey k -> k <> [].
Proof. intros H ->. inversion H. Qed.

(** No key is a proper prefix of another. *)
Lemma hexkey_prefix k j r : hexkey k -> hexkey j -> j = k ++ r -> r = [].
Proof.
  intros Hk. revert j. induction Hk as [|x k Hx Hk IH]; intros j Hj E; subst; inversion Hj as [E1|y l Hy Hl E1]; subst; auto.
  - unfold nibble in Hy. lia.
  - unfold nibble in Hx. lia.
  - exact (IH _ Hl eq_refl).
Qed.

(** [key] without its prefix [k]. *)
Fixpoint strip (k key : list Z) : option (list Z) :=
  match k, key with
  | [], _ => Some key
  | a :: k, b :: key => if a =? b then strip k key else None
  | _ :: _, [] => None
  end.

Lemma strip_spec k key r : strip k key = Some r <-> key = k ++ r.
Proof.
  revert key. induction k as [|a k IH]; intros [|b key]; cbn; try (split; [intros [= <-]|intros <-]; reflexivity); try (split; discriminate).
  destruct (Z.eqb_spec a b) as [->|N]; [rewrite IH; split; [intros ->; reflexivity|intros [= ->]; reflexivity]|].
  split; [discriminate|intros [= <- _]; contradiction].
Qed.

Lemma strip_app k r : strip k (k ++ r) = Some r.
Proof. apply strip_spec. reflexivity. Qed.

Lemma strip_none k key : strip k key = None <-> forall r, key <> k ++ r.
Proof.
  split; [intros H r E; apply strip_spec in E; congruence|]. intros H. destruct (strip k key) as [r|] eqn:E; [|reflexivity].
  apply strip_spec in E. destruct (H r E).
Qed.

(** ** The map of a trie *)

Fixpoint plookup (p : ptrie) (key : list Z) : option (list Z) :=
  match p with
  | PNil => None
  | PVal v => match key with [] => Some v | _ => None end
  | PShort k q => match strip k key with Some rest => plookup q rest | None => None end
  | PFull ps =>
      match key with
      | [] => None
      | x :: rest =>
          (fix child (ps : list ptrie) (i : nat) : option (list Z) :=
             match ps, i with
             | [], _ => None
             | q :: _, O => plookup q rest
             | _ :: ps, S i => child ps i
             end) ps (Z.to_nat x)
      end
  end.

Definition child (ps : list ptrie) (x : Z) : ptrie := nth (Z.to_nat x) ps PNil.

Lemma plookup_full ps x rest : plookup (PFull ps) (x :: rest) = plookup (child ps x) rest.
Proof.
  unfold child. cbn [plookup]. generalize (Z.to_nat x). induction ps as [|q ps IH]; intros [|n]; try reflexivity. cbn. apply IH.
Qed.

Lemma plookup_short k q rest : plookup (PShort k q) (k ++ rest) = plookup q rest.
Proof. cbn. rewrite strip_app. reflexivity. Qed.

Lemma plookup_short_key k q key v : plookup (PShort k q) key = Some v -> exists rest, key = k ++ rest /\ plookup q rest = Some v.
Proof. cbn. destruct (strip k key) as [rest|] eqn:E; [|discriminate]. apply strip_spec in E. eauto. Qed.

(** ** The form *)

Definition value_form (c : ptrie) : Prop := c = PNil \/ exists v, c = PVal v /\ v <> [].
Definition count (ps : list ptrie) : nat := length (filter (fun c => match c with PNil => false | _ => true end) ps).

Definition all_children (F : ptrie -> Prop) : nat -> list ptrie -> Prop :=
  fix all (i : nat) (ps : list ptrie) : Prop :=
    match ps with
    | [] => True
    | c :: ps => (if (i =? 16)%nat then value_form c else c = PNil \/ F c) /\ all (S i) ps
    end.

(** A short node has a value under a whole key, or a full node; a full node has two
    entries at least, and its last one is a value. *)
Fixpoint wft (p : ptrie) : Prop :=
  match p with
  | PNil | PVal _ => False
  | PShort k q =>
      match q with
      | PVal v => hexkey k /\ v <> []
      | PFull _ => k <> [] /\ Forall nibble k /\ wft q
      | _ => False
      end
  | PFull ps =>
      length ps = 17%nat /\ (2 <= count ps)%nat /\
      all_children wft O ps
  end.
Definition wf (p : ptrie) : Prop := p = PNil \/ wft p.

Definition child_form (x : Z) (c : ptrie) : Prop := if x =? 16 then value_form c else wf c.

Lemma wft_full ps : wft (PFull ps) <-> length ps = 17%nat /\ (2 <= count ps)%nat /\ forall x, 0 <= x <= 16 -> child_form x (child ps x).
Proof.
  cbn [wft].
  assert (Hall : forall ps i, all_children wft i ps <-> forall n, (n < length ps)%nat -> if (i + n =? 16)%nat then value_form (nth n ps PNil) else wf (nth n ps PNil)).
  { clear ps. induction ps as [|c ps IH]; intros i; cbn [all_children length].
    - split; [intros _ n Hn; lia|auto].
    - rewrite IH. split.
      + intros [Hc Hr] [|n] Hn; [rewrite Nat.add_0_r; exact Hc|]. specialize (Hr n ltac:(lia)). replace (i + S n)%nat with (S i + n)%nat by lia. exact Hr.
      + intros H. split; [specialize (H O ltac:(lia)); rewrite Nat.add_0_r in H; exact H|]. intros n Hn. specialize (H (S n) ltac:(lia)).
        replace (S i + n)%nat with (i + S n)%nat by lia. exact H. }
  rewrite Hall. cbn [Nat.add]. unfold child_form, child. split; intros (H1 & H2 & H3); (split; [exact H1|]); (split; [exact H2|]).
  - intros x Hx. specialize (H3 (Z.to_nat x) ltac:(lia)). destruct (Nat.eqb_spec (Z.to_nat x) 16), (Z.eqb_spec x 16); try lia; exact H3.
  - intros n Hn. specialize (H3 (Z.of_nat n) ltac:(lia)). rewrite Nat2Z.id in H3.
    destruct (Nat.eqb_spec n 16), (Z.eqb_spec (Z.of_nat n) 16); try lia; exact H3.
Qed.

Lemma value_form_lookup c v : value_form c -> plookup c [] = Some v <-> c = PVal v.
Proof. intros [->|(w & -> & _)]; cbn; split; try discriminate; intros [= <-]; reflexivity. Qed.

(** The suffixes of keys that a child is asked for. *)
Definition rest_of (x : Z) (r : list Z) : Prop := if x =? 16 then r = [] else hexkey r.
Lemma hexkey_cons x r : hexkey (x :: r) <-> 0 <= x <= 16 /\ rest_of x r.
Proof.
  unfold rest_of. split.
  - intros H. inversion H as [E|y l Hx Hk E]; subst; [split; [lia|reflexivity]|]. unfold nibble in Hx. destruct (Z.eqb_spec x 16); [lia|]. split; [lia|exact Hk].
  - intros [Hx Hr]. destruct (Z.eqb_spec x 16) as [->|N]; [subst r; constructor|constructor; [unfold nibble; lia|exact Hr]].
Qed.

(** ** A map has one form *)

Lemma count_one ps : (1 <= count ps)%nat -> exists i, (i < length ps)%nat /\ nth i ps PNil <> PNil.
Proof.
  induction ps as [|c ps IH]; cbn; [lia|]. intros H. destruct c; try (exists O; split; [cbn; lia|discriminate]).
  destruct (IH H) as (i & Hi & N). exists (S i). split; [cbn; lia|exact N].
Qed.

Lemma count_two ps : (2 <= count ps)%nat -> exists i j, (i < j < length ps)%nat /\ nth i ps PNil <> PNil /\ nth j ps PNil <> PNil.
Proof.
  induction ps as [|c ps IH]; [cbn; lia|]. intros H.
  assert (Hc : c = PNil \/ c <> PNil) by (destruct c; [left; reflexivity|right; discriminate..]). destruct Hc as [->|N].
  - destruct (IH H) as (i & j & Hij & Ni & Nj). exists (S i), (S j). split; [cbn; lia|auto].
  - assert (H1 : (1 <= count ps)%nat) by (destruct c; [contradiction|unfold count in *; cbn in H; lia..]). destruct (count_one ps H1) as (j & Hj & Nj).
    exists O, (S j). split; [cbn; lia|auto].
Qed.

Lemma child_key x c : 0 <= x <= 16 -> child_form x c -> c <> PNil -> (wft c -> exists key v, hexkey key /\ plookup c key = Some v) ->
  exists r v, hexkey (x :: r) /\ plookup c r = Some v.
Proof.
  unfold child_form. intros Hx Hc N Hk. destruct (Z.eqb_spec x 16) as [->|N16].
  - destruct Hc as [->|(v & -> & _)]; [contradiction|]. exists [], v. split; [constructor|reflexivity].
  - destruct Hc as [->|Hc]; [contradiction|]. destruct (Hk Hc) as (key & v & H1 & H2). exists key, v. split; [constructor; [unfold nibble; lia|exact H1]|exact H2].
Qed.

Lemma wft_has_key p : wft p -> exists key v, hexkey key /\ plookup p key = Some v.
Proof.
  induction p as [|v|k p IH|ps IH] using ptrie_children_ind; try contradiction.
  - destruct p as [|v| |ps]; try contradiction.
    + intros [Hk _]. exists k, v. split; [exact Hk|]. rewrite <- (app_nil_r k) at 2. apply plookup_short.
    + intros (Hn & Hk & Hp). destruct (IH Hp) as (key & v & H1 & H2). exists (k ++ key), v. split; [apply hexkey_app; assumption|].
      rewrite plookup_short. exact H2.
  - intros H. apply wft_full in H. destruct H as (Hl & Hc & Hf). destruct (count_one ps ltac:(lia)) as (i & Hi & Ni).
    destruct (child_key (Z.of_nat i) (child ps (Z.of_nat i)) ltac:(lia) (Hf (Z.of_nat i) ltac:(lia))) as (r & v & H1 & H2).
    + unfold child. rewrite Nat2Z.id. exact Ni.
    + unfold child. rewrite Nat2Z.id. rewrite Forall_forall in IH. apply IH, nth_In. lia.
    + exists (Z.of_nat i :: r), v. split; [exact H1|]. rewrite plookup_full. exact H2.
Qed.

(** A full node has keys that differ in the first nibble. *)
Lemma full_two_keys ps : wft (PFull ps) -> exists x r v y q w, x <> y /\ hexkey (x :: r) /\ plookup (PFull ps) (x :: r) = Some v /\
  hexkey (y :: q) /\ plookup (PFull ps) (y :: q) = Some w.
Proof.
  intros H. pose proof H as Hw. apply wft_full in H. destruct H as (Hl & Hc & Hf). destruct (count_two ps Hc) as (i & j & Hij & Ni & Nj).
  assert (Hk : forall n, (n < 17)%nat -> nth n ps PNil <> PNil -> exists r v, hexkey (Z.of_nat n :: r) /\ plookup (PFull ps) (Z.of_nat n :: r) = Some v).
  { intros n Hn N. destruct (child_key (Z.of_nat n) (child ps (Z.of_nat n)) ltac:(lia) (Hf (Z.of_nat n) ltac:(lia))) as (r & v & H1 & H2).
    - unfold child. rewrite Nat2Z.id. exact N.
    - apply wft_has_key.
    - exists r, v. rewrite plookup_full. auto. }
  destruct (Hk i ltac:(lia) Ni) as (r & v & H1 & H2), (Hk j ltac:(lia) Nj) as (q & w & H3 & H4).
  exists (Z.of_nat i), r, v, (Z.of_nat j), q, w. split; [lia|auto].
Qed.

Definition same_map (p q : ptrie) : Prop := forall key, hexkey key -> plookup p key = plookup q key.

Lemma same_map_sym p q : same_map p q -> same_map q p.
Proof. intros H key Hk. symmetry. auto. Qed.

(** A trie whose keys all begin alike is no full node. *)
Lemma full_not_short ps k q : wft (PFull ps) -> k <> [] -> ~ same_map (PFull ps) (PShort k q).
Proof.
  intros Hw Hk Hs. destruct (full_two_keys ps Hw) as (x & r & v & y & s & w & N & Hx & Ex & Hy & Ey). destruct k as [|a k]; [contradiction|].
  rewrite (Hs _ Hx) in Ex. rewrite (Hs _ Hy) in Ey. apply plookup_short_key in Ex, Ey.
  destruct Ex as (? & [= -> _] & _), Ey as (? & [= -> _] & _). contradiction.
Qed.

Lemma leaf_not_ext k v j ps : wft (PShort j (PFull ps)) -> ~ same_map (PShort k (PVal v)) (PShort j (PFull ps)).
Proof.
  intros (Hn & Hj & Hw) Hs. destruct (full_two_keys ps Hw) as (x & r & v1 & y & s & w & N & Hx & Ex & Hy & Ey).
  assert (Hk : forall key u, hexkey key -> plookup (PFull ps) key = Some u -> j ++ key = k).
  { intros key u Hkey E. rewrite <- (plookup_short j) in E. rewrite <- (Hs (j ++ key)) in E by (apply hexkey_app; assumption).
    apply plookup_short_key in E. destruct E as (rest & E1 & E2). destruct rest; [|discriminate]. rewrite app_nil_r in E1. exact E1. }
  pose proof (Hk _ _ Hx Ex) as E1. pose proof (Hk _ _ Hy Ey) as E2. rewrite <- E2 in E1. apply app_inv_head in E1. congruence.
Qed.

(** The common part of the keys of an extension is its key. *)
Lemma ext_prefix k ps j qs : wft (PShort k (PFull ps)) -> wft (PShort j (PFull qs)) -> same_map (PShort k (PFull ps)) (PShort j (PFull qs)) ->
  (length k <= length j)%nat -> k = j.
Proof.
  intros (Nk & Hk & Hp) (Nj & Hj & Hq) Hs Hl. destruct (full_two_keys ps Hp) as (x & r & v1 & y & s & w & N & Hx & Ex & Hy & Ey).
  assert (Hpre : forall key u, hexkey key -> plookup (PFull ps) key = Some u -> exists rest, k ++ key = j ++ rest).
  { intros key u Hkey E. rewrite <- (plookup_short k) in E. rewrite (Hs (k ++ key)) in E by (apply hexkey_app; assumption).
    apply plookup_short_key in E. destruct E as (rest & E1 & _). eauto. }
  destruct (Hpre _ _ Hx Ex) as (r1 & E1), (Hpre _ _ Hy Ey) as (r2 & E2).
  destruct (app_eq_app k (x :: r) j r1 E1) as (l & [[-> E]|[-> E]]); [destruct l; [rewrite app_nil_r; reflexivity|rewrite length_app in Hl; cbn in Hl; lia]|].
  destruct l as [|a l]; [rewrite app_nil_r; reflexivity|]. injection E as -> _. rewrite <- app_assoc in E2. apply app_inv_head in E2. injection E2 as -> _. contradiction.
Qed.

Lemma same_child ps qs x : wft (PFull ps) -> wft (PFull qs) -> same_map (PFull ps) (PFull qs) -> 0 <= x <= 16 -> x <> 16 -> same_map (child ps x) (child qs x).
Proof.
  intros Hp Hq Hs Hx N key Hk. rewrite <- !plookup_full. apply Hs. constructor; [unfold nibble; lia|exact Hk].
Qed.

(** A trie in the form is determined by its map. *)
Lemma wft_unique p : forall q, wft p -> wft q -> same_map p q -> p = q.
Proof.
  induction p as [|v|k p IH|ps IH] using ptrie_children_ind; intros q Hp Hq Hs; try contradiction.
  - destruct p as [|v| |ps]; try contradiction.
    + destruct q as [| |j [|w| |qs]|qs]; try contradiction.
      * destruct Hp as [Hk Nv], Hq as [Hj Nw]. pose proof (plookup_short k (PVal v) []) as E. rewrite app_nil_r, (Hs k Hk) in E.
        change (plookup (PVal v) []) with (Some v) in E. apply plookup_short_key in E. destruct E as ([|] & E1 & E2); [|discriminate]. injection E2 as ->. rewrite app_nil_r in E1. subst j. reflexivity.
      * destruct (leaf_not_ext k v j qs Hq Hs).
      * destruct (full_not_short qs k (PVal v) Hq (hexkey_not_nil k (proj1 Hp)) (same_map_sym _ _ Hs)).
    + destruct q as [| |j [|w| |qs]|qs]; try contradiction.
      * destruct (leaf_not_ext j w k ps Hp (same_map_sym _ _ Hs)).
      * assert (k = j) as <-.
        { destruct (Nat.le_ge_cases (length k) (length j)) as [L|L]; [apply (ext_prefix k ps j qs); assumption|].
          symmetry. apply (ext_prefix j qs k ps); auto. apply same_map_sym, Hs. }
        f_equal. destruct Hp as (Nk & Hk & Hp), Hq as (_ & _ & Hq). apply IH; auto. intros key Hkey. rewrite <- (plookup_short k (PFull ps) key), <- (plookup_short k (PFull qs) key). apply Hs, hexkey_app; assumption.
      * destruct (full_not_short qs k _ Hq (proj1 Hp) (same_map_sym _ _ Hs)).
  - destruct q as [| |j q|qs]; try contradiction.
    + destruct (full_not_short ps j q Hp); [|exact Hs]. destruct q; try contradiction; [apply hexkey_not_nil, Hq|apply Hq].
    + f_equal. pose proof Hp as Hp'. pose proof Hq as Hq'. apply wft_full in Hp', Hq'. destruct Hp' as (Lp & _ & Fp), Hq' as (Lq & _ & Fq).
      apply (nth_ext ps qs PNil PNil); [congruence|]. intros n Hn. specialize (Fp (Z.of_nat n) ltac:(lia)). specialize (Fq (Z.of_nat n) ltac:(lia)).
      pose proof (same_child ps qs (Z.of_nat n) Hp Hq Hs ltac:(lia)) as Hsc. assert (H16 : n = 16%nat -> plookup (child ps 16) [] = plookup (child qs 16) []).
      { intros _. rewrite <- !plookup_full. apply Hs. constructor. }
      unfold child_form, child in *. rewrite Nat2Z.id in *. destruct (Z.eqb_spec (Z.of_nat n) 16) as [E16|N16].
      * assert (n = 16%nat) as -> by lia. specialize (H16 eq_refl). change (Z.to_nat 16) with 16%nat in H16.
        destruct Fp as [Ep|(v & Ep & _)], Fq as [Eq|(w & Eq & _)]; rewrite Ep, Eq in *; cbn in H16; congruence.
      * specialize (Hsc N16). destruct Fp as [Ep|Fp], Fq as [Eq|Fq].
        -- congruence.
        -- rewrite Ep in Hsc. destruct (wft_has_key _ Fq) as (key & v & Hk & E). rewrite <- (Hsc key Hk) in E. discriminate.
        -- rewrite Eq in Hsc. destruct (wft_has_key _ Fp) as (key & v & Hk & E). rewrite (Hsc key Hk) in E. discriminate.
        -- rewrite Forall_forall in IH. apply IH; auto. apply nth_In. lia.
Qed.

Lemma wf_unique p q : wf p -> wf q -> same_map p q -> p = q.
Proof.
  intros [->|Hp] [->|Hq] Hs; auto using wft_unique.
  - destruct (wft_has_key q Hq) as (key & v & Hk & E). rewrite <- (Hs key Hk) in E. discriminate.
  - destruct (wft_has_key p Hp) as (key & v & Hk & E). rewrite (Hs key Hk) in E. discriminate.
Qed.
