(* ===== verification/TrieRefine.v ===== *)
(** * Theorems: a trie is a map

    A node stands for the trie that one gets by loading every hash from the
    database.  Looking up, inserting and deleting on nodes are those operations on
    the map of that trie, and keep it in its form. *)

From Stdlib Require Import ZArith List Lia Bool.
From S2P Require Import Prelude GoBig ByteBuf CommonTypes Rlp TrieNode TrieOps TrieSpec.
Import ListNotations.
Local Open Scope Z_scope.

(** ** Lists of children *)

Lemma set_child_length {A : Type} (l : list A) i a : length (set_child l i a) = length l.
Proof. revert i. induction l as [|x l IH]; intros [|i]; cbn; auto. Qed.

Lemma set_nth_nth {A : Type} (l : list A) i a k d : (i < length l)%nat -> nth k (set_child l i a) d = if (k =? i)%nat then a else nth k l d.
Proof.
  revert i k. induction l as [|x l IH]; intros [|i] [|k] Hi; cbn in *; try lia; auto. apply IH. lia.
Qed.

Lemma child_set ps x c y : 0 <= x < len ps -> 0 <= y -> child (set_child ps (Z.to_nat x) c) y = if y =? x then c else child ps y.
Proof.
  intros Hx Hy. unfold child, len in *. rewrite set_nth_nth by lia. destruct (Nat.eqb_spec (Z.to_nat y) (Z.to_nat x)), (Z.eqb_spec y x); try lia; reflexivity.
Qed.

Definition is_pnil (p : ptrie) : bool := match p with PNil => true | _ => false end.

Lemma count_cons c ps : count (c :: ps) = ((if is_pnil c then 0 else 1) + count ps)%nat.
Proof. unfold count. destruct c; reflexivity. Qed.

Lemma count_set ps : forall i c, (i < length ps)%nat ->
  count (set_child ps i c) = (count ps + (if is_pnil c then 0 else 1) - (if is_pnil (nth i ps PNil) then 0 else 1))%nat.
Proof.
  induction ps as [|x ps IH]; intros [|i] c Hi; cbn [length set_child nth] in *; try lia; rewrite !count_cons.
  - destruct (is_pnil x), (is_pnil c); lia.
  - rewrite IH by lia. destruct (is_pnil (nth i ps PNil)) eqn:E; [lia|]. assert (1 <= count ps)%nat; [|lia]. clear -Hi E.
    revert i Hi E. induction ps as [|y ps IH]; intros [|i] Hi E; cbn [length nth] in *; try lia; rewrite count_cons; [rewrite E; lia|].
    specialize (IH i ltac:(lia) E). lia.
Qed.

(** ** Prefixes *)

Lemma prefixLen_app k r : prefixLen (k ++ r) k = length k.
Proof. induction k as [|x k IH]; [destruct r; reflexivity|]. cbn. rewrite Z.eqb_refl, IH. reflexivity. Qed.

(** Where two keys part. *)
Lemma prefixLen_cases key k :
  (exists r, key = k ++ r /\ prefixLen key k = length k) \/
  (prefixLen key k < length k /\ (forall r, key <> k ++ r) /\
   ((exists r, k = key ++ r /\ r <> []) \/
    exists pre a b ra rb, k = pre ++ a :: ra /\ key = pre ++ b :: rb /\ a <> b /\ prefixLen key k = length pre))%nat.
Proof.
  revert k. induction key as [|x key IH]; intros [|y k]; cbn.
  - left. exists []. auto.
  - right. split; [lia|]. split; [discriminate|]. left. exists (y :: k). split; [reflexivity|discriminate].
  - left. exists (x :: key). auto.
  - destruct (Z.eqb_spec x y) as [->|N].
    + destruct (IH k) as [(r & -> & E)|(L & Nr & H)]; [left; exists r; rewrite E; auto|right]. split; [lia|].
      split; [intros r [= E]; apply (Nr r E)|]. destruct H as [(r & -> & Hr)|(pre & a & b & ra & rb & -> & -> & Nab & E)]; [left; exists r; auto|right].
      exists (y :: pre), a, b, ra, rb. rewrite E. auto.
    + right. split; [lia|]. split; [intros r [= E _]; congruence|]. right. exists [], y, x, k, key. auto.
Qed.

Lemma firstn_pre {A : Type} (p r : list A) : firstn (length p) (p ++ r) = p.
Proof. rewrite firstn_app, firstn_all, Nat.sub_diag. apply app_nil_r. Qed.
Lemma skipn_pre {A : Type} (p r : list A) : skipn (length p) (p ++ r) = r.
Proof. rewrite skipn_app, skipn_all, Nat.sub_diag. reflexivity. Qed.
Lemma skipn_mid {A : Type} (p r : list A) x : skipn (S (length p)) (p ++ x :: r) = r.
Proof. induction p; [reflexivity|]. cbn. exact IHp. Qed.
Lemma index_mid {A : Type} (p r : list A) x : index (p ++ x :: r) (Z.of_nat (length p)) = Ret x.
Proof. unfold index. destruct (Z.leb_spec 0 (Z.of_nat (length p))); [|lia]. rewrite Nat2Z.id, nth_error_app2, Nat.sub_diag by lia. reflexivity. Qed.

(** Keys of nibbles. *)
Definition natkey (j : list Z) : Prop := Forall (fun x => 0 <= x) j.
Lemma hexkey_natkey j : hexkey j -> natkey j.
Proof. induction 1; constructor; try lia; auto. unfold nibble in *. lia. Qed.

(** A subtrie and the rest of a key that is asked of it. *)
Definition fits (p : ptrie) (key : list Z) : Prop := (wf p /\ hexkey key) \/ (value_form p /\ key = []).

Lemma child_fits ps x r : wft (PFull ps) -> hexkey (x :: r) -> 0 <= x < len ps /\ fits (child ps x) r.
Proof.
  intros Hw Hk. apply wft_full in Hw. destruct Hw as (Hl & _ & Hf). apply hexkey_cons in Hk. destruct Hk as [Hx Hr]. split; [unfold len; lia|].
  specialize (Hf x Hx). unfold child_form, rest_of in *. destruct (x =? 16); [right|left]; auto.
Qed.

Lemma short_fits k q r : wft (PShort k q) -> hexkey (k ++ r) -> fits q r /\ k <> [].
Proof.
  intros Hw Hk. destruct q as [|v| |ps]; try contradiction.
  - destruct Hw as [Hh Nv]. pose proof (hexkey_prefix k (k ++ r) r Hh Hk eq_refl) as ->. split; [|apply hexkey_not_nil, Hh].
    right. split; [right; eauto|reflexivity].
  - destruct Hw as (Nk & Hn & Hp). split; [|exact Nk]. left. destruct r as [|x r].
    + rewrite app_nil_r in Hk. exfalso. clear -Nk Hn Hk. induction Hn as [|y k Hy Hn IH]; [contradiction|]. inversion Hk as [E|z l Hz Hl E]; subst; [unfold nibble in Hy; lia|].
      apply IH; [apply hexkey_not_nil, Hl|exact Hl].
    + split; [right; exact Hp|]. apply (hexkey_split k (x :: r)); [exact Hk|discriminate].
Qed.

(** A whole key is no proper prefix of the key of a short node. *)
Lemma prefix_not_short key r q : hexkey key -> wft (PShort (key ++ r) q) -> r <> [] -> False.
Proof.
  intros Hk Hw Nr. destruct q as [|w| |ps]; try contradiction.
  - destruct Hw as [Hh _]. apply Nr, (hexkey_prefix key (key ++ r) r Hk Hh eq_refl).
  - destruct Hw as (_ & Hn & _). apply Forall_app in Hn. destruct Hn as [Hn _]. clear -Hk Hn. induction Hk as [|x k Hx Hk IH]; inversion Hn; subst; [unfold nibble in *; lia|auto].
Qed.

Section refine.
Variable Get : list Z -> option (list Z).
Variable cachegen : Z.
(** What is kept of the flags of a node, and of a hash, for the trie they stand for. *)
Variable FlagOk : nodeFlag -> ptrie -> Prop.
Variable HashOk : list Z -> ptrie -> Prop.

(** ** What a node stands for *)

Definition loaded_node (n : node) : Prop := match n with shortNode _ _ _ | fullNode _ _ => True | _ => False end.

Inductive resolves : node -> ptrie -> Prop :=
| r_nil : resolves nilNode PNil
| r_val v : resolves (valueNode v) (PVal v)
| r_short k n p fl : resolves n p -> FlagOk fl (PShort k p) -> resolves (shortNode k n fl) (PShort k p)
| r_full ns ps fl : Forall2 resolves ns ps -> FlagOk fl (PFull ps) -> resolves (fullNode ns fl) (PFull ps)
| r_hash h p : HashOk h p -> resolves (hashNode h) p.

Hypothesis new_flag : forall p, FlagOk (newFlag cachegen) p.
Hypothesis same_flag : forall fl p, FlagOk fl p -> FlagOk (mkFlag (flag_hash fl) cachegen (flag_dirty fl)) p.
(** A hash is resolved to a node that is none. *)
Hypothesis resolve_hash : forall h p prefix, HashOk h p -> exists n, resolveHash Get cachegen h prefix = Ret (Ok n) /\ loaded_node n /\ resolves n p.
#[local] Hint Resolve new_flag same_flag : core.

Definition is_hash (n : node) : bool := match n with hashNode _ => true | _ => false end.
Definition hash_steps (n : node) : nat := if is_hash n then 1 else 0.

Lemma hash_shape h p : HashOk h p -> match p with PShort _ _ | PFull _ => True | _ => False end.
Proof using resolve_hash.
  intros H. destruct (resolve_hash h p [] H) as (n & _ & Hl & Hr). destruct n; try contradiction; inversion Hr; exact I.
Qed.

Lemma resolves_nil n p : resolves n p -> is_nil n = is_pnil p.
Proof using resolve_hash.
  intros H. destruct H as [| | | |h p H]; try reflexivity. apply hash_shape in H. destruct p; try contradiction; reflexivity.
Qed.

Lemma resolves_value n p : resolves n p -> value_form p -> n = match p with PVal v => valueNode v | _ => nilNode end.
Proof using resolve_hash.
  intros H Hv. destruct H as [| | | |h p H]; try reflexivity; [destruct Hv as [|(w & ? & _)]; discriminate..|]. apply hash_shape in H.
  destruct Hv as [->|(w & -> & _)]; contradiction.
Qed.

Lemma children_index ns ps x : Forall2 resolves ns ps -> 0 <= x < len ps -> exists c, index ns x = Ret c /\ resolves c (child ps x).
Proof.
  intros H Hx. unfold index, child, len in *. destruct (Z.leb_spec 0 x); [|lia].
  assert (Hn : (Z.to_nat x < length ps)%nat) by lia. revert Hn. generalize (Z.to_nat x). clear -H.
  induction H as [|n p ns ps Hnp H IH]; intros [|i] Hi; cbn in *; try lia; [exists n; auto|]. apply IH. lia.
Qed.

Lemma children_set ns ps i n p : Forall2 resolves ns ps -> resolves n p -> Forall2 resolves (set_child ns i n) (set_child ps i p).
Proof. intros H Hn. revert i. induction H as [|a b ns ps Hab H IH]; intros [|i]; cbn; constructor; auto. Qed.

(** ** Looking up *)

Definition value_of (o : option (list Z)) : list Z := match o with Some v => v | None => [] end.

Lemma bytes_Equal_spec a b : bytes_Equal a b = true <-> a = b.
Proof. unfold bytes_Equal. destruct (list_eq_dec Z.eq_dec a b); split; auto; discriminate. Qed.

(** The test of [tryGet] that the key of a short node is there. *)
Lemma short_test k key : ((length key <? length k)%nat || negb (bytes_Equal k (firstn (length k) key))) = match strip k key with Some _ => false | None => true end.
Proof.
  destruct (strip k key) as [r|] eqn:E.
  - apply strip_spec in E. subst key. rewrite firstn_pre, length_app. destruct (Nat.ltb_spec (length k + length r) (length k)); [lia|].
    replace (bytes_Equal k k) with true; [reflexivity|]. symmetry. apply bytes_Equal_spec. reflexivity.
  - destruct (bytes_Equal k (firstn (length k) key)) eqn:Eb; [|apply orb_true_r]. apply bytes_Equal_spec in Eb. exfalso.
    apply (proj1 (strip_none k key) E (skipn (length k) key)). rewrite Eb at 1. symmetry. apply firstn_skipn.
Qed.

Lemma tryGet_spec fuel : forall n p path key, resolves n p -> fits p key -> (2 * length key + hash_steps n < fuel)%nat ->
  exists n' d, tryGet Get cachegen fuel n path key = Ret (Ok (value_of (plookup p key), n', d)) /\ resolves n' p.
Proof.
  induction fuel as [|fuel IH]; intros n p path key Hr Hf Hl; [lia|]. cbn [tryGet]. destruct n as [|ns fl|k n fl|h|v]; cbn [hash_steps is_hash] in Hl.
  - inversion Hr; subst. exists nilNode, false. auto.
  - inversion Hr as [| | |ns' ps fl' Hc Hfl| ]; subst. destruct Hf as [[[|Hw] Hk]|[[|(v & ? & _)] _]]; try discriminate. destruct key as [|x key]; [inversion Hk|].
    destruct (child_fits ps x key Hw Hk) as [Hx Hfc]. destruct (children_index ns ps x Hc Hx) as (c & Ec & Hrc).
    change (index (x :: key) 0) with (Ret x). cbn [obind tl]. rewrite Ec. cbn [obind].
    destruct (IH c (child ps x) (path ++ [x]) key Hrc Hfc ltac:(unfold hash_steps; destruct (is_hash c); cbn in Hl; lia)) as (n' & d & E & Hr'). rewrite E. cbn [try_bind obind].
    rewrite plookup_full. destruct d; do 2 eexists; (split; [reflexivity|]); [|exact Hr]. constructor; [|auto].
    replace ps with (set_child ps (Z.to_nat x) (child ps x)); [apply children_set; assumption|].
    apply (nth_ext _ _ PNil PNil); [apply set_child_length|]. intros i Hi. rewrite set_child_length in Hi. unfold len in Hx. rewrite set_nth_nth by lia.
    destruct (Nat.eqb_spec i (Z.to_nat x)) as [->|]; reflexivity.
  - inversion Hr as [| |k' n' p' fl' Hn Hfl| |]; subst. destruct Hf as [[[|Hw] Hk]|[[|(v & ? & _)] _]]; try discriminate. rewrite short_test.
    cbn [plookup]. destruct (strip k key) as [r|] eqn:Es; [|do 2 eexists; split; [reflexivity|exact Hr]]. apply strip_spec in Es. subst key.
    destruct (short_fits k p' r Hw Hk) as [Hfr Nk]. rewrite firstn_pre, skipn_pre. rewrite length_app in Hl. assert (1 <= length k)%nat by (destruct k; [contradiction|cbn; lia]).
    destruct (IH n p' (path ++ k) r Hn Hfr ltac:(unfold hash_steps; destruct (is_hash n); lia)) as (n1 & d & E & Hr'). rewrite E. cbn [try_bind obind].
    destruct d; do 2 eexists; (split; [reflexivity|]); [constructor; [exact Hr'|auto]|exact Hr].
  - inversion Hr as [| | | |h' p' Hh']; subst. destruct (resolve_hash h p path Hh') as (rn & E & Hld & Hrn). rewrite E. cbn [try_bind obind].
    destruct (IH rn p path key Hrn Hf ltac:(destruct rn; try contradiction; cbn in *; lia)) as (n1 & d & E1 & Hr1). rewrite E1. cbn [try_bind obind]. eauto.
  - inversion Hr; subst. destruct Hf as [[[|Hw] Hk]|[_ ->]]; [discriminate|contradiction|]. exists (valueNode v), false. auto.
Qed.

(** ** Inserting *)

Definition key_eqb (a b : list Z) : bool := bytes_Equal a b.
Lemma key_eqb_spec a b : reflect (a = b) (key_eqb a b).
Proof. destruct (key_eqb a b) eqn:E; constructor; [apply bytes_Equal_spec, E|]. intros ->. unfold key_eqb, bytes_Equal in E. destruct (list_eq_dec _ b b); congruence. Qed.

(** [p'] is [p] with [v] at [key]. *)
Record put (p : ptrie) (key v : list Z) (p' : ptrie) : Prop := {
  put_form : match key with [] => p' = PVal v | _ => wft p' end;
  put_lookup j : natkey j -> plookup p' j = if key_eqb j key then Some v else plookup p j;
  put_shape : match p, p' with PFull _, PFull _ => True | PFull _, _ => False | _, _ => True end }.

Lemma put_form_not_nil p key v p' : put p key v p' -> is_pnil p' = false.
Proof. intros [H _ _]. destruct key; [subst; reflexivity|]. destruct p'; try reflexivity. contradiction. Qed.

Lemma put_child_form p x r v p' : hexkey (x :: r) -> v <> [] -> put p r v p' -> child_form x p'.
Proof.
  intros Hk Nv [Hf _ _]. apply hexkey_cons in Hk. destruct Hk as [Hx Hr]. unfold child_form, rest_of in *. destruct (x =? 16).
  - subst r. right. eauto.
  - destruct r; [inversion Hr|]. right. exact Hf.
Qed.

(** Putting into a child of a full node. *)
Lemma put_full ps x r v c' : wft (PFull ps) -> hexkey (x :: r) -> v <> [] -> put (child ps x) r v c' ->
  put (PFull ps) (x :: r) v (PFull (set_child ps (Z.to_nat x) c')).
Proof.
  intros Hw Hk Nv Hc. destruct (child_fits ps x r Hw Hk) as [Hx _]. pose proof Hw as Hw'. apply wft_full in Hw'. destruct Hw' as (Hl & Hcn & Hf). split.
  - apply wft_full. rewrite set_child_length. split; [exact Hl|]. split.
    + rewrite count_set by (unfold len in Hx; lia). rewrite (put_form_not_nil _ _ _ _ Hc). destruct (is_pnil _); lia.
    + intros y Hy. rewrite child_set by lia. destruct (Z.eqb_spec y x) as [->|]; [|apply Hf, Hy]. apply (put_child_form _ x r v _ Hk Nv Hc).
  - intros j Hj. destruct j as [|y j]; [reflexivity|]. rewrite !plookup_full. inversion Hj as [|? ? Hy Hj']; subst. rewrite child_set by lia.
    destruct (Z.eqb_spec y x) as [->|N].
    + rewrite (put_lookup _ _ _ _ Hc j Hj'). destruct (key_eqb_spec j r), (key_eqb_spec (x :: j) (x :: r)); congruence.
    + destruct (key_eqb_spec (y :: j) (x :: r)) as [E|]; [congruence|reflexivity].
  - exact I.
Qed.

(** Putting below a short node. *)
Lemma put_short k q r v q' : wft (PShort k q) -> hexkey (k ++ r) -> v <> [] -> put q r v q' -> put (PShort k q) (k ++ r) v (PShort k q').
Proof.
  intros Hw Hk Nv Hq. destruct (short_fits k q r Hw Hk) as [_ Nk]. split; [| |exact I].
  - destruct (k ++ r) as [|y l] eqn:E; [destruct k; [contradiction|discriminate]|]. rewrite <- E in Hk. pose proof (put_form _ _ _ _ Hq) as F. destruct r as [|x r].
    + subst q'. rewrite app_nil_r in Hk. split; assumption.
    + destruct (hexkey_split k (x :: r) Hk ltac:(discriminate)) as [Hn Hr]. pose proof (put_shape _ _ _ _ Hq) as Sh.
      destruct q as [|w| |ps]; try contradiction; [destruct Hw as [Hh _]; pose proof (hexkey_prefix k (k ++ x :: r) (x :: r) Hh Hk eq_refl); discriminate|].
      destruct q' as [| |k' q'|ps']; try contradiction. split; auto.
  - intros j Hj. cbn [plookup]. destruct (strip k j) as [rest|] eqn:Es.
    + apply strip_spec in Es. subst j. apply Forall_app in Hj. rewrite (put_lookup _ _ _ _ Hq rest (proj2 Hj)).
      destruct (key_eqb_spec rest r) as [E|N], (key_eqb_spec (k ++ rest) (k ++ r)) as [E'|N']; try congruence. apply app_inv_head in E'. contradiction.
    + destruct (key_eqb_spec j (k ++ r)) as [->|]; [rewrite strip_app in Es; discriminate|reflexivity].
Qed.

(** What is left of a short node, one nibble past where a key parts from its key. *)
Definition tail_of (k : list Z) (q : ptrie) : ptrie := match k with [] => q | _ => PShort k q end.

Lemma tail_lookup k q j : plookup (tail_of k q) j = match strip k j with Some r => plookup q r | None => None end.
Proof. destruct k; reflexivity. Qed.

Lemma leaf_put key v : hexkey key -> v <> [] -> put PNil key v (PShort key (PVal v)).
Proof.
  intros Hk Nv. split; [destruct key; [inversion Hk|split; assumption]| |exact I]. intros j _. cbn [plookup].
  destruct (strip key j) as [r|] eqn:E.
  - apply strip_spec in E. subst j. destruct (key_eqb_spec (key ++ r) key) as [E|N].
    + rewrite <- (app_nil_r key) in E at 2. apply app_inv_head in E. subst r. reflexivity.
    + destruct r; [rewrite app_nil_r in N; contradiction|reflexivity].
  - destruct (key_eqb_spec j key) as [->|]; [|reflexivity]. exfalso. apply (proj1 (strip_none key key) E []). symmetry. apply app_nil_r.
Qed.

Lemma child_empty y : child (repeat PNil 17) y = PNil.
Proof. unfold child. apply nth_repeat. Qed.

(** The branch where the key [pre ++ b :: rb] parts from the short node [pre ++ a :: ra]. *)
Definition branch_of (a : Z) (ra : list Z) (q : ptrie) (b : Z) (c : ptrie) : ptrie :=
  PFull (set_child (set_child (repeat PNil 17) (Z.to_nat a) (tail_of ra q)) (Z.to_nat b) c).

Lemma branch_child a ra q b c y : 0 <= a <= 16 -> 0 <= b <= 16 -> 0 <= y ->
  child (set_child (set_child (repeat PNil 17) (Z.to_nat a) (tail_of ra q)) (Z.to_nat b) c) y = if y =? b then c else if y =? a then tail_of ra q else PNil.
Proof.
  intros Ha Hb Hy. rewrite child_set, child_set, child_empty; try reflexivity; try exact Hy; unfold len; rewrite ?set_child_length, repeat_length; lia.
Qed.

Lemma tail_form pre a ra q : wft (PShort (pre ++ a :: ra) q) -> 0 <= a <= 16 /\ child_form a (tail_of ra q) /\ is_pnil (tail_of ra q) = false /\ Forall nibble pre.
Proof.
  intros Hw. destruct q as [|w| |ps]; try contradiction.
  - destruct Hw as [Hh Nw]. destruct (hexkey_split pre (a :: ra) Hh ltac:(discriminate)) as [Hn Ha]. apply hexkey_cons in Ha. destruct Ha as [Ha Hr].
    unfold child_form, rest_of in *. split; [exact Ha|]. destruct (a =? 16).
    + subst ra. split; [right; exists w; split; [reflexivity|exact Nw]|]. split; [reflexivity|exact Hn].
    + destruct ra as [|x ra]; [inversion Hr|]. split; [right; split; assumption|]. split; [reflexivity|exact Hn].
  - destruct Hw as (_ & Hn & Hp). apply Forall_app in Hn. destruct Hn as [Hpre Har]. inversion Har as [|? ? Ha Hra]; subst. unfold nibble in Ha.
    split; [lia|]. unfold child_form. destruct (Z.eqb_spec a 16); [lia|]. split; [|split; [destruct ra; reflexivity|exact Hpre]].
    right. destruct ra as [|x ra]; [exact Hp|]. split; [discriminate|split; assumption].
Qed.

Lemma branch_put pre a ra q b rb v c : wft (PShort (pre ++ a :: ra) q) -> hexkey (pre ++ b :: rb) -> a <> b -> v <> [] -> put PNil rb v c ->
  put (PShort (pre ++ a :: ra) q) (pre ++ b :: rb) v (tail_of pre (branch_of a ra q b c)).
Proof.
  intros Hw Hk Nab Nv Hc. destruct (tail_form pre a ra q Hw) as (Ha & Fa & Na & Hpre). destruct (hexkey_split pre (b :: rb) Hk ltac:(discriminate)) as [_ Hb].
  pose proof (put_child_form PNil b rb v c Hb Nv Hc) as Fb. pose proof (put_form_not_nil _ _ _ _ Hc) as Nb. pose proof (proj1 (proj1 (hexkey_cons b rb) Hb)) as Hb16.
  assert (Hwb : wft (branch_of a ra q b c)).
  { apply wft_full. rewrite !set_child_length. split; [reflexivity|]. split.
    - rewrite count_set by (rewrite set_child_length, repeat_length; lia). rewrite Nb. pose proof (branch_child a ra q b c b) as Hbc. rewrite set_nth_nth, nth_repeat by (rewrite repeat_length; lia).
      destruct (Nat.eqb_spec (Z.to_nat b) (Z.to_nat a)); [lia|]. rewrite count_set by (rewrite repeat_length; lia). rewrite Na, nth_repeat. cbn. lia.
    - intros y Hy. rewrite branch_child by lia. destruct (Z.eqb_spec y b) as [->|]; [exact Fb|]. destruct (Z.eqb_spec y a) as [->|]; [exact Fa|].
      unfold child_form. destruct (y =? 16); left; reflexivity. }
  split; [| |exact I].
  - destruct (pre ++ b :: rb) as [|y l] eqn:E; [destruct pre; discriminate|]. destruct pre as [|x pre]; [exact Hwb|]. split; [discriminate|]. split; [exact Hpre|exact Hwb].
  - intros j Hj. rewrite tail_lookup. cbn [plookup]. destruct (strip pre j) as [r|] eqn:Es.
    + apply strip_spec in Es. subst j. apply Forall_app in Hj. destruct Hj as [_ Hj]. unfold branch_of. destruct r as [|y r].
      * cbn [plookup]. destruct (key_eqb_spec (pre ++ []) (pre ++ b :: rb)) as [E|]; [apply app_inv_head in E; discriminate|].
        destruct (strip (pre ++ a :: ra) (pre ++ [])) eqn:E; [|reflexivity]. apply strip_spec in E. rewrite <- app_assoc in E. apply app_inv_head in E. discriminate.
      * inversion Hj as [|? ? Hy Hr]; subst. rewrite plookup_full, branch_child by lia.
        assert (Est : strip (pre ++ a :: ra) (pre ++ y :: r) = if a =? y then strip ra r else None) by (clear; induction pre; [reflexivity|cbn; rewrite Z.eqb_refl; auto]).
        rewrite Est. destruct (Z.eqb_spec y b) as [->|Nyb].
        -- destruct (Z.eqb_spec a b); [contradiction|]. rewrite (put_lookup _ _ _ _ Hc r Hr). cbn [plookup].
           destruct (key_eqb_spec r rb) as [E|N], (key_eqb_spec (pre ++ b :: r) (pre ++ b :: rb)) as [E'|N']; try congruence. apply app_inv_head in E'. congruence.
        -- destruct (key_eqb_spec (pre ++ y :: r) (pre ++ b :: rb)) as [E|_]; [apply app_inv_head in E; congruence|]. rewrite (Z.eqb_sym a y).
           destruct (y =? a); [apply tail_lookup|reflexivity].
    + destruct (key_eqb_spec j (pre ++ b :: rb)) as [->|_]; [rewrite strip_app in Es; discriminate|].
      destruct (strip (pre ++ a :: ra) j) as [r|] eqn:E; [|reflexivity]. apply strip_spec in E. rewrite <- app_assoc in E. rewrite E, strip_app in Es. discriminate.
Qed.

Lemma value_put p v : value_form p -> put p [] v (PVal v).
Proof.
  intros Hp. split; [reflexivity| |destruct Hp as [->|(w & -> & _)]; exact I]. intros j _. destruct (key_eqb_spec j []) as [->|N]; [reflexivity|].
  destruct j; [contradiction|]. destruct Hp as [->|(w & -> & _)]; reflexivity.
Qed.

Lemma tail_put key v : key = [] \/ hexkey key -> v <> [] -> put PNil key v (tail_of key (PVal v)).
Proof.
  intros [->|Hk] Nv; [apply value_put; left; reflexivity|]. pose proof (leaf_put key v Hk Nv) as H. destruct key; [inversion Hk|exact H].
Qed.

Lemma insert_nil fuel prefix key value : insert Get cachegen (S fuel) nilNode prefix key value =
  Ret (Ok (true, match key with [] => value | _ => shortNode key value (newFlag cachegen) end)).
Proof. destruct key; reflexivity. Qed.

Lemma tail_resolves key n q fl : (forall p, FlagOk fl p) -> resolves n q -> resolves (match key with [] => n | _ => shortNode key n fl end) (tail_of key q).
Proof. intros Hfl H. destruct key; [exact H|constructor; auto]. Qed.

Lemma put_equal p key v : fits p key -> plookup p key = Some v -> put p key v p.
Proof.
  intros Hf E. split.
  - destruct Hf as [[[->|Hw] Hk]|[[->|(w & -> & _)] ->]]; try discriminate; [destruct key; [inversion Hk|exact Hw]|]. injection E as ->. reflexivity.
  - intros j _. destruct (key_eqb_spec j key) as [->|]; auto.
  - destruct p; exact I.
Qed.

(** The nodes of the branch. *)
Lemma branch_resolves a ra q b c nval nc fl fl' : (forall p, FlagOk fl p) -> (forall p, FlagOk fl' p) -> resolves nval q -> resolves nc c ->
  resolves (fullNode (set_child (set_child (repeat nilNode 17) (Z.to_nat a) (match ra with [] => nval | _ => shortNode ra nval fl end)) (Z.to_nat b) nc) fl') (branch_of a ra q b c).
Proof.
  intros Hfl Hfl' Hq Hc. constructor; [|apply Hfl']. apply children_set; [|exact Hc]. apply children_set; [|apply tail_resolves; assumption]. cbn. repeat constructor.
Qed.

Lemma insert_split fuel pre a ra b rb n q fl prefix v : resolves n q -> wft (PShort (pre ++ a :: ra) q) -> hexkey (pre ++ b :: rb) -> a <> b -> v <> [] ->
  exists n' p', insert Get cachegen (S (S fuel)) (shortNode (pre ++ a :: ra) n fl) prefix (pre ++ b :: rb) (valueNode v) = Ret (Ok (true, n')) /\
    resolves n' p' /\ put (PShort (pre ++ a :: ra) q) (pre ++ b :: rb) v p' /\ is_hash n' = false.
Proof.
  intros Hr Hw Hk Nab Nv. destruct (tail_form pre a ra q Hw) as (Ha & _). destruct (hexkey_split pre (b :: rb) Hk ltac:(discriminate)) as [_ Hb].
  apply hexkey_cons in Hb. destruct Hb as [Hb Hrb]. set (c := tail_of rb (PVal v)). assert (Hc : put PNil rb v c).
  { apply tail_put; [|exact Nv]. unfold rest_of in Hrb. destruct (b =? 16); auto. }
  assert (Epl : prefixLen (pre ++ b :: rb) (pre ++ a :: ra) = length pre).
  { clear -Nab. induction pre as [|x pre IH]; cbn; [destruct (Z.eqb_spec b a); congruence|]. rewrite Z.eqb_refl, IH. reflexivity. }
  assert (Ei : forall (l : list node) i x, length l = 17%nat -> 0 <= i <= 16 -> exists y, index (set_child l x nilNode) i = Ret y /\ forall z, exists y', index (set_child l x z) i = Ret y').
  { intros l i x Hl Hi. assert (Hx : forall z, exists y', index (set_child l x z) i = Ret y').
    { intros z. unfold index. destruct (Z.leb_spec 0 i); [|lia]. destruct (nth_error (set_child l x z) (Z.to_nat i)) eqn:E; [eauto|].
      apply nth_error_None in E. rewrite set_child_length in E. lia. }
    destruct (Hx nilNode) as (y & Ey). eauto. }
  exists (match pre with [] => fullNode (set_child (set_child (repeat nilNode 17) (Z.to_nat a) (match ra with [] => n | _ => shortNode ra n (newFlag cachegen) end)) (Z.to_nat b)
            (match rb with [] => valueNode v | _ => shortNode rb (valueNode v) (newFlag cachegen) end)) (newFlag cachegen)
          | _ => shortNode pre (fullNode (set_child (set_child (repeat nilNode 17) (Z.to_nat a) (match ra with [] => n | _ => shortNode ra n (newFlag cachegen) end)) (Z.to_nat b)
            (match rb with [] => valueNode v | _ => shortNode rb (valueNode v) (newFlag cachegen) end)) (newFlag cachegen)) (newFlag cachegen) end).
  exists (tail_of pre (branch_of a ra q b c)). split; [|split; [|split; [apply branch_put; assumption|destruct pre; reflexivity]]].
  - remember (pre ++ b :: rb) as key eqn:Ekey. destruct key as [|k0 kt]; [destruct pre; discriminate|].
    remember (S fuel) as f eqn:Ef. cbn [insert]. subst f. rewrite Epl, length_app.
    destruct (Nat.eqb_spec (length pre) (length pre + length (a :: ra))); [cbn in *; lia|]. rewrite index_mid, skipn_mid, Ekey, index_mid, skipn_mid, firstn_pre.
    cbn [obind]. rewrite !insert_nil. cbn [try_bind obind]. assert (E17 : exists y, index (repeat nilNode 17) a = Ret y).
    { unfold index. destruct (Z.leb_spec 0 a); [|lia]. rewrite nth_error_repeat by lia. eauto. }
    destruct E17 as (y & ->). cbn [obind]. destruct (Ei (repeat nilNode 17) b (Z.to_nat a) eq_refl Hb) as (_ & _ & Hz).
    destruct (Hz (match ra with [] => n | _ => shortNode ra n (newFlag cachegen) end)) as (y' & ->). cbn [obind]. destruct pre; reflexivity.
  - apply (tail_resolves pre _ (branch_of a ra q b c) (newFlag cachegen)); [apply new_flag|]. apply branch_resolves; auto. apply tail_resolves; [apply new_flag|constructor].
Qed.

Definition inserted (fuel : nat) (n : node) (p : ptrie) (prefix key v : list Z) : Prop :=
  exists d n' p', insert Get cachegen fuel n prefix key (valueNode v) = Ret (Ok (d, n')) /\ resolves n' p' /\ put p key v p' /\
    (d = false -> p' = p) /\ (d = true -> is_hash n' = false).

Lemma insert_value fuel n p prefix v : resolves n p -> value_form p -> inserted (S fuel) n p prefix [] v.
Proof.
  intros Hr Hv. unfold inserted. rewrite (resolves_value n p Hr Hv). destruct Hv as [->|(w & -> & Nw)]; cbn [insert].
  - exists true, (valueNode v), (PVal v). split; [reflexivity|]. split; [constructor|]. split; [apply value_put; left; reflexivity|]. split; [discriminate|reflexivity].
  - eexists _, (valueNode v), (PVal v). split; [reflexivity|]. split; [constructor|]. split; [apply value_put; right; eauto|]. split; [|reflexivity].
    destruct (bytes_Equal w v) eqn:E; [apply bytes_Equal_spec in E; congruence|discriminate].
Qed.

(** [insert] with one step less. *)
Definition inserts (fuel : nat) : Prop := forall n p prefix key v, resolves n p -> fits p key -> v <> [] -> (2 * length key + hash_steps n < fuel)%nat ->
  inserted fuel n p prefix key v.

(** A node that [insert] leaves had the value. *)
Lemma insert_unchanged p key v : put p key v p -> natkey key -> plookup p key = Some v.
Proof. intros Hput Hn. rewrite (put_lookup _ _ _ _ Hput key Hn). destruct (key_eqb_spec key key); congruence. Qed.

Lemma insert_full fuel ns ps fl prefix x key v : inserts fuel -> Forall2 resolves ns ps -> FlagOk fl (PFull ps) -> wft (PFull ps) -> hexkey (x :: key) -> v <> [] ->
  (2 * length (x :: key) < S fuel)%nat -> inserted (S fuel) (fullNode ns fl) (PFull ps) prefix (x :: key) v.
Proof.
  intros IH Hc Hfl Hw Hk Nv Hl. destruct (child_fits ps x key Hw Hk) as [Hx Hfc]. destruct (children_index ns ps x Hc Hx) as (c & Ec & Hrc).
  destruct (IH c (child ps x) (prefix ++ [x]) key v Hrc Hfc Nv ltac:(unfold hash_steps; destruct (is_hash c); cbn in Hl; lia)) as (d & n' & p' & E & Hr' & Hput & Hd & _).
  unfold inserted. cbn [insert]. rewrite Ec. cbn [obind]. rewrite E. cbn [try_bind obind]. destruct d.
  - do 3 eexists. split; [reflexivity|]. split; [constructor; [apply children_set; eassumption|apply new_flag]|]. split; [apply put_full; assumption|]. split; [discriminate|reflexivity].
  - specialize (Hd eq_refl). subst p'. do 3 eexists. split; [reflexivity|]. split; [constructor; [exact Hc|exact Hfl]|]. split; [|split; [reflexivity|discriminate]].
    apply put_equal; [left; split; [right; exact Hw|exact Hk]|]. rewrite plookup_full. apply (insert_unchanged _ _ _ Hput). apply hexkey_natkey in Hk. inversion Hk; assumption.
Qed.

Lemma insert_short fuel k n q fl prefix key v : inserts fuel -> resolves n q -> FlagOk fl (PShort k q) -> wft (PShort k q) -> hexkey key -> v <> [] ->
  (2 * length key < S fuel)%nat -> inserted (S fuel) (shortNode k n fl) (PShort k q) prefix key v.
Proof.
  intros IH Hn Hfl Hw Hk Nv Hl. destruct (prefixLen_cases key k) as [(r & Er & Epl)|(Hlt & Nr & Hcase)].
  - assert (Hlen : length key = (length k + length r)%nat) by (rewrite Er; apply length_app). assert (Hk' := Hk). rewrite Er in Hk'.
    destruct (short_fits k q r Hw Hk') as [Hfr Nk]. assert (1 <= length k)%nat by (destruct k; [contradiction|cbn; lia]).
    destruct (IH n q (prefix ++ k) r v Hn Hfr Nv ltac:(unfold hash_steps; destruct (is_hash n); lia)) as (d & n1 & p1 & E & Hr1 & Hput & Hd & _).
    unfold inserted. destruct key as [|k0 key]; [inversion Hk|]. cbn [insert]. rewrite Epl, Nat.eqb_refl. rewrite Er, firstn_pre, skipn_pre. rewrite E. cbn [try_bind obind]. destruct d.
    + do 3 eexists. split; [reflexivity|]. split; [constructor; [exact Hr1|apply new_flag]|]. split; [apply put_short; assumption|]. split; [discriminate|reflexivity].
    + specialize (Hd eq_refl). subst p1. do 3 eexists. split; [reflexivity|]. split; [constructor; [exact Hn|exact Hfl]|]. split; [|split; [reflexivity|discriminate]].
      apply put_equal; [left; split; [right; exact Hw|exact Hk']|]. rewrite plookup_short. apply hexkey_natkey, Forall_app in Hk'. apply (insert_unchanged _ _ _ Hput), Hk'.
  - destruct Hcase as [(r & -> & Nr')|(pre & a & b & ra & rb & -> & Ek & Nab & _)]; [destruct (prefix_not_short key r q); assumption|].
    rewrite Ek in *. destruct fuel as [|fuel]; [rewrite length_app in Hl; cbn in Hl; lia|].
    destruct (insert_split fuel pre a ra b rb n q fl prefix v Hn Hw Hk Nab Nv) as (n' & p' & E & R1 & R2 & R3).
    exists true, n', p'. split; [exact E|]. split; [exact R1|]. split; [exact R2|]. split; [discriminate|intros _; exact R3].
Qed.

Lemma insert_spec fuel : inserts fuel.
Proof.
  induction fuel as [|fuel IH]; intros n p prefix key v Hr Hf Nv Hl; [lia|]. destruct Hf as [[Hw Hk]|[Hv ->]]; [|apply insert_value; assumption].
  destruct key as [|k0 key]; [inversion Hk|]. destruct n as [|ns fl|k n fl|h|w]; cbn [hash_steps is_hash] in Hl.
  - inversion Hr; subst. unfold inserted. cbn [insert]. do 3 eexists. split; [reflexivity|]. split; [constructor; [constructor|apply new_flag]|]. split; [apply leaf_put; assumption|].
    split; [discriminate|reflexivity].
  - inversion Hr as [| | |ns' ps fl' Hc Hfl| ]; subst. destruct Hw as [|Hw]; [discriminate|]. apply insert_full; auto. lia.
  - inversion Hr as [| |k' n' q fl' Hn Hfl| |]; subst. destruct Hw as [|Hw]; [discriminate|]. apply insert_short; auto. lia.
  - inversion Hr as [| | | |h' p' Hh']; subst. destruct (resolve_hash h p prefix Hh') as (rn & E & Hld & Hrn).
    destruct (IH rn p prefix (k0 :: key) v Hrn (or_introl (conj Hw Hk)) Nv ltac:(destruct rn; try contradiction; cbn in *; lia)) as (d & n1 & p1 & E1 & Hr1 & Hput & Hd & Hh).
    unfold inserted. cbn [insert]. rewrite E. cbn [try_bind obind]. rewrite E1. cbn [try_bind obind]. destruct d.
    + exists true, n1, p1. auto.
    + specialize (Hd eq_refl). subst p1. exists false, rn, p. split; [reflexivity|]. split; [exact Hrn|]. split; [exact Hput|]. split; [reflexivity|discriminate].
  - inversion Hr; subst. destruct Hw as [|[]]; discriminate.
Qed.

(** ** Deleting *)

(** [p'] is [p] without [key]. *)
Record cut (p : ptrie) (key : list Z) (p' : ptrie) : Prop := {
  cut_form : match key with [] => p' = PNil | _ => wf p' end;
  cut_lookup j : natkey j -> plookup p' j = if key_eqb j key then None else plookup p j;
  cut_shape : match p with PFull _ => p' <> PNil | _ => True end }.

Lemma cut_same p key : wf p -> hexkey key -> plookup p key = None -> cut p key p.
Proof.
  intros Hw Hk E. split.
  - destruct key; [inversion Hk|exact Hw].
  - intros j _. destruct (key_eqb_spec j key) as [->|]; auto.
  - destruct p; [exact I..|discriminate].
Qed.

Lemma cut_value p : value_form p -> cut p [] PNil.
Proof.
  intros [->|(v & -> & _)]; (split; [reflexivity| |exact I]); intros j _; destruct (key_eqb_spec j []) as [->|N]; try reflexivity.
  destruct j; [contradiction|reflexivity].
Qed.

Lemma cut_leaf k v : hexkey k -> cut (PShort k (PVal v)) k PNil.
Proof.
  intros Hk. split; [destruct k; [inversion Hk|left; reflexivity]| |exact I]. intros j _. cbn [plookup]. destruct (key_eqb_spec j k) as [|N]; [reflexivity|].
  destruct (strip k j) as [r|] eqn:E; [|reflexivity]. apply strip_spec in E. destruct r; [rewrite app_nil_r in E; contradiction|reflexivity].
Qed.

(** The children after a deletion below one of them. *)
Lemma cut_children ps x r c' : wft (PFull ps) -> hexkey (x :: r) -> cut (child ps x) r c' -> let ps' := set_child ps (Z.to_nat x) c' in
  length ps' = 17%nat /\ (1 <= count ps')%nat /\ (forall y, 0 <= y <= 16 -> child_form y (child ps' y)) /\
  forall j, natkey j -> plookup (PFull ps') j = if key_eqb j (x :: r) then None else plookup (PFull ps) j.
Proof.
  intros Hw Hk Hc. destruct (child_fits ps x r Hw Hk) as [Hx _]. apply wft_full in Hw. destruct Hw as (Hl & Hcn & Hf). cbn zeta. rewrite set_child_length.
  split; [exact Hl|]. split; [|split].
  - rewrite count_set by (unfold len in Hx; lia). destruct (is_pnil c'), (is_pnil (nth _ ps PNil)); lia.
  - intros y Hy. rewrite child_set by lia. destruct (Z.eqb_spec y x) as [->|]; [|apply Hf, Hy]. pose proof (cut_form _ _ _ Hc) as F.
    apply hexkey_cons in Hk. destruct Hk as [_ Hr]. unfold child_form, rest_of in *. destruct (x =? 16); [subst r; left; exact F|]. destruct r; [inversion Hr|exact F].
  - intros j Hj. destruct j as [|y j]; [reflexivity|]. rewrite !plookup_full. inversion Hj as [|? ? Hy Hj']; subst. rewrite child_set by lia.
    destruct (Z.eqb_spec y x) as [->|N].
    + rewrite (cut_lookup _ _ _ Hc j Hj'). destruct (key_eqb_spec j r), (key_eqb_spec (x :: j) (x :: r)); congruence.
    + destruct (key_eqb_spec (y :: j) (x :: r)) as [E|]; [congruence|reflexivity].
Qed.

(** A full node with one entry left becomes a short node. *)
Definition merge (x : Z) (c : ptrie) : ptrie := match c with PShort k q => PShort (x :: k) q | _ => PShort [x] c end.

Lemma merge_lookup x c j : plookup (merge x c) j = plookup (PShort [x] c) j.
Proof. destruct c as [|v|k q|ps]; try reflexivity. cbn [merge plookup strip]. destruct j as [|y j]; [reflexivity|]. destruct (x =? y); reflexivity. Qed.

Lemma merge_form x c : 0 <= x <= 16 -> child_form x c -> c <> PNil -> wft (merge x c).
Proof.
  intros Hx Hc N. unfold child_form in Hc. destruct (Z.eqb_spec x 16) as [->|Nx].
  - destruct Hc as [->|(v & -> & Nv)]; [contradiction|]. split; [constructor|exact Nv].
  - destruct Hc as [->|Hc]; [contradiction|]. assert (Hn : nibble x) by (unfold nibble; lia). destruct c as [|v|k q|ps]; try contradiction.
    + destruct q as [|v| |ps]; try contradiction; [destruct Hc as [Hk Nv]; split; [constructor; assumption|exact Nv]|].
      destruct Hc as (_ & Hk & Hp). split; [discriminate|]. split; [constructor; assumption|exact Hp].
    + split; [discriminate|]. split; [constructor; [exact Hn|constructor]|exact Hc].
Qed.

Lemma single_lookup ps i j : (forall k, k <> i -> nth k ps PNil = PNil) -> natkey j -> plookup (PFull ps) j = plookup (PShort [Z.of_nat i] (nth i ps PNil)) j.
Proof.
  intros Ho Hj. destruct j as [|y j]; [reflexivity|]. rewrite plookup_full. cbn [plookup strip]. inversion Hj as [|? ? Hy _]; subst. unfold child.
  destruct (Z.eqb_spec (Z.of_nat i) y) as [<-|N]; [rewrite Nat2Z.id; reflexivity|]. rewrite Ho by lia. reflexivity.
Qed.

Lemma single_found ns ps : Forall2 resolves ns ps -> forall i pos, 0 <= pos -> single_child ns i pos = if forallb is_pnil ps then pos else -2.
Proof.
  induction 1 as [|n p ns ps Hr H IH]; intros i pos Hp; [reflexivity|]. cbn [single_child forallb]. rewrite (resolves_nil n p Hr).
  destruct (is_pnil p); [apply IH, Hp|]. destruct (Z.eqb_spec pos (-1)); [lia|reflexivity].
Qed.

Lemma all_nil ps : forallb is_pnil ps = true -> count ps = 0%nat /\ forall k, nth k ps PNil = PNil.
Proof.
  induction ps as [|p ps IH]; intros H; [split; [reflexivity|destruct k; reflexivity]|]. cbn in H. apply andb_prop in H. destruct H as [Hp Hs].
  destruct (IH Hs) as [Hc Hk]. destruct p; try discriminate. split; [exact Hc|]. intros [|k]; [reflexivity|apply Hk].
Qed.

Lemma not_all_nil ps : forallb is_pnil ps = false -> (1 <= count ps)%nat.
Proof. induction ps as [|p ps IH]; [discriminate|]. cbn [forallb]. rewrite count_cons. destruct (is_pnil p); [intros H; apply IH in H; lia|lia]. Qed.

(** What the loop over the children finds. *)
Lemma single_child_cases ns ps : Forall2 resolves ns ps -> forall i, 0 <= i -> (1 <= count ps)%nat ->
  (exists k, single_child ns i (-1) = i + Z.of_nat k /\ (k < length ps)%nat /\ nth k ps PNil <> PNil /\ forall j, j <> k -> nth j ps PNil = PNil) \/
  (single_child ns i (-1) = -2 /\ (2 <= count ps)%nat).
Proof.
  induction 1 as [|n p ns ps Hr H IH]; intros i Hi Hc; [cbn in Hc; lia|]. cbn [single_child]. rewrite (resolves_nil n p Hr). rewrite count_cons in *.
  destruct (is_pnil p) eqn:Ep.
  - destruct (IH (i + 1) ltac:(lia) ltac:(lia)) as [(k & E & Hk & Nk & Ho)|[E H2]]; [left|right; split; [exact E|lia]].
    exists (S k). split; [rewrite E; lia|]. split; [cbn; lia|]. split; [exact Nk|]. intros [|j] Hj; [destruct p; [reflexivity|discriminate..]|]. apply Ho. lia.
  - change (-1 =? -1) with true. cbv iota. rewrite (single_found ns ps H) by lia. destruct (forallb is_pnil ps) eqn:Ea.
    + left. exists O. split; [lia|]. split; [cbn; lia|]. split; [destruct p; discriminate|]. intros [|j] Hj; [lia|]. apply (all_nil ps Ea).
    + right. split; [reflexivity|]. apply not_all_nil in Ea. lia.
Qed.

Definition deleted_spec (fuel : nat) (n : node) (p : ptrie) (prefix key : list Z) : Prop :=
  exists d n' p', delete Get cachegen fuel n prefix key = Ret (Ok (d, n')) /\ resolves n' p' /\ cut p key p' /\
    (d = false -> p' = p) /\ (d = true -> is_hash n' = false).

(** Reducing a full node after a deletion below it. *)
Lemma delete_reduce ns ps prefix p0 key : Forall2 resolves ns ps -> length ps = 17%nat -> (1 <= count ps)%nat -> (forall y, 0 <= y <= 16 -> child_form y (child ps y)) ->
  key <> [] -> (forall j, natkey j -> plookup (PFull ps) j = if key_eqb j key then None else plookup p0 j) ->
  exists n' p', (let pos := single_child ns 0 (-1) in
    if pos >=? 0 then
      let! last := index ns pos in
      let short := shortNode [pos] last (newFlag cachegen) in
      if pos =? 16 then Ret (Ok (true, short))
      else
        let? cnode := resolve Get cachegen last prefix in
        match cnode with
        | shortNode ckey cval _ => Ret (Ok (true, shortNode (pos :: ckey) cval (newFlag cachegen)))
        | _ => Ret (Ok (true, short))
        end
    else Ret (Ok (true, fullNode ns (newFlag cachegen)))) = Ret (Ok (true, n')) /\ resolves n' p' /\ cut p0 key p' /\ is_hash n' = false.
Proof.
  intros Hr Hl Hc Hf Nk Hlook. destruct (single_child_cases ns ps Hr 0 ltac:(lia) Hc) as [(i & E & Hi & Ni & Ho)|[E H2]]; cbv zeta; rewrite E.
  - rewrite Z.add_0_l. destruct (Z.geb_spec (Z.of_nat i) 0) as [_|L]; [|lia]. destruct (children_index ns ps (Z.of_nat i) Hr ltac:(unfold len; lia)) as (c & Ec & Hrc).
    rewrite Ec. cbn [obind]. assert (Eci : child ps (Z.of_nat i) = nth i ps PNil) by (unfold child; rewrite Nat2Z.id; reflexivity). rewrite Eci in Hrc.
    assert (Hcut : cut p0 key (merge (Z.of_nat i) (nth i ps PNil))).
    { assert (Hw : wft (merge (Z.of_nat i) (nth i ps PNil))) by (apply merge_form; [lia|rewrite <- Eci; apply Hf; lia|exact Ni]). split.
      - destruct key; [contradiction|right; exact Hw].
      - intros j Hj. rewrite merge_lookup, <- (single_lookup ps i j Ho Hj). apply Hlook, Hj.
      - destruct p0; try exact I. intros Em. rewrite Em in Hw. exact Hw. }
    pose proof (Hf (Z.of_nat i) ltac:(lia)) as Hci. rewrite Eci in Hci. unfold child_form in Hci. destruct (Z.eqb_spec (Z.of_nat i) 16) as [E16|N16].
    + do 2 eexists. split; [reflexivity|]. split; [|split; [exact Hcut|reflexivity]]. destruct Hci as [|(v & Ev & _)]; [contradiction|]. rewrite Ev in *. constructor; [exact Hrc|apply new_flag].
    + destruct Hci as [|Hw]; [contradiction|]. assert (Hres : exists rn, resolve Get cachegen c prefix = Ret (Ok rn) /\ loaded_node rn /\ resolves rn (nth i ps PNil)).
      { destruct c as [|l fl|k m fl|h|v]; [inversion Hrc; congruence|exists (fullNode l fl)|exists (shortNode k m fl)|apply resolve_hash; inversion Hrc; assumption|]; try (split; [reflexivity|split; [exact I|exact Hrc]]).
        inversion Hrc as [|v' Ev E2| | |]; subst. rewrite <- E2 in Hw. contradiction. }
      destruct Hres as (rn & -> & Hld & Hrn). cbn [try_bind obind]. clear Eci Hw. remember (nth i ps PNil) as ci eqn:Eci. clear Eci. destruct rn as [|l fl|k m fl|h|v]; try contradiction.
      * do 2 eexists. split; [reflexivity|]. split; [|split; [exact Hcut|reflexivity]]. inversion Hrn as [| | |l' qs fl' Hq E2|]; subst ci. cbn [merge]. constructor; [exact Hrc|apply new_flag].
      * do 2 eexists. split; [reflexivity|]. split; [|split; [exact Hcut|reflexivity]]. inversion Hrn as [| |k' m' q fl' Hq| |]; subst ci. cbn [merge]. constructor; [assumption|apply new_flag].
  - do 2 eexists. split; [reflexivity|]. split; [constructor; [exact Hr|apply new_flag]|]. split; [|reflexivity]. split.
    + destruct key; [contradiction|right]. apply wft_full. auto.
    + exact Hlook.
    + destruct p0; try exact I. discriminate.
Qed.

(** A deletion below an extension: the full node stays, or is merged. *)
Lemma cut_ext k ps r q' : wft (PShort k (PFull ps)) -> hexkey r -> cut (PFull ps) r q' ->
  cut (PShort k (PFull ps)) (k ++ r) (match q' with PShort ck cq => PShort (k ++ ck) cq | _ => PShort k q' end).
Proof.
  intros (Nk & Hk & Hp) Hr Hc. pose proof (cut_form _ _ _ Hc) as F. pose proof (cut_shape _ _ _ Hc) as Sh. cbn in Sh.
  assert (Hw : wft q') by (destruct r; [inversion Hr|]; destruct F as [|F]; [contradiction|exact F]).
  assert (Hlook : forall j, plookup (match q' with PShort ck cq => PShort (k ++ ck) cq | _ => PShort k q' end) j = plookup (PShort k q') j).
  { intros j. destruct q' as [|v|ck cq|qs]; try reflexivity. cbn [plookup]. clear. revert j. induction k as [|x k IH]; intros j; [reflexivity|].
    destruct j as [|y j]; [reflexivity|]. cbn. destruct (x =? y); [apply IH|reflexivity]. }
  split; [| |exact I].
  - destruct (k ++ r) as [|y l] eqn:E; [destruct k; [contradiction|discriminate]|]. right. destruct q' as [|v|ck cq|qs]; try contradiction.
    + destruct cq as [|v| |qs]; try contradiction; [destruct Hw as [Hck Nv]; split; [apply hexkey_app; assumption|exact Nv]|].
      destruct Hw as (Nck & Hck & Hqs). split; [destruct k; [contradiction|discriminate]|]. split; [apply Forall_app; auto|exact Hqs].
    + split; auto.
  - intros j Hj. rewrite Hlook. cbn [plookup]. destruct (strip k j) as [rest|] eqn:Es.
    + apply strip_spec in Es. subst j. apply Forall_app in Hj. rewrite (cut_lookup _ _ _ Hc rest (proj2 Hj)).
      destruct (key_eqb_spec rest r) as [E|N], (key_eqb_spec (k ++ rest) (k ++ r)) as [E'|N']; try congruence; [|reflexivity]. apply app_inv_head in E'. contradiction.
    + destruct (key_eqb_spec j (k ++ r)); reflexivity.
Qed.

Lemma delete_value fuel n p prefix : resolves n p -> value_form p -> deleted_spec (S fuel) n p prefix [].
Proof.
  intros Hr Hv. unfold deleted_spec. rewrite (resolves_value n p Hr Hv). destruct Hv as [->|(v & -> & Nv)].
  - exists false, nilNode, PNil. split; [reflexivity|]. split; [constructor|]. split; [apply cut_value; left; reflexivity|]. split; [reflexivity|discriminate].
  - exists true, nilNode, PNil. split; [reflexivity|]. split; [constructor|]. split; [apply cut_value; right; eauto|]. split; [discriminate|reflexivity].
Qed.

Lemma delete_unchanged p key p' : wf p -> hexkey key -> cut p key p' -> p' = p -> plookup p key = None.
Proof.
  intros Hw Hk Hc ->. rewrite (cut_lookup _ _ _ Hc key (hexkey_natkey _ Hk)). destruct (key_eqb_spec key key); congruence.
Qed.

Definition deletes (fuel : nat) : Prop := forall n p prefix key, resolves n p -> fits p key -> (2 * length key + hash_steps n < fuel)%nat ->
  deleted_spec fuel n p prefix key.

Lemma delete_full fuel ns ps fl prefix key : deletes fuel -> Forall2 resolves ns ps -> FlagOk fl (PFull ps) -> wft (PFull ps) -> hexkey key ->
  (2 * length key < S fuel)%nat -> deleted_spec (S fuel) (fullNode ns fl) (PFull ps) prefix key.
Proof.
  intros IH Hc Hfl Hw Hk Hl. destruct key as [|x key]; [inversion Hk|]. unfold deleted_spec.
  destruct (child_fits ps x key Hw Hk) as [Hx Hfc]. destruct (children_index ns ps x Hc Hx) as (c & Ec & Hrc).
  destruct (IH c (child ps x) (prefix ++ [x]) key Hrc Hfc ltac:(unfold hash_steps; destruct (is_hash c); cbn in Hl; lia)) as (d & n' & c' & E & Hr' & Hcut & Hd & _).
  cbn [delete]. change (index (x :: key) 0) with (Ret x). cbn [obind tl]. rewrite Ec. cbn [obind]. rewrite E. cbn [try_bind obind]. destruct d.
  - destruct (cut_children ps x key c' Hw Hk Hcut) as (Hl' & Hcn & Hform & Hlook).
    destruct (delete_reduce _ _ prefix (PFull ps) (x :: key) (children_set ns ps (Z.to_nat x) n' c' Hc Hr') Hl' Hcn Hform ltac:(discriminate) Hlook) as (n2 & p2 & E2 & R1 & R2 & R3).
    exists true, n2, p2. split; [exact E2|]. split; [exact R1|]. split; [exact R2|]. split; [discriminate|intros _; exact R3].
  - exists false, (fullNode ns fl), (PFull ps). split; [reflexivity|]. split; [constructor; [exact Hc|exact Hfl]|]. split; [|split; [reflexivity|discriminate]].
    apply cut_same; [right; exact Hw|exact Hk|]. rewrite plookup_full. specialize (Hd eq_refl). subst c'.
    pose proof (hexkey_natkey _ Hk) as Hn. inversion Hn as [|? ? _ Hn']; subst. rewrite (cut_lookup _ _ _ Hcut key Hn'). destruct (key_eqb_spec key key); congruence.
Qed.

Lemma delete_short fuel k n q fl prefix key : deletes fuel -> resolves n q -> FlagOk fl (PShort k q) -> wft (PShort k q) -> hexkey key ->
  (2 * length key < S fuel)%nat -> deleted_spec (S fuel) (shortNode k n fl) (PShort k q) prefix key.
Proof.
  intros IH Hn Hfl Hw Hk Hl. unfold deleted_spec. cbn [delete]. assert (Hr : resolves (shortNode k n fl) (PShort k q)) by (constructor; assumption).
  destruct (prefixLen_cases key k) as [(r & -> & Epl)|(Hlt & Nr & _)].
  - rewrite Epl, Nat.ltb_irrefl, length_app, firstn_pre, skipn_pre. destruct (short_fits k q r Hw Hk) as [Hfr Nk]. destruct q as [|v| |ps]; try contradiction.
    + destruct Hw as [Hh Nv]. pose proof (hexkey_prefix k (k ++ r) r Hh Hk eq_refl) as ->. cbn [length]. rewrite Nat.add_0_r, Nat.eqb_refl, app_nil_r.
      exists true, nilNode, PNil. split; [reflexivity|]. split; [constructor|]. split; [apply cut_leaf, Hh|]. split; [discriminate|reflexivity].
    + destruct Hfr as [[_ Hkr]|[[|(v & ? & _)] _]]; try discriminate. assert (1 <= length k)%nat by (destruct k; [contradiction|cbn; lia]). pose proof (hexkey_not_nil r Hkr) as Nr.
      destruct (Nat.eqb_spec (length k) (length k + length r)) as [E0|_]; [destruct r; [contradiction|cbn in E0; lia]|]. rewrite length_app in Hl.
      destruct (IH n (PFull ps) (prefix ++ k) r Hn (or_introl (conj (or_intror (proj2 (proj2 Hw))) Hkr)) ltac:(unfold hash_steps; destruct (is_hash n); lia)) as (d & n1 & q' & E & Hr1 & Hcut & Hd & Hh).
      rewrite E. cbn [try_bind obind]. destruct d.
      * pose proof (cut_ext k ps r q' Hw Hkr Hcut) as Hce. specialize (Hh eq_refl). exists true.
        destruct n1 as [|l fl1|ck cv fl1|h|w]; try discriminate Hh; inversion Hr1; subst; do 2 eexists; (split; [reflexivity|]);
          (split; [|split; [exact Hce|split; [discriminate|reflexivity]]]); repeat (apply r_short || apply r_full || apply r_val || apply r_nil || apply new_flag || assumption).
      * exists false, (shortNode k n fl), (PShort k (PFull ps)). split; [reflexivity|]. split; [exact Hr|]. split; [|split; [reflexivity|discriminate]].
        apply cut_same; [right; exact Hw|exact Hk|]. rewrite plookup_short. specialize (Hd eq_refl). apply (delete_unchanged (PFull ps) r q'); auto. right. apply Hw.
  - destruct (Nat.ltb_spec (prefixLen key k) (length k)); [|lia]. exists false, (shortNode k n fl), (PShort k q). split; [reflexivity|]. split; [exact Hr|].
    split; [|split; [reflexivity|discriminate]]. apply cut_same; [right; exact Hw|exact Hk|]. cbn [plookup]. rewrite (proj2 (strip_none k key) Nr). reflexivity.
Qed.

Lemma delete_spec fuel : deletes fuel.
Proof.
  induction fuel as [|fuel IH]; intros n p prefix key Hr Hf Hl; [lia|]. destruct Hf as [[Hw Hk]|[Hv ->]]; [|apply delete_value; assumption].
  destruct n as [|ns fl|k n fl|h|w]; cbn [hash_steps is_hash] in Hl.
  - inversion Hr; subst. exists false, nilNode, PNil. split; [reflexivity|]. split; [constructor|]. split; [apply cut_same; [left|exact Hk|]; reflexivity|]. split; [reflexivity|discriminate].
  - inversion Hr as [| | |ns' ps fl' Hc Hfl| ]; subst. destruct Hw as [|Hw]; [discriminate|]. apply delete_full; auto. lia.
  - inversion Hr as [| |k' n' q fl' Hn Hfl| |]; subst. destruct Hw as [|Hw]; [discriminate|]. apply delete_short; auto. lia.
  - inversion Hr as [| | | |h' p' Hh']; subst. destruct (resolve_hash h p prefix Hh') as (rn & E & Hld & Hrn).
    destruct (IH rn p prefix key Hrn (or_introl (conj Hw Hk)) ltac:(destruct rn; try contradiction; cbn in *; lia)) as (d & n1 & p1 & E1 & Hr1 & Hcut & Hd & Hh).
    unfold deleted_spec. cbn [delete]. rewrite E. cbn [try_bind obind]. rewrite E1. cbn [try_bind obind]. destruct d.
    + exists true, n1, p1. auto.
    + specialize (Hd eq_refl). subst p1. exists false, rn, p. split; [reflexivity|]. split; [exact Hrn|]. split; [exact Hcut|]. split; [reflexivity|discriminate].
  - inversion Hr; subst. destruct Hw as [|[]]; discriminate.
Qed.
End refine.
