(* ===== verification/TrieMerkle.v ===== *)
(** * Theorems: the hashes and the encodings of a trie

    The encoding of a trie and its root hash, as functions of the trie without
    hashes; that decoding a node inverts its encoding; that hashing computes the
    root hash, and that a committed trie is found again under it. *)

From Stdlib Require Import ZArith List Lia Bool.
From S2P Require Import Prelude GoBig ByteBuf CommonTypes Rlp RlpTheorems TrieNode TrieOps TrieHash TrieSpec TrieRefine.
Import ListNotations.
Local Open Scope Z_scope.

(** ** The encodings of keys *)

Definition nibbles : list Z := map Z.of_nat (seq 0 16).
Lemma nibble_in x : nibble x -> In x nibbles.
Proof. intros H. unfold nibble in H. rewrite <- (Z2Nat.id x) by lia. apply in_map, in_seq. lia. Qed.

Lemma nibble_pair a b : nibble a -> nibble b -> Z.lor (u8 (Z.shiftl a 4)) b = a * 16 + b.
Proof.
  intros Ha Hb. assert (H : forallb (fun a => forallb (fun b => Z.lor (u8 (Z.shiftl a 4)) b =? a * 16 + b) nibbles) nibbles = true) by (vm_compute; reflexivity).
  rewrite forallb_forall in H. specialize (H a (nibble_in a Ha)). rewrite forallb_forall in H. apply Z.eqb_eq, (H b (nibble_in b Hb)).
Qed.

Lemma nibbles_pair a b : nibble a -> nibble b -> nibbles_of (a * 16 + b) = [a; b].
Proof.
  intros Ha Hb. unfold nibble in *. unfold nibbles_of. rewrite Z.div_add_l, Z.div_small, Z.add_0_r by lia.
  rewrite Z.add_comm, Z.mod_add, Z.mod_small by lia. reflexivity.
Qed.

Lemma decodeNibbles_spec l : forall n, length l = (2 * n)%nat -> Forall nibble l -> exists b, decodeNibbles l = Ret b /\ flat_map nibbles_of b = l /\ bytes_ok b.
Proof.
  intros n. revert l. induction n as [|n IH]; intros l Hl Hn.
  - destruct l; [|discriminate]. exists []. split; [reflexivity|]. split; [reflexivity|constructor].
  - destruct l as [|x [|y l]]; [discriminate|cbn in Hl; lia|]. inversion Hn as [|? ? Hx Hn1]; subst. inversion Hn1 as [|? ? Hy Hn2]; subst.
    destruct (IH l ltac:(cbn in Hl; lia) Hn2) as (b & E & Ef & Hb). exists ((x * 16 + y) :: b). cbn [decodeNibbles]. rewrite E. cbn [obind].
    rewrite nibble_pair by assumption. split; [reflexivity|]. cbn [flat_map]. rewrite nibbles_pair, Ef by assumption. split; [reflexivity|].
    constructor; [unfold nibble, is_byte in *; lia|exact Hb].
Qed.

Lemma hasTerm_end l : hasTerm (l ++ [16]) = true.
Proof. unfold hasTerm. rewrite len_app, last_last. pose proof (len_nonneg l). destruct (Z.ltb_spec 0 (len l + len [16])) as [|L]; [reflexivity|cbn in L; lia]. Qed.

Lemma hasTerm_nibbles l : Forall nibble l -> hasTerm l = false.
Proof.
  intros H. unfold hasTerm. destruct l as [|x l]; [reflexivity|]. destruct (Z.eqb_spec (last (x :: l) 0) 16) as [E|]; [|apply andb_false_r]. exfalso.
  destruct (exists_last (l := x :: l) ltac:(discriminate)) as (l' & y & E'). rewrite E' in *. rewrite last_last in E. subst y.
  apply Forall_app in H. destruct H as [_ H]. inversion H as [|? ? Hy _]. unfold nibble in Hy. lia.
Qed.

(** A key of a node: nibbles, with a terminator or not. *)
Definition node_key (t : bool) (body : list Z) : list Z := if t then body ++ [16] else body.

Lemma even_pairs (l : list Z) : Z.odd (len l) = false -> exists n, length l = (2 * n)%nat.
Proof.
  unfold len. intros H. exists (Nat.div2 (length l)). rewrite <- Z.negb_even in H. apply negb_false_iff in H. apply Z.even_spec in H. destruct H as [k Hk].
  pose proof (Nat.div2_odd (length l)) as D. destruct (Nat.odd (length l)) eqn:O; cbn [Nat.b2n] in D; [|lia]. lia.
Qed.

Lemma slice_tail {A : Type} (p r : list A) : slice (p ++ r) (len p) (len (p ++ r)) = Ret r.
Proof.
  unfold slice. rewrite len_app. pose proof (len_nonneg p). pose proof (len_nonneg r). replace (_ && _) with true by (symmetry; rewrite !andb_true_iff, !Z.leb_le; lia).
  unfold len. rewrite Nat2Z.id, skipn_pre, firstn_all2 by lia. reflexivity.
Qed.

(** The flag nibble tells the terminator and the parity. *)
Lemma compactToHex_flag f x b : nibble f -> nibble x ->
  compactToHex ((f * 16 + x) :: b) = Ret (node_key (f >=? 2) (if Z.odd f then x :: flat_map nibbles_of b else flat_map nibbles_of b)).
Proof.
  intros Hf Hx. unfold compactToHex, keybytesToHex. rewrite removelast_last. cbn [flat_map]. rewrite nibbles_pair by assumption.
  change (index ([f; x] ++ ?l) 0) with (Ret f). cbn [obind]. set (body := flat_map nibbles_of b).
  assert (Eb : (if f >=? 2 then ([f; x] ++ body) ++ [16] else [f; x] ++ body) = [f; x] ++ node_key (f >=? 2) body) by (destruct (f >=? 2); reflexivity).
  rewrite Eb. change 1 with (Z.ones 1) at 1. rewrite Z.land_ones by lia. change (2 ^ 1) with 2. rewrite Zmod_odd. destruct (Z.odd f).
  - change ([f; x] ++ node_key (f >=? 2) body) with ([f] ++ x :: node_key (f >=? 2) body). change (2 - 1) with (len [f]). rewrite slice_tail.
    destruct (f >=? 2); reflexivity.
  - change (2 - 0) with (len [f; x]). apply slice_tail.
Qed.

Lemma nibbles_len b : len (flat_map nibbles_of b) = 2 * len b.
Proof. induction b as [|x b IH]; [reflexivity|]. cbn [flat_map nibbles_of app]. rewrite !len_cons, IH. lia. Qed.

Lemma compact_key t body : Forall nibble body -> exists c, hexToCompact (node_key t body) = Ret c /\ compactToHex c = Ret (node_key t body) /\ bytes_ok c /\ len c = len body / 2 + 1.
Proof.
  intros Hn. assert (Et : hasTerm (node_key t body) = t) by (destruct t; [apply hasTerm_end|apply hasTerm_nibbles, Hn]).
  assert (Eb : (if t then removelast (node_key t body) else node_key t body) = body) by (destruct t; [apply removelast_last|reflexivity]).
  unfold hexToCompact. rewrite Et, Eb. destruct (Z.odd (len body)) eqn:Eo.
  - destruct body as [|x body]; [discriminate|]. inversion Hn as [|? ? Hx Hn']; subst. assert (Eo' : Z.odd (len body) = false).
    { rewrite len_cons, Z.add_1_r, Z.odd_succ in Eo. rewrite <- Z.negb_even, Eo. reflexivity. }
    destruct (even_pairs body Eo') as (n & En). destruct (decodeNibbles_spec body n En Hn') as (b & E & Ef & Hb). cbn [hd tl]. rewrite E. cbn [obind].
    assert (E0 : Z.lor (Z.lor (Z.shiftl (if t then 1 else 0) 5) (Z.shiftl 1 4)) x = (if t then 3 else 1) * 16 + x).
    { pose proof (nibble_pair (if t then 3 else 1) x ltac:(unfold nibble; destruct t; lia) Hx) as P. rewrite <- P. destruct t; reflexivity. }
    rewrite E0. eexists. split; [reflexivity|]. rewrite compactToHex_flag, Ef by (try exact Hx; unfold nibble; destruct t; lia).
    split; [destruct t; reflexivity|]. pose proof (nibbles_len b) as Hl. rewrite Ef in Hl. pose proof (len_nonneg b).
    split; [constructor; [unfold is_byte, nibble in *; destruct t; lia|exact Hb]|rewrite !len_cons, Hl, (Z.mul_comm 2), Z.div_add_l by lia; change (1 / 2) with 0; lia].
  - destruct (even_pairs body Eo) as (n & En). destruct (decodeNibbles_spec body n En Hn) as (b & E & Ef & Hb). rewrite E. cbn [obind].
    assert (E0 : Z.shiftl (if t then 1 else 0) 5 = (if t then 2 else 0) * 16 + 0) by (destruct t; reflexivity). rewrite E0.
    eexists. split; [reflexivity|]. rewrite compactToHex_flag, Ef by (unfold nibble; destruct t; lia).
    split; [destruct t; reflexivity|]. pose proof (nibbles_len b) as Hl. rewrite Ef in Hl. pose proof (len_nonneg b).
    split; [constructor; [unfold is_byte; destruct t; lia|exact Hb]|rewrite len_cons, Hl, Z.mul_comm, Z.div_mul by lia; reflexivity].
Qed.

(** The key of a short node in the form. *)
Lemma short_key k q : wft (PShort k q) -> exists t body, k = node_key t body /\ Forall nibble body /\ t = match q with PVal _ => true | _ => false end.
Proof.
  intros Hw. destruct q as [|v| |ps]; try contradiction.
  - destruct Hw as [Hh _]. exists true. cbn [node_key]. assert (H : exists body, k = body ++ [16] /\ Forall nibble body).
    { clear -Hh. induction Hh as [|x k Hx Hk (b & -> & Hb)]; [exists []; auto|exists (x :: b); auto]. }
    destruct H as (b & -> & Hb). eauto.
  - exists false, k. split; [reflexivity|]. split; [apply Hw|reflexivity].
Qed.

Lemma hasTerm_node_key t body : Forall nibble body -> hasTerm (node_key t body) = t.
Proof. intros H. destruct t; [apply hasTerm_end|apply hasTerm_nibbles, H]. Qed.

Section merkle.
Variable Keccak256 : list Z -> list Z.
Hypothesis Keccak_len : forall b, len (Keccak256 b) = 32.
Variable cachegen : Z.

(** ** The encoding of a trie *)

Definition compact (k : list Z) : list Z := match hexToCompact k with Ret c => c | Panic => [] end.

(** A node is in its parent as it is when it is short, by its hash otherwise. *)
Definition fold_ref (q : ptrie) (v : val) : val :=
  match q with
  | PNil | PVal _ => v
  | _ => if len (rlp v) <? 32 then v else VBytes (Keccak256 (rlp v))
  end.
Fixpoint pval (p : ptrie) : val :=
  match p with
  | PNil => VBytes []
  | PVal v => VBytes v
  | PShort k q => VList [VBytes (compact k); fold_ref q (pval q)]
  | PFull ps => VList (map (fun q => fold_ref q (pval q)) ps)
  end.
Definition pref (q : ptrie) : val := fold_ref q (pval q).
Definition penc (p : ptrie) : list Z := rlp (pval p).

(** The hash of the root. *)
Definition root_hash (p : ptrie) : list Z := match p with PNil => Hash_Bytes emptyRoot | _ => Keccak256 (penc p) end.

(** Keys and values of less than 2^32 bytes. *)
Fixpoint sized (p : ptrie) : Prop :=
  match p with
  | PNil => True
  | PVal v => len v < 2 ^ 32
  | PShort k q => len k < 2 ^ 32 /\ sized q
  | PFull ps => (fix all (ps : list ptrie) : Prop := match ps with [] => True | q :: ps => sized q /\ all ps end) ps
  end.
Lemma sized_full ps : sized (PFull ps) <-> Forall sized ps.
Proof. cbn [sized]. induction ps as [|q ps IH]; [split; auto|]. rewrite IH. split; [intros [H1 H2]; auto|intros H; inversion H; auto]. Qed.

Lemma rlp_list_len vs : len (flat_map rlp vs) < 2 ^ 63 -> len (rlp (VList vs)) <= len (flat_map rlp vs) + 9.
Proof.
  intros H. cbn [rlp]. unfold rlp_list. rewrite len_app. pose proof (len_nonneg (flat_map rlp vs)). rewrite rlp_head_len by lia. unfold headsize.
  destruct (_ <? 56) eqn:E; [lia|]. apply Z.ltb_ge in E. rewrite intsize_byte_len by lia. pose proof (byte_len_small (len (flat_map rlp vs)) ltac:(lia)). lia.
Qed.

Lemma pref_len q : sized q -> len (rlp (pref q)) < 2 ^ 33.
Proof using Keccak_len.
  intros Hs. unfold pref, fold_ref. assert (Hn : len (rlp (if len (rlp (pval q)) <? 32 then pval q else VBytes (Keccak256 (rlp (pval q))))) < 2 ^ 33).
  { destruct (Z.ltb_spec (len (rlp (pval q))) 32); [lia|]. cbn [rlp]. pose proof (rlp_string_le (Keccak256 (rlp (pval q)))) as H1. rewrite Keccak_len in H1. lia. }
  destruct q as [|v|k q|ps]; [cbn; lia| |exact Hn|exact Hn]. cbn [pval rlp]. cbn [sized] in Hs. pose proof (rlp_string_le v ltac:(lia)). lia.
Qed.

Lemma compact_len k q : wft (PShort k q) -> len (compact k) <= len k + 1.
Proof.
  intros Hw. destruct (short_key k q Hw) as (t & body & -> & Hb & _). destruct (compact_key t body Hb) as (c & E & _ & _ & Hl). unfold compact. rewrite E. pose proof (Z.div_le_upper_bound (len body) 2 (len body) ltac:(lia) ltac:(pose proof (len_nonneg body); lia)).
  destruct t; cbn [node_key]; rewrite ?len_app; change (len [16]) with 1; lia.
Qed.

Lemma penc_len p : wft p -> sized p -> len (flat_map rlp (match pval p with VList vs => vs | _ => [] end)) < 2 ^ 40 /\ len (penc p) < 2 ^ 41.
Proof using Keccak_len.
  intros Hw Hs. unfold penc. assert (H : len (flat_map rlp (match pval p with VList vs => vs | _ => [] end)) < 2 ^ 40).
  { destruct p as [|v|k q|ps]; try contradiction; cbn [pval].
    - destruct Hs as [Hk Hq]. pose proof (compact_len k q Hw). fold (pref q). cbn [flat_map rlp]. rewrite !len_app. pose proof (rlp_string_le (compact k) ltac:(lia)).
      pose proof (pref_len q Hq). change (len []) with 0. lia.
    - apply wft_full in Hw. destruct Hw as (Hl & _). apply sized_full in Hs. assert (Hm : len (flat_map rlp (map (fun q => fold_ref q (pval q)) ps)) <= 2 ^ 33 * Z.of_nat (length ps)).
      { clear Hl. induction Hs as [|q ps Hq Hs IH]; [cbn; lia|]. cbn [map flat_map length]. rewrite len_app. pose proof (pref_len q Hq) as Hp. unfold pref in Hp. lia. }
      rewrite Hl in Hm. lia. }
  split; [exact H|]. destruct p as [|v|k q|ps]; try contradiction; cbn [pval] in *; pose proof (rlp_list_len _ ltac:(eapply Z.lt_trans; [exact H|lia])); lia.
Qed.

(** ** The node that is decoded *)

Definition fold_node (q : ptrie) (n : node) : node :=
  match q with
  | PNil | PVal _ => n
  | _ => if len (penc q) <? 32 then n else hashNode (Keccak256 (penc q))
  end.
Fixpoint pnode (h : option (list Z)) (p : ptrie) : node :=
  match p with
  | PNil => nilNode
  | PVal v => valueNode v
  | PShort k q => shortNode k (fold_node q (pnode None q)) (mkFlag h cachegen false)
  | PFull ps => fullNode (map (fun q => fold_node q (pnode None q)) ps) (mkFlag h cachegen false)
  end.
Definition pchild (q : ptrie) : node := fold_node q (pnode None q).

(** What a decoder of nodes does with the tries of less than [size] bytes. *)
Definition decodes_below (dec : option (list Z) -> list Z -> outcome (result node nodeErr)) (size : nat) : Prop :=
  forall p h rest, wft p -> sized p -> (length (penc p ++ rest) < size)%nat -> len (penc p ++ rest) < 2 ^ 63 -> dec h (penc p ++ rest) = Ret (Ok (pnode h p)).

Lemma split_value v k c rest : split_of v = Some (k, c) -> len (rlp v ++ rest) < 2 ^ 63 -> Split (rlp v ++ rest) = Ret (Ok (k, c, rest)).
Proof. intros H Hl. apply reads_Split; [exact Hl|]. apply rlp_reads; assumption. Qed.

Lemma wft_list p : wft p -> exists vs, pval p = VList vs.
Proof. destruct p; try contradiction; cbn; eauto. Qed.

Lemma decodeRef_spec dec size q rest : decodes_below dec size -> wf q -> sized q -> (length (rlp (pref q) ++ rest) < size)%nat -> len (rlp (pref q) ++ rest) < 2 ^ 63 ->
  decodeRef dec (rlp (pref q) ++ rest) = Ret (Ok (pchild q, rest)).
Proof using Keccak_len.
  intros Hd Hq Hs Hsz Hl. unfold decodeRef. destruct Hq as [->|Hw].
  - change (pref PNil) with (VBytes []) in *. rewrite (split_value _ KString [] rest) by (try exact Hl; reflexivity). reflexivity.
  - destruct (wft_list q Hw) as (vs & Ev). assert (Ep : pref q = if len (penc q) <? 32 then pval q else VBytes (Keccak256 (penc q))) by (destruct q; try contradiction; reflexivity).
    assert (Ec : pchild q = if len (penc q) <? 32 then pnode None q else hashNode (Keccak256 (penc q))) by (destruct q; try contradiction; reflexivity).
    rewrite Ec. rewrite Ep in *. destruct (Z.ltb_spec (len (penc q)) 32) as [L|L].
    + rewrite (split_value (pval q) KList (flat_map rlp vs) rest) by (try exact Hl; rewrite Ev; reflexivity). cbn [lift_rlp try_bind obind].
      fold (penc q) in *. rewrite len_app. unfold hashLen. rewrite Z.gtb_ltb. destruct (Z.ltb_spec 32 (len (penc q) + len rest - len rest)); [lia|].
      rewrite (Hd q None rest Hw Hs Hsz Hl). reflexivity.
    + pose proof (Keccak_len (penc q)) as Hk. rewrite (split_value _ KString (Keccak256 (penc q)) rest); [|cbn [split_of]|exact Hl].
      * cbn [lift_rlp try_bind obind]. rewrite Hk. reflexivity.
      * destruct (Keccak256 (penc q)) as [|x [|y l]]; [discriminate|discriminate|]. reflexivity.
Qed.

Lemma split_string_value b rest : len (rlp (VBytes b) ++ rest) < 2 ^ 63 -> SplitString (rlp (VBytes b) ++ rest) = Ret (Ok (b, rest)).
Proof.
  intros Hl. unfold SplitString. rewrite (split_value (VBytes b) (string_kind b) b rest eq_refl Hl). cbn [obind].
  destruct b as [|x [|y b]]; cbn [string_kind]; try reflexivity. destruct (x <=? 127); reflexivity.
Qed.

Lemma decodeShort_spec dec size h k q : decodes_below dec size -> wft (PShort k q) -> sized (PShort k q) ->
  (length (flat_map rlp [VBytes (compact k); pref q]) < size)%nat -> len (flat_map rlp [VBytes (compact k); pref q]) < 2 ^ 63 ->
  decodeShort cachegen dec h (flat_map rlp [VBytes (compact k); pref q]) = Ret (Ok (pnode h (PShort k q))).
Proof using Keccak_len.
  intros Hd Hw [_ Hs] Hsz Hl. cbn [flat_map] in *. unfold decodeShort. rewrite split_string_value by exact Hl. cbn [lift_rlp try_bind obind].
  destruct (short_key k q Hw) as (t & body & Ek & Hb & Et). destruct (compact_key t body Hb) as (c & E1 & E2 & _). rewrite <- Ek in E1, E2.
  assert (Ec : compact k = c) by (unfold compact; rewrite E1; reflexivity). rewrite Ec, E2. cbn [obind]. rewrite Ek, hasTerm_node_key, <- Ek, Et by exact Hb.
  pose proof (len_nonneg (rlp (VBytes (compact k)))). rewrite len_app in Hl. rewrite length_app in Hsz. destruct q as [|v| |ps]; try contradiction.
  - change (pref (PVal v)) with (VBytes v) in *. rewrite split_string_value by lia. reflexivity.
  - rewrite (decodeRef_spec dec size); [reflexivity|exact Hd|right; apply Hw|exact Hs|lia|lia].
Qed.

Lemma decodeChildren_spec dec size qs : decodes_below dec size -> Forall wf qs -> Forall sized qs -> forall rest,
  (length (flat_map rlp (map pref qs) ++ rest) < size)%nat -> len (flat_map rlp (map pref qs) ++ rest) < 2 ^ 63 ->
  decodeChildren dec (length qs) (flat_map rlp (map pref qs) ++ rest) = Ret (Ok (map pchild qs, rest)).
Proof using Keccak_len.
  intros Hd Hq. induction Hq as [|q qs Hq Hqs IH]; intros Hs rest Hsz Hl; [reflexivity|]. inversion Hs; subst. cbn [map flat_map length decodeChildren] in *.
  rewrite <- app_assoc in *. rewrite (decodeRef_spec dec size q) by assumption. cbn [try_bind obind].
  rewrite length_app in Hsz. rewrite len_app in Hl. pose proof (len_nonneg (rlp (pref q))). rewrite IH by (assumption || lia). reflexivity.
Qed.

Lemma full_split ps : wft (PFull ps) -> exists qs c, ps = qs ++ [c] /\ length qs = 16%nat /\ Forall wf qs /\ value_form c.
Proof.
  intros Hw. apply wft_full in Hw. destruct Hw as (Hl & _ & Hf). destruct (exists_last (l := ps)) as (qs & c & ->); [intros ->; discriminate|].
  rewrite length_app in Hl. cbn in Hl. exists qs, c. split; [reflexivity|]. split; [lia|]. split.
  - apply Forall_forall. intros q Hq. apply (In_nth _ _ PNil) in Hq. destruct Hq as (i & Hi & Eq). specialize (Hf (Z.of_nat i) ltac:(lia)).
    unfold child_form, child in Hf. rewrite Nat2Z.id, app_nth1, Eq in Hf by exact Hi. destruct (Z.eqb_spec (Z.of_nat i) 16); [lia|exact Hf].
  - specialize (Hf 16 ltac:(lia)). unfold child_form, child in Hf. rewrite app_nth2 in Hf by lia. replace (Z.to_nat 16 - length qs)%nat with O in Hf by lia. exact Hf.
Qed.

Lemma decodeFull_spec dec size h ps : decodes_below dec size -> wft (PFull ps) -> sized (PFull ps) ->
  (length (flat_map rlp (map pref ps)) < size)%nat -> len (flat_map rlp (map pref ps)) < 2 ^ 63 ->
  decodeFull cachegen dec h (flat_map rlp (map pref ps)) = Ret (Ok (pnode h (PFull ps))).
Proof using Keccak_len.
  intros Hd Hw Hs Hsz Hl. destruct (full_split ps Hw) as (qs & c & -> & L16 & Hqs & Hc). apply sized_full, Forall_app in Hs. destruct Hs as [Hs _].
  rewrite map_app, flat_map_app in *. unfold decodeFull. rewrite <- L16. rewrite (decodeChildren_spec dec size) by assumption. cbn [try_bind obind map flat_map].
  rewrite len_app in Hl. cbn [map flat_map] in Hl. pose proof (len_nonneg (flat_map rlp (map pref qs))).
  assert (Ec : exists v, pref c = VBytes v /\ pchild c = if 0 <? len v then valueNode v else nilNode).
  { destruct Hc as [->|(v & -> & Nv)]; [exists []; auto|exists v; split; [reflexivity|]]. destruct v as [|x v]; [contradiction|]. rewrite len_cons. pose proof (len_nonneg v).
    destruct (Z.ltb_spec 0 (len v + 1)); [reflexivity|lia]. }
  destruct Ec as (v & Ev & Ech). rewrite Ev in *. rewrite split_string_value by lia. cbn [lift_rlp try_bind obind]. rewrite <- Ech. cbn [pnode]. rewrite map_app. reflexivity.
Qed.

(** Decoding a node inverts its encoding. *)
Lemma decode_spec size : decodes_below (decodeNode_depth cachegen size) size.
Proof using Keccak_len.
  induction size as [|size IH]; intros p h rest Hw Hs Hsz Hl; [lia|]. destruct (wft_list p Hw) as (vs & Ev). cbn [decodeNode_depth].
  assert (Esp : SplitList (penc p ++ rest) = Ret (Ok (flat_map rlp vs, rest))).
  { unfold SplitList, penc in *. rewrite (split_value (pval p) KList (flat_map rlp vs) rest) by (try exact Hl; rewrite Ev; reflexivity). reflexivity. }
  pose proof (penc_len p Hw Hs) as [Hpl _]. rewrite Ev in Hpl. assert (Hvs : (length (flat_map rlp vs) < size)%nat /\ (len (penc p ++ rest) =? 0) = false).
  { unfold penc in *. rewrite Ev in *. cbn [rlp] in *. unfold rlp_list in *. assert (1 <= length (rlp_head 0xC0 0xF7 (len (flat_map rlp vs))))%nat by (unfold rlp_head; destruct (_ <? _); cbn [length]; lia).
    set (hd := rlp_head _ _ _) in *. clearbody hd. rewrite <- app_assoc, length_app, length_app in Hsz. split; [lia|]. unfold len. apply Z.eqb_neq. rewrite !length_app. lia. }
  destruct Hvs as [Hvs ->]. rewrite Esp. cbn [lift_rlp try_bind obind].
  assert (Hsp : Forall (fun v => split_of v <> None) vs /\ (len vs = 2 \/ len vs = 17)).
  { assert (Hr : forall q, split_of (pref q) <> None).
    { intros q. unfold pref, fold_ref. destruct q; try discriminate; destruct (_ <? _); discriminate. }
    destruct p as [|v|k q|ps]; try contradiction; cbn [pval] in Ev; injection Ev as <-.
    - split; [|left; reflexivity]. repeat constructor; [discriminate|apply Hr].
    - apply wft_full in Hw. split; [|right; unfold len; rewrite length_map, (proj1 Hw); reflexivity]. apply Forall_forall. intros v Hv. apply in_map_iff in Hv. destruct Hv as (q & <- & _). apply Hr. }
  destruct Hsp as [Hsp Hn]. unfold CountValues. rewrite count_values by (try exact Hsp; lia). cbn [obind]. rewrite Z.add_0_l.
  destruct p as [|v|k q|ps]; try contradiction; cbn [pval] in Ev; injection Ev as <-.
  - change (len [VBytes (compact k); fold_ref q (pval q)]) with 2. fold (pref q) in *. apply (decodeShort_spec _ size); auto. lia.
  - pose proof Hw as Hw'. apply wft_full in Hw'. destruct Hn as [Hn|Hn]; [exfalso; unfold len in Hn; rewrite length_map, (proj1 Hw') in Hn; discriminate|]. rewrite Hn.
    apply (decodeFull_spec _ size); auto. unfold pref. lia.
Qed.

(** The encoder takes such a value. *)
Lemma pval_encodable p : uints_ok (pval p) = true /\ has_negative (pval p) = false.
Proof.
  induction p as [|v|k q IH|ps IH] using ptrie_children_ind; [auto|auto| |].
  - cbn [pval uints_ok has_negative forallb existsb]. assert (Hf : uints_ok (fold_ref q (pval q)) = true /\ has_negative (fold_ref q (pval q)) = false).
    { unfold fold_ref. destruct q; auto; destruct (_ <? _); auto. }
    destruct Hf as [-> ->]. auto.
  - cbn [pval uints_ok has_negative]. induction IH as [|q ps [H1 H2] _ [I1 I2]]; [auto|]. cbn [map forallb existsb]. rewrite I1, I2.
    assert (Hf : uints_ok (fold_ref q (pval q)) = true /\ has_negative (fold_ref q (pval q)) = false) by (unfold fold_ref; destruct q; auto; destruct (_ <? _); auto).
    destruct Hf as [-> ->]. auto.
Qed.

Lemma encode_pval p : wft p -> sized p -> EncodeToBytes (pval p) = Ret (Ok (penc p)).
Proof using Keccak_len.
  intros Hw Hs. destruct (pval_encodable p) as [H1 H2]. pose proof (penc_len p Hw Hs) as [_ Hl]. unfold penc in *. rewrite EncodeToBytes_rlp, H2 by (try exact H1; lia). reflexivity.
Qed.

(** ** What a database has of a trie *)

Section stored.
Variable Get : list Z -> option (list Z).

(** The nodes of a trie that have a hash are in the database under it. *)
Definition self_stored (p : ptrie) : Prop := 32 <= len (penc p) -> Get (Keccak256 (penc p)) = Some (penc p).
Fixpoint instore (p : ptrie) : Prop :=
  match p with
  | PNil | PVal _ => True
  | PShort k q => self_stored p /\ instore q
  | PFull ps => self_stored p /\ (fix all (ps : list ptrie) : Prop := match ps with [] => True | q :: ps => instore q /\ all ps end) ps
  end.
Lemma instore_full ps : instore (PFull ps) <-> self_stored (PFull ps) /\ Forall instore ps.
Proof.
  cbn [instore]. assert (H : forall ps, (fix all (ps : list ptrie) : Prop := match ps with [] => True | q :: ps => instore q /\ all ps end) ps <-> Forall instore ps).
  { clear. induction ps as [|q ps IH]; [split; auto|]. rewrite IH. split; [intros [H1 H2]; auto|intros H; inversion H; auto]. }
  rewrite H. reflexivity.
Qed.
Lemma instore_self p : wft p -> instore p -> self_stored p.
Proof. destruct p; try contradiction; intros _ [H _]; exact H. Qed.

(** A cached hash is the hash, and a node that is not dirty is stored. *)
Definition flag_right (fl : nodeFlag) (p : ptrie) : Prop :=
  (forall h, flag_hash fl = Some h -> h = Keccak256 (penc p) /\ 32 <= len (penc p)) /\ (flag_dirty fl = false -> instore p).
Definition hash_right (h : list Z) (p : ptrie) : Prop :=
  h = Keccak256 (penc p) /\ 32 <= len (penc p) /\ instore p /\ wft p /\ sized p.
Definition stands_for : node -> ptrie -> Prop := resolves flag_right hash_right.

Lemma wf_children ps : wft (PFull ps) -> Forall (fun q => wf q \/ value_form q) ps.
Proof. intros Hw. destruct (full_split ps Hw) as (qs & c & -> & _ & Hqs & Hc). apply Forall_app. split; [eapply Forall_impl; [|exact Hqs]; auto|constructor; auto]. Qed.

Lemma pnode_stands p : wft p -> sized p -> instore p -> forall h, (forall h', h = Some h' -> h' = Keccak256 (penc p) /\ 32 <= len (penc p)) -> stands_for (pnode h p) p.
Proof.
  assert (Hchild : forall q, wf q \/ value_form q -> sized q -> instore q ->
    (wft q -> sized q -> instore q -> forall h, (forall h', h = Some h' -> h' = Keccak256 (penc q) /\ 32 <= len (penc q)) -> stands_for (pnode h q) q) -> stands_for (pchild q) q).
  { intros q Hq Hs Hi IH. unfold pchild, fold_node. destruct Hq as [[->|Hw]|[->|(v & -> & _)]]; [constructor| |constructor|constructor].
    assert (Hn : stands_for (if len (penc q) <? 32 then pnode None q else hashNode (Keccak256 (penc q))) q).
    { destruct (Z.ltb_spec (len (penc q)) 32); [apply IH; auto; discriminate|]. constructor. split; auto. }
    destruct q; try contradiction; exact Hn. }
  induction p as [|v|k q IH|ps IH] using ptrie_children_ind; intros Hw Hs Hi h Hh; try contradiction.
  - cbn [pnode]. constructor; [|split; [intros h' E; apply Hh, E|intros _; exact Hi]]. destruct Hi as [_ Hi]. destruct Hs as [_ Hs]. apply Hchild; auto.
    destruct q as [|v| |ps]; try contradiction; [right; right; exists v; split; [reflexivity|apply Hw]|left; right; apply Hw].
  - cbn [pnode]. constructor; [|split; [intros h' E; apply Hh, E|intros _; exact Hi]]. apply instore_full in Hi. destruct Hi as [_ Hi]. apply sized_full in Hs.
    pose proof (wf_children ps Hw) as Hc. clear Hw Hh h. induction IH as [|q ps Hq _ IHs]; [constructor|]. inversion Hs; inversion Hi; inversion Hc; subst. cbn [map]. constructor; [apply Hchild; auto|auto].
Qed.

Lemma right_resolves h p prefix : hash_right h p -> exists n, resolveHash Get cachegen h prefix = Ret (Ok n) /\ loaded_node n /\ stands_for n p.
Proof using Keccak_len.
  intros (-> & Hl & Hi & Hw & Hs). exists (pnode (Some (Keccak256 (penc p))) p). pose proof (penc_len p Hw Hs) as [_ Hpl]. split; [|split].
  - unfold resolveHash. rewrite (instore_self p Hw Hi Hl). unfold mustDecodeNode, decodeNode.
    pose proof (decode_spec (S (length (penc p))) p (Some (Keccak256 (penc p))) []) as D. rewrite app_nil_r in D. rewrite D by (auto; lia). reflexivity.
  - destruct p; try contradiction; exact I.
  - apply pnode_stands; auto. intros h' [= <-]. auto.
Qed.

Lemma new_right p : flag_right (newFlag cachegen) p.
Proof. split; [discriminate|discriminate]. Qed.
Lemma gen_right fl p : flag_right fl p -> flag_right (mkFlag (flag_hash fl) cachegen (flag_dirty fl)) p.
Proof. intros H. exact H. Qed.
End stored.
End merkle.
