(* ===== verification/TrieStore.v ===== *)
(** * Theorems: hashing and committing a trie

    [Hash] computes the root hash of the trie a node stands for, and [CommitTo]
    also writes its nodes: under the root hash they return, the database has the
    whole trie. *)

From Stdlib Require Import ZArith List Lia Bool.
From S2P Require Import Prelude GoBig ByteBuf CommonTypes Rlp RlpTheorems TrieNode TrieOps TrieHash TrieSpec TrieRefine TrieMerkle.
Import ListNotations.
Local Open Scope Z_scope.

(** ** Databases that grow *)

(** What is under the hashes stays. *)
Definition extends (Get Get' : list Z -> option (list Z)) : Prop := forall k v, len k = 32 -> Get k = Some v -> Get' k = Some v.

Section grow.
Variable Keccak256 : list Z -> list Z.
Hypothesis Keccak_len : forall b, len (Keccak256 b) = 32.

Lemma instore_grow Get Get' p : extends Get Get' -> instore Keccak256 Get p -> instore Keccak256 Get' p.
Proof.
  intros He. assert (Hs : forall p, self_stored Keccak256 Get p -> self_stored Keccak256 Get' p) by (intros q H L; apply He; [apply Keccak_len|apply H, L]).
  induction p as [|v|k q IH|ps IH] using ptrie_children_ind; auto.
  - intros [H1 H2]. split; [apply Hs, H1|apply IH, H2].
  - intros H. apply instore_full in H. apply instore_full. destruct H as [H1 H2]. split; [apply Hs, H1|].
    clear H1. induction IH as [|q ps Hq _ IHs]; [constructor|]. inversion H2; subst. constructor; auto.
Qed.

Lemma stands_grow Get Get' p : extends Get Get' -> forall n, stands_for Keccak256 Get n p -> stands_for Keccak256 Get' n p.
Proof.
  intros He. assert (Hf : forall fl p, flag_right Keccak256 Get fl p -> flag_right Keccak256 Get' fl p).
  { intros fl q [H1 H2]. split; [exact H1|]. intros Hd. apply (instore_grow Get); auto. }
  assert (Hh : forall h p, hash_right Keccak256 Get h p -> hash_right Keccak256 Get' h p).
  { intros h q (H1 & H2 & H3 & H4). split; [exact H1|]. split; [exact H2|]. split; [apply (instore_grow Get); auto|exact H4]. }
  induction p as [|v|k q IH|ps IH] using ptrie_children_ind; intros n H;
    inversion H as [|v' E1 E2|k' n' p' fl' Hn Hfl E1 E2|ns ps' fl' Hc Hfl E1 E2|h p' Hr E1 E2]; try (constructor; auto; fail).
  - constructor; [apply IH, Hn|auto].
  - constructor; [|auto]. clear -IH Hc. revert ns Hc. induction IH as [|q ps Hq _ IHs]; intros ns Hc; inversion Hc; subst; constructor; auto. apply Hq. assumption.
Qed.
End grow.

Section commit.
Variable Keccak256 : list Z -> list Z.
Hypothesis Keccak_len : forall b, len (Keccak256 b) = 32.
Context {W E : Type}.
Variable Put : W -> list Z -> list Z -> W * option E.
Variables cachegen cachelimit : Z.
(** What a writer has been given. *)
Variable written : W -> list Z -> option (list Z).
Hypothesis Put_written : forall w k v w', Put w k v = (w', None) -> forall j, written w' j = if key_eqb j k then Some v else written w j.
(** The encodings that are hashed; no two of them have the same hash. *)
Variable known : list Z -> Prop.
Hypothesis no_collision : forall (w : W) a b, known a -> known b -> Keccak256 a = Keccak256 b -> a = b.
(** The database of the trie, when nothing is written. *)
Variable Get : list Z -> option (list Z).

Abbreviation penc := (penc Keccak256).
Abbreviation pval := (pval Keccak256).
Definition view (db : option W) : list Z -> option (list Z) := match db with None => Get | Some w => written w end.
Abbreviation stands db := (stands_for Keccak256 (view db)).

(** Under the hash of an encoding there is nothing else. *)
Definition clean (db : option W) : Prop := db <> None -> forall e, known e -> view db (Keccak256 e) = None \/ view db (Keccak256 e) = Some e.

Fixpoint knowns (p : ptrie) : Prop :=
  match p with
  | PNil | PVal _ => True
  | PShort k q => known (penc p) /\ knowns q
  | PFull ps => known (penc p) /\ (fix all (ps : list ptrie) : Prop := match ps with [] => True | q :: ps => knowns q /\ all ps end) ps
  end.
Lemma knowns_full ps : knowns (PFull ps) <-> known (penc (PFull ps)) /\ Forall knowns ps.
Proof.
  cbn [knowns]. assert (H : forall ps, (fix all (ps : list ptrie) : Prop := match ps with [] => True | q :: ps => knowns q /\ all ps end) ps <-> Forall knowns ps).
  { clear. induction ps as [|q ps IH]; [split; auto|]. rewrite IH. split; [intros [H1 H2]; auto|intros H; inversion H; auto]. }
  rewrite H. reflexivity.
Qed.

Definition same_mode (db db' : option W) : Prop := match db, db' with None, None => True | Some _, Some _ => True | _, _ => False end.

Lemma same_mode_trans db1 db2 db3 : same_mode db1 db2 -> same_mode db2 db3 -> same_mode db1 db3.
Proof. destruct db1, db2, db3; cbn; auto; contradiction. Qed.

(** The database after some writes of known encodings. *)
Record grown (db db' : option W) : Prop := {
  gr_mode : same_mode db db';
  gr_extends : extends (view db) (view db');
  gr_clean : clean db' }.

Lemma grown_refl db : clean db -> grown db db.
Proof. intros H. split; [destruct db; exact I|intros k v; auto|exact H]. Qed.
Lemma grown_trans db1 db2 db3 : grown db1 db2 -> grown db2 db3 -> grown db1 db3.
Proof.
  intros [M1 E1 _] [M2 E2 C2]. split; [destruct db1, db2, db3; try contradiction; exact I|intros k v Hk H; apply E2; [exact Hk|apply E1; assumption]|exact C2].
Qed.

(** A collapsed node is the hash of a large node, and has the encoding of a small one. *)
Definition collapses (hashed : node) (p : ptrie) : Prop :=
  if len (penc p) <? 32 then node_val hashed = pval p /\ loaded_node hashed else hashed = hashNode (Keccak256 (penc p)).

(** An error is one of [Put]. *)
Definition put_error (db db' : option W) (e : E) : Prop := same_mode db db' /\ exists w k v, snd (Put w k v) = Some e.

Definition hashes (db : option W) (p : ptrie) (out : outcome (option W * result (node * node) E)) : Prop :=
  exists db' r, out = Ret (db', r) /\
    match r with
    | Err e => put_error db db' e
    | Ok (hashed, cached) => grown db db' /\ collapses hashed p /\ stands db' cached p /\ (db <> None -> instore Keccak256 (view db') p)
    end.

Lemma Put_grown w e w' : clean (Some w) -> known e -> Put w (Keccak256 e) e = (w', None) -> grown (Some w) (Some w') /\ written w' (Keccak256 e) = Some e.
Proof using Put_written no_collision.
  intros Hc Hk Hp. pose proof (Put_written w (Keccak256 e) e w' Hp) as Hw.
  assert (Hs : written w' (Keccak256 e) = Some e) by (rewrite Hw; destruct (key_eqb_spec (Keccak256 e) (Keccak256 e)); congruence).
  split; [|exact Hs]. split; [exact I| |].
  - intros k v _ Hv. cbn [view] in *. rewrite Hw. destruct (key_eqb_spec k (Keccak256 e)) as [->|]; [|exact Hv].
    destruct (Hc ltac:(discriminate) e Hk) as [H0|H0]; cbn [view] in H0; congruence.
  - intros _ a Ha. cbn [view]. rewrite Hw. destruct (key_eqb_spec (Keccak256 a) (Keccak256 e)) as [Ek|]; [|apply (Hc ltac:(discriminate) a Ha)].
    right. rewrite (no_collision w a e Ha Hk Ek). reflexivity.
Qed.

(** The flags that [hash] leaves. *)
Lemma flag_after db db' fl hashed p : wft p -> flag_right Keccak256 (view db) fl p -> same_mode db db' -> extends (view db) (view db') -> collapses hashed p ->
  (db <> None -> instore Keccak256 (view db') p) ->
  flag_right Keccak256 (view db') (mkFlag (hash_of hashed) (flag_gen fl) (if match db' with Some _ => true | None => false end then false else flag_dirty fl)) p.
Proof using Keccak_len.
  intros Hw [F1 F2] Hm He Hc Hi. split; cbn [flag_hash flag_dirty].
  - intros h Eh. unfold collapses in Hc. destruct (Z.ltb_spec (len (penc p)) 32) as [L|L].
    + destruct Hc as [_ Hl]. destruct hashed; try contradiction; discriminate.
    + subst hashed. injection Eh as <-. auto.
  - destruct db, db'; try contradiction; [intros _; apply Hi; discriminate|]. intros Hd. apply (instore_grow Keccak256 Keccak_len (view None)); auto.
Qed.

Lemma store_spec db collapsed fl p force : wft p -> sized p -> known (penc p) -> clean db -> (force = true -> 32 <= len (penc p)) ->
  node_val collapsed = pval p -> cache collapsed = (flag_hash fl, flag_dirty fl) -> loaded_node collapsed ->
  (forall h, flag_hash fl = Some h -> h = Keccak256 (penc p)) ->
  exists db' r, store Keccak256 Put collapsed db force = Ret (db', r) /\
    match r with
    | Err e => put_error db db' e
    | Ok hashed => grown db db' /\ collapses hashed p /\ (db <> None -> self_stored Keccak256 (view db') p)
    end.
Proof using Keccak_len Put_written no_collision.
  intros Hw Hs Hk Hc Hf Ev Ec Hl Hh. assert (Es : store Keccak256 Put collapsed db force =
    if (len (penc p) <? 32) && negb force then Ret (db, Ok collapsed)
    else match db with
         | None => Ret (db, Ok (hashNode (Keccak256 (penc p))))
         | Some w => let '(w, err) := Put w (Keccak256 (penc p)) (penc p) in
                     Ret (Some w, match err with None => Ok (hashNode (Keccak256 (penc p))) | Some e => Err e end)
         end).
  { unfold store. destruct collapsed as [|l f|k m f|h|v]; try contradiction; rewrite Ev, (encode_pval Keccak256 Keccak_len p Hw Hs); cbn [obind]; cbn [fst] in *;
      rewrite Ec; cbn [fst]; (destruct (flag_hash fl) as [h|] eqn:Eh; [rewrite (Hh h eq_refl)|]); reflexivity. }
  rewrite Es. unfold collapses. destruct (Z.ltb_spec (len (penc p)) 32) as [L|L]; [destruct force; [specialize (Hf eq_refl); lia|]|]; cbn [andb negb].
  - do 2 eexists. split; [reflexivity|]. split; [apply grown_refl, Hc|]. split; [auto|]. intros _ L'. lia.
  - destruct db as [w|]; [|do 2 eexists; split; [reflexivity|]; split; [apply grown_refl, Hc|]; split; [reflexivity|contradiction]].
    destruct (Put w (Keccak256 (penc p)) (penc p)) as [w' [e|]] eqn:Ep; [do 2 eexists; split; [reflexivity|]; split; [exact I|]; exists w, (Keccak256 (penc p)), (penc p); rewrite Ep; reflexivity|].
    destruct (Put_grown w (penc p) w' Hc Hk Ep) as [Hg Hst]. do 2 eexists. split; [reflexivity|]. split; [exact Hg|]. split; [reflexivity|]. intros _ _. exact Hst.
Qed.

(** A node with other flags. *)
Definition reflag (n : node) (f : nodeFlag) : node :=
  match n with
  | shortNode k v _ => shortNode k v f
  | fullNode clds _ => fullNode clds f
  | _ => n
  end.

(** [finish_hash], after the children: the cached node stands for the trie whatever its flags are, if they are right. *)
Lemma finish_hash_spec db0 db collapsed cached fl p force : wft p -> sized p -> known (penc p) -> grown db0 db -> (force = true -> 32 <= len (penc p)) ->
  node_val collapsed = pval p -> cache collapsed = (flag_hash fl, flag_dirty fl) -> loaded_node collapsed -> flag_right Keccak256 (view db0) fl p ->
  loaded_node cached -> reflag cached fl = cached ->
  (forall db', grown db db' -> forall f, flag_right Keccak256 (view db') f p -> stands db' (reflag cached f) p) ->
  (db0 <> None -> forall db', grown db db' -> self_stored Keccak256 (view db') p -> instore Keccak256 (view db') p) ->
  hashes db0 p (finish_hash Keccak256 Put collapsed cached db force).
Proof using Keccak_len Put_written no_collision.
  intros Hw Hs Hk Hg Hf Ev Ec Hl Hfl Hlc Href Hcached Hin. unfold finish_hash.
  destruct (store_spec db collapsed fl p force Hw Hs Hk (gr_clean _ _ Hg) Hf Ev Ec Hl (fun h E => proj1 (proj1 Hfl h E))) as (db' & r & -> & Hr). cbn [obind].
  destruct r as [hashed|e]; [|do 2 eexists; split; [reflexivity|]; split; [apply (same_mode_trans _ _ _ (gr_mode _ _ Hg)), Hr|apply Hr]]. destruct Hr as (Hg' & Hc & Hst). do 2 eexists. split; [reflexivity|].
  pose proof (grown_trans _ _ _ Hg Hg') as Hg0. split; [exact Hg0|]. split; [exact Hc|].
  assert (Hi : db0 <> None -> instore Keccak256 (view db') p).
  { intros N. apply (Hin N db' Hg'). apply Hst. pose proof (gr_mode _ _ Hg) as M. destruct db0; [|contradiction]. destruct db; [discriminate|contradiction]. }
  split; [|exact Hi]. pose proof (flag_after db0 db' fl hashed p Hw Hfl (gr_mode _ _ Hg0) (gr_extends _ _ Hg0) Hc Hi) as Hfa.
  pose proof (Hcached db' Hg' _ Hfa) as H. destruct cached; try contradiction; injection Href as <-; exact H.
Qed.

(** The value of a collapsed child. *)
Lemma collapses_val cc q : wft q -> collapses cc q -> node_val cc = pref Keccak256 q.
Proof.
  intros Hw Hc. assert (Ep : pref Keccak256 q = if len (penc q) <? 32 then pval q else VBytes (Keccak256 (penc q))) by (destruct q; try contradiction; reflexivity).
  rewrite Ep. unfold collapses in Hc. destruct (len (penc q) <? 32); [apply Hc|subst cc; reflexivity].
Qed.

Definition hash_spec_at (p : ptrie) : Prop := forall n db force, stands db n p -> wft p -> sized p -> knowns p -> clean db -> (force = true -> 32 <= len (penc p)) ->
  hashes db p (hash Keccak256 Put cachegen cachelimit n db force).

(** The children from the [i]-th on. *)
Fixpoint forms_from (i : nat) (ps : list ptrie) : Prop :=
  match ps with [] => True | q :: ps => (if (i <? 16)%nat then wf q else value_form q) /\ forms_from (S i) ps end.

Lemma full_forms ps : wft (PFull ps) -> forms_from 0 ps.
Proof.
  intros Hw. destruct (full_split ps Hw) as (qs & c & -> & L & Hqs & Hc). assert (H : forall n i, (i + n = 16)%nat -> forall qs, length qs = n -> Forall wf qs -> forms_from i (qs ++ [c])).
  { clear -Hc. induction n as [|n IH]; intros i Hi qs Hl Hq; destruct qs as [|q qs]; try discriminate; cbn [app forms_from].
    - destruct (Nat.ltb_spec i 16); [lia|]. auto.
    - inversion Hq; subst. destruct (Nat.ltb_spec i 16); [|lia]. split; [assumption|]. apply IH; auto. lia. }
  apply (H 16%nat); auto.
Qed.

Lemma children_spec ps : Forall hash_spec_at ps -> forall i ns db, forms_from i ps -> Forall2 (stands db) ns ps -> Forall sized ps -> Forall knowns ps -> clean db ->
  exists db' r, hash_children (hash Keccak256 Put cachegen cachelimit) i ns db = Ret (db', r) /\
    match r with
    | Err e => put_error db db' e
    | Ok (ccs, kcs) => grown db db' /\ map node_val ccs = map (pref Keccak256) ps /\ Forall2 (stands db') kcs ps /\ (db <> None -> Forall (instore Keccak256 (view db')) ps)
    end.
Proof using Keccak_len.
  induction 1 as [|q ps Hq _ IH]; intros i ns db Hfo Hns Hs Hk Hc; inversion Hns as [|c q' ns' ps' Hcq Hns']; subst; cbn [hash_children].
  { do 2 eexists. split; [reflexivity|]. split; [apply grown_refl, Hc|]. split; [reflexivity|]. split; constructor. }
  inversion Hs; inversion Hk; subst. destruct Hfo as [Hfq Hfo].
  assert (Hx : exists db1 r1, (if (i <? 16)%nat && negb (is_nil c) then hash Keccak256 Put cachegen cachelimit c db false else Ret (db, Ok (not_nil c, c))) = Ret (db1, r1) /\
    match r1 with
    | Err e => put_error db db1 e
    | Ok (cc, kc) => grown db db1 /\ node_val cc = pref Keccak256 q /\ stands db1 kc q /\ (db <> None -> instore Keccak256 (view db1) q)
    end).
  { assert (Hnil : is_nil c = is_pnil q) by exact (resolves_nil (view db) cachegen _ _ (right_resolves Keccak256 Keccak_len cachegen (view db)) c q Hcq).
    assert (Hskip : (q = PNil \/ exists v, q = PVal v) -> exists db1 r1, Ret (db, Ok (not_nil c, c)) = Ret (db1, r1) /\
      match r1 with Err e => put_error db db1 e
      | Ok (cc, kc) => grown db db1 /\ node_val cc = pref Keccak256 q /\ stands db1 kc q /\ (db <> None -> instore Keccak256 (view db1) q) end).
    { intros Hv. do 2 eexists. split; [reflexivity|]. split; [apply grown_refl, Hc|]. split; [|split; [exact Hcq|intros _; destruct Hv as [->|(v & ->)]; exact I]].
      assert (Ec : c = match q with PVal v => valueNode v | _ => nilNode end).
      { inversion Hcq as [|v' E1 E2|k' n' p' fl' Hn Hfl E1 E2|ns0 ps0 fl' Hcc Hfl E1 E2|h p' Hr E1 E2]; subst; try reflexivity; try (destruct Hv as [|(v & ?)]; discriminate).
        destruct Hr as (_ & _ & _ & Hw & _). destruct Hv as [->|(v & ->)]; contradiction. }
      rewrite Ec. destruct Hv as [->|(v & ->)]; reflexivity. }
    destruct (Nat.ltb_spec i 16) as [L|L]; cbn [andb]; [|apply Hskip; destruct Hfq as [->|(v & -> & _)]; eauto].
    rewrite Hnil. destruct Hfq as [->|Hw]; [apply Hskip; auto|]. replace (negb (is_pnil q)) with true by (destruct q; try contradiction; reflexivity).
    destruct (Hq c db false Hcq Hw ltac:(assumption) ltac:(assumption) Hc ltac:(discriminate)) as (db1 & r1 & E1 & H1'). rewrite E1. do 2 eexists. split; [reflexivity|].
    destruct r1 as [[cc kc]|e]; [|exact H1']. destruct H1' as (G1 & G2 & G3 & G4). split; [exact G1|]. split; [apply collapses_val; assumption|]. auto. }
  destruct Hx as (db1 & r1 & -> & H1'). cbn [obind]. destruct r1 as [[cc kc]|e]; [|do 2 eexists; split; [reflexivity|exact H1']]. destruct H1' as (G1 & G2 & G3 & G4).
  assert (Hns1 : Forall2 (stands db1) ns' ps).
  { clear -Keccak_len Hns' G1. induction Hns'; constructor; auto. apply (stands_grow Keccak256 Keccak_len (view db)); [apply G1|assumption]. }
  destruct (IH (S i) ns' db1 Hfo Hns1 ltac:(assumption) ltac:(assumption) (gr_clean _ _ G1)) as (db2 & r2 & -> & H2'). cbn [obind].
  destruct r2 as [[ccs kcs]|e]; [|do 2 eexists; split; [reflexivity|]; split; [apply (same_mode_trans _ _ _ (gr_mode _ _ G1)), H2'|apply H2']]. destruct H2' as (K1 & K2 & K3 & K4). do 2 eexists. split; [reflexivity|].
  split; [apply (grown_trans _ _ _ G1 K1)|]. split; [cbn [map]; congruence|]. split; [constructor; [apply (stands_grow Keccak256 Keccak_len (view db1)); [apply K1|exact G3]|exact K3]|].
  intros N. constructor; [apply (instore_grow Keccak256 Keccak_len (view db1)); [apply K1|apply G4, N]|]. apply K4. pose proof (gr_mode _ _ G1) as M. destruct db; [|contradiction]. destruct db1; [discriminate|contradiction].
Qed.

Lemma cached_spec n fl db p r : cache n = (flag_hash fl, flag_dirty fl) -> canUnload n cachegen cachelimit = flag_canUnload fl cachegen cachelimit ->
  flag_right Keccak256 (view db) fl p -> stands db n p -> wft p -> sized p -> clean db -> cached_result cachegen cachelimit n db = Some r -> hashes db p (Ret (db, Ok r)).
Proof.
  intros Ec Eu [F1 F2] Hst Hw Hs Hc. unfold cached_result. rewrite Ec. destruct (flag_hash fl) as [h|] eqn:Eh; [|discriminate]. destruct (F1 h eq_refl) as [-> Hl].
  assert (Hcol : collapses (hashNode (Keccak256 (penc p))) p) by (unfold collapses; destruct (Z.ltb_spec (len (penc p)) 32); [lia|reflexivity]).
  assert (Hout : forall cached, stands db cached p -> (db <> None -> instore Keccak256 (view db) p) -> hashes db p (Ret (db, Ok (hashNode (Keccak256 (penc p)), cached)))).
  { intros cached H1 H2. do 2 eexists. split; [reflexivity|]. split; [apply grown_refl, Hc|]. auto. }
  destruct db as [w|]; [|intros [= <-]; apply Hout; [exact Hst|contradiction]]. rewrite Eu. unfold flag_canUnload. destruct (flag_dirty fl) eqn:Ed; [discriminate|]. cbn [negb andb].
  specialize (F2 eq_refl). destruct (_ >=? _); intros [= <-]; (apply Hout; [|intros _; exact F2]); [|exact Hst]. constructor. split; auto.
Qed.

(** The child of a short node. *)
Lemma short_child_spec k q n db : hash_spec_at q -> stands db n q -> wft (PShort k q) -> sized q -> knowns q -> clean db ->
  exists db' r, match n with valueNode _ => Ret (db, Ok (n, n)) | _ => hash Keccak256 Put cachegen cachelimit n db false end = Ret (db', r) /\
    match r with
    | Err e => put_error db db' e
    | Ok (cv, kv) => grown db db' /\ node_val (not_nil cv) = pref Keccak256 q /\ stands db' kv q /\ (db <> None -> instore Keccak256 (view db') q)
    end.
Proof.
  intros IH Hn Hw Hsq Hkq Hc. destruct q as [|v| |ps]; try contradiction.
  - inversion Hn as [|v' E1' E2'| | |h p' Hr E1' E2']; subst; [|destruct Hr as (_ & _ & _ & Hw' & _); contradiction].
    do 2 eexists. split; [reflexivity|]. split; [apply grown_refl, Hc|]. split; [reflexivity|]. split; [exact Hn|intros _; exact I].
  - destruct (IH n db false Hn (proj2 (proj2 Hw)) Hsq Hkq Hc ltac:(discriminate)) as (db' & r & E' & Hr). exists db', r. split; [destruct n; try exact E'; inversion Hn|].
    destruct r as [[cv kv]|e]; [|exact Hr]. destruct Hr as (G1 & G2 & G3 & G4). split; [exact G1|]. split; [|auto]. rewrite <- (collapses_val cv (PFull ps) (proj2 (proj2 Hw)) G2).
    unfold collapses in G2. destruct (_ <? 32); [destruct G2 as [_ G2]; destruct cv; try contradiction; reflexivity|subst cv; reflexivity].
Qed.

Lemma hash_short fl k q n db force : hash_spec_at q -> stands db n q -> flag_right Keccak256 (view db) fl (PShort k q) -> wft (PShort k q) -> sized (PShort k q) ->
  knowns (PShort k q) -> clean db -> (force = true -> 32 <= len (penc (PShort k q))) ->
  hashes db (PShort k q) (hash Keccak256 Put cachegen cachelimit (shortNode k n fl) db force).
Proof using Keccak_len Put_written no_collision.
  intros IH Hn Hfl Hw Hs Hk Hc Hf. assert (Hst : stands db (shortNode k n fl) (PShort k q)) by (constructor; assumption). cbn [hash].
  destruct (cached_result cachegen cachelimit (shortNode k n fl) db) as [r|] eqn:Er; [apply (cached_spec (shortNode k n fl) fl db _ r); auto|]. clear Er Hst.
  destruct (short_key k q Hw) as (t & body & Ek & Hb & _). destruct (compact_key t body Hb) as (c & E1 & _). rewrite <- Ek in E1. rewrite E1. cbn [obind].
  assert (Ecm : compact k = c) by (unfold compact; rewrite E1; reflexivity). destruct Hk as [Hk0 Hkq]. pose proof Hs as [_ Hsq].
  pose proof (short_child_spec k q n db IH Hn Hw Hsq Hkq Hc) as Hval.
  destruct Hval as (db' & r & -> & Hr). cbn [obind]. destruct r as [[cv kv]|e]; [|do 2 eexists; split; [reflexivity|exact Hr]]. destruct Hr as (G1 & G2 & G3 & G4).
  apply (finish_hash_spec db db' _ _ fl); auto; try exact I.
  - cbn [node_val TrieMerkle.pval]. rewrite G2, Ecm. reflexivity.
  - intros db2 Hg2 f Hf2. cbn [reflag]. constructor; [apply (stands_grow Keccak256 Keccak_len (view db')); [apply Hg2|exact G3]|exact Hf2].
  - intros N db2 Hg2 Hself. split; [exact Hself|]. apply (instore_grow Keccak256 Keccak_len (view db')); [apply Hg2|apply G4, N].
Qed.

Lemma hash_full fl ps ns db force : Forall hash_spec_at ps -> Forall2 (stands db) ns ps -> flag_right Keccak256 (view db) fl (PFull ps) -> wft (PFull ps) -> sized (PFull ps) ->
  knowns (PFull ps) -> clean db -> (force = true -> 32 <= len (penc (PFull ps))) ->
  hashes db (PFull ps) (hash Keccak256 Put cachegen cachelimit (fullNode ns fl) db force).
Proof using Keccak_len Put_written no_collision.
  intros IH Hns Hfl Hw Hs Hk Hc Hf. assert (Hst : stands db (fullNode ns fl) (PFull ps)) by (constructor; assumption). cbn [hash].
  destruct (cached_result cachegen cachelimit (fullNode ns fl) db) as [r|] eqn:Er; [apply (cached_spec (fullNode ns fl) fl db _ r); auto|]. clear Er Hst.
  pose proof Hk as Hk'. apply knowns_full in Hk'. pose proof Hs as Hs'. apply sized_full in Hs'.
  destruct (children_spec ps IH 0 ns db (full_forms ps Hw) Hns Hs' (proj2 Hk') Hc) as (db' & r & -> & Hr). cbn [obind].
  destruct r as [[ccs kcs]|e]; [|do 2 eexists; split; [reflexivity|exact Hr]]. destruct Hr as (G1 & G2 & G3 & G4).
  apply (finish_hash_spec db db' _ _ fl); auto; try exact I; [apply Hk'|..].
  - cbn [node_val TrieMerkle.pval]. f_equal. exact G2.
  - intros db2 Hg2 f Hf2. cbn [reflag]. constructor; [|exact Hf2]. clear -Keccak_len G3 Hg2. induction G3; constructor; auto. apply (stands_grow Keccak256 Keccak_len (view db')); [apply Hg2|assumption].
  - intros N db2 Hg2 Hself. apply instore_full. split; [exact Hself|]. specialize (G4 N). clear -Keccak_len G4 Hg2. induction G4; constructor; auto. apply (instore_grow Keccak256 Keccak_len (view db')); [apply Hg2|assumption].
Qed.

Lemma hash_spec p : hash_spec_at p.
Proof using Keccak_len Put_written no_collision.
  assert (Hhash : forall h q db force, hash_right Keccak256 (view db) h q -> clean db -> hashes db q (hash Keccak256 Put cachegen cachelimit (hashNode h) db force)).
  { intros h q db force Hr Hc. do 2 eexists. split; [reflexivity|]. split; [apply grown_refl, Hc|]. destruct Hr as (-> & Hl & Hi & Hw & Hs).
    split; [unfold collapses; destruct (Z.ltb_spec (len (penc q)) 32); [lia|reflexivity]|]. split; [constructor; split; auto|auto]. }
  induction p as [|v|k q IH|ps IH] using ptrie_children_ind; intros n db force Hst Hw Hs Hk Hc Hf; try contradiction.
  - inversion Hst as [|v' E1 E2|k' n' p' fl' Hn Hfl E1 E2|ns ps' fl' Hcc Hfl E1 E2|h p' Hr E1 E2]; subst; [apply hash_short; assumption|apply Hhash; assumption].
  - inversion Hst as [|v' E1 E2|k' n' p' fl' Hn Hfl E1 E2|ns ps' fl' Hcc Hfl E1 E2|h p' Hr E1 E2]; subst; [apply hash_full; assumption|apply Hhash; assumption].
Qed.

(** ** The methods *)

Lemma nil_root db root : stands db root PNil -> root = nilNode.
Proof. intros H. inversion H as [| | | |h p Hr]; subst; [reflexivity|]. destruct Hr as (_ & _ & _ & [] & _). Qed.

Lemma hashRoot_loaded root db p : stands db root p -> wft p -> hashRoot Keccak256 Put cachegen cachelimit root db = hash Keccak256 Put cachegen cachelimit root db true.
Proof. intros H Hw. destruct root; try reflexivity. inversion H; subst. contradiction. Qed.

Lemma commit_spec root p w : stands (Some w) root p -> wf p -> sized p -> knowns p -> clean (Some w) -> (p <> PNil -> 32 <= len (penc p)) ->
  exists root' gen' w' r, trie_Commit Keccak256 Put cachegen cachelimit root w = Ret (root', gen', w', r) /\
    match r with
    | Err e => root' = root /\ exists w k v, snd (Put w k v) = Some e
    | Ok h => h = BytesToHash (root_hash Keccak256 p) /\ stands (Some w') root' p /\ instore Keccak256 (written w') p /\ grown (Some w) (Some w')
    end.
Proof using Keccak_len Put_written no_collision.
  intros Hst Hw Hs Hk Hc Hl. unfold trie_Commit. destruct Hw as [->|Hw].
  - rewrite (nil_root _ _ Hst). do 4 eexists. split; [reflexivity|]. split; [reflexivity|]. split; [constructor|]. split; [exact I|]. apply grown_refl, Hc.
  - assert (N : p <> PNil) by (intros ->; contradiction). specialize (Hl N). rewrite (hashRoot_loaded _ _ p Hst Hw).
    destruct (hash_spec p root (Some w) true Hst Hw Hs Hk Hc (fun _ => Hl)) as (db' & r & -> & Hr). cbn [obind]. destruct r as [[hashed cached]|e].
    + destruct Hr as (Hg & Hcol & Hst' & Hi). pose proof (gr_mode _ _ Hg) as M. destruct db' as [w'|]; [|contradiction]. unfold collapses in Hcol. destruct (Z.ltb_spec (len (penc p)) 32); [lia|]. subst hashed.
      do 4 eexists. split; [reflexivity|]. split; [destruct p; try contradiction; reflexivity|]. split; [exact Hst'|]. split; [apply Hi; discriminate|exact Hg].
    + destruct Hr as [M Hr]. destruct db' as [w'|]; [|contradiction]. do 4 eexists. split; [reflexivity|]. split; [reflexivity|exact Hr].
Qed.
End commit.
