(* ===== verification/TrieContents.v ===== *)
(** * Package [trie]: the contents of a trie

    The contents of a trie are a map from keys of bytes.  The methods, hashing and
    committing are described over the contents, and the hash is shown to tell the
    contents. *)

From Stdlib Require Import ZArith List Lia Bool.
From S2P Require Import Prelude GoBig ByteBuf CommonTypes Rlp RlpTheorems TrieNode TrieOps TrieHash TrieSecure TrieSpec TrieRefine TrieMerkle TrieStore.
Import ListNotations.
Local Open Scope Z_scope.

(** ** Keys of bytes *)

Lemma keybytes_hexkey key : bytes_ok key -> hexkey (keybytesToHex key).
Proof.
  unfold keybytesToHex. induction 1 as [|b key Hb Hk IH]; [constructor|]. unfold is_byte in Hb. cbn [flat_map nibbles_of app].
  pose proof (Z.mod_pos_bound b 16 ltac:(lia)). pose proof (Z.div_pos b 16 ltac:(lia) ltac:(lia)). pose proof (Z.div_lt_upper_bound b 16 16 ltac:(lia) ltac:(lia)).
  constructor; [unfold nibble; lia|]. constructor; [unfold nibble; lia|exact IH].
Qed.

Lemma nibbles_inj a : forall b, flat_map nibbles_of a = flat_map nibbles_of b -> a = b.
Proof.
  induction a as [|x a IH]; intros [|y b] H; try discriminate; [reflexivity|].
  cbn [flat_map nibbles_of app] in H. injection H as H1 H2 H3. f_equal; [|apply IH, H3]. rewrite (Z.div_mod x 16), (Z.div_mod y 16) by lia. congruence.
Qed.

Lemma keybytes_inj a b : keybytesToHex a = keybytesToHex b -> a = b.
Proof.
  unfold keybytesToHex. intros H. apply app_inj_tail in H. apply nibbles_inj, H.
Qed.

Lemma keybytes_back key : bytes_ok key -> hexToKeybytes (keybytesToHex key) = Ret key.
Proof.
  intros Hk. unfold hexToKeybytes, keybytesToHex. rewrite hasTerm_end, removelast_last. pose proof (nibbles_len key) as Hl. rewrite Hl, Z.odd_mul. cbn [Z.odd andb].
  assert (Hn : Forall nibble (flat_map nibbles_of key)).
  { clear Hl. induction Hk as [|b key Hb Hk IH]; [constructor|]. unfold is_byte in Hb. pose proof (Z.mod_pos_bound b 16 ltac:(lia)). pose proof (Z.div_pos b 16 ltac:(lia) ltac:(lia)).
    pose proof (Z.div_lt_upper_bound b 16 16 ltac:(lia) ltac:(lia)). cbn [flat_map nibbles_of app]. repeat constructor; unfold nibble; try lia. exact IH. }
  destruct (decodeNibbles_spec (flat_map nibbles_of key) (length key) ltac:(unfold len in Hl; lia) Hn) as (b & -> & Ef & _). f_equal. apply nibbles_inj, Ef.
Qed.

Section theorems.
Variable Keccak256 : list Z -> list Z.
Hypothesis Keccak_len : forall b, len (Keccak256 b) = 32.

(** The node is a trie in its form with the contents [m]. *)
Definition of_map (p : ptrie) (m : list Z -> option (list Z)) : Prop :=
  wf p /\ (forall key, bytes_ok key -> plookup p (keybytesToHex key) = m key) /\
  (forall j v, hexkey j -> plookup p j = Some v -> exists key, bytes_ok key /\ j = keybytesToHex key).
Definition contents (Get : list Z -> option (list Z)) (root : node) (m : list Z -> option (list Z)) : Prop :=
  exists p, stands_for Keccak256 Get root p /\ of_map p m.

Definition update (m : list Z -> option (list Z)) (key value : list Z) : list Z -> option (list Z) := fun j => if key_eqb j key then Some value else m j.
Definition remove (m : list Z -> option (list Z)) (key : list Z) : list Z -> option (list Z) := fun j => if key_eqb j key then None else m j.

Lemma of_map_unique p q m m' : of_map p m -> of_map q m' -> (forall key, bytes_ok key -> m key = m' key) -> p = q.
Proof.
  intros (Hp & Lp & Kp) (Hq & Lq & Kq) Hm. apply wf_unique; auto. intros j Hj.
  assert (Hb : forall key, bytes_ok key -> plookup p (keybytesToHex key) = plookup q (keybytesToHex key)) by (intros key Hk; rewrite Lp, Lq, Hm by exact Hk; reflexivity).
  destruct (plookup p j) as [v|] eqn:E1; [destruct (Kp j v Hj E1) as (key & Hk & ->); rewrite <- Hb, E1 by exact Hk; reflexivity|].
  destruct (plookup q j) as [v|] eqn:E2; [destruct (Kq j v Hj E2) as (key & Hk & ->); rewrite Hb, E2 in E1 by exact Hk; discriminate|reflexivity].
Qed.

Lemma empty_contents Get : contents Get nilNode (fun _ => None).
Proof. exists PNil. split; [constructor|]. split; [left; reflexivity|]. split; [reflexivity|discriminate]. Qed.

Section methods.
Variable Get : list Z -> option (list Z).
Variable cachegen : Z.
Let Hres := right_resolves Keccak256 Keccak_len cachegen Get.

Lemma stands_get root p key : stands_for Keccak256 Get root p -> wf p -> bytes_ok key ->
  exists root', trie_TryGet Get cachegen root key = Ret (root', Ok (value_of (plookup p (keybytesToHex key)))) /\ stands_for Keccak256 Get root' p.
Proof using Keccak_len.
  intros Hst Hw Hk. pose proof (keybytes_hexkey key Hk) as Hh. unfold trie_TryGet.
  destruct (tryGet_spec Get cachegen _ _ (gen_right Keccak256 cachegen Get) Hres (depth (keybytesToHex key)) root p [] (keybytesToHex key) Hst
    (or_introl (conj Hw Hh)) ltac:(unfold depth, hash_steps; destruct (is_hash root); lia)) as (n' & d & -> & Hst'). cbn [obind].
  destruct d; eexists; (split; [reflexivity|]); auto.
Qed.

Lemma stands_update root p key value : stands_for Keccak256 Get root p -> wf p -> bytes_ok key -> value <> [] ->
  exists root' p', trie_TryUpdate Get cachegen root key value = Ret (root', None) /\ stands_for Keccak256 Get root' p' /\ wf p' /\
    forall j, hexkey j -> plookup p' j = if key_eqb j (keybytesToHex key) then Some value else plookup p j.
Proof using Keccak_len.
  intros Hst Hw Hk Nv. pose proof (keybytes_hexkey key Hk) as Hh. unfold trie_TryUpdate.
  replace (len value =? 0) with false by (symmetry; apply Z.eqb_neq; destruct value as [|x v]; [contradiction|rewrite len_cons; pose proof (len_nonneg v); lia]). cbn [negb].
  destruct (insert_spec Get cachegen _ _ (new_right Keccak256 cachegen Get) Hres (depth (keybytesToHex key)) root p [] (keybytesToHex key) value Hst
    (or_introl (conj Hw Hh)) Nv ltac:(unfold depth, hash_steps; destruct (is_hash root); lia)) as (d & n' & p' & -> & Hst' & Hput & _). cbn [obind].
  exists n', p'. split; [reflexivity|]. split; [exact Hst'|]. pose proof (put_form _ _ _ _ Hput) as Hf.
  split; [destruct (keybytesToHex key); [inversion Hh|right; exact Hf]|]. intros j Hj. apply (put_lookup _ _ _ _ Hput _ (hexkey_natkey _ Hj)).
Qed.

Lemma stands_delete root p key : stands_for Keccak256 Get root p -> wf p -> bytes_ok key ->
  exists d root' p', delete Get cachegen (depth (keybytesToHex key)) root [] (keybytesToHex key) = Ret (Ok (d, root')) /\ stands_for Keccak256 Get root' p' /\ wf p' /\
    forall j, hexkey j -> plookup p' j = if key_eqb j (keybytesToHex key) then None else plookup p j.
Proof using Keccak_len.
  intros Hst Hw Hk. pose proof (keybytes_hexkey key Hk) as Hh.
  destruct (delete_spec Get cachegen _ _ (new_right Keccak256 cachegen Get) Hres (depth (keybytesToHex key)) root p [] (keybytesToHex key) Hst
    (or_introl (conj Hw Hh)) ltac:(unfold depth, hash_steps; destruct (is_hash root); lia)) as (d & n' & p' & -> & Hst' & Hcut & _).
  exists d, n', p'. split; [reflexivity|]. split; [exact Hst'|]. pose proof (cut_form _ _ _ Hcut) as Hf.
  split; [destruct (keybytesToHex key); [inversion Hh|exact Hf]|]. intros j Hj. apply (cut_lookup _ _ _ Hcut _ (hexkey_natkey _ Hj)).
Qed.

(** The contents after a change at one key. *)
Lemma of_map_change p p' m key v : of_map p m -> bytes_ok key -> wf p' -> (forall j, hexkey j -> plookup p' j = if key_eqb j (keybytesToHex key) then v else plookup p j) ->
  of_map p' (fun j => if key_eqb j key then v else m j).
Proof.
  intros (Hw & Hl & Hkeys) Hk Hw' Hp. split; [exact Hw'|]. split.
  - intros j Hj. rewrite (Hp _ (keybytes_hexkey j Hj)).
    destruct (key_eqb_spec (keybytesToHex j) (keybytesToHex key)) as [E|N], (key_eqb_spec j key) as [E'|N']; try congruence; [destruct (N' (keybytes_inj _ _ E))|apply Hl, Hj].
  - intros j w Hj E. rewrite (Hp j Hj) in E. destruct (key_eqb_spec j (keybytesToHex key)) as [->|]; [eauto|apply (Hkeys j w Hj E)].
Qed.

Lemma contents_get root m key : contents Get root m -> bytes_ok key ->
  exists root', trie_TryGet Get cachegen root key = Ret (root', Ok (value_of (m key))) /\ contents Get root' m.
Proof using Keccak_len.
  intros (p & Hst & Hm) Hk. pose proof Hm as (Hw & Hl & _). destruct (stands_get root p key Hst Hw Hk) as (root' & -> & Hst'). rewrite Hl by exact Hk.
  exists root'. split; [reflexivity|]. exists p. auto.
Qed.

Lemma contents_update root m key value : contents Get root m -> bytes_ok key -> value <> [] ->
  exists root', trie_TryUpdate Get cachegen root key value = Ret (root', None) /\ contents Get root' (update m key value).
Proof using Keccak_len.
  intros (p & Hst & Hm) Hk Nv. destruct (stands_update root p key value Hst (proj1 Hm) Hk Nv) as (root' & p' & -> & Hst' & Hw' & Hl').
  exists root'. split; [reflexivity|]. exists p'. split; [exact Hst'|]. apply (of_map_change p p' m key (Some value)); assumption.
Qed.

Lemma delete_contents root m key : contents Get root m -> bytes_ok key ->
  exists d root', delete Get cachegen (depth (keybytesToHex key)) root [] (keybytesToHex key) = Ret (Ok (d, root')) /\ contents Get root' (remove m key).
Proof using Keccak_len.
  intros (p & Hst & Hm) Hk. destruct (stands_delete root p key Hst (proj1 Hm) Hk) as (d & root' & p' & -> & Hst' & Hw' & Hl').
  exists d, root'. split; [reflexivity|]. exists p'. split; [exact Hst'|]. apply (of_map_change p p' m key None); assumption.
Qed.

Lemma contents_delete root m key : contents Get root m -> bytes_ok key ->
  exists root', trie_TryDelete Get cachegen root key = Ret (root', None) /\ contents Get root' (remove m key).
Proof using Keccak_len.
  intros Hc Hk. destruct (delete_contents root m key Hc Hk) as (d & root' & E & H). unfold trie_TryDelete. rewrite E. cbn [obind]. eauto.
Qed.
End methods.

(** ** Tries of hashed keys *)

Lemma sized_of p : wft p -> (forall j v, hexkey j -> plookup p j = Some v -> len j < 2 ^ 32 /\ len v < 2 ^ 32) -> sized p.
Proof.
  induction p as [|v|k q IH|ps IH] using ptrie_children_ind; intros Hw Hb; try contradiction.
  - destruct (wft_has_key _ Hw) as (j & v & Hj & E). destruct (plookup_short_key _ _ _ _ E) as (r & -> & Er). destruct (Hb _ _ Hj E) as [Hl Hv]. rewrite len_app in Hl.
    pose proof (len_nonneg r). split; [lia|]. destruct q as [|w| |ps]; try contradiction.
    + cbn. destruct r; [injection Er as ->; exact Hv|discriminate].
    + apply IH; [apply Hw|]. intros j' v' Hj' E'. specialize (Hb (k ++ j') v' (hexkey_app _ _ (proj1 (proj2 Hw)) Hj')). rewrite plookup_short, len_app in Hb.
      specialize (Hb E'). pose proof (len_nonneg k). lia.
  - apply sized_full. apply Forall_forall. intros q Hq. apply (In_nth _ _ PNil) in Hq. destruct Hq as (i & Hi & Eq). pose proof Hw as Hw'. apply wft_full in Hw'. destruct Hw' as (Hl & _ & Hf).
    specialize (Hf (Z.of_nat i) ltac:(lia)). assert (Ec : child ps (Z.of_nat i) = q) by (unfold child; rewrite Nat2Z.id; exact Eq). rewrite Ec in Hf.
    assert (Hbq : forall r v, hexkey (Z.of_nat i :: r) -> plookup q r = Some v -> len r < 2 ^ 32 /\ len v < 2 ^ 32).
    { intros r v Hr E. specialize (Hb (Z.of_nat i :: r) v Hr). rewrite plookup_full, Ec, len_cons in Hb. specialize (Hb E). lia. }
    unfold child_form in Hf. destruct (Z.eqb_spec (Z.of_nat i) 16) as [E16|N16].
    + destruct Hf as [->|(v & -> & _)]; [exact I|]. cbn. apply (Hbq [] v); [rewrite E16; constructor|reflexivity].
    + destruct Hf as [->|Hf]; [exact I|]. rewrite Forall_forall in IH. apply IH; [rewrite <- Eq; apply nth_In; lia|exact Hf|]. intros j v Hj. apply Hbq. constructor; [unfold nibble; lia|exact Hj].
Qed.

Lemma string_len b : len b <= len (rlp_string b).
Proof. apply rlp_string_len. Qed.

Lemma list_len vs : 1 + len (flat_map rlp vs) <= len (rlp (VList vs)).
Proof. cbn [rlp]. unfold rlp_list. rewrite len_app. unfold rlp_head. destruct (_ <? _); rewrite ?len_cons; [cbn; lia|]. pose proof (len_nonneg (Bytes (len (flat_map rlp vs)))). lia. Qed.

Lemma compact_half t body : Forall nibble body -> len body <= 2 * len (compact (node_key t body)).
Proof.
  intros Hb. destruct (compact_key t body Hb) as (c & E1 & _ & _ & H). unfold compact. rewrite E1, H. pose proof (Z.mul_succ_div_gt (len body) 2 ltac:(lia)). lia.
Qed.

(** The bytes a key of [j] takes: more than half as many, or those of a hash. *)
Definition long (j : list Z) (n : Z) : Prop := 33 <= n \/ len j <= 2 * n - 1.

Lemma ref_long q j v : wf q -> plookup q j = Some v -> long j (len (penc Keccak256 q)) -> long j (len (rlp (pref Keccak256 q))).
Proof using Keccak_len.
  intros [->|Hw] E H; [discriminate|].
  assert (Ep : pref Keccak256 q = if len (penc Keccak256 q) <? 32 then pval Keccak256 q else VBytes (Keccak256 (penc Keccak256 q))) by (destruct q; try contradiction; reflexivity).
  rewrite Ep. destruct (len (penc Keccak256 q) <? 32); [exact H|left]. cbn [rlp]. pose proof (Keccak_len (penc Keccak256 q)) as Hk.
  assert (Hs : rlp_string (Keccak256 (penc Keccak256 q)) = rlp_head 0x80 0xB7 32 ++ Keccak256 (penc Keccak256 q)).
  { unfold rlp_string. destruct (Keccak256 (penc Keccak256 q)) as [|x [|y l]]; [discriminate|discriminate|]. rewrite Hk. reflexivity. }
  rewrite Hs, len_app, Hk. cbn. lia.
Qed.

Lemma pref_nonempty q : 1 <= len (rlp (pref Keccak256 q)).
Proof.
  assert (H : rlp (pref Keccak256 q) <> []) by (apply rlp_nonempty; unfold pref, fold_ref; destruct q; try discriminate; destruct (_ <? _); discriminate).
  destruct (rlp (pref Keccak256 q)) as [|x l]; [contradiction|]. rewrite len_cons. pose proof (len_nonneg l). lia.
Qed.

Lemma children_len ps : len ps <= len (flat_map rlp (map (pref Keccak256) ps)).
Proof. induction ps as [|q ps IH]; [cbn; lia|]. cbn [map flat_map]. rewrite len_app, len_cons. pose proof (pref_nonempty q). lia. Qed.

Lemma child_len q ps : In q ps -> len (rlp (pref Keccak256 q)) + (len ps - 1) <= len (flat_map rlp (map (pref Keccak256) ps)).
Proof.
  induction ps as [|q' ps IH]; intros Hin; [destruct Hin|]. cbn [map flat_map]. rewrite len_app, len_cons. pose proof (pref_nonempty q').
  destruct Hin as [->|Hin]; [pose proof (children_len ps)|specialize (IH Hin)]; lia.
Qed.

(** The encoding of a trie is as long as half a key, or has a hash. *)
Lemma penc_long p : wft p -> forall j v, hexkey j -> plookup p j = Some v -> long j (len (penc Keccak256 p)).
Proof using Keccak_len.
  induction p as [|w|k q IH|ps IH] using ptrie_children_ind; intros Hw j v Hj E; try contradiction; unfold penc; cbn [pval].
  - destruct (plookup_short_key _ _ _ _ E) as (r & -> & Er). destruct (short_key k q Hw) as (t & body & Ek & Hb & Et). pose proof (compact_half t body Hb) as Hc. rewrite <- Ek in Hc.
    fold (pref Keccak256 q). pose proof (list_len [VBytes (compact k); pref Keccak256 q]) as Hl.
    set (L := len (rlp (VList _))) in *. clearbody L. cbn [flat_map rlp] in Hl. rewrite !len_app in Hl. change (len []) with 0 in Hl.
    pose proof (string_len (compact k)). pose proof (len_nonneg (compact k)). pose proof (pref_nonempty q). unfold long. rewrite len_app.
    destruct q as [|w| |ps]; try contradiction; subst t; cbn [node_key] in Ek.
    + right. destruct r; [|discriminate]. change (len []) with 0. rewrite Ek in Hj |- *. rewrite len_app. change (len [16]) with 1. lia.
    + subst body. assert (Hr : hexkey r) by (apply (hexkey_split k r Hj); intros ->; cbn in Er; discriminate).
      destruct (ref_long (PFull ps) r v (or_intror (proj2 (proj2 Hw))) Er (IH (proj2 (proj2 Hw)) r v Hr Er)) as [H1'|H1']; [left|right]; lia.
  - destruct j as [|x r]; [inversion Hj|]. rewrite plookup_full in E. destruct (child_fits ps x r Hw Hj) as [Hx Hfc]. unfold long. rewrite len_cons.
    assert (Hin : In (child ps x) ps) by (unfold child; apply nth_In; unfold len in Hx; lia). pose proof (child_len (child ps x) ps Hin) as Hm.
    pose proof (list_len (map (pref Keccak256) ps)) as Hl. change (map (fun q => fold_ref Keccak256 q (pval Keccak256 q)) ps) with (map (pref Keccak256) ps).
    pose proof (proj1 (proj1 (wft_full ps) Hw)) as L17. assert (L17' : len ps = 17) by (unfold len; rewrite L17; reflexivity).
    destruct Hfc as [[Hwc Hr]|[Hv ->]]; [|right; change (len []) with 0; pose proof (pref_nonempty (child ps x)); lia].
    rewrite Forall_forall in IH. destruct Hwc as [E0|Hwc]; [rewrite E0 in E; discriminate|].
    destruct (ref_long (child ps x) r v (or_intror Hwc) E (IH _ Hin Hwc r v Hr E)) as [H1'|H1']; [left|right]; lia.
Qed.

(** The keys are of 32 bytes, as hashes are. *)
Definition hashed_keys (m : list Z -> option (list Z)) : Prop := forall key v, bytes_ok key -> m key = Some v -> len key = 32 /\ len v < 2 ^ 32.

Lemma keybytes_len key : len (keybytesToHex key) = 2 * len key + 1.
Proof. unfold keybytesToHex. rewrite len_app, nibbles_len. reflexivity. Qed.

(** The same of the nibbles: keys of 32 bytes and a terminator. *)
Definition keys32 (p : ptrie) : Prop := forall j v, hexkey j -> plookup p j = Some v -> len j = 65 /\ len v < 2 ^ 32.

Lemma keys32_sized p : wf p -> keys32 p -> sized p /\ (p <> PNil -> 32 <= len (penc Keccak256 p)).
Proof using Keccak_len.
  intros [->|Hw] Hb; [split; [exact I|contradiction]|]. split.
  - apply sized_of; [exact Hw|]. intros j v Hj E. destruct (Hb j v Hj E). split; [lia|assumption].
  - intros _. destruct (wft_has_key p Hw) as (j & v & Hj & E). destruct (penc_long p Hw j v Hj E) as [H|H]; [lia|]. destruct (Hb j v Hj E). lia.
Qed.

Lemma hashed_sized p m : of_map p m -> hashed_keys m -> sized p /\ (p <> PNil -> 32 <= len (penc Keccak256 p)).
Proof using Keccak_len.
  intros (Hw & Hl & Hkeys) Hh. apply (keys32_sized p Hw). intros j v Hj E. destruct (Hkeys j v Hj E) as (key & Hk & ->).
  rewrite Hl in E by exact Hk. destruct (Hh key v Hk E). rewrite keybytes_len. split; [lia|assumption].
Qed.

(** ** The hash of a trie *)

Lemma knowns_all p : knowns Keccak256 (fun _ => True) p.
Proof. induction p as [|v|k q IH|ps IH] using ptrie_children_ind; [exact I|exact I|split; [exact I|exact IH]|]. apply knowns_full. split; [exact I|exact IH]. Qed.

Lemma HashRoot_spec Get cachegen cachelimit root p : stands_for Keccak256 Get root p -> wf p -> sized p -> (p <> PNil -> 32 <= len (penc Keccak256 p)) ->
  exists root', trie_HashRoot Keccak256 cachegen cachelimit root = Ret (root', BytesToHash (root_hash Keccak256 p)) /\ stands_for Keccak256 Get root' p.
Proof using Keccak_len.
  intros Hst Hw Hs Hl. set (written := fun (w : Empty_set) (_ : list Z) => @None (list Z)). unfold trie_HashRoot. destruct Hw as [->|Hw].
  - rewrite (nil_root Keccak256 written Get None root Hst). eexists. split; [reflexivity|constructor].
  - assert (N : p <> PNil) by (intros ->; contradiction). specialize (Hl N).
    rewrite (hashRoot_loaded Keccak256 no_writer cachegen cachelimit written Get root None p Hst Hw).
    destruct (hash_spec Keccak256 Keccak_len no_writer cachegen cachelimit written (fun w => match w with end) (fun _ => True) (fun w => match w with end) Get p root None true Hst Hw Hs
      (knowns_all p) ltac:(intros H; destruct (H eq_refl)) (fun _ => Hl)) as (db' & r & -> & Hr). cbn [obind snd]. destruct r as [[hashed cached]|e].
    + destruct Hr as ([M _ _] & Hcol & Hst' & _). destruct db' as [w'|]; [contradiction|]. unfold collapses in Hcol. destruct (Z.ltb_spec (len (penc Keccak256 p)) 32); [lia|]. subst hashed.
      eexists. split; [|exact Hst']. destruct p; try contradiction; reflexivity.
    + destruct Hr as [_ ([] & _)].
Qed.

Lemma contents_hash Get cachegen cachelimit root m : contents Get root m -> hashed_keys m -> exists p root',
  of_map p m /\ trie_HashRoot Keccak256 cachegen cachelimit root = Ret (root', BytesToHash (root_hash Keccak256 p)) /\ contents Get root' m.
Proof using Keccak_len.
  intros (p & Hst & Hm) Hh. destruct (hashed_sized p m Hm Hh) as [Hs Hl].
  destruct (HashRoot_spec Get cachegen cachelimit root p Hst (proj1 Hm) Hs Hl) as (root' & E & Hst'). exists p, root'. split; [exact Hm|]. split; [exact E|]. exists p. auto.
Qed.

(** ** What a hash tells *)

Section binding.
(** The encodings that are hashed; no two of them have the same hash. *)
Variable known : list Z -> Prop.
Hypothesis no_collision : forall a b, known a -> known b -> Keccak256 a = Keccak256 b -> a = b.

Lemma penc_node p q : wft p -> sized p -> wft q -> sized q -> penc Keccak256 p = penc Keccak256 q -> pnode Keccak256 0 None p = pnode Keccak256 0 None q.
Proof using Keccak_len.
  intros Hwp Hsp Hwq Hsq E. pose proof (penc_len Keccak256 Keccak_len p Hwp Hsp) as [_ Hpl].
  pose proof (decode_spec Keccak256 Keccak_len 0 (S (length (penc Keccak256 p))) p None []) as D1. pose proof (decode_spec Keccak256 Keccak_len 0 (S (length (penc Keccak256 p))) q None []) as D2.
  rewrite !app_nil_r in D1, D2. rewrite <- E in D2. rewrite D1 in D2 by (auto; lia). specialize (D2 Hwq Hsq ltac:(lia) ltac:(lia)). injection D2 as D2. exact D2.
Qed.

Definition binds (p : ptrie) : Prop := forall q, wft p -> sized p -> knowns Keccak256 known p -> wft q -> sized q -> knowns Keccak256 known q ->
  pnode Keccak256 0 None p = pnode Keccak256 0 None q -> p = q.

Lemma knowns_self p : wft p -> knowns Keccak256 known p -> known (penc Keccak256 p).
Proof. destruct p; try contradiction; intros _ [H _]; exact H. Qed.

Lemma child_binds p q : binds p -> wf p \/ value_form p -> wf q \/ value_form q -> sized p -> sized q -> knowns Keccak256 known p -> knowns Keccak256 known q ->
  pchild Keccak256 0 p = pchild Keccak256 0 q -> p = q.
Proof using Keccak_len no_collision.
  intros IH Hp Hq Sp Sq Kp Kq E.
  assert (Hc : forall r, wft r -> pchild Keccak256 0 r = if len (penc Keccak256 r) <? 32 then pnode Keccak256 0 None r else hashNode (Keccak256 (penc Keccak256 r))) by (intros r Hr; destruct r; try contradiction; reflexivity).
  assert (Hl : forall r, wft r -> pchild Keccak256 0 r <> nilNode /\ forall v, pchild Keccak256 0 r <> valueNode v)
    by (intros r Hr; rewrite (Hc r Hr); destruct (_ <? _); [|split; discriminate]; destruct r; try contradiction; split; discriminate).
  assert (Hb : wft p -> wft q -> p = q).
  { intros Wp Wq. rewrite (Hc p Wp), (Hc q Wq) in E. destruct (len (penc Keccak256 p) <? 32), (len (penc Keccak256 q) <? 32).
    - apply IH; assumption.
    - destruct p; try contradiction; discriminate.
    - destruct q; try contradiction; discriminate.
    - injection E as E. apply IH; try assumption. apply penc_node; try assumption. apply no_collision; [apply knowns_self; assumption|apply knowns_self; assumption|exact E]. }
  destruct Hp as [[->|Wp]|[->|(v & -> & _)]], Hq as [[->|Wq]|[->|(w & -> & _)]]; try reflexivity; try discriminate; try (apply Hb; assumption);
    try (destruct (Hl _ Wp) as [N1 N2]; destruct (N1 E) || destruct (N2 _ E)); try (destruct (Hl _ Wq) as [N1 N2]; symmetry in E; destruct (N1 E) || destruct (N2 _ E)).
  injection E as ->. reflexivity.
Qed.

Lemma binds_all p : binds p.
Proof using Keccak_len no_collision.
  induction p as [|v|k q IH|ps IH] using ptrie_children_ind; intros q' Hw Hs Hk Hw' Hs' Hk' E; try contradiction; destruct q' as [| |k' q''|ps']; try contradiction; try discriminate.
  - cbn [pnode] in E. injection E as -> E. f_equal.
    assert (Hf : forall k q, wft (PShort k q) -> wf q \/ value_form q) by (clear; intros k [|v| |ps] H; try contradiction; [right; right; exists v; split; [reflexivity|apply H]|left; right; apply H]).
    apply child_binds; [exact IH|apply (Hf _ _ Hw)|apply (Hf _ _ Hw')|apply Hs|apply Hs'|apply Hk|apply Hk'|exact E].
  - cbn [pnode] in E. injection E as E. f_equal. apply sized_full in Hs, Hs'. apply knowns_full in Hk, Hk'. destruct Hk as [_ Hk], Hk' as [_ Hk'].
    pose proof (wf_children ps Hw) as Hc. pose proof (wf_children ps' Hw') as Hc'. clear Hw Hw'. revert ps' E Hs' Hk' Hc'.
    induction IH as [|q ps Hq _ IHs]; intros [|q' ps'] E Hs' Hk' Hc'; try discriminate; [reflexivity|].
    inversion Hs; inversion Hk; inversion Hc; inversion Hs'; inversion Hk'; inversion Hc'; subst. cbn [map] in E. injection E as E1 E2. f_equal; [apply child_binds; assumption|auto].
Qed.

(** The hash of the empty trie is that of the empty string. *)
Hypothesis Keccak_bytes : forall b, bytes_ok (Keccak256 b).
Hypothesis Keccak_empty : Keccak256 [0x80] = Hash_Bytes emptyRoot.
Hypothesis known_empty : known [0x80].

Lemma root_hash_bytes p : bytes_ok (root_hash Keccak256 p) /\ len (root_hash Keccak256 p) = 32.
Proof using Keccak_bytes Keccak_len. destruct p; cbn [root_hash]; auto; split; [apply be_bytes_ok|apply be_bytes_len]. Qed.

Lemma not_emptyRoot r : wft r -> knowns Keccak256 known r -> (r <> PNil -> 32 <= len (penc Keccak256 r)) -> root_hash Keccak256 r <> Hash_Bytes emptyRoot.
Proof using Keccak_empty known_empty no_collision.
  intros Hr Kr Lr Er. assert (N : r <> PNil) by (intros ->; contradiction). specialize (Lr N).
  assert (Eh : root_hash Keccak256 r = Keccak256 (penc Keccak256 r)) by (destruct r; try contradiction; reflexivity).
  rewrite Eh, <- Keccak_empty in Er. apply no_collision in Er; [|apply knowns_self; assumption|exact known_empty]. rewrite Er in Lr. cbn in Lr. lia.
Qed.

Lemma root_hash_binds p q : wf p -> wf q -> sized p -> sized q -> knowns Keccak256 known p -> knowns Keccak256 known q -> (p <> PNil -> 32 <= len (penc Keccak256 p)) ->
  (q <> PNil -> 32 <= len (penc Keccak256 q)) -> root_hash Keccak256 p = root_hash Keccak256 q -> p = q.
Proof using Keccak_len Keccak_empty known_empty no_collision.
  intros Hp Hq Sp Sq Kp Kq Lp Lq E.
  destruct Hp as [->|Wp], Hq as [->|Wq]; [reflexivity|destruct (not_emptyRoot q Wq Kq Lq (eq_sym E))|destruct (not_emptyRoot p Wp Kp Lp E)|].
  apply binds_all; try assumption. apply penc_node; try assumption. apply no_collision; [apply knowns_self; assumption|apply knowns_self; assumption|].
  destruct p, q; try contradiction; exact E.
Qed.

Lemma Hash_Bytes_of b : bytes_ok b -> len b = 32 -> Hash_Bytes (BytesToHash b) = b.
Proof.
  intros Hb Hl. unfold Hash_Bytes, BytesToHash. pose proof (SetBytes_range b Hb) as Hr. rewrite Hl in Hr. rewrite Z.mod_small by exact Hr.
  rewrite <- (be_bytes_SetBytes b Hb) at 2. f_equal. unfold len in Hl. change (Z.to_nat HashLength) with 32%nat. lia.
Qed.

(** No hash is zero, which is the root of no trie. *)
Hypothesis Keccak_nonzero : forall e, known e -> BytesToHash (Keccak256 e) <> 0.

Lemma New_spec Get p : instore Keccak256 Get p -> wf p -> sized p -> knowns Keccak256 known p -> (p <> PNil -> 32 <= len (penc Keccak256 p)) ->
  exists n, trie_New Get (BytesToHash (root_hash Keccak256 p)) = Ret (Ok n) /\ stands_for Keccak256 Get n p.
Proof using Keccak_bytes Keccak_empty Keccak_len Keccak_nonzero known_empty no_collision.
  intros Hi Hw Hs Hk Hl. unfold trie_New. destruct Hw as [->|Hw]; [exists nilNode; split; [reflexivity|constructor]|].
  assert (N : p <> PNil) by (intros ->; contradiction). assert (Eh : root_hash Keccak256 p = Keccak256 (penc Keccak256 p)) by (destruct p; try contradiction; reflexivity).
  destruct (root_hash_bytes p) as [Hb Hlen].
  destruct (Z.eqb_spec (BytesToHash (root_hash Keccak256 p)) 0) as [E0|_]; [rewrite Eh in E0; destruct (Keccak_nonzero _ (knowns_self p Hw Hk) E0)|].
  destruct (Z.eqb_spec (BytesToHash (root_hash Keccak256 p)) emptyRoot) as [E0|_].
  { exfalso. apply (not_emptyRoot p Hw Hk Hl). rewrite <- E0, Hash_Bytes_of by assumption. reflexivity. }
  cbn [negb andb]. rewrite Hash_Bytes_of, Eh by assumption.
  destruct (right_resolves Keccak256 Keccak_len 0 Get (Keccak256 (penc Keccak256 p)) p [] (conj eq_refl (conj (Hl N) (conj Hi (conj Hw Hs))))) as (n & -> & _ & Hst). exists n. auto.
Qed.
End binding.
End theorems.

(** ** Sequences of calls *)

(** A call of a method: [TryUpdate], [TryGet] or [Hash]. *)
Inductive call : Type := Write (key value : list Z) | Read (key : list Z) | Rehash.

Section calls.
Variable Keccak256 : list Z -> list Z.
Hypothesis Keccak_len : forall b, len (Keccak256 b) = 32.
Variable Get : list Z -> option (list Z).
Variables cachegen cachelimit : Z.

Definition perform_call (c : call) (root : node) : outcome (node * option trieErr) :=
  match c with
  | Write k v => trie_TryUpdate Get cachegen root k v
  | Read k => let! x := trie_TryGet Get cachegen root k in Ret (fst x, match snd x with Ok _ => None | Err e => Some e end)
  | Rehash => let! x := trie_HashRoot Keccak256 cachegen cachelimit root in Ret (fst x, None)
  end.
Fixpoint run_calls (cs : list call) (root : node) : outcome (node * option trieErr) :=
  match cs with
  | [] => Ret (root, None)
  | c :: cs =>
      let! x := perform_call c root in
      match snd x with
      | Some e => Ret x
      | None => run_calls cs (fst x)
      end
  end.

(** The contents after the calls; an update with no value deletes. *)
Definition edited1 (m : list Z -> option (list Z)) (k v : list Z) : list Z -> option (list Z) := if len v =? 0 then remove m k else update m k v.
Definition edited (cs : list call) (m : list Z -> option (list Z)) : list Z -> option (list Z) :=
  fold_left (fun m c => match c with Write k v => edited1 m k v | _ => m end) cs m.

Lemma contents_edit1 root m key value : contents Keccak256 Get root m -> bytes_ok key ->
  exists root', trie_TryUpdate Get cachegen root key value = Ret (root', None) /\ contents Keccak256 Get root' (edited1 m key value).
Proof using Keccak_len.
  intros Hc Hk. unfold edited1. destruct value as [|x v].
  - destruct (delete_contents Keccak256 Keccak_len Get cachegen root m key Hc Hk) as (d & root' & E & H). unfold trie_TryUpdate. cbn [len length Z.of_nat Z.eqb negb].
    rewrite E. cbn [obind]. eauto.
  - replace (len (x :: v) =? 0) with false by (symmetry; apply Z.eqb_neq; rewrite len_cons; pose proof (len_nonneg v); lia).
    apply contents_update; auto; discriminate.
Qed.

(** The keys are hashes, and the values fit in a machine. *)
Definition hashed_call (c : call) : Prop :=
  match c with
  | Write k v => bytes_ok k /\ len k = 32 /\ len v < 2 ^ 32
  | Read k => bytes_ok k
  | Rehash => True
  end.

Lemma edited1_hashed m k v : len k = 32 -> len v < 2 ^ 32 -> hashed_keys m -> hashed_keys (edited1 m k v).
Proof.
  intros Hl Hv Hm j w Hj. unfold edited1, remove, update.
  destruct (len v =? 0); destruct (key_eqb_spec j k) as [->|_]; try discriminate; try (intros [= <-]; auto); apply Hm, Hj.
Qed.

Lemma contents_calls cs : Forall hashed_call cs -> forall root m, contents Keccak256 Get root m -> hashed_keys m ->
  exists root', run_calls cs root = Ret (root', None) /\ contents Keccak256 Get root' (edited cs m) /\ hashed_keys (edited cs m).
Proof using Keccak_len.
  induction 1 as [|c cs Hc _ IH]; intros root m Hm Hh; [exists root; auto|]. cbn [run_calls edited fold_left].
  assert (Hstep : exists root1, perform_call c root = Ret (root1, None) /\ contents Keccak256 Get root1 (match c with Write k v => edited1 m k v | _ => m end) /\
    hashed_keys (match c with Write k v => edited1 m k v | _ => m end)).
  { destruct c as [k v|k|]; cbn [perform_call hashed_call] in *.
    - destruct Hc as (Hk & Hl & Hv). destruct (contents_edit1 root m k v Hm Hk) as (root1 & E & H1). exists root1. auto using edited1_hashed.
    - destruct (contents_get Keccak256 Keccak_len Get cachegen root m k Hm Hc) as (root1 & -> & H1). exists root1. auto.
    - destruct (contents_hash Keccak256 Keccak_len Get cachegen cachelimit root m Hm Hh) as (p & root1 & _ & -> & H1). exists root1. auto. }
  destruct Hstep as (root1 & -> & H1 & H2). apply (IH root1 _ H1 H2).
Qed.

Lemma nothing_hashed : hashed_keys (fun _ => None).
Proof. discriminate. Qed.
End calls.
