(* ===== verification/TrieTheorems.v ===== *)
(** * Theorems about package [trie]

    The methods of a trie refine a map; the hash is a function of the contents and
    tells them; a committed trie can be opened again; the node_encodings of keys. *)

From Stdlib Require Import ZArith List Lia Bool.
From S2P Require Import Prelude GoBig ByteBuf CommonTypes Rlp RlpTheorems TrieNode TrieOps TrieHash TrieSecure TrieSpec TrieRefine TrieMerkle TrieStore TrieContents.
Import ListNotations.
Local Open Scope Z_scope.

(** What is relied on of the hash function, for the node_encodings that are hashed. *)
Record hash_laws (Keccak256 : list Z -> list Z) (known : list Z -> Prop) : Prop := {
  hl_len : forall b, len (Keccak256 b) = 32;
  hl_bytes : forall b, bytes_ok (Keccak256 b);
  hl_no_collision : forall a b, known a -> known b -> Keccak256 a = Keccak256 b -> a = b;
  hl_empty : Keccak256 [0x80] = Hash_Bytes emptyRoot;
  hl_known : known [0x80];
  hl_nonzero : forall e, known e -> BytesToHash (Keccak256 e) <> 0 }.

Section claims.
Variable Keccak256 : list Z -> list Z.
Abbreviation contents := (contents Keccak256).

(** C13: The methods of a trie refine those of a map.  For a trie that is in memory
    or in the database in any part, with the contents [m], and for any key of
    bytes: [TryGet] returns the value, or no bytes; [TryUpdate] with a value
    inserts or replaces it, and deletes it with no bytes; [TryDelete] deletes it;
    none panics or fails, the tree is left in its canonical form (no full node with
    one child, no short node below another), and the contents of the other keys
    stay. *)
Theorem trie_refines_map Get cachegen root m key : (forall b, len (Keccak256 b) = 32) -> contents Get root m -> bytes_ok key ->
  (exists root', trie_TryGet Get cachegen root key = Ret (root', Ok (value_of (m key))) /\ contents Get root' m) /\
  (forall value, exists root', trie_TryUpdate Get cachegen root key value = Ret (root', None) /\
     contents Get root' (if len value =? 0 then remove m key else update m key value)) /\
  (exists root', trie_TryDelete Get cachegen root key = Ret (root', None) /\ contents Get root' (remove m key)).
Proof.
  intros Hl Hc Hk. split; [apply contents_get; assumption|]. split; [|apply contents_delete; assumption].
  intros value. apply (contents_edit1 Keccak256 Hl Get cachegen root m key value Hc Hk).
Qed.

(** C14: The root hash depends on the contents alone.  Two sequences of updates,
    deletions, reads and hashings, over hashed keys, that leave the same contents
    give the same root hash: whatever the order of the calls, the databases of the
    tries, the generations and the limits of the caches and the hashes that were
    cached on the way; no call fails or panics. *)
Theorem trie_hash_of_contents Get Get' gen gen' limit limit' cs cs' : (forall b, len (Keccak256 b) = 32) ->
  Forall hashed_call cs -> Forall hashed_call cs' ->
  (forall key, bytes_ok key -> edited cs (fun _ => None) key = edited cs' (fun _ => None) key) ->
  exists root root' r r' h, run_calls Keccak256 Get gen limit cs nilNode = Ret (root, None) /\ run_calls Keccak256 Get' gen' limit' cs' nilNode = Ret (root', None) /\
    trie_HashRoot Keccak256 gen limit root = Ret (r, h) /\ trie_HashRoot Keccak256 gen' limit' root' = Ret (r', h).
Proof.
  intros Hl He He' Heq.
  destruct (contents_calls Keccak256 Hl Get gen limit cs He _ _ (empty_contents Keccak256 Get) nothing_hashed) as (root & E1 & C1 & K1).
  destruct (contents_calls Keccak256 Hl Get' gen' limit' cs' He' _ _ (empty_contents Keccak256 Get') nothing_hashed) as (root' & E2 & C2 & K2).
  destruct (contents_hash Keccak256 Hl Get gen limit root _ C1 K1) as (p & r & M1 & H1 & _). destruct (contents_hash Keccak256 Hl Get' gen' limit' root' _ C2 K2) as (p' & r' & M2 & H2 & _).
  rewrite (of_map_unique p p' _ _ M1 M2 Heq) in H1. exists root, root', r, r'. eauto 10.
Qed.

(** C16: The root hash tells the contents.  When the hash function has no collision
    among the node_encodings of the nodes, two tries of hashed keys with the same root
    hash have the same value under every key. *)
Theorem trie_hash_binds known Get Get' gen gen' limit limit' root root' m m' r r' h : hash_laws Keccak256 known ->
  contents Get root m -> contents Get' root' m' -> hashed_keys m -> hashed_keys m' ->
  (forall p, of_map p m \/ of_map p m' -> knowns Keccak256 known p) ->
  trie_HashRoot Keccak256 gen limit root = Ret (r, h) -> trie_HashRoot Keccak256 gen' limit' root' = Ret (r', h) ->
  forall key, bytes_ok key -> m key = m' key.
Proof.
  intros HL C1 C2 K1 K2 Hk E1 E2 key Hb. pose proof (hl_len _ _ HL) as Hl.
  destruct (contents_hash Keccak256 Hl Get gen limit root _ C1 K1) as (p & rp & M1 & H1 & _). destruct (contents_hash Keccak256 Hl Get' gen' limit' root' _ C2 K2) as (q & rq & M2 & H2 & _).
  rewrite E1 in H1. injection H1 as _ H1. rewrite E2 in H2. injection H2 as _ H2.
  destruct (hashed_sized Keccak256 Hl p m M1 K1) as [Sp Lp], (hashed_sized Keccak256 Hl q m' M2 K2) as [Sq Lq].
  destruct (root_hash_bytes Keccak256 Hl (hl_bytes _ _ HL) p) as [B1 L1], (root_hash_bytes Keccak256 Hl (hl_bytes _ _ HL) q) as [B2 L2].
  assert (E : root_hash Keccak256 p = root_hash Keccak256 q) by (rewrite <- (Hash_Bytes_of _ B1 L1), <- (Hash_Bytes_of _ B2 L2); congruence).
  pose proof (root_hash_binds Keccak256 Hl known (hl_no_collision _ _ HL) (hl_empty _ _ HL) (hl_known _ _ HL) p q (proj1 M1) (proj1 M2) Sp Sq (Hk p (or_introl M1)) (Hk q (or_intror M2)) Lp Lq E) as Epq.
  destruct M1 as (_ & M1 & _), M2 as (_ & M2 & _). rewrite <- M1, <- M2, Epq by exact Hb. reflexivity.
Qed.

(** C15: A committed trie can be opened again.  A commit of a trie of hashed keys to
    a store, in which there is nothing else under the hash of a node, returns the
    root hash of the contents, keeps what the store had under hashes, and leaves a
    trie with the same contents; opening the hash in the store then gives a trie with the
    same contents.  The only errors are those of the store, and leave the trie as
    it was. *)
Theorem trie_commit_reopens {W E : Type} (Put : W -> list Z -> list Z -> W * option E) written known cachegen cachelimit root m (w : W) : hash_laws Keccak256 known ->
  (forall w k v w', Put w k v = (w', None) -> forall j, written w' j = if key_eqb j k then Some v else written w j) ->
  (forall e, known e -> written w (Keccak256 e) = None \/ written w (Keccak256 e) = Some e) ->
  contents (written w) root m -> hashed_keys m -> (forall p, of_map p m -> knowns Keccak256 known p) ->
  exists root' gen' w' r, trie_Commit Keccak256 Put cachegen cachelimit root w = Ret (root', gen', w', r) /\
    match r with
    | Err e => root' = root /\ exists w k v, snd (Put w k v) = Some e
    | Ok h => (exists r, trie_HashRoot Keccak256 cachegen cachelimit root = Ret (r, h)) /\ extends (written w) (written w') /\ contents (written w') root' m /\
        exists n, trie_New (written w') h = Ret (Ok n) /\ contents (written w') n m
    end.
Proof.
  intros HL HP Hcl (p & Hst & Hm) Hh Hk. pose proof (hl_len _ _ HL) as Hl. destruct (hashed_sized Keccak256 Hl p m Hm Hh) as [Hs Hlen].
  destruct (commit_spec Keccak256 Hl Put cachegen cachelimit written HP known (fun _ => hl_no_collision _ _ HL) (fun _ => None) root p w Hst (proj1 Hm) Hs (Hk p Hm) (fun _ => Hcl) Hlen)
    as (root' & gen' & w' & r & E1 & Hr). exists root', gen', w', r. split; [exact E1|]. destruct r as [h|e]; [|exact Hr]. destruct Hr as (-> & Hst' & Hi & [_ Hext _]).
  split; [destruct (HashRoot_spec Keccak256 Hl (written w) cachegen cachelimit root p Hst (proj1 Hm) Hs Hlen) as (r & -> & _); eauto|]. split; [exact Hext|]. split; [exists p; auto|].
  destruct (New_spec Keccak256 Hl known (hl_no_collision _ _ HL) (hl_bytes _ _ HL) (hl_empty _ _ HL) (hl_known _ _ HL) (hl_nonzero _ _ HL) (written w') p Hi (proj1 Hm) Hs (Hk p Hm) Hlen) as (n & -> & Hn).
  exists n. split; [reflexivity|]. exists p. auto.
Qed.
End claims.

(** The node_encodings of keys can be inverted.  For any key of bytes the nibbles
    give it back; for the key of a node, nibbles with or without a terminator, the
    compact form gives it back and has one byte for two nibbles and the flags. *)
Theorem key_encodings_invert key t body : bytes_ok key -> Forall nibble body ->
  hexToKeybytes (keybytesToHex key) = Ret key /\ len (keybytesToHex key) = 2 * len key + 1 /\
  exists c, hexToCompact (node_key t body) = Ret c /\ compactToHex c = Ret (node_key t body) /\ bytes_ok c /\ len c = len body / 2 + 1.
Proof.
  intros Hk Hb. split; [apply keybytes_back, Hk|]. split; [apply keybytes_len|apply compact_key, Hb].
Qed.

(** ** Samples *)

(** The trie of a node that has no hashes. *)
Fixpoint erase (n : node) : ptrie :=
  match n with
  | nilNode | hashNode _ => PNil
  | valueNode v => PVal v
  | shortNode k c _ => PShort k (erase c)
  | fullNode cs _ => PFull (map erase cs)
  end.
Fixpoint in_memory (n : node) : bool :=
  match n with
  | nilNode | valueNode _ => true
  | hashNode _ => false
  | shortNode _ c _ => in_memory c
  | fullNode cs _ => forallb in_memory cs
  end.

Lemma resolves_erase FlagOk HashOk p : forall n, resolves FlagOk HashOk n p -> in_memory n = true -> p = erase n.
Proof.
  induction p as [|v|k q IH|ps IH] using ptrie_children_ind; intros n H Hm; inversion H; subst; try discriminate; try reflexivity.
  - cbn [erase]. f_equal. apply IH; assumption.
  - cbn [erase]. f_equal. cbn [in_memory] in Hm. match goal with H : Forall2 _ _ _ |- _ => revert IH Hm; clear -H; induction H as [|n q ns qs Hn _ IHs]; intros IH Hm; [reflexivity|] end.
    cbn [forallb map] in *. apply andb_true_iff in Hm. destruct Hm as [Hm1 Hm2]. inversion IH; subst. f_equal; auto.
Qed.

(** The node_encodings of the nodes of a trie. *)
Fixpoint node_encodings (Keccak256 : list Z -> list Z) (p : ptrie) : list (list Z) :=
  match p with
  | PNil | PVal _ => []
  | PShort _ q => penc Keccak256 p :: node_encodings Keccak256 q
  | PFull ps => penc Keccak256 p :: flat_map (node_encodings Keccak256) ps
  end.

Lemma knowns_encodings Keccak256 (known : list Z -> Prop) p : (forall e, In e (node_encodings Keccak256 p) -> known e) -> knowns Keccak256 known p.
Proof.
  induction p as [|v|k q IH|ps IH] using ptrie_children_ind; intros H; [exact I|exact I| |].
  - split; [apply H; left; reflexivity|apply IH; intros e He; apply H; right; exact He].
  - apply knowns_full. split; [apply H; left; reflexivity|]. apply Forall_forall. intros q Hq. rewrite Forall_forall in IH. apply IH; [exact Hq|].
    intros e He. apply H. right. apply in_flat_map. eauto.
Qed.

(** No two strings of a list have the same hash. *)
Fixpoint distinct_hashes (Keccak256 : list Z -> list Z) (l : list (list Z)) : bool :=
  match l with
  | [] => true
  | a :: l => forallb (fun b => negb (key_eqb (Keccak256 a) (Keccak256 b))) l && distinct_hashes Keccak256 l
  end.

Lemma distinct_no_collision Keccak256 l : distinct_hashes Keccak256 l = true -> forall a b, In a l -> In b l -> Keccak256 a = Keccak256 b -> a = b.
Proof.
  induction l as [|c l IH]; intros H a b Ha Hb E; [destruct Ha|]. cbn [distinct_hashes] in H. apply andb_true_iff in H. destruct H as [H1 H2]. rewrite forallb_forall in H1.
  assert (Hn : forall d, In d l -> Keccak256 c <> Keccak256 d) by (intros d Hd; specialize (H1 d Hd); destruct (key_eqb_spec (Keccak256 c) (Keccak256 d)); [discriminate|assumption]).
  destruct Ha as [->|Ha], Hb as [->|Hb]; [reflexivity|destruct (Hn b Hb E)|destruct (Hn a Ha (eq_sym E))|apply (IH H2 a b Ha Hb E)].
Qed.

Definition sample_hash (b : list Z) : list Z := if key_eqb b [0x80] then Hash_Bytes emptyRoot else be_bytes 32 (1 + SetBytes b mod (2 ^ 255 - 19)).

Lemma sample_hash_laws l : distinct_hashes sample_hash ([0x80] :: l) = true -> hash_laws sample_hash (fun e => In e ([0x80] :: l)).
Proof.
  intros Hd. assert (Hv : forall b, exists x, sample_hash b = be_bytes 32 x /\ 0 < x < 256 ^ 32).
  { intros b. unfold sample_hash, Hash_Bytes. destruct (key_eqb b [0x80]); eexists; (split; [reflexivity|]); [vm_compute; auto|].
    pose proof (Z.mod_pos_bound (SetBytes b) (2 ^ 255 - 19) ltac:(lia)). lia. }
  split.
  - intros b. destruct (Hv b) as (x & -> & _). apply be_bytes_len.
  - intros b. destruct (Hv b) as (x & -> & _). apply be_bytes_ok.
  - apply distinct_no_collision, Hd.
  - reflexivity.
  - left. reflexivity.
  - intros e _. destruct (Hv e) as (x & -> & Hx). unfold BytesToHash. rewrite SetBytes_be_bytes. change (Z.of_nat 32) with 32. change HashLength with 32. rewrite !Z.mod_small by (rewrite ?Z.mod_small; lia). lia.
Qed.

(** A store that is a list of what was put, and three keys of which one is deleted again. *)
Definition sample_Put (w : list (list Z * list Z)) (k v : list Z) : list (list Z * list Z) * option unit := ((k, v) :: w, None).
Definition sample_written (w : list (list Z * list Z)) (j : list Z) : option (list Z) := option_map snd (find (fun kv => key_eqb j (fst kv)) w).
Definition sample_key (n : Z) : list Z := be_bytes 32 n.
Definition trie_calls : list call :=
  [Write (sample_key 5) [1; 2]; Rehash; Write (sample_key (2 ^ 200)) [3]; Write (sample_key (2 ^ 250)) (repeat 4 60); Read (sample_key 7); Write (sample_key (2 ^ 200)) []].
Definition trie_calls' : list call := [Write (sample_key (2 ^ 250)) (repeat 4 60); Write (sample_key 5) [9]; Rehash; Write (sample_key 5) [1; 2]].
Definition sample_map : list Z -> option (list Z) := edited trie_calls (fun _ => None).
Definition sample_trie (cs : list call) : node := match run_calls sample_hash (sample_written []) 0 0 cs nilNode with Ret (root, None) => root | _ => nilNode end.

Lemma sample_hash_len b : len (sample_hash b) = 32.
Proof. unfold sample_hash. destruct (key_eqb b [0x80]); apply be_bytes_len. Qed.

Lemma trie_calls_hashed : Forall hashed_call trie_calls /\ Forall hashed_call trie_calls'.
Proof.
  assert (Hw : forall n v, len v < 2 ^ 32 -> hashed_call (Write (sample_key n) v)) by (intros n v Hv; split; [apply be_bytes_ok|split; [apply be_bytes_len|exact Hv]]).
  unfold trie_calls, trie_calls'. split; repeat (apply Forall_cons; [first [exact I|apply be_bytes_ok|apply Hw; vm_compute; reflexivity]|]); apply Forall_nil.
Qed.

Lemma sample_contents cs : Forall hashed_call cs -> contents sample_hash (sample_written []) (sample_trie cs) (edited cs (fun _ => None)) /\ hashed_keys (edited cs (fun _ => None)).
Proof.
  intros H. destruct (contents_calls sample_hash sample_hash_len (sample_written []) 0 0 cs H _ _ (empty_contents sample_hash _) nothing_hashed) as (root & E & Hc).
  unfold sample_trie. rewrite E. exact Hc.
Qed.

(** The node_encodings of the sample are known. *)
Definition sample_known (e : list Z) : Prop := In e ([0x80] :: node_encodings sample_hash (erase (sample_trie trie_calls))).

Lemma sample_knowns p : of_map p sample_map -> knowns sample_hash sample_known p.
Proof.
  intros Hm. destruct (sample_contents trie_calls (proj1 trie_calls_hashed)) as [(q & Hst & Hq) _].
  rewrite (of_map_unique p q _ _ Hm Hq (fun _ _ => eq_refl)), (resolves_erase _ _ q _ Hst ltac:(vm_compute; reflexivity)).
  apply knowns_encodings. intros e He. right. exact He.
Qed.

Lemma sample_laws : hash_laws sample_hash sample_known.
Proof. apply sample_hash_laws. vm_compute. reflexivity. Qed.

Lemma sample_same key : bytes_ok key -> sample_map key = edited trie_calls' (fun _ => None) key.
Proof.
  intros _. unfold sample_map, trie_calls, trie_calls', edited, edited1. cbn [fold_left len length Z.of_nat Z.eqb repeat Pos.of_succ_nat]. unfold update, remove. cbn beta.
  destruct (key_eqb_spec key (sample_key (2 ^ 200))) as [->|]; [vm_compute; reflexivity|]. destruct (key_eqb_spec key (sample_key 5)) as [->|]; [vm_compute; reflexivity|].
  destruct (key_eqb_spec key (sample_key (2 ^ 250))) as [->|]; reflexivity.
Qed.

Lemma trie_refines_map_witness : exists root', trie_TryGet (sample_written []) 0 (sample_trie trie_calls) (sample_key 5) = Ret (root', Ok [1; 2]) /\
  contents sample_hash (sample_written []) root' sample_map.
Proof.
  apply (trie_refines_map sample_hash (sample_written []) 0 (sample_trie trie_calls) sample_map (sample_key 5) sample_hash_len).
  - apply sample_contents, trie_calls_hashed.
  - apply be_bytes_ok.
Defined.

Lemma trie_hash_of_contents_witness : exists root root' r r' h,
  run_calls sample_hash (sample_written []) 0 0 trie_calls nilNode = Ret (root, None) /\ run_calls sample_hash (sample_written []) 3 1 trie_calls' nilNode = Ret (root', None) /\
  trie_HashRoot sample_hash 0 0 root = Ret (r, h) /\ trie_HashRoot sample_hash 3 1 root' = Ret (r', h).
Proof.
  exact (trie_hash_of_contents sample_hash (sample_written []) (sample_written []) 0 3 0 1 trie_calls trie_calls' sample_hash_len (proj1 trie_calls_hashed) (proj2 trie_calls_hashed) sample_same).
Defined.

Lemma trie_commit_reopens_witness : exists root' gen' w' r, trie_Commit sample_hash sample_Put 0 0 (sample_trie trie_calls) [] = Ret (root', gen', w', r) /\
  match r with
  | Err e => root' = sample_trie trie_calls /\ exists w k v, snd (sample_Put w k v) = Some e
  | Ok h => (exists r, trie_HashRoot sample_hash 0 0 (sample_trie trie_calls) = Ret (r, h)) /\ extends (sample_written []) (sample_written w') /\
      contents sample_hash (sample_written w') root' sample_map /\ exists n, trie_New (sample_written w') h = Ret (Ok n) /\ contents sample_hash (sample_written w') n sample_map
  end.
Proof.
  apply (trie_commit_reopens sample_hash sample_Put sample_written sample_known 0 0 (sample_trie trie_calls) sample_map [] sample_laws).
  - intros w k v w' [= <-] j. unfold sample_written. cbn [find fst]. destruct (key_eqb j k); reflexivity.
  - intros e _. left. reflexivity.
  - apply sample_contents, trie_calls_hashed.
  - apply sample_contents, trie_calls_hashed.
  - apply sample_knowns.
Defined.

Lemma key_encodings_invert_witness : hexToKeybytes (keybytesToHex [0x12; 0xAB]) = Ret [0x12; 0xAB] /\ exists c, hexToCompact (node_key true [1; 2; 3]) = Ret c /\ compactToHex c = Ret (node_key true [1; 2; 3]) /\ len c = 2.
Proof.
  destruct (key_encodings_invert [0x12; 0xAB] true [1; 2; 3]) as (H1 & _ & c & H2 & H3 & _ & H4).
  - repeat constructor; discriminate.
  - repeat constructor; discriminate.
  - split; [exact H1|]. exists c. repeat split; assumption.
Defined.

Definition sample_hashed (cs : list call) : node * Hash := match trie_HashRoot sample_hash 0 0 (sample_trie cs) with Ret x => x | Panic => (nilNode, 0) end.

Lemma trie_hash_binds_witness : snd (sample_hashed trie_calls) = snd (sample_hashed trie_calls') /\ forall key, bytes_ok key -> sample_map key = edited trie_calls' (fun _ => None) key.
Proof.
  split; [vm_compute; reflexivity|]. destruct trie_calls_hashed as [H1 H2].
  apply (trie_hash_binds sample_hash sample_known (sample_written []) (sample_written []) 0 0 0 0 (sample_trie trie_calls) (sample_trie trie_calls') sample_map (edited trie_calls' (fun _ => None))
    (fst (sample_hashed trie_calls)) (fst (sample_hashed trie_calls')) (snd (sample_hashed trie_calls)) sample_laws).
  - apply (sample_contents trie_calls H1).
  - apply (sample_contents trie_calls' H2).
  - apply (sample_contents trie_calls H1).
  - apply (sample_contents trie_calls' H2).
  - intros p [Hp|(Hw & Hl & Hk)]; apply sample_knowns; [exact Hp|]. split; [exact Hw|]. split; [|exact Hk]. intros key Hb. rewrite Hl, sample_same by exact Hb. reflexivity.
  - vm_compute. reflexivity.
  - vm_compute. reflexivity.
Defined.
