(* ===== verification/TrieProof.v ===== *)
(** * Package [trie]: Merkle proofs

    [trie/proof.go].  A proof is the list of the encoded nodes on the path of a
    key, of those that have a hash. *)

From Stdlib Require Import ZArith List Lia Bool.
From S2P Require Import Prelude GoBig CommonTypes Rlp TrieNode TrieOps TrieHash ByteBuf RlpTheorems TrieSpec TrieRefine TrieMerkle TrieStore TrieContents TrieTheorems.
Import ListNotations.
Local Open Scope Z_scope.

(** The errors of [VerifyProof]; the number is that of the node. *)
Inductive proofErr : Type :=
| hash_mismatch (i : Z)
| bad_node (i : Z) (e : nodeErr)
| key_mismatch (i : Z)
| additional_nodes
| unexpected_end.

(** A child of a full node, for functions that are recursive on nodes. *)
Definition at_child {A : Type} (f : node -> outcome A) : list node -> nat -> outcome A :=
  fix at_child (clds : list node) (i : nat) : outcome A :=
    match clds, i with
    | c :: _, O => f c
    | _ :: clds, S i => at_child clds i
    | [], _ => Panic
    end.

(** The key has the prefix [k]. *)
Definition has_prefix (k key : list Z) : bool := negb ((length key <? length k)%nat || negb (bytes_Equal k (firstn (length k) key))).

(** What is left of the key, and the node there: nil, a hash or a value. *)
Fixpoint get (tn : node) (key : list Z) : outcome (list Z * node) :=
  match tn with
  | shortNode nkey nval _ => if has_prefix nkey key then get nval (skipn (length nkey) key) else Ret ([], nilNode)
  | fullNode clds _ =>
      match key with
      | [] => Panic
      | k0 :: key => at_child (fun c => get c key) clds (Z.to_nat k0)
      end
  | hashNode _ => Ret (key, tn)
  | nilNode => Ret (key, nilNode)
  | valueNode _ => Ret ([], tn)
  end.

Section proof.
Variable Keccak256 : list Z -> list Z.
Variable Get : list Z -> option (list Z).

(** ** [Prove] *)

(** The nodes on the path; [None] is a node that is missing.  A step that consumes
    no key loads a hash. *)
Fixpoint path_nodes (fuel : nat) (cachegen : Z) (tn : node) (key : list Z) : outcome (option (list node)) :=
  match fuel with
  | O => Panic
  | S fuel =>
      match key with
      | [] => Ret (Some [])
      | k0 :: ktail =>
          match tn with
          | nilNode => Ret (Some [])
          | shortNode nkey nval _ =>
              if has_prefix nkey key then
                let! r := path_nodes fuel cachegen nval (skipn (length nkey) key) in
                Ret (option_map (cons tn) r)
              else Ret (Some [tn])
          | fullNode clds _ =>
              let! c := index clds k0 in
              let! r := path_nodes fuel cachegen c ktail in
              Ret (option_map (cons tn) r)
          | hashNode h =>
              let! r := resolveHash Get cachegen h [] in
              match r with
              | Ok n => path_nodes fuel cachegen n key
              | Err _ => Ret None
              end
          | valueNode _ => Panic
          end
      end
  end.

(** [hashChildren(n, nil)] of a hasher without cache generations: the collapsed node. *)
Definition hashChildren (n : node) : outcome node :=
  match n with
  | shortNode key val flags =>
      let! ckey := hexToCompact key in
      let! x :=
        match val with
        | valueNode _ => Ret (None, Ok (val, val))
        | _ => hash Keccak256 no_writer 0 0 val None false
        end in
      match snd x with
      | Ok (cv, _) => Ret (shortNode ckey (not_nil cv) flags)
      | Err e => match e : Empty_set with end
      end
  | fullNode clds flags =>
      let! x := hash_children (hash Keccak256 no_writer 0 0) O clds None in
      match snd x with
      | Ok (ccs, _) => Ret (fullNode ccs flags)
      | Err e => match e : Empty_set with end
      end
  | _ => Ret n
  end.

(** The nodes that are elements: the first, and those that have a hash. *)
Fixpoint proof_elements (first : bool) (nodes : list node) : outcome (list (list Z)) :=
  match nodes with
  | [] => Ret []
  | n :: nodes =>
      let! n := hashChildren n in
      let! x := store Keccak256 no_writer n None false in
      let! enc := EncodeToBytes (node_val n) in
      let! proof := proof_elements false nodes in
      let is_element := match snd x with Ok (hashNode _) => true | _ => first end in
      Ret (if is_element then match enc with Ok e => e | Err _ => [] end :: proof else proof)
  end.

(** A nil proof is empty. *)
Definition Prove (cachegen : Z) (root : node) (key : list Z) : outcome (list (list Z)) :=
  let key := keybytesToHex key in
  let! nodes := path_nodes (depth key) cachegen root key in
  match nodes with
  | Some nodes => proof_elements true nodes
  | None => Ret []
  end.

(** ** [VerifyProof] *)

(** The loop from element [i] on; a nil value is empty. *)
Fixpoint verify_from (i : Z) (wantHash key : list Z) (proof : list (list Z)) : outcome (result (list Z) proofErr) :=
  match proof with
  | [] => Ret (Err unexpected_end)
  | buf :: proof =>
      if negb (bytes_Equal (Keccak256 buf) wantHash) then Ret (Err (hash_mismatch i))
      else
        let! r := decodeNode 0 (Some wantHash) buf in
        match r with
        | Err e => Ret (Err (bad_node i e))
        | Ok n =>
            let! x := get n key in
            match x with
            | (_, nilNode) => Ret (match proof with [] => Ok [] | _ :: _ => Err (key_mismatch i) end)
            | (keyrest, hashNode h) => verify_from (i + 1) h keyrest proof
            | (_, valueNode v) => Ret (match proof with [] => Ok v | _ :: _ => Err additional_nodes end)
            | _ => verify_from (i + 1) wantHash key proof
            end
        end
  end.

Definition VerifyProof (rootHash : Hash) (key : list Z) (proof : list (list Z)) : outcome (result (list Z) proofErr) :=
  verify_from 0 (Hash_Bytes rootHash) (keybytesToHex key) proof.
End proof.

(** * Theorems about Merkle proofs

    The nodes on the path of a key, in the trie without hashes, and what [get] finds
    in a decoded node; [VerifyProof] accepts what [Prove] returns, and from any
    proof returns what the trie has or an error. *)

(** ** Paths *)

Lemma has_prefix_strip k key : match strip k key with Some r => has_prefix k key = true /\ skipn (length k) key = r | None => has_prefix k key = false end.
Proof.
  unfold has_prefix. rewrite short_test. destruct (strip k key) as [r|] eqn:E; [|reflexivity]. apply strip_spec in E. subst key. rewrite skipn_pre. auto.
Qed.

(** The subtries on the path of a key. *)
Fixpoint ppath (p : ptrie) (key : list Z) : list ptrie :=
  match p with
  | PNil | PVal _ => []
  | PShort k q => p :: match strip k key with Some r => ppath q r | None => [] end
  | PFull ps =>
      p :: match key with
           | [] => []
           | x :: r => nth (Z.to_nat x) (map (fun q => ppath q r) ps) []
           end
  end.

Lemma ppath_full ps x r : ppath (PFull ps) (x :: r) = PFull ps :: ppath (child ps x) r.
Proof. cbn [ppath]. unfold child. f_equal. exact (map_nth (fun q => ppath q r) ps PNil (Z.to_nat x)). Qed.

Lemma at_child_nth {A : Type} (f : node -> outcome A) clds : forall i n, nth_error clds i = Some n -> at_child f clds i = f n.
Proof. induction clds as [|c clds IH]; intros [|i] n H; try discriminate; cbn in *; [injection H as ->; reflexivity|apply IH, H]. Qed.

Section paths.
Variable Keccak256 : list Z -> list Z.
Hypothesis Keccak_len : forall b, len (Keccak256 b) = 32.
Variable known : list Z -> Prop.
Abbreviation penc := (penc Keccak256).
Abbreviation knowns := (knowns Keccak256 known).

Definition big (p : ptrie) : bool := 32 <=? len (penc p).
(** The elements below the first. *)
Definition below (p : ptrie) (key : list Z) : list ptrie := filter big (tl (ppath p key)).

(** What is found in a node for a key, with the elements that follow. *)
Inductive landed (p : ptrie) (key : list Z) : list Z * node -> list ptrie -> Prop :=
| l_nil rest : plookup p key = None -> landed p key (rest, nilNode) []
| l_value rest v : plookup p key = Some v -> landed p key (rest, valueNode v) []
| l_hash rest q : wft q -> sized q -> knowns q -> hexkey rest -> plookup p key = plookup q rest ->
    landed p key (rest, hashNode (Keccak256 (penc q))) (q :: below q rest).

Definition finds (n : node) (p : ptrie) (key : list Z) (l : list ptrie) : Prop := exists x, get n key = Ret x /\ landed p key x l.

Lemma landed_same p p' key key' x l : plookup p key = plookup p' key' -> landed p' key' x l -> landed p key x l.
Proof. intros E H. inversion H; subst; constructor; congruence || assumption. Qed.

(** A child: a large one is a hash, and the next element. *)
Lemma child_finds p key : (forall h, wft p -> sized p -> knowns p -> hexkey key -> finds (pnode Keccak256 0 h p) p key (below p key)) ->
  fits p key -> sized p -> knowns p -> finds (pchild Keccak256 0 p) p key (filter big (ppath p key)).
Proof.
  intros IH Hf Hs Hk. assert (Hpn : p = PNil -> finds (pchild Keccak256 0 p) p key (filter big (ppath p key))) by (intros ->; eexists; split; [reflexivity|constructor; reflexivity]).
  destruct Hf as [[[E|Hw] Hh]|[[E|(v & -> & _)] ->]]; [auto| |auto|].
  - assert (Hc : pchild Keccak256 0 p = if len (penc p) <? 32 then pnode Keccak256 0 None p else hashNode (Keccak256 (penc p))) by (destruct p; try contradiction; reflexivity).
    assert (Hp : filter big (ppath p key) = (if big p then [p] else []) ++ below p key).
    { assert (Ep : ppath p key = p :: tl (ppath p key)) by (destruct p; try contradiction; reflexivity). rewrite Ep. cbn [filter tl]. unfold below. rewrite Ep. cbn [tl]. destruct (big p); reflexivity. }
    rewrite Hc, Hp. unfold big. destruct (Z.ltb_spec (len (penc p)) 32), (Z.leb_spec 32 (len (penc p))); try lia; cbn [app].
    + apply IH; assumption.
    + eexists. split; [reflexivity|]. constructor; auto.
  - eexists. split; [reflexivity|constructor; reflexivity].
Qed.

Lemma get_spec p : forall h key, wft p -> sized p -> knowns p -> hexkey key -> finds (pnode Keccak256 0 h p) p key (below p key).
Proof.
  induction p as [|v|k q IH|ps IH] using ptrie_children_ind; intros h key Hw Hs Hk Hh; try contradiction.
  - cbn [pnode]. change (fold_node Keccak256 q (pnode Keccak256 0 None q)) with (pchild Keccak256 0 q). unfold finds, below. cbn [get ppath tl plookup].
    pose proof (has_prefix_strip k key) as Hp. destruct (strip k key) as [r|] eqn:E.
    + destruct Hp as [-> ->]. apply strip_spec in E. subst key. destruct (short_fits k q r Hw Hh) as [Hf _].
      destruct (child_finds q r (fun h' W S K X => IH h' r W S K X) Hf (proj2 Hs) (proj2 Hk)) as (x & E1 & Hx). exists x. split; [exact E1|].
      apply (landed_same _ q _ r); [apply plookup_short|exact Hx].
    + rewrite Hp. eexists. split; [reflexivity|]. constructor. cbn. rewrite E. reflexivity.
  - destruct key as [|x r]; [inversion Hh|]. destruct (child_fits ps x r Hw Hh) as [Hx Hf]. apply knowns_full in Hk. destruct Hk as [_ Hk]. apply sized_full in Hs.
    assert (Hin : In (child ps x) ps) by (unfold child; apply nth_In; unfold len in Hx; lia). rewrite Forall_forall in IH, Hs, Hk.
    destruct (child_finds (child ps x) r (fun h' W S K X => IH _ Hin h' r W S K X) Hf (Hs _ Hin) (Hk _ Hin)) as (y & E1 & Hy). exists y. split.
    + cbn [pnode get]. rewrite (at_child_nth _ _ _ (pchild Keccak256 0 (child ps x))); [exact E1|]. rewrite nth_error_map. unfold child. unfold len in Hx.
      rewrite (nth_error_nth' ps PNil) by lia. reflexivity.
    + unfold below. rewrite ppath_full. cbn [tl]. apply (landed_same _ (child ps x) _ r); [apply plookup_full|exact Hy].
Qed.

(** ** Verifying *)

Lemma decodeNode_penc p h : wft p -> sized p -> decodeNode 0 (Some h) (penc p) = Ret (Ok (pnode Keccak256 0 (Some h) p)).
Proof using Keccak_len.
  intros Hw Hs. pose proof (penc_len Keccak256 Keccak_len p Hw Hs) as [_ Hl]. unfold decodeNode.
  pose proof (decode_spec Keccak256 Keccak_len 0 (S (length (penc p))) p (Some h) []) as D. rewrite app_nil_r in D. apply D; auto; lia.
Qed.

(** One element of a proof that is a node of the trie. *)
Lemma verify_step p key i proof : wft p -> sized p -> knowns p -> hexkey key ->
  exists x, landed p key x (below p key) /\ verify_from Keccak256 i (Keccak256 (penc p)) key (penc p :: proof) =
    match x with
    | (_, nilNode) => Ret (match proof with [] => Ok [] | _ :: _ => Err (key_mismatch i) end)
    | (keyrest, hashNode h) => verify_from Keccak256 (i + 1) h keyrest proof
    | (_, valueNode v) => Ret (match proof with [] => Ok v | _ :: _ => Err additional_nodes end)
    | _ => verify_from Keccak256 (i + 1) (Keccak256 (penc p)) key proof
    end.
Proof using Keccak_len.
  intros Hw Hs Hk Hh. destruct (get_spec p (Some (Keccak256 (penc p))) key Hw Hs Hk Hh) as (x & E & Hx). exists x. split; [exact Hx|].
  cbn [verify_from]. rewrite (proj2 (bytes_Equal_spec _ _) eq_refl), decodeNode_penc by assumption. cbn [negb obind]. rewrite E. reflexivity.
Qed.

Lemma verify_complete n : forall p key i, (length (below p key) < n)%nat -> wft p -> sized p -> knowns p -> hexkey key ->
  verify_from Keccak256 i (Keccak256 (penc p)) key (penc p :: map penc (below p key)) = Ret (Ok (value_of (plookup p key))).
Proof using Keccak_len.
  induction n as [|n IH]; intros p key i Hn Hw Hs Hk Hh; [lia|]. destruct (verify_step p key i (map penc (below p key)) Hw Hs Hk Hh) as (x & Hx & ->).
  inversion Hx as [rest E1 E2 E3|rest v E1 E2 E3|rest q Wq Sq Kq Hr E1 E2 E3]; cbn [map]; rewrite E1; try reflexivity.
  rewrite <- E3 in Hn. cbn [length] in Hn. apply IH; auto. lia.
Qed.

Hypothesis no_collision : forall a b, known a -> known b -> Keccak256 a = Keccak256 b -> a = b.

Lemma verify_sound proof : Forall known proof -> forall p key i, wft p -> sized p -> knowns p -> hexkey key ->
  exists r, verify_from Keccak256 i (Keccak256 (penc p)) key proof = Ret r /\ forall v, r = Ok v -> v = value_of (plookup p key).
Proof using Keccak_len no_collision.
  induction 1 as [|buf proof Hb _ IH]; intros p key i Hw Hs Hk Hh; [eexists; split; [reflexivity|discriminate]|].
  destruct (bytes_Equal (Keccak256 buf) (Keccak256 (penc p))) eqn:E.
  - apply bytes_Equal_spec in E. apply no_collision in E; [|exact Hb|apply knowns_self; assumption]. subst buf.
    destruct (verify_step p key i proof Hw Hs Hk Hh) as (x & Hx & ->). inversion Hx as [rest E1 E2 E3|rest v E1 E2 E3|rest q Wq Sq Kq Hr E1 E2 E3]; subst; rewrite E1.
    + eexists. split; [reflexivity|]. destruct proof; [intros v [= <-]; reflexivity|discriminate].
    + eexists. split; [reflexivity|]. destruct proof; [intros w [= <-]; reflexivity|discriminate].
    + apply IH; assumption.
  - cbn [verify_from]. rewrite E. eexists. split; [reflexivity|discriminate].
Qed.
End paths.

(** ** Proving *)

Section proving.
Variable Keccak256 : list Z -> list Z.
Hypothesis Keccak_len : forall b, len (Keccak256 b) = 32.
Variable Get : list Z -> option (list Z).
Abbreviation penc := (penc Keccak256).
Abbreviation stands := (stands_for Keccak256 Get).
Let Hres := right_resolves Keccak256 Keccak_len.

Lemma path_nodes_spec cachegen fuel : forall n p key, stands n p -> fits p key -> (2 * length key + hash_steps n < fuel)%nat ->
  exists ns, path_nodes Get fuel cachegen n key = Ret (Some ns) /\ Forall2 (fun n q => stands n q /\ loaded_node n) ns (ppath p key).
Proof using Keccak_len.
  induction fuel as [|fuel IH]; intros n p key Hn Hf Hl; [lia|]. cbn [path_nodes]. destruct key as [|x r].
  { destruct Hf as [[_ Hh]|[Hv _]]; [inversion Hh|]. exists []. split; [reflexivity|]. destruct Hv as [->|(v & -> & _)]; constructor. }
  destruct Hf as [[[->|Hw] Hh]|[_ Hf]]; [|rename Hn into Hst|discriminate].
  { rewrite (nil_root Keccak256 (fun _ _ => None) Get (@None unit) n Hn). exists []. split; [reflexivity|constructor]. }
  inversion Hst as [E1 E2|v' E1 E2|k c q fl Hc Hfl E1 E2|ns ps fl Hc Hfl E1 E2|h q Hr E1 E2]; subst; try contradiction.
  - cbn [ppath]. pose proof (has_prefix_strip k (x :: r)) as Hp. destruct (strip k (x :: r)) as [r'|] eqn:Es.
    + destruct Hp as [-> ->]. apply strip_spec in Es. rewrite Es in Hh, Hl. destruct (short_fits k q r' Hw Hh) as [Hfr Nk].
      destruct (IH c q r' Hc Hfr) as (ns & -> & Hns); [|exists (shortNode k c fl :: ns); split; [reflexivity|constructor; auto]; split; [exact Hst|exact I]].
      rewrite length_app in Hl. destruct k; [contradiction|]. cbn [length] in Hl. unfold hash_steps. destruct (is_hash c); lia.
    + rewrite Hp. exists [shortNode k c fl]. split; [reflexivity|]. constructor; [split; [exact Hst|exact I]|constructor].
  - rewrite ppath_full. destruct (child_fits ps x r Hw Hh) as [Hx Hfc]. destruct (children_index _ _ ns ps x Hc Hx) as (c & -> & Hrc). cbn [obind].
    destruct (IH c (child ps x) r Hrc Hfc) as (ms & -> & Hms); [cbn [length] in Hl; unfold hash_steps; destruct (is_hash c); lia|].
    exists (fullNode ns fl :: ms). split; [reflexivity|]. constructor; [split; [exact Hst|exact I]|exact Hms].
  - destruct (right_resolves Keccak256 Keccak_len cachegen Get h p [] Hr) as (n' & -> & Hl' & Hn'). cbn [obind]. apply (IH n' p (x :: r) Hn'); [left; split; [right; exact Hw|exact Hh]|].
    cbn [hash_steps is_hash] in Hl. unfold hash_steps in *. cbn [is_hash] in Hl. destruct n'; try contradiction; cbn [is_hash]; lia.
Qed.

(** Collapsing a node on the path. *)
Lemma hashChildren_spec n q : stands n q -> loaded_node n -> wft q -> sized q ->
  exists n', hashChildren Keccak256 n = Ret n' /\ node_val n' = pval Keccak256 q /\ loaded_node n'.
Proof using Keccak_len.
  set (written := fun (w : Empty_set) (_ : list Z) => @None (list Z)).
  pose proof (hash_spec Keccak256 Keccak_len no_writer 0 0 written (fun w => match w with end) (fun _ => True) (fun w => match w with end) Get) as Hall.
  assert (Hcl : clean Keccak256 written (fun _ => True) Get None) by (intros H; destruct (H eq_refl)).
  intros Hn Hl Hw Hs. inversion Hn as [E1 E2|v' E1 E2|k c p fl Hc Hfl E1 E2|ns ps fl Hc Hfl E1 E2|h p Hr E1 E2]; subst; try contradiction; cbn [hashChildren].
  - destruct (short_key k p Hw) as (t & body & Ek & Hb & _). destruct (compact_key t body Hb) as (ck & E1 & _). rewrite <- Ek in E1. rewrite E1. cbn [obind].
    destruct (short_child_spec Keccak256 no_writer 0 0 written (fun _ => True) Get k p c None (Hall p) Hc Hw (proj2 Hs) (knowns_all Keccak256 p) Hcl) as (db' & r & -> & Hr).
    cbn [obind snd]. destruct r as [[cv kv]|[]]. destruct Hr as (_ & Hv & _). eexists. split; [reflexivity|]. split; [|exact I]. cbn [node_val pval]. rewrite Hv.
    unfold compact. rewrite E1. reflexivity.
  - pose proof Hs as Hs'. apply sized_full in Hs'. assert (Hk : Forall (knowns Keccak256 (fun _ => True)) ps) by (apply Forall_forall; intros q _; apply knowns_all).
    destruct (children_spec Keccak256 Keccak_len no_writer 0 0 written (fun _ => True) Get ps ltac:(apply Forall_forall; intros q _; apply Hall) 0 ns None (full_forms ps Hw) Hc Hs' Hk Hcl) as (db' & r & -> & Hr).
    cbn [obind snd]. destruct r as [[ccs kcs]|[]]. destruct Hr as (_ & Hv & _). eexists. split; [reflexivity|]. split; [|exact I]. cbn [node_val pval]. f_equal. exact Hv.
Qed.

Lemma ppath_forms p : forall key, fits p key -> sized p -> Forall (fun q => wft q /\ sized q) (ppath p key).
Proof.
  induction p as [|v|k q IH|ps IH] using ptrie_children_ind; intros key Hf Hs; [constructor|constructor| |].
  - cbn [ppath]. destruct Hf as [[[E|Hw] Hh]|[[E|(v & E & _)] _]]; try discriminate. constructor; [auto|].
    destruct (strip k key) as [r|] eqn:E; [|constructor]. apply strip_spec in E. subst key. apply IH; [apply (short_fits k q r Hw Hh)|apply Hs].
  - destruct Hf as [[[E|Hw] Hh]|[[E|(v & E & _)] _]]; try discriminate. destruct key as [|x r]; [inversion Hh|]. rewrite ppath_full. constructor; [auto|].
    destruct (child_fits ps x r Hw Hh) as [Hx Hfc]. assert (Hin : In (child ps x) ps) by (unfold child; apply nth_In; unfold len in Hx; lia).
    apply sized_full in Hs. rewrite Forall_forall in IH, Hs. apply (IH _ Hin r Hfc (Hs _ Hin)).
Qed.

Definition elements_of (first : bool) (ps : list ptrie) : list ptrie :=
  match ps with [] => [] | p :: ps => (if first || big Keccak256 p then [p] else []) ++ filter (big Keccak256) ps end.

Lemma proof_elements_spec ns : forall first ps, Forall2 (fun n q => stands n q /\ loaded_node n) ns ps -> Forall (fun q => wft q /\ sized q) ps ->
  proof_elements Keccak256 first ns = Ret (map penc (elements_of first ps)).
Proof using Keccak_len.
  induction ns as [|n ns IH]; intros first ps H Hf; inversion H as [|n' q ns' qs [Hn Hl] Hns]; subst; [reflexivity|]. inversion Hf as [|? ? [Hw Hs] Hf']; subst. cbn [proof_elements].
  destruct (hashChildren_spec n q Hn Hl Hw Hs) as (c & -> & Ev & Hlc). cbn [obind].
  assert (Est : exists x, store Keccak256 no_writer c None false = Ret (None, Ok x) /\ match x with hashNode _ => big Keccak256 q = true | _ => big Keccak256 q = false end).
  { unfold store, big. destruct c; try contradiction; rewrite Ev, (encode_pval Keccak256 Keccak_len q Hw Hs); cbn [obind negb andb];
      destruct (Z.ltb_spec (len (penc q)) 32), (Z.leb_spec 32 (len (penc q))); try lia; cbn [andb]; eexists; split; reflexivity. }
  destruct Est as (x & -> & Hx). cbn [obind snd]. rewrite Ev, (encode_pval Keccak256 Keccak_len q Hw Hs). cbn [obind]. rewrite (IH false qs Hns Hf'). cbn [obind elements_of].
  assert (Eq : map penc (elements_of false qs) = map penc (filter (big Keccak256) qs)) by (destruct qs as [|q' qs]; [reflexivity|]; cbn [elements_of filter orb]; destruct (big Keccak256 q'); reflexivity).
  rewrite Eq. f_equal. rewrite map_app. destruct x; rewrite Hx, ?orb_true_r, ?orb_false_r; try reflexivity; destruct first; reflexivity.
Qed.

Lemma Prove_spec cachegen root p key : stands root p -> wft p -> sized p -> bytes_ok key ->
  Prove Keccak256 Get cachegen root key = Ret (penc p :: map penc (below Keccak256 p (keybytesToHex key))).
Proof using Keccak_len.
  intros Hst Hw Hs Hk. pose proof (keybytes_hexkey key Hk) as Hh. assert (Hf : fits p (keybytesToHex key)) by (left; split; [right; exact Hw|exact Hh]). unfold Prove.
  destruct (path_nodes_spec cachegen (depth (keybytesToHex key)) root p _ Hst Hf ltac:(unfold depth, hash_steps; destruct (is_hash root); lia)) as (ns & -> & Hns). cbn [obind].
  rewrite (proof_elements_spec ns true _ Hns (ppath_forms p _ Hf Hs)). unfold elements_of, below. assert (Ep : ppath p (keybytesToHex key) = p :: tl (ppath p (keybytesToHex key))) by (destruct p; try contradiction; reflexivity).
  rewrite Ep. cbn [orb app map tl]. reflexivity.
Qed.
End proving.

(** ** Theorems *)

(** C35: A proof that [Prove] makes is accepted.  For any trie of hashed keys that is
    not empty, in memory or in the database in any part, and any key of bytes,
    whether it is in the trie or not, [Prove] returns a proof, and [VerifyProof]
    with the root hash of the trie returns the value of the key, or nil for a key
    that is not there. *)
Theorem proof_complete Keccak256 Get gen limit root m key r h : (forall b, len (Keccak256 b) = 32) -> (forall b, bytes_ok (Keccak256 b)) ->
  contents Keccak256 Get root m -> hashed_keys m -> root <> nilNode -> bytes_ok key -> trie_HashRoot Keccak256 gen limit root = Ret (r, h) ->
  exists proof, Prove Keccak256 Get gen root key = Ret proof /\ VerifyProof Keccak256 h key proof = Ret (Ok (value_of (m key))).
Proof.
  intros Hl Hb (p & Hst & Hm) Hh Nr Hk Er. destruct (hashed_sized Keccak256 Hl p m Hm Hh) as [Hs Hlen].
  destruct (HashRoot_spec Keccak256 Hl Get gen limit root p Hst (proj1 Hm) Hs Hlen) as (r' & E & _). rewrite Er in E. injection E as _ ->.
  destruct Hm as ([->|Hw] & Hlk & _); [destruct (Nr (nil_root Keccak256 (fun _ _ => None) Get (@None unit) root Hst))|].
  rewrite (Prove_spec Keccak256 Hl Get gen root p key Hst Hw Hs Hk). eexists. split; [reflexivity|]. unfold VerifyProof.
  destruct (root_hash_bytes Keccak256 Hl Hb p) as [B1 B2]. rewrite Hash_Bytes_of by assumption.
  assert (Eh : root_hash Keccak256 p = Keccak256 (penc Keccak256 p)) by (destruct p; try contradiction; reflexivity). rewrite Eh, <- (Hlk key Hk).
  apply (verify_complete Keccak256 Hl (fun _ => True) (S (length (below Keccak256 p (keybytesToHex key))))); auto; [apply knowns_all|apply keybytes_hexkey, Hk].
Qed.

(** C17: No proof is accepted for what the trie does not have.  When the hash
    function has no collision among the nodes of the trie and the elements of the
    proof, [VerifyProof] with the root hash of a trie does not panic whatever the
    proof is, and if it returns a value and no error, the value is that of the key
    in the trie: a value that was changed, a key that was left out or one that was
    added is found out. *)
Theorem proof_sound Keccak256 known Get gen limit root m key r h proof : hash_laws Keccak256 known ->
  contents Keccak256 Get root m -> hashed_keys m -> (forall p, of_map p m -> knowns Keccak256 known p) -> bytes_ok key -> Forall known proof ->
  trie_HashRoot Keccak256 gen limit root = Ret (r, h) ->
  exists res, VerifyProof Keccak256 h key proof = Ret res /\ forall v, res = Ok v -> v = value_of (m key).
Proof.
  intros HL (p & Hst & Hm) Hh Hkn Hk Hp Er. pose proof (hl_len _ _ HL) as Hl. destruct (hashed_sized Keccak256 Hl p m Hm Hh) as [Hs Hlen].
  destruct (HashRoot_spec Keccak256 Hl Get gen limit root p Hst (proj1 Hm) Hs Hlen) as (r' & E & _). rewrite Er in E. injection E as _ ->. specialize (Hkn p Hm).
  unfold VerifyProof. destruct (root_hash_bytes Keccak256 Hl (hl_bytes _ _ HL) p) as [B1 B2]. rewrite Hash_Bytes_of by assumption. destruct Hm as ([->|Hw] & Hlk & _).
  - cbn [root_hash]. destruct Hp as [|buf proof Hb _]; [eexists; split; [reflexivity|discriminate]|]. cbn [verify_from].
    destruct (bytes_Equal (Keccak256 buf) (Hash_Bytes emptyRoot)) eqn:E; [|eexists; split; [reflexivity|discriminate]]. apply bytes_Equal_spec in E. rewrite <- (hl_empty _ _ HL) in E.
    apply (hl_no_collision _ _ HL) in E; [|exact Hb|apply (hl_known _ _ HL)]. subst buf. eexists. split; [reflexivity|discriminate].
  - assert (Eh : root_hash Keccak256 p = Keccak256 (penc Keccak256 p)) by (destruct p; try contradiction; reflexivity). rewrite Eh, <- (Hlk key Hk).
    apply (verify_sound Keccak256 Hl known (hl_no_collision _ _ HL)); auto. apply keybytes_hexkey, Hk.
Qed.

(** ** Samples *)

Definition sample_proof : list (list Z) := match Prove sample_hash (sample_written []) 0 (sample_trie trie_calls) (sample_key 5) with Ret proof => proof | Panic => [] end.

Lemma sample_proof_known : Forall sample_known sample_proof /\ length sample_proof = 3%nat.
Proof.
  split; [|vm_compute; reflexivity].
  assert (H : forallb (fun e => existsb (key_eqb e) ([0x80] :: node_encodings sample_hash (erase (sample_trie trie_calls)))) sample_proof = true) by (vm_compute; reflexivity).
  apply Forall_forall. intros e He. rewrite forallb_forall in H. specialize (H e He). apply existsb_exists in H. destruct H as (e' & Hin & E). revert E. destruct (key_eqb_spec e e') as [->|]; [intros _; exact Hin|intros E; discriminate E].
Qed.

Lemma proof_complete_witness : exists proof, Prove sample_hash (sample_written []) 0 (sample_trie trie_calls) (sample_key 5) = Ret proof /\
  VerifyProof sample_hash (snd (sample_hashed trie_calls)) (sample_key 5) proof = Ret (Ok [1; 2]).
Proof.
  apply (proof_complete sample_hash (sample_written []) 0 0 (sample_trie trie_calls) sample_map (sample_key 5) (fst (sample_hashed trie_calls)) (snd (sample_hashed trie_calls)) sample_hash_len
    (hl_bytes _ _ sample_laws)).
  - apply (sample_contents trie_calls (proj1 trie_calls_hashed)).
  - apply (sample_contents trie_calls (proj1 trie_calls_hashed)).
  - vm_compute. discriminate.
  - apply be_bytes_ok.
  - vm_compute. reflexivity.
Defined.

Lemma proof_sound_witness : exists res, VerifyProof sample_hash (snd (sample_hashed trie_calls)) (sample_key 6) sample_proof = Ret res /\ forall v, res = Ok v -> v = [].
Proof.
  apply (proof_sound sample_hash sample_known (sample_written []) 0 0 (sample_trie trie_calls) sample_map (sample_key 6) (fst (sample_hashed trie_calls)) (snd (sample_hashed trie_calls)) sample_proof sample_laws).
  - apply (sample_contents trie_calls (proj1 trie_calls_hashed)).
  - apply (sample_contents trie_calls (proj1 trie_calls_hashed)).
  - apply sample_knowns.
  - apply be_bytes_ok.
  - apply sample_proof_known.
  - vm_compute. reflexivity.
Defined.
