(* ===== verification/VmContract.v ===== *)
(** * Package [vm]: errors and contracts

    [core/vm/errors.go] with the error values of [instructions.go],
    [jump_table.go] and [contracts.go], and [core/vm/contract.go].  The map of
    jump destinations, which contracts of one call tree share by reference, is
    not a field of the contract but part of the machine state. *)

From Stdlib Require Import ZArith List Lia Bool.
From S2P Require Import Prelude GoBig ByteConversion VmCommon CommonTypes.
Import ListNotations.
Local Open Scope Z_scope.

Inductive vmErr : Type :=
| ErrOutOfGas
| ErrCodeStoreOutOfGas
| ErrDepth
| ErrInsufficientBalance
| ErrContractAddressCollision
| errGasUintOverflow
| errWriteProtection
| errReturnDataOutOfBounds
| errExecutionReverted
| errMaxCodeSizeExceeded
| errNotOnCurve
| errInvalidCurvePoint
| errBadPairingInput
| errInvalidInputRangeProof
| errConversion (e : convErr)
| errStackUnderflow (have want : Z)
| errStackLimit (have : Z)
| errInvalidJump (op pos : Z)
| errInvalidOpcode (op : Z).

(** [err == errExecutionReverted] *)
Definition is_reverted (e : vmErr) : bool := match e with errExecutionReverted => true | _ => false end.
(** [err == ErrCodeStoreOutOfGas] *)
Definition is_codestore (e : vmErr) : bool := match e with ErrCodeStoreOutOfGas => true | _ => false end.

(** The [ContractRef] interface: an [AccountRef] is an address; a [*Contract]
    also has what [AsDelegate] reads of it, its [CallerAddress] and [value]. *)
Record ContractRef : Type := mkRef { ref_Address : Address; ref_Contract : option (Address * option Z) }.

Definition AccountRef (a : Address) : ContractRef := mkRef a None.

Record Contract : Type := mkContract {
  CallerAddress : Address;
  caller : ContractRef;
  self : ContractRef;
  Code : list Z;
  CodeHash : Hash;
  CodeAddr : option Address;
  Input : list Z;
  Gas : Z;
  value : option Z;
  DelegateCall : bool }.

Definition NewContract (caller object : ContractRef) (value : option Z) (gas : Z) : Contract :=
  mkContract (ref_Address caller) caller object [] 0 None [] gas value false.

Definition AsDelegate (c : Contract) : outcome Contract :=
  match ref_Contract (caller c) with
  | None => Panic
  | Some (parentCaller, parentValue) =>
      Ret (mkContract parentCaller (caller c) (self c) (Code c) (CodeHash c) (CodeAddr c) (Input c) (Gas c)
             parentValue true)
  end.

Definition GetByte (c : Contract) (n : Z) : outcome Z :=
  if n <? u64 (len (Code c)) then index (Code c) n else Ret 0.
Definition GetOp (c : Contract) (n : Z) : outcome Z := GetByte c n.

Definition Caller (c : Contract) : Address := CallerAddress c.
Definition contract_Address (c : Contract) : Address := ref_Address (self c).
(** A contract seen as the caller of another one. *)
Definition contract_ref (c : Contract) : ContractRef :=
  mkRef (contract_Address c) (Some (CallerAddress c, value c)).

Definition set_Gas (c : Contract) (gas : Z) : Contract :=
  mkContract (CallerAddress c) (caller c) (self c) (Code c) (CodeHash c) (CodeAddr c) (Input c) gas (value c)
    (DelegateCall c).
Definition set_Input (c : Contract) (input : list Z) : Contract :=
  mkContract (CallerAddress c) (caller c) (self c) (Code c) (CodeHash c) (CodeAddr c) input (Gas c) (value c)
    (DelegateCall c).

Definition UseGas (c : Contract) (gas : Z) : Contract * bool :=
  if Gas c <? gas then (c, false) else (set_Gas c (u64 (Gas c - gas)), true).

Definition SetCode (c : Contract) (hash : Hash) (code : list Z) : Contract :=
  mkContract (CallerAddress c) (caller c) (self c) code hash (CodeAddr c) (Input c) (Gas c) (value c) (DelegateCall c).
Definition SetCallCode (c : Contract) (addr : Address) (hash : Hash) (code : list Z) : Contract :=
  mkContract (CallerAddress c) (caller c) (self c) code hash (Some addr) (Input c) (Gas c) (value c) (DelegateCall c).

(** ** Gas is never created *)

Lemma UseGas_spec c gas : is_u64 (Gas c) -> 0 <= gas ->
  UseGas c gas = if Gas c <? gas then (c, false) else (set_Gas c (Gas c - gas), true).
Proof.
  unfold is_u64, UseGas. intros Hc Hg. destruct (Z.ltb_spec (Gas c) gas); [reflexivity|].
  rewrite u64_small by lia. reflexivity.
Qed.

Lemma GetOp_ret c n : 0 <= n -> len (Code c) < 2 ^ 63 ->
  GetOp c n = Ret (nth (Z.to_nat n) (Code c) 0).
Proof.
  intros Hn Hc. unfold GetOp, GetByte. pose proof (len_nonneg (Code c)). rewrite u64_small by lia.
  destruct (Z.ltb_spec n (len (Code c))) as [L|L].
  - apply index_ret; [|exact Hn]. apply nth_error_nth'. unfold len in L. lia.
  - rewrite nth_overflow; [reflexivity|]. unfold len in L. lia.
Qed.
