(* ===== verification/Precompiles.v ===== *)
(** * Package [vm]: the precompiled contracts

    [core/vm/contracts.go], with [crypto.ValidateSignatureValues].  The hash
    functions Keccak-256 and RIPEMD-160 and the recovery of public keys (a C
    library) are parameters.  A contract is the record of its two methods; [Run]
    of [ecrecover] is also given with the caller's buffer as it leaves it. *)

From Stdlib Require Import ZArith List Lia Bool.
From S2P Require Import Prelude GoBig ModArith Sha256 ByteConversion ByteBuf ZkValidator Bn256Field Bn256Curve.
From S2P Require Import Bn256Twist Bn256Pairing Bn256Group VmCommon Params CommonTypes VmContract.
Import ListNotations.
Local Open Scope Z_scope.

(** ** The interface *)

Record PrecompiledContract : Type := mkPrecompile {
  RequiredGas : list Z -> outcome Z;
  Run : list Z -> outcome (result (list Z) vmErr) }.

Definition RunPrecompiledContract (p : PrecompiledContract) (input : list Z) (contract : Contract)
    : outcome (result (list Z) vmErr * Contract) :=
  let! gas := RequiredGas p input in
  let '(contract, ok) := UseGas contract gas in
  if ok then
    let! r := Run p input in
    Ret (r, contract)
  else Ret (Err ErrOutOfGas, contract).

(** ** Signatures *)

Definition secp256k1_N : Z := 0xfffffffffffffffffffffffffffffffebaaedce6af48a03bbfd25e8cd0364141.
Definition secp256k1_halfN : Z := secp256k1_N / 2.

Definition ValidateSignatureValues (v r s : Z) (homestead : bool) : bool :=
  if (r <? 1) || (s <? 1) then false
  else if homestead && (s >? secp256k1_halfN) then false
  else (r <? secp256k1_N) && (s <? secp256k1_N) && ((v =? 0) || (v =? 1)).

(** ** Hashes and the identity *)

(** [uint64(len(input)+31)/32*perWord + base] *)
Definition wordGas (input : list Z) (perWord base : Z) : Z :=
  u64 (u64 (u64 (i64 (len input + 31)) / 32 * perWord) + base).

Definition sha256hash_RequiredGas (input : list Z) : Z := wordGas input Sha256PerWordGas Sha256BaseGas.
Definition sha256hash_Run (input : list Z) : list Z := sha256.Sum256 input.
Definition ripemd160hash_RequiredGas (input : list Z) : Z := wordGas input Ripemd160PerWordGas Ripemd160BaseGas.
Definition dataCopy_RequiredGas (input : list Z) : Z := wordGas input IdentityPerWordGas IdentityBaseGas.
Definition dataCopy_Run (input : list Z) : list Z := input.

(** ** Modular exponentiation *)

(** [input[96:]], or the empty slice. *)
Definition modexp_tail (input : list Z) : outcome (list Z) :=
  if len input >? 96 then slice input 96 (len input) else slice input 0 0.

Definition bigModExp_RequiredGas (input : list Z) : outcome Z :=
  let! d0 := getData input 0 32 in
  let! d1 := getData input 32 32 in
  let! d2 := getData input 64 32 in
  let baseLen := SetBytes d0 in
  let expLen := SetBytes d1 in
  let modLen := SetBytes d2 in
  let! input := modexp_tail input in
  let! expHead :=
    (if len input <=? baseLen then Ret 0
     else if expLen >? 32 then
       let! d := getData input (Uint64 baseLen) 32 in Ret (SetBytes d)
     else
       let! d := getData input (Uint64 baseLen) (Uint64 expLen) in Ret (SetBytes d)) in
  let bitlen := BitLen expHead in
  let msb := if bitlen >? 0 then bitlen - 1 else 0 in
  let adjExpLen := if expLen >? 32 then 8 * (expLen - 32) else 0 in
  let adjExpLen := adjExpLen + msb in
  let gas := BigMax modLen baseLen in
  let! gas :=
    (if gas <=? 64 then Ret (gas * gas)
     else if gas <=? 1024 then let! q := big.Div (gas * gas) 4 in Ret (q + (96 * gas - 3072))
     else let! q := big.Div (gas * gas) 16 in Ret (q + (480 * gas - 199680))) in
  let gas := gas * BigMax adjExpLen 1 in
  let! gas := big.Div gas ModExpQuadCoeffDiv in
  if BitLen gas >? 64 then Ret MaxUint64 else Ret (Uint64 gas).

Definition bigModExp_Run (input : list Z) : outcome (result (list Z) vmErr) :=
  let! d0 := getData input 0 32 in
  let! d1 := getData input 32 32 in
  let! d2 := getData input 64 32 in
  let baseLen := Uint64 (SetBytes d0) in
  let expLen := Uint64 (SetBytes d1) in
  let modLen := Uint64 (SetBytes d2) in
  let! input := modexp_tail input in
  if (baseLen =? 0) && (modLen =? 0) then Ret (Ok [])
  else
    let! b := getData input 0 baseLen in
    let! e := getData input baseLen expLen in
    let! m := getData input (u64 (baseLen + expLen)) modLen in
    let base := SetBytes b in
    let exp := SetBytes e in
    let mod_ := SetBytes m in
    if BitLen mod_ =? 0 then
      let! r := LeftPadBytes [] (i64 modLen) in Ret (Ok r)
    else
      let! r := LeftPadBytes (Bytes (big.Exp base exp mod_)) (i64 modLen) in Ret (Ok r).

(** ** Elliptic curves *)

Definition newCurvePoint (blob : list Z) : outcome (result curvePoint vmErr) :=
  let! p := G1.Unmarshal blob in
  match p with
  | None => Ret (Err errNotOnCurve)
  | Some p =>
      let '(gx, gy, _, _) := G1.CurvePoints p in
      if (gx >=? P) || (gy >=? P) then Ret (Err errInvalidCurvePoint) else Ret (Ok p)
  end.

Definition newTwistPoint (blob : list Z) : outcome (result twistPoint vmErr) :=
  let! p := G2.Unmarshal blob in
  match p with
  | None => Ret (Err errNotOnCurve)
  | Some p =>
      let '(x2, y2, _, _) := G2.CurvePoints p in
      if (GFp2.Real x2 >=? P) || (GFp2.Imag x2 >=? P) || (GFp2.Real y2 >=? P) || (GFp2.Imag y2 >=? P)
      then Ret (Err errInvalidCurvePoint) else Ret (Ok p)
  end.

Definition bn256Add_Run (input : list Z) : outcome (result (list Z) vmErr) :=
  let! d := getData input 0 64 in
  let! r := newCurvePoint d in
  try! x := r in
  let! d := getData input 64 64 in
  let! r := newCurvePoint d in
  try! y := r in
  let res := G1.Add (CurvePoint.newCurvePoint) x y in
  let! (bs, _) := G1.Marshal res in
  Ret (Ok bs).

Definition bn256ScalarMul_Run (input : list Z) : outcome (result (list Z) vmErr) :=
  let! d := getData input 0 64 in
  let! r := newCurvePoint d in
  try! p := r in
  let! d := getData input 64 32 in
  let res := G1.ScalarMult p (SetBytes d) in
  let! (bs, _) := G1.Marshal res in
  Ret (Ok bs).

Definition true32Byte : list Z := zeros 31 ++ [1].
Definition false32Byte : list Z := zeros 32.

Definition bn256Pairing_RequiredGas (input : list Z) : Z :=
  u64 (Bn256PairingBaseGas + u64 (u64 (Z.quot (len input) 192) * Bn256PairingPerPointGas)).

(** The turns of the loop from index [i], [n] of them. *)
Fixpoint pairing_points (n : nat) (i : Z) (input : list Z) (cs : list curvePoint) (ts : list twistPoint)
    : outcome (result (list curvePoint * list twistPoint) vmErr) :=
  match n with
  | O => Ret (Ok (cs, ts))
  | S n =>
      let! b := slice input i (i + 64) in
      let! r := newCurvePoint b in
      try! c := r in
      let! b := slice input (i + 64) (i + 192) in
      let! r := newTwistPoint b in
      try! t := r in
      pairing_points n (i + 192) input (cs ++ [c]) (ts ++ [t])
  end.

Definition bn256Pairing_Run (input : list Z) : outcome (result (list Z) vmErr) :=
  if Z.rem (len input) 192 >? 0 then Ret (Err errBadPairingInput)
  else
    let! r := pairing_points (Z.to_nat ((len input + 191) / 192)) 0 input [] [] in
    try! pts := r in
    let! ok := PairingCheck (fst pts) (snd pts) in
    if ok then Ret (Ok true32Byte) else Ret (Ok false32Byte).

(** ** The range proof *)

Definition zkpRangeProof_RequiredGas (input : list Z) : Z := 180000.

Definition zkpRangeProof_Run (input : list Z) : outcome (result (list Z) vmErr) :=
  let OFFSET := 4 in
  if len input <? OFFSET + 6 * 32 then Ret (Err errInvalidInputRangeProof)
  else
    let! w := slice input 4 36 in
    let lower := SetBytes w in
    let! w := slice input 36 68 in
    let upper := SetBytes w in
    let! w := slice input 100 132 in
    let startProof := i64 (Int64 (SetBytes w) + OFFSET) in
    if (startProof <=? 164) || (i64 (startProof + 32) >? len input) then Ret (Err errInvalidInputRangeProof)
    else
      let! w := slice input 132 164 in
      let commitmentLength := Int64 (SetBytes w) in
      let! byteArrayCommitment := slice input 164 startProof in
      let! w := slice input startProof (i64 (startProof + 32)) in
      let proofLength := Int64 (SetBytes w) in
      let! byteArrayProof := slice input (i64 (startProof + 32)) (len input) in
      if (commitmentLength <=? 0) || (proofLength <=? 0) || (commitmentLength >? len byteArrayCommitment)
         || (proofLength >? len byteArrayProof)
      then Ret (Err errInvalidInputRangeProof)
      else
        let! bs := slice byteArrayCommitment 0 commitmentLength in
        let! r := ParseInput bs in
        match r with
        | Err e => Ret (Err (errConversion e))
        | Ok parsedCommitment =>
            let! bs := slice byteArrayProof 0 proofLength in
            let! r := ParseInput bs in
            match r with
            | Err e => Ret (Err (errConversion e))
            | Ok parsedProof =>
                let! (ok, _) := zkrangeproof.ValidateRangeProof lower upper parsedCommitment parsedProof in
                if ok then Ret (Ok true32Byte) else Ret (Ok false32Byte)
            end
        end.

(** ** Signature recovery and the tables *)

Section parameters.
Variable Keccak256 : list Z -> list Z.
Variable Ecrecover : list Z -> list Z -> option (list Z).
Variable ripemd160 : list Z -> list Z.

(** The result ([[]] for [nil]) and the caller's input: [append(input[64:128], v)]
    writes into the array of an input longer than 128 bytes, which
    [RightPadBytes] returns unchanged. *)
Definition ecrecover_Run (input0 : list Z) : outcome (list Z * list Z) :=
  let input := RightPadBytes input0 128 in
  let! rb := slice input 64 96 in
  let! sb := slice input 96 128 in
  let r := SetBytes rb in
  let s := SetBytes sb in
  let! b63 := index input 63 in
  let v := u8 (b63 - 27) in
  let! pad := slice input 32 63 in
  if negb (allZero pad) || negb (ValidateSignatureValues v r s false) then Ret ([], input0)
  else
    let! h := slice input 0 32 in
    let! rs := slice input 64 128 in
    let after := if len input0 >? 128 then firstn 128 input0 ++ v :: skipn 129 input0 else input0 in
    match Ecrecover h (rs ++ [v]) with
    | None => Ret ([], after)
    | Some pubKey =>
        let! t := slice pubKey 1 (len pubKey) in
        let k := Keccak256 t in
        let! a := slice k 12 (len k) in
        let! out := LeftPadBytes a 32 in
        Ret (out, after)
    end.

Definition ripemd160hash_Run (input : list Z) : outcome (list Z) := LeftPadBytes (ripemd160 input) 32.

Definition ecrecover : PrecompiledContract :=
  mkPrecompile (fun _ => Ret EcrecoverGas) (fun input => let! (r, _) := ecrecover_Run input in Ret (Ok r)).
Definition sha256hash : PrecompiledContract :=
  mkPrecompile (fun input => Ret (sha256hash_RequiredGas input)) (fun input => Ret (Ok (sha256hash_Run input))).
Definition ripemd160hash : PrecompiledContract :=
  mkPrecompile (fun input => Ret (ripemd160hash_RequiredGas input))
    (fun input => let! r := ripemd160hash_Run input in Ret (Ok r)).
Definition dataCopy : PrecompiledContract :=
  mkPrecompile (fun input => Ret (dataCopy_RequiredGas input)) (fun input => Ret (Ok (dataCopy_Run input))).
Definition bigModExp : PrecompiledContract := mkPrecompile bigModExp_RequiredGas bigModExp_Run.
Definition bn256Add : PrecompiledContract := mkPrecompile (fun _ => Ret Bn256AddGas) bn256Add_Run.
Definition bn256ScalarMul : PrecompiledContract := mkPrecompile (fun _ => Ret Bn256ScalarMulGas) bn256ScalarMul_Run.
Definition bn256Pairing : PrecompiledContract :=
  mkPrecompile (fun input => Ret (bn256Pairing_RequiredGas input)) bn256Pairing_Run.
Definition zkpRangeProof : PrecompiledContract :=
  mkPrecompile (fun input => Ret (zkpRangeProof_RequiredGas input)) zkpRangeProof_Run.

(** The maps from addresses, as the functions they are used as. *)
Definition PrecompiledContractsHomestead (a : Address) : option PrecompiledContract :=
  if a =? BytesToAddress [1] then Some ecrecover
  else if a =? BytesToAddress [2] then Some sha256hash
  else if a =? BytesToAddress [3] then Some ripemd160hash
  else if a =? BytesToAddress [4] then Some dataCopy
  else if a =? BytesToAddress [9] then Some zkpRangeProof
  else None.

Definition PrecompiledContractsMetropolis (a : Address) : option PrecompiledContract :=
  if a =? BytesToAddress [1] then Some ecrecover
  else if a =? BytesToAddress [2] then Some sha256hash
  else if a =? BytesToAddress [3] then Some ripemd160hash
  else if a =? BytesToAddress [4] then Some dataCopy
  else if a =? BytesToAddress [5] then Some bigModExp
  else if a =? BytesToAddress [6] then Some bn256Add
  else if a =? BytesToAddress [7] then Some bn256ScalarMul
  else if a =? BytesToAddress [8] then Some bn256Pairing
  else if a =? BytesToAddress [9] then Some zkpRangeProof
  else None.

End parameters.
