(* ===== verification/PrecompileTheorems.v ===== *)
(** * The properties of the precompiled contracts *)

From Stdlib Require Import ZArith List Lia Bool Zpow_facts.
From S2P Require Import Prelude GoBig ModArith Sha256 ByteConversion ByteBuf ZkValidator ZkArith ZkProver ZkRefine.
From S2P Require Import ZkSpec ZkTheorems Bn256Field Bn256Tower Bn256Curve Bn256Twist Bn256Pairing Bn256Group VmCommon Params.
From S2P Require Import CommonTypes VmContract Precompiles.
Import ListNotations.
Local Open Scope Z_scope.

#[local] Opaque DigestUtil.calculateHash challenge zkrangeproof.ValidateRangeProof ParseInput.

(** ** Slices of concatenations *)

Lemma slice_at {A : Type} (input pre mid post : list A) i j :
  input = pre ++ mid ++ post -> i = len pre -> j = i + len mid -> slice input i j = Ret mid.
Proof.
  intros -> -> ->. pose proof (len_nonneg pre). pose proof (len_nonneg mid). pose proof (len_nonneg post).
  rewrite slice_ret by (rewrite ?len_app; lia). f_equal.
  replace (Z.to_nat (len pre)) with (length pre) by (unfold len; lia).
  replace (Z.to_nat (len pre + len mid - len pre)) with (length mid) by (unfold len; lia).
  rewrite skipn_app, skipn_all, Nat.sub_diag. cbn [app skipn].
  rewrite firstn_app, Nat.sub_diag, firstn_O, app_nil_r. apply firstn_all.
Qed.

Definition word_at (input : list Z) (i : Z) : Z := SetBytes (firstn 32 (skipn (Z.to_nat i) input)).

Lemma slice_word (input : list Z) i j : 0 <= i -> j = i + 32 -> j <= len input ->
  slice input i j = Ret (firstn 32 (skipn (Z.to_nat i) input)).
Proof. intros ? -> ?. rewrite slice_ret by lia. replace (i + 32 - i) with 32 by lia. reflexivity. Qed.

Lemma word_at_range input i : bytes_ok input -> 0 <= i -> i + 32 <= len input -> 0 <= word_at input i < 2 ^ 256.
Proof.
  intros Hb Hi Hl. unfold word_at.
  pose proof (SetBytes_range (firstn 32 (skipn (Z.to_nat i) input)) ltac:(auto with go)) as R.
  replace (len (firstn 32 (skipn (Z.to_nat i) input))) with 32 in R
    by (unfold len in *; rewrite length_firstn, length_skipn; lia).
  exact R.
Qed.

Lemma ParseInput_ret s : exists r, ParseInput s = Ret r.
Proof. rewrite ParseInput_spec. eexists; reflexivity. Qed.

(** ** The range-proof contract *)

(** What happens once the four parts of the input are cut out. *)
Definition zkp_verdict (lower upper : Z) (c p : list Z) : outcome (result (list Z) vmErr) :=
  let! r := ParseInput c in
  match r with
  | Err e => Ret (Err (errConversion e))
  | Ok parsedCommitment =>
      let! r := ParseInput p in
      match r with
      | Err e => Ret (Err (errConversion e))
      | Ok parsedProof =>
          let! (ok, _) := zkrangeproof.ValidateRangeProof lower upper parsedCommitment parsedProof in
          if ok then Ret (Ok true32Byte) else Ret (Ok false32Byte)
      end
  end.

Lemma zkp_verdict_ret lower upper c p : exists r, zkp_verdict lower upper c p = Ret r.
Proof.
  unfold zkp_verdict. destruct (ParseInput_ret c) as [[cs|e] ->]; cbn [obind]; [|eexists; reflexivity].
  destruct (ParseInput_ret p) as [[ps|e] ->]; cbn [obind]; [|eexists; reflexivity].
  destruct (ValidateRangeProof_returns lower upper cs ps) as [[ok c'] ->]. cbn [obind].
  destruct ok; eexists; reflexivity.
Qed.

(** The word that holds the offset of the proof, as the code reads it. *)
Definition proof_start (input : list Z) : Z := i64 (Int64 (word_at input 100) + 4).

Lemma zkp_Run_cases input : bytes_ok input -> len input < 2 ^ 62 ->
  zkpRangeProof_Run input =
  let s := proof_start input in
  let C := word_at input 132 in
  if (len input <? 196) || (s <=? 164) || (i64 (s + 32) >? len input) then Ret (Err errInvalidInputRangeProof)
  else if len input <? s then Panic
  else
    let commitment := firstn (Z.to_nat (s - 164)) (skipn (Z.to_nat 164) input) in
    let proof := skipn (Z.to_nat (s + 32)) input in
    let cl := Int64 C in
    let pl := Int64 (word_at input s) in
    if (cl <=? 0) || (pl <=? 0) || (cl >? len commitment) || (pl >? len proof)
    then Ret (Err errInvalidInputRangeProof)
    else zkp_verdict (word_at input 4) (word_at input 36) (firstn (Z.to_nat cl) commitment) (firstn (Z.to_nat pl) proof).
Proof.
  intros Hb Hl. unfold zkpRangeProof_Run. cbv zeta. change (4 + 6 * 32) with 196.
  destruct (Z.ltb_spec (len input) 196) as [L|L]; [reflexivity|]. cbn [orb].
  rewrite (slice_word input 4), (slice_word input 36), (slice_word input 100) by lia. cbn [obind].
  fold (word_at input 4) (word_at input 36) (word_at input 100). fold (proof_start input).
  set (s := proof_start input). destruct ((s <=? 164) || (i64 (s + 32) >? len input)) eqn:B; [reflexivity|]. b2p.
  rewrite (slice_word input 132) by lia. cbn [obind]. fold (word_at input 132).
  destruct (Z.ltb_spec (len input) s) as [Ls|Ls].
  { rewrite (slice_panic input 164 s) by lia. reflexivity. }
  assert (Hs : i64 (s + 32) = s + 32) by (apply i64_small; lia). rewrite Hs in *.
  rewrite (slice_ret input 164 s), (slice_word input s), (slice_ret input (s + 32)) by lia. cbn [obind].
  fold (word_at input s).
  replace (firstn (Z.to_nat (len input - (s + 32))) (skipn (Z.to_nat (s + 32)) input))
    with (skipn (Z.to_nat (s + 32)) input) by (symmetry; apply firstn_all2; unfold len; rewrite length_skipn; lia).
  destruct (_ || _ || _ || _) eqn:B; [reflexivity|]. b2p.
  rewrite (slice_ret _ 0 (Int64 (word_at input 132))), (slice_ret _ 0 (Int64 (word_at input s))) by lia.
  rewrite !Z.sub_0_r. cbn [obind Z.to_nat skipn]. unfold zkp_verdict.
  destruct (ParseInput _) as [[cs|e]|]; reflexivity.
Qed.

(** The arithmetic of the guard: it lets through a start beyond the input only
    when the sum in it overflows. *)
Lemma start_overflow w l : 0 <= w -> 196 <= l < 2 ^ 62 ->
  let s := i64 (Int64 w + 4) in
  (164 < s /\ i64 (s + 32) <= l /\ l < s) <-> 2 ^ 63 - 36 <= w mod 2 ^ 64 <= 2 ^ 63 - 5.
Proof.
  intros Hw Hl. cbv zeta. pose proof (Z.mod_pos_bound w (2 ^ 64) ltac:(lia)) as Hm.
  assert (E : Int64 w = if w mod 2 ^ 64 <? 2 ^ 63 then w mod 2 ^ 64 else w mod 2 ^ 64 - 2 ^ 64)
    by (unfold Int64; rewrite (proj2 (Z.ltb_ge w 0)), Z.abs_eq by lia; reflexivity).
  rewrite E. clear E. set (m := w mod 2 ^ 64) in *. clearbody m.
  destruct (Z.ltb_spec m (2 ^ 63)) as [L|L].
  - destruct (Z.lt_ge_cases (m + 4) (2 ^ 63)) as [L1|L1].
    + rewrite (i64_small (m + 4)) by lia. destruct (Z.lt_ge_cases (m + 4 + 32) (2 ^ 63)) as [L2|L2].
      * rewrite i64_small by lia. lia.
      * rewrite i64_over by lia. lia.
    + rewrite (i64_over (m + 4)) by lia. lia.
  - rewrite (i64_small (m - 2 ^ 64 + 4)) by lia. rewrite i64_small by lia. lia.
Qed.

(** What makes the guard overflow. *)
Definition start_overflows (input : list Z) : Prop :=
  196 <= len input /\ 2 ^ 63 - 36 <= word_at input 100 mod 2 ^ 64 <= 2 ^ 63 - 5.

Lemma zkpRangeProof_Panic_iff input : bytes_ok input -> len input < 2 ^ 62 ->
  (zkpRangeProof_Run input = Panic <-> start_overflows input).
Proof.
  intros Hb Hl. unfold start_overflows. rewrite zkp_Run_cases by assumption. cbv zeta.
  destruct (Z.ltb_spec (len input) 196) as [L|L]; cbn [orb]; [split; [discriminate|lia]|].
  pose proof (word_at_range input 100 Hb ltac:(lia) ltac:(lia)) as Hw.
  pose proof (start_overflow (word_at input 100) (len input) ltac:(lia) ltac:(lia)) as O. cbv zeta in O.
  fold (proof_start input) in O. rewrite Z.gtb_ltb.
  destruct (Z.leb_spec (proof_start input) 164) as [B|B]; cbn [orb]; [split; [discriminate|lia]|].
  destruct (Z.ltb_spec (len input) (i64 (proof_start input + 32))) as [B2|B2]; [split; [discriminate|lia]|].
  destruct (Z.ltb_spec (len input) (proof_start input)) as [Ls|Ls]; [split; [intros _; lia | reflexivity]|].
  split; [|lia]. destruct (_ || _ || _ || _); [discriminate|].
  match goal with |- ?v = _ -> _ => enough (exists r, v = Ret r) as [r ->] by discriminate end.
  apply zkp_verdict_ret.
Qed.

(** C4: the contract panics exactly on inputs of at least 196 bytes whose proof
    offset is a number just below [2^63] (modulo [2^64]): adding 36 to it
    overflows the signed 64-bit comparison that guards the slice. *)
Theorem zkpRangeProof_panics input : bytes_ok input -> len input < 2 ^ 62 ->
  (zkpRangeProof_Run input = Panic <->
   196 <= len input /\ 2 ^ 63 - 36 <= word_at input 100 mod 2 ^ 64 <= 2 ^ 63 - 5).
Proof. apply zkpRangeProof_Panic_iff. Qed.

(** 196 bytes: zeros, with the offset [2^63 - 5]. *)
Definition crash_input : list Z := zeros 100 ++ be_bytes 32 (2 ^ 63 - 5) ++ zeros 64.

Lemma zkpRangeProof_panics_witness : zkpRangeProof_Run crash_input = Panic.
Proof.
  apply (zkpRangeProof_panics crash_input);
    [unfold crash_input; apply bytes_ok_app; split; [|apply bytes_ok_app; split]; auto with go | vm_compute; reflexivity |].
  vm_compute. repeat split; discriminate.
Defined.

(** *** The ABI layout *)

(** Call data of a method [(uint256, uint256, bytes, bytes)]: selector, the two
    limits, the two offsets, and each byte string with its length, padded to
    whole words. *)
Definition pad32 (bs : list Z) : list Z := bs ++ zeros ((- len bs) mod 32).
Definition abi_input (sel : list Z) (lower upper : Z) (c p : list Z) : list Z :=
  sel ++ be_bytes 32 lower ++ be_bytes 32 upper ++ be_bytes 32 128 ++ be_bytes 32 (160 + len (pad32 c))
      ++ be_bytes 32 (len c) ++ pad32 c ++ be_bytes 32 (len p) ++ pad32 p.

Lemma pad32_len bs : len bs <= len (pad32 bs).
Proof.
  unfold pad32. rewrite len_app. pose proof (len_nonneg (zeros ((- len bs) mod 32))). lia.
Qed.

Lemma pad32_firstn bs : firstn (Z.to_nat (len bs)) (pad32 bs) = bs.
Proof.
  unfold pad32. replace (Z.to_nat (len bs)) with (length bs) by (unfold len; lia).
  rewrite firstn_app, Nat.sub_diag, firstn_O, app_nil_r. apply firstn_all.
Qed.

Lemma pad32_ok bs : bytes_ok bs -> bytes_ok (pad32 bs).
Proof. intros H. apply bytes_ok_app. auto with go. Qed.

Lemma skipn_at {A : Type} (l pre post : list A) i : l = pre ++ post -> i = len pre -> skipn (Z.to_nat i) l = post.
Proof.
  intros -> ->. replace (Z.to_nat (len pre)) with (length pre) by (unfold len; lia).
  rewrite skipn_app, skipn_all, Nat.sub_diag. reflexivity.
Qed.

Lemma word_at_be l pre v post i : l = pre ++ be_bytes 32 v ++ post -> i = len pre -> word_range v -> word_at l i = v.
Proof.
  intros E Hi Hv. unfold word_at. rewrite (skipn_at l pre (be_bytes 32 v ++ post) i E Hi).
  rewrite firstn_app, be_bytes_length, Nat.sub_diag, firstn_O, app_nil_r, firstn_all2 by (rewrite be_bytes_length; lia).
  rewrite SetBytes_be_bytes. apply Z.mod_small. exact Hv.
Qed.

Lemma small_word v : 0 <= v < 2 ^ 62 -> word_range v.
Proof. unfold word_range. assert (2 ^ 62 < 256 ^ 32) by reflexivity. lia. Qed.

Section abi.
Variables (sel : list Z) (lower upper : Z) (c p : list Z).
Hypothesis Hsel : len sel = 4.
Hypothesis Hlower : word_range lower.
Hypothesis Hupper : word_range upper.
Hypothesis Hc : 0 < len c.
Hypothesis Hp : 0 < len p.
Hypothesis Hlen : len (pad32 c) + len (pad32 p) < 2 ^ 61.
Hypothesis Hok : bytes_ok sel /\ bytes_ok c /\ bytes_ok p.

Local Abbreviation input := (abi_input sel lower upper c p).

Lemma abi_len : len input = 196 + len (pad32 c) + len (pad32 p).
Proof. unfold abi_input. rewrite !len_app, !be_bytes_len, Hsel. lia. Qed.

Lemma abi_ok : bytes_ok input.
Proof.
  destruct Hok as (H1 & H2 & H3). unfold abi_input. rewrite !bytes_ok_app.
  repeat split; auto using pad32_ok with go.
Qed.

(** The word [v] is at offset [i] when what precedes it has that length. *)
Ltac abi_word pre v :=
  eapply (word_at_be input pre v); [unfold abi_input; rewrite <- ?app_assoc; reflexivity
    | rewrite ?len_app, ?be_bytes_len, Hsel; lia
    | first [assumption | apply small_word; pose proof (pad32_len c); pose proof (pad32_len p); lia]].

Lemma abi_words :
  word_at input 4 = lower /\ word_at input 36 = upper /\ word_at input 100 = 160 + len (pad32 c) /\
  word_at input 132 = len c /\ word_at input (164 + len (pad32 c)) = len p.
Proof.
  split; [abi_word sel lower|]. split; [abi_word (sel ++ be_bytes 32 lower) upper|].
  split; [abi_word (sel ++ be_bytes 32 lower ++ be_bytes 32 upper ++ be_bytes 32 128) (160 + len (pad32 c))|].
  split; [abi_word (sel ++ be_bytes 32 lower ++ be_bytes 32 upper ++ be_bytes 32 128
                        ++ be_bytes 32 (160 + len (pad32 c))) (len c)|].
  abi_word (sel ++ be_bytes 32 lower ++ be_bytes 32 upper ++ be_bytes 32 128
              ++ be_bytes 32 (160 + len (pad32 c)) ++ be_bytes 32 (len c) ++ pad32 c) (len p).
Qed.

Lemma abi_Run : zkpRangeProof_Run input = zkp_verdict lower upper c p.
Proof.
  destruct abi_words as (W1 & W2 & W3 & W4 & W5). pose proof abi_len as L.
  pose proof (pad32_len c) as Lc. pose proof (pad32_len p) as Lp.
  rewrite zkp_Run_cases by (apply abi_ok || lia). cbv zeta. unfold proof_start.
  rewrite W1, W2, W3, W4, Int64_small by lia.
  replace (160 + len (pad32 c) + 4) with (164 + len (pad32 c)) by lia. rewrite i64_small by lia.
  rewrite W5, !Int64_small, i64_small by lia. rewrite !Z.gtb_ltb, L.
  set (s := 164 + len (pad32 c)).
  assert (E1 : firstn (Z.to_nat (s - 164)) (skipn (Z.to_nat 164) input) = pad32 c).
  { rewrite (skipn_at input (sel ++ be_bytes 32 lower ++ be_bytes 32 upper ++ be_bytes 32 128
      ++ be_bytes 32 (160 + len (pad32 c)) ++ be_bytes 32 (len c)) (pad32 c ++ be_bytes 32 (len p) ++ pad32 p));
      [|unfold abi_input; rewrite <- ?app_assoc; reflexivity | rewrite ?len_app, ?be_bytes_len, Hsel; lia].
    replace (Z.to_nat (s - 164)) with (length (pad32 c)) by (subst s; unfold len; lia).
    rewrite firstn_app, Nat.sub_diag, firstn_O, app_nil_r. apply firstn_all. }
  assert (E2 : skipn (Z.to_nat (s + 32)) input = pad32 p).
  { apply (skipn_at input (sel ++ be_bytes 32 lower ++ be_bytes 32 upper ++ be_bytes 32 128
      ++ be_bytes 32 (160 + len (pad32 c)) ++ be_bytes 32 (len c) ++ pad32 c ++ be_bytes 32 (len p)));
      [unfold abi_input; rewrite <- ?app_assoc; reflexivity | rewrite ?len_app, ?be_bytes_len, Hsel; subst s; lia]. }
  rewrite E1, E2, !pad32_firstn. subst s. decb. reflexivity.
Qed.

End abi.

(** Called with the ABI encoding of two limits, a commitment and a proof,
    the contract parses the two strings and returns the validator's verdict as
    a 32-byte boolean; a string that does not parse is an error. *)
Theorem zkpRangeProof_abi sel lower upper c p :
  len sel = 4 -> word_range lower -> word_range upper -> 0 < len c -> 0 < len p ->
  len (pad32 c) + len (pad32 p) < 2 ^ 61 -> bytes_ok sel /\ bytes_ok c /\ bytes_ok p ->
  zkpRangeProof_Run (abi_input sel lower upper c p) =
  match ParseInput c, ParseInput p with
  | Ret (Err e), _ => Ret (Err (errConversion e))
  | _, Ret (Err e) => Ret (Err (errConversion e))
  | Ret (Ok cs), Ret (Ok ps) =>
      match zkrangeproof.ValidateRangeProof lower upper cs ps with
      | Ret (true, _) => Ret (Ok true32Byte)
      | Ret (false, _) => Ret (Ok false32Byte)
      | Panic => Panic
      end
  | _, _ => Panic
  end.
Proof.
  intros. rewrite abi_Run by assumption. unfold zkp_verdict.
  destruct (ParseInput_ret c) as [[cs|e] ->], (ParseInput_ret p) as [[ps|e'] ->]; cbn [obind]; try reflexivity.
Qed.

Lemma zkpRangeProof_abi_witness :
  zkpRangeProof_Run (abi_input [1; 2; 3; 4] 1 9 [49; 44; 50] [65]) = Ret (Err (errConversion errInvalidBigInteger)).
Proof.
  exact (zkpRangeProof_abi [1; 2; 3; 4] 1 9 [49; 44; 50] [65] eq_refl ltac:(split; reflexivity || discriminate)
    ltac:(split; reflexivity || discriminate) ltac:(reflexivity) ltac:(reflexivity) ltac:(vm_compute; reflexivity)
    ltac:(repeat split; repeat constructor; discriminate)).
Defined.

(** ** From the prover to the precompiled contract *)

(** The commitment as the prover's side sends it. *)
Definition commitment_string (C : Commitment) : list Z := join_commas (commitment_numbers C).

(** C1: the whole path: for a number inside a range of 256-bit limits, an honest
    commitment and draws that end the retry loops, the Java packet exists, and
    a call of the precompiled contract with the ABI encoding of the limits, the
    commitment and that packet costs 180000 gas and returns the word 1. *)
Theorem honest_packet_precompile G x y C range d sel contract :
  good_group G -> commit G x y = Some C -> contains range x = true ->
  good_draws ((getEnd range - getStart range) * 2 ^ expansion_of range) d ->
  word_range (getStart range) -> word_range (getEnd range) -> len sel = 4 -> bytes_ok sel ->
  is_u64 (Gas contract) -> 180000 <= Gas contract ->
  exists packet, rangeproofPacket (mkTTPMessage C x y) range d = Some packet /\
    (len (pad32 (commitment_string C)) + len (pad32 packet) < 2 ^ 61 ->
     RunPrecompiledContract zkpRangeProof
       (abi_input sel (getStart range) (getEnd range) (commitment_string C) packet) contract
     = Ret (Ok true32Byte, set_Gas contract (Gas contract - 180000))).
Proof.
  intros HG HC Hx Hd H1 H2 Hs Hso Hg1 Hg2.
  destruct (packet_complete G x y C range d HG HC Hx Hd) as (pr & _ & HV & HP).
  destruct (validate_go pr C range HV) as [c' Hc]. exists (exportProof pr). split; [exact HP|]. intros Hl.
  unfold RunPrecompiledContract, zkpRangeProof. cbn [RequiredGas Run obind]. unfold zkpRangeProof_RequiredGas.
  rewrite UseGas_spec by (assumption || lia). decb. cbn [obind].
  destruct (join_commas_ok (commitment_numbers C)) as [C1 C2]; [discriminate|].
  destruct (join_commas_ok (proof_numbers pr)) as [P1 P2]; [discriminate|].
  rewrite abi_Run by (assumption || (split; [|split]; assumption)).
  unfold zkp_verdict, commitment_string, exportProof. rewrite !ParseInput_join by discriminate. cbn [obind].
  rewrite Hc. reflexivity.
Qed.

Definition sample_contract : Contract :=
  set_Gas (NewContract (AccountRef 7) (AccountRef 9) (Some 0) 0) 200000.

Lemma honest_packet_precompile_witness :
  exists packet,
    rangeproofPacket (mkTTPMessage (mkCommitment sample_group 68) 5 7) sample_range sample_draws = Some packet /\
    (len (pad32 (commitment_string (mkCommitment sample_group 68))) + len (pad32 packet) < 2 ^ 61 ->
     RunPrecompiledContract zkpRangeProof
       (abi_input [1; 2; 3; 4] 1 9 (commitment_string (mkCommitment sample_group 68)) packet) sample_contract
     = Ret (Ok true32Byte, set_Gas sample_contract 20000)).
Proof.
  exact (honest_packet_precompile sample_group 5 7 (mkCommitment sample_group 68) sample_range sample_draws
    [1; 2; 3; 4] sample_contract sample_group_ok ltac:(vm_compute; reflexivity) eq_refl sample_draws_ok
    ltac:(split; reflexivity || discriminate) ltac:(split; reflexivity || discriminate) eq_refl
    ltac:(repeat constructor; discriminate) ltac:(split; reflexivity || discriminate) ltac:(discriminate)).
Defined.

(** ** Modular exponentiation *)

Lemma modexp_tail_ret input : modexp_tail input = Ret (skipn 96 input).
Proof.
  unfold modexp_tail. rewrite Z.gtb_ltb. pose proof (len_nonneg input). destruct (Z.ltb_spec 96 (len input)) as [L|L].
  - rewrite slice_ret by lia. f_equal. apply firstn_all2. unfold len in *. rewrite length_skipn. lia.
  - rewrite slice_ret by lia. f_equal. rewrite (skipn_all2 (n := 96) input) by (unfold len in *; lia). reflexivity.
Qed.

Lemma skipn_len_le {A : Type} n (l : list A) : len (skipn n l) <= len l.
Proof. unfold len. rewrite length_skipn. lia. Qed.

(** The multiplication complexity of the gas formula. *)
Definition mult_complexity (x : Z) : Z :=
  if x <=? 64 then x * x
  else if x <=? 1024 then x * x / 4 + (96 * x - 3072)
  else x * x / 16 + (480 * x - 199680).

Lemma mult_complexity_ge x : 0 <= x -> x <= mult_complexity x.
Proof.
  intros Hx. unfold mult_complexity.
  assert (0 <= x * x / 4) by (apply Z.div_pos; nia). assert (0 <= x * x / 16) by (apply Z.div_pos; nia).
  destruct (Z.leb_spec x 64); [nia|]. destruct (Z.leb_spec x 1024); lia.
Qed.

Lemma BigMax_max x y : BigMax x y = Z.max x y.
Proof. unfold BigMax. destruct (Z.ltb_spec x y); lia. Qed.

(** The exponent length the price counts, from the length and the leading
    bytes of the exponent. *)
Definition adjusted_length (expLen expHead : Z) : Z :=
  (if expLen >? 32 then 8 * (expLen - 32) else 0) + (if BitLen expHead >? 0 then BitLen expHead - 1 else 0).

Section modexp.
Variable input : list Z.
Hypothesis Hok : bytes_ok input.
Hypothesis Hlen : len input < 2 ^ 63.

Definition baseLen := SetBytes (window input 0 32).
Definition expLen := SetBytes (window input 32 32).
Definition modLen := SetBytes (window input 64 32).
Definition operands := skipn 96 input.

Lemma window_word i : 0 <= SetBytes (window input i 32) < 2 ^ 256.
Proof.
  pose proof (SetBytes_range (window input i 32) (window_ok _ _ _ Hok)) as R.
  rewrite window_len in R by lia. exact R.
Qed.

Lemma operands_len : len operands < 2 ^ 63.
Proof. pose proof (skipn_len_le 96 input). unfold operands. lia. Qed.

(** The price, before it is cut off at [2^64 - 1]. *)
Lemma bigModExp_gas : exists expHead, 0 <= expHead /\
  let raw := mult_complexity (Z.max modLen baseLen) * Z.max (adjusted_length expLen expHead) 1 / 100 in
  bigModExp_RequiredGas input = Ret (if BitLen raw >? 64 then MaxUint64 else Uint64 raw).
Proof.
  unfold bigModExp_RequiredGas. pose proof operands_len as Ho.
  rewrite !(getData_window input) by lia. cbn [obind]. cbv zeta. fold baseLen expLen modLen.
  rewrite modexp_tail_ret. cbn [obind]. fold operands.
  assert (HB : 0 <= baseLen) by apply window_word. assert (HE : 0 <= expLen) by apply window_word.
  assert (Hh : exists h, 0 <= h /\
    (if len operands <=? baseLen then Ret 0
     else if expLen >? 32 then let! d := getData operands (Uint64 baseLen) 32 in Ret (SetBytes d)
     else let! d := getData operands (Uint64 baseLen) (Uint64 expLen) in Ret (SetBytes d)) = Ret h).
  { destruct (Z.leb_spec (len operands) baseLen) as [L|L]; [exists 0; split; [lia|reflexivity]|].
    assert (W : forall n, 0 <= SetBytes (window operands baseLen n)).
    { intros n. apply SetBytes_range, window_ok. unfold operands. auto with go. }
    unfold Uint64. rewrite !Z.abs_eq, (u64_small baseLen) by lia. rewrite Z.gtb_ltb.
    destruct (Z.ltb_spec 32 expLen) as [L2|L2].
    - rewrite getData_window by lia. eexists; split; [|reflexivity]. apply W.
    - rewrite (u64_small expLen), getData_window by lia. eexists; split; [|reflexivity]. apply W. }
  destruct Hh as (h & Hh & ->). cbn [obind]. exists h. split; [exact Hh|].
  rewrite !BigMax_max. fold (adjusted_length expLen h). set (x := Z.max modLen baseLen).
  assert (E : (if x <=? 64 then Ret (x * x)
     else if x <=? 1024 then let! q := big.Div (x * x) 4 in Ret (q + (96 * x - 3072))
     else let! q := big.Div (x * x) 16 in Ret (q + (480 * x - 199680))) = Ret (mult_complexity x)).
  { unfold mult_complexity. rewrite !Div_pos by lia. cbn [obind].
    destruct (x <=? 64), (x <=? 1024); reflexivity. }
  rewrite E. cbn [obind]. rewrite Div_pos by reflexivity. cbn [obind].
  change ModExpQuadCoeffDiv with 100. destruct (BitLen _ >? 64); reflexivity.
Qed.

(** A price below [2^56] bounds the lengths. *)
Lemma bigModExp_gas_bounds gas : bigModExp_RequiredGas input = Ret gas -> gas < 2 ^ 56 ->
  baseLen < 2 ^ 63 /\ modLen < 2 ^ 63 /\ (baseLen = 0 /\ modLen = 0 \/ expLen < 2 ^ 61).
Proof.
  destruct bigModExp_gas as (h & Hh & E). cbv zeta in E. rewrite E. intros [= <-].
  assert (HB : 0 <= baseLen) by apply window_word. assert (HM : 0 <= modLen) by apply window_word.
  set (x := Z.max modLen baseLen) in *. set (a := Z.max (adjusted_length expLen h) 1) in *.
  pose proof (mult_complexity_ge x ltac:(lia)) as Hx. set (m := mult_complexity x) in *.
  assert (Ha : 8 * (expLen - 32) <= a /\ 1 <= a).
  { unfold a, adjusted_length. rewrite !Z.gtb_ltb. pose proof (BitLen_nonneg h).
    destruct (Z.ltb_spec 32 expLen), (Z.ltb_spec 0 (BitLen h)); lia. }
  assert (0 <= m * a / 100) by (apply Z.div_pos; nia).
  destruct (BitLen (m * a / 100) >? 64) eqn:EB; [unfold MaxUint64; lia|]. rewrite Z.gtb_ltb in EB. b2p.
  apply BitLen_le_iff in EB; [|lia]. unfold Uint64. rewrite Z.abs_eq in * by lia. rewrite u64_small by lia.
  intros Hg. assert (Hma : m * a < 2 ^ 63).
  { pose proof (Z.div_mod (m * a) 100 ltac:(lia)). pose proof (Z.mod_pos_bound (m * a) 100 ltac:(lia)). lia. }
  assert (m <= m * a) by nia. split; [lia|]. split; [lia|].
  destruct (Z.eq_dec x 0); [left; lia|right]. assert (a <= m * a) by nia. lia.
Qed.

End modexp.

Lemma bigModExp_spec input : bytes_ok input -> len input < 2 ^ 63 ->
  exists gas, bigModExp_RequiredGas input = Ret gas /\ 0 <= gas < 2 ^ 64 /\
    (gas < 2 ^ 56 ->
     let b := SetBytes (window (operands input) 0 (baseLen input)) in
     let e := SetBytes (window (operands input) (baseLen input) (expLen input)) in
     let m := SetBytes (window (operands input) (baseLen input + expLen input) (modLen input)) in
     bigModExp_Run input = Ret (Ok (be_bytes (Z.to_nat (modLen input)) (if m =? 0 then 0 else b ^ e mod m)))).
Proof.
  intros Hok Hlen. destruct (bigModExp_gas input Hok Hlen) as (h & _ & Eg). cbv zeta in Eg.
  eexists. split; [exact Eg|]. split.
  { destruct (_ >? 64); [unfold MaxUint64; lia|]. apply u64_range. }
  intros Hg. destruct (bigModExp_gas_bounds input Hok Hlen _ Eg Hg) as (LB & LM & LE). clear Eg Hg.
  cbv zeta. unfold bigModExp_Run. rewrite !(getData_window input) by lia. cbn [obind]. cbv zeta.
  fold (baseLen input) (expLen input) (modLen input). rewrite modexp_tail_ret. cbn [obind]. fold (operands input).
  pose proof (window_word input Hok 0 : 0 <= baseLen input < _) as HB.
  pose proof (window_word input Hok 32 : 0 <= expLen input < _) as HE.
  pose proof (window_word input Hok 64 : 0 <= modLen input < _) as HM.
  unfold Uint64. rewrite !Z.abs_eq, (u64_small (baseLen input)), (u64_small (modLen input)) by lia.
  destruct ((baseLen input =? 0) && (modLen input =? 0)) eqn:Z0.
  { b2p. rewrite H0. reflexivity. }
  assert (LE' : expLen input < 2 ^ 61) by (destruct LE as [[E1 E2]|LE]; [rewrite E1, E2 in Z0; discriminate Z0 | exact LE]).
  rewrite (u64_small (expLen input)), (u64_small (baseLen input + expLen input)) by lia.
  pose proof (operands_len input Hlen) as Ho.
  rewrite !getData_window by lia. cbn [obind].
  assert (Hw : forall i n, 0 <= SetBytes (window (operands input) i n))
    by (intros; apply SetBytes_range, window_ok; unfold operands; auto with go).
  set (b := SetBytes (window _ 0 _)). set (e := SetBytes (window _ (baseLen input) _)).
  pose proof (SetBytes_range (window (operands input) (baseLen input + expLen input) (modLen input))
    ltac:(apply window_ok; unfold operands; auto with go)) as Rm. rewrite window_len in Rm by lia.
  set (m := SetBytes (window _ (baseLen input + expLen input) _)) in *.
  rewrite (i64_small (modLen input)), !LeftPadBytes_ret by lia.
  destruct (Z.eqb_spec m 0) as [->|Hm].
  - cbn [BitLen Z.eqb obind]. rewrite app_nil_r, be_bytes_zero, Z2Nat.id, Z.sub_0_r by lia. reflexivity.
  - assert (BitLen m <> 0) by (pose proof (BitLen_bound m) as BB; intros C; rewrite C in BB; lia).
    rewrite (proj2 (Z.eqb_neq (BitLen m) 0)) by assumption. cbn [obind].
    rewrite Exp_pos by (try apply Hw; lia). do 2 f_equal.
    pose proof (Z.mod_pos_bound (b ^ e) m ltac:(lia)) as Rv.
    rewrite Bytes_len. rewrite <- (Z2Nat.id (modLen input)) at 1 by lia. apply pad_be_bytes. rewrite Z2Nat.id by lia. lia.
Qed.

(** when the price of a call is payable (below [2^56], far above any block
    gas limit) the contract returns, in as many bytes as the modulus has, the
    power of the base modulo the modulus (0 for the modulus 0); the operands
    are the windows of the input its three length words describe. *)
Theorem bigModExp_correct input : bytes_ok input -> len input < 2 ^ 63 ->
  exists gas, bigModExp_RequiredGas input = Ret gas /\ 0 <= gas < 2 ^ 64 /\
    (gas < 2 ^ 56 ->
     let b := SetBytes (window (operands input) 0 (baseLen input)) in
     let e := SetBytes (window (operands input) (baseLen input) (expLen input)) in
     let m := SetBytes (window (operands input) (baseLen input + expLen input) (modLen input)) in
     bigModExp_Run input = Ret (Ok (be_bytes (Z.to_nat (modLen input)) (if m =? 0 then 0 else b ^ e mod m)))).
Proof. apply bigModExp_spec. Qed.

(** [3^5 mod 7], one byte each. *)
Definition modexp_input : list Z := words_bytes [1; 1; 1] ++ [3; 5; 7].

Lemma bigModExp_correct_witness :
  exists gas, bigModExp_RequiredGas modexp_input = Ret gas /\ 0 <= gas < 2 ^ 64 /\
    (gas < 2 ^ 56 -> bigModExp_Run modexp_input = Ret (Ok (be_bytes 1 5))).
Proof.
  apply (bigModExp_correct modexp_input); [|vm_compute; reflexivity].
  apply bytes_ok_app. split; [apply words_bytes_ok | repeat constructor; discriminate].
Defined.
