(* ===== verification/PrecompileCurves.v ===== *)
(** * The precompiled contracts on the elliptic curve, and their totality *)

From Stdlib Require Import ZArith List Lia Bool Zpow_facts.
From S2P Require Import Prelude GoBig ModArith Sha256 ByteConversion ByteBuf ZkValidator Jacobian Bn256Field Bn256Tower.
From S2P Require Import Bn256Field Bn256Curve Bn256Twist Bn256Pairing Bn256Group VmCommon Params CommonTypes VmContract.
From S2P Require Import Precompiles PrecompileTheorems.
Import ListNotations.
Local Open Scope Z_scope.

#[local] Opaque zkrangeproof.ValidateRangeProof ParseInput.

(** ** Windows *)

Lemma window_nth data s n i : 0 <= s -> (i < Z.to_nat n)%nat ->
  nth i (window data s n) 0 = nth (Z.to_nat s + i) data 0.
Proof.
  intros Hs Hi. unfold window, RightPadBytes.
  set (f := firstn (Z.to_nat n) (skipn (Z.to_nat s) data)).
  assert (Lf : length f = Nat.min (Z.to_nat n) (length data - Z.to_nat s))
    by (unfold f; rewrite length_firstn, length_skipn; reflexivity).
  assert (E : nth i f 0 = nth (Z.to_nat s + i) data 0).
  { unfold f. rewrite nth_firstn. rewrite (proj2 (Nat.ltb_lt i (Z.to_nat n)) Hi). apply nth_skipn. }
  destruct (Z.leb_spec n (len f)) as [L|L]; [exact E|].
  destruct (Nat.lt_ge_cases i (length f)) as [Li|Li]; [rewrite app_nth1 by exact Li; exact E|].
  rewrite app_nth2 by exact Li. rewrite (nth_overflow data) by lia. unfold zeros. apply nth_repeat.
Qed.

Lemma window_split data s m n : 0 <= s -> 0 <= m -> 0 <= n ->
  window data s (m + n) = window data s m ++ window data (s + m) n.
Proof.
  intros Hs Hm Hn. pose proof (window_len data s (m + n) ltac:(lia)) as L.
  pose proof (window_len data s m Hm) as L1. pose proof (window_len data (s + m) n Hn) as L2.
  apply nth_ext with (d := 0) (d' := 0); [rewrite length_app; unfold len in *; lia|].
  intros i Hi. assert (Hi' : (i < Z.to_nat (m + n))%nat) by (unfold len in L; lia).
  rewrite window_nth by assumption. destruct (Nat.lt_ge_cases i (length (window data s m))) as [Li|Li].
  - rewrite app_nth1 by exact Li. rewrite window_nth by (unfold len in *; lia). reflexivity.
  - rewrite app_nth2 by exact Li. rewrite window_nth by (unfold len in *; lia). f_equal. unfold len in *. lia.
Qed.

Lemma be_word w : bytes_ok w -> len w = 32 -> be_bytes 32 (SetBytes w) = w.
Proof.
  intros Hw Hl. replace 32%nat with (length w) by (unfold len in Hl; lia). apply be_bytes_SetBytes, Hw.
Qed.

(** The word of the input at offset [i], zeros beyond its end. *)
Definition input_word (input : list Z) (i : Z) : Z := SetBytes (window input i 32).

Section input.
Variable input : list Z.
Hypothesis Hok : bytes_ok input.
Hypothesis Hlen : len input < 2 ^ 63.

Lemma input_word_range i : word_range (input_word input i).
Proof. apply window_word, Hok. Qed.

Lemma window_words2 i : 0 <= i ->
  window input i 64 = words_bytes [input_word input i; input_word input (i + 32)].
Proof.
  intros Hi. change 64 with (32 + 32). rewrite window_split by lia. unfold words_bytes, input_word. cbn [flat_map].
  rewrite !be_word, app_nil_r; auto using window_ok, window_len with zarith.
Qed.

End input.

(** ** Points *)

Definition g1_decode (x y : Z) : result affine vmErr :=
  if (x =? 0) && (y =? 0) then Ok None
  else if negb (on_curve_xy x y) then Err errNotOnCurve
  else if (P <=? x) || (P <=? y) then Err errInvalidCurvePoint
  else Ok (Some (x, y)).

Definition g1_point (p : affine) : curvePoint :=
  match p with None => mkCurve 0 1 0 0 | Some (x, y) => mkCurve x y 1 1 end.

Lemma g1_point_reps p : reps (g1_point p) p /\ 0 <= cz (g1_point p).
Proof.
  destruct p as [[x y]|]; cbn [g1_point reps cz]; [|split; [reflexivity|lia]].
  split; [|lia]. split; [vm_compute; reflexivity|]. unfold stands_for, jac_is. cbn [cx cy cz]. split; apply eqm_eq; ring.
Qed.

Lemma newCurvePoint_words x y : word_range x -> word_range y ->
  Precompiles.newCurvePoint (words_bytes [x; y]) =
  Ret (match g1_decode x y with Ok p => Ok (g1_point p) | Err e => Err e end).
Proof.
  intros Hx Hy. unfold Precompiles.newCurvePoint, g1_decode. rewrite G1_Unmarshal_words by assumption. cbn [obind].
  rewrite IsOnCurve_xy. destruct ((x =? 0) && (y =? 0)) eqn:E0.
  - b2p. subst. reflexivity.
  - destruct (on_curve_xy x y); cbn [negb]; [|reflexivity]. cbn [G1.CurvePoints cx cy]. rewrite !Z.geb_leb.
    destruct ((P <=? x) || (P <=? y)); reflexivity.
Qed.

Lemma bn256_curve_spec input : bytes_ok input -> len input < 2 ^ 63 ->
  let w i := input_word input (32 * i) in
  bn256Add_Run input =
    Ret (match g1_decode (w 0) (w 1), g1_decode (w 2) (w 3) with
         | Err e, _ => Err e
         | Ok _, Err e => Err e
         | Ok p, Ok q => Ok (g1_encode (affine_add p q))
         end) /\
  bn256ScalarMul_Run input =
    Ret (match g1_decode (w 0) (w 1) with
         | Err e => Err e
         | Ok p => Ok (g1_encode (affine_mul (w 2) p))
         end).
Proof.
  intros Hok Hlen w. pose proof (input_word_range input Hok) as R.
  assert (E1 : newCurvePoint (window input 0 64) =
    Ret (match g1_decode (w 0) (w 1) with Ok p => Ok (g1_point p) | Err e => Err e end)).
  { rewrite window_words2 by (exact Hok || lia). apply newCurvePoint_words; apply R. }
  assert (E2 : newCurvePoint (window input 64 64) =
    Ret (match g1_decode (w 2) (w 3) with Ok p => Ok (g1_point p) | Err e => Err e end)).
  { rewrite window_words2 by (exact Hok || lia). apply newCurvePoint_words; apply R. }
  split.
  - unfold bn256Add_Run. rewrite !getData_window by lia. cbn [obind]. rewrite E1. cbn [obind].
    destruct (g1_decode (w 0) (w 1)) as [p|e]; [|reflexivity]. rewrite E2. cbn [obind].
    destruct (g1_decode (w 2) (w 3)) as [q|e]; [|reflexivity].
    destruct (g1_point_reps p) as [Rp Zp], (g1_point_reps q) as [Rq Zq].
    destruct (Marshal_law (G1.Add CurvePoint.newCurvePoint (g1_point p) (g1_point q)) (affine_add p q)) as [c' ->];
      [apply Add_law; assumption | apply Add_z; assumption | reflexivity].
  - unfold bn256ScalarMul_Run. rewrite !getData_window by lia. cbn [obind]. rewrite E1. cbn [obind].
    destruct (g1_decode (w 0) (w 1)) as [p|e]; [|reflexivity]. destruct (g1_point_reps p) as [Rp Zp].
    fold (input_word input 64). change 64 with (32 * 2). fold (w 2).
    destruct (Marshal_law (G1.ScalarMult (g1_point p) (w 2)) (affine_mul (w 2) p)) as [c' ->];
      [apply Mul_law; assumption | apply Mul_z; assumption | reflexivity].
Qed.



(** ** No precompiled contract panics *)

Lemma get_words_ret m n : forall k, 0 <= k -> (k + Z.of_nat n) * 32 <= len m -> exists ws, get_words m k n = Ret ws.
Proof.
  induction n as [|n IH]; intros k Hk Hl; [eexists; reflexivity|]. cbn [get_words]. change numBytes with 32.
  rewrite slice_ret by lia. cbn [obind]. destruct (IH (k + 1) ltac:(lia) ltac:(lia)) as [ws ->]. eexists; reflexivity.
Qed.

Lemma newCurvePoint_ret m : exists r, newCurvePoint m = Ret r.
Proof.
  unfold newCurvePoint, G1.Unmarshal. destruct (Z.eqb_spec (len m) (2 * numBytes)) as [E|E]; cbn [negb]; [|eexists; reflexivity].
  destruct (get_words_ret m 2 0 ltac:(lia) ltac:(rewrite E; discriminate)) as [ws ->]. cbn [obind].
  destruct ((nth 0 ws 0 =? 0) && (nth 1 ws 0 =? 0)); cbn [obind].
  - unfold G1.CurvePoints. destruct (_ || _); eexists; reflexivity.
  - destruct (negb _); cbn [obind]; [eexists; reflexivity|]. unfold G1.CurvePoints. destruct (_ || _); eexists; reflexivity.
Qed.

Lemma newTwistPoint_ret m : exists r, newTwistPoint m = Ret r.
Proof.
  unfold newTwistPoint, G2.Unmarshal. destruct (Z.eqb_spec (len m) (4 * numBytes)) as [E|E]; cbn [negb]; [|eexists; reflexivity].
  destruct (get_words_ret m 4 0 ltac:(lia) ltac:(rewrite E; discriminate)) as [ws ->]. cbn [obind].
  destruct (_ && _ && _ && _); cbn [obind].
  - unfold G2.CurvePoints. destruct (_ || _ || _ || _); eexists; reflexivity.
  - destruct (negb _); cbn [obind]; [eexists; reflexivity|]. unfold G2.CurvePoints.
    destruct (_ || _ || _ || _); eexists; reflexivity.
Qed.

Lemma pairing_points_ret input n : forall i cs ts, 0 <= i -> i + 192 * Z.of_nat n <= len input ->
  length cs = length ts ->
  exists r, pairing_points n i input cs ts = Ret r /\ forall cs' ts', r = Ok (cs', ts') -> length cs' = length ts'.
Proof.
  induction n as [|n IH]; intros i cs ts Hi Hl He.
  { eexists. split; [reflexivity|]. intros cs' ts' [= <- <-]. exact He. }
  cbn [pairing_points]. rewrite slice_ret by lia. cbn [obind].
  destruct (newCurvePoint_ret (firstn (Z.to_nat (i + 64 - i)) (skipn (Z.to_nat i) input))) as [[c|e] ->]; cbn [obind];
    [|eexists; split; [reflexivity|discriminate]].
  rewrite slice_ret by lia. cbn [obind].
  destruct (newTwistPoint_ret (firstn (Z.to_nat (i + 192 - (i + 64))) (skipn (Z.to_nat (i + 64)) input)))
    as [[t|e] ->]; cbn [obind]; [|eexists; split; [reflexivity|discriminate]].
  apply IH; [lia | lia | rewrite !length_app; cbn [length]; lia].
Qed.

Lemma pairing_loop_ret a : forall b acc, (length a <= length b)%nat -> exists r, pairing_loop acc a b = Ret r.
Proof.
  induction a as [|p a IH]; intros b acc Hl; [eexists; reflexivity|]. destruct b as [|q b]; [cbn in Hl; lia|].
  cbn [pairing_loop tl]. cbn [length] in Hl.
  destruct (CurvePoint.IsInfinity p); [apply IH; lia|]. destruct (TwistPoint.IsInfinity q); apply IH; lia.
Qed.

Lemma bn256Pairing_ret input : exists r, bn256Pairing_Run input = Ret r.
Proof.
  unfold bn256Pairing_Run. pose proof (len_nonneg input) as L0.
  rewrite Z.gtb_ltb, Z.rem_mod_nonneg by lia. destruct (Z.ltb_spec 0 (len input mod 192)) as [L|L]; [eexists; reflexivity|].
  pose proof (Z.div_mod (len input) 192 ltac:(lia)). pose proof (Z.mod_pos_bound (len input) 192 ltac:(lia)).
  assert (E : (len input + 191) / 192 = len input / 192)
    by (symmetry; apply Z.div_unique with (r := 191); lia).
  assert (0 <= len input / 192) by (apply Z.div_pos; lia). rewrite E.
  destruct (pairing_points_ret input (Z.to_nat (len input / 192)) 0 [] []) as (r & -> & Hr); [lia | lia | reflexivity|].
  cbn [obind]. destruct r as [[cs ts]|e]; [|eexists; reflexivity]. cbn [fst snd]. unfold PairingCheck.
  destruct (pairing_loop_ret cs ts GFp12.SetOne) as [acc ->]; [rewrite (Hr cs ts eq_refl); lia|]. cbn [obind].
  destruct (GFp12.IsOne _); eexists; reflexivity.
Qed.

(** A contract whose price is a [uint64] and that returns when it is payable. *)
Definition runs (p : PrecompiledContract) (input : list Z) : Prop :=
  exists g, RequiredGas p input = Ret g /\ 0 <= g < 2 ^ 64 /\ (g < 2 ^ 56 -> exists r, Run p input = Ret r).

Lemma runs_total p input contract : runs p input -> is_u64 (Gas contract) -> Gas contract < 2 ^ 56 ->
  exists r c' g, RequiredGas p input = Ret g /\ RunPrecompiledContract p input contract = Ret (r, c') /\
    (r = Err ErrOutOfGas /\ c' = contract /\ Gas contract < g \/
     g <= Gas contract /\ c' = set_Gas contract (Gas contract - g) /\ Run p input = Ret r).
Proof.
  intros (g & Eg & Hg & Hr) Hu Hc. unfold RunPrecompiledContract. rewrite Eg. cbn [obind].
  rewrite UseGas_spec by (assumption || lia). destruct (Z.ltb_spec (Gas contract) g) as [L|L].
  - exists (Err ErrOutOfGas), contract, g. split; [reflexivity|]. split; [reflexivity|]. left. auto.
  - destruct (Hr ltac:(lia)) as [r Er]. rewrite Er. exists r, (set_Gas contract (Gas contract - g)), g.
    split; [reflexivity|]. split; [reflexivity|]. right. auto.
Qed.

Section total.
Variable Keccak256 : list Z -> list Z.
Variable Ecrecover : list Z -> list Z -> option (list Z).
Variable ripemd160 : list Z -> list Z.
Hypothesis Keccak256_len : forall t, len (Keccak256 t) = 32.
Hypothesis Ecrecover_len : forall h s k, Ecrecover h s = Some k -> 1 <= len k.

Lemma ecrecover_ret input : exists r, ecrecover_Run Keccak256 Ecrecover input = Ret r.
Proof.
  unfold ecrecover_Run. cbv zeta. pose proof (RightPadBytes_len input 128) as L.
  set (b := RightPadBytes input 128) in *. rewrite !(slice_ret b) by lia. cbn [obind].
  assert (I63 : exists v, index b 63 = Ret v).
  { unfold index. cbn [Z.leb Z.compare]. destruct (nth_error b (Z.to_nat 63)) as [v|] eqn:E; [exists v; reflexivity|].
    apply nth_error_None in E. unfold len in L. lia. }
  destruct I63 as [v ->]. cbn [obind]. destruct (_ || _); [eexists; reflexivity|].
  destruct (Ecrecover _ _) as [k|] eqn:E; [|eexists; reflexivity]. apply Ecrecover_len in E.
  rewrite slice_ret by lia. cbn [obind]. rewrite slice_ret by (rewrite Keccak256_len; lia). cbn [obind].
  rewrite LeftPadBytes_ret. eexists; reflexivity.
Qed.

Lemma precompile_runs a p input :
  PrecompiledContractsMetropolis Keccak256 Ecrecover ripemd160 a = Some p ->
  bytes_ok input -> len input < 2 ^ 62 -> (a = 9 -> ~ start_overflows input) -> runs p input.
Proof.
  intros Hp Hok Hlen H9. unfold PrecompiledContractsMetropolis in Hp.
  destruct (Z.eqb_spec a (BytesToAddress [1])) as [_|_].
  { injection Hp as <-. exists EcrecoverGas. split; [reflexivity|]. split; [unfold EcrecoverGas; lia|]. intros _. cbn [Run ecrecover].
    destruct (ecrecover_ret input) as [[r b] ->]. eexists; reflexivity. }
  destruct (Z.eqb_spec a (BytesToAddress [2])) as [_|_].
  { injection Hp as <-. eexists. split; [reflexivity|]. split; [apply u64_range|]. intros _. eexists; reflexivity. }
  destruct (Z.eqb_spec a (BytesToAddress [3])) as [_|_].
  { injection Hp as <-. eexists. split; [reflexivity|]. split; [apply u64_range|]. intros _. cbn [Run ripemd160hash].
    unfold ripemd160hash_Run. rewrite LeftPadBytes_ret. eexists; reflexivity. }
  destruct (Z.eqb_spec a (BytesToAddress [4])) as [_|_].
  { injection Hp as <-. eexists. split; [reflexivity|]. split; [apply u64_range|]. intros _. eexists; reflexivity. }
  destruct (Z.eqb_spec a (BytesToAddress [5])) as [_|_].
  { injection Hp as <-. destruct (bigModExp_spec input Hok ltac:(lia)) as (g & Eg & Hg & HR).
    exists g. split; [exact Eg|]. split; [exact Hg|]. intros L. eexists. apply HR, L. }
  destruct (bn256_curve_spec input Hok ltac:(lia)) as [EA EM].
  destruct (Z.eqb_spec a (BytesToAddress [6])) as [_|_].
  { injection Hp as <-. exists Bn256AddGas. split; [reflexivity|]. split; [unfold Bn256AddGas; lia|]. intros _. eexists. exact EA. }
  destruct (Z.eqb_spec a (BytesToAddress [7])) as [_|_].
  { injection Hp as <-. exists Bn256ScalarMulGas. split; [reflexivity|]. split; [unfold Bn256ScalarMulGas; lia|]. intros _.
    eexists. exact EM. }
  destruct (Z.eqb_spec a (BytesToAddress [8])) as [_|_].
  { injection Hp as <-. eexists. split; [reflexivity|]. split; [apply u64_range|]. intros _. apply bn256Pairing_ret. }
  destruct (Z.eqb_spec a (BytesToAddress [9])) as [->|_]; [|discriminate].
  injection Hp as <-. exists 180000. split; [reflexivity|]. split; [lia|]. intros _. cbn [Run zkpRangeProof].
  destruct (zkpRangeProof_Run input) as [r|] eqn:E; [eexists; reflexivity|exfalso].
  apply zkpRangeProof_Panic_iff in E; [|exact Hok|exact Hlen]. exact (H9 eq_refl E).
Qed.

(** With less than [2^56] gas no precompiled contract panics, the overflow of
    the range-proof contract apart; a call either runs out of gas and keeps its
    gas, or costs exactly the contract's price and returns its result. *)
Theorem precompiles_total a p input contract :
  PrecompiledContractsMetropolis Keccak256 Ecrecover ripemd160 a = Some p ->
  bytes_ok input -> len input < 2 ^ 62 -> is_u64 (Gas contract) -> Gas contract < 2 ^ 56 ->
  (a = 9 -> ~ (196 <= len input /\ 2 ^ 63 - 36 <= word_at input 100 mod 2 ^ 64 <= 2 ^ 63 - 5)) ->
  exists r c' g, RequiredGas p input = Ret g /\ RunPrecompiledContract p input contract = Ret (r, c') /\
    (r = Err ErrOutOfGas /\ c' = contract /\ Gas contract < g \/
     g <= Gas contract /\ c' = set_Gas contract (Gas contract - g) /\ Run p input = Ret r).
Proof. intros. apply runs_total; [eapply precompile_runs|..]; eassumption. Qed.

End total.

(** With constant functions for the hashes and the recovery. *)
Lemma precompiles_total_witness :
  exists r c' g, RequiredGas sha256hash [1; 2; 3] = Ret g /\
    RunPrecompiledContract sha256hash [1; 2; 3] sample_contract = Ret (r, c') /\
    (r = Err ErrOutOfGas /\ c' = sample_contract /\ Gas sample_contract < g \/
     g <= Gas sample_contract /\ c' = set_Gas sample_contract (Gas sample_contract - g) /\
     Run sha256hash [1; 2; 3] = Ret r).
Proof.
  apply (precompiles_total (fun _ => zeros 32) (fun _ _ => None) (fun _ => zeros 20) (fun _ => eq_refl)
    ltac:(discriminate) 2 sha256hash [1; 2; 3] sample_contract);
    [reflexivity | repeat constructor; discriminate | reflexivity | split; reflexivity || discriminate | reflexivity
    | discriminate].
Defined.
