(* ===== verification/VmMemory.v ===== *)
(** * Package [vm]: the stack

    [core/vm/stack.go], [core/vm/stack_table.go].  A stack is the list of its
    integers with the top first, so [st.data[st.len()-1-n]] is element [n];
    an access out of range panics as the slice access of the source does.
    The integers are values here: the pool of reused integers is not modelled. *)

From Stdlib Require Import ZArith List Lia Bool.
From S2P Require Import Prelude GoBig Params VmContract VmCommon.
Import ListNotations.
Local Open Scope Z_scope.

Definition Stack : Type := list Z.

(** [l[k] = x] *)
Definition set_nth {A : Type} (k : nat) (x : A) (l : list A) : list A := firstn k l ++ x :: skipn (S k) l.

Module stack.
Definition newstack : Stack := [].
Definition push (st : Stack) (d : Z) : Stack := d :: st.
Definition pop (st : Stack) : outcome (Z * Stack) :=
  match st with
  | [] => Panic
  | d :: st => Ret (d, st)
  end.
Definition peek (st : Stack) : outcome Z := index st 0.
Definition Back (st : Stack) (n : Z) : outcome Z := index st n.
Definition swap (st : Stack) (n : Z) : outcome Stack :=
  let! a := index st (n - 1) in
  let! b := index st 0 in
  Ret (set_nth 0 a (set_nth (Z.to_nat (n - 1)) b st)).
Definition dup (st : Stack) (n : Z) : outcome Stack :=
  let! a := index st (n - 1) in
  Ret (push st a).
Definition require (st : Stack) (n : Z) : option vmErr :=
  if len st <? n then Some (errStackUnderflow (len st) n) else None.
End stack.

Definition makeStackFunc (pop push : Z) (st : Stack) : option vmErr :=
  match stack.require st pop with
  | Some err => Some err
  | None => if len st + push - pop >? StackLimit then Some (errStackLimit (len st)) else None
  end.
Definition makeDupStackFunc (n : Z) : Stack -> option vmErr := makeStackFunc n (n + 1).
Definition makeSwapStackFunc (n : Z) : Stack -> option vmErr := makeStackFunc n n.

(** ** What a validated stack allows *)

Lemma makeStackFunc_spec pop push st :
  makeStackFunc pop push st = None <-> pop <= len st /\ len st + push - pop <= StackLimit.
Proof.
  unfold makeStackFunc, stack.require. pose proof (Z.ltb_spec (len st) pop).
  destruct (len st <? pop) eqn:E; [split; [discriminate|]; b2p; lia|].
  destruct (_ >? _) eqn:F; b2p; split; try discriminate; try reflexivity; intros; lia.
Qed.

Lemma set_nth_length {A : Type} k (x : A) l : (k < length l)%nat -> length (set_nth k x l) = length l.
Proof. intros H. unfold set_nth. rewrite length_app, length_firstn. cbn [length]. rewrite length_skipn. lia. Qed.


Lemma index_in {A : Type} (l : list A) i a : index l i = Ret a -> 0 <= i < len l /\ nth_error l (Z.to_nat i) = Some a.
Proof.
  unfold index. destruct (Z.leb_spec 0 i) as [H|H]; [|discriminate].
  destruct (nth_error l (Z.to_nat i)) eqn:E; [|discriminate]. intros [= ->].
  assert (Z.to_nat i < length l)%nat by (apply nth_error_Some; congruence). unfold len. split; [lia|reflexivity].
Qed.

Lemma index_exists {A : Type} (l : list A) i : 0 <= i < len l -> exists a, index l i = Ret a.
Proof.
  unfold len. intros H. destruct (nth_error l (Z.to_nat i)) as [a|] eqn:E.
  - exists a. apply index_ret; [exact E | lia].
  - apply nth_error_None in E. lia.
Qed.

(** * Package [vm]: the memory

    [core/vm/memory.go], [core/vm/memory_table.go].  The memory is its bytes
    and the fee paid for them so far.  A slice of the store out of its length
    panics; offsets and sizes are [uint64] or [int64] as in the source. *)

Record Memory : Type := mkMemory { store : list Z; lastGasCost : Z }.

Definition NewMemory : Memory := mkMemory [] 0.

Definition set_store (m : Memory) (bs : list Z) : Memory := mkMemory bs (lastGasCost m).
Definition set_lastGasCost (m : Memory) (fee : Z) : Memory := mkMemory (store m) fee.

(** [copy(buf[i:j], src)]: the new contents of [buf]. *)
Definition copy_window (buf : list Z) (i j : Z) (src : list Z) : outcome (list Z) :=
  let! w := slice buf i j in
  Ret (firstn (Z.to_nat i) buf ++ (firstn (length w) src ++ skipn (length src) w) ++ skipn (Z.to_nat j) buf).

Module memory.
Definition Len (m : Memory) : Z := len (store m).

Definition Set_ (m : Memory) (offset size : Z) (value : list Z) : outcome Memory :=
  if size >? u64 (len (store m)) then Panic
  else if size >? 0 then
    let! bs := copy_window (store m) offset (u64 (offset + size)) value in
    Ret (set_store m bs)
  else Ret m.

Definition Resize (m : Memory) (size : Z) : Memory :=
  if u64 (Len m) <? size then set_store m (store m ++ zeros (u64 (size - u64 (Len m)))) else m.

Definition Get (m : Memory) (offset size : Z) : outcome (list Z) :=
  if size =? 0 then Ret []
  else if len (store m) >? offset then
    if size <? 0 then Panic
    else
      let! src := slice (store m) offset (i64 (offset + size)) in
      Ret (firstn (Z.to_nat size) src ++ skipn (length src) (zeros size))
  else Ret [].

Definition GetPtr (m : Memory) (offset size : Z) : outcome (list Z) :=
  if size =? 0 then Ret []
  else if len (store m) >? offset then slice (store m) offset (i64 (offset + size))
  else Ret [].
End memory.

(** ** [memory_table.go]: the memory an operation needs *)

Definition mem_range (off size : Z) (st : Stack) : outcome Z :=
  let! o := stack.Back st off in
  let! s := stack.Back st size in
  Ret (calcMemSize o s).
Definition mem_const (off size : Z) (st : Stack) : outcome Z :=
  let! o := stack.Back st off in
  Ret (calcMemSize o size).
Definition mem_two (off1 size1 off2 size2 : Z) (st : Stack) : outcome Z :=
  let! x := mem_range off1 size1 st in
  let! y := mem_range off2 size2 st in
  Ret (BigMax x y).

Definition memorySha3 : Stack -> outcome Z := mem_range 0 1.
Definition memoryCallDataCopy : Stack -> outcome Z := mem_range 0 2.
Definition memoryReturnDataCopy : Stack -> outcome Z := mem_range 0 2.
Definition memoryCodeCopy : Stack -> outcome Z := mem_range 0 2.
Definition memoryExtCodeCopy : Stack -> outcome Z := mem_range 1 3.
Definition memoryMLoad : Stack -> outcome Z := mem_const 0 32.
Definition memoryMStore8 : Stack -> outcome Z := mem_const 0 1.
Definition memoryMStore : Stack -> outcome Z := mem_const 0 32.
Definition memoryCreate : Stack -> outcome Z := mem_range 1 2.
Definition memoryCall : Stack -> outcome Z := mem_two 5 6 3 4.
Definition memoryCallCode : Stack -> outcome Z := mem_two 5 6 3 4.
Definition memoryDelegateCall : Stack -> outcome Z := mem_two 4 5 2 3.
Definition memoryStaticCall : Stack -> outcome Z := mem_two 4 5 2 3.
Definition memoryReturn : Stack -> outcome Z := mem_range 0 1.
Definition memoryRevert : Stack -> outcome Z := mem_range 0 1.
Definition memoryLog : Stack -> outcome Z := mem_range 0 1.

(** ** Access within the store *)

Lemma copy_window_ret buf i j src : 0 <= i <= j -> j <= len buf ->
  exists r, copy_window buf i j src = Ret r /\ len r = len buf.
Proof.
  intros H1 H2. unfold copy_window. rewrite slice_ret by lia. cbn [obind]. eexists; split; [reflexivity|].
  unfold len in *. rewrite !length_app, !length_firstn, !length_skipn, !length_firstn, !length_skipn. lia.
Qed.

Lemma bytes_ok_copy_window buf i j src r : bytes_ok buf -> bytes_ok src ->
  copy_window buf i j src = Ret r -> bytes_ok r.
Proof.
  intros Hb Hs. unfold copy_window. destruct (slice buf i j) as [w|] eqn:E; [|discriminate]. cbn [obind].
  intros [= <-]. apply (bytes_ok_slice _ _ _ _ Hb) in E. rewrite !bytes_ok_app.
  auto using bytes_ok_firstn, bytes_ok_skipn.
Qed.

Lemma memory_Set_ret m offset size v : 0 <= size -> 0 <= offset -> (0 < size -> offset + size <= memory.Len m) ->
  memory.Len m < 2 ^ 63 ->
  exists m', memory.Set_ m offset size v = Ret m' /\ memory.Len m' = memory.Len m.
Proof.
  unfold memory.Set_, memory.Len. intros Hs Ho Hi Hl. pose proof (len_nonneg (store m)).
  rewrite (u64_small (len (store m))) by lia.
  destruct (Z.eq_dec size 0) as [->|Hne].
  - decb. rewrite !Z.gtb_ltb. decb. eexists; split; reflexivity.
  - rewrite !Z.gtb_ltb. decb. rewrite u64_small by lia.
    destruct (copy_window_ret (store m) offset (offset + size) v) as (r & -> & Hr); [lia..|].
    cbn [obind]. eexists; split; [reflexivity | exact Hr].
Qed.

Lemma memory_Set_bytes m offset size v m' : bytes_ok (store m) -> bytes_ok v ->
  memory.Set_ m offset size v = Ret m' -> bytes_ok (store m').
Proof.
  unfold memory.Set_. intros Hm Hv. destruct (_ >? _); [discriminate|]. destruct (_ >? _).
  - destruct (copy_window _ _ _ _) as [bs|] eqn:E; [|discriminate]. cbn [obind]. intros [= <-].
    apply (bytes_ok_copy_window _ _ _ _ _ Hm Hv E).
  - intros [= <-]. exact Hm.
Qed.

Lemma memory_Get_ret m offset size : 0 <= size -> 0 <= offset -> (0 < size -> offset + size <= memory.Len m) ->
  memory.Len m < 2 ^ 63 ->
  memory.Get m offset size = Ret (firstn (Z.to_nat size) (skipn (Z.to_nat offset) (store m))) /\
  memory.GetPtr m offset size = memory.Get m offset size.
Proof.
  unfold memory.Get, memory.GetPtr, memory.Len. intros Hs Ho Hi Hl. destruct (Z.eqb_spec size 0) as [->|Hne].
  - split; reflexivity.
  - rewrite Z.gtb_ltb. decb. rewrite i64_small by lia. rewrite slice_ret by lia. cbn [obind].
    replace (offset + size - offset) with size by lia.
    assert (E : length (firstn (Z.to_nat size) (skipn (Z.to_nat offset) (store m))) = Z.to_nat size).
    { unfold len in *. rewrite length_firstn, length_skipn. lia. }
    rewrite E, (skipn_all2 (zeros size)), app_nil_r by (unfold zeros; rewrite repeat_length; lia).
    rewrite firstn_firstn, Nat.min_id. split; reflexivity.
Qed.

Lemma memory_Resize_len m size : memory.Len m < 2 ^ 63 -> is_u64 size ->
  memory.Len (memory.Resize m size) = Z.max (memory.Len m) size.
Proof.
  unfold memory.Resize, memory.Len, is_u64. intros Hl Hs. pose proof (len_nonneg (store m)).
  rewrite (u64_small (len (store m))) by lia. destruct (Z.ltb_spec (len (store m)) size) as [L|L]; [|lia].
  cbn [store set_store]. rewrite len_app, u64_small, zeros_len by lia. lia.
Qed.
