(* ===== verification/VmOpcodes.v ===== *)
(** * Package [vm]: opcodes and the analysis of jump destinations

    The constants of [core/vm/opcodes.go] and [core/vm/analysis.go].  An
    [OpCode] of the source is a byte; here the named constants are the
    constructors of a type, coerced to their byte.  The theorem says that the
    bitmap of [jumpdests], through the cache [destinations], marks exactly the
    [JUMPDEST] bytes that are not data of a [PUSH]. *)

From Stdlib Require Import ZArith List Lia Bool.
From S2P Require Import Prelude GoBig CommonTypes VmMemory.
Import ListNotations.
Local Open Scope Z_scope.

Inductive OpCode : Type :=
| STOP | ADD | MUL | SUB | DIV | SDIV | MOD | SMOD | ADDMOD | MULMOD | EXP | SIGNEXTEND
| LT | GT | SLT | SGT | EQ | ISZERO | AND | OR | XOR | NOT | BYTE
| SHA3
| ADDRESS | BALANCE | ORIGIN | CALLER | CALLVALUE | CALLDATALOAD | CALLDATASIZE | CALLDATACOPY | CODESIZE |
CODECOPY | GASPRICE | EXTCODESIZE | EXTCODECOPY | RETURNDATASIZE | RETURNDATACOPY
| BLOCKHASH | COINBASE | TIMESTAMP | NUMBER | DIFFICULTY | GASLIMIT
| POP | MLOAD | MSTORE | MSTORE8 | SLOAD | SSTORE | JUMP | JUMPI | PC | MSIZE | GAS | JUMPDEST
| PUSH1 | PUSH2 | PUSH3 | PUSH4 | PUSH5 | PUSH6 | PUSH7 | PUSH8 | PUSH9 | PUSH10 | PUSH11 | PUSH12 | PUSH13 |
PUSH14 | PUSH15 | PUSH16 | PUSH17 | PUSH18 | PUSH19 | PUSH20 | PUSH21 | PUSH22 | PUSH23 | PUSH24 | PUSH25 |
PUSH26 | PUSH27 | PUSH28 | PUSH29 | PUSH30 | PUSH31 | PUSH32
| DUP1 | DUP2 | DUP3 | DUP4 | DUP5 | DUP6 | DUP7 | DUP8 | DUP9 | DUP10 | DUP11 | DUP12 | DUP13 | DUP14 | DUP15
| DUP16
| SWAP1 | SWAP2 | SWAP3 | SWAP4 | SWAP5 | SWAP6 | SWAP7 | SWAP8 | SWAP9 | SWAP10 | SWAP11 | SWAP12 | SWAP13 |
SWAP14 | SWAP15 | SWAP16
| LOG0 | LOG1 | LOG2 | LOG3 | LOG4
| PUSH | DUP | SWAP
| CREATE | CALL | CALLCODE | RETURN | DELEGATECALL
| STATICCALL
| REVERT
| SELFDESTRUCT.

Definition OpCode_byte (op : OpCode) : Z :=
  match op with
  | STOP => 0x00 | ADD => 0x01 | MUL => 0x02 | SUB => 0x03 | DIV => 0x04 | SDIV => 0x05 | MOD => 0x06
  | SMOD => 0x07 | ADDMOD => 0x08 | MULMOD => 0x09 | EXP => 0x0a | SIGNEXTEND => 0x0b
  | LT => 0x10 | GT => 0x11 | SLT => 0x12 | SGT => 0x13 | EQ => 0x14 | ISZERO => 0x15 | AND => 0x16 | OR => 0x17
  | XOR => 0x18 | NOT => 0x19 | BYTE => 0x1a
  | SHA3 => 0x20
  | ADDRESS => 0x30 | BALANCE => 0x31 | ORIGIN => 0x32 | CALLER => 0x33 | CALLVALUE => 0x34 | CALLDATALOAD => 0x35
  | CALLDATASIZE => 0x36 | CALLDATACOPY => 0x37 | CODESIZE => 0x38 | CODECOPY => 0x39 | GASPRICE => 0x3a
  | EXTCODESIZE => 0x3b | EXTCODECOPY => 0x3c | RETURNDATASIZE => 0x3d | RETURNDATACOPY => 0x3e
  | BLOCKHASH => 0x40 | COINBASE => 0x41 | TIMESTAMP => 0x42 | NUMBER => 0x43 | DIFFICULTY => 0x44
  | GASLIMIT => 0x45
  | POP => 0x50 | MLOAD => 0x51 | MSTORE => 0x52 | MSTORE8 => 0x53 | SLOAD => 0x54 | SSTORE => 0x55 | JUMP => 0x56
  | JUMPI => 0x57 | PC => 0x58 | MSIZE => 0x59 | GAS => 0x5a | JUMPDEST => 0x5b
  | PUSH1 => 0x60 | PUSH2 => 0x61 | PUSH3 => 0x62 | PUSH4 => 0x63 | PUSH5 => 0x64 | PUSH6 => 0x65 | PUSH7 => 0x66
  | PUSH8 => 0x67 | PUSH9 => 0x68 | PUSH10 => 0x69 | PUSH11 => 0x6a | PUSH12 => 0x6b | PUSH13 => 0x6c
  | PUSH14 => 0x6d | PUSH15 => 0x6e | PUSH16 => 0x6f | PUSH17 => 0x70 | PUSH18 => 0x71 | PUSH19 => 0x72
  | PUSH20 => 0x73 | PUSH21 => 0x74 | PUSH22 => 0x75 | PUSH23 => 0x76 | PUSH24 => 0x77 | PUSH25 => 0x78
  | PUSH26 => 0x79 | PUSH27 => 0x7a | PUSH28 => 0x7b | PUSH29 => 0x7c | PUSH30 => 0x7d | PUSH31 => 0x7e
  | PUSH32 => 0x7f
  | DUP1 => 0x80 | DUP2 => 0x81 | DUP3 => 0x82 | DUP4 => 0x83 | DUP5 => 0x84 | DUP6 => 0x85 | DUP7 => 0x86
  | DUP8 => 0x87 | DUP9 => 0x88 | DUP10 => 0x89 | DUP11 => 0x8a | DUP12 => 0x8b | DUP13 => 0x8c | DUP14 => 0x8d
  | DUP15 => 0x8e | DUP16 => 0x8f
  | SWAP1 => 0x90 | SWAP2 => 0x91 | SWAP3 => 0x92 | SWAP4 => 0x93 | SWAP5 => 0x94 | SWAP6 => 0x95 | SWAP7 => 0x96
  | SWAP8 => 0x97 | SWAP9 => 0x98 | SWAP10 => 0x99 | SWAP11 => 0x9a | SWAP12 => 0x9b | SWAP13 => 0x9c
  | SWAP14 => 0x9d | SWAP15 => 0x9e | SWAP16 => 0x9f
  | LOG0 => 0xa0 | LOG1 => 0xa1 | LOG2 => 0xa2 | LOG3 => 0xa3 | LOG4 => 0xa4
  | PUSH => 0xb0 | DUP => 0xb1 | SWAP => 0xb2
  | CREATE => 0xf0 | CALL => 0xf1 | CALLCODE => 0xf2 | RETURN => 0xf3 | DELEGATECALL => 0xf4
  | STATICCALL => 0xfa
  | REVERT => 0xfd
  | SELFDESTRUCT => 0xff
  end.

Coercion OpCode_byte : OpCode >-> Z.

Definition IsPush (op : Z) : bool := (PUSH1 <=? op) && (op <=? PUSH32).
Definition IsStaticJump (op : Z) : bool := op =? JUMP.

(** ** [analysis.go] *)

(** [type destinations map[common.Hash][]byte] *)
Definition destinations : Type := list (Hash * list Z).

Fixpoint dests_get (d : destinations) (codehash : Hash) : option (list Z) :=
  match d with
  | [] => None
  | (h, m) :: d => if h =? codehash then Some m else dests_get d codehash
  end.

(** One run of the loop of [jumpdests]; at most one iteration per code byte. *)
Fixpoint jumpdests_loop (fuel : nat) (code : list Z) (pc : Z) (m : list Z) : outcome (list Z) :=
  match fuel with
  | O => Ret m
  | S fuel =>
      if pc <? len code then
        let! op := index code pc in
        if op =? JUMPDEST then
          let! b := index m (pc / 8) in
          jumpdests_loop fuel code (u64 (pc + 1)) (set_nth (Z.to_nat (pc / 8)) (u8 (Z.lor b (Z.shiftl 1 (pc mod 8)))) m)
        else if (PUSH1 <=? op) && (op <=? PUSH32) then
          let a := u64 (op - PUSH1 + 1) in
          jumpdests_loop fuel code (u64 (u64 (pc + a) + 1)) m
        else jumpdests_loop fuel code (u64 (pc + 1)) m
      else Ret m
  end.
Definition jumpdests (code : list Z) : outcome (list Z) :=
  jumpdests_loop (length code) code 0 (zeros (len code / 8 + 1)).

(** [d.has(codehash, code, dest)]: the answer and the map after the call. *)
Definition has (d : destinations) (codehash : Hash) (code : list Z) (dest : Z) : outcome (bool * destinations) :=
  let udest := Uint64 dest in
  if (BitLen dest >=? 63) || (udest >=? u64 (len code)) then Ret (false, d)
  else
    match dests_get d codehash with
    | Some m =>
        let! b := index m (udest / 8) in
        Ret (negb (Z.land b (u8 (Z.shiftl 1 (udest mod 8))) =? 0), d)
    | None =>
        let! m := jumpdests code in
        let! b := index m (udest / 8) in
        Ret (negb (Z.land b (u8 (Z.shiftl 1 (udest mod 8))) =? 0), (codehash, m) :: d)
    end.

(** ** Instruction boundaries *)

(** The bytes of data after an opcode. *)
Definition push_data (op : Z) : Z := if (PUSH1 <=? op) && (op <=? PUSH32) then op - PUSH1 + 1 else 0.
Definition code_at (code : list Z) (pc : Z) : Z := nth (Z.to_nat pc) code 0.
Definition next_pc (code : list Z) (pc : Z) : Z := pc + 1 + push_data (code_at code pc).

(** The positions at which an instruction of [code] starts. *)
Inductive boundary (code : list Z) : Z -> Prop :=
| boundary_start : boundary code 0
| boundary_next pc : boundary code pc -> pc < len code -> boundary code (next_pc code pc).

Definition valid_dest (code : list Z) (dest : Z) : Prop :=
  boundary code dest /\ dest < len code /\ code_at code dest = JUMPDEST.

Lemma push_data_range op : 0 <= push_data op <= 32.
Proof. unfold push_data. cbn [OpCode_byte]. destruct (_ && _) eqn:E; b2p; lia. Qed.

Lemma boundary_nonneg code pc : boundary code pc -> 0 <= pc.
Proof.
  induction 1 as [|pc _ IH _]; [lia|]. unfold next_pc. pose proof (push_data_range (code_at code pc)). lia.
Qed.

Fixpoint instr_pos (code : list Z) (n : nat) : Z :=
  match n with O => 0 | S n => next_pc code (instr_pos code n) end.

Lemma boundary_pos code pc : boundary code pc -> exists n, pc = instr_pos code n.
Proof. induction 1 as [|pc _ (n & ->) _]; [exists O | exists (S n)]; reflexivity. Qed.

Lemma instr_pos_mono code m n : (m <= n)%nat -> instr_pos code m + Z.of_nat (n - m) <= instr_pos code n.
Proof.
  induction 1 as [|n H IH]; [rewrite Nat.sub_diag; cbn; lia|]. rewrite Nat.sub_succ_l by exact H. cbn [instr_pos].
  unfold next_pc. pose proof (push_data_range (code_at code (instr_pos code n))). lia.
Qed.

(** No instruction starts within another one. *)
Lemma boundary_gap code p i : boundary code p -> boundary code i -> p < i -> next_pc code p <= i.
Proof.
  intros (m & ->)%boundary_pos (n & ->)%boundary_pos L. change (next_pc code (instr_pos code m)) with (instr_pos code (S m)).
  destruct (Nat.lt_ge_cases m n) as [H|H]; [|pose proof (instr_pos_mono code n m H); lia].
  pose proof (instr_pos_mono code (S m) n H). lia.
Qed.

(** ** The bitmap *)

Definition marked (m : list Z) (i : Z) : bool := Z.testbit (nth (Z.to_nat (i / 8)) m 0) (i mod 8).

Lemma nth_set_nth {A : Type} k j (x d : A) l : (k < length l)%nat ->
  nth j (set_nth k x l) d = if Nat.eqb j k then x else nth j l d.
Proof.
  intros H. unfold set_nth. destruct (Nat.eqb_spec j k) as [->|N].
  - rewrite app_nth2; rewrite length_firstn; [|lia]. replace (k - min k (length l))%nat with O by lia. reflexivity.
  - destruct (Nat.lt_ge_cases j k) as [L|L].
    + rewrite app_nth1 by (rewrite length_firstn; lia). rewrite nth_firstn. destruct (Nat.ltb_spec j k); [reflexivity|lia].
    + rewrite app_nth2; rewrite length_firstn; [|lia]. replace (j - min k (length l))%nat with (S (j - S k)) by lia.
      cbn [nth]. rewrite nth_skipn. f_equal. lia.
Qed.

Lemma byte_or_bit b i j : is_byte b -> 0 <= i < 8 -> 0 <= j < 8 ->
  Z.testbit (u8 (Z.lor b (Z.shiftl 1 i))) j = Z.testbit b j || (i =? j).
Proof.
  intros Hb Hi Hj. unfold u8, uwrap. rewrite Z.mod_pow2_bits_low, Z.lor_spec, Z.shiftl_spec by lia. f_equal.
  destruct (Z.eqb_spec i j) as [->|N]; [rewrite Z.sub_diag; reflexivity|].
  destruct (Z.ltb_spec j i); [apply Z.testbit_neg_r; lia|]. apply Z.bits_above_log2; [lia|]. cbn. lia.
Qed.

Lemma marked_set m pc i : bytes_ok m -> 0 <= pc -> (Z.to_nat (pc / 8) < length m)%nat -> 0 <= i ->
  marked (set_nth (Z.to_nat (pc / 8)) (u8 (Z.lor (nth (Z.to_nat (pc / 8)) m 0) (Z.shiftl 1 (pc mod 8)))) m) i =
  marked m i || (pc =? i).
Proof.
  intros Hm Hpc Hl Hi. unfold marked. rewrite nth_set_nth by exact Hl.
  pose proof (Z.mod_pos_bound pc 8 ltac:(lia)). pose proof (Z.mod_pos_bound i 8 ltac:(lia)).
  pose proof (Z.div_pos pc 8 Hpc ltac:(lia)). pose proof (Z.div_pos i 8 Hi ltac:(lia)).
  pose proof (Z.div_mod pc 8 ltac:(lia)). pose proof (Z.div_mod i 8 ltac:(lia)).
  destruct (Nat.eqb_spec (Z.to_nat (i / 8)) (Z.to_nat (pc / 8))) as [E|N].
  - rewrite E, byte_or_bit; [|apply Forall_nth; assumption|lia..].
    f_equal. destruct (Z.eqb_spec (pc mod 8) (i mod 8)), (Z.eqb_spec pc i); try reflexivity; exfalso; lia.
  - destruct (Z.eqb_spec pc i) as [->|]; [congruence|]. rewrite orb_false_r. reflexivity.
Qed.

Lemma land_pow2_bit b k : 0 <= k -> negb (Z.land b (2 ^ k) =? 0) = Z.testbit b k.
Proof.
  intros Hk. destruct (Z.testbit b k) eqn:E.
  - destruct (Z.eqb_spec (Z.land b (2 ^ k)) 0) as [H|H]; [|reflexivity].
    apply (f_equal (fun x => Z.testbit x k)) in H. rewrite Z.land_spec, E, Z.pow2_bits_true, Z.bits_0 in H by lia.
    discriminate.
  - replace (Z.land b (2 ^ k)) with 0; [reflexivity|]. symmetry. apply Z.bits_inj'. intros n Hn.
    rewrite Z.land_spec, Z.bits_0. destruct (Z.eq_dec n k) as [->|N]; [rewrite E; reflexivity|].
    rewrite Z.pow2_bits_false by lia. apply andb_false_r.
Qed.

Lemma marked_land m i b : 0 <= i -> index m (i / 8) = Ret b ->
  negb (Z.land b (u8 (Z.shiftl 1 (i mod 8))) =? 0) = marked m i.
Proof.
  intros Hi Hb. apply index_in in Hb. destruct Hb as [_ Hb]. unfold marked. rewrite (nth_error_nth _ _ _ Hb).
  pose proof (Z.mod_pos_bound i 8 ltac:(lia)) as Hr. rewrite Z.shiftl_1_l.
  unfold u8, uwrap. rewrite (Z.mod_small (2 ^ (i mod 8))).
  2: { split; [apply Z.pow_nonneg; lia|]. apply Z.pow_lt_mono_r; lia. }
  apply land_pow2_bit. lia.
Qed.

Lemma code_at_index code pc : 0 <= pc < len code -> index code pc = Ret (code_at code pc).
Proof. unfold len. intros H. apply index_ret; [|lia]. apply nth_error_nth'. lia. Qed.

(** What the loop has found when it arrives at [pc]. *)
Definition found (code m : list Z) (pc : Z) : Prop :=
  bytes_ok m /\ len m = len code / 8 + 1 /\ boundary code pc /\
  forall i, 0 <= i -> marked m i = true <-> i < pc /\ valid_dest code i.

Lemma found_skip code m pc : found code m pc -> pc < len code -> code_at code pc <> JUMPDEST ->
  found code m (next_pc code pc).
Proof.
  intros (Hb & Hl & Hp & Hm) L N. split; [exact Hb|]. split; [exact Hl|]. split; [constructor; assumption|].
  intros i Hi. rewrite (Hm i Hi). split.
  - intros [H V]. split; [|exact V]. unfold next_pc. pose proof (push_data_range (code_at code pc)). lia.
  - intros [H V]. split; [|exact V]. destruct V as (B & _ & J).
    destruct (Z.lt_trichotomy i pc) as [|[->|G]]; [assumption|congruence|].
    apply (boundary_gap code pc i Hp B) in G. lia.
Qed.

Lemma found_mark code m pc : found code m pc -> pc < len code -> code_at code pc = JUMPDEST ->
  exists b, index m (pc / 8) = Ret b /\
  found code (set_nth (Z.to_nat (pc / 8)) (u8 (Z.lor b (Z.shiftl 1 (pc mod 8)))) m) (next_pc code pc).
Proof.
  intros (Hb & Hl & Hp & Hm) L J. pose proof (boundary_nonneg code pc Hp) as H0.
  assert (Hd : 0 <= pc / 8 < len m).
  { rewrite Hl. split; [apply Z.div_pos; lia|]. pose proof (Z.div_le_mono pc (len code) 8). lia. }
  assert (Hn : (Z.to_nat (pc / 8) < length m)%nat) by (unfold len in Hd; lia).
  exists (nth (Z.to_nat (pc / 8)) m 0). split; [apply index_ret; [apply nth_error_nth'; exact Hn|lia]|].
  assert (E : next_pc code pc = pc + 1) by (unfold next_pc; rewrite J; cbn; lia).
  split; [|split; [|split; [constructor; assumption|]]].
  - unfold bytes_ok, set_nth. apply Forall_app. split; [apply bytes_ok_firstn, Hb|]. constructor.
    + apply Z.mod_pos_bound. lia.
    + apply bytes_ok_skipn, Hb.
  - unfold len. rewrite set_nth_length by exact Hn. exact Hl.
  - intros i Hi. rewrite marked_set, orb_true_iff, (Hm i Hi), Z.eqb_eq, E by assumption. unfold valid_dest. split.
    + intros [[H V]|<-]; [split; [lia|exact V]|]. split; [lia|auto].
    + intros [H V]. destruct (Z.eq_dec pc i) as [->|N]; [right; reflexivity|left; split; [lia|exact V]].
Qed.

Lemma jumpdests_loop_spec fuel code : len code < 2 ^ 63 -> forall pc m, found code m pc ->
  len code <= pc + Z.of_nat fuel ->
  exists m' pc', jumpdests_loop fuel code pc m = Ret m' /\ found code m' pc' /\ len code <= pc'.
Proof.
  intros Hc. induction fuel as [|fuel IH]; intros pc m F Hf; cbn [jumpdests_loop].
  - exists m, pc. split; [reflexivity|]. split; [exact F|lia].
  - destruct (Z.ltb_spec pc (len code)) as [L|L]; [|exists m, pc; auto].
    pose proof (boundary_nonneg code pc (proj1 (proj2 (proj2 F)))) as H0.
    rewrite code_at_index by lia. cbn [obind]. destruct (Z.eqb_spec (code_at code pc) JUMPDEST) as [J|J].
    + destruct (found_mark code m pc F L J) as (b & -> & F'). cbn [obind].
      unfold next_pc in F'. rewrite J in F'. cbn in F'. rewrite Z.add_0_r in F'.
      rewrite u64_small by lia. apply IH; [exact F'|lia].
    + pose proof (found_skip code m pc F L J) as F'. unfold next_pc, push_data in F'.
      destruct (_ && _) eqn:E.
      * b2p. cbn [OpCode_byte] in *. rewrite (u64_small (code_at code pc - 96 + 1)) by lia.
        rewrite (u64_small (pc + _)), u64_small by lia. replace (pc + (code_at code pc - 96 + 1) + 1)
          with (pc + 1 + (code_at code pc - 96 + 1)) by lia. apply IH; [exact F'|lia].
      * rewrite Z.add_0_r in F'. rewrite u64_small by lia. apply IH; [exact F'|lia].
Qed.

Lemma zeros_nth n k : nth k (zeros n) 0 = 0.
Proof. unfold zeros. apply nth_repeat. Qed.

(** The bitmap of a code has a bit for every valid destination and no other. *)
Lemma jumpdests_spec code : len code < 2 ^ 63 ->
  exists m, jumpdests code = Ret m /\ len m = len code / 8 + 1 /\
  forall i, 0 <= i -> marked m i = true <-> valid_dest code i.
Proof.
  intros Hc. pose proof (len_nonneg code). destruct (jumpdests_loop_spec (length code) code Hc 0 (zeros (len code / 8 + 1))) as (m & pc & E & F & L).
  - split; [apply zeros_ok|]. split; [apply zeros_len; pose proof (Z.div_pos (len code) 8); lia|].
    split; [constructor|]. intros i Hi. unfold marked. rewrite zeros_nth, Z.bits_0. split; [discriminate|lia].
  - unfold len. lia.
  - exists m. split; [exact E|]. destruct F as (_ & Hl & _ & Hm). split; [exact Hl|]. intros i Hi.
    rewrite (Hm i Hi). split; [intros [_ V]; exact V|]. intros V. split; [|exact V]. destruct V as (_ & V & _). lia.
Qed.

(** ** The cache *)

(** Every bitmap of the cache is that of the code its hash names. *)
Definition cached (code_of : Hash -> list Z) (d : destinations) : Prop :=
  Forall (fun e => jumpdests (code_of (fst e)) = Ret (snd e)) d.

Lemma cached_get code_of d h m : cached code_of d -> dests_get d h = Some m -> jumpdests (code_of h) = Ret m.
Proof.
  induction 1 as [|[h' m'] d E _ IH]; cbn [dests_get]; [discriminate|]. destruct (Z.eqb_spec h' h) as [->|]; [|exact IH].
  intros [= <-]. exact E.
Qed.

