(* ===== verification/VmState.v ===== *)
(** * Package [vm]: the state of the machine

    The interface [StateDB] of [core/vm/interface.go] as a class, the structs of
    [core/vm/evm.go] and [core/vm/interpreter.go], and the monad in which the
    gas and execution functions are written: a frame of execution is threaded
    through calls that may return an error, panic, or (when the fuel of the
    interpreter's loop ends) not be finished.

    What the source keeps in one mutable [EVM] is split: [Env] is what never
    changes during a run, [EVM] what does.  The map of analysed jump destinations
    is shared by reference among the contracts of a call tree, so it is here.
    [evm.abort] may be set by another goroutine at any moment; [abort k] is what
    the [k]-th load of the run reads. *)

From Stdlib Require Import ZArith List Lia Bool.
From S2P Require Import Prelude GoBig CommonTypes Params VmContract VmMemory VmOpcodes.
Import ListNotations.
Local Open Scope Z_scope.

(** [types.Log] *)
Record Log : Type := mkLog {
  log_Address : Address; log_Topics : list Hash; log_Data : list Z; log_BlockNumber : Z;
  log_TxHash : Hash; log_TxIndex : Z; log_BlockHash : Hash; log_Index : Z }.

(** The methods take and return the state: a getter of the implementation may
    load an account into its cache.  [GetRefund] returns a pointer;
    [WriteRefund v] is a write of [v] through it. *)
Class StateDB (S : Type) : Type := mkStateDB {
  CreateAccount : Address -> S -> S;
  SubBalance : Address -> Z -> S -> S;
  AddBalance : Address -> Z -> S -> S;
  GetBalance : Address -> S -> S * Z;
  GetNonce : Address -> S -> S * Z;
  SetNonce : Address -> Z -> S -> S;
  GetCodeHash : Address -> S -> S * Hash;
  GetCode : Address -> S -> S * list Z;
  db_SetCode : Address -> list Z -> S -> S;
  GetCodeSize : Address -> S -> S * Z;
  AddRefund : Z -> S -> S;
  GetRefund : S -> Z;
  WriteRefund : Z -> S -> S;
  GetState : Address -> Hash -> S -> S * Hash;
  SetState : Address -> Hash -> Hash -> S -> S;
  Suicide : Address -> S -> S * bool;
  HasSuicided : Address -> S -> S * bool;
  Exist : Address -> S -> S * bool;
  Empty : Address -> S -> S * bool;
  RevertToSnapshot : Z -> S -> outcome S;
  Snapshot : S -> S * Z;
  AddLog : Log -> S -> S;
  AddPreimage : Hash -> list Z -> S -> S }.

Section machine.
Context {S : Type} {DB : StateDB S}.

(** [type Context struct] *)
Record Context : Type := mkContext {
  CanTransfer : Address -> Z -> S -> S * bool;
  Transfer : Address -> Address -> Z -> S -> S;
  GetHash : Z -> Hash;
  Origin : Address;
  GasPrice : Z;
  Coinbase : Address;
  GasLimit : Z;
  BlockNumber : Z;
  Time : Z;
  Difficulty : Z }.

(** [type Config struct], without the tracer and the unused JIT flags; the jump
    table it may carry is an argument of [NewInterpreter]. *)
Record Config : Type := mkConfig {
  NoRecursion : bool;
  DisableGasMetering : bool;
  EnablePreimageRecording : bool }.

Record Env : Type := mkEnv {
  context : Context;
  chainConfig : ChainConfig;
  chainRules : Rules;
  vmConfig : Config;
  abort : nat -> Z }.

Record EVM : Type := mkEVM {
  statedb : S;
  depth : Z;
  readOnly : bool;
  returnData : list Z;
  dests : destinations;
  loads : nat }.

Definition set_statedb (e : EVM) (s : S) : EVM := mkEVM s (depth e) (readOnly e) (returnData e) (dests e) (loads e).
Definition set_depth (e : EVM) (d : Z) : EVM := mkEVM (statedb e) d (readOnly e) (returnData e) (dests e) (loads e).
Definition set_readOnly (e : EVM) (b : bool) : EVM :=
  mkEVM (statedb e) (depth e) b (returnData e) (dests e) (loads e).
Definition set_returnData (e : EVM) (r : list Z) : EVM :=
  mkEVM (statedb e) (depth e) (readOnly e) r (dests e) (loads e).
Definition set_dests (e : EVM) (d : destinations) : EVM :=
  mkEVM (statedb e) (depth e) (readOnly e) (returnData e) d (loads e).
(** [atomic.LoadInt32(&evm.abort)] *)
Definition LoadAbort (env : Env) (e : EVM) : Z * EVM :=
  (abort env (loads e), mkEVM (statedb e) (depth e) (readOnly e) (returnData e) (dests e) (Datatypes.S (loads e))).
(** [evm.Cancel()], called when [k] loads have been made. *)
Definition Cancel (env : Env) (k : nat) : Env :=
  mkEnv (context env) (chainConfig env) (chainRules env) (vmConfig env)
    (fun n => if (k <=? n)%nat then 1 else abort env n).

(** The variables of a call of [Interpreter.Run]. *)
Record Frame : Type := mkFrame { pc : Z; evm : EVM; contract : Contract; mem : Memory; stk : Stack }.

Definition set_pc (f : Frame) (p : Z) : Frame := mkFrame p (evm f) (contract f) (mem f) (stk f).
Definition set_evm (f : Frame) (e : EVM) : Frame := mkFrame (pc f) e (contract f) (mem f) (stk f).
Definition set_contract (f : Frame) (c : Contract) : Frame := mkFrame (pc f) (evm f) c (mem f) (stk f).
Definition set_mem (f : Frame) (m : Memory) : Frame := mkFrame (pc f) (evm f) (contract f) m (stk f).
Definition set_stk (f : Frame) (s : Stack) : Frame := mkFrame (pc f) (evm f) (contract f) (mem f) s.

(** ** Computations *)

(** Where a run panicked: an index, slice or nil pointer of the machine itself;
    the lookup of a jump destination; [enforceRestrictions]; a precompiled
    contract; [RevertToSnapshot]. *)
Inductive panic : Type := PIndex | PDests | PRestrict | PPrecompile | PState.

(** The end of a computation: returned, panicked, or stopped by the fuel. *)
Inductive run (A : Type) : Type :=
| Done (a : A)
| Crash (p : panic)
| Fuel.
#[global] Arguments Done {A} a.
#[global] Arguments Crash {A} p.
#[global] Arguments Fuel {A}.

Definition rbind {A B : Type} (m : run A) (k : A -> run B) : run B :=
  match m with
  | Done a => k a
  | Crash p => Crash p
  | Fuel => Fuel
  end.
Definition of_outcome {A : Type} (p : panic) (o : outcome A) : run A :=
  match o with
  | Ret a => Done a
  | Panic => Crash p
  end.

Definition M (A : Type) : Type := Frame -> run (Frame * result A vmErr).

Definition ret {A : Type} (a : A) : M A := fun f => Done (f, Ok a).
Definition throw {A : Type} (e : vmErr) : M A := fun f => Done (f, Err e).
Definition bind {A B : Type} (m : M A) (k : A -> M B) : M B := fun f =>
  match m f with
  | Done (f, Ok a) => k a f
  | Done (f, Err e) => Done (f, Err e)
  | Crash p => Crash p
  | Fuel => Fuel
  end.

(** Reading and writing the frame, with functions that may panic. *)
Definition reads {A : Type} (g : Frame -> A) : M A := fun f => Done (f, Ok (g f)).
Definition lift {A : Type} (o : outcome A) : M A := fun f =>
  match o with
  | Ret a => Done (f, Ok a)
  | Panic => Crash PIndex
  end.
Definition modify (g : Frame -> Frame) : M unit := fun f => Done (g f, Ok tt).

(** Stack and memory. *)
Definition pop : M Z := fun f =>
  match stack.pop (stk f) with
  | Ret (x, st) => Done (set_stk f st, Ok x)
  | Panic => Crash PIndex
  end.
Definition push (x : Z) : M unit := modify (fun f => set_stk f (stack.push (stk f) x)).
Definition back (n : Z) : M Z := fun f => lift (stack.Back (stk f) n) f.
(** [stack.data[stack.len()-1] = x] *)
Definition set_top (x : Z) : M unit := fun f =>
  match stk f with
  | [] => Crash PIndex
  | _ :: st => Done (set_stk f (x :: st), Ok tt)
  end.
Definition mget (offset size : Z) : M (list Z) := fun f => lift (memory.Get (mem f) offset size) f.
Definition mset (offset size : Z) (v : list Z) : M unit := fun f =>
  match memory.Set_ (mem f) offset size v with
  | Ret m => Done (set_mem f m, Ok tt)
  | Panic => Crash PIndex
  end.

(** The state database. *)
Definition query {A : Type} (q : S -> S * A) : M A := fun f =>
  let '(s, a) := q (statedb (evm f)) in Done (set_evm f (set_statedb (evm f) s), Ok a).
Definition update (u : S -> S) : M unit := modify (fun f => set_evm f (set_statedb (evm f) (u (statedb (evm f))))).

(** The contract: [contract.UseGas(gas)], [contract.Gas += gas]. *)
Definition use_gas (gas : Z) : M bool := fun f =>
  let '(c, ok) := UseGas (contract f) gas in Done (set_contract f c, Ok ok).
Definition add_gas (gas : Z) : M unit :=
  modify (fun f => set_contract f (set_Gas (contract f) (u64 (Gas (contract f) + gas)))).

(** ** The calls an instruction can make *)

(** [ret], [leftOverGas] and [err]. *)
Definition call_result : Type := list Z * Z * option vmErr.

Record CallOps : Type := mkCalls {
  c_Call : ContractRef -> Address -> list Z -> Z -> Z -> EVM -> run (EVM * call_result);
  c_CallCode : ContractRef -> Address -> list Z -> Z -> Z -> EVM -> run (EVM * call_result);
  c_DelegateCall : ContractRef -> Address -> list Z -> Z -> EVM -> run (EVM * call_result);
  c_StaticCall : ContractRef -> Address -> list Z -> Z -> EVM -> run (EVM * call_result);
  c_Create : ContractRef -> list Z -> Z -> Z -> EVM -> run (EVM * (Address * call_result)) }.

(** A method of [evm] called by an instruction. *)
Definition calls {A : Type} (c : EVM -> run (EVM * A)) : M A := fun f =>
  match c (evm f) with
  | Done (e, a) => Done (set_evm f e, Ok a)
  | Crash p => Crash p
  | Fuel => Fuel
  end.

End machine.

#[global] Arguments Context S : clear implicits.
#[global] Arguments Env S : clear implicits.
#[global] Arguments EVM S : clear implicits.
#[global] Arguments Frame S : clear implicits.
#[global] Arguments M S A : clear implicits.
#[global] Arguments CallOps S : clear implicits.

Declare Scope vm_scope.
Delimit Scope vm_scope with vm.
Notation "'do' x <- m ; k" := (bind m (fun x => k))
  (at level 200, x pattern, m at level 100, k at level 200, right associativity) : vm_scope.
Notation "'do_' m ; k" := (bind m (fun _ => k))
  (at level 200, m at level 100, k at level 200, right associativity) : vm_scope.
