(* ===== verification/CoreState.v ===== *)
(** * Package [core/state]: accounts, journal and snapshots

    [core/state/statedb.go], [core/state/state_object.go] and
    [core/state/journal.go].  The maps of the source are finite maps; a pointer
    to a state object is the entry of its address in [stateObjects], written back
    after each method that changes the object (the code never keeps a pointer
    across calls, and a replaced object lives on only in the journal).  The
    interfaces [Trie] and [Database] of [core/state/database.go] are a class and a
    record; the decoder of accounts is a parameter. *)

From stdpp Require Import base gmap.
From Stdlib Require Import ZArith List Lia Bool.
From S2P Require Import Prelude GoBig CommonTypes Rlp VmCommon VmState.
Import ListNotations.
Local Open Scope Z_scope.

(** ** The interfaces *)

Class Trie (T E : Type) : Type := mkTrie {
  TryGet : T -> list Z -> result (list Z) E;
  TryUpdate : T -> list Z -> list Z -> T * option E;
  TryDelete : T -> list Z -> T * option E;
  trie_Hash : T -> Hash }.

Record Database (T E : Type) : Type := mkDatabase {
  OpenStorageTrie : Hash -> Hash -> result T E;
  ContractCode : Hash -> Hash -> list Z * option E;
  ContractCodeSize : Hash -> Hash -> Z * option E }.
Arguments OpenStorageTrie {T E} d addrHash root.
Arguments ContractCode {T E} d addrHash codeHash.
Arguments ContractCodeSize {T E} d addrHash codeHash.

Record Account : Type := mkAccount { Nonce : Z; acc_Balance : Z; Root : Hash; acc_CodeHash : Hash }.

Section state.
Context {T E : Type} {HT : Trie T E}.
Variable Keccak256 : list Z -> list Z.
Variable db : Database T E.
(** [rlp.DecodeBytes(enc, &data)] *)
Variable decodeAccount : list Z -> option Account.

Definition emptyCode : Hash := BytesToHash (Keccak256 []).
Definition addrHash (a : Address) : Hash := BytesToHash (Keccak256 (Address_Bytes a)).

(** ** State objects *)

(** The errors an object remembers. *)
Inductive object_error : Type :=
| db_error (e : E)
| rlp_error (e : rlpErr).

(** [onDirty] says whether the callback is still set; a nil [code] is the empty
    list, which a set code that is empty is read as too. *)
Record stateObject : Type := mkObject {
  address : Address;
  data : Account;
  obj_dbErr : option object_error;
  obj_trie : option T;
  code : list Z;
  cachedStorage : gmap Z Z;
  dirtyStorage : gmap Z Z;
  dirtyCode : bool;
  suicided : bool;
  touched : bool;
  deleted : bool;
  onDirty : bool }.

Definition set_data (o : stateObject) (d : Account) : stateObject :=
  mkObject (address o) d (obj_dbErr o) (obj_trie o) (code o) (cachedStorage o) (dirtyStorage o) (dirtyCode o)
    (suicided o) (touched o) (deleted o) (onDirty o).
Definition set_obj_err (o : stateObject) (e : option object_error) : stateObject :=
  mkObject (address o) (data o) e (obj_trie o) (code o) (cachedStorage o) (dirtyStorage o) (dirtyCode o)
    (suicided o) (touched o) (deleted o) (onDirty o).
Definition set_obj_trie (o : stateObject) (t : T) : stateObject :=
  mkObject (address o) (data o) (obj_dbErr o) (Some t) (code o) (cachedStorage o) (dirtyStorage o) (dirtyCode o)
    (suicided o) (touched o) (deleted o) (onDirty o).
Definition set_code (o : stateObject) (c : list Z) (dirty : bool) : stateObject :=
  mkObject (address o) (data o) (obj_dbErr o) (obj_trie o) c (cachedStorage o) (dirtyStorage o) dirty
    (suicided o) (touched o) (deleted o) (onDirty o).
Definition set_storage (o : stateObject) (cached dirty : gmap Z Z) : stateObject :=
  mkObject (address o) (data o) (obj_dbErr o) (obj_trie o) (code o) cached dirty (dirtyCode o)
    (suicided o) (touched o) (deleted o) (onDirty o).
Definition set_flags (o : stateObject) (suicided touched deleted onDirty : bool) : stateObject :=
  mkObject (address o) (data o) (obj_dbErr o) (obj_trie o) (code o) (cachedStorage o) (dirtyStorage o) (dirtyCode o)
    suicided touched deleted onDirty.

(** [s.empty()] *)
Definition empty_object (o : stateObject) : bool :=
  (Nonce (data o) =? 0) && (Sign (acc_Balance (data o)) =? 0) && (acc_CodeHash (data o) =? emptyCode).

(** [Account{}] as [newObject] completes it. *)
Definition zero_account : Account := mkAccount 0 0 0 emptyCode.

Definition newObject (a : Address) (d : Account) : stateObject :=
  mkObject a d None None [] ∅ ∅ false false false false true.

Definition object_setError (o : stateObject) (err : option object_error) : stateObject :=
  match obj_dbErr o with None => set_obj_err o err | Some _ => o end.

(** [c.getTrie(db)]; the second opening is of the empty root. *)
Definition getTrie (o : stateObject) : option T * stateObject :=
  match obj_trie o with
  | Some t => (Some t, o)
  | None =>
      match OpenStorageTrie db (addrHash (address o)) (Root (data o)) with
      | Ok t => (Some t, set_obj_trie o t)
      | Err e =>
          match OpenStorageTrie db (addrHash (address o)) 0 with
          | Ok t => (Some t, object_setError (set_obj_trie o t) (Some (db_error e)))
          | Err _ => (None, object_setError o (Some (db_error e)))
          end
      end
  end.

(** An encoded slot: [rlp.Split] and [value.SetBytes].  [Split] panics on no
    encoding that [updateTrie] writes; such bytes read as the empty slot here. *)
Definition slot_value (enc : list Z) : Hash * option rlpErr :=
  match enc with
  | [] => (0, None)
  | _ =>
      match Split enc with
      | Ret (Ok (_, content, _)) => (BytesToHash content, None)
      | Ret (Err e) => (0, Some e)
      | Panic => (0, None)
      end
  end.

Definition object_GetState (o : stateObject) (key : Hash) : Hash * stateObject :=
  match cachedStorage o !! key with
  | Some v => (v, o)
  | None =>
      let '(t, o) := getTrie o in
      match t with
      | None => (0, o)
      | Some t =>
          match TryGet t (Hash_Bytes key) with
          | Err e => (0, object_setError o (Some (db_error e)))
          | Ok enc =>
              let '(value, err) := slot_value enc in
              let o := match err with Some e => object_setError o (Some (rlp_error e)) | None => o end in
              (value, if negb (value =? 0) then set_storage o (<[key := value]> (cachedStorage o)) (dirtyStorage o)
                      else o)
          end
      end
  end.

(** [self.Code(db)] *)
Definition object_Code (o : stateObject) : list Z * stateObject :=
  match code o with
  | _ :: _ => (code o, o)
  | [] =>
      if acc_CodeHash (data o) =? emptyCode then ([], o)
      else
        let '(c, err) := ContractCode db (addrHash (address o)) (acc_CodeHash (data o)) in
        let o := match err with Some e => object_setError o (Some (db_error e)) | None => o end in
        (c, set_code o c (dirtyCode o))
  end.

(** ** The journal *)

Inductive journalEntry : Type :=
| createObjectChange (account : Address)
| resetObjectChange (prev : stateObject)
| suicideChange (account : Address) (prev : bool) (prevbalance : Z)
| balanceChange (account : Address) (prev : Z)
| nonceChange (account : Address) (prev : Z)
| storageChange (account : Address) (key prevalue : Hash)
| codeChange (account : Address) (prevcode : list Z) (prevhash : Hash)
| refundChange (prev : Z)
| addLogChange (txhash : Hash)
| addPreimageChange (hash : Hash)
| touchChange (account : Address) (prev prevDirty : bool).

Record revision : Type := mkRevision { rev_id : Z; journalIndex : Z }.

Record State : Type := mkState {
  trie : T;
  stateObjects : gmap Z stateObject;
  stateObjectsDirty : gset Z;
  dbErr : option E;
  refund : Z;
  thash : Hash;
  bhash : Hash;
  txIndex : Z;
  logs : gmap Z (list Log);
  logSize : Z;
  preimages : gmap Z (list Z);
  journal : list journalEntry;
  validRevisions : list revision;
  nextRevisionId : Z }.

Definition set_objects (s : State) (os : gmap Z stateObject) : State :=
  mkState (trie s) os (stateObjectsDirty s) (dbErr s) (refund s) (thash s) (bhash s) (txIndex s) (logs s) (logSize s)
    (preimages s) (journal s) (validRevisions s) (nextRevisionId s).
Definition set_dirty (s : State) (d : gset Z) : State :=
  mkState (trie s) (stateObjects s) d (dbErr s) (refund s) (thash s) (bhash s) (txIndex s) (logs s) (logSize s)
    (preimages s) (journal s) (validRevisions s) (nextRevisionId s).
Definition set_err (s : State) (e : option E) : State :=
  mkState (trie s) (stateObjects s) (stateObjectsDirty s) e (refund s) (thash s) (bhash s) (txIndex s) (logs s)
    (logSize s) (preimages s) (journal s) (validRevisions s) (nextRevisionId s).
Definition set_refund (s : State) (r : Z) : State :=
  mkState (trie s) (stateObjects s) (stateObjectsDirty s) (dbErr s) r (thash s) (bhash s) (txIndex s) (logs s)
    (logSize s) (preimages s) (journal s) (validRevisions s) (nextRevisionId s).
Definition set_logs (s : State) (l : gmap Z (list Log)) (n : Z) : State :=
  mkState (trie s) (stateObjects s) (stateObjectsDirty s) (dbErr s) (refund s) (thash s) (bhash s) (txIndex s) l n
    (preimages s) (journal s) (validRevisions s) (nextRevisionId s).
Definition set_preimages (s : State) (p : gmap Z (list Z)) : State :=
  mkState (trie s) (stateObjects s) (stateObjectsDirty s) (dbErr s) (refund s) (thash s) (bhash s) (txIndex s) (logs s)
    (logSize s) p (journal s) (validRevisions s) (nextRevisionId s).
Definition set_journal (s : State) (j : list journalEntry) : State :=
  mkState (trie s) (stateObjects s) (stateObjectsDirty s) (dbErr s) (refund s) (thash s) (bhash s) (txIndex s) (logs s)
    (logSize s) (preimages s) j (validRevisions s) (nextRevisionId s).
Definition set_revisions (s : State) (rs : list revision) (next : Z) : State :=
  mkState (trie s) (stateObjects s) (stateObjectsDirty s) (dbErr s) (refund s) (thash s) (bhash s) (txIndex s) (logs s)
    (logSize s) (preimages s) (journal s) rs next.
Definition set_trie (s : State) (t : T) : State :=
  mkState t (stateObjects s) (stateObjectsDirty s) (dbErr s) (refund s) (thash s) (bhash s) (txIndex s) (logs s)
    (logSize s) (preimages s) (journal s) (validRevisions s) (nextRevisionId s).

(** [New(root, db)] once the trie is open. *)
Definition New (t : T) : State := mkState t ∅ ∅ None 0 0 0 0 ∅ 0 ∅ [] [] 0.

Definition setError (s : State) (err : option E) : State :=
  match dbErr s with None => set_err s err | Some _ => s end.
Definition append_journal (s : State) (e : journalEntry) : State := set_journal s (journal s ++ [e]).

(** ** Objects in the state *)

Definition setStateObject (s : State) (o : stateObject) : State :=
  set_objects s (<[address o := o]> (stateObjects s)).

Definition getStateObject (s : State) (a : Address) : option stateObject * State :=
  match stateObjects s !! a with
  | Some o => (if deleted o then None else Some o, s)
  | None =>
      match TryGet (trie s) (Address_Bytes a) with
      | Err e => (None, setError s (Some e))
      | Ok [] => (None, setError s None)
      | Ok enc =>
          match decodeAccount enc with
          | None => (None, s)
          | Some d => let o := newObject a d in (Some o, setStateObject s o)
          end
      end
  end.

Definition MarkStateObjectDirty (s : State) (a : Address) : State := set_dirty s ({[ a ]} ∪ stateObjectsDirty s).

(** [if self.onDirty != nil { self.onDirty(self.Address()); self.onDirty = nil }] *)
Definition fire (s : State) (o : stateObject) : State * stateObject :=
  if onDirty o then
    (MarkStateObjectDirty s (address o), set_flags o (suicided o) (touched o) (deleted o) false)
  else (s, o).
(** The object after [fire], written back. *)
Definition put_dirty (s : State) (o : stateObject) : State := let '(s, o) := fire s o in setStateObject s o.

Definition setBalance (s : State) (o : stateObject) (amount : Z) : State :=
  put_dirty s (set_data o (mkAccount (Nonce (data o)) amount (Root (data o)) (acc_CodeHash (data o)))).
Definition setNonce (s : State) (o : stateObject) (nonce : Z) : State :=
  put_dirty s (set_data o (mkAccount nonce (acc_Balance (data o)) (Root (data o)) (acc_CodeHash (data o)))).
Definition setCode (s : State) (o : stateObject) (codeHash : Hash) (c : list Z) : State :=
  put_dirty s
    (set_code (set_data o (mkAccount (Nonce (data o)) (acc_Balance (data o)) (Root (data o)) codeHash))
       c true).
Definition setState (s : State) (o : stateObject) (key value : Hash) : State :=
  put_dirty s (set_storage o (<[key := value]> (cachedStorage o)) (<[key := value]> (dirtyStorage o))).

(** ** [undo] *)

Definition ripemd : Address := BytesToAddress [3].

(** A method called on the object of an address: on a nil pointer it panics. *)
Definition on_object (s : State) (a : Address) (k : State -> stateObject -> State) : outcome State :=
  let '(o, s) := getStateObject s a in
  match o with
  | None => Panic
  | Some o => Ret (k s o)
  end.

Definition undo (ch : journalEntry) (s : State) : outcome State :=
  match ch with
  | createObjectChange a => Ret (set_dirty (set_objects s (base.delete a (stateObjects s))) (stateObjectsDirty s ∖ {[ a ]}))
  | resetObjectChange prev => Ret (setStateObject s prev)
  | suicideChange a prev prevbalance =>
      let '(o, s) := getStateObject s a in
      match o with
      | None => Ret s
      | Some o => Ret (setBalance s (set_flags o prev (touched o) (deleted o) (onDirty o)) prevbalance)
      end
  | touchChange a prev prevDirty =>
      if negb prev && negb (a =? ripemd) then
        let! s := on_object s a (fun s o =>
          setStateObject s (set_flags o (suicided o) prev (deleted o) (onDirty o))) in
        Ret (if negb prevDirty then set_dirty s (stateObjectsDirty s ∖ {[ a ]}) else s)
      else Ret s
  | balanceChange a prev => on_object s a (fun s o => setBalance s o prev)
  | nonceChange a prev => on_object s a (fun s o => setNonce s o prev)
  | codeChange a prevcode prevhash => on_object s a (fun s o => setCode s o prevhash prevcode)
  | storageChange a key prevalue => on_object s a (fun s o => setState s o key prevalue)
  | refundChange prev => Ret (set_refund s prev)
  | addLogChange txhash =>
      let l := match logs s !! txhash with Some l => l | None => [] end in
      if len l =? 1 then Ret (set_logs s (base.delete txhash (logs s)) (logSize s))
      else
        let! l := slice l 0 (len l - 1) in
        Ret (set_logs s (<[txhash := l]> (logs s)) (logSize s))
  | addPreimageChange hash => Ret (set_preimages s (base.delete hash (preimages s)))
  end.

(** [for i := len(journal) - 1; ...; i-- { journal[i].undo(self) }] over the entries given, last first. *)
Fixpoint undo_all (es : list journalEntry) (s : State) : outcome State :=
  match es with
  | [] => Ret s
  | e :: es => let! s := undo_all es s in undo e s
  end.

(** ** The methods *)

Definition createObject (s : State) (a : Address) : stateObject * option stateObject * State :=
  let '(prev, s) := getStateObject s a in
  let newobj := newObject a zero_account in
  let '(s, newobj) := fire s newobj in
  let s := append_journal s (match prev with None => createObjectChange a | Some p => resetObjectChange p end) in
  (newobj, prev, setStateObject s newobj).

Definition GetOrNewStateObject (s : State) (a : Address) : stateObject * State :=
  let '(o, s) := getStateObject s a in
  match o with
  | Some o => (o, s)
  | None => let '(o, _, s) := createObject s a in (o, s)
  end.

Definition st_CreateAccount (a : Address) (s : State) : State :=
  let '(new, prev, s) := createObject s a in
  match prev with
  | None => s
  | Some p => setBalance s new (acc_Balance (data p))
  end.

Definition SetBalance (s : State) (o : stateObject) (amount : Z) : State :=
  setBalance (append_journal s (balanceChange (address o) (acc_Balance (data o)))) o amount.

(** [c.touch()] *)
Definition touch (s : State) (o : stateObject) : State :=
  let s := append_journal s (touchChange (address o) (touched o) (negb (onDirty o))) in
  let '(s, o) := fire s o in
  setStateObject s (set_flags o (suicided o) true (deleted o) (onDirty o)).

Definition st_AddBalance (a : Address) (amount : Z) (s : State) : State :=
  let '(o, s) := GetOrNewStateObject s a in
  if Sign amount =? 0 then
    if empty_object o then touch s o else s
  else SetBalance s o (acc_Balance (data o) + amount).

Definition st_SubBalance (a : Address) (amount : Z) (s : State) : State :=
  let '(o, s) := GetOrNewStateObject s a in
  if Sign amount =? 0 then s else SetBalance s o (acc_Balance (data o) - amount).

Definition st_SetBalance (a : Address) (amount : Z) (s : State) : State :=
  let '(o, s) := GetOrNewStateObject s a in SetBalance s o amount.

Definition st_SetNonce (a : Address) (nonce : Z) (s : State) : State :=
  let '(o, s) := GetOrNewStateObject s a in
  setNonce (append_journal s (nonceChange (address o) (Nonce (data o)))) o nonce.

Definition st_SetCode (a : Address) (c : list Z) (s : State) : State :=
  let '(o, s) := GetOrNewStateObject s a in
  let '(prevcode, o) := object_Code o in
  let s := append_journal s (codeChange (address o) prevcode (acc_CodeHash (data o))) in
  setCode s o (BytesToHash (Keccak256 c)) c.

Definition st_SetState (a : Address) (key value : Hash) (s : State) : State :=
  let '(o, s) := GetOrNewStateObject s a in
  let '(prevalue, o) := object_GetState o key in
  let s := append_journal s (storageChange (address o) key prevalue) in
  setState s o key value.

Definition st_Suicide (a : Address) (s : State) : State * bool :=
  let '(o, s) := getStateObject s a in
  match o with
  | None => (s, false)
  | Some o =>
      let s := append_journal s (suicideChange a (suicided o) (acc_Balance (data o))) in
      let '(s, o) := fire s (set_flags o true (touched o) (deleted o) (onDirty o)) in
      (setStateObject s (set_data o (mkAccount (Nonce (data o)) 0 (Root (data o)) (acc_CodeHash (data o)))), true)
  end.

Definition st_AddLog (log : Log) (s : State) : State :=
  let s := append_journal s (addLogChange (thash s)) in
  let log := mkLog (log_Address log) (log_Topics log) (log_Data log) (log_BlockNumber log) (thash s) (txIndex s)
               (bhash s) (logSize s) in
  let l := match logs s !! thash s with Some l => l | None => [] end in
  set_logs s (<[thash s := l ++ [log]]> (logs s)) (logSize s + 1).

Definition st_AddPreimage (hash : Hash) (preimage : list Z) (s : State) : State :=
  match preimages s !! hash with
  | Some _ => s
  | None =>
      let s := append_journal s (addPreimageChange hash) in
      set_preimages s (<[hash := preimage]> (preimages s))
  end.

Definition st_AddRefund (gas : Z) (s : State) : State :=
  set_refund (append_journal s (refundChange (refund s))) (refund s + gas).

(** A getter: the field of the object, or the default of a missing account. *)
Definition st_get {A : Type} (d : A) (g : stateObject -> A) (a : Address) (s : State) : State * A :=
  let '(o, s) := getStateObject s a in (s, match o with Some o => g o | None => d end).

Definition st_Exist (a : Address) (s : State) : State * bool := st_get false (fun _ => true) a s.
Definition st_Empty (a : Address) (s : State) : State * bool := st_get true empty_object a s.
Definition st_GetBalance (a : Address) (s : State) : State * Z := st_get 0 (fun o => acc_Balance (data o)) a s.
Definition st_GetNonce (a : Address) (s : State) : State * Z := st_get 0 (fun o => Nonce (data o)) a s.
Definition st_GetCodeHash (a : Address) (s : State) : State * Hash := st_get 0 (fun o => acc_CodeHash (data o)) a s.
Definition st_HasSuicided (a : Address) (s : State) : State * bool := st_get false suicided a s.

Definition st_GetCode (a : Address) (s : State) : State * list Z :=
  let '(o, s) := getStateObject s a in
  match o with
  | None => (s, [])
  | Some o => let '(c, o) := object_Code o in (setStateObject s o, c)
  end.

Definition st_GetCodeSize (a : Address) (s : State) : State * Z :=
  let '(o, s) := getStateObject s a in
  match o with
  | None => (s, 0)
  | Some o =>
      match code o with
      | _ :: _ => (s, len (code o))
      | [] =>
          let '(size, err) := ContractCodeSize db (addrHash (address o)) (acc_CodeHash (data o)) in
          (match err with Some e => setError s (Some e) | None => s end, size)
      end
  end.

Definition st_GetState (a : Address) (key : Hash) (s : State) : State * Hash :=
  let '(o, s) := getStateObject s a in
  match o with
  | None => (s, 0)
  | Some o => let '(v, o) := object_GetState o key in (setStateObject s o, v)
  end.

(** ** Snapshots *)

Definition st_Snapshot (s : State) : State * Z :=
  let id := nextRevisionId s in
  (set_revisions s (validRevisions s ++ [mkRevision id (len (journal s))]) (id + 1), id).

(** [sort.Search(n, f)]: the bounds halve, so [n] iterations are enough. *)
Fixpoint search_loop (fuel : nat) (f : Z -> bool) (i j : Z) : Z :=
  match fuel with
  | O => i
  | S fuel =>
      if i <? j then
        let h := i + (j - i) / 2 in
        if negb (f h) then search_loop fuel f (h + 1) j else search_loop fuel f i h
      else i
  end.
Definition sort_Search (n : Z) (f : Z -> bool) : Z := search_loop (Z.to_nat n) f 0 n.

Definition st_RevertToSnapshot (revid : Z) (s : State) : outcome State :=
  let idx := sort_Search (len (validRevisions s)) (fun i =>
    match index (validRevisions s) i with Ret r => rev_id r >=? revid | Panic => true end) in
  if idx =? len (validRevisions s) then Panic
  else
    let! r := index (validRevisions s) idx in
    if negb (rev_id r =? revid) then Panic
    else
      let snapshot := journalIndex r in
      let! s := undo_all (skipn (Z.to_nat snapshot) (journal s)) s in
      let! j := slice (journal s) 0 snapshot in
      let! rs := slice (validRevisions s) 0 idx in
      Ret (set_revisions (set_journal s j) rs (nextRevisionId s)).

(** The implementation of the interface of the EVM. *)
#[global] Instance state_StateDB : StateDB State := {
  CreateAccount := st_CreateAccount;
  SubBalance := st_SubBalance;
  AddBalance := st_AddBalance;
  GetBalance := st_GetBalance;
  GetNonce := st_GetNonce;
  SetNonce := st_SetNonce;
  GetCodeHash := st_GetCodeHash;
  GetCode := st_GetCode;
  db_SetCode := st_SetCode;
  GetCodeSize := st_GetCodeSize;
  AddRefund := st_AddRefund;
  GetRefund := refund;
  WriteRefund v s := set_refund s v;
  GetState := st_GetState;
  SetState := st_SetState;
  Suicide := st_Suicide;
  HasSuicided := st_HasSuicided;
  Exist := st_Exist;
  Empty := st_Empty;
  RevertToSnapshot := st_RevertToSnapshot;
  Snapshot := st_Snapshot;
  AddLog := st_AddLog;
  AddPreimage := st_AddPreimage }.

End state.
