(* ===== verification/VmGas.v ===== *)
(** * Package [vm]: gas

    [core/vm/gas.go] and [core/vm/gas_table.go].  A gas function may change the
    frame: the fee of the memory, the refund counter, and for the calls the gas
    operand on the stack.  All sums are [uint64], checked where the source
    checks them and wrapped where it does not. *)

From Stdlib Require Import ZArith List Lia Bool.
From S2P Require Import Prelude GoBig VmCommon CommonTypes Params VmContract VmMemory VmOpcodes VmState.
Import ListNotations.
Local Open Scope Z_scope.
Local Open Scope vm_scope.

(** ** [gas.go] *)

Definition GasQuickStep : Z := 2.
Definition GasFastestStep : Z := 3.
Definition GasFastStep : Z := 5.
Definition GasMidStep : Z := 8.
Definition GasSlowStep : Z := 10.
Definition GasExtStep : Z := 20.

Definition callGas (gasTable : GasTable) (availableGas base callCost : Z) : result Z vmErr :=
  let capped :=
    if CreateBySuicide gasTable >? 0 then
      let availableGas := u64 (availableGas - base) in
      let gas := u64 (availableGas - availableGas / 64) in
      if (BitLen callCost >? 64) || (gas <? Uint64 callCost) then Some gas else None
    else None in
  match capped with
  | Some gas => Ok gas
  | None => if BitLen callCost >? 64 then Err errGasUintOverflow else Ok (Uint64 callCost)
  end.

(** ** [gas_table.go] *)

(** The fee and the memory with its new [lastGasCost]. *)
Definition memoryGasCost (m : Memory) (newMemSize : Z) : result (Z * Memory) vmErr :=
  if newMemSize =? 0 then Ok (0, m)
  else if newMemSize >? 0xffffffffe0 then Err errGasUintOverflow
  else
    let newMemSizeWords := toWordSize newMemSize in
    let newMemSize := u64 (newMemSizeWords * 32) in
    if newMemSize >? u64 (memory.Len m) then
      let square := u64 (newMemSizeWords * newMemSizeWords) in
      let linCoef := u64 (newMemSizeWords * MemoryGas) in
      let quadCoef := square / QuadCoeffDiv in
      let newTotalFee := u64 (linCoef + quadCoef) in
      let fee := u64 (newTotalFee - lastGasCost m) in
      Ok (fee, set_lastGasCost m newTotalFee)
    else Ok (0, m).

Section gas.
Context {S : Type} {DB : StateDB S}.

Definition gasFunc : Type := GasTable -> Env S -> Z -> M S Z.

Definition memory_gas (memorySize : Z) : M S Z := fun f =>
  match memoryGasCost (mem f) memorySize with
  | Ok (fee, m) => Done (set_mem f m, Ok fee)
  | Err e => Done (f, Err e)
  end.
Definition safe_add (x y : Z) : M S Z :=
  let '(g, overflow) := SafeAdd x y in if overflow then throw errGasUintOverflow else ret g.
Definition safe_mul (x y : Z) : M S Z :=
  let '(g, overflow) := SafeMul x y in if overflow then throw errGasUintOverflow else ret g.
Definition big_uint64 (v : Z) : M S Z :=
  let '(g, overflow) := bigUint64 v in if overflow then throw errGasUintOverflow else ret g.
Definition of_result (r : result Z vmErr) : M S Z := match r with Ok a => ret a | Err e => throw e end.

Definition constGasFunc (gas : Z) : gasFunc := fun _ _ _ => ret gas.

(** The common body of the copying operations: the fixed gas and the operand
    that holds the length. *)
Definition copy_gas (base n memorySize : Z) : M S Z :=
  do gas <- memory_gas memorySize;
  do gas <- safe_add gas base;
  do l <- back n;
  do words <- big_uint64 l;
  do words <- safe_mul (toWordSize words) CopyGas;
  safe_add gas words.

Definition gasCallDataCopy : gasFunc := fun _ _ memorySize => copy_gas GasFastestStep 2 memorySize.
Definition gasReturnDataCopy : gasFunc := fun _ _ memorySize => copy_gas GasFastestStep 2 memorySize.
Definition gasCodeCopy : gasFunc := fun _ _ memorySize => copy_gas GasFastestStep 2 memorySize.
Definition gasExtCodeCopy : gasFunc := fun gt _ memorySize => copy_gas (ExtcodeCopy gt) 3 memorySize.

Definition gasSStore : gasFunc := fun _ _ _ =>
  do y <- back 1;
  do x <- back 0;
  do c <- reads contract;
  do val <- query (GetState (contract_Address c) (BigToHash x));
  if EmptyHash val && negb (EmptyHash (BigToHash y)) then ret SstoreSetGas
  else if negb (EmptyHash val) && EmptyHash (BigToHash y) then
    do_ update (AddRefund SstoreRefundGas);
    ret SstoreClearGas
  else ret SstoreResetGas.

Definition makeGasLog (n : Z) : gasFunc := fun _ _ memorySize =>
  do s <- back 1;
  do requestedSize <- big_uint64 s;
  do gas <- memory_gas memorySize;
  do gas <- safe_add gas LogGas;
  do gas <- safe_add gas (u64 (n * LogTopicGas));
  do memorySizeGas <- safe_mul requestedSize LogDataGas;
  safe_add gas memorySizeGas.

Definition gasSha3 : gasFunc := fun _ _ memorySize =>
  do gas <- memory_gas memorySize;
  do gas <- safe_add gas Sha3Gas;
  do l <- back 1;
  do wordGas <- big_uint64 l;
  do wordGas <- safe_mul (toWordSize wordGas) Sha3WordGas;
  safe_add gas wordGas.

Definition gasMLoad : gasFunc := fun _ _ memorySize =>
  do gas <- memory_gas memorySize; safe_add gas GasFastestStep.
Definition gasMStore8 : gasFunc := fun _ _ memorySize =>
  do gas <- memory_gas memorySize; safe_add gas GasFastestStep.
Definition gasMStore : gasFunc := fun _ _ memorySize =>
  do gas <- memory_gas memorySize; safe_add gas GasFastestStep.
Definition gasCreate : gasFunc := fun _ _ memorySize =>
  do gas <- memory_gas memorySize; safe_add gas CreateGas.

Definition gasBalance : gasFunc := fun gt _ _ => ret (Params.Balance gt).
Definition gasExtCodeSize : gasFunc := fun gt _ _ => ret (ExtcodeSize gt).
Definition gasSLoad : gasFunc := fun gt _ _ => ret (SLoad gt).

Definition gasExp : gasFunc := fun gt _ _ =>
  do e <- back 1;
  let expByteLen := Z.quot (BitLen e + 7) 8 in
  safe_add (u64 (expByteLen * ExpByte gt)) GasSlowStep.

(** The end of the gas functions of the calls: the gas that goes with the call
    replaces the operand and is charged with the rest. *)
Definition charge_call (gt : GasTable) (gas : Z) : M S Z :=
  do c <- reads contract;
  do requested <- back 0;
  do cg <- of_result (callGas gt (Gas c) gas requested);
  do_ set_top cg;
  safe_add gas cg.

Definition gasCall : gasFunc := fun gt env memorySize =>
  let gas := Calls gt in
  do v <- back 2;
  let transfersValue := negb (Sign v =? 0) in
  do a <- back 1;
  let address := BigToAddress a in
  let eip158 := IsEIP158 (chainConfig env) (Some (BlockNumber (context env))) in
  do gas <-
    (if eip158 then
       do empty <- query (Empty address);
       ret (if empty && transfersValue then u64 (gas + CallNewAccountGas) else gas)
     else
       do found <- query (Exist address);
       ret (if negb found then u64 (gas + CallNewAccountGas) else gas));
  let gas := if transfersValue then u64 (gas + CallValueTransferGas) else gas in
  do memoryGas <- memory_gas memorySize;
  do gas <- safe_add gas memoryGas;
  charge_call gt gas.

Definition gasCallCode : gasFunc := fun gt env memorySize =>
  let gas := Calls gt in
  do v <- back 2;
  let gas := if negb (Sign v =? 0) then u64 (gas + CallValueTransferGas) else gas in
  do memoryGas <- memory_gas memorySize;
  do gas <- safe_add gas memoryGas;
  charge_call gt gas.

Definition gasReturn : gasFunc := fun _ _ memorySize => memory_gas memorySize.
Definition gasRevert : gasFunc := fun _ _ memorySize => memory_gas memorySize.

Definition gasSuicide : gasFunc := fun gt env _ =>
  do c <- reads contract;
  do gas <-
    (if IsEIP150 (chainConfig env) (Some (BlockNumber (context env))) then
       let gas := Params.Suicide gt in
       do a <- back 0;
       let address := BigToAddress a in
       let eip158 := IsEIP158 (chainConfig env) (Some (BlockNumber (context env))) in
       if eip158 then
         do empty <- query (Empty address);
         if empty then
           do balance <- query (GetBalance (contract_Address c));
           ret (if negb (Sign balance =? 0) then u64 (gas + CreateBySuicide gt) else gas)
         else ret gas
       else
         do found <- query (Exist address);
         ret (if negb found then u64 (gas + CreateBySuicide gt) else gas)
     else ret 0);
  do suicided <- query (HasSuicided (contract_Address c));
  do_ (if suicided then ret tt else update (AddRefund SuicideRefundGas));
  ret gas.

Definition gasDelegateCall : gasFunc := fun gt _ memorySize =>
  do gas <- memory_gas memorySize;
  do gas <- safe_add gas (Calls gt);
  charge_call gt gas.

Definition gasStaticCall : gasFunc := fun gt _ memorySize =>
  do gas <- memory_gas memorySize;
  do gas <- safe_add gas (Calls gt);
  charge_call gt gas.

Definition gasPush : gasFunc := fun _ _ _ => ret GasFastestStep.
Definition gasSwap : gasFunc := fun _ _ _ => ret GasFastestStep.
Definition gasDup : gasFunc := fun _ _ _ => ret GasFastestStep.

End gas.
#[global] Arguments gasFunc S : clear implicits.

(** The bodies of the gas functions. *)
Create HintDb vmgas.
#[export] Hint Unfold constGasFunc copy_gas gasCallDataCopy gasReturnDataCopy gasCodeCopy gasExtCodeCopy
  gasSStore makeGasLog gasSha3 gasMLoad gasMStore8 gasMStore gasCreate gasBalance gasExtCodeSize gasSLoad gasExp
  charge_call gasCall gasCallCode gasReturn gasRevert gasSuicide gasDelegateCall gasStaticCall gasPush gasSwap
  gasDup : vmgas.
