(* ===== verification/VmOps.v ===== *)
(** * Package [vm]: the instructions

    [core/vm/instructions.go]: one definition per execution function.  The
    integers given back to the pool are not followed; an
    instruction that calls another contract does so through [CallOps]. *)

From Stdlib Require Import ZArith List Lia Bool.
From S2P Require Import Prelude GoBig VmCommon CommonTypes Params VmContract VmMemory VmOpcodes VmState.
Import ListNotations.
Local Open Scope Z_scope.
Local Open Scope vm_scope.

Section instructions.
Context {S : Type} {DB : StateDB S}.
Variable Keccak256 : list Z -> list Z.

Definition executionFunc : Type := Env S -> CallOps S -> M S (list Z).

Definition bool_word (b : bool) : Z := if b then 1 else 0.

Definition opAdd : executionFunc := fun _ _ =>
  do x <- pop; do y <- pop; do_ push (U256 (x + y)); ret [].

Definition opSub : executionFunc := fun _ _ =>
  do x <- pop; do y <- pop; do_ push (U256 (x - y)); ret [].

Definition opMul : executionFunc := fun _ _ =>
  do x <- pop; do y <- pop; do_ push (U256 (x * y)); ret [].

Definition opDiv : executionFunc := fun _ _ =>
  do x <- pop; do y <- pop;
  if negb (Sign y =? 0) then
    do q <- lift (big.Div x y); do_ push (U256 q); ret []
  else do_ push 0; ret [].

Definition opSdiv : executionFunc := fun _ _ =>
  do x <- pop; do y <- pop;
  let x := S256 x in
  let y := S256 y in
  if Sign y =? 0 then do_ push 0; ret []
  else
    let n := if Sign (x * y) <? 0 then -1 else 1 in
    do res <- lift (big.Div (Z.abs x) (Z.abs y));
    do_ push (U256 (res * n));
    ret [].

Definition opMod : executionFunc := fun _ _ =>
  do x <- pop; do y <- pop;
  if Sign y =? 0 then do_ push 0; ret []
  else do r <- lift (big.Mod x y); do_ push (U256 r); ret [].

Definition opSmod : executionFunc := fun _ _ =>
  do x <- pop; do y <- pop;
  let x := S256 x in
  let y := S256 y in
  if Sign y =? 0 then do_ push 0; ret []
  else
    let n := if Sign x <? 0 then -1 else 1 in
    do res <- lift (big.Mod (Z.abs x) (Z.abs y));
    do_ push (U256 (res * n));
    ret [].

Definition opExp : executionFunc := fun _ _ =>
  do base <- pop; do exponent <- pop; do_ push (fst (Exp base exponent)); ret [].

Definition opSignExtend : executionFunc := fun _ _ =>
  do back <- pop;
  if back <? 31 then
    let bit := u64 (Uint64 back * 8 + 7) in
    do num <- pop;
    let mask := Z.shiftl 1 bit - 1 in
    let num := if Z.testbit num bit then Z.lor num (Z.lnot mask) else Z.land num mask in
    do_ push (U256 num);
    ret []
  else ret [].

Definition opNot : executionFunc := fun _ _ => do x <- pop; do_ push (U256 (Z.lnot x)); ret [].

Definition opLt : executionFunc := fun _ _ =>
  do x <- pop; do y <- pop; do_ push (bool_word (x <? y)); ret [].

Definition opGt : executionFunc := fun _ _ =>
  do x <- pop; do y <- pop; do_ push (bool_word (x >? y)); ret [].

Definition opSlt : executionFunc := fun _ _ =>
  do x <- pop; do y <- pop;
  let x := S256 x in
  let y := S256 y in
  do_ push (bool_word (x <? S256 y)); ret [].

Definition opSgt : executionFunc := fun _ _ =>
  do x <- pop; do y <- pop; do_ push (bool_word (S256 x >? S256 y)); ret [].

Definition opEq : executionFunc := fun _ _ =>
  do x <- pop; do y <- pop; do_ push (bool_word (x =? y)); ret [].

Definition opIszero : executionFunc := fun _ _ =>
  do x <- pop; do_ push (if Sign x >? 0 then 0 else 1); ret [].

Definition opAnd : executionFunc := fun _ _ =>
  do x <- pop; do y <- pop; do_ push (Z.land x y); ret [].

Definition opOr : executionFunc := fun _ _ =>
  do x <- pop; do y <- pop; do_ push (Z.lor x y); ret [].

Definition opXor : executionFunc := fun _ _ =>
  do x <- pop; do y <- pop; do_ push (Z.lxor x y); ret [].

Definition opByte : executionFunc := fun _ _ =>
  do th <- pop; do val <- back 0;
  if th <? 32 then
    do b <- lift (Byte val 32 (Int64 th)); do_ set_top b; ret []
  else do_ set_top 0; ret [].

Definition opAddmod : executionFunc := fun _ _ =>
  do x <- pop; do y <- pop; do z <- pop;
  if z >? 0 then
    do r <- lift (big.Mod (x + y) z); do_ push (U256 r); ret []
  else do_ push 0; ret [].

Definition opMulmod : executionFunc := fun _ _ =>
  do x <- pop; do y <- pop; do z <- pop;
  if z >? 0 then
    do r <- lift (big.Mod (x * y) z); do_ push (U256 r); ret []
  else do_ push 0; ret [].

Definition opSha3 : executionFunc := fun env _ =>
  do offset <- pop; do size <- pop;
  do data <- mget (Int64 offset) (Int64 size);
  let hash := Keccak256 data in
  do_ (if EnablePreimageRecording (vmConfig env) then update (AddPreimage (BytesToHash hash) data) else ret tt);
  do_ push (SetBytes hash);
  ret [].

Definition opAddress : executionFunc := fun _ _ =>
  do c <- reads contract; do_ push (Address_Big (contract_Address c)); ret [].

Definition opBalance : executionFunc := fun _ _ =>
  do a <- pop;
  do balance <- query (GetBalance (BigToAddress a));
  do_ push balance;
  ret [].

Definition opOrigin : executionFunc := fun env _ => do_ push (Address_Big (Origin (context env))); ret [].

Definition opCaller : executionFunc := fun _ _ =>
  do c <- reads contract; do_ push (Address_Big (Caller c)); ret [].

(** A [nil] value is a nil dereference. *)
Definition opCallValue : executionFunc := fun _ _ =>
  do c <- reads contract;
  do v <- lift (match value c with Some v => Ret v | None => Panic end);
  do_ push v;
  ret [].

Definition opCallDataLoad : executionFunc := fun _ _ =>
  do c <- reads contract;
  do off <- pop;
  do d <- lift (getDataBig (Input c) off 32);
  do_ push (SetBytes d);
  ret [].

Definition opCallDataSize : executionFunc := fun _ _ =>
  do c <- reads contract; do_ push (len (Input c)); ret [].

Definition opCallDataCopy : executionFunc := fun _ _ =>
  do memOffset <- pop; do dataOffset <- pop; do length <- pop;
  do c <- reads contract;
  do d <- lift (getDataBig (Input c) dataOffset length);
  do_ mset (Uint64 memOffset) (Uint64 length) d;
  ret [].

Definition opReturnDataSize : executionFunc := fun _ _ =>
  do e <- reads evm; do_ push (u64 (len (returnData e))); ret [].

Definition opReturnDataCopy : executionFunc := fun _ _ =>
  do memOffset <- pop; do dataOffset <- pop; do length <- pop;
  let end_ := dataOffset + length in
  do e <- reads evm;
  if (BitLen end_ >? 64) || (u64 (len (returnData e)) <? Uint64 end_) then throw errReturnDataOutOfBounds
  else
    do d <- lift (slice (returnData e) (Uint64 dataOffset) (Uint64 end_));
    do_ mset (Uint64 memOffset) (Uint64 length) d;
    ret [].

Definition opExtCodeSize : executionFunc := fun _ _ =>
  do a <- pop;
  do size <- query (GetCodeSize (BigToAddress a));
  do_ push size;
  ret [].

Definition opCodeSize : executionFunc := fun _ _ =>
  do c <- reads contract; do_ push (len (Code c)); ret [].

Definition opCodeCopy : executionFunc := fun _ _ =>
  do memOffset <- pop; do codeOffset <- pop; do length <- pop;
  do c <- reads contract;
  do codeCopy <- lift (getDataBig (Code c) codeOffset length);
  do_ mset (Uint64 memOffset) (Uint64 length) codeCopy;
  ret [].

Definition opExtCodeCopy : executionFunc := fun _ _ =>
  do a <- pop;
  let addr := BigToAddress a in
  do memOffset <- pop; do codeOffset <- pop; do length <- pop;
  do code <- query (GetCode addr);
  do codeCopy <- lift (getDataBig code codeOffset length);
  do_ mset (Uint64 memOffset) (Uint64 length) codeCopy;
  ret [].

Definition opGasprice : executionFunc := fun env _ => do_ push (GasPrice (context env)); ret [].

Definition opBlockhash : executionFunc := fun env _ =>
  do num <- pop;
  let n := BlockNumber (context env) - 257 in
  do_ push (if (num >? n) && (num <? BlockNumber (context env)) then Hash_Big (GetHash (context env) (Uint64 num))
            else 0);
  ret [].

Definition opCoinbase : executionFunc := fun env _ => do_ push (Address_Big (Coinbase (context env))); ret [].
Definition opTimestamp : executionFunc := fun env _ => do_ push (U256 (Time (context env))); ret [].
Definition opNumber : executionFunc := fun env _ => do_ push (U256 (BlockNumber (context env))); ret [].
Definition opDifficulty : executionFunc := fun env _ => do_ push (U256 (Difficulty (context env))); ret [].
Definition opGasLimit : executionFunc := fun env _ => do_ push (U256 (GasLimit (context env))); ret [].

Definition opPop : executionFunc := fun _ _ => do_ pop; ret [].

Definition opMload : executionFunc := fun _ _ =>
  do offset <- pop;
  do val <- mget (Int64 offset) 32;
  do_ push (SetBytes val);
  ret [].

Definition opMstore : executionFunc := fun _ _ =>
  do mStart <- pop; do val <- pop;
  do_ mset (Uint64 mStart) 32 (PaddedBigBytes val 32);
  ret [].

(** [memory.store[off] = byte(val & 0xff)] *)
Definition opMstore8 : executionFunc := fun _ _ =>
  do off <- pop; do val <- pop;
  let off := Int64 off in
  let val := Int64 val in
  do m <- reads mem;
  do _ <- lift (index (store m) off);
  do_ modify (fun f => set_mem f (set_store m (set_nth (Z.to_nat off) (u8 (Z.land val 0xff)) (store m))));
  ret [].

Definition opSload : executionFunc := fun _ _ =>
  do a <- pop;
  do c <- reads contract;
  do val <- query (GetState (contract_Address c) (BigToHash a));
  do_ push (Hash_Big val);
  ret [].

Definition opSstore : executionFunc := fun _ _ =>
  do a <- pop;
  let loc := BigToHash a in
  do val <- pop;
  do c <- reads contract;
  do_ update (SetState (contract_Address c) loc (BigToHash val));
  ret [].

(** [contract.jumpdests.has(contract.CodeHash, contract.Code, pos)] *)
Definition has_dest (pos : Z) : M S bool := fun f =>
  match has (dests (evm f)) (CodeHash (contract f)) (Code (contract f)) pos with
  | Ret (b, d) => Done (set_evm f (set_dests (evm f) d), Ok b)
  | Panic => Crash PDests
  end.

Definition jump_to (pos : Z) : M S unit :=
  do valid <- has_dest pos;
  if negb valid then
    do c <- reads contract;
    do nop <- lift (GetOp c (Uint64 pos));
    throw (errInvalidJump nop pos)
  else modify (fun f => set_pc f (Uint64 pos)).

Definition opJump : executionFunc := fun _ _ => do pos <- pop; do_ jump_to pos; ret [].

Definition opJumpi : executionFunc := fun _ _ =>
  do pos <- pop; do cond <- pop;
  do_ (if negb (Sign cond =? 0) then jump_to pos else modify (fun f => set_pc f (u64 (pc f + 1))));
  ret [].

Definition opJumpdest : executionFunc := fun _ _ => ret [].

Definition opPc : executionFunc := fun _ _ => do p <- reads pc; do_ push p; ret [].
Definition opMsize : executionFunc := fun _ _ => do m <- reads mem; do_ push (memory.Len m); ret [].
Definition opGas : executionFunc := fun _ _ => do c <- reads contract; do_ push (Gas c); ret [].

Definition err_is (p : vmErr -> bool) (err : option vmErr) : bool := match err with Some e => p e | None => false end.

Definition opCreate : executionFunc := fun env call =>
  do value <- pop; do offset <- pop; do size <- pop;
  do input <- mget (Int64 offset) (Int64 size);
  do c <- reads contract;
  let gas := Gas c in
  let gas := if IsEIP150 (chainConfig env) (Some (BlockNumber (context env))) then u64 (gas - gas / 64) else gas in
  do _ <- use_gas gas;
  do c <- reads contract;
  do (addr, (res, returnGas, suberr)) <- calls (c_Create call (contract_ref c) input gas value);
  do_ push
    (if IsHomestead (chainConfig env) (Some (BlockNumber (context env))) && err_is is_codestore suberr then 0
     else if match suberr with Some e => negb (is_codestore e) | None => false end then 0
     else Address_Big addr);
  do_ add_gas returnGas;
  ret (if err_is is_reverted suberr then res else []).

(** What the four calls do with the result. *)
Definition call_return (retOffset retSize : Z) (r : call_result) : M S (list Z) :=
  let '(res, returnGas, err) := r in
  do_ push (match err with Some _ => 0 | None => 1 end);
  do_ (if match err with None => true | Some e => is_reverted e end then mset (Uint64 retOffset) (Uint64 retSize) res
       else ret tt);
  do_ add_gas returnGas;
  ret res.

Definition opCall : executionFunc := fun _ call =>
  do gas <- pop;
  let gas := Uint64 gas in
  do addr <- pop; do value <- pop;
  let value := U256 value in
  do inOffset <- pop; do inSize <- pop;
  do retOffset <- pop; do retSize <- pop;
  let address := BigToAddress addr in
  do args <- mget (Int64 inOffset) (Int64 inSize);
  let gas := if negb (Sign value =? 0) then u64 (gas + CallStipend) else gas in
  do c <- reads contract;
  do r <- calls (c_Call call (contract_ref c) address args gas value);
  call_return retOffset retSize r.

Definition opCallCode : executionFunc := fun _ call =>
  do gas <- pop;
  let gas := Uint64 gas in
  do addr <- pop; do value <- pop;
  let value := U256 value in
  do inOffset <- pop; do inSize <- pop;
  do retOffset <- pop; do retSize <- pop;
  let address := BigToAddress addr in
  do args <- mget (Int64 inOffset) (Int64 inSize);
  let gas := if negb (Sign value =? 0) then u64 (gas + CallStipend) else gas in
  do c <- reads contract;
  do r <- calls (c_CallCode call (contract_ref c) address args gas value);
  call_return retOffset retSize r.

Definition opDelegateCall : executionFunc := fun _ call =>
  do gas <- pop;
  let gas := Uint64 gas in
  do to <- pop; do inOffset <- pop; do inSize <- pop; do outOffset <- pop; do outSize <- pop;
  let toAddr := BigToAddress to in
  do args <- mget (Int64 inOffset) (Int64 inSize);
  do c <- reads contract;
  do r <- calls (c_DelegateCall call (contract_ref c) toAddr args gas);
  call_return outOffset outSize r.

Definition opStaticCall : executionFunc := fun _ call =>
  do gas <- pop;
  let gas := Uint64 gas in
  do addr <- pop; do inOffset <- pop; do inSize <- pop; do retOffset <- pop; do retSize <- pop;
  let address := BigToAddress addr in
  do args <- mget (Int64 inOffset) (Int64 inSize);
  do c <- reads contract;
  do r <- calls (c_StaticCall call (contract_ref c) address args gas);
  call_return retOffset retSize r.

Definition opReturn : executionFunc := fun _ _ =>
  do offset <- pop; do size <- pop;
  do m <- reads mem;
  lift (memory.GetPtr m (Int64 offset) (Int64 size)).

Definition opRevert : executionFunc := fun _ _ =>
  do offset <- pop; do size <- pop;
  do m <- reads mem;
  lift (memory.GetPtr m (Int64 offset) (Int64 size)).

Definition opStop : executionFunc := fun _ _ => ret [].

Definition opSuicide : executionFunc := fun _ _ =>
  do c <- reads contract;
  do balance <- query (GetBalance (contract_Address c));
  do a <- pop;
  do_ update (AddBalance (BigToAddress a) balance);
  do _ <- query (Suicide (contract_Address c));
  ret [].

Fixpoint pop_topics (n : nat) : M S (list Hash) :=
  match n with
  | O => ret []
  | Datatypes.S n => do t <- pop; do ts <- pop_topics n; ret (BigToHash t :: ts)
  end.

Definition makeLog (size : nat) : executionFunc := fun env _ =>
  do mStart <- pop; do mSize <- pop;
  do topics <- pop_topics size;
  do d <- mget (Int64 mStart) (Int64 mSize);
  do c <- reads contract;
  do_ update (AddLog (mkLog (contract_Address c) topics d (Uint64 (BlockNumber (context env))) 0 0 0 0));
  ret [].

Definition makePush (size pushByteSize : Z) : executionFunc := fun _ _ =>
  do c <- reads contract;
  do p <- reads pc;
  let codeLen := len (Code c) in
  let startMin := if i64 (u64 (p + 1)) <? codeLen then i64 (u64 (p + 1)) else codeLen in
  let endMin := if i64 (startMin + pushByteSize) <? codeLen then i64 (startMin + pushByteSize) else codeLen in
  do d <- lift (slice (Code c) startMin endMin);
  do_ push (SetBytes (RightPadBytes d pushByteSize));
  do_ modify (fun f => set_pc f (u64 (pc f + size)));
  ret [].

Definition makeDup (size : Z) : executionFunc := fun _ _ f =>
  match stack.dup (stk f) size with
  | Ret st => Done (set_stk f st, Ok [])
  | Panic => Crash PIndex
  end.

Definition makeSwap (size : Z) : executionFunc :=
  let size := size + 1 in
  fun _ _ f =>
  match stack.swap (stk f) size with
  | Ret st => Done (set_stk f st, Ok [])
  | Panic => Crash PIndex
  end.

End instructions.
#[global] Arguments executionFunc S : clear implicits.

(** The bodies of the instructions. *)
Create HintDb vmops.
#[export] Hint Unfold opAdd opSub opMul opDiv opSdiv opMod opSmod opExp opSignExtend opNot opLt opGt opSlt opSgt
  opEq opIszero opAnd opOr opXor opByte opAddmod opMulmod opSha3 opAddress opBalance opOrigin opCaller opCallValue
  opCallDataLoad opCallDataSize opCallDataCopy opReturnDataSize opReturnDataCopy opExtCodeSize opCodeSize
  opCodeCopy opExtCodeCopy opGasprice opBlockhash opCoinbase opTimestamp opNumber opDifficulty opGasLimit opPop
  opMload opMstore opMstore8 opSload opSstore jump_to opJump opJumpi opJumpdest opPc opMsize opGas opCreate
  call_return opCall opCallCode opDelegateCall opStaticCall opReturn opRevert opStop opSuicide makeLog makePush :
  vmops.
