(* ===== verification/VmJumpTable.v ===== *)
(** * Package [vm]: the jump tables

    [core/vm/jump_table.go].  An instruction set is the list of its entries; an
    opcode without entry has the zero [operation], which is not valid.  The
    entries of the frontier set stand in groups in the order of the source. *)

From Stdlib Require Import ZArith List Lia Bool.
From S2P Require Import Prelude GoBig CommonTypes Params VmContract VmMemory VmOpcodes VmState VmGas VmOps.
Import ListNotations.
Local Open Scope Z_scope.

Section tables.
Context {S : Type} {DB : StateDB S}.
Variable Keccak256 : list Z -> list Z.

Record operation : Type := mkOperation {
  execute : executionFunc S;
  gasCost : gasFunc S;
  validateStack : Stack -> option vmErr;
  memorySize : option (Stack -> outcome Z);
  halts : bool;
  jumps : bool;
  writes : bool;
  valid : bool;
  reverts : bool;
  op_returns : bool }.

(** [operation{}]: calling one of its nil functions would panic. *)
Definition zero_operation : operation :=
  mkOperation (fun _ _ _ => Crash PIndex) (fun _ _ _ _ => Crash PIndex) (fun _ => None) None false false false false false false.

(** A literal of the table with [valid: true] and the flags it sets. *)
Inductive flag : Type := Halts | Jumps | Writes | Reverts | Returns.
Definition flag_eqb (a b : flag) : bool :=
  match a, b with
  | Halts, Halts | Jumps, Jumps | Writes, Writes | Reverts, Reverts | Returns, Returns => true
  | _, _ => false
  end.
Definition entry (ex : executionFunc S) (gas : gasFunc S) (vs : Stack -> option vmErr)
    (ms : option (Stack -> outcome Z)) (flags : list flag) : operation :=
  let has x := existsb (flag_eqb x) flags in
  mkOperation ex gas vs ms (has Halts) (has Jumps) (has Writes) true (has Reverts) (has Returns).

Definition InstructionSet : Type := list (Z * operation).

(** [instructionSet[op]] *)
Fixpoint lookup (t : InstructionSet) (op : Z) : operation :=
  match t with
  | [] => zero_operation
  | (o, e) :: t => if o =? op then e else lookup t op
  end.

Definition arithmetic_set : list (Z * operation) :=
  [ (STOP : Z, entry opStop (constGasFunc 0) (makeStackFunc 0 0) None [Halts])
  ; (ADD : Z, entry opAdd (constGasFunc GasFastestStep) (makeStackFunc 2 1) None [])
  ; (MUL : Z, entry opMul (constGasFunc GasFastStep) (makeStackFunc 2 1) None [])
  ; (SUB : Z, entry opSub (constGasFunc GasFastestStep) (makeStackFunc 2 1) None [])
  ; (DIV : Z, entry opDiv (constGasFunc GasFastStep) (makeStackFunc 2 1) None [])
  ; (SDIV : Z, entry opSdiv (constGasFunc GasFastStep) (makeStackFunc 2 1) None [])
  ; (MOD : Z, entry opMod (constGasFunc GasFastStep) (makeStackFunc 2 1) None [])
  ; (SMOD : Z, entry opSmod (constGasFunc GasFastStep) (makeStackFunc 2 1) None [])
  ; (ADDMOD : Z, entry opAddmod (constGasFunc GasMidStep) (makeStackFunc 3 1) None [])
  ; (MULMOD : Z, entry opMulmod (constGasFunc GasMidStep) (makeStackFunc 3 1) None [])
  ; (EXP : Z, entry opExp gasExp (makeStackFunc 2 1) None [])
  ; (SIGNEXTEND : Z, entry opSignExtend (constGasFunc GasFastStep) (makeStackFunc 2 1) None [])
  ; (LT : Z, entry opLt (constGasFunc GasFastestStep) (makeStackFunc 2 1) None [])
  ; (GT : Z, entry opGt (constGasFunc GasFastestStep) (makeStackFunc 2 1) None [])
  ; (SLT : Z, entry opSlt (constGasFunc GasFastestStep) (makeStackFunc 2 1) None [])
  ; (SGT : Z, entry opSgt (constGasFunc GasFastestStep) (makeStackFunc 2 1) None [])
  ; (EQ : Z, entry opEq (constGasFunc GasFastestStep) (makeStackFunc 2 1) None [])
  ; (ISZERO : Z, entry opIszero (constGasFunc GasFastestStep) (makeStackFunc 1 1) None [])
  ; (AND : Z, entry opAnd (constGasFunc GasFastestStep) (makeStackFunc 2 1) None [])
  ; (XOR : Z, entry opXor (constGasFunc GasFastestStep) (makeStackFunc 2 1) None [])
  ; (OR : Z, entry opOr (constGasFunc GasFastestStep) (makeStackFunc 2 1) None [])
  ; (NOT : Z, entry opNot (constGasFunc GasFastestStep) (makeStackFunc 1 1) None [])
  ; (BYTE : Z, entry opByte (constGasFunc GasFastestStep) (makeStackFunc 2 1) None [])
  ; (SHA3 : Z, entry (opSha3 Keccak256) gasSha3 (makeStackFunc 2 1) (Some memorySha3) []) ].

Definition environment_set : list (Z * operation) :=
  [ (ADDRESS : Z, entry opAddress (constGasFunc GasQuickStep) (makeStackFunc 0 1) None [])
  ; (BALANCE : Z, entry opBalance gasBalance (makeStackFunc 1 1) None [])
  ; (ORIGIN : Z, entry opOrigin (constGasFunc GasQuickStep) (makeStackFunc 0 1) None [])
  ; (CALLER : Z, entry opCaller (constGasFunc GasQuickStep) (makeStackFunc 0 1) None [])
  ; (CALLVALUE : Z, entry opCallValue (constGasFunc GasQuickStep) (makeStackFunc 0 1) None [])
  ; (CALLDATALOAD : Z, entry opCallDataLoad (constGasFunc GasFastestStep) (makeStackFunc 1 1) None [])
  ; (CALLDATASIZE : Z, entry opCallDataSize (constGasFunc GasQuickStep) (makeStackFunc 0 1) None [])
  ; (CALLDATACOPY : Z, entry opCallDataCopy gasCallDataCopy (makeStackFunc 3 0) (Some memoryCallDataCopy) [])
  ; (CODESIZE : Z, entry opCodeSize (constGasFunc GasQuickStep) (makeStackFunc 0 1) None [])
  ; (CODECOPY : Z, entry opCodeCopy gasCodeCopy (makeStackFunc 3 0) (Some memoryCodeCopy) [])
  ; (GASPRICE : Z, entry opGasprice (constGasFunc GasQuickStep) (makeStackFunc 0 1) None [])
  ; (EXTCODESIZE : Z, entry opExtCodeSize gasExtCodeSize (makeStackFunc 1 1) None [])
  ; (EXTCODECOPY : Z, entry opExtCodeCopy gasExtCodeCopy (makeStackFunc 4 0) (Some memoryExtCodeCopy) [])
  ; (BLOCKHASH : Z, entry opBlockhash (constGasFunc GasExtStep) (makeStackFunc 1 1) None [])
  ; (COINBASE : Z, entry opCoinbase (constGasFunc GasQuickStep) (makeStackFunc 0 1) None [])
  ; (TIMESTAMP : Z, entry opTimestamp (constGasFunc GasQuickStep) (makeStackFunc 0 1) None [])
  ; (NUMBER : Z, entry opNumber (constGasFunc GasQuickStep) (makeStackFunc 0 1) None [])
  ; (DIFFICULTY : Z, entry opDifficulty (constGasFunc GasQuickStep) (makeStackFunc 0 1) None [])
  ; (GASLIMIT : Z, entry opGasLimit (constGasFunc GasQuickStep) (makeStackFunc 0 1) None [])
  ; (POP : Z, entry opPop (constGasFunc GasQuickStep) (makeStackFunc 1 0) None [])
  ; (MLOAD : Z, entry opMload gasMLoad (makeStackFunc 1 1) (Some memoryMLoad) [])
  ; (MSTORE : Z, entry opMstore gasMStore (makeStackFunc 2 0) (Some memoryMStore) [])
  ; (MSTORE8 : Z, entry opMstore8 gasMStore8 (makeStackFunc 2 0) (Some memoryMStore8) []) ].

Definition storage_set : list (Z * operation) :=
  [ (SLOAD : Z, entry opSload gasSLoad (makeStackFunc 1 1) None [])
  ; (SSTORE : Z, entry opSstore gasSStore (makeStackFunc 2 0) None [Writes])
  ; (JUMP : Z, entry opJump (constGasFunc GasMidStep) (makeStackFunc 1 0) None [Jumps])
  ; (JUMPI : Z, entry opJumpi (constGasFunc GasSlowStep) (makeStackFunc 2 0) None [Jumps])
  ; (PC : Z, entry opPc (constGasFunc GasQuickStep) (makeStackFunc 0 1) None [])
  ; (MSIZE : Z, entry opMsize (constGasFunc GasQuickStep) (makeStackFunc 0 1) None [])
  ; (GAS : Z, entry opGas (constGasFunc GasQuickStep) (makeStackFunc 0 1) None [])
  ; (JUMPDEST : Z, entry opJumpdest (constGasFunc JumpdestGas) (makeStackFunc 0 0) None []) ].

Definition push_set : list (Z * operation) :=
  [ (PUSH1 : Z, entry (makePush 1 1) gasPush (makeStackFunc 0 1) None [])
  ; (PUSH2 : Z, entry (makePush 2 2) gasPush (makeStackFunc 0 1) None [])
  ; (PUSH3 : Z, entry (makePush 3 3) gasPush (makeStackFunc 0 1) None [])
  ; (PUSH4 : Z, entry (makePush 4 4) gasPush (makeStackFunc 0 1) None [])
  ; (PUSH5 : Z, entry (makePush 5 5) gasPush (makeStackFunc 0 1) None [])
  ; (PUSH6 : Z, entry (makePush 6 6) gasPush (makeStackFunc 0 1) None [])
  ; (PUSH7 : Z, entry (makePush 7 7) gasPush (makeStackFunc 0 1) None [])
  ; (PUSH8 : Z, entry (makePush 8 8) gasPush (makeStackFunc 0 1) None [])
  ; (PUSH9 : Z, entry (makePush 9 9) gasPush (makeStackFunc 0 1) None [])
  ; (PUSH10 : Z, entry (makePush 10 10) gasPush (makeStackFunc 0 1) None [])
  ; (PUSH11 : Z, entry (makePush 11 11) gasPush (makeStackFunc 0 1) None [])
  ; (PUSH12 : Z, entry (makePush 12 12) gasPush (makeStackFunc 0 1) None [])
  ; (PUSH13 : Z, entry (makePush 13 13) gasPush (makeStackFunc 0 1) None [])
  ; (PUSH14 : Z, entry (makePush 14 14) gasPush (makeStackFunc 0 1) None [])
  ; (PUSH15 : Z, entry (makePush 15 15) gasPush (makeStackFunc 0 1) None [])
  ; (PUSH16 : Z, entry (makePush 16 16) gasPush (makeStackFunc 0 1) None [])
  ; (PUSH17 : Z, entry (makePush 17 17) gasPush (makeStackFunc 0 1) None [])
  ; (PUSH18 : Z, entry (makePush 18 18) gasPush (makeStackFunc 0 1) None [])
  ; (PUSH19 : Z, entry (makePush 19 19) gasPush (makeStackFunc 0 1) None [])
  ; (PUSH20 : Z, entry (makePush 20 20) gasPush (makeStackFunc 0 1) None [])
  ; (PUSH21 : Z, entry (makePush 21 21) gasPush (makeStackFunc 0 1) None [])
  ; (PUSH22 : Z, entry (makePush 22 22) gasPush (makeStackFunc 0 1) None [])
  ; (PUSH23 : Z, entry (makePush 23 23) gasPush (makeStackFunc 0 1) None [])
  ; (PUSH24 : Z, entry (makePush 24 24) gasPush (makeStackFunc 0 1) None [])
  ; (PUSH25 : Z, entry (makePush 25 25) gasPush (makeStackFunc 0 1) None [])
  ; (PUSH26 : Z, entry (makePush 26 26) gasPush (makeStackFunc 0 1) None [])
  ; (PUSH27 : Z, entry (makePush 27 27) gasPush (makeStackFunc 0 1) None [])
  ; (PUSH28 : Z, entry (makePush 28 28) gasPush (makeStackFunc 0 1) None [])
  ; (PUSH29 : Z, entry (makePush 29 29) gasPush (makeStackFunc 0 1) None [])
  ; (PUSH30 : Z, entry (makePush 30 30) gasPush (makeStackFunc 0 1) None [])
  ; (PUSH31 : Z, entry (makePush 31 31) gasPush (makeStackFunc 0 1) None [])
  ; (PUSH32 : Z, entry (makePush 32 32) gasPush (makeStackFunc 0 1) None []) ].

Definition dup_set : list (Z * operation) :=
  [ (DUP1 : Z, entry (makeDup 1) gasDup (makeDupStackFunc 1) None [])
  ; (DUP2 : Z, entry (makeDup 2) gasDup (makeDupStackFunc 2) None [])
  ; (DUP3 : Z, entry (makeDup 3) gasDup (makeDupStackFunc 3) None [])
  ; (DUP4 : Z, entry (makeDup 4) gasDup (makeDupStackFunc 4) None [])
  ; (DUP5 : Z, entry (makeDup 5) gasDup (makeDupStackFunc 5) None [])
  ; (DUP6 : Z, entry (makeDup 6) gasDup (makeDupStackFunc 6) None [])
  ; (DUP7 : Z, entry (makeDup 7) gasDup (makeDupStackFunc 7) None [])
  ; (DUP8 : Z, entry (makeDup 8) gasDup (makeDupStackFunc 8) None [])
  ; (DUP9 : Z, entry (makeDup 9) gasDup (makeDupStackFunc 9) None [])
  ; (DUP10 : Z, entry (makeDup 10) gasDup (makeDupStackFunc 10) None [])
  ; (DUP11 : Z, entry (makeDup 11) gasDup (makeDupStackFunc 11) None [])
  ; (DUP12 : Z, entry (makeDup 12) gasDup (makeDupStackFunc 12) None [])
  ; (DUP13 : Z, entry (makeDup 13) gasDup (makeDupStackFunc 13) None [])
  ; (DUP14 : Z, entry (makeDup 14) gasDup (makeDupStackFunc 14) None [])
  ; (DUP15 : Z, entry (makeDup 15) gasDup (makeDupStackFunc 15) None [])
  ; (DUP16 : Z, entry (makeDup 16) gasDup (makeDupStackFunc 16) None []) ].

Definition swap_set : list (Z * operation) :=
  [ (SWAP1 : Z, entry (makeSwap 1) gasSwap (makeSwapStackFunc 2) None [])
  ; (SWAP2 : Z, entry (makeSwap 2) gasSwap (makeSwapStackFunc 3) None [])
  ; (SWAP3 : Z, entry (makeSwap 3) gasSwap (makeSwapStackFunc 4) None [])
  ; (SWAP4 : Z, entry (makeSwap 4) gasSwap (makeSwapStackFunc 5) None [])
  ; (SWAP5 : Z, entry (makeSwap 5) gasSwap (makeSwapStackFunc 6) None [])
  ; (SWAP6 : Z, entry (makeSwap 6) gasSwap (makeSwapStackFunc 7) None [])
  ; (SWAP7 : Z, entry (makeSwap 7) gasSwap (makeSwapStackFunc 8) None [])
  ; (SWAP8 : Z, entry (makeSwap 8) gasSwap (makeSwapStackFunc 9) None [])
  ; (SWAP9 : Z, entry (makeSwap 9) gasSwap (makeSwapStackFunc 10) None [])
  ; (SWAP10 : Z, entry (makeSwap 10) gasSwap (makeSwapStackFunc 11) None [])
  ; (SWAP11 : Z, entry (makeSwap 11) gasSwap (makeSwapStackFunc 12) None [])
  ; (SWAP12 : Z, entry (makeSwap 12) gasSwap (makeSwapStackFunc 13) None [])
  ; (SWAP13 : Z, entry (makeSwap 13) gasSwap (makeSwapStackFunc 14) None [])
  ; (SWAP14 : Z, entry (makeSwap 14) gasSwap (makeSwapStackFunc 15) None [])
  ; (SWAP15 : Z, entry (makeSwap 15) gasSwap (makeSwapStackFunc 16) None [])
  ; (SWAP16 : Z, entry (makeSwap 16) gasSwap (makeSwapStackFunc 17) None []) ].

Definition log_set : list (Z * operation) :=
  [ (LOG0 : Z, entry (makeLog 0) (makeGasLog 0) (makeStackFunc 2 0) (Some memoryLog) [Writes])
  ; (LOG1 : Z, entry (makeLog 1) (makeGasLog 1) (makeStackFunc 3 0) (Some memoryLog) [Writes])
  ; (LOG2 : Z, entry (makeLog 2) (makeGasLog 2) (makeStackFunc 4 0) (Some memoryLog) [Writes])
  ; (LOG3 : Z, entry (makeLog 3) (makeGasLog 3) (makeStackFunc 5 0) (Some memoryLog) [Writes])
  ; (LOG4 : Z, entry (makeLog 4) (makeGasLog 4) (makeStackFunc 6 0) (Some memoryLog) [Writes]) ].

Definition call_set : list (Z * operation) :=
  [ (CREATE : Z, entry opCreate gasCreate (makeStackFunc 3 1) (Some memoryCreate) [Writes; Returns])
  ; (CALL : Z, entry opCall gasCall (makeStackFunc 7 1) (Some memoryCall) [Returns])
  ; (CALLCODE : Z, entry opCallCode gasCallCode (makeStackFunc 7 1) (Some memoryCall) [Returns])
  ; (RETURN : Z, entry opReturn gasReturn (makeStackFunc 2 0) (Some memoryReturn) [Halts])
  ; (SELFDESTRUCT : Z, entry opSuicide gasSuicide (makeStackFunc 1 0) None [Halts; Writes]) ].

Definition NewFrontierInstructionSet : InstructionSet :=
  arithmetic_set ++ environment_set ++ storage_set ++ push_set ++ dup_set ++ swap_set ++ log_set ++ call_set.

Definition NewHomesteadInstructionSet : InstructionSet :=
  (DELEGATECALL : Z, entry opDelegateCall gasDelegateCall (makeStackFunc 6 1) (Some memoryDelegateCall) [Returns])
  :: NewFrontierInstructionSet.

Definition NewMetropolisInstructionSet : InstructionSet :=
  (REVERT : Z, entry opRevert gasRevert (makeStackFunc 2 0) (Some memoryRevert) [Reverts; Returns])
  :: (RETURNDATACOPY : Z, entry opReturnDataCopy gasReturnDataCopy (makeStackFunc 3 0) (Some memoryReturnDataCopy) [])
  :: (RETURNDATASIZE : Z, entry opReturnDataSize (constGasFunc GasQuickStep) (makeStackFunc 0 1) None [])
  :: (STATICCALL : Z, entry opStaticCall gasStaticCall (makeStackFunc 6 1) (Some memoryStaticCall) [Returns])
  :: NewHomesteadInstructionSet.

End tables.
#[global] Arguments operation S : clear implicits.
#[global] Arguments InstructionSet S : clear implicits.
