(* ===== verification/VmInterp.v ===== *)
(** * Package [vm]: the interpreter and the EVM

    [core/vm/interpreter.go] and [core/vm/evm.go].  [Run] and the calls are
    mutually recursive through the instructions; the loop of [Run] is recursive
    on fuel, one unit per instruction, and every call an instruction makes runs
    with the fuel that is left.  The precompiled contracts are arguments: the two
    tables of [Precompiles.v] are put in [VmTheorems.v].

    Not modelled: the tracer ([cfg.Debug]), which only observes, and the check of
    the integer pool ([verifyPool], a build flag). *)

From Stdlib Require Import ZArith List Lia Bool.
From S2P Require Import Prelude GoBig ByteBuf VmCommon CommonTypes Params Rlp VmContract Precompiles.
From S2P Require Import VmMemory VmOpcodes VmState VmGas VmOps VmJumpTable.
Import ListNotations.
Local Open Scope Z_scope.

Section interpreter.
Context {S : Type} {DB : StateDB S}.
Variable Keccak256 : list Z -> list Z.
(** [PrecompiledContractsHomestead] and [PrecompiledContractsMetropolis] *)
Variables homestead metropolis : Address -> option PrecompiledContract.

Definition Keccak256Hash (data : list Z) : Hash := BytesToHash (Keccak256 data).

(** [crypto.CreateAddress] *)
Definition CreateAddress (b : Address) (nonce : Z) : outcome Address :=
  let! r := EncodeToBytes (VList [VBytes (Address_Bytes b); VUint nonce]) in
  let data := match r with Ok d => d | Err _ => [] end in
  let! h := slice (Keccak256 data) 12 (len (Keccak256 data)) in
  Ret (BytesToAddress h).

(** [emptyCodeHash] *)
Definition emptyCodeHash : Hash := Keccak256Hash [].

Record Interpreter : Type := mkInterpreter { JumpTable : InstructionSet S; in_gasTable : GasTable }.

(** The jump table given in the configuration is used when its [STOP] is valid. *)
Definition NewInterpreter (env : Env S) (table : InstructionSet S) : Interpreter :=
  let num := Some (BlockNumber (context env)) in
  let table :=
    if negb (valid (lookup table STOP)) then
      if IsMetropolis (chainConfig env) num then NewMetropolisInstructionSet Keccak256
      else if IsHomestead (chainConfig env) num then NewHomesteadInstructionSet Keccak256
      else NewFrontierInstructionSet Keccak256
    else table in
  mkInterpreter table (gasTable (chainConfig env) num).

(** What [NewEVM] builds: the constants, the interpreter and the first state. *)
Definition NewEVM (ctx : Context S) (s : S) (config : ChainConfig) (vmConfig : Config) (table : InstructionSet S)
    (abort : nat -> Z) : Env S * Interpreter * EVM S :=
  let env := mkEnv ctx config (rules config (Some (BlockNumber ctx))) vmConfig abort in
  (env, NewInterpreter env table, mkEVM s 0 false [] [] 0).

Variable env : Env S.
Variable interp : Interpreter.

Definition enforceRestrictions (op : Z) (o : operation S) (e : EVM S) (st : Stack) : outcome (option vmErr) :=
  if r_IsMetropolis (chainRules env) then
    if readOnly e then
      if writes o then Ret (Some errWriteProtection)
      else if op =? CALL then
        let! v := stack.Back st 2 in
        Ret (if BitLen v >? 0 then Some errWriteProtection else None)
      else Ret None
    else Ret None
  else Ret None.

(** The memory an operation asks for, in bytes, a multiple of 32. *)
Definition memory_size (o : operation S) (st : Stack) : outcome (result Z vmErr) :=
  match memorySize o with
  | None => Ret (Ok 0)
  | Some ms =>
      let! n := ms st in
      let '(memSize, overflow) := bigUint64 n in
      if overflow then Ret (Err errGasUintOverflow)
      else
        let '(memorySize, overflow) := SafeMul (toWordSize memSize) 32 in
        if overflow then Ret (Err errGasUintOverflow) else Ret (Ok memorySize)
  end.

(** [ret] and [err] of [Run]. *)
Definition run_result : Type := list Z * option vmErr.

(** The rest of an iteration once the gas is paid: resize, execute, and the
    [switch]; [inl] goes on with the loop. *)
Definition execute_op (call : CallOps S) (o : operation S) (memorySize : Z) (f : Frame S)
    : run (Frame S * (unit + run_result)) :=
  let f := if memorySize >? 0 then set_mem f (memory.Resize (mem f) memorySize) else f in
  match execute o env call f with
  | Crash p => Crash p
  | Fuel => Fuel
  | Done (f, r) =>
      let res := match r with Ok res => res | Err _ => [] end in
      let f := if op_returns o then set_evm f (set_returnData (evm f) res) else f in
      match r with
      | Err e => Done (f, inr ([], Some e))
      | Ok res =>
          if reverts o then Done (f, inr (res, Some errExecutionReverted))
          else if halts o then Done (f, inr (res, None))
          else if negb (jumps o) then Done (set_pc f (u64 (pc f + 1)), inl tt)
          else Done (f, inl tt)
      end
  end.

(** The body of the loop after the load of [abort]. *)
Definition step (call : CallOps S) (f : Frame S) : run (Frame S * (unit + run_result)) :=
  rbind (of_outcome PIndex (GetOp (contract f) (pc f))) (fun op =>
  let o := lookup (JumpTable interp) op in
  rbind (of_outcome PRestrict (enforceRestrictions op o (evm f) (stk f))) (fun err =>
  match err with
  | Some e => Done (f, inr ([], Some e))
  | None =>
      if negb (valid o) then Done (f, inr ([], Some (errInvalidOpcode op)))
      else
        match validateStack o (stk f) with
        | Some e => Done (f, inr ([], Some e))
        | None =>
            rbind (of_outcome PIndex (memory_size o (stk f))) (fun r =>
            match r with
            | Err e => Done (f, inr ([], Some e))
            | Ok memorySize =>
                if DisableGasMetering (vmConfig env) then execute_op call o memorySize f
                else
                  match gasCost o (in_gasTable interp) env memorySize f with
                  | Crash p => Crash p
                  | Fuel => Fuel
                  | Done (f, Err _) => Done (f, inr ([], Some ErrOutOfGas))
                  | Done (f, Ok cost) =>
                      let '(c, ok) := UseGas (contract f) cost in
                      let f := set_contract f c in
                      if ok then execute_op call o memorySize f else Done (f, inr ([], Some ErrOutOfGas))
                  end
            end)
        end
  end)).

(** ** [Run] and the calls, for a given loop *)

Section calls.
Variable loop : Frame S -> run (Frame S * run_result).

(** [in.Run(snapshot, contract, input)]; the local [codehash] it computes is not used. *)
Definition Interpreter_Run (e : EVM S) (c : Contract) (input : list Z) : run (EVM S * Contract * run_result) :=
  let e := set_returnData (set_depth e (depth e + 1)) [] in
  if len (Code c) =? 0 then Done (set_depth e (depth e - 1), c, ([], None))
  else
    rbind (loop (mkFrame 0 e (set_Input c input) NewMemory stack.newstack)) (fun '(f, r) =>
    Done (set_depth (evm f) (depth (evm f) - 1), contract f, r)).

Definition precompiles : Address -> option PrecompiledContract :=
  if IsMetropolis (chainConfig env) (Some (BlockNumber (context env))) then metropolis else homestead.

(** [run(evm, snapshot, contract, input)] *)
Definition evm_run (e : EVM S) (c : Contract) (input : list Z) : run (EVM S * Contract * run_result) :=
  match (match CodeAddr c with Some a => precompiles a | None => None end) with
  | Some p =>
      rbind (of_outcome PPrecompile (RunPrecompiledContract p input c)) (fun '(r, c) =>
      Done (e, c, match r with Ok out => (out, None) | Err err => ([], Some err) end))
  | None => Interpreter_Run e c input
  end.

(** A query and an update of the state database, outside of a frame. *)
Definition with_db {A B : Type} (q : S -> S * A) (e : EVM S) (k : A -> EVM S -> run B) : run B :=
  let '(s, a) := q (statedb e) in k a (set_statedb e s).
Definition on_db (u : S -> S) (e : EVM S) : EVM S := set_statedb e (u (statedb e)).

(** [NewContract] keeps the jump destinations of a calling contract and makes
    a new map otherwise. *)
Definition new_dests (caller : ContractRef) (e : EVM S) : EVM S :=
  match ref_Contract caller with Some _ => e | None => set_dests e [] end.

(** After [run]: revert on an error, and use up the gas unless it is a revert. *)
Definition finish (snapshot : Z) (e : EVM S) (c : Contract) (r : run_result) : run (EVM S * call_result) :=
  let '(out, err) := r in
  match err with
  | None => Done (e, (out, Gas c, None))
  | Some er =>
      rbind (of_outcome PState (RevertToSnapshot snapshot (statedb e))) (fun s =>
      let c := if negb (is_reverted er) then fst (UseGas c (Gas c)) else c in
      Done (set_statedb e s, (out, Gas c, Some er)))
  end.

(** [contract.SetCallCode(&addr, GetCodeHash(addr), GetCode(addr))] and [run]. *)
Definition call_code (snapshot : Z) (c : Contract) (addr : Address) (input : list Z) (e : EVM S)
    : run (EVM S * call_result) :=
  with_db (GetCodeHash addr) e (fun hash e =>
  with_db (GetCode addr) e (fun code e =>
  rbind (evm_run e (SetCallCode c addr hash code) input) (fun '(e, c, r) =>
  finish snapshot e c r))).

Definition Call (caller : ContractRef) (addr : Address) (input : list Z) (gas value : Z) (e : EVM S)
    : run (EVM S * call_result) :=
  if NoRecursion (vmConfig env) && (depth e >? 0) then Done (e, ([], gas, None))
  else if depth e >? CallCreateDepth then Done (e, ([], gas, Some ErrDepth))
  else
    with_db (CanTransfer (context env) (ref_Address caller) value) e (fun can e =>
    if negb can then Done (e, ([], gas, Some ErrInsufficientBalance))
    else
      let to := AccountRef addr in
      with_db Snapshot e (fun snapshot e =>
      with_db (Exist addr) e (fun found e =>
      if negb found && (match precompiles addr with None => true | Some _ => false end)
         && IsEIP158 (chainConfig env) (Some (BlockNumber (context env))) && (Sign value =? 0)
      then Done (e, ([], gas, None))
      else
        let e := if negb found then on_db (CreateAccount addr) e else e in
        let e := on_db (Transfer (context env) (ref_Address caller) (ref_Address to) value) e in
        let c := NewContract caller to (Some value) gas in
        call_code snapshot c addr input (new_dests caller e)))).

Definition CallCode (caller : ContractRef) (addr : Address) (input : list Z) (gas value : Z) (e : EVM S)
    : run (EVM S * call_result) :=
  if NoRecursion (vmConfig env) && (depth e >? 0) then Done (e, ([], gas, None))
  else if depth e >? CallCreateDepth then Done (e, ([], gas, Some ErrDepth))
  else
    with_db (CanTransfer (context env) (ref_Address caller) value) e (fun can e =>
    if negb can then Done (e, ([], gas, Some ErrInsufficientBalance))
    else
      with_db Snapshot e (fun snapshot e =>
      let to := AccountRef (ref_Address caller) in
      let c := NewContract caller to (Some value) gas in
      call_code snapshot c addr input (new_dests caller e))).

Definition DelegateCall (caller : ContractRef) (addr : Address) (input : list Z) (gas : Z) (e : EVM S)
    : run (EVM S * call_result) :=
  if NoRecursion (vmConfig env) && (depth e >? 0) then Done (e, ([], gas, None))
  else if depth e >? CallCreateDepth then Done (e, ([], gas, Some ErrDepth))
  else
    with_db Snapshot e (fun snapshot e =>
    let to := AccountRef (ref_Address caller) in
    rbind (of_outcome PIndex (AsDelegate (NewContract caller to None gas))) (fun c =>
    call_code snapshot c addr input (new_dests caller e))).

(** The deferred reset of [readOnly] runs when the call that set it returns. *)
Definition StaticCall (caller : ContractRef) (addr : Address) (input : list Z) (gas : Z) (e : EVM S)
    : run (EVM S * call_result) :=
  if NoRecursion (vmConfig env) && (depth e >? 0) then Done (e, ([], gas, None))
  else if depth e >? CallCreateDepth then Done (e, ([], gas, Some ErrDepth))
  else
    let outer := readOnly e in
    let e := set_readOnly e true in
    rbind
      (with_db Snapshot e (fun snapshot e =>
       let to := AccountRef addr in
       let c := NewContract caller to (Some 0) gas in
       call_code snapshot c addr input (new_dests caller e)))
      (fun '(e, r) => Done (if outer then e else set_readOnly e false, r)).

(** The end of [Create] once the deployment code has run. *)
Definition create_finish (snapshot : Z) (contractAddr : Address) (e : EVM S) (c : Contract) (r : run_result)
    : run (EVM S * (Address * call_result)) :=
  let '(out, err) := r in
  let maxCodeSizeExceeded := len out >? MaxCodeSize in
  let '(e, c, err) :=
    match err with
    | None =>
        if negb maxCodeSizeExceeded then
          let createDataGas := u64 (u64 (len out) * CreateDataGas) in
          let '(c, ok) := UseGas c createDataGas in
          if ok then (on_db (db_SetCode contractAddr out) e, c, None) else (e, c, Some ErrCodeStoreOutOfGas)
        else (e, c, None)
    | Some er => (e, c, Some er)
    end in
  let homesteadRules := IsHomestead (chainConfig env) (Some (BlockNumber (context env))) in
  let revert :=
    maxCodeSizeExceeded
    || match err with Some er => homesteadRules || negb (is_codestore er) | None => false end in
  rbind
    (if revert then
       rbind (of_outcome PState (RevertToSnapshot snapshot (statedb e))) (fun s =>
       Done (set_statedb e s, if negb (err_is is_reverted err) then fst (UseGas c (Gas c)) else c))
     else Done (e, c))
    (fun '(e, c) =>
    let err := if maxCodeSizeExceeded && match err with None => true | Some _ => false end
               then Some errMaxCodeSizeExceeded else err in
    Done (e, (contractAddr, (out, Gas c, err)))).

Definition Create (caller : ContractRef) (code : list Z) (gas value : Z) (e : EVM S)
    : run (EVM S * (Address * call_result)) :=
  if NoRecursion (vmConfig env) && (depth e >? 0) then Done (e, (0, ([], gas, None)))
  else if depth e >? CallCreateDepth then Done (e, (0, ([], gas, Some ErrDepth)))
  else
    with_db (CanTransfer (context env) (ref_Address caller) value) e (fun can e =>
    if negb can then Done (e, (0, ([], gas, Some ErrInsufficientBalance)))
    else
      with_db (GetNonce (ref_Address caller)) e (fun nonce e =>
      let e := on_db (SetNonce (ref_Address caller) (u64 (nonce + 1))) e in
      rbind (of_outcome PIndex (CreateAddress (ref_Address caller) nonce)) (fun contractAddr =>
      with_db (GetCodeHash contractAddr) e (fun contractHash e =>
      with_db (GetNonce contractAddr) e (fun n e =>
      if negb (n =? 0) || (negb (contractHash =? 0) && negb (contractHash =? emptyCodeHash))
      then Done (e, (0, ([], 0, Some ErrContractAddressCollision)))
      else
        with_db Snapshot e (fun snapshot e =>
        let e := on_db (CreateAccount contractAddr) e in
        let e := if IsEIP158 (chainConfig env) (Some (BlockNumber (context env)))
                 then on_db (SetNonce contractAddr 1) e else e in
        let e := on_db (Transfer (context env) (ref_Address caller) contractAddr value) e in
        let c := NewContract caller (AccountRef contractAddr) (Some value) gas in
        let c := SetCallCode c contractAddr (Keccak256Hash code) code in
        rbind (evm_run (new_dests caller e) c []) (fun '(e, c, r) =>
        create_finish snapshot contractAddr e c r))))))).

Definition call_ops : CallOps S := mkCalls Call CallCode DelegateCall StaticCall Create.

End calls.

(** ** The loop *)

Fixpoint loop (fuel : nat) (f : Frame S) : run (Frame S * run_result) :=
  match fuel with
  | O => Fuel
  | Datatypes.S fuel =>
      let '(a, e) := LoadAbort env (evm f) in
      let f := set_evm f e in
      if a =? 0 then
        rbind (step (call_ops (loop fuel)) f) (fun '(f, r) =>
        match r with
        | inl _ => loop fuel f
        | inr r => Done (f, r)
        end)
      else Done (f, ([], None))
  end.

End interpreter.
#[global] Arguments Interpreter S : clear implicits.
