(* ===== verification/VmHoare.v ===== *)
(** * Reasoning about frames

    Two program logics for the monad of [VmState.v].  [keeps F R m]: every frame
    [m] ends in is related by [R] to the one it began with, for relations that do
    not look at the stack, the memory or the program counter; instructions are
    then handled by structure alone.  [wp]: the weakest precondition of [m] for
    a postcondition, a set of allowed panics and a condition for running out of
    fuel. *)

From Stdlib Require Import ZArith List Lia Bool RelationClasses.
From S2P Require Import Prelude GoBig VmCommon CommonTypes Params VmContract.
From S2P Require Import VmMemory VmOpcodes VmState VmGas VmOps.
Import ListNotations.
Local Open Scope Z_scope.

Create HintDb keeps.

Section logic.
Context {S : Type} {DB : StateDB S}.

(** ** Relations kept by a computation *)

Definition keeps {A : Type} (F : Prop) (R : Frame S -> Frame S -> Prop) (m : M S A) : Prop :=
  forall f, match m f with Done (f', _) => R f f' | Crash _ => True | Fuel => F end.

(** A preorder on frames that looks neither at stack, memory nor [pc]. *)
Class Lax (R : Frame S -> Frame S -> Prop) : Prop := {
  lax_preorder :: PreOrder R;
  lax_stk f st : R f (set_stk f st);
  lax_mem f m : R f (set_mem f m);
  lax_pc f p : R f (set_pc f p) }.

Section rules.
Context (F : Prop) (R : Frame S -> Frame S -> Prop) {HR : Lax R}.

Lemma keeps_ret {A : Type} (a : A) : keeps F R (ret a).
Proof. intros f. cbn. reflexivity. Qed.

Lemma keeps_throw {A : Type} e : keeps F R (throw (A := A) e).
Proof. intros f. cbn. reflexivity. Qed.

Lemma keeps_reads {A : Type} (g : Frame S -> A) : keeps F R (reads g).
Proof. intros f. cbn. reflexivity. Qed.

Lemma keeps_lift {A : Type} (o : outcome A) : keeps F R (lift o).
Proof. intros f. unfold lift. destruct o; [reflexivity|exact I]. Qed.

Lemma keeps_of_result o : keeps F R (of_result o).
Proof. destruct o; [apply keeps_ret | apply keeps_throw]. Qed.

Lemma keeps_bind {A B : Type} (m : M S A) (k : A -> M S B) :
  keeps F R m -> (forall a, keeps F R (k a)) -> keeps F R (bind m k).
Proof.
  intros Hm Hk f. specialize (Hm f). unfold bind. destruct (m f) as [[f1 [a|e]]|p|]; auto.
  specialize (Hk a f1). destruct (k a f1) as [[f2 r]|p|]; auto. transitivity f1; assumption.
Qed.

Lemma keeps_pop : keeps F R pop.
Proof. intros f. unfold pop, stack.pop. destruct (stk f); [exact I|]. apply lax_stk. Qed.

Lemma keeps_push x : keeps F R (push x).
Proof. intros f. apply lax_stk. Qed.

Lemma keeps_back n : keeps F R (back n).
Proof. intros f. apply keeps_lift. Qed.

Lemma keeps_set_top x : keeps F R (set_top x).
Proof. intros f. unfold set_top. destruct (stk f); [exact I|]. apply lax_stk. Qed.

Lemma keeps_mget o n : keeps F R (mget o n).
Proof. intros f. apply keeps_lift. Qed.

Lemma keeps_mset o n v : keeps F R (mset o n v).
Proof. intros f. unfold mset. destruct (memory.Set_ _ _ _ _); [|exact I]. apply lax_mem. Qed.

Lemma keeps_memory_gas n : keeps F R (memory_gas n).
Proof. intros f. unfold memory_gas. destruct (memoryGasCost _ _) as [[fee m]|e]; [apply lax_mem | reflexivity]. Qed.

Lemma keeps_safe_add x y : keeps F R (safe_add x y).
Proof. unfold safe_add. destruct (SafeAdd x y) as [g [|]]; [apply keeps_throw | apply keeps_ret]. Qed.

Lemma keeps_safe_mul x y : keeps F R (safe_mul x y).
Proof. unfold safe_mul. destruct (SafeMul x y) as [g [|]]; [apply keeps_throw | apply keeps_ret]. Qed.

Lemma keeps_big_uint64 x : keeps F R (big_uint64 x).
Proof. unfold big_uint64. destruct (bigUint64 x) as [g [|]]; [apply keeps_throw | apply keeps_ret]. Qed.

Lemma keeps_modify g : (forall f, R f (g f)) -> keeps F R (modify g).
Proof. intros H f. apply H. Qed.

Lemma keeps_pop_topics n : keeps F R (pop_topics n).
Proof.
  induction n as [|n IH]; [apply keeps_ret|]. cbn [pop_topics].
  apply keeps_bind; [apply keeps_pop|]. intros t. apply keeps_bind; [exact IH|]. intros ts. apply keeps_ret.
Qed.

Lemma keeps_dup n env call : keeps F R (makeDup n env call).
Proof. intros f. unfold makeDup. destruct (stack.dup _ _); [|exact I]. apply lax_stk. Qed.

Lemma keeps_swap n env call : keeps F R (makeSwap n env call).
Proof. intros f. unfold makeSwap. destruct (stack.swap _ _); [|exact I]. apply lax_stk. Qed.

End rules.

(** ** Weakest preconditions *)

Definition wp {A : Type} (Q : Frame S -> result A vmErr -> Prop) (C : panic -> Prop) (F : Prop)
    (m : M S A) (f : Frame S) : Prop :=
  match m f with
  | Done (f', r) => Q f' r
  | Crash p => C p
  | Fuel => F
  end.

Section wp.
Context {A : Type} (Q : Frame S -> result A vmErr -> Prop) (C : panic -> Prop) (F : Prop).

Lemma wp_bind {B : Type} (m : M S B) (k : B -> M S A) f :
  wp (fun f' r => match r with Ok b => wp Q C F (k b) f' | Err e => Q f' (Err e) end) C F m f -> wp Q C F (bind m k) f.
Proof. unfold wp, bind. destruct (m f) as [[f' [b|e]]|p|]; auto. Qed.

Lemma wp_ret a f : Q f (Ok a) -> wp Q C F (ret a) f.
Proof. auto. Qed.

Lemma wp_throw e f : Q f (Err e) -> wp Q C F (throw e) f.
Proof. auto. Qed.

Lemma wp_mono (Q' : Frame S -> result A vmErr -> Prop) (F' : Prop) m f :
  wp Q' C F' m f -> (forall f' r, Q' f' r -> Q f' r) -> (F' -> F) -> wp Q C F m f.
Proof. unfold wp. destruct (m f) as [[f' r]|p|]; auto. Qed.

End wp.

Section wp_leaves.
Context (C : panic -> Prop) (F : Prop).

Lemma wp_pop (Q : Frame S -> result Z vmErr -> Prop) f :
  match stk f with [] => C PIndex | x :: st => Q (set_stk f st) (Ok x) end -> wp Q C F pop f.
Proof. unfold wp, pop, stack.pop. destruct (stk f); auto. Qed.

Lemma wp_push (Q : Frame S -> result unit vmErr -> Prop) x f : Q (set_stk f (x :: stk f)) (Ok tt) -> wp Q C F (push x) f.
Proof. auto. Qed.

Lemma wp_reads {A : Type} (Q : Frame S -> result A vmErr -> Prop) g f : Q f (Ok (g f)) -> wp Q C F (reads g) f.
Proof. auto. Qed.

Lemma wp_modify (Q : Frame S -> result unit vmErr -> Prop) g f : Q (g f) (Ok tt) -> wp Q C F (modify g) f.
Proof. auto. Qed.

Lemma wp_lift {A : Type} (Q : Frame S -> result A vmErr -> Prop) o f :
  match o with Ret a => Q f (Ok a) | Panic => C PIndex end -> wp Q C F (lift o) f.
Proof. unfold wp, lift. destruct o; auto. Qed.

Lemma wp_set_top (Q : Frame S -> result unit vmErr -> Prop) x f :
  match stk f with [] => C PIndex | _ :: st => Q (set_stk f (x :: st)) (Ok tt) end -> wp Q C F (set_top x) f.
Proof. unfold wp, set_top. destruct (stk f); auto. Qed.

Lemma wp_query {A : Type} (Q : Frame S -> result A vmErr -> Prop) q f :
  Q (set_evm f (set_statedb (evm f) (fst (q (statedb (evm f)))))) (Ok (snd (q (statedb (evm f))))) ->
  wp Q C F (query q) f.
Proof. unfold wp, query. destruct (q _); auto. Qed.

Lemma wp_update (Q : Frame S -> result unit vmErr -> Prop) u f :
  Q (set_evm f (set_statedb (evm f) (u (statedb (evm f))))) (Ok tt) -> wp Q C F (update u) f.
Proof. auto. Qed.

Lemma wp_mget (Q : Frame S -> result (list Z) vmErr -> Prop) o n f :
  match memory.Get (mem f) o n with Ret d => Q f (Ok d) | Panic => C PIndex end -> wp Q C F (mget o n) f.
Proof. unfold wp, mget, lift. destruct (memory.Get _ _ _); auto. Qed.

Lemma wp_mset (Q : Frame S -> result unit vmErr -> Prop) o n v f :
  match memory.Set_ (mem f) o n v with Ret m => Q (set_mem f m) (Ok tt) | Panic => C PIndex end ->
  wp Q C F (mset o n v) f.
Proof. unfold wp, mset. destruct (memory.Set_ _ _ _ _); auto. Qed.

Lemma wp_back (Q : Frame S -> result Z vmErr -> Prop) n f :
  match stack.Back (stk f) n with Ret x => Q f (Ok x) | Panic => C PIndex end -> wp Q C F (back n) f.
Proof. unfold wp, back, lift. destruct (stack.Back _ _); auto. Qed.

Lemma wp_memory_gas (Q : Frame S -> result Z vmErr -> Prop) n f :
  match memoryGasCost (mem f) n with Ok (fee, m) => Q (set_mem f m) (Ok fee) | Err e => Q f (Err e) end ->
  wp Q C F (memory_gas n) f.
Proof. unfold wp, memory_gas. destruct (memoryGasCost _ _) as [[fee m]|e]; auto. Qed.

Lemma wp_calls {A : Type} (Q : Frame S -> result A vmErr -> Prop) c f :
  match c (evm f) with Done (e, a) => Q (set_evm f e) (Ok a) | Crash p => C p | Fuel => F end -> wp Q C F (calls c) f.
Proof. unfold wp, calls. destruct (c (evm f)) as [[e a]|p|]; auto. Qed.

Lemma wp_safe_add (Q : Frame S -> result Z vmErr -> Prop) x y f : is_u64 x -> is_u64 y ->
  (x + y < 2 ^ 64 -> Q f (Ok (x + y))) -> Q f (Err errGasUintOverflow) -> wp Q C F (safe_add x y) f.
Proof.
  intros Hx Hy H1 H2. unfold wp, safe_add. rewrite (SafeAdd_spec x y Hx Hy). unfold is_u64 in *.
  destruct (Z.leb_spec (2 ^ 64) (x + y)); [exact H2|]. unfold ret. rewrite u64_small by lia. auto.
Qed.

Lemma wp_safe_mul (Q : Frame S -> result Z vmErr -> Prop) x y f : is_u64 x -> is_u64 y ->
  (x * y < 2 ^ 64 -> Q f (Ok (x * y))) -> Q f (Err errGasUintOverflow) -> wp Q C F (safe_mul x y) f.
Proof.
  intros Hx Hy H1 H2. unfold wp, safe_mul. rewrite (SafeMul_spec x y Hx Hy). unfold is_u64 in *.
  destruct (Z.leb_spec (2 ^ 64) (x * y)); [exact H2|]. unfold ret. rewrite u64_small by nia. auto.
Qed.

Lemma wp_big_uint64 (Q : Frame S -> result Z vmErr -> Prop) v f :
  (Z.abs v < 2 ^ 64 -> Q f (Ok (Z.abs v))) -> Q f (Err errGasUintOverflow) -> wp Q C F (big_uint64 v) f.
Proof.
  intros H1 H2. unfold wp, big_uint64, bigUint64. rewrite Z.gtb_ltb.
  destruct (Z.ltb_spec 64 (BitLen v)) as [L|L]; [exact H2|]. apply BitLen_le_iff in L; [|lia].
  unfold ret, Uint64. rewrite u64_small by lia. auto.
Qed.

End wp_leaves.
End logic.

#[export] Hint Resolve keeps_ret keeps_throw keeps_reads keeps_lift keeps_of_result keeps_pop keeps_push keeps_back
  keeps_set_top keeps_mget keeps_mset keeps_memory_gas keeps_safe_add keeps_safe_mul keeps_big_uint64
  keeps_pop_topics keeps_dup keeps_swap : keeps.
#[export] Hint Extern 1 (Lax _) => exact _ : keeps.

(** Follow the structure of a computation; what is left are the parts the
    relation says something about. *)
Ltac keep :=
  repeat first
    [ progress intros
    | progress cbv zeta
    | apply keeps_bind; [exact _ | |]
    | solve [auto with keeps]
    | match goal with
      | |- keeps _ _ (if ?b then _ else _) => destruct b
      | |- keeps _ _ (match ?x with _ => _ end) => destruct x
      | |- keeps _ _ (modify _) => apply keeps_modify; intros; solve [apply lax_pc | apply lax_mem | apply lax_stk]
      end ].

(** Evaluate the first part of a computation. *)
Ltac wp1 :=
  cbv zeta;
  lazymatch goal with
  | |- wp _ _ _ (bind _ _) _ => apply wp_bind; wp1
  | |- wp _ _ _ (ret _) _ => apply wp_ret
  | |- wp _ _ _ (throw _) _ => apply wp_throw
  | |- wp _ _ _ pop _ => apply wp_pop
  | |- wp _ _ _ (push _) _ => apply wp_push
  | |- wp _ _ _ (reads _) _ => apply wp_reads
  | |- wp _ _ _ (modify _) _ => apply wp_modify
  | |- wp _ _ _ (lift _) _ => apply wp_lift
  | |- wp _ _ _ (set_top _) _ => apply wp_set_top
  | |- wp _ _ _ (query _) _ => apply wp_query
  | |- wp _ _ _ (update _) _ => apply wp_update
  | |- wp _ _ _ (mget _ _) _ => apply wp_mget
  | |- wp _ _ _ (mset _ _ _) _ => apply wp_mset
  | |- wp _ _ _ (back _) _ => apply wp_back
  | |- wp _ _ _ (memory_gas _) _ => apply wp_memory_gas
  | |- wp _ _ _ (calls _) _ => apply wp_calls
  end;
  cbn [stk mem evm contract pc set_stk set_mem set_evm set_contract set_pc].

(** Pop an operand; on an empty stack the instruction panics. *)
Ltac popped x st := wp1; match goal with |- match ?l with _ => _ end => destruct l as [|x st]; [exact I|] end; cbn [stk set_stk].

(** The memory is read and the call made. *)
Ltac call_made :=
  wp1; destruct (memory.Get _ _ _); [|exact I]; wp1; cbv zeta.
