(* ===== verification/VmTermination.v ===== *)
(** * The interpreter terminates, and gas is never created

    Every instruction that does not end the run costs gas, and what a call is
    given is less than what its caller had.  So fuel of one more than the gas is
    enough for a run, whatever the code, and no call returns more gas than it got. *)

From Stdlib Require Import ZArith List Lia Bool RelationClasses.
From S2P Require Import Prelude GoBig VmCommon CommonTypes Params VmContract Precompiles.
From S2P Require Import VmMemory VmOpcodes VmState VmGas VmOps VmJumpTable VmInterp VmHoare.
Import ListNotations.
Local Open Scope Z_scope.

(** A run that was given [g] gas and [n] fuel: it leaves between 0 and [g], and
    the fuel ends only when [g] is at least [n]. *)
Definition metered {A : Type} (n g : Z) (rest : A -> Z) (x : run A) : Prop :=
  match x with
  | Done a => 0 <= rest a <= g
  | Crash _ => True
  | Fuel => n <= g
  end.

Lemma metered_rbind {A B : Type} n g (lA : A -> Z) (lB : B -> Z) (x : run A) (k : A -> run B) :
  metered n g lA x -> (forall a, 0 <= lA a <= g -> metered n (lA a) lB (k a)) -> metered n g lB (rbind x k).
Proof.
  destruct x as [a|p|]; cbn; auto. intros H1 H2. specialize (H2 a H1). destruct (k a); cbn in *; auto; lia.
Qed.

(** The fields of a gas table are prices of a sensible size. *)
Definition price (x : Z) : Prop := 0 < x < 2 ^ 32.
Definition table_ok (gt : GasTable) : Prop :=
  price (ExtcodeSize gt) /\ price (ExtcodeCopy gt) /\ price (Params.Balance gt) /\ price (SLoad gt) /\
  price (Calls gt) /\ price (ExpByte gt) /\ 0 <= Params.Suicide gt < 2 ^ 32 /\ 0 <= CreateBySuicide gt < 2 ^ 32.

Lemma gasTable_ok c num : table_ok (gasTable c num).
Proof.
  unfold gasTable. destruct num as [n|]; [destruct (IsEIP158 c _); [|destruct (IsEIP150 c _)]|];
    repeat split; vm_compute; congruence.
Qed.

Section termination.
Context {S : Type} {DB : StateDB S}.

Definition gas_of (f : Frame S) : Z := Gas (contract f).

(** ** Instructions that leave the contract alone *)

Definition same_contract (f f' : Frame S) : Prop := contract f' = contract f.

#[export] Instance same_contract_lax : Lax same_contract.
Proof.
  split; try (intros; reflexivity). split; [intros f; reflexivity|].
  intros f g h H1 H2. unfold same_contract in *. congruence.
Qed.

Lemma contract_query {A : Type} F (q : S -> S * A) : keeps F same_contract (query q).
Proof. intros f. unfold query. destruct (q _). reflexivity. Qed.

Lemma contract_update F u : keeps F same_contract (update u).
Proof. intros f. reflexivity. Qed.

Lemma contract_has_dest F pos : keeps F same_contract (has_dest pos).
Proof. intros f. unfold has_dest. destruct (has _ _ _ _) as [[b d]|]; [reflexivity|exact I]. Qed.

Hint Resolve contract_query contract_update contract_has_dest : keeps.

Definition plain (o : operation S) : Prop := forall env call, keeps False same_contract (execute o env call).

Variable Keccak256 : list Z -> list Z.

Definition plain_sets : InstructionSet S :=
  arithmetic_set Keccak256 ++ environment_set ++ storage_set ++ push_set ++ dup_set ++ swap_set ++ log_set.

Lemma plain_sets_ok : Forall (fun e => plain (snd e)) plain_sets.
Proof.
  unfold plain_sets. rewrite !Forall_app. unfold plain.
  repeat match goal with |- _ /\ _ => split end.
  all: unfold arithmetic_set, environment_set, storage_set, push_set, dup_set, swap_set, log_set.
  all: repeat constructor; cbn [snd execute entry]; intros env call; autounfold with vmops; keep.
Qed.

(** ** Prices *)

Definition mem_limit : Z := 0xffffffffe0.

Lemma memoryGasCost_ok m ms fee m' : memoryGasCost m ms = Ok (fee, m') ->
  is_u64 fee /\ store m' = store m /\ (ms = 0 \/ ms <= mem_limit).
Proof.
  unfold memoryGasCost, is_u64, mem_limit. rewrite Z.gtb_ltb. destruct (Z.eqb_spec ms 0) as [->|N].
  - intros [= <- <-]. repeat split; auto; lia.
  - destruct (Z.ltb_spec 0xffffffffe0 ms); [discriminate|]. cbv zeta. destruct (_ >? _); intros [= <- <-].
    + split; [apply u64_range|]. split; [reflexivity|]. right. lia.
    + repeat split; auto; lia.
Qed.

(** A gas function that needs [need] operands and charges [k] at least, for
    the memory too when [charges]; it leaves contract, stack and store alone. *)
Definition gas_post (k : Z) (charges : bool) (ms : Z) (f f' : Frame S) (r : result Z vmErr) : Prop :=
  pc f' = pc f /\ contract f' = contract f /\ stk f' = stk f /\ store (mem f') = store (mem f) /\
  match r with
  | Ok c => k <= c < 2 ^ 64 /\ (charges = true -> ms = 0 \/ ms <= mem_limit)
  | Err _ => True
  end.

Definition priced (k need : Z) (charges : bool) (g : gasFunc S) : Prop :=
  forall gt env ms f, table_ok gt ->
  wp (gas_post k charges ms f) (fun _ => len (stk f) < need) False (g gt env ms) f.

Ltac gpost := unfold gas_post; repeat split; auto; try discriminate; try lia.

Lemma priced_const k : is_u64 k -> priced k 0 false (constGasFunc k).
Proof. unfold is_u64. intros Hk gt env ms f _. apply wp_ret. gpost. Qed.

Lemma priced_mem k c : is_u64 c -> k <= c ->
  priced k 0 true (fun _ _ ms => bind (memory_gas ms) (fun g => safe_add g c)).
Proof.
  intros Hc Hk gt env ms f _. wp1. destruct (memoryGasCost (mem f) ms) as [[fee m']|e] eqn:E; [|gpost].
  apply memoryGasCost_ok in E. destruct E as (Hf & Es & Hm). unfold is_u64 in *.
  apply wp_safe_add; [exact Hf | exact Hc | |]; intros; gpost.
Qed.

Lemma back_index (f : Frame S) n : 0 <= n ->
  (exists x, stack.Back (stk f) n = Ret x /\ n < len (stk f)) \/ (stack.Back (stk f) n = Panic /\ len (stk f) <= n).
Proof.
  intros Hn. unfold stack.Back. destruct (Z.lt_ge_cases n (len (stk f))) as [L|L].
  - left. destruct (index_exists (stk f) n) as (x & E); [lia|]. eauto.
  - right. split; [|exact L]. unfold index. destruct (Z.leb_spec 0 n); [|reflexivity].
    destruct (nth_error _ _) eqn:E; [|reflexivity]. assert (H' : nth_error (stk f) (Z.to_nat n) <> None) by congruence.
    apply nth_error_Some in H'. unfold len in L. lia.
Qed.

Lemma priced_copy b n (base : GasTable -> Z) : 0 <= n -> (forall gt, table_ok gt -> b <= base gt < 2 ^ 32) -> 0 <= b ->
  priced b (n + 1) true (fun gt _ ms => copy_gas (base gt) n ms).
Proof.
  intros Hn Hb H0 gt env ms f Hgt. specialize (Hb gt Hgt). unfold copy_gas. wp1.
  destruct (memoryGasCost (mem f) ms) as [[fee m']|e] eqn:E; [|gpost].
  apply memoryGasCost_ok in E. destruct E as (Hf & Es & Hm). unfold is_u64 in *. apply wp_bind.
  apply wp_safe_add; unfold is_u64; [lia..| |gpost]. intros Hs. wp1.
  destruct (back_index f n Hn) as [(x & -> & L)|[-> L]]; [|lia]. apply wp_bind.
  apply wp_big_uint64; [|gpost]. intros Hx. apply wp_bind.
  pose proof (toWordSize_range (Z.abs x) ltac:(unfold is_u64; lia)).
  apply wp_safe_mul; unfold is_u64, CopyGas in *; [lia..| |gpost]. intros Hw.
  apply wp_safe_add; unfold is_u64; [lia..| |gpost]. intros. gpost.
Qed.

(** Look at an operand; the stack is too short otherwise. *)
Ltac operand n x L :=
  wp1; lazymatch goal with |- context [stack.Back (stk ?f) n] =>
    destruct (back_index f n ltac:(lia)) as [(x & -> & L)|[-> L]]; [|lia] end.

Lemma priced_Exp : priced 10 2 false gasExp.
Proof.
  intros gt env ms f Hgt. unfold gasExp. operand 1 e L. apply wp_safe_add.
  - split; [apply Z.mod_pos_bound; lia | apply u64_range].
  - unfold is_u64, GasSlowStep. lia.
  - intros H. pose proof (u64_range (Z.quot (BitLen e + 7) 8 * ExpByte gt)). unfold GasSlowStep in *. gpost.
  - gpost.
Qed.

Lemma priced_Sha3 : priced 30 2 true gasSha3.
Proof.
  intros gt env ms f Hgt. unfold gasSha3. wp1.
  destruct (memoryGasCost (mem f) ms) as [[fee m']|e] eqn:E; [|gpost].
  apply memoryGasCost_ok in E. destruct E as (Hf & Es & Hm). unfold is_u64, Sha3Gas, Sha3WordGas in *. apply wp_bind.
  apply wp_safe_add; unfold is_u64; [lia..| |gpost]. intros Hs. operand 1 x L. apply wp_bind.
  apply wp_big_uint64; [|gpost]. intros Hx. apply wp_bind.
  pose proof (toWordSize_range (Z.abs x) ltac:(unfold is_u64; lia)).
  apply wp_safe_mul; unfold is_u64; [lia..| |gpost]. intros Hw.
  apply wp_safe_add; unfold is_u64; [lia..| |gpost]. intros. gpost.
Qed.

Lemma priced_Log n : priced 375 2 true (makeGasLog n).
Proof.
  intros gt env ms f Hgt. unfold makeGasLog. operand 1 x L. apply wp_bind.
  apply wp_big_uint64; [|gpost]. intros Hx. wp1.
  destruct (memoryGasCost (mem f) ms) as [[fee m']|e] eqn:E; [|gpost].
  apply memoryGasCost_ok in E. destruct E as (Hf & Es & Hm). unfold is_u64, LogGas, LogDataGas in *. apply wp_bind.
  apply wp_safe_add; unfold is_u64; [lia..| |gpost]. intros Hs. apply wp_bind.
  pose proof (u64_range (n * LogTopicGas)).
  apply wp_safe_add; unfold is_u64; [lia..| |gpost]. intros Ht. apply wp_bind.
  apply wp_safe_mul; unfold is_u64; [lia..| |gpost]. intros Hw.
  apply wp_safe_add; unfold is_u64; [lia..| |gpost]. intros. gpost.
Qed.

Lemma priced_SStore : priced 5000 2 false gasSStore.
Proof.
  intros gt env ms f Hgt. unfold gasSStore. operand 1 y L. operand 0 x L'. wp1. wp1.
  destruct (_ && _); [wp1; gpost|]. destruct (_ && _); wp1; [wp1|]; gpost.
Qed.

Lemma priced_table (p : GasTable -> Z) : (forall gt, table_ok gt -> price (p gt)) ->
  priced 1 0 false (fun gt _ _ => ret (p gt)).
Proof. intros H gt env ms f Hgt. specialize (H gt Hgt). unfold price in H. wp1. gpost. Qed.

Lemma priced_Return : priced 0 0 true (fun _ _ ms => memory_gas ms).
Proof.
  intros gt env ms f Hgt. wp1. destruct (memoryGasCost (mem f) ms) as [[fee m']|e] eqn:E; [|gpost].
  apply memoryGasCost_ok in E. destruct E as (Hf & Es & Hm). unfold is_u64 in *. gpost.
Qed.

Lemma priced_Suicide : priced 0 1 false gasSuicide.
Proof.
  intros gt env ms f Hgt. unfold gasSuicide. wp1. apply wp_bind.
  apply (wp_mono _ _ _ (fun f' r => pc f' = pc f /\ contract f' = contract f /\ stk f' = stk f /\ mem f' = mem f /\
                          match r with Ok c => is_u64 c | Err _ => False end) False).
  - destruct Hgt as (_ & _ & _ & _ & _ & _ & H1 & H2). unfold is_u64.
    assert (H3 : forall x, is_u64 (u64 x)) by (intros x; apply u64_range). unfold is_u64 in H3.
    destruct (IsEIP150 _ _); [|wp1; repeat split; lia]. operand 0 a L. destruct (IsEIP158 _ _).
    + wp1. destruct (snd (Empty _ _)); [|wp1; repeat split; lia]. wp1. wp1. repeat split; destruct (negb _);
        auto; try lia; apply H3.
    + wp1. wp1. repeat split; destruct (negb _); auto; try lia; apply H3.
  - intros f' [c|e] (E0 & E1 & E2 & E3 & Hc); [|contradiction]. unfold is_u64 in Hc. wp1.
    destruct (snd (HasSuicided _ _)); wp1; wp1; gpost; cbn; congruence.
  - auto.
Qed.

(** The gas functions of the calls put the gas of the call, [cg], on the stack
    and charge it on top of the base price. *)
Definition call_post (base ms : Z) (f f' : Frame S) (r : result Z vmErr) : Prop :=
  pc f' = pc f /\ contract f' = contract f /\ store (mem f') = store (mem f) /\
  match r with
  | Ok c => exists cg, stk f' = cg :: tl (stk f) /\ 0 <= cg /\ base + cg <= c < 2 ^ 64 /\ (ms = 0 \/ ms <= mem_limit)
  | Err _ => True
  end.

Definition call_priced (base : Stack -> Z) (need : Z) (g : gasFunc S) : Prop :=
  forall gt env ms f, table_ok gt ->
  wp (call_post (base (stk f)) ms f) (fun _ => len (stk f) < need) False (g gt env ms) f.

Lemma callGas_u64 gt avail base cost cg : callGas gt avail base cost = Ok cg -> is_u64 cg.
Proof.
  unfold callGas. destruct (_ >? 0); [destruct (_ || _)|]; try destruct (_ >? 64); intros [= <-]; apply u64_range.
Qed.

Lemma charge_call_post gt base gas ms need f f' : base <= gas -> is_u64 gas -> 1 <= need -> pc f' = pc f ->
  contract f' = contract f -> stk f' = stk f -> store (mem f') = store (mem f) -> (ms = 0 \/ ms <= mem_limit) ->
  wp (call_post base ms f) (fun _ => len (stk f) < need) False (charge_call gt gas) f'.
Proof.
  intros Hb Hg Hn E0 E1 E2 E3 Hm. unfold charge_call. wp1. wp1. rewrite E2.
  destruct (back_index f 0 ltac:(lia)) as [(x & -> & L)|[-> L]]; [|lia]. apply wp_bind.
  unfold of_result. destruct (callGas gt _ gas x) as [cg|e] eqn:E; [|apply wp_throw; repeat split; auto].
  apply wp_ret. apply callGas_u64 in E. wp1. rewrite E2. destruct (stk f) as [|y st] eqn:Es; [cbn in L; lia|].
  apply wp_safe_add; [exact Hg | exact E | | repeat split; auto]. intros Ho. unfold is_u64 in *.
  split; [exact E0|]. split; [exact E1|]. split; [exact E3|]. exists cg. rewrite Es. cbn. repeat split; auto; lia.
Qed.

Lemma call_memory base gas ms need (f f' : Frame S) gt : base <= gas -> 0 <= gas < 2 ^ 33 -> 1 <= need -> pc f' = pc f ->
  contract f' = contract f -> stk f' = stk f -> mem f' = mem f ->
  wp (call_post base ms f) (fun _ => len (stk f) < need) False
    (bind (memory_gas ms) (fun mg => bind (safe_add gas mg) (charge_call gt))) f'.
Proof.
  intros Hb Hg Hn E0 E1 E2 E3. wp1. rewrite E3. destruct (memoryGasCost (mem f) ms) as [[fee m']|e] eqn:E.
  2: { repeat split; auto. cbn. rewrite E3. reflexivity. }
  apply memoryGasCost_ok in E. destruct E as (Hf & Es & Hm). unfold is_u64 in *. apply wp_bind.
  apply wp_safe_add; unfold is_u64; [lia..| |repeat split; auto]. intros H.
  apply charge_call_post; auto; unfold is_u64; lia.
Qed.

Definition value_price (v : Z) : Z := 1 + (if v =? 0 then 0 else CallValueTransferGas).

Lemma back_nth (st : Stack) n x : stack.Back st n = Ret x -> nth (Z.to_nat n) st 0 = x.
Proof. intros H. apply index_in in H. apply nth_error_nth, H. Qed.

Lemma u64_add_small x y : 0 <= x < 2 ^ 33 -> 0 <= y < 2 ^ 33 -> u64 (x + y) = x + y.
Proof. intros. apply u64_small. lia. Qed.

Lemma value_price_bound v g : 1 <= g < 2 ^ 32 + CallNewAccountGas ->
  value_price v <= (if negb (Sign v =? 0) then u64 (g + CallValueTransferGas) else g) < 2 ^ 33.
Proof.
  unfold value_price, Sign, CallValueTransferGas, CallNewAccountGas. intros H.
  destruct (Z.eqb_spec v 0) as [->|N]; [cbn; lia|]. replace (Z.sgn v =? 0) with false.
  - cbn [negb]. rewrite u64_add_small by lia. lia.
  - destruct v; [congruence|reflexivity..].
Qed.

Lemma price_Call : call_priced (fun st => value_price (nth 2 st 0)) 3 gasCall.
Proof.
  intros gt env ms f Hgt. unfold gasCall. wp1.
  destruct (back_index f 2 ltac:(lia)) as [(v & Ev & L)|[-> L]]; [|lia]. rewrite Ev. apply back_nth in Ev.
  change (Z.to_nat 2) with 2%nat in Ev. rewrite Ev. operand 1 a L1. apply wp_bind.
  destruct Hgt as (_ & _ & _ & _ & Hc & _). unfold price in Hc.
  eapply wp_mono with (F' := False) (Q' := fun f' r => pc f' = pc f /\ contract f' = contract f /\ stk f' = stk f /\ mem f' = mem f /\
    match r with Ok c => Calls gt <= c <= Calls gt + CallNewAccountGas | Err _ => False end).
  - unfold CallNewAccountGas. destruct (IsEIP158 _ _); wp1; wp1; repeat split.
    all: first [destruct (_ && _) | destruct (negb _)]; rewrite ?u64_add_small; lia.
  - intros f' [g|e] (E0 & E1 & E2 & E3 & Hg); [|contradiction]. cbv zeta.
    pose proof (value_price_bound v g ltac:(unfold CallNewAccountGas in *; lia)).
    apply call_memory; auto; try lia. unfold value_price in *. destruct (v =? 0); unfold CallValueTransferGas in *; lia.
  - auto.
Qed.

Lemma price_CallCode : call_priced (fun st => value_price (nth 2 st 0)) 3 gasCallCode.
Proof.
  intros gt env ms f Hgt. unfold gasCallCode. wp1.
  destruct (back_index f 2 ltac:(lia)) as [(v & Ev & L)|[-> L]]; [|lia]. rewrite Ev. apply back_nth in Ev.
  change (Z.to_nat 2) with 2%nat in Ev. rewrite Ev.
  destruct Hgt as (_ & _ & _ & _ & Hc & _). unfold price in Hc. cbv zeta.
  pose proof (value_price_bound v (Calls gt) ltac:(unfold CallNewAccountGas in *; lia)).
  apply call_memory; auto; try lia. unfold value_price in *. destruct (v =? 0); unfold CallValueTransferGas in *; lia.
Qed.

Lemma price_plain_call : call_priced (fun _ => 1) 1
  (fun gt _ ms => bind (memory_gas ms) (fun g => bind (safe_add g (Calls gt)) (charge_call gt))).
Proof.
  intros gt env ms f Hgt. destruct Hgt as (_ & _ & _ & _ & Hc & _). unfold price in Hc. wp1.
  destruct (memoryGasCost (mem f) ms) as [[fee m']|e] eqn:E; [|repeat split; auto].
  apply memoryGasCost_ok in E. destruct E as (Hf & Es & Hm). unfold is_u64 in *. apply wp_bind.
  apply wp_safe_add; unfold is_u64; [lia..| |repeat split; auto]. intros H.
  apply charge_call_post; auto; unfold is_u64; lia.
Qed.

(** ** Calls *)

(** What the methods of the EVM promise an instruction: a call with [gas] gas
    and [n] fuel is metered. *)
Definition left_of {A : Type} (r : A * call_result) : Z := let '(_, (_, rest, _)) := r in rest.
Definition create_left {A : Type} (r : A * (Address * call_result)) : Z := let '(_, (_, (_, rest, _))) := r in rest.

Record calls_metered (n : Z) (call : CallOps S) : Prop := {
  Call_metered c a i gas v e : is_u64 gas -> metered n gas left_of (c_Call call c a i gas v e);
  CallCode_metered c a i gas v e : is_u64 gas -> metered n gas left_of (c_CallCode call c a i gas v e);
  DelegateCall_metered c a i gas e : is_u64 gas -> metered n gas left_of (c_DelegateCall call c a i gas e);
  StaticCall_metered c a i gas e : is_u64 gas -> metered n gas left_of (c_StaticCall call c a i gas e);
  Create_metered c i gas v e : is_u64 gas -> metered n gas create_left (c_Create call c i gas v e) }.

(** The gas of the contract after an instruction that was run with [g] and may
    pass [extra] to a call. *)
Definition exec_post (g : Z) (f : Frame S) (r : result (list Z) vmErr) : Prop := 0 <= gas_of f <= g.

Lemma call_return_metered ro rs res rest err f n g :
  0 <= gas_of f -> 0 <= rest -> gas_of f + rest <= g -> g < 2 ^ 64 ->
  wp (exec_post g) (fun _ => True) (n <= g) (call_return ro rs (res, rest, err)) f.
Proof.
  intros H0 H1 H2 H3. unfold call_return. wp1.
  assert (Hend : forall f', gas_of f' = gas_of f -> wp (exec_post g) (fun _ => True) (n <= g)
    (bind (add_gas rest) (fun _ => ret res)) f').
  { intros f' E. unfold add_gas. wp1. wp1. unfold exec_post, gas_of in *. cbn. rewrite E.
    rewrite u64_small by lia. lia. }
  apply wp_bind. destruct (match err with None => true | Some e => is_reverted e end).
  - wp1. destruct (memory.Set_ _ _ _ _); [apply Hend; reflexivity|exact I].
  - wp1. apply Hend. reflexivity.
Qed.

Definition stipend (v : Z) : Z := if v =? 0 then 0 else CallStipend.

Lemma stipend_gas cg v : 0 <= cg -> cg + stipend v < 2 ^ 64 ->
  0 <= (if negb (Sign (U256 v) =? 0) then u64 (Uint64 cg + CallStipend) else Uint64 cg) <= cg + stipend v.
Proof.
  unfold stipend, Uint64, CallStipend. intros H0. destruct (Z.eqb_spec v 0) as [->|N]; intros H.
  - rewrite Z.abs_eq, (u64_small cg) by lia. cbn. lia.
  - rewrite Z.abs_eq, (u64_small cg) by lia. destruct (negb _); [rewrite u64_small by lia|]; lia.
Qed.

Lemma metered_calls n g gas (f : Frame S) (c : EVM S -> run (EVM S * call_result)) ro rs :
  0 <= gas_of f -> gas_of f + gas <= g < 2 ^ 64 ->
  metered n gas left_of (c (evm f)) ->
  wp (exec_post g) (fun _ => True) (n <= g) (bind (calls c) (call_return ro rs)) f.
Proof.
  intros H0 Hg Hm. wp1. destruct (c (evm f)) as [[e [[res rest] err]]|p|]; cbn in Hm |- *; [|exact I|lia].
  apply call_return_metered; unfold gas_of in *; cbn; lia.
Qed.

Section ops.
Variables (n g : Z) (call : CallOps S).
Hypothesis Hcalls : calls_metered n call.
Hypothesis Hg : g < 2 ^ 64.

Lemma opCall_metered env f : 0 <= gas_of f -> 0 <= nth 0 (stk f) 0 ->
  gas_of f + nth 0 (stk f) 0 + stipend (nth 2 (stk f) 0) <= g ->
  wp (exec_post g) (fun _ => True) (n <= g) (opCall env call) f.
Proof.
  intros H0 H1 H2. unfold opCall, gas_of in *. wp1. destruct (stk f) as [|cg st]; [exact I|]. popped a st1. popped v st2.
  popped io st3. popped iz st4. popped ro st5. popped rs st6. call_made. cbn [nth] in *.
  pose proof (stipend_gas cg v H1 ltac:(lia)). eapply metered_calls; unfold gas_of; cbn; [exact H0| |].
  2: { apply (Call_metered n call Hcalls). unfold is_u64. lia. }
  lia.
Qed.

Lemma opCallCode_metered env f : 0 <= gas_of f -> 0 <= nth 0 (stk f) 0 ->
  gas_of f + nth 0 (stk f) 0 + stipend (nth 2 (stk f) 0) <= g ->
  wp (exec_post g) (fun _ => True) (n <= g) (opCallCode env call) f.
Proof.
  intros H0 H1 H2. unfold opCallCode, gas_of in *. wp1. destruct (stk f) as [|cg st]; [exact I|]. popped a st1. popped v st2.
  popped io st3. popped iz st4. popped ro st5. popped rs st6. call_made. cbn [nth] in *.
  pose proof (stipend_gas cg v H1 ltac:(lia)). eapply metered_calls; unfold gas_of; cbn; [exact H0| |].
  2: { apply (CallCode_metered n call Hcalls). unfold is_u64. lia. }
  lia.
Qed.

Lemma opDelegateCall_metered env f : 0 <= gas_of f -> 0 <= nth 0 (stk f) 0 -> gas_of f + nth 0 (stk f) 0 <= g ->
  wp (exec_post g) (fun _ => True) (n <= g) (opDelegateCall env call) f.
Proof.
  intros H0 H1 H2. unfold opDelegateCall, gas_of in *. wp1. destruct (stk f) as [|cg st]; [exact I|]. popped a st1.
  popped io st3. popped iz st4. popped ro st5. popped rs st6. call_made. cbn [nth] in *.
  unfold Uint64. rewrite Z.abs_eq, u64_small by lia. eapply metered_calls; unfold gas_of; cbn; [exact H0| |].
  2: { apply (DelegateCall_metered n call Hcalls). unfold is_u64. lia. }
  lia.
Qed.

Lemma opStaticCall_metered env f : 0 <= gas_of f -> 0 <= nth 0 (stk f) 0 -> gas_of f + nth 0 (stk f) 0 <= g ->
  wp (exec_post g) (fun _ => True) (n <= g) (opStaticCall env call) f.
Proof.
  intros H0 H1 H2. unfold opStaticCall, gas_of in *. wp1. destruct (stk f) as [|cg st]; [exact I|]. popped a st1.
  popped io st3. popped iz st4. popped ro st5. popped rs st6. call_made. cbn [nth] in *.
  unfold Uint64. rewrite Z.abs_eq, u64_small by lia. eapply metered_calls; unfold gas_of; cbn; [exact H0| |].
  2: { apply (StaticCall_metered n call Hcalls). unfold is_u64. lia. }
  lia.
Qed.

Lemma opCreate_metered env f : 0 <= gas_of f <= g -> wp (exec_post g) (fun _ => True) (n <= g) (opCreate env call) f.
Proof.
  intros H0. unfold opCreate, gas_of in *. popped v st1. popped o st2. popped sz st3. call_made.
  set (gas := if IsEIP150 _ _ then _ else _).
  assert (Hgas : 0 <= gas <= Gas (contract f)).
  { unfold gas. destruct (IsEIP150 _ _); [|lia]. pose proof (Z.div_pos (Gas (contract f)) 64).
    pose proof (Z.div_le_upper_bound (Gas (contract f)) 64 (Gas (contract f))). rewrite u64_small by lia. lia. }
  unfold use_gas. apply wp_bind. unfold wp at 1. rewrite UseGas_spec by (unfold is_u64; cbn; lia). cbn [contract set_stk].
  destruct (Z.ltb_spec (Gas (contract f)) gas); [lia|]. cbv beta iota. wp1. wp1.
  pose proof (Create_metered n call Hcalls) as Hc.
  match goal with |- context [c_Create call ?c ?i gas ?v ?e] => specialize (Hc c i gas v e ltac:(unfold is_u64; lia)) end.
  destruct (c_Create _ _ _ _ _ _) as [[e [addr [[res rest] err]]]|p|]; cbn in Hc; cbv beta iota; [|exact I|lia].
  wp1. unfold add_gas. wp1. wp1. unfold exec_post, gas_of. cbn. rewrite u64_small; lia.
Qed.

End ops.
(** ** Operations *)

(** Paying for an operation and executing it takes gas, at least 1 when the
    operation does not end the run, and fuel only when there was gas. *)
Definition op_metered (o : operation S) : Prop :=
  forall n call gt env ms f, calls_metered n call -> table_ok gt -> is_u64 (gas_of f) ->
  wp (fun f1 r =>
        contract f1 = contract f /\
        match r with
        | Err _ => True
        | Ok cost =>
            0 <= cost /\
            (cost <= gas_of f -> forall f2, stk f2 = stk f1 -> gas_of f2 = gas_of f - cost ->
             wp (exec_post (gas_of f - (if halts o || reverts o then 0 else 1))) (fun _ => True) (n <= gas_of f - 1)
               (execute o env call) f2)
        end)
    (fun _ => True) False (gasCost o gt env ms) f.

Lemma plain_metered o k need charges : plain o -> priced k need charges (gasCost o) -> 0 <= k ->
  (if halts o || reverts o then 0 else 1) <= k -> op_metered o.
Proof.
  intros Hp Hg H0 Hk n call gt env ms f Hn Hgt Hf. specialize (Hg gt env ms f Hgt). revert Hg. unfold wp at 1 2.
  destruct (gasCost o gt env ms f) as [[f1 [c|e]]|p|]; auto; intros (E0 & E1 & E2 & E3 & Hc); (split; [exact E1|]); auto.
  destruct Hc as [Hc _]. split; [lia|]. intros Hle f2 Es Eg. specialize (Hp env call f2). unfold wp.
  destruct (execute o env call f2) as [[f3 r]|p|]; auto; [|contradiction]. unfold same_contract in Hp.
  unfold exec_post, gas_of in *. rewrite Hp. lia.
Qed.

Lemma nth2_tl cg (st : Stack) : nth 2 (cg :: tl st) 0 = nth 2 st 0.
Proof. destruct st; reflexivity. Qed.

(** A call that charges [pr] for its value and passes on [extra] of it. *)
Lemma call_metered o pr extra need : call_priced (fun st => pr (nth 2 st 0)) need (gasCost o) ->
  (forall v, 0 <= extra v /\ extra v + 1 <= pr v) -> halts o = false -> reverts o = false ->
  (forall n g call, calls_metered n call -> g < 2 ^ 64 -> forall env f, 0 <= gas_of f -> 0 <= nth 0 (stk f) 0 ->
   gas_of f + nth 0 (stk f) 0 + extra (nth 2 (stk f) 0) <= g ->
   wp (exec_post g) (fun _ => True) (n <= g) (execute o env call) f) ->
  op_metered o.
Proof.
  intros Hg Hx Hh Hr He n call gt env ms f Hn Hgt Hf. specialize (Hg gt env ms f Hgt). revert Hg. unfold wp at 1 2.
  destruct (gasCost o gt env ms f) as [[f1 [c|e]]|p|]; auto; intros (E0 & E1 & E2 & Hc); (split; [exact E1|]); auto.
  destruct Hc as (cg & Es & Hcg & Hc & _). specialize (Hx (nth 2 (stk f) 0)). split; [lia|].
  intros Hle f2 Es2 Eg. rewrite Hh, Hr. cbn [orb]. unfold is_u64 in Hf.
  apply (He n (gas_of f - 1) call Hn ltac:(lia) env f2); rewrite ?Es2, ?Es, ?nth2_tl; cbn [nth]; lia.
Qed.

Lemma value_price_stipend v : 0 <= stipend v /\ stipend v + 1 <= value_price v.
Proof. unfold stipend, value_price, CallStipend, CallValueTransferGas. destruct (v =? 0); lia. Qed.

(** An operation with a price that is not zero unless it ends the run. *)
Definition has_price (o : operation S) : Prop :=
  exists k need charges, priced k need charges (gasCost o) /\ 0 <= k /\ (if halts o || reverts o then 0 else 1) <= k.

Lemma plain_has_price o : plain o -> has_price o -> op_metered o.
Proof. intros Hp (k & need & ch & Hg & H0 & Hk). apply (plain_metered o k need ch); assumption. Qed.

Ltac priced_entry :=
  cbn [snd gasCost entry halts reverts existsb flag_eqb orb]; do 3 eexists;
  split; [|split];
  [ first
    [ apply priced_const; unfold is_u64; vm_compute; split; congruence
    | apply priced_Exp | apply priced_Sha3 | apply priced_SStore | apply priced_Suicide | apply priced_Log
    | apply priced_Return
    | apply (priced_mem GasFastestStep GasFastestStep); [unfold is_u64; vm_compute; split; congruence | lia]
    | apply (priced_mem CreateGas CreateGas); [unfold is_u64; vm_compute; split; congruence | lia]
    | apply (priced_copy GasFastestStep 2 (fun _ => GasFastestStep)); [lia | intros; vm_compute; split; congruence | vm_compute; congruence]
    | apply (priced_copy 1 3 ExtcodeCopy); [lia | intros gt Hgt; unfold table_ok, price in Hgt; lia | lia]
    | apply (priced_table _); intros gt Hgt; unfold table_ok in Hgt; tauto ]
  | vm_compute; congruence
  | vm_compute; congruence ].

Lemma plain_sets_price : Forall (fun e => has_price (snd e)) plain_sets.
Proof.
  unfold plain_sets. rewrite !Forall_app. repeat match goal with |- _ /\ _ => split end.
  all: unfold arithmetic_set, environment_set, storage_set, push_set, dup_set, swap_set, log_set.
  all: repeat (apply Forall_cons; [|]); try apply Forall_nil.
  all: priced_entry.
Qed.

Lemma plain_sets_metered : Forall (fun e => op_metered (snd e)) plain_sets.
Proof.
  pose proof (Forall_and plain_sets_ok plain_sets_price) as H. revert H. apply Forall_impl.
  intros e [H1 H2]. apply plain_has_price; assumption.
Qed.

Lemma create_op_metered :
  op_metered (entry opCreate gasCreate (makeStackFunc 3 1) (Some memoryCreate) [Writes; Returns]).
Proof.
  intros n call gt env ms f Hn Hgt Hf.
  pose proof (priced_mem 1 CreateGas ltac:(split; vm_compute; congruence) ltac:(vm_compute; congruence) gt env ms f Hgt) as Hg.
  revert Hg. unfold wp at 1 2. cbn [gasCost entry]. unfold gasCreate.
  destruct (bind _ _ f) as [[f1 [c|e]]|p|]; auto; intros (E0 & E1 & E2 & E3 & Hc); (split; [exact E1|]); auto.
  destruct Hc as [Hc _]. split; [lia|]. intros Hle f2 Es Eg. unfold is_u64 in Hf. cbn [execute entry].
  apply opCreate_metered; auto; cbn; lia.
Qed.

(** The three instruction sets are metered. *)
Definition metered_set (t : InstructionSet S) : Prop := Forall (fun e => op_metered (snd e)) t.

Lemma call_set_metered : metered_set call_set.
Proof.
  unfold metered_set, call_set. repeat (apply Forall_cons; [|]); try apply Forall_nil; cbn [snd].
  - apply create_op_metered.
  - apply (call_metered _ value_price stipend 3); try reflexivity; [apply price_Call | apply value_price_stipend |].
    intros n g call Hn Hg env f H0 H1 H2. apply opCall_metered; assumption.
  - apply (call_metered _ value_price stipend 3); try reflexivity; [apply price_CallCode | apply value_price_stipend |].
    intros n g call Hn Hg env f H0 H1 H2. apply opCallCode_metered; assumption.
  - apply plain_has_price; [intros env call; cbn [execute entry]; autounfold with vmops; keep | priced_entry].
  - apply plain_has_price; [intros env call; cbn [execute entry]; autounfold with vmops; keep | priced_entry].
Qed.

Lemma frontier_metered : metered_set (NewFrontierInstructionSet Keccak256).
Proof.
  pose proof plain_sets_metered as H. unfold NewFrontierInstructionSet, metered_set, plain_sets in *.
  rewrite !Forall_app in *. intuition. apply call_set_metered.
Qed.

Lemma homestead_metered : metered_set (NewHomesteadInstructionSet Keccak256).
Proof.
  apply Forall_cons; [|apply frontier_metered]. cbn [snd].
  apply (call_metered _ (fun _ => 1) (fun _ => 0) 1); try reflexivity; [apply price_plain_call | intros; lia |].
  intros n g call Hn Hg env f H0 H1 H2. apply opDelegateCall_metered; try assumption; lia.
Qed.

Lemma metropolis_metered : metered_set (NewMetropolisInstructionSet Keccak256).
Proof.
  unfold NewMetropolisInstructionSet. repeat (apply Forall_cons; [cbn [snd]|apply homestead_metered || idtac]).
  - apply plain_has_price; [intros env call; cbn [execute entry]; autounfold with vmops; keep | priced_entry].
  - apply plain_has_price; [intros env call; cbn [execute entry]; autounfold with vmops; keep | priced_entry].
  - apply plain_has_price; [intros env call; cbn [execute entry]; autounfold with vmops; keep | priced_entry].
  - apply (call_metered _ (fun _ => 1) (fun _ => 0) 1); try reflexivity; [apply price_plain_call | intros; lia |].
    intros n g call Hn Hg env f H0 H1 H2. apply opStaticCall_metered; try assumption; lia.
Qed.

Lemma lookup_metered t op : metered_set t -> valid (lookup t op) = true -> op_metered (lookup t op).
Proof.
  induction 1 as [|[o e] t He _ IH]; cbn [lookup]; [discriminate|]. destruct (o =? op); auto.
Qed.

(** ** Steps and runs *)

Section interpreter.
Variable homestead metropolis : Address -> option PrecompiledContract.
Variable env : Env S.
Variable interp : Interpreter S.
Hypothesis Htable : metered_set (JumpTable interp).
Hypothesis Hgt : table_ok (in_gasTable interp).
Hypothesis Hmeter : DisableGasMetering (vmConfig env) = false.
(** The price of a precompiled contract is a [uint64]. *)
Hypothesis Hhomestead : forall a p input g, homestead a = Some p -> RequiredGas p input = Ret g -> 0 <= g.
Hypothesis Hmetropolis : forall a p input g, metropolis a = Some p -> RequiredGas p input = Ret g -> 0 <= g.

Lemma execute_op_metered n call o ms f g : g < 2 ^ 64 ->
  (forall f2, stk f2 = stk f -> gas_of f2 = gas_of f ->
   wp (exec_post (g - (if halts o || reverts o then 0 else 1))) (fun _ => True) (n <= g - 1) (execute o env call) f2) ->
  match execute_op env call o ms f with
  | Done (f', inl _) => 0 <= gas_of f' <= g - 1
  | Done (f', inr _) => 0 <= gas_of f' <= g
  | Crash _ => True
  | Fuel => n <= g - 1
  end.
Proof.
  intros Hg H. unfold execute_op. set (f2 := if _ >? _ then _ else _).
  assert (E : stk f2 = stk f /\ gas_of f2 = gas_of f) by (unfold f2; destruct (_ >? _); auto).
  specialize (H f2 (proj1 E) (proj2 E)). unfold wp, exec_post in H.
  destruct (execute o env call f2) as [[f3 [res|e]]|p|]; auto.
  2: { destruct (op_returns o), (halts o || reverts o); unfold gas_of in *; cbn; lia. }
  set (f4 := if op_returns o then _ else _).
  assert (E4 : gas_of f4 = gas_of f3) by (unfold f4; destruct (op_returns o); reflexivity). cbv zeta.
  destruct (reverts o), (halts o), (negb (jumps o)); unfold gas_of in *; cbn in *; lia.
Qed.

Lemma step_metered n call f : calls_metered n call -> is_u64 (gas_of f) ->
  match step env interp call f with
  | Done (f', inl _) => 0 <= gas_of f' <= gas_of f - 1
  | Done (f', inr _) => 0 <= gas_of f' <= gas_of f
  | Crash _ => True
  | Fuel => n <= gas_of f - 1
  end.
Proof.
  intros Hn Hf. unfold is_u64 in Hf. unfold step. destruct (GetOp _ _) as [op|]; [|exact I]. cbn [of_outcome rbind].
  destruct (enforceRestrictions _ _ _ _ _) as [[e|]|]; cbn [of_outcome rbind]; [lia| |exact I].
  destruct (valid _) eqn:Hv; cbn [negb]; [|lia]. destruct (validateStack _ _); [lia|].
  destruct (memory_size _ _) as [[ms|e]|]; cbn [of_outcome rbind]; [|lia|exact I]. rewrite Hmeter.
  pose proof (lookup_metered _ op Htable Hv n call (in_gasTable interp) env ms f Hn Hgt Hf) as Ho. unfold wp at 1 in Ho.
  destruct (gasCost _ _ _ _ _) as [[f1 [c|e]]|p|]; auto; [|destruct Ho as [E _]; unfold gas_of in *; rewrite E; lia|contradiction].
  destruct Ho as (E & Hc & Ho). rewrite UseGas_spec by (unfold is_u64; rewrite ?E; assumption).
  destruct (Z.ltb_spec (Gas (contract f1)) c) as [L|L]; [unfold gas_of in *; cbn; rewrite E; lia|].
  rewrite E in L. fold (gas_of f) in L. apply execute_op_metered; [lia|].
  intros f2 Es Eg. apply Ho; [exact L | exact Es |]. rewrite Eg. unfold gas_of. cbn. rewrite E. reflexivity.
Qed.

(** *** The calls of the EVM *)

Section calls.
Variable n : Z.
Variable lp : Frame S -> run (Frame S * run_result).
Hypothesis Hlp : forall f, is_u64 (gas_of f) -> metered n (gas_of f) (fun '(f', _) => gas_of f') (lp f).

Definition run_left (r : EVM S * Contract * run_result) : Z := let '(_, c, _) := r in Gas c.

Lemma Run_metered e c input : is_u64 (Gas c) -> metered n (Gas c) run_left (Interpreter_Run lp e c input).
Proof.
  intros Hc. unfold Interpreter_Run. destruct (len (Code c) =? 0); [unfold is_u64 in Hc; cbn; lia|].
  match goal with |- context [lp ?f] => pose proof (Hlp f) as H end. specialize (H Hc). unfold gas_of in H. cbn in H.
  destruct (lp _) as [[f r]|p|]; cbn in *; auto.
Qed.

Lemma evm_run_metered e c input : is_u64 (Gas c) ->
  metered n (Gas c) run_left (evm_run homestead metropolis env lp e c input).
Proof.
  intros Hc. unfold evm_run. destruct (CodeAddr c) as [a|]; [|apply Run_metered, Hc].
  destruct (precompiles _ _ _ a) as [p|] eqn:Ep; [|apply Run_metered, Hc].
  unfold RunPrecompiledContract. destruct (RequiredGas p input) as [g|] eqn:Eg; [|exact I].
  assert (H0 : 0 <= g) by (unfold precompiles in Ep; destruct (IsMetropolis _ _); eauto).
  cbn [obind]. rewrite UseGas_spec by assumption. unfold is_u64 in Hc.
  destruct (Z.ltb_spec (Gas c) g); cbn; [lia|]. destruct (Run p input); cbn; [lia|exact I].
Qed.

Lemma finish_metered snapshot e c r : is_u64 (Gas c) -> metered n (Gas c) left_of (finish snapshot e c r).
Proof.
  intros Hc. destruct r as [out [er|]]; unfold is_u64 in Hc; cbn [finish]; [|cbn; lia].
  destruct (RevertToSnapshot _ _); [|exact I]. cbn.
  destruct (is_reverted er); cbn; [lia|]. unfold UseGas. rewrite Z.ltb_irrefl, Z.sub_diag. cbn. lia.
Qed.

Lemma metered_trans {A : Type} (rest : A -> Z) g g' x : g <= g' -> metered n g rest x -> metered n g' rest x.
Proof. intros H. destruct x; cbn; auto; lia. Qed.

Lemma call_code_metered snapshot c addr input e : is_u64 (Gas c) ->
  metered n (Gas c) left_of (call_code homestead metropolis env lp snapshot c addr input e).
Proof.
  intros Hc. unfold call_code, with_db. destruct (GetCodeHash _ _) as [s1 hash]. destruct (GetCode _ _) as [s2 code].
  change (Gas c) with (Gas (SetCallCode c addr hash code)).
  eapply metered_rbind; [apply evm_run_metered; exact Hc|]. intros [[e' c'] r] H. cbn in H. unfold is_u64 in Hc.
  apply finish_metered. unfold is_u64. lia.
Qed.

Ltac guards :=
  destruct (_ && _); [unfold is_u64 in *; cbn; lia|]; destruct (_ >? _); [unfold is_u64 in *; cbn; lia|].

Lemma Call_run_metered c a i gas v e : is_u64 gas ->
  metered n gas left_of (Call homestead metropolis env lp c a i gas v e).
Proof.
  intros Hg. unfold Call. guards. unfold with_db. destruct (CanTransfer _ _ _ _) as [s1 can].
  destruct (negb can); [unfold is_u64 in Hg; cbn; lia|]. destruct (Snapshot _) as [s2 id]. destruct (Exist _ _) as [s3 found].
  destruct (_ && _ && _ && _); [unfold is_u64 in Hg; cbn; lia|]. cbv zeta. apply (call_code_metered _ (NewContract c (AccountRef a) (Some v) gas)). exact Hg.
Qed.

Lemma CallCode_run_metered c a i gas v e : is_u64 gas ->
  metered n gas left_of (CallCode homestead metropolis env lp c a i gas v e).
Proof.
  intros Hg. unfold CallCode. guards. unfold with_db. destruct (CanTransfer _ _ _ _) as [s1 can].
  destruct (negb can); [unfold is_u64 in Hg; cbn; lia|]. destruct (Snapshot _) as [s2 id]. cbv zeta.
  apply (call_code_metered _ (NewContract c (AccountRef (ref_Address c)) (Some v) gas)). exact Hg.
Qed.

Lemma DelegateCall_run_metered c a i gas e : is_u64 gas ->
  metered n gas left_of (DelegateCall homestead metropolis env lp c a i gas e).
Proof.
  intros Hg. unfold DelegateCall. guards. unfold with_db. destruct (Snapshot _) as [s2 id]. cbv zeta.
  unfold AsDelegate. destruct (ref_Contract _) as [[pc pv]|]; [|exact I]. cbn [of_outcome rbind].
  match goal with |- context [call_code _ _ _ _ _ ?c _ _ _] => apply (call_code_metered _ c) end. exact Hg.
Qed.

Lemma StaticCall_run_metered c a i gas e : is_u64 gas ->
  metered n gas left_of (StaticCall homestead metropolis env lp c a i gas e).
Proof.
  intros Hg. unfold StaticCall. guards. unfold with_db. destruct (Snapshot _) as [s2 id]. cbv zeta.
  eapply metered_rbind; [apply (call_code_metered _ (NewContract c (AccountRef a) (Some 0) gas)); exact Hg|]. intros [e' [[out rest] err]] H. cbn in *. lia.
Qed.

Lemma create_finish_metered snapshot a e c r : is_u64 (Gas c) ->
  metered n (Gas c) create_left (create_finish env snapshot a e c r).
Proof.
  intros Hc. unfold create_finish. destruct r as [out err].
  assert (Huse : forall c', 0 <= Gas c' <= Gas c -> 0 <= Gas (fst (UseGas c' (Gas c'))) <= Gas c).
  { intros c' H. unfold UseGas. rewrite Z.ltb_irrefl, Z.sub_diag. cbn. lia. }
  set (x := match err with Some er => _ | None => _ end).
  assert (Hx : let '(_, c', _) := x in 0 <= Gas c' <= Gas c).
  { unfold x, is_u64 in *. destruct err; [cbn; lia|]. destruct (negb _); [|cbn; lia].
    rewrite UseGas_spec by (try apply u64_range; assumption). pose proof (u64_range (u64 (len out) * CreateDataGas)).
    destruct (Z.ltb_spec (Gas c) (u64 (u64 (len out) * CreateDataGas))); cbn; lia. }
  destruct x as [[e1 c1] err1]. cbv zeta. destruct (_ || _).
  - destruct (RevertToSnapshot _ _); [|exact I]. cbn. destruct (negb (err_is _ _)); cbn; auto.
  - cbn. exact Hx.
Qed.

Lemma Create_run_metered c i gas v e : is_u64 gas ->
  metered n gas create_left (Create Keccak256 homestead metropolis env lp c i gas v e).
Proof.
  intros Hg. unfold Create. guards. unfold with_db. destruct (CanTransfer _ _ _ _) as [s1 can].
  destruct (negb can); [unfold is_u64 in Hg; cbn; lia|]. destruct (GetNonce _ _) as [s2 nonce]. cbv zeta.
  destruct (CreateAddress _ _ _) as [addr|]; [|exact I]. cbn [of_outcome rbind].
  destruct (GetCodeHash _ _) as [s3 hash]. destruct (GetNonce _ _) as [s4 nn].
  destruct (_ || _); [unfold is_u64 in Hg; cbn; lia|]. destruct (Snapshot _) as [s5 id].
  eapply metered_rbind;
    [match goal with |- context [evm_run _ _ _ _ _ ?c _] => apply (evm_run_metered _ c) end; exact Hg|]. intros [[e' c'] r] H. cbn in H. unfold is_u64 in Hg.
  apply create_finish_metered. unfold is_u64. lia.
Qed.

Lemma call_ops_metered : calls_metered n (call_ops Keccak256 homestead metropolis env lp).
Proof.
  split; intros; [apply Call_run_metered | apply CallCode_run_metered | apply DelegateCall_run_metered
                 | apply StaticCall_run_metered | apply Create_run_metered]; assumption.
Qed.

End calls.

Lemma loop_metered fuel f : is_u64 (gas_of f) ->
  metered (Z.of_nat fuel) (gas_of f) (fun '(f', _) => gas_of f')
    (loop Keccak256 homestead metropolis env interp fuel f).
Proof.
  revert f. induction fuel as [|fuel IH]; intros f Hf; [unfold is_u64 in Hf; cbn; lia|].
  cbn [loop]. unfold LoadAbort. destruct (abort env (loads (evm f)) =? 0); [|unfold is_u64, gas_of in *; cbn; lia].
  set (f0 := set_evm _ _). assert (E : gas_of f0 = gas_of f) by reflexivity. rewrite <- E in *. clearbody f0. clear E f.
  pose proof (step_metered (Z.of_nat fuel) _ f0 (call_ops_metered (Z.of_nat fuel) _ IH) Hf) as Hs. unfold is_u64 in Hf.
  destruct (step _ _ _ f0) as [[f1 [u|r]]|p|]; cbn [rbind metered]; [|exact Hs|exact I|lia].
  specialize (IH f1 ltac:(unfold is_u64; lia)). destruct (loop _ _ _ _ _ fuel f1) as [[f2 r]|p|]; cbn [metered] in *; auto; lia.
Qed.

End interpreter.
End termination.
