(* ===== verification/VmEvolve.v ===== *)
(** * How a run changes the state database

    Every change a run makes to the state is a sequence of method calls of the
    interface, with a revert to a snapshot only from within the call that took
    it.  In read-only mode the sequence has no writing method.  What follows from
    this, for any database that keeps the laws of snapshots, is in
    [VmTheorems.v]. *)

From Stdlib Require Import ZArith List Lia Bool RelationClasses.
From S2P Require Import Prelude GoBig VmCommon CommonTypes Params VmContract Precompiles.
From S2P Require Import VmMemory VmOpcodes VmState VmGas VmOps VmJumpTable VmInterp VmHoare VmTermination.
Import ListNotations.
Local Open Scope Z_scope.

(** ** Sequences of method calls *)

Section evolves.
Context {S : Type} {DB : StateDB S}.

(** One query, and a sequence of them. *)
Inductive dbread : S -> S -> Prop :=
| dr_GetBalance a s : dbread s (fst (GetBalance a s))
| dr_GetNonce a s : dbread s (fst (GetNonce a s))
| dr_GetCodeHash a s : dbread s (fst (GetCodeHash a s))
| dr_GetCode a s : dbread s (fst (GetCode a s))
| dr_GetCodeSize a s : dbread s (fst (GetCodeSize a s))
| dr_GetState a k s : dbread s (fst (GetState a k s))
| dr_HasSuicided a s : dbread s (fst (HasSuicided a s))
| dr_Exist a s : dbread s (fst (Exist a s))
| dr_Empty a s : dbread s (fst (Empty a s)).

Inductive dbreads : S -> S -> Prop :=
| rd_refl s : dbreads s s
| rd_step s1 s2 s3 : dbread s1 s2 -> dbreads s2 s3 -> dbreads s1 s3.

(** One method call, or the calls of a transfer or of a [SELFDESTRUCT]; the
    writing ones are not for read-only mode. *)
Inductive dbstep (ro : bool) : S -> S -> Prop :=
| ds_Snapshot s : dbstep ro s (fst (Snapshot s))
| ds_AddPreimage h d s : dbstep ro s (AddPreimage h d s)
| ds_CreateMissing a s : snd (Exist a s) = false -> dbstep ro s (CreateAccount a (fst (Exist a s)))
| ds_Transfer a b v s : (ro = true -> v = 0) -> dbstep ro s (AddBalance b v (SubBalance a v s))
| ds_CreateAccount a s : ro = false -> dbstep ro s (CreateAccount a s)
| ds_SetNonce a n s : ro = false -> dbstep ro s (SetNonce a n s)
| ds_SetCode a c s : ro = false -> dbstep ro s (db_SetCode a c s)
| ds_AddRefund g s : ro = false -> dbstep ro s (AddRefund g s)
| ds_SetState a k v s : ro = false -> dbstep ro s (SetState a k v s)
| ds_Destroy a b s : ro = false ->
    dbstep ro s (fst (Suicide a (AddBalance b (snd (GetBalance a s)) (fst (GetBalance a s)))))
| ds_AddLog l s : ro = false -> dbstep ro s (AddLog l s)
| ds_read s s' : dbread s s' -> dbstep ro s s'.

Inductive evolves (ro : bool) : S -> S -> Prop :=
| ev_refl s : evolves ro s s
| ev_step s1 s2 s3 : dbstep ro s1 s2 -> evolves ro s2 s3 -> evolves ro s1 s3
| ev_revert s1 s2 s3 s4 : evolves ro (fst (Snapshot s1)) s2 -> RevertToSnapshot (snd (Snapshot s1)) s2 = Ret s3 ->
    evolves ro s3 s4 -> evolves ro s1 s4.

Lemma evolves_trans ro s1 s2 s3 : evolves ro s1 s2 -> evolves ro s2 s3 -> evolves ro s1 s3.
Proof.
  intros H12 H23. induction H12 as [s|s1 s2' s2 H H' IH|s1 s2' s3' s4 H IH Hr H' IH'].
  - exact H23.
  - apply (ev_step ro _ _ _ H), IH, H23.
  - apply (ev_revert ro _ _ _ _ H Hr), IH', H23.
Qed.

#[export] Instance evolves_preorder ro : PreOrder (evolves ro).
Proof. split; [intros s; apply ev_refl | intros s1 s2 s3; apply evolves_trans]. Qed.

Lemma evolves_one ro s s' : dbstep ro s s' -> evolves ro s s'.
Proof. intros H. apply (ev_step ro _ _ _ H), ev_refl. Qed.

Lemma dbstep_mono ro s s' : dbstep ro s s' -> dbstep false s s'.
Proof. destruct 1; constructor; auto; discriminate. Qed.

Lemma evolves_mono ro s s' : evolves ro s s' -> evolves false s s'.
Proof.
  induction 1 as [s|s1 s2' s2 H H' IH|s1 s2' s3' s4 H IH Hr H' IH'].
  - apply ev_refl.
  - apply (ev_step false _ _ _ (dbstep_mono ro _ _ H)), IH.
  - apply (ev_revert false _ _ _ _ IH Hr), IH'.
Qed.

Lemma dbreads_evolves ro s s' : dbreads s s' -> evolves ro s s'.
Proof. induction 1 as [s|s1 s2 s3 H _ IH]; [apply ev_refl | apply (ev_step ro _ _ _ (ds_read ro _ _ H)), IH]. Qed.

Lemma dbreads_trans s1 s2 s3 : dbreads s1 s2 -> dbreads s2 s3 -> dbreads s1 s3.
Proof. induction 1 as [|? ? ? H _ IH]; auto. intros H'. apply (rd_step _ _ _ H), IH, H'. Qed.

Lemma dbreads_one s s' : dbread s s' -> dbreads s s'.
Proof. intros H. apply (rd_step _ _ _ H), rd_refl. Qed.

(** ** Frames *)

Variable env : Env S.

(** Read-only mode counts under the Metropolis rules only. *)
Definition ro_of (e : EVM S) : bool := r_IsMetropolis (chainRules env) && readOnly e.

(** From a machine in mode [ro], the state evolves and the mode and depth stay. *)
Definition evm_rel (ro : bool) (e e' : EVM S) : Prop :=
  ro_of e = ro -> evolves ro (statedb e) (statedb e') /\ readOnly e' = readOnly e /\ depth e' = depth e.

#[export] Instance evm_rel_preorder ro : PreOrder (evm_rel ro).
Proof.
  split; [intros e _; split; [apply ev_refl|split; reflexivity]|]. intros e1 e2 e3 H12 H23 E.
  destruct (H12 E) as (V1 & R1 & D1). unfold ro_of in *.
  destruct H23 as (V2 & R2 & D2); [unfold ro_of; rewrite R1; exact E|].
  split; [apply (evolves_trans ro _ _ _ V1 V2)|]. split; congruence.
Qed.

Definition frame_rel (ro : bool) (f f' : Frame S) : Prop := evm_rel ro (evm f) (evm f').

#[export] Instance frame_rel_lax ro : Lax (frame_rel ro).
Proof.
  split; try (intros; unfold frame_rel; cbn; reflexivity).
  split; [intros f; unfold frame_rel; reflexivity|]. intros f1 f2 f3. unfold frame_rel. etransitivity; eassumption.
Qed.

Lemma frame_refl ro (f : Frame S) : frame_rel ro f f.
Proof. unfold frame_rel. reflexivity. Qed.

Lemma evm_rel_db ro (e : EVM S) s : evolves ro (statedb e) s -> evm_rel ro e (set_statedb e s).
Proof. intros H _. split; [exact H|]. split; reflexivity. Qed.

Lemma rel_query {A : Type} F ro (q : S -> S * A) : (forall s, dbstep ro s (fst (q s))) -> keeps F (frame_rel ro) (query q).
Proof.
  intros H f. unfold query. specialize (H (statedb (evm f))). destruct (q _) as [s a].
  apply evm_rel_db, evolves_one, H.
Qed.

Lemma rel_update F ro u : (forall s, dbstep ro s (u s)) -> keeps F (frame_rel ro) (update u).
Proof. intros H f. apply evm_rel_db, evolves_one, H. Qed.

Lemma rel_has_dest F ro pos : keeps F (frame_rel ro) (has_dest pos).
Proof.
  intros f. unfold has_dest. destruct (has _ _ _ _) as [[b d]|]; [|exact I]. intros _. split; [apply ev_refl|split; reflexivity].
Qed.

Lemma rel_use_gas F ro g : keeps F (frame_rel ro) (use_gas g).
Proof. intros f. unfold use_gas. destruct (UseGas _ _). unfold frame_rel. cbn. reflexivity. Qed.

Lemma rel_add_gas F ro g : keeps F (frame_rel ro) (add_gas g).
Proof. intros f. unfold frame_rel. cbn. reflexivity. Qed.

(** ** Operations *)

Definition call_rel {A : Type} (ro : bool) (c : EVM S -> run (EVM S * A)) : Prop :=
  forall e, match c e with Done (e', _) => evm_rel ro e e' | Crash _ | Fuel => True end.

(** What an instruction needs of the methods it calls. *)
Record calls_rel (call : CallOps S) : Prop := {
  Call_rel ro c a i gas v : (ro = true -> v = 0) -> call_rel ro (c_Call call c a i gas v);
  CallCode_rel ro c a i gas v : call_rel ro (c_CallCode call c a i gas v);
  DelegateCall_rel ro c a i gas : call_rel ro (c_DelegateCall call c a i gas);
  StaticCall_rel ro c a i gas : call_rel ro (c_StaticCall call c a i gas);
  Create_rel c i gas v : call_rel false (c_Create call c i gas v) }.

Lemma rel_calls {A : Type} ro (c : EVM S -> run (EVM S * A)) : call_rel ro c -> keeps True (frame_rel ro) (calls c).
Proof.
  intros H f. specialize (H (evm f)). unfold calls. destruct (c (evm f)) as [[e a]|p|]; auto.
Qed.

Definition op_evolves (ro : bool) (o : operation S) : Prop :=
  (forall gt ms, keeps True (frame_rel ro) (gasCost o gt env ms)) /\
  (forall call, calls_rel call -> keeps True (frame_rel ro) (execute o env call)).

Hint Resolve rel_has_dest rel_use_gas rel_add_gas : keeps.
Hint Extern 2 (keeps _ (frame_rel _) (query _)) => apply rel_query; intros; solve [constructor; reflexivity | apply ds_read; constructor] : keeps.
Hint Extern 2 (keeps _ (frame_rel _) (update _)) => apply rel_update; intros; constructor; reflexivity : keeps.

(** The balance goes to the beneficiary before the account is marked. *)
Lemma opSuicide_evolves call : keeps True (frame_rel false) (opSuicide env call).
Proof.
  intros f. change (wp (fun f' _ => frame_rel false f f') (fun _ => True) True (opSuicide env call) f).
  unfold opSuicide. wp1. wp1. popped x st. wp1. wp1. wp1.
  intros _. cbn [evm set_evm statedb set_statedb]. split; [apply evolves_one, ds_Destroy; reflexivity|split; reflexivity].
Qed.

Variable Keccak256 : list Z -> list Z.

(** Any operation evolves the state when it may write, and one that does not
    write, [CALL] apart, in either mode. *)
Ltac op_keep := split; cbn [gasCost execute entry]; [intros gt ms; autounfold with vmgas | intros call Hcall; try solve [apply opSuicide_evolves]; autounfold with vmops]; keep.

Lemma plain_evolves ro : Forall (fun e => (ro = true -> writes (snd e) = false) -> op_evolves ro (snd e)) (plain_sets Keccak256).
Proof.
  unfold plain_sets. rewrite !Forall_app. repeat match goal with |- _ /\ _ => split end.
  all: unfold arithmetic_set, environment_set, storage_set, push_set, dup_set, swap_set, log_set.
  all: repeat (apply Forall_cons; [|]); try apply Forall_nil.
  all: cbn [snd entry writes existsb flag_eqb orb]; intros Hro; try (assert (ro = false) by (destruct ro; auto; discriminate (Hro eq_refl)); subst ro).
  all: unfold op_evolves; cbn [gasCost execute entry]; op_keep.
Qed.

Definition evolving_set (ro : bool) (t : InstructionSet S) : Prop :=
  Forall (fun e : Z * operation S => fst e <> CALL -> (ro = true -> writes (snd e) = false) -> op_evolves ro (snd e)) t.

Hint Extern 1 (keeps _ _ (calls (c_CallCode _ _ _ _ _ _))) => apply rel_calls, CallCode_rel; assumption : keeps.
Hint Extern 1 (keeps _ _ (calls (c_DelegateCall _ _ _ _ _))) => apply rel_calls, DelegateCall_rel; assumption : keeps.
Hint Extern 1 (keeps _ _ (calls (c_StaticCall _ _ _ _ _))) => apply rel_calls, StaticCall_rel; assumption : keeps.
Hint Extern 1 (keeps _ _ (calls (c_Create _ _ _ _ _))) => apply rel_calls, Create_rel; assumption : keeps.

Ltac entries :=
  repeat (apply Forall_cons; [|]); try apply Forall_nil;
  cbn [fst snd entry writes existsb flag_eqb orb]; intros Hop Hro; try congruence;
  unfold op_evolves; cbn [gasCost execute entry].

Lemma call_set_evolves ro : evolving_set ro call_set.
Proof.
  unfold evolving_set, call_set. entries.
  all: try (assert (ro = false) by (destruct ro; auto; discriminate (Hro eq_refl)); subst ro).
  all: op_keep.
Qed.

Lemma frontier_evolves ro : evolving_set ro (NewFrontierInstructionSet Keccak256).
Proof.
  pose proof (plain_evolves ro) as H. unfold NewFrontierInstructionSet, evolving_set, plain_sets in *.
  assert (Himp : forall t : InstructionSet S,
    Forall (fun e => (ro = true -> writes (snd e) = false) -> op_evolves ro (snd e)) t -> evolving_set ro t).
  { intros t. apply Forall_impl. auto. }
  rewrite !Forall_app in *. decompose [and] H. repeat split; try (apply Himp; assumption). apply call_set_evolves.
Qed.

Lemma homestead_evolves ro : evolving_set ro (NewHomesteadInstructionSet Keccak256).
Proof. apply Forall_cons; [|apply frontier_evolves]. cbn [fst snd]. intros _ _. op_keep. Qed.

Lemma metropolis_evolves ro : evolving_set ro (NewMetropolisInstructionSet Keccak256).
Proof.
  unfold NewMetropolisInstructionSet. repeat (apply Forall_cons; [|apply homestead_evolves || idtac]); cbn [fst snd];
    intros _ _; op_keep.
Qed.

(** [CALL]: in read-only mode the value must be zero. *)
Lemma gasCall_evolves ro gt ms : keeps True (frame_rel ro) (gasCall gt env ms).
Proof. autounfold with vmgas. keep. Qed.

Lemma call_return_evolves ro o n r : keeps True (frame_rel ro) (call_return o n r).
Proof. destruct r as [[res rest] err]. unfold call_return. keep. Qed.

Lemma opCall_evolves ro call f : calls_rel call -> (ro = true -> nth 2 (stk f) 0 = 0) ->
  wp (fun f' _ => frame_rel ro f f') (fun _ => True) True (opCall env call) f.
Proof.
  intros Hc Hv. unfold opCall. wp1. destruct (stk f) as [|cg st]; [exact I|]. popped a st1. popped v st2.
  popped io st3. popped iz st4. popped oo st5. popped os st6. call_made. cbn [nth] in Hv. wp1.
  match goal with |- context [c_Call call ?c ?a ?i ?g ?v ?e] =>
    pose proof (Call_rel call Hc ro c a i g v) as H; specialize (H ltac:(intros E; rewrite (Hv E); reflexivity) e) end.
  destruct (c_Call _ _ _ _ _ _ _) as [[e r]|p|]; [|exact I..].
  pose proof (call_return_evolves ro oo os r) as Hr.
  match goal with |- wp _ _ _ _ ?f' => specialize (Hr f') end. unfold wp.
  destruct (call_return oo os r _) as [[f1 res]|p|]; [|exact I..]. unfold frame_rel in *. cbn in Hr. etransitivity; eassumption.
Qed.

(** ** Steps and calls *)

Section run.
Variables homestead metropolis : Address -> option PrecompiledContract.
Variable interp : Interpreter S.
Hypothesis Htable : forall ro, evolving_set ro (JumpTable interp).
Hypothesis Hcall_op : valid (lookup (JumpTable interp) CALL) = true ->
  execute (lookup (JumpTable interp) CALL) = opCall /\ gasCost (lookup (JumpTable interp) CALL) = gasCall.
Hypothesis Hgt : table_ok (in_gasTable interp).
(** The two functions of the context only use the state through its methods. *)
Hypothesis HCan : forall a v s, dbreads s (fst (CanTransfer (context env) a v s)).
Hypothesis HTransfer : forall ro a b v s, (ro = true -> v = 0) -> evolves ro s (Transfer (context env) a b v s).

Lemma lookup_evolves ro (op : Z) : op <> CALL -> valid (lookup (JumpTable interp) op) = true ->
  (ro = true -> writes (lookup (JumpTable interp) op) = false) -> op_evolves ro (lookup (JumpTable interp) op).
Proof.
  specialize (Htable ro). revert Htable. generalize (JumpTable interp) as t. intros t Ht.
  induction Ht as [|[o e] t He _ IH]; cbn [lookup]; [discriminate|].
  destruct (Z.eqb_spec o op) as [->|]; [intros N _ W; exact (He N W) | exact IH].
Qed.

Lemma execute_op_evolves ro call o ms f :
  (forall f2, evm f2 = evm f -> stk f2 = stk f ->
   wp (fun f' _ => frame_rel ro f2 f') (fun _ => True) True (execute o env call) f2) ->
  match execute_op env call o ms f with Done (f', _) => frame_rel ro f f' | Crash _ | Fuel => True end.
Proof.
  intros H. unfold execute_op. set (f2 := if _ >? _ then _ else _).
  assert (E : evm f2 = evm f /\ stk f2 = stk f) by (unfold f2; destruct (_ >? _); auto).
  specialize (H f2 (proj1 E) (proj2 E)). unfold wp in H.
  destruct (execute o env call f2) as [[f3 r]|p|]; auto. set (f4 := if op_returns o then _ else _).
  assert (H4 : frame_rel ro f f4).
  { unfold frame_rel in *. rewrite (proj1 E) in H. etransitivity; [exact H|].
    unfold f4. destruct (op_returns o); [|reflexivity]. intros _. split; [apply ev_refl|split; reflexivity]. }
  destruct r as [res|e]; [|exact H4]. destruct (reverts o), (halts o), (negb (jumps o)); exact H4.
Qed.

Lemma restrict_writes ro op o e st : ro_of e = ro -> enforceRestrictions env op o e st = Ret None ->
  (ro = true -> writes o = false) /\ (ro = true -> op = CALL -> nth 2 st 0 = 0).
Proof.
  unfold ro_of, enforceRestrictions. intros Hro. destruct (r_IsMetropolis _); [|subst ro; split; discriminate].
  destruct (readOnly e); [|subst ro; split; discriminate]. destruct (writes o); [discriminate|].
  destruct (Z.eqb_spec op CALL) as [->|N]; [|split; [auto|contradiction]].
  destruct (stack.Back st 2) as [v|] eqn:Ev; [|discriminate]. cbn [obind]. apply back_nth in Ev.
  change (Z.to_nat 2) with 2%nat in Ev. rewrite Ev. destruct (Z.gtb_spec (BitLen v) 0) as [|L]; [discriminate|].
  intros _. split; [auto|]. intros _ _. apply BitLen_le_iff in L; lia.
Qed.

Section operation.
Context (ro : bool) (op : Z).
Let o := lookup (JumpTable interp) op.
Hypothesis Hvalid : valid o = true.
Hypothesis Hwrites : ro = true -> writes o = false.

(** The price of [CALL] does not move its value operand. *)
Lemma gas_evolves ms f :
  match gasCost o (in_gasTable interp) env ms f with
  | Done (f', r) => frame_rel ro f f' /\ (op = CALL -> nth 2 (stk f') 0 = nth 2 (stk f) 0 \/ exists e, r = Err e)
  | Crash _ | Fuel => True
  end.
Proof using Hcall_op Hgt Htable Hvalid Hwrites.
  destruct (Z.eq_dec op CALL) as [E|N].
  - unfold o in *. clear o. subst op. rewrite (proj2 (Hcall_op Hvalid)).
    pose proof (gasCall_evolves ro (in_gasTable interp) ms f) as H1.
    pose proof (price_Call (in_gasTable interp) env ms f Hgt) as H2. unfold wp in H2.
    destruct (gasCall _ _ _ _) as [[f1 [c|e]]|p|]; auto; split; auto; intros _; [left|right; eauto].
    destruct H2 as (_ & _ & _ & cg & -> & _). apply nth2_tl.
  - pose proof (proj1 (lookup_evolves ro op N Hvalid Hwrites) (in_gasTable interp) ms f) as H1. fold o in H1.
    destruct (gasCost _ _ _ _ _) as [[f1 r]|p|]; auto. split; [exact H1|contradiction].
Qed.

Lemma exec_evolves call f : calls_rel call -> (ro = true -> op = CALL -> nth 2 (stk f) 0 = 0) ->
  wp (fun f' _ => frame_rel ro f f') (fun _ => True) True (execute o env call) f.
Proof using Hcall_op Htable Hvalid Hwrites.
  intros Hc Hz. destruct (Z.eq_dec op CALL) as [E|N].
  - unfold o in *. clear o. subst op. rewrite (proj1 (Hcall_op Hvalid)). apply opCall_evolves; auto.
  - pose proof (proj2 (lookup_evolves ro op N Hvalid Hwrites) call Hc f) as H1. fold o in H1. unfold wp.
    destruct (execute _ _ _ _) as [[f1 r]|p|]; auto.
Qed.

End operation.

Lemma step_evolves ro call f : calls_rel call -> ro_of (evm f) = ro ->
  match step env interp call f with Done (f', _) => frame_rel ro f f' | Crash _ | Fuel => True end.
Proof using Hcall_op Hgt Htable.
  intros Hc Hro. unfold step. destruct (GetOp _ _) as [op|]; [|exact I]. cbn [of_outcome rbind].
  destruct (enforceRestrictions _ _ _ _ _) as [[e|]|] eqn:Er; cbn [of_outcome rbind]; [apply frame_refl| |exact I].
  destruct (restrict_writes ro op _ _ _ Hro Er) as [Hw Hv].
  destruct (valid (lookup _ op)) eqn:Hvalid; cbn [negb]; [|apply frame_refl].
  destruct (validateStack _ _); [apply frame_refl|].
  destruct (memory_size _ _) as [[ms|e]|]; cbn [of_outcome rbind]; [|apply frame_refl|exact I].
  destruct (DisableGasMetering _).
  { apply execute_op_evolves. intros f2 _ Es. apply exec_evolves; auto. rewrite Es. exact Hv. }
  pose proof (gas_evolves ro op Hvalid Hw ms f) as Hg.
  destruct (gasCost _ _ _ _ _) as [[f1 [c|e]]|p|]; auto; [|apply Hg]. destruct Hg as [Hg Hn].
  destruct (UseGas (contract f1) c) as [c' [|]]; [|exact Hg]. cbv zeta.
  pose proof (execute_op_evolves ro call (lookup (JumpTable interp) op) ms (set_contract f1 c')) as He.
  destruct (execute_op _ _ _ _ _) as [[f2 r]|p|]; auto. unfold frame_rel in *. transitivity (evm f1); [exact Hg|].
  apply He. intros f3 _ Es. apply exec_evolves; auto. rewrite Es. cbn [stk set_contract]. intros E1 E2.
  destruct (Hn E2) as [->|(e & [=])]. auto.
Qed.

(** What a call leaves: the state evolved under the snapshot it took, or, on an
    error, what the revert to that snapshot made of it. *)
Definition committed (ro : bool) (s1 s' : S) (err : option vmErr) : Prop :=
  match err with
  | None => evolves ro (fst (Snapshot s1)) s'
  | Some _ => exists s2, evolves ro (fst (Snapshot s1)) s2 /\ RevertToSnapshot (snd (Snapshot s1)) s2 = Ret s'
  end.

Lemma committed_evolves ro s1 s' (err : option vmErr) : committed ro s1 s' err -> evolves ro s1 s'.
Proof.
  destruct err; cbn; [intros (s2 & H1 & H2); apply (ev_revert ro _ _ _ _ H1 H2), ev_refl|].
  apply ev_step. constructor.
Qed.

Definition call_err (r : call_result) : option vmErr := snd r.

(** A call: before its snapshot it takes the state to one in [Q]. *)
Definition call_post (ro : bool) (Q : S -> Prop) (e e' : EVM S) (err : option vmErr) : Prop :=
  (readOnly e' = readOnly e /\ depth e' = depth e) /\
  exists s1, Q s1 /\ (statedb e' = s1 \/ committed ro s1 (statedb e') err).

Lemma call_post_rel ro (Q : S -> Prop) e e' err : (forall s, Q s -> evolves ro (statedb e) s) ->
  call_post ro Q e e' err -> evm_rel ro e e'.
Proof.
  intros HQ (H & s1 & H1 & H2) _. split; [|exact H]. apply (evolves_trans ro _ s1); [exact (HQ _ H1)|].
  destruct H2 as [->|H2]; [apply ev_refl | exact (committed_evolves ro _ _ _ H2)].
Qed.

Lemma call_post_here ro (Q : S -> Prop) e e' err : Q (statedb e') -> readOnly e' = readOnly e -> depth e' = depth e ->
  call_post ro Q e e' err.
Proof. intros H R D. split; [auto|]. exists (statedb e'). auto. Qed.

Section calls.
Variable lp : Frame S -> run (Frame S * run_result).
Hypothesis Hloop : forall ro f, match lp f with Done (f', _) => frame_rel ro f f' | Crash _ | Fuel => True end.

Lemma with_db_eq {A B : Type} (q : S -> S * A) e (k : A -> EVM S -> run B) :
  with_db q e k = k (snd (q (statedb e))) (set_statedb e (fst (q (statedb e)))).
Proof. unfold with_db. destruct (q (statedb e)); reflexivity. Qed.

Lemma Run_rel ro e c i :
  match Interpreter_Run lp e c i with Done (e', _, _) => evm_rel ro e e' | Crash _ | Fuel => True end.
Proof.
  unfold Interpreter_Run. destruct (_ =? 0).
  { intros _. cbn. split; [apply ev_refl|]. split; [reflexivity|lia]. }
  match goal with |- context [lp ?f] => pose proof (Hloop ro f) as H; destruct (lp f) as [[f' r]|p|] end; auto.
  cbn in *. intros E. destruct (H E) as (V & R & D). cbn in *. repeat split; auto. lia.
Qed.

Lemma evm_run_rel ro e c i :
  match evm_run homestead metropolis env lp e c i with Done (e', _, _) => evm_rel ro e e' | Crash _ | Fuel => True end.
Proof.
  unfold evm_run. destruct (match CodeAddr c with Some a => _ | None => None end) as [p|]; [|apply Run_rel].
  destruct (RunPrecompiledContract p i c) as [[r c']|]; cbn; [reflexivity|exact I].
Qed.

Lemma new_dests_rel caller (e : EVM S) : statedb (new_dests caller e) = statedb e /\ readOnly (new_dests caller e) = readOnly e /\
  depth (new_dests caller e) = depth e.
Proof. unfold new_dests. destruct (ref_Contract caller); repeat split. Qed.

Lemma finish_post ro s1 e c r : evolves ro (fst (Snapshot s1)) (statedb e) ->
  match finish (snd (Snapshot s1)) e c r with
  | Done (e', res) => committed ro s1 (statedb e') (call_err res) /\ readOnly e' = readOnly e /\ depth e' = depth e
  | Crash _ | Fuel => True
  end.
Proof.
  intros H. destruct r as [out [er|]]; unfold finish; [|cbn; auto].
  destruct (RevertToSnapshot _ _) as [s|] eqn:Er; cbn [of_outcome rbind]; [|exact I]. cbn. split; [|auto]. eauto.
Qed.

Lemma call_code_post ro s1 c addr i e : evolves ro (fst (Snapshot s1)) (statedb e) -> ro_of e = ro ->
  match call_code homestead metropolis env lp (snd (Snapshot s1)) c addr i e with
  | Done (e', res) => committed ro s1 (statedb e') (call_err res) /\ readOnly e' = readOnly e /\ depth e' = depth e
  | Crash _ | Fuel => True
  end.
Proof.
  intros H Hro. unfold call_code. rewrite !with_db_eq. cbv beta.
  match goal with |- context [evm_run _ _ _ _ ?e ?c ?i] => pose proof (evm_run_rel ro e c i) as H1;
    destruct (evm_run _ _ _ _ e c i) as [[[e1 c1] r]|p|] end; [|exact I..]. cbn [rbind].
  destruct (H1 Hro) as (V & R & D). cbn [set_statedb statedb readOnly depth] in *.
  pose proof (finish_post ro s1 e1 c1 r) as Hf. destruct (finish _ _ _ _) as [[e' res]|p|]; auto.
  rewrite <- R, <- D. apply Hf. apply (evolves_trans ro _ _ _ H).
  apply (ev_step ro _ _ _ (ds_read ro _ _ (dr_GetCodeHash addr _))), (ev_step ro _ _ _ (ds_read ro _ _ (dr_GetCode addr _))), V.
Qed.


(** The prefix of a method that has taken its snapshot at [s1]. *)
Lemma called_post ro (Q : S -> Prop) s1 caller c addr i e0 e : Q s1 -> ro_of e = ro ->
  readOnly e = readOnly e0 -> depth e = depth e0 -> evolves ro (fst (Snapshot s1)) (statedb e) ->
  match call_code homestead metropolis env lp (snd (Snapshot s1)) c addr i (new_dests caller e) with
  | Done (e', res) => call_post ro Q e0 e' (call_err res)
  | Crash _ | Fuel => True
  end.
Proof using Hloop.
  intros HQ Hro R D V. destruct (new_dests_rel caller e) as (E1 & E2 & E3).
  pose proof (call_code_post ro s1 c addr i (new_dests caller e)) as H. rewrite E1, E2, E3 in H. unfold ro_of in *.
  rewrite E2 in H. specialize (H V Hro). destruct (call_code _ _ _ _ _ _ _ _ _) as [[e' res]|p|]; auto.
  destruct H as (H & R' & D'). split; [split; congruence|]. exists s1. auto.
Qed.

Lemma CallCode_post ro caller addr i gas v e : ro_of e = ro ->
  match CallCode homestead metropolis env lp caller addr i gas v e with
  | Done (e', res) => call_post ro (dbreads (statedb e)) e e' (call_err res)
  | Crash _ | Fuel => True
  end.
Proof using HCan Hloop.
  intros Hro. unfold CallCode. destruct (_ && _); [apply call_post_here; constructor|].
  destruct (_ >? _); [apply call_post_here; constructor|]. rewrite with_db_eq.
  destruct (negb _); [apply call_post_here; [apply HCan|reflexivity..]|]. rewrite with_db_eq. cbv zeta.
  apply called_post; auto; try apply HCan. apply ev_refl.
Qed.

Lemma DelegateCall_post ro caller addr i gas e : ro_of e = ro ->
  match DelegateCall homestead metropolis env lp caller addr i gas e with
  | Done (e', res) => call_post ro (dbreads (statedb e)) e e' (call_err res)
  | Crash _ | Fuel => True
  end.
Proof using Hloop.
  intros Hro. unfold DelegateCall. destruct (_ && _); [apply call_post_here; constructor|].
  destruct (_ >? _); [apply call_post_here; constructor|]. rewrite with_db_eq. cbv zeta.
  destruct (AsDelegate _) as [c|]; cbn [of_outcome rbind]; [|exact I]. apply called_post; auto; [constructor|apply ev_refl].
Qed.

Lemma StaticCall_post caller addr i gas e :
  match StaticCall homestead metropolis env lp caller addr i gas e with
  | Done (e', res) => call_post (r_IsMetropolis (chainRules env)) (dbreads (statedb e)) e e' (call_err res)
  | Crash _ | Fuel => True
  end.
Proof using Hloop.
  unfold StaticCall. destruct (_ && _); [apply call_post_here; constructor|].
  destruct (_ >? _); [apply call_post_here; constructor|]. rewrite with_db_eq. cbv zeta.
  set (e1 := set_readOnly e true).
  match goal with |- context [call_code _ _ _ _ _ ?c ?a ?i (new_dests ?cl ?e2)] =>
    pose proof (called_post (r_IsMetropolis (chainRules env)) (dbreads (statedb e)) (statedb e1) cl c a i e1 e2) as H end.
  destruct (call_code _ _ _ _ _ _ _ _ _) as [[e' res]|p|]; [|exact I..]. cbn [rbind].
  destruct H as ((R & D) & H); [constructor| |reflexivity..|apply ev_refl|].
  { unfold ro_of, e1. cbn. destruct (r_IsMetropolis _); reflexivity. }
  unfold e1 in R, D. cbn in R, D. destruct (readOnly e) eqn:Er; (split; [cbn; split; congruence | exact H]).
Qed.

Lemma Call_post ro caller addr i gas v e : ro_of e = ro -> (ro = true -> v = 0) ->
  match Call homestead metropolis env lp caller addr i gas v e with
  | Done (e', res) => call_post ro (dbreads (statedb e)) e e' (call_err res)
  | Crash _ | Fuel => True
  end.
Proof using HCan Hloop HTransfer.
  intros Hro Hv. unfold Call. destruct (_ && _); [apply call_post_here; constructor|].
  destruct (_ >? _); [apply call_post_here; constructor|]. rewrite with_db_eq.
  destruct (negb _); [apply call_post_here; [apply HCan|reflexivity..]|]. cbv zeta. rewrite !with_db_eq.
  cbn [statedb set_statedb]. set (s1 := fst (CanTransfer _ _ _ _)).
  set (sx := fst (Exist addr (fst (Snapshot s1)))).
  assert (Hx : evolves ro (fst (Snapshot s1)) sx) by apply evolves_one, ds_read, dr_Exist.
  assert (H1 : dbreads (statedb e) s1) by apply HCan.
  destruct (_ && _) eqn:Eb.
  { split; [split; reflexivity|]. exists s1. split; [exact H1|]. right. exact Hx. }
  apply called_post; auto.
  { destruct (negb _); exact Hro. } { destruct (negb _); reflexivity. } { destruct (negb _); reflexivity. }
  unfold on_db. cbn [statedb set_statedb]. eapply evolves_trans; [|apply HTransfer, Hv].
  destruct (snd (Exist addr (fst (Snapshot s1)))) eqn:Ex; cbn [negb statedb set_statedb]; [exact Hx|].
  apply evolves_one, ds_CreateMissing, Ex.
Qed.

(** [Create] before its snapshot: reads, and once the transfer is possible the
    new nonce of the creator, which stays. *)
Definition create_begun (a : Address) (s s1 : S) : Prop :=
  dbreads s s1 \/
  exists s0, dbreads s s0 /\ dbreads (SetNonce a (u64 (snd (GetNonce a s0) + 1)) (fst (GetNonce a s0))) s1.

Lemma create_begun_evolves a s s1 : create_begun a s s1 -> evolves false s s1.
Proof.
  intros [H|(s0 & H1 & H2)]; [exact (dbreads_evolves false _ _ H)|].
  apply (evolves_trans false _ _ _ (dbreads_evolves false _ _ H1)).
  apply (ev_step false _ _ _ (ds_read false _ _ (dr_GetNonce a s0))).
  eapply ev_step; [|exact (dbreads_evolves false _ _ H2)]. constructor. reflexivity.
Qed.

(** The errors of [Create] that revert: before Homestead, running out of gas
    for the code does not. *)
Definition create_err (err : option vmErr) : option vmErr :=
  match err with
  | Some er => if IsHomestead (chainConfig env) (Some (BlockNumber (context env))) || negb (is_codestore er) then Some er else None
  | None => None
  end.

Lemma create_finish_post s1 addr e c r : evolves false (fst (Snapshot s1)) (statedb e) ->
  match create_finish env (snd (Snapshot s1)) addr e c r with
  | Done (e', (_, res)) =>
      (exists ex, (ex = None -> create_err (call_err res) = None) /\ committed false s1 (statedb e') ex) /\
      readOnly e' = readOnly e /\ depth e' = depth e
  | Crash _ | Fuel => True
  end.
Proof.
  intros H. destruct r as [out err]. unfold create_finish.
  set (mid := match err with None => _ | Some er => _ end).
  assert (Hm : let '(e1, _, _) := mid in evolves false (fst (Snapshot s1)) (statedb e1) /\ readOnly e1 = readOnly e /\ depth e1 = depth e).
  { unfold mid. destruct err; [auto|]. destruct (negb _); [|auto]. cbv zeta. destruct (UseGas _ _) as [c' [|]]; [|auto].
    split; [|auto]. apply (evolves_trans false _ _ _ H), evolves_one. constructor. reflexivity. }
  destruct mid as [[e1 c1] err1]. cbv zeta. destruct Hm as (V & R & D).
  destruct (_ || _) eqn:Erev.
  - destruct (RevertToSnapshot _ _) as [s|] eqn:Er; cbn [of_outcome rbind]; [|exact I]. split; [|auto].
    exists (Some ErrDepth). split; [discriminate|]. cbn. eauto.
  - cbn [rbind]. apply orb_false_iff in Erev as [-> Eerr]. cbn [andb]. split; [|auto]. exists None.
    split; [|exact V]. intros _. unfold call_err, create_err. cbn [snd]. destruct err1 as [er|]; [rewrite Eerr|]; reflexivity.
Qed.

Lemma Create_post caller code gas v e : ro_of e = false ->
  match Create Keccak256 homestead metropolis env lp caller code gas v e with
  | Done (e', (_, res)) => exists ex, (ex = None -> create_err (call_err res) = None) /\
      call_post false (create_begun (ref_Address caller) (statedb e)) e e' ex
  | Crash _ | Fuel => True
  end.
Proof using HCan Hloop HTransfer.
  intros Hro. unfold Create.
  assert (Here : forall res e', create_begun (ref_Address caller) (statedb e) (statedb e') -> readOnly e' = readOnly e ->
    depth e' = depth e -> exists ex, (ex = None -> create_err (call_err res) = None) /\
      call_post false (create_begun (ref_Address caller) (statedb e)) e e' ex).
  { intros res e' H R D. exists (Some ErrDepth). split; [discriminate|]. apply call_post_here; auto. }
  destruct (_ && _); [apply Here; auto; left; constructor|].
  destruct (_ >? _); [apply Here; auto; left; constructor|]. rewrite with_db_eq.
  destruct (negb _); [apply Here; auto; left; apply HCan|]. rewrite with_db_eq. cbv zeta.
  destruct (CreateAddress _ _ _) as [addr|]; cbn [of_outcome rbind]; [|exact I]. rewrite !with_db_eq.
  unfold on_db. cbn [statedb set_statedb]. set (s0 := fst (CanTransfer _ _ _ _)).
  set (s1 := fst (GetNonce addr (fst (GetCodeHash addr _)))).
  assert (Hb : create_begun (ref_Address caller) (statedb e) s1).
  { right. exists s0. split; [apply HCan|]. eapply dbreads_trans; apply dbreads_one; constructor. }
  destruct (_ || _); [apply Here; auto|].
  match goal with |- context [evm_run _ _ _ _ (new_dests ?cl ?e2) ?c ?i] => pose proof (new_dests_rel cl e2) as (E1 & E2 & E3);
    pose proof (evm_run_rel false (new_dests cl e2) c i) as H1; destruct (evm_run _ _ _ _ _ c i) as [[[e1 c1] r]|p|] end; [|exact I..].
  cbn [rbind]. destruct H1 as (V & R & D).
  { unfold ro_of in *. rewrite E2. destruct (IsEIP158 _ _); exact Hro. }
  pose proof (create_finish_post s1 addr e1 c1 r) as Hf. destruct (create_finish _ _ _ _ _ _) as [[e' [a' res]]|p|]; auto.
  destruct Hf as ((ex & Hex & Hc) & R' & D').
  { rewrite E1 in V. refine (evolves_trans false _ _ _ _ V). cbn [statedb set_statedb].
    refine (evolves_trans false _ _ _ _ (HTransfer false _ _ _ _ _)); [|discriminate].
    eapply ev_step; [apply ds_CreateAccount; reflexivity|]. destruct (IsEIP158 _ _); [|apply ev_refl].
    apply evolves_one, ds_SetNonce. reflexivity. }
  exists ex. split; [exact Hex|].
  rewrite E2 in R. rewrite E3 in D. split; [rewrite R', D', R, D; destruct (IsEIP158 _ _); auto|].
  exists s1. split; [exact Hb|]. right. exact Hc.
Qed.

Lemma call_ops_rel : calls_rel (call_ops Keccak256 homestead metropolis env lp).
Proof using HCan Hloop HTransfer.
  split; [intros ro c a i gas v Hv e|intros ro c a i gas v e|intros ro c a i gas e|intros ro c a i gas e|intros c i gas v e];
    cbn [call_ops c_Call c_CallCode c_DelegateCall c_StaticCall c_Create].
  - pose proof (Call_post ro c a i gas v e) as H. destruct (Call _ _ _ _ _ _ _ _ _ _) as [[e' r]|p|]; auto.
    intros E. refine (call_post_rel _ _ _ _ _ _ (H E Hv) E). intros s. apply dbreads_evolves.
  - pose proof (CallCode_post ro c a i gas v e) as H. destruct (CallCode _ _ _ _ _ _ _ _ _ _) as [[e' r]|p|]; auto.
    intros E. refine (call_post_rel _ _ _ _ _ _ (H E) E). intros s. apply dbreads_evolves.
  - pose proof (DelegateCall_post ro c a i gas e) as H. destruct (DelegateCall _ _ _ _ _ _ _ _ _) as [[e' r]|p|]; auto.
    intros E. refine (call_post_rel _ _ _ _ _ _ (H E) E). intros s. apply dbreads_evolves.
  - pose proof (StaticCall_post c a i gas e) as H. destruct (StaticCall _ _ _ _ _ _ _ _ _) as [[e' r]|p|]; auto.
    intros E. destruct H as (H & s1 & H1 & H2). split; [|exact H].
    apply (evolves_trans ro _ s1); [exact (dbreads_evolves ro _ _ H1)|]. destruct H2 as [->|H2]; [apply ev_refl|].
    apply committed_evolves in H2. unfold ro_of in E. destruct ro; [|exact (evolves_mono _ _ _ H2)].
    apply andb_true_iff in E as [E _]. rewrite E in H2. exact H2.
  - pose proof (Create_post c i gas v e) as H. destruct (Create _ _ _ _ _ _ _ _ _ _) as [[e' [a r]]|p|]; auto.
    intros E. destruct (H E) as (ex & _ & H'). refine (call_post_rel _ _ _ _ _ _ H' E). apply create_begun_evolves.
Qed.
End calls.

(** Whatever the fuel, a run evolves the state. *)
Lemma loop_evolves fuel ro f :
  match loop Keccak256 homestead metropolis env interp fuel f with Done (f', _) => frame_rel ro f f' | Crash _ | Fuel => True end.
Proof.
  revert ro f. induction fuel as [|fuel IH]; intros ro f; [exact I|]. cbn [loop]. unfold LoadAbort. cbv zeta.
  destruct (_ =? 0); [|intros _; repeat split; apply ev_refl].
  set (f1 := set_evm f _). pose proof (step_evolves ro (call_ops Keccak256 homestead metropolis env
    (loop Keccak256 homestead metropolis env interp fuel)) f1 (call_ops_rel _ (fun ro f => IH ro f))) as Hs.
  destruct (step _ _ _ _) as [[f2 [[]|r]]|p|]; [| |exact I..]; cbn [rbind].
  - specialize (IH ro f2). destruct (loop _ _ _ _ _ fuel f2) as [[f' r]|p|]; auto.
    intros E. pose proof (transitivity (Hs E) IH) as H. exact (H E).
  - intros E. exact (Hs E E).
Qed.

End run.
End evolves.

(** The tables [NewInterpreter] chooses from. *)
Lemma NewInterpreter_evolves {S : Type} {DB : StateDB S} (env : Env S) Keccak256 ro :
  evolving_set env ro (JumpTable (NewInterpreter Keccak256 env [])).
Proof.
  unfold NewInterpreter. cbn [JumpTable lookup valid zero_operation negb]. destruct (IsMetropolis _ _); [apply metropolis_evolves|].
  destruct (IsHomestead _ _); [apply homestead_evolves | apply frontier_evolves].
Qed.

Lemma NewInterpreter_call {S : Type} {DB : StateDB S} (env : Env S) Keccak256 :
  let o := lookup (JumpTable (NewInterpreter Keccak256 env [])) CALL in execute o = opCall /\ gasCost o = gasCall.
Proof.
  unfold NewInterpreter. cbn [JumpTable lookup valid zero_operation negb].
  destruct (IsMetropolis _ _); [|destruct (IsHomestead _ _)]; split; reflexivity.
Qed.
