(* ===== verification/CoreEvm.v ===== *)
(** * Package [core]: the context of the EVM

    [CanTransfer] and [Transfer] of [core/evm.go], which [NewEVMContext] puts in
    the context of the machine, over any implementation of the interface. *)

From Stdlib Require Import ZArith List Lia Bool.
From S2P Require Import Prelude GoBig CommonTypes VmState VmEvolve.
Import ListNotations.
Local Open Scope Z_scope.

Section transfer.
Context {S : Type} {DB : StateDB S}.

Definition core_CanTransfer (addr : Address) (amount : Z) (s : S) : S * bool :=
  let '(s, balance) := GetBalance addr s in (s, balance >=? amount).

Definition core_Transfer (sender recipient : Address) (amount : Z) (s : S) : S :=
  AddBalance recipient amount (SubBalance sender amount s).

Lemma core_CanTransfer_reads addr amount s : dbreads s (fst (core_CanTransfer addr amount s)).
Proof.
  unfold core_CanTransfer. pose proof (dr_GetBalance addr s) as H. destruct (GetBalance addr s). apply dbreads_one, H.
Qed.

Lemma core_Transfer_evolves ro a b v s : (ro = true -> v = 0) -> evolves ro s (core_Transfer a b v s).
Proof. intros H. apply evolves_one, ds_Transfer, H. Qed.

End transfer.
