(* ===== verification/VmSample.v ===== *)
(** * An example: the machine on the state of an empty database

    A trie without entries, a database without codes and a stand-in for the hash:
    concrete arguments at which the theorems are evaluated. *)

From Stdlib Require Import ZArith List.
From S2P Require Import Prelude GoBig CommonTypes Params VmContract.
From S2P Require Import VmState VmJumpTable VmInterp CoreState CoreEvm.
Import ListNotations.
Local Open Scope Z_scope.

Module Sample.
#[global] Instance no_trie : Trie unit unit := {
  TryGet _ _ := Ok []; TryUpdate t _ _ := (t, None); TryDelete t _ := (t, None); trie_Hash _ := 0 }.
Definition no_database : Database unit unit := mkDatabase unit unit (fun _ _ => Ok tt) (fun _ _ => ([], None)) (fun _ _ => (0, None)).
(** A stand-in for the hash: 32 bytes that depend on the input. *)
Definition hash (l : list Z) : list Z := be_bytes 32 (fold_left (fun h b => 257 * h + b + 1) l 1).
Definition no_recover (_ _ : list Z) : option (list Z) := None.
Definition no_ripemd (_ : list Z) : list Z := zeros 20.

Definition sample_state : Type := @State unit unit.
#[global] Instance sample_db : StateDB sample_state := state_StateDB hash no_database (fun _ => None).

Definition sample_context : Context sample_state :=
  mkContext core_CanTransfer core_Transfer (fun _ => 0) 1 2 2 4000000 5 5 5.
(** Every fork active from block 0. *)
Definition all_forks : ChainConfig := mkChainConfig (Some 1) (Some 0) None false (Some 0) (Some 0) (Some 0) (Some 0).
Definition sample_env : Env sample_state :=
  mkEnv sample_context all_forks (rules all_forks (Some 5)) (mkConfig false false false) (fun _ => 0).
(** Account 1 has 1000 wei, account 100 the code. *)
Definition state_with (code : list Z) : sample_state := db_SetCode 100 code (AddBalance 1 1000 (New tt)).
Definition evm_with (code : list Z) : EVM sample_state := mkEVM (state_with code) 0 false [] [] 0.
Definition interp : Interpreter sample_state := NewInterpreter hash sample_env [].

(** [PUSH1 2 PUSH1 3 ADD PUSH1 0 MSTORE PUSH1 32 PUSH1 0 RETURN] *)
Definition add_code : list Z := [0x60; 2; 0x60; 3; 0x01; 0x60; 0; 0x52; 0x60; 32; 0x60; 0; 0xf3].

(** [PUSH1 7 PUSH1 1 SSTORE] and an invalid opcode *)
Definition failing_code : list Z := [0x60; 7; 0x60; 1; 0x55; 0xfe].
(** [PUSH1 1 SLOAD POP STOP] *)
Definition reading_code : list Z := [0x60; 1; 0x54; 0x50; 0x00].
End Sample.
