(* ===== verification/VmLedger.v ===== *)
(** * What a failed call and a static call leave behind

    The promise of a state database to the EVM, as two classes of laws over the
    interface [StateDB], and what the EVM makes of it: a call that returns an
    error leaves the state it found, and reverting to a snapshot never panics; a
    static call changes nothing that the database says a read-only step cannot
    change.  [StateLaws.v] proves the laws of package [core/state]. *)

From Stdlib Require Import ZArith List Lia Bool RelationClasses.
From S2P Require Import Prelude GoBig VmCommon CommonTypes Params VmContract Precompiles VmMemory VmOpcodes VmState VmGas VmOps VmJumpTable VmInterp VmHoare VmTermination VmEvolve.
Import ListNotations.
Local Open Scope Z_scope.

(** ** The laws *)

(** [undoes id s0 s]: reverting [s] to [id] gives back [s0]. *)
Class SnapshotLaws (S : Type) {DB : StateDB S} : Type := {
  db_ok : S -> Prop;
  same : S -> S -> Prop;
  undoes : Z -> S -> S -> Prop;
  same_equivalence :: Equivalence same;
  ok_step s s' : dbstep false s s' -> db_ok s -> db_ok s';
  read_same s s' : dbread s s' -> db_ok s -> same s s';
  undoes_snapshot s : db_ok s -> undoes (snd (Snapshot s)) s (fst (Snapshot s));
  undoes_step id s0 s s' : db_ok s -> dbstep false s s' -> undoes id s0 s -> undoes id s0 s';
  undoes_same id s0 s s' : db_ok s -> db_ok s' -> same s s' -> undoes id s0 s -> undoes id s0 s';
  undoes_revert id s0 s : db_ok s -> undoes id s0 s ->
    exists s', RevertToSnapshot id s = Ret s' /\ same s0 s' /\ db_ok s' }.

(** [unchanged s s']: what read-only mode protects is the same in both. *)
Class ReadOnlyLaws (S : Type) {DB : StateDB S} {L : SnapshotLaws S} : Type := {
  unchanged : S -> S -> Prop;
  unchanged_preorder :: PreOrder unchanged;
  same_unchanged s s' : same s s' -> unchanged s s';
  readonly_unchanged s s' : dbstep true s s' -> db_ok s -> unchanged s s' }.

Section snapshots.
Context {S : Type} {DB : StateDB S} {L : SnapshotLaws S}.

(** A run keeps every snapshot taken before it. *)
Lemma evolves_undoes ro s s' : evolves ro s s' -> db_ok s ->
  db_ok s' /\ (forall id s0, undoes id s0 s -> undoes id s0 s').
Proof.
  induction 1 as [s|s1 s2 s3 H _ IH|s1 s2 s3 s4 _ IH1 Hr _ IH2]; intros Hok; [auto| |].
  - pose proof (dbstep_mono _ _ _ H) as Hf. destruct (IH (ok_step _ _ Hf Hok)) as [H1 H2]. split; [exact H1|].
    intros id s0 Hu. apply H2, (undoes_step _ _ _ _ Hok Hf Hu).
  - destruct (IH1 (ok_step _ _ (ds_Snapshot false s1) Hok)) as [H1 H2].
    destruct (undoes_revert _ _ _ H1 (H2 _ _ (undoes_snapshot s1 Hok))) as (s' & Er & Hs & Hok'). rewrite Hr in Er.
    injection Er as <-. destruct (IH2 Hok') as [H3 H4]. split; [exact H3|].
    intros id s0 Hu. apply H4, (undoes_same _ _ _ _ Hok Hok' Hs Hu).
Qed.

Lemma dbreads_same s s' : dbreads s s' -> db_ok s -> same s s' /\ db_ok s'.
Proof.
  induction 1 as [s|s1 s2 s3 H _ IH]; intros Hok; [split; [reflexivity|exact Hok]|].
  destruct (IH (ok_step _ _ (ds_read false _ _ H) Hok)) as [H1 H2]. split; [|exact H2].
  transitivity s2; [apply (read_same _ _ H Hok)|exact H1].
Qed.

(** A state that was reverted to a snapshot is the one the snapshot was taken of. *)
Lemma committed_same ro s1 s' er : committed ro s1 s' (Some er) -> db_ok s1 -> same s1 s' /\ db_ok s'.
Proof.
  intros (s2 & H & Hr) Hok. destruct (evolves_undoes ro _ _ H (ok_step _ _ (ds_Snapshot false s1) Hok)) as [H1 H2].
  destruct (undoes_revert _ _ _ H1 (H2 _ _ (undoes_snapshot s1 Hok))) as (s & Er & Hs & Hok'). rewrite Hr in Er.
  injection Er as <-. auto.
Qed.

(** The revert of an error cannot panic. *)
Lemma revert_total ro s1 s2 : evolves ro (fst (Snapshot s1)) s2 -> db_ok s1 ->
  exists s', RevertToSnapshot (snd (Snapshot s1)) s2 = Ret s'.
Proof.
  intros H Hok. destruct (evolves_undoes ro _ _ H (ok_step _ _ (ds_Snapshot false s1) Hok)) as [H1 H2].
  destruct (undoes_revert _ _ _ H1 (H2 _ _ (undoes_snapshot s1 Hok))) as (s & Er & _). eauto.
Qed.

(** A call that only read before its snapshot, and failed. *)
Lemma call_post_same ro e e' er : call_post ro (dbreads (statedb e)) e e' (Some er) -> db_ok (statedb e) ->
  same (statedb e) (statedb e').
Proof.
  intros (_ & s1 & H1 & H2) Hok. destruct (dbreads_same _ _ H1 Hok) as [Hs Hok1]. destruct H2 as [->|H2]; [exact Hs|].
  transitivity s1; [exact Hs|]. apply (committed_same _ _ _ _ H2 Hok1).
Qed.

Context {R : ReadOnlyLaws S}.

Lemma evolves_unchanged s s' : evolves true s s' -> db_ok s -> unchanged s s'.
Proof.
  induction 1 as [s|s1 s2 s3 H _ IH|s1 s2 s3 s4 H IH1 Hr _ IH2]; intros Hok; [reflexivity| |].
  - transitivity s2; [exact (readonly_unchanged _ _ H Hok)|]. apply IH, (ok_step _ _ (dbstep_mono _ _ _ H) Hok).
  - destruct (committed_same true s1 s3 ErrDepth (ex_intro _ s2 (conj H Hr)) Hok) as [H1 H2].
    transitivity s3; [apply same_unchanged, H1 | apply IH2, H2].
Qed.

Lemma committed_unchanged s1 s' err : committed true s1 s' err -> db_ok s1 -> unchanged s1 s'.
Proof. intros H. apply evolves_unchanged, (committed_evolves true _ _ _ H). Qed.

Lemma call_post_unchanged e e' err : call_post true (dbreads (statedb e)) e e' err -> db_ok (statedb e) ->
  unchanged (statedb e) (statedb e').
Proof.
  intros (_ & s1 & H1 & H2) Hok. destruct (dbreads_same _ _ H1 Hok) as [Hs Hok1].
  transitivity s1; [apply same_unchanged, Hs|]. destruct H2 as [->|H2]; [reflexivity|].
  apply (committed_unchanged _ _ _ H2 Hok1).
Qed.

End snapshots.

(** * The promise of the machine to the state database

    The method calls a run makes are not arbitrary: a transfer moves an amount
    between 0 and the balance of the sender, a stored word is 32 bytes, a stored
    code is bytes and not too long.  [levolves] is the relation of [VmEvolve.v]
    with these conditions; a database whose invariant [ledger] is kept under them
    is a [LedgerLaws]. *)

(** Bytes that fit in memory. *)
Definition slice_ok (l : list Z) : Prop := bytes_ok l /\ len l < 2 ^ 62.

Section ledger.
Context {S : Type} {DB : StateDB S}.

Inductive lstep : S -> S -> Prop :=
| l_read s s' : dbread s s' -> lstep s s'
| l_Snapshot s : lstep s (fst (Snapshot s))
| l_AddPreimage h d s : lstep s (AddPreimage h d s)
| l_CreateAccount a s : lstep s (CreateAccount a s)
| l_SetNonce a n s : lstep s (SetNonce a n s)
| l_AddRefund g s : 0 <= g -> lstep s (AddRefund g s)
| l_AddLog l s : lstep s (AddLog l s)
| l_SetCode a c s : slice_ok c -> lstep s (db_SetCode a c s)
| l_SetState a k v s : hash_ok v -> lstep s (SetState a k v s)
| l_Transfer a b v s : 0 <= v <= snd (GetBalance a s) -> lstep s (AddBalance b v (SubBalance a v s))
| l_Destroy a b s : lstep s (fst (Suicide a (AddBalance b (snd (GetBalance a s)) (fst (GetBalance a s))))).

Inductive levolves : S -> S -> Prop :=
| lev_refl s : levolves s s
| lev_step s1 s2 s3 : lstep s1 s2 -> levolves s2 s3 -> levolves s1 s3
| lev_revert s1 s2 s3 s4 : levolves (fst (Snapshot s1)) s2 -> RevertToSnapshot (snd (Snapshot s1)) s2 = Ret s3 ->
    levolves s3 s4 -> levolves s1 s4.

Lemma levolves_trans s1 s2 s3 : levolves s1 s2 -> levolves s2 s3 -> levolves s1 s3.
Proof.
  intros H12 H23. induction H12 as [s|s1 s2' s2 H H' IH|s1 s2' s3' s4 H IH Hr H' IH'].
  - exact H23.
  - apply (lev_step _ _ _ H), IH, H23.
  - apply (lev_revert _ _ _ _ H Hr), IH', H23.
Qed.

Lemma levolves_snoc s1 s2 s3 : levolves s1 s2 -> lstep s2 s3 -> levolves s1 s3.
Proof. intros H H'. apply (levolves_trans _ _ _ H), (lev_step _ _ _ H'), lev_refl. Qed.

Lemma lstep_dbstep s s' : lstep s s' -> dbstep false s s'.
Proof. destruct 1; try (constructor; auto; discriminate). Qed.

Lemma levolves_evolves s s' : levolves s s' -> evolves false s s'.
Proof.
  induction 1 as [s|s1 s2 s3 H _ IH|s1 s2 s3 s4 _ IH Hr _ IH'].
  - apply ev_refl.
  - apply (ev_step false _ _ _ (lstep_dbstep _ _ H)), IH.
  - apply (ev_revert false _ _ _ _ IH Hr), IH'.
Qed.

End ledger.

(** What a database promises of its invariant [ledger]. *)
Class LedgerLaws (S : Type) {DB : StateDB S} {L : SnapshotLaws S} : Type := {
  ledger : S -> Prop;
  ledger_same s s' : same s s' -> ledger s -> ledger s';
  ledger_step s s' : lstep s s' -> db_ok s -> ledger s -> ledger s';
  ledger_balance a s : ledger s -> 0 <= snd (GetBalance a s);
  ledger_size a s : ledger s -> 0 <= snd (GetCodeSize a s);
  ledger_code a s : ledger s -> slice_ok (snd (GetCode a s));
  ledger_refund s : ledger s -> 0 <= GetRefund s;
  (** the calls between the check of a balance and the transfer do not change it *)
  balance_read s s' a : dbread s s' -> db_ok s -> snd (GetBalance a s') = snd (GetBalance a s);
  balance_Snapshot s a : db_ok s -> snd (GetBalance a (fst (Snapshot s))) = snd (GetBalance a s);
  balance_CreateAccount s a b : db_ok s -> snd (GetBalance a (CreateAccount b s)) = snd (GetBalance a s);
  balance_SetNonce s a b n : db_ok s -> snd (GetBalance a (SetNonce b n s)) = snd (GetBalance a s) }.

Section laws.
Context {S : Type} {DB : StateDB S} {L : SnapshotLaws S} {V : LedgerLaws S}.

Definition healthy (s : S) : Prop := db_ok s /\ ledger s.

Lemma lstep_healthy s s' : lstep s s' -> healthy s -> healthy s'.
Proof. intros H [H1 H2]. split; [exact (ok_step _ _ (lstep_dbstep _ _ H) H1) | exact (ledger_step _ _ H H1 H2)]. Qed.

Lemma levolves_healthy s s' : levolves s s' -> healthy s -> healthy s'.
Proof.
  induction 1 as [s|s1 s2 s3 H _ IH|s1 s2 s3 s4 H _ Hr _ IH]; intros Hs; [exact Hs| |].
  - apply IH, (lstep_healthy _ _ H Hs).
  - apply IH. destruct Hs as [H1 H2].
    destruct (committed_same false s1 s3 ErrDepth (ex_intro _ s2 (conj (levolves_evolves _ _ H) Hr)) H1) as [H3 H4].
    split; [exact H4 | exact (ledger_same _ _ H3 H2)].
Qed.

(** The revert of a failed call is defined. *)
Lemma healthy_revert s1 s2 : healthy s1 -> levolves (fst (Snapshot s1)) s2 ->
  exists s3, RevertToSnapshot (snd (Snapshot s1)) s2 = Ret s3 /\ levolves s1 s3.
Proof.
  intros [H1 H2] H. destruct (revert_total false s1 s2 (levolves_evolves _ _ H) H1) as (s3 & Hr).
  exists s3. split; [exact Hr|]. apply (lev_revert _ _ _ _ H Hr), lev_refl.
Qed.

End laws.
