(* ===== verification/VmSafety.v ===== *)
(** * The machine does not panic

    Every index, slice and pointer of the interpreter is in range: the stack has
    the operands an instruction takes and stays within its limit, the memory was
    grown to what it reads and writes, no operand is negative, no value is nil.
    The invariant of a frame also says that the state was only changed within the
    promise of [VmLedger.v].  Left are the panics in the lookup of a jump
    destination, in [enforceRestrictions] and in precompiled contracts. *)

From Stdlib Require Import ZArith List Lia Bool RelationClasses.
From S2P Require Import Prelude GoBig ByteBuf VmCommon CommonTypes Params VmContract Precompiles.
From S2P Require Import VmMemory VmOpcodes VmState VmGas VmOps VmJumpTable VmInterp VmHoare VmTermination.
From S2P Require Import VmEvolve VmLedger.
Import ListNotations.
Local Open Scope Z_scope.

(** ** Values that are not negative *)

Create HintDb nonneg.

Lemma U256_nonneg x : 0 <= U256 x.
Proof. apply U256_range. Qed.
Lemma bool_word_nonneg b : 0 <= bool_word b.
Proof. destruct b; cbn; lia. Qed.
Lemma u64_nonneg x : 0 <= u64 x.
Proof. apply u64_range. Qed.
Lemma u64_le x : 0 <= x -> u64 x <= x.
Proof. intros H. apply Z.mod_le; [exact H|reflexivity]. Qed.
Lemma Uint64_small x : 0 <= x < 2 ^ 64 -> Uint64 x = x.
Proof. intros H. unfold Uint64. rewrite Z.abs_eq by lia. apply u64_small, H. Qed.
Lemma Uint64_nonneg x : 0 <= Uint64 x.
Proof. apply u64_range. Qed.
Lemma Exp_nonneg b e : 0 <= fst (Exp b e).
Proof. rewrite Exp_pow. apply Z.mod_pos_bound. reflexivity. Qed.
Lemma land_nonneg_l x y : 0 <= x -> 0 <= Z.land x y.
Proof. intros H. apply Z.land_nonneg. auto. Qed.
Lemma lor_nonneg_both x y : 0 <= x -> 0 <= y -> 0 <= Z.lor x y.
Proof. intros. apply Z.lor_nonneg. auto. Qed.
Lemma lxor_nonneg_both x y : 0 <= x -> 0 <= y -> 0 <= Z.lxor x y.
Proof. intros. apply Z.lxor_nonneg. split; auto. Qed.
Lemma SetBytes_nonneg l : bytes_ok l -> 0 <= SetBytes l.
Proof. intros H. apply SetBytes_range, H. Qed.
Lemma Hash_Big_nonneg h : 0 <= Hash_Big h.
Proof. apply SetBytes_range, be_bytes_ok. Qed.
Lemma Address_Big_nonneg a : 0 <= Address_Big a.
Proof. apply SetBytes_range, be_bytes_ok. Qed.
#[export] Hint Resolve U256_nonneg bool_word_nonneg u64_nonneg Uint64_nonneg Exp_nonneg land_nonneg_l lor_nonneg_both lxor_nonneg_both
  SetBytes_nonneg Hash_Big_nonneg Address_Big_nonneg len_nonneg Z.le_refl Z.le_0_1 : nonneg.

Lemma Byte_ret x n : 0 <= n -> exists b, Byte x 32 n = Ret b /\ 0 <= b.
Proof.
  intros Hn. unfold Byte. rewrite Z.geb_leb. destruct (Z.leb_spec 32 n); [eexists; split; [reflexivity|lia]|].
  unfold bigEndianByteAt, wordBytes, wordBits. change (64 / 8) with 8. cbv zeta. rewrite Z.geb_leb.
  assert (0 <= Z.quot (32 - 1 - n) 8) by (apply Z.quot_pos; lia).
  destruct (Z.leb_spec (len (Bits x)) (Z.quot (32 - 1 - n) 8)); [eexists; split; [reflexivity|lia]|].
  destruct (index_exists (Bits x) (Z.quot (32 - 1 - n) 8)) as (w & ->); [lia|]. cbn [obind].
  eexists. split; [reflexivity|]. unfold u8. apply Z.mod_pos_bound. lia.
Qed.

Lemma bytes_ok_RightPad l n : bytes_ok l -> bytes_ok (RightPadBytes l n).
Proof. intros H. unfold RightPadBytes. destruct (_ <=? _); [exact H|]. apply bytes_ok_app. split; auto with go. Qed.

Lemma getDataBig_ret data start size : slice_ok data -> 0 <= start -> 0 <= size < 2 ^ 62 ->
  exists d, getDataBig data start size = Ret d /\ bytes_ok d.
Proof.
  intros [Hb Hl] Hs Hz. unfold getDataBig, Uint64, BigMin. rewrite !Z.gtb_ltb. pose proof (len_nonneg data).
  set (a := if len data <? start then len data else start).
  assert (Ha : 0 <= a <= len data) by (unfold a; destruct (Z.ltb_spec (len data) start); lia).
  set (b := if len data <? a + size then len data else a + size).
  assert (Hab : a <= b <= len data) by (unfold b; destruct (Z.ltb_spec (len data) (a + size)); lia).
  cbv zeta. rewrite !Z.abs_eq by lia. rewrite (u64_small a), (u64_small b) by lia. rewrite slice_ret by lia. cbn [obind].
  eexists. split; [reflexivity|]. apply bytes_ok_RightPad. auto using bytes_ok_firstn, bytes_ok_skipn.
Qed.

Lemma PaddedBigBytes_ok x n : 0 <= n -> bytes_ok (PaddedBigBytes x n).
Proof. intros H. unfold PaddedBigBytes. destruct (_ >=? _); [apply Bytes_ok|]. rewrite ReadBits_zeros by lia. apply be_bytes_ok. Qed.

Lemma big_Div_ret x y : y <> 0 -> exists q, big.Div x y = Ret q.
Proof. intros H. unfold big.Div. destruct (Z.eqb_spec y 0); [contradiction|]. eauto. Qed.
Lemma big_Mod_ret x y : y <> 0 -> exists q, big.Mod x y = Ret q.
Proof. intros H. unfold big.Mod. destruct (Z.eqb_spec y 0); [contradiction|]. eauto. Qed.
Lemma Sign_zero y : Sign y = 0 <-> y = 0.
Proof. unfold Sign. lia. Qed.

(** ** Memory within what the operation asked for *)

Lemma calcMemSize_bound o z n : 0 <= o -> 0 <= z -> calcMemSize o z <= n -> 0 < z -> o + z <= n.
Proof. unfold calcMemSize. destruct (Z.eqb_spec z 0); lia. Qed.

Lemma bytes_ok_nil : bytes_ok [].
Proof. constructor. Qed.

Lemma slice_ok_nil : slice_ok [].
Proof. split; [constructor|]. cbn. lia. Qed.

Section memory_access.
Context (m : Memory).
Hypothesis Hb : bytes_ok (store m).
Hypothesis Hm : memory.Len m <= mem_limit.

Lemma mem_get o z z' : 0 <= o -> 0 <= z -> calcMemSize o z <= memory.Len m -> (z' = Int64 z \/ z' = z) ->
  exists d, memory.Get m (Int64 o) z' = Ret d /\ memory.GetPtr m (Int64 o) z' = Ret d /\ slice_ok d.
Proof using Hb Hm.
  intros Ho Hz Hc Hz'. unfold mem_limit in Hm. destruct (Z.eq_dec z 0) as [->|N].
  - assert (z' = 0) as -> by (destruct Hz'; subst; reflexivity). exists []. split; [reflexivity|]. split; [reflexivity|apply slice_ok_nil].
  - pose proof (calcMemSize_bound o z _ Ho Hz Hc ltac:(lia)) as Hi. assert (z' = z) as ->.
    { destruct Hz' as [->| ->]; [apply Int64_small; lia|reflexivity]. }
    rewrite Int64_small by lia. destruct (memory_Get_ret m o z) as [E1 E2]; try lia. rewrite E2, E1. eexists. split; [reflexivity|].
    split; [reflexivity|]. split; [auto using bytes_ok_firstn, bytes_ok_skipn|].
    unfold memory.Len, len in *. rewrite length_firstn, length_skipn. lia.
Qed.

Lemma mem_set o z z' v : 0 <= o -> 0 <= z -> calcMemSize o z <= memory.Len m -> (z' = Uint64 z \/ z' = z) -> bytes_ok v ->
  exists m', memory.Set_ m (Uint64 o) z' v = Ret m' /\ bytes_ok (store m') /\ memory.Len m' = memory.Len m.
Proof using Hb Hm.
  intros Ho Hz Hc Hz' Hv. unfold mem_limit in Hm. assert (Hlen : memory.Len m < 2 ^ 63) by lia. destruct (Z.eq_dec z 0) as [->|N].
  - assert (z' = 0) as -> by (destruct Hz'; subst; reflexivity).
    destruct (memory_Set_ret m (Uint64 o) 0 v) as (m' & E & El); try lia; [apply u64_range|]. exists m'.
    split; [exact E|]. split; [apply (memory_Set_bytes _ _ _ _ _ Hb Hv E)|exact El].
  - pose proof (calcMemSize_bound o z _ Ho Hz Hc ltac:(lia)) as Hi. unfold Uint64 in *. rewrite Z.abs_eq, u64_small by lia.
    assert (z' = z) as -> by (destruct Hz' as [->| ->]; [rewrite Z.abs_eq, u64_small by lia|]; reflexivity).
    destruct (memory_Set_ret m o z v) as (m' & E & El); try lia. exists m'.
    split; [exact E|]. split; [apply (memory_Set_bytes _ _ _ _ _ Hb Hv E)|exact El].
Qed.

End memory_access.

Lemma calcMemSize_size m o z : 0 <= o -> 0 <= z -> calcMemSize o z <= memory.Len m -> memory.Len m <= mem_limit -> 0 <= z < 2 ^ 62.
Proof. unfold calcMemSize, mem_limit. destruct (Z.eqb_spec z 0); lia. Qed.

Lemma BigMax_bound x y n : BigMax x y <= n -> x <= n /\ y <= n.
Proof. unfold BigMax. destruct (Z.ltb_spec x y); lia. Qed.

(** ** The invariant *)

Section safety.
Context {S : Type} {DB : StateDB S} {L : SnapshotLaws S} {V : LedgerLaws S}.
Variable Keccak256 : list Z -> list Z.
Hypothesis HKeccak : forall l, bytes_ok (Keccak256 l) /\ len (Keccak256 l) = 32.
Variable env : Env S.
Hypothesis Henv : 0 <= GasPrice (context env).

(** From the state [s0] of the call that the frame belongs to. *)
Record evm_ok (s0 : S) (e : EVM S) : Prop := {
  eok_db : levolves s0 (statedb e);
  eok_return : bytes_ok (returnData e) }.

Record contract_ok (c : Contract) : Prop := {
  cok_code : slice_ok (Code c);
  cok_input : slice_ok (Input c);
  cok_gas : 0 <= Gas c;
  cok_value : exists v, value c = Some v /\ 0 <= v }.

Record frame_ok (s0 : S) (f : Frame S) : Prop := {
  fok_evm : evm_ok s0 (evm f);
  fok_contract : contract_ok (contract f);
  fok_bytes : bytes_ok (store (mem f));
  fok_mem : memory.Len (mem f) <= mem_limit;
  fok_stk : Forall (Z.le 0) (stk f);
  fok_pc : 0 <= pc f <= len (Code (contract f)) + 33 }.

(** The panics that are left. *)
Definition tolerated (p : panic) : Prop := p = PDests \/ p = PRestrict \/ p = PPrecompile.

(** After an instruction; the next [pc] is at most 33 further or a destination. *)
Definition exec_ok (s0 : S) (f f' : Frame S) (r : result (list Z) vmErr) : Prop :=
  (evm_ok s0 (evm f') /\ contract_ok (contract f') /\ bytes_ok (store (mem f')) /\ memory.Len (mem f') <= mem_limit /\
   Forall (Z.le 0) (stk f')) /\
  len (stk f') <= StackLimit /\ Code (contract f') = Code (contract f) /\
  0 <= pc f' <= Z.max (pc f + 32) (len (Code (contract f))) /\
  match r with Ok out => bytes_ok out | Err _ => True end.

Definition op_safe (o : operation S) (call : CallOps S) : Prop :=
  forall s0 f, healthy s0 -> frame_ok s0 f -> validateStack o (stk f) = None ->
  (forall g n, memorySize o = Some g -> g (stk f) = Ret n -> n <= memory.Len (mem f)) ->
  wp (exec_ok s0 f) tolerated True (execute o env call) f.


Lemma evm_ok_read {A : Type} s0 e (q : S -> S * A) : evm_ok s0 e -> dbread (statedb e) (fst (q (statedb e))) ->
  evm_ok s0 (set_statedb e (fst (q (statedb e)))).
Proof. intros [H1 H2] H. split; [|exact H2]. apply (levolves_snoc _ _ _ H1), l_read, H. Qed.

Lemma evm_ok_step s0 e s : evm_ok s0 e -> lstep (statedb e) s -> evm_ok s0 (set_statedb e s).
Proof. intros [H1 H2] H. split; [|exact H2]. apply (levolves_snoc _ _ _ H1 H). Qed.

Lemma evm_ok_ledger s0 e : healthy s0 -> evm_ok s0 e -> ledger (statedb e).
Proof. intros H [H1 _]. apply (levolves_healthy _ _ H1 H). Qed.

Lemma Forall_tail (x : Z) l : Forall (Z.le 0) (x :: l) -> 0 <= x /\ Forall (Z.le 0) l.
Proof. intros H. apply Forall_cons_iff in H. exact H. Qed.

(** ** What the methods of the EVM promise an instruction *)

Definition result_ok (s0 : S) (x : run (EVM S * call_result)) : Prop :=
  match x with
  | Done (e, (res, rest, _)) => evm_ok s0 e /\ bytes_ok res /\ 0 <= rest
  | Crash p => tolerated p
  | Fuel => True
  end.
Definition create_ok (s0 : S) (x : run (EVM S * (Address * call_result))) : Prop :=
  match x with
  | Done (e, (_, (res, rest, _))) => evm_ok s0 e /\ bytes_ok res /\ 0 <= rest
  | Crash p => tolerated p
  | Fuel => True
  end.

(** A calling contract has a value, which a delegate call inherits. *)
Definition parent_ok (c : ContractRef) : Prop := exists a v, ref_Contract c = Some (a, Some v) /\ 0 <= v.

Record calls_safe (call : CallOps S) : Prop := {
  Call_safe s0 e c a i gas v : healthy s0 -> evm_ok s0 e -> slice_ok i -> 0 <= gas -> 0 <= v -> result_ok s0 (c_Call call c a i gas v e);
  CallCode_safe s0 e c a i gas v : healthy s0 -> evm_ok s0 e -> slice_ok i -> 0 <= gas -> 0 <= v -> result_ok s0 (c_CallCode call c a i gas v e);
  DelegateCall_safe s0 e c a i gas : healthy s0 -> evm_ok s0 e -> slice_ok i -> 0 <= gas -> parent_ok c -> result_ok s0 (c_DelegateCall call c a i gas e);
  StaticCall_safe s0 e c a i gas : healthy s0 -> evm_ok s0 e -> slice_ok i -> 0 <= gas -> result_ok s0 (c_StaticCall call c a i gas e);
  Create_safe s0 e c i gas v : healthy s0 -> evm_ok s0 e -> slice_ok i -> 0 <= gas -> 0 <= v -> create_ok s0 (c_Create call c i gas v e) }.

Lemma contract_ok_gas c g : contract_ok c -> 0 <= g -> contract_ok (set_Gas c g).
Proof. intros [H1 H2 H3 H4] Hg. split; assumption. Qed.

Lemma UseGas_ok c g : contract_ok c -> contract_ok (fst (UseGas c g)) /\ Code (fst (UseGas c g)) = Code c.
Proof.
  intros H. unfold UseGas. destruct (_ <? _); cbn [fst]; [auto|]. split; [|reflexivity]. apply contract_ok_gas; [exact H|apply u64_nonneg].
Qed.

Lemma contract_parent c : contract_ok c -> parent_ok (contract_ref c).
Proof. intros H. destruct (cok_value _ H) as (v & E & Hv). exists (CallerAddress c), v. cbn. rewrite E. auto. Qed.

(** Take the frame apart. *)
Ltac begin_op :=
  intros s0 f Hs0 [He Hc Hb Hm Hst Hpc] Hv Hms; destruct f as [p e c m st];
  cbn [pc evm contract mem stk validateStack entry memorySize execute] in *;
  try unfold makeDupStackFunc, makeSwapStackFunc in Hv; apply makeStackFunc_spec in Hv;
  autounfold with vmops.

(** The operand is there. *)
Ltac has_operand :=
  match goal with
  | Hv : _ /\ _, Hst : Forall (Z.le 0) ?st |- match ?st with [] => _ | _ => _ end =>
      let x := fresh "x" in let Hx := fresh "Hx" in
      destruct st as [|x st]; [exfalso; unfold len in Hv; cbn [length] in Hv; lia|];
      rewrite len_cons in Hv; apply Forall_tail in Hst; destruct Hst as [Hx Hst]
  end.

Ltac nonneg := auto with nonneg go; try lia.

(** The instruction returned. *)
Ltac end_op :=
  unfold exec_ok; cbn [pc evm contract mem stk set_stk set_mem set_evm set_contract set_pc]; rewrite ?len_cons;
  refine (conj (conj _ (conj _ (conj _ (conj _ _)))) (conj _ (conj _ (conj _ _))));
  [ try assumption | try assumption | try assumption | try assumption
  | repeat (apply Forall_cons; [solve [nonneg] || idtac|]); try assumption; try apply Forall_nil
  | unfold StackLimit in *; try lia | try reflexivity | try lia | try first [exact I | assumption | apply bytes_ok_nil | match goal with H : slice_ok _ |- _ => exact (proj1 H) end] ].

(** A condition on the sign of an operand. *)
Ltac sign_facts :=
  repeat match goal with
  | H : negb _ = true |- _ => apply negb_true_iff in H
  | H : negb _ = false |- _ => apply negb_false_iff in H
  | H : (Sign ?y =? 0) = _ |- _ => first [apply Z.eqb_eq in H; apply Sign_zero in H | apply Z.eqb_neq in H; rewrite Sign_zero in H]
  | H : (_ >? 0) = true |- _ => rewrite Z.gtb_ltb in H; apply Z.ltb_lt in H
  | H : (_ <? _) = true |- _ => apply Z.ltb_lt in H
  | H : (_ <? _) = false |- _ => apply Z.ltb_ge in H
  end.

(** The memory the operation asked for. *)
Ltac mem_fact :=
  try match goal with
  | Hms : forall g n, Some _ = Some g -> _ |- _ =>
      let H := fresh "Hmem" in pose proof (Hms _ _ eq_refl eq_refl) as H; clear Hms;
      try (apply BigMax_bound in H; let H' := fresh "Hmem" in destruct H as [H H'])
  end.

Ltac mem_side := first [assumption | lia | (left; reflexivity) | (right; reflexivity)].

Ltac run_op :=
  repeat first
    [ progress cbv zeta
    | has_operand
    | match goal with
      | |- wp _ _ _ (if ?b then _ else _) _ => let E := fresh "E" in destruct b eqn:E
      | |- match big.Div ?x ?y with _ => _ end =>
          let q := fresh "q" in destruct (big_Div_ret x y) as (q & ->); [sign_facts; lia|]
      | |- match big.Mod ?x ?y with _ => _ end =>
          let q := fresh "q" in destruct (big_Mod_ret x y) as (q & ->); [sign_facts; lia|]
      | Hb : bytes_ok (store ?m), Hm : memory.Len ?m <= mem_limit |- match memory.Get ?m (Int64 ?o) ?z with _ => _ end =>
          mem_fact; let z0 := match z with Int64 ?z0 => z0 | _ => z end in
          let d := fresh "d" in let Hd := fresh "Hd" in
          destruct (mem_get m Hb Hm o z0 z) as (d & -> & _ & Hd); [mem_side..|]
      | Hb : bytes_ok (store ?m), Hm : memory.Len ?m <= mem_limit |- match memory.GetPtr ?m (Int64 ?o) ?z with _ => _ end =>
          mem_fact; let z0 := match z with Int64 ?z0 => z0 | _ => z end in
          let d := fresh "d" in let Hd := fresh "Hd" in
          destruct (mem_get m Hb Hm o z0 z) as (d & _ & -> & Hd); [mem_side..|]
      | Hb : bytes_ok (store ?m), Hm : memory.Len ?m <= mem_limit |- match memory.Set_ ?m (Uint64 ?o) ?z ?v with _ => _ end =>
          mem_fact; let z0 := match z with Uint64 ?z0 => z0 | _ => z end in
          let m' := fresh "m'" in let Hb' := fresh "Hb'" in let Hl := fresh "Hl" in
          destruct (mem_set m Hb Hm o z0 z v) as (m' & -> & Hb' & Hl); [mem_side..| |rewrite <- Hl in Hm]
      end
    | wp1 ].

Variable call : CallOps S.

Definition safe_set (t : InstructionSet S) : Prop := Forall (fun e => op_safe (snd e) call) t.

Ltac each_entry := repeat (apply Forall_cons; [|]); try apply Forall_nil; cbn [snd].

Lemma arithmetic_safe : safe_set (arithmetic_set Keccak256).
Proof using HKeccak.
  unfold safe_set, arithmetic_set. each_entry.
  all: begin_op; run_op; try (end_op; fail).
  - end_op. destruct (Sign x >? 0); lia.
  - destruct st as [|y st]; [exfalso; cbn in Hv; lia|]. change (stack.Back (y :: st) 0) with (Ret y). cbv iota beta.
    rewrite len_cons in Hv. apply Forall_tail in Hst as [Hy Hst]. destruct (Z.ltb_spec x 32) as [L1|L1].
    + wp1. rewrite Int64_small by lia. destruct (Byte_ret y x Hx) as (b & -> & Hbb). wp1. wp1. end_op.
    + wp1. wp1. end_op.
  - destruct (EnablePreimageRecording _).
    + wp1. wp1. wp1. end_op; [apply (evm_ok_step _ _ _ He), l_AddPreimage|apply SetBytes_nonneg, HKeccak].
    + wp1. wp1. wp1. end_op. apply SetBytes_nonneg, HKeccak.
Qed.

Ltac copied :=
  match goal with |- match getDataBig ?l ?o ?z with _ => _ end =>
    let d := fresh "d" in let Hd := fresh "Hd" in destruct (getDataBig_ret l o z) as (d & -> & Hd) end.

Lemma set_nth_bytes k x l : bytes_ok l -> 0 <= x < 256 -> bytes_ok (set_nth k x l).
Proof.
  intros H Hx. unfold set_nth. apply bytes_ok_app. split; [apply bytes_ok_firstn, H|].
  constructor; [exact Hx|apply bytes_ok_skipn, H].
Qed.

Lemma environment_safe : safe_set environment_set.
Proof using Henv.
  unfold safe_set, environment_set. each_entry.
  all: begin_op; run_op; try (end_op; fail).
  - end_op; [apply (evm_ok_read _ _ (GetBalance _) He); constructor|apply ledger_balance, (evm_ok_ledger _ _ Hs0 He)].
  - destruct (cok_value _ Hc) as (v & -> & Hv0). wp1. wp1. end_op.
  - copied; [apply Hc|lia..|]. wp1. wp1. end_op.
  - mem_fact. copied; [apply Hc|lia|apply (calcMemSize_size m x); assumption|]. wp1. run_op; [exact Hd|]. end_op.
  - mem_fact. copied; [apply Hc|lia|apply (calcMemSize_size m x); assumption|]. wp1. run_op; [exact Hd|]. end_op.
  - end_op; [apply (evm_ok_read _ _ (GetCodeSize _) He); constructor|apply ledger_size, (evm_ok_ledger _ _ Hs0 He)].
  - mem_fact. copied; [apply ledger_code, (evm_ok_ledger _ _ Hs0 He)|lia|apply (calcMemSize_size m x0); assumption|].
    wp1. run_op; [exact Hd|]. end_op. apply (evm_ok_read _ _ (GetCode _) He); constructor.
  - end_op. destruct (_ && _); nonneg.
  - end_op. apply SetBytes_nonneg, Hd.
  - apply PaddedBigBytes_ok. lia.
  - mem_fact. assert (Hi : x + 1 <= memory.Len m) by (apply (calcMemSize_bound x 1); lia). unfold mem_limit in *.
    rewrite Int64_small by lia. destruct (index_exists (store m) x) as (b & ->); [unfold memory.Len in *; lia|].
    wp1. wp1. end_op; cbn [store set_store].
    + apply set_nth_bytes; [exact Hb|]. unfold u8. apply Z.mod_pos_bound. lia.
    + unfold memory.Len, len, mem_limit in *. cbn [store set_store]. rewrite set_nth_length by lia. lia.
Qed.

Lemma has_in_code d h code pos b d' : has d h code pos = Ret (b, d') -> len code < 2 ^ 62 -> b = true -> Uint64 pos < len code.
Proof.
  unfold has. intros H Hl Hb. pose proof (len_nonneg code). rewrite u64_small in H by lia. rewrite !Z.geb_leb in H.
  destruct (_ || _) eqn:E; [injection H as <- <-; discriminate|]. apply orb_false_iff in E as [_ E]. apply Z.leb_gt in E. exact E.
Qed.

Lemma jump_safe s0 f0 p e c m st pos : evm_ok s0 e -> contract_ok c -> bytes_ok (store m) -> memory.Len m <= mem_limit ->
  Forall (Z.le 0) st -> len st <= StackLimit -> Code c = Code (contract f0) -> 0 <= p <= Z.max (pc f0 + 32) (len (Code (contract f0))) ->
  wp (exec_ok s0 f0) tolerated True (bind (jump_to pos) (fun _ => ret [])) (mkFrame p e c m st).
Proof.
  intros He Hc Hb Hm Hst Hv Hcode Hp. unfold jump_to. apply wp_bind, wp_bind. unfold wp at 1, has_dest. cbn [evm contract].
  destruct (has _ _ _ _) as [[b d]|] eqn:Eh; [|left; reflexivity]. destruct (cok_code _ Hc) as [_ Hl].
  pose proof (has_in_code _ _ _ _ _ _ Eh Hl) as Hin.
  assert (He' : evm_ok s0 (set_dests e d)) by (destruct He; split; assumption). destruct b; cbn [negb].
  - wp1. wp1. unfold exec_ok. cbn [pc evm contract mem stk set_evm set_pc]. specialize (Hin eq_refl). pose proof (u64_nonneg (Z.abs pos)).
    unfold Uint64 in *. rewrite <- Hcode. auto 10 using bytes_ok_nil with zarith.
  - wp1. wp1. rewrite GetOp_ret; [|apply u64_nonneg|lia]. wp1. unfold exec_ok. cbn [pc evm contract mem stk set_evm set_pc]. auto 10.
Qed.

Lemma storage_safe : safe_set storage_set.
Proof.
  unfold safe_set, storage_set. each_entry.
  3: { begin_op. wp1. has_operand. apply jump_safe; auto; cbn [pc contract]; lia. }
  3: { begin_op. wp1. has_operand. wp1. has_operand. destruct (negb _); [apply jump_safe; auto; cbn [pc contract set_stk]; lia|].
       run_op. pose proof (len_nonneg (Code c)). destruct (cok_code _ Hc) as [_ Hl]. end_op. rewrite u64_small; lia. }
  all: begin_op; run_op; try (end_op; fail).
  - end_op. apply (evm_ok_read _ _ (GetState _ _) He). constructor.
  - end_op. apply (evm_ok_step _ _ _ He), l_SetState, BigToHash_ok.
  - end_op. apply len_nonneg.
  - end_op. apply Hc.
Qed.

Lemma makePush_safe n g : 1 <= n <= 32 -> op_safe (entry (makePush n n) g (makeStackFunc 0 1) None []) call.
Proof.
  intros Hn. begin_op. run_op. pose proof (len_nonneg (Code c)) as H0. destruct (cok_code _ Hc) as [Hcb Hl].
  rewrite (u64_small (p + 1)), (i64_small (p + 1)) by lia. set (a := if p + 1 <? len (Code c) then p + 1 else len (Code c)).
  assert (Ha : 0 <= a <= len (Code c)) by (unfold a; destruct (Z.ltb_spec (p + 1) (len (Code c))); lia).
  rewrite (i64_small (a + n)) by lia. set (b := if a + n <? len (Code c) then a + n else len (Code c)).
  assert (Hab : a <= b <= len (Code c)) by (unfold b; destruct (Z.ltb_spec (a + n) (len (Code c))); lia).
  rewrite slice_ret by lia. run_op. end_op.
  - apply SetBytes_nonneg, bytes_ok_RightPad. auto using bytes_ok_firstn, bytes_ok_skipn.
  - rewrite u64_small; lia.
Qed.

Lemma push_safe : safe_set push_set.
Proof. unfold safe_set, push_set. each_entry. all: apply makePush_safe; lia. Qed.

Lemma Forall_index (l : list Z) i x : Forall (Z.le 0) l -> index l i = Ret x -> 0 <= x.
Proof. intros H Hi. apply index_in in Hi as [_ Hi]. apply nth_error_In in Hi. rewrite Forall_forall in H. apply H, Hi. Qed.

Lemma Forall_set_nth k x (l : list Z) : Forall (Z.le 0) l -> 0 <= x -> Forall (Z.le 0) (set_nth k x l).
Proof.
  intros H Hx. unfold set_nth. apply Forall_app.
  pose proof H as H'. rewrite <- (firstn_skipn k l) in H. rewrite <- (firstn_skipn (Datatypes.S k) l) in H'.
  apply Forall_app in H as [H _]. apply Forall_app in H' as [_ H']. auto.
Qed.

Lemma makeDup_safe n g : 1 <= n -> op_safe (entry (makeDup n) g (makeDupStackFunc n) None []) call.
Proof.
  intros Hn. begin_op. unfold makeDup, wp, stack.dup. cbn [stk]. destruct (index_exists st (n - 1)) as (x & Ex); [lia|].
  rewrite Ex. cbn [obind]. unfold stack.push. end_op. apply (Forall_index _ _ _ Hst Ex).
Qed.

Lemma dup_safe : safe_set dup_set.
Proof. unfold safe_set, dup_set. each_entry. all: apply makeDup_safe; lia. Qed.

Lemma makeSwap_safe n g : 1 <= n -> op_safe (entry (makeSwap n) g (makeSwapStackFunc (n + 1)) None []) call.
Proof.
  intros Hn. begin_op. unfold makeSwap, wp, stack.swap. cbn [stk]. replace (n + 1 - 1) with n by lia.
  destruct (index_exists st n) as (x & Ex); [lia|]. destruct (index_exists st 0) as (y & Ey); [lia|]. rewrite Ex. cbn [obind]. rewrite Ey. cbn [obind].
  pose proof (Forall_index _ _ _ Hst Ex). pose proof (Forall_index _ _ _ Hst Ey).
  assert (Hst' : Forall (Z.le 0) (set_nth 0 x (set_nth (Z.to_nat n) y st))) by (repeat apply Forall_set_nth; assumption).
  assert (Hlen : len (set_nth 0 x (set_nth (Z.to_nat n) y st)) = len st).
  { unfold len in *. rewrite !set_nth_length; [lia|lia|rewrite set_nth_length; lia]. }
  revert Hst' Hlen. generalize (set_nth 0 x (set_nth (Z.to_nat n) y st)). intros st' Hst' Hlen. end_op.
Qed.

Lemma swap_safe : safe_set swap_set.
Proof.
  unfold safe_set, swap_set. each_entry.
  all: match goal with |- op_safe (entry (makeSwap ?n) ?g _ _ _) _ => apply (makeSwap_safe n g); lia end.
Qed.

Lemma pop_topics_ret n : forall st p (e : EVM S) c m, (n <= length st)%nat ->
  pop_topics n (mkFrame p e c m st) = Done (mkFrame p e c m (skipn n st), Ok (map BigToHash (firstn n st))).
Proof.
  induction n as [|n IH]; intros st p e c m Hn; [reflexivity|]. destruct st as [|x st]; [cbn in Hn; lia|].
  cbn [pop_topics length] in *. 
  unfold bind at 1, pop at 1. cbn [stk stack.pop].
  unfold bind at 1, set_stk. cbn [pc evm contract mem].
  rewrite IH by lia. reflexivity.
Qed.

Lemma makeLog_safe n g : op_safe (entry (makeLog n) g (makeStackFunc (Z.of_nat n + 2) 0) (Some memoryLog) [Writes]) call.
Proof.
  begin_op. wp1. has_operand. wp1. has_operand. apply wp_bind. unfold wp at 1. unfold set_stk. cbn [pc evm contract mem].
  rewrite pop_topics_ret by (unfold len in Hv; lia).
  assert (Hlen : len (skipn n st) <= StackLimit) by (unfold len in *; rewrite length_skipn; lia).
  assert (Hst' : Forall (Z.le 0) (skipn n st)) by (rewrite <- (firstn_skipn n st) in Hst; apply Forall_app in Hst; apply Hst).
  run_op. end_op. apply (evm_ok_step _ _ _ He), l_AddLog.
Qed.

Lemma log_safe : safe_set log_set.
Proof.
  unfold safe_set, log_set. each_entry.
  all: match goal with |- op_safe (entry (makeLog ?n) ?g _ _ _) _ => apply (makeLog_safe n g) end.
Qed.

(** ** Calls *)

Hypothesis Hcall : calls_safe call.

Lemma call_return_safe s0 f0 p e c m st o z res rest err : evm_ok s0 e -> contract_ok c -> bytes_ok (store m) -> memory.Len m <= mem_limit ->
  Forall (Z.le 0) st -> len st + 1 <= StackLimit -> Code c = Code (contract f0) -> 0 <= p <= Z.max (pc f0 + 32) (len (Code (contract f0))) ->
  0 <= o -> 0 <= z -> calcMemSize o z <= memory.Len m -> bytes_ok res -> 0 <= rest ->
  wp (exec_ok s0 f0) tolerated True (call_return o z (res, rest, err)) (mkFrame p e c m st).
Proof.
  intros He Hc Hb Hm Hst Hv Hcode Hp Ho Hz Hmem Hres Hrest. unfold call_return. wp1.
  assert (Hx : 0 <= match err with Some _ => 0 | None => 1 end) by (destruct err; lia).
  assert (Hend : forall m', bytes_ok (store m') -> memory.Len m' = memory.Len m -> wp (exec_ok s0 f0) tolerated True
    (bind (add_gas rest) (fun _ => ret res)) (mkFrame p e c m' (match err with Some _ => 0 | None => 1 end :: st))).
  { intros m' Hb' Hl. unfold add_gas. wp1. wp1. rewrite <- Hl in Hm. unfold exec_ok. cbn [pc evm contract mem stk set_contract].
    pose proof (contract_ok_gas c (u64 (Gas c + rest)) Hc (u64_nonneg _)). rewrite len_cons. auto 10. }
  apply wp_bind. destruct (match err with None => true | Some e0 => is_reverted e0 end).
  - wp1. destruct (mem_set m Hb Hm o z (Uint64 z) res) as (m' & -> & Hb' & Hl); auto. apply Hend; assumption.
  - wp1. apply Hend; auto.
Qed.

(** The call is made and its output put into memory. *)
Ltac call_op lem :=
  begin_op; run_op;
  match goal with Ho : calcMemSize ?o ?z <= _, Hs : healthy ?s |- match ?x with Done _ => _ | Crash _ => _ | Fuel => _ end =>
    let R := fresh "R" in
    assert (R : result_ok s x) by (apply lem; nonneg; try (apply contract_parent; assumption); try destruct (negb _); nonneg);
    let e' := fresh "e" in let res := fresh "res" in let rest := fresh "rest" in let err := fresh "err" in
    destruct x as [[e' [[res rest] err]]|?|]; cbn [result_ok] in R; [|exact R|exact I]; destruct R as (? & ? & ?);
    apply (call_return_safe s _ _ _ _ _ _ o z); cbn [set_stk set_mem set_evm set_contract set_pc pc evm contract mem stk]; unfold StackLimit in *; auto; try lia
  end.

Lemma opCall_safe g vs : op_safe (entry opCall g (makeStackFunc 7 1) (Some memoryCall) vs) call.
Proof using Hcall. call_op (Call_safe call Hcall). Qed.

Lemma opCallCode_safe g vs : op_safe (entry opCallCode g (makeStackFunc 7 1) (Some memoryCall) vs) call.
Proof using Hcall. call_op (CallCode_safe call Hcall). Qed.

Lemma opDelegateCall_safe g vs : op_safe (entry opDelegateCall g (makeStackFunc 6 1) (Some memoryDelegateCall) vs) call.
Proof using Hcall. call_op (DelegateCall_safe call Hcall). Qed.

Lemma opStaticCall_safe g vs : op_safe (entry opStaticCall g (makeStackFunc 6 1) (Some memoryStaticCall) vs) call.
Proof using Hcall. call_op (StaticCall_safe call Hcall). Qed.

Lemma wp_use_gas (Q : Frame S -> result bool vmErr -> Prop) C F g (f : Frame S) :
  Q (set_contract f (fst (UseGas (contract f) g))) (Ok (snd (UseGas (contract f) g))) -> wp Q C F (use_gas g) f.
Proof. unfold wp, use_gas. destruct (UseGas _ _). exact (fun H => H). Qed.

Lemma opCreate_safe g vs : op_safe (entry opCreate g (makeStackFunc 3 1) (Some memoryCreate) vs) call.
Proof using Hcall.
  begin_op. run_op. set (gas := if IsEIP150 _ _ then _ else _). pose proof (UseGas_ok c gas Hc) as [Hc' Hcode].
  assert (Hgas : 0 <= gas) by (unfold gas; destruct (IsEIP150 _ _); [apply u64_nonneg|apply Hc]).
  apply wp_bind, wp_use_gas. run_op. match goal with |- match ?x with Done _ => _ | Crash _ => _ | Fuel => _ end =>
    assert (R : create_ok s0 x) by (apply (Create_safe call Hcall); assumption);
    destruct x as [[e' [a [[res rest] err]]]|?|]; [|exact R|exact I] end.
  destruct R as (He' & Hres & Hrest). unfold add_gas. run_op. end_op.
  - apply contract_ok_gas; [exact Hc'|apply u64_nonneg].
  - destruct (_ && _); [lia|]. destruct (match err with Some _ => _ | None => _ end); [lia|apply Address_Big_nonneg].
  - exact Hcode.
  - destruct (err_is _ _); [exact Hres|apply bytes_ok_nil].
Qed.

Lemma opReturn_safe g vs : op_safe (entry opReturn g (makeStackFunc 2 0) (Some memoryReturn) vs) call.
Proof. begin_op. run_op. end_op. Qed.

Lemma opRevert_safe g vs : op_safe (entry opRevert g (makeStackFunc 2 0) (Some memoryRevert) vs) call.
Proof. begin_op. run_op. end_op. Qed.

Lemma opSuicide_safe g vs : op_safe (entry opSuicide g (makeStackFunc 1 0) None vs) call.
Proof. begin_op. run_op. end_op. destruct He as [H1 H2]. split; [|exact H2]. apply (levolves_snoc _ _ _ H1), l_Destroy. Qed.

Lemma opReturnDataSize_safe g vs : op_safe (entry opReturnDataSize g (makeStackFunc 0 1) None vs) call.
Proof. begin_op. run_op. end_op. Qed.

Lemma opReturnDataCopy_safe g vs : op_safe (entry opReturnDataCopy g (makeStackFunc 3 0) (Some memoryReturnDataCopy) vs) call.
Proof.
  begin_op. run_op; [end_op|]. apply orb_false_iff in E. destruct E as [E1 E2]. rewrite Z.gtb_ltb in E1.
  apply Z.ltb_ge, BitLen_le_iff in E1; [|lia]. apply Z.ltb_ge in E2. rewrite Z.abs_eq in E1 by lia.
  pose proof (u64_le (len (returnData e)) (len_nonneg _)). rewrite (Uint64_small (x0 + x1)) in * by lia.
  rewrite (Uint64_small x0) by lia. rewrite slice_ret by lia. run_op; [|end_op].
  apply bytes_ok_firstn, bytes_ok_skipn, He.
Qed.

(** ** The three instruction sets *)

Lemma call_set_safe : safe_set call_set.
Proof using Hcall.
  unfold safe_set, call_set. each_entry.
  - apply opCreate_safe.
  - apply opCall_safe.
  - apply opCallCode_safe.
  - apply opReturn_safe.
  - apply opSuicide_safe.
Qed.

Lemma frontier_safe : safe_set (NewFrontierInstructionSet Keccak256).
Proof using HKeccak Henv Hcall.
  unfold safe_set, NewFrontierInstructionSet. rewrite !Forall_app. repeat split.
  - apply arithmetic_safe.
  - apply environment_safe.
  - apply storage_safe.
  - apply push_safe.
  - apply dup_safe.
  - apply swap_safe.
  - apply log_safe.
  - apply call_set_safe.
Qed.

Lemma homestead_safe : safe_set (NewHomesteadInstructionSet Keccak256).
Proof using HKeccak Henv Hcall. apply Forall_cons; [apply opDelegateCall_safe|apply frontier_safe]. Qed.

Lemma metropolis_safe : safe_set (NewMetropolisInstructionSet Keccak256).
Proof using HKeccak Henv Hcall.
  apply Forall_cons; [apply opRevert_safe|]. apply Forall_cons; [apply opReturnDataCopy_safe|].
  apply Forall_cons; [apply opReturnDataSize_safe|]. apply Forall_cons; [apply opStaticCall_safe|apply homestead_safe].
Qed.

End safety.
