(* ===== verification/VmSafeRun.v ===== *)
(** * Runs that do not panic

    The safety of the instructions of [VmSafety.v] carried to gas functions, to a
    step of the interpreter, to the methods of the EVM and to the loop. *)

From Stdlib Require Import ZArith List Lia Bool RelationClasses.
From S2P Require Import Prelude GoBig ByteBuf Rlp RlpTheorems VmCommon CommonTypes Params VmContract Precompiles.
From S2P Require Import VmMemory VmOpcodes VmState VmGas VmOps VmJumpTable VmInterp VmHoare VmTermination.
From S2P Require Import VmEvolve VmLedger VmSafety.
Import ListNotations.
Local Open Scope Z_scope.

Section safe_run.
Context {S : Type} {DB : StateDB S} {L : SnapshotLaws S} {V : LedgerLaws S}.
Variable Keccak256 : list Z -> list Z.
Hypothesis HKeccak : forall l, bytes_ok (Keccak256 l) /\ len (Keccak256 l) = 32.
Variable env : Env S.
Hypothesis Henv : 0 <= GasPrice (context env).

(** ** Gas functions *)

Definition evm_kept (f f' : Frame S) : Prop := forall s0, evm_ok s0 (evm f) -> evm_ok s0 (evm f').

#[local] Instance evm_kept_lax : Lax evm_kept.
Proof. split; try (intros f ? s0 H; exact H). split; [intros f s0 H; exact H|]. intros f g h H1 H2 s0 H. apply H2, H1, H. Qed.

Lemma kept_query {A : Type} F (q : S -> S * A) : (forall s, dbread s (fst (q s))) -> keeps F evm_kept (query q).
Proof.
  intros H f. unfold query. specialize (H (statedb (evm f))). pose proof (fun s0 => evm_ok_read s0 (evm f) q) as Hr.
  destruct (q _) as [s a]. intros s0 He. apply (Hr s0 He H).
Qed.

Lemma kept_AddRefund F g : 0 <= g -> keeps F evm_kept (update (AddRefund g)).
Proof. intros Hg f s0 He. apply (evm_ok_step _ _ _ He), l_AddRefund, Hg. Qed.
Lemma kept_SstoreRefund F : keeps F evm_kept (update (AddRefund SstoreRefundGas)).
Proof. apply kept_AddRefund. discriminate. Qed.
Lemma kept_SuicideRefund F : keeps F evm_kept (update (AddRefund SuicideRefundGas)).
Proof. apply kept_AddRefund. discriminate. Qed.

Hint Extern 2 (keeps _ evm_kept (query _)) => apply kept_query; intros; solve [constructor] : keeps.
Hint Resolve kept_SstoreRefund kept_SuicideRefund : keeps.

(** The memory function finds its operands among the [pops] that are checked. *)
Definition memory_defined (o : operation S) (pops : Z) : Prop :=
  forall g st, memorySize o = Some g -> pops <= len st -> exists n, g st = Ret n.

(** The operands the gas function reads are there, it pays for the memory, and
    the gas a call puts on the stack does not move the memory it asks for. *)
Definition gas_safe (o : operation S) : Prop :=
  (forall gt ms, keeps True evm_kept (gasCost o gt env ms)) /\
  exists pops push, validateStack o = makeStackFunc pops push /\ memory_defined o pops /\
    ((exists k need ch, priced k need ch (gasCost o) /\ 0 <= k /\ need <= pops /\ (ch = true \/ memorySize o = None)) \/
     (exists base need, call_priced base need (gasCost o) /\ (forall st, 0 <= base st) /\ need <= pops /\ 1 <= pops /\
        forall g x y st, memorySize o = Some g -> g (x :: st) = g (y :: st))).

Definition gas_safe_set (t : InstructionSet S) : Prop := Forall (fun e => gas_safe (snd e)) t.

Ltac kept_gas := cbn [gasCost entry]; intros gt ms; autounfold with vmgas; keep.
Ltac mem_defined :=
  unfold memory_defined; cbn [memorySize entry]; intros g st E; try discriminate E; injection E as <-; intros Hl;
  repeat first [eexists; reflexivity | destruct st as [|? st]; [exfalso; cbn in Hl; lia|]].
Ltac priced_safe :=
  left; do 3 eexists; cbn [gasCost entry memorySize];
  split; [first
    [ apply priced_const; unfold is_u64; vm_compute; split; congruence
    | apply priced_Exp | apply priced_Sha3 | apply priced_SStore | apply priced_Suicide | apply priced_Log
    | apply priced_Return
    | apply (priced_mem GasFastestStep GasFastestStep); [unfold is_u64; vm_compute; split; congruence | lia]
    | apply (priced_mem CreateGas CreateGas); [unfold is_u64; vm_compute; split; congruence | lia]
    | apply (priced_copy GasFastestStep 2 (fun _ => GasFastestStep)); [lia | intros; vm_compute; split; congruence | vm_compute; congruence]
    | apply (priced_copy 1 3 ExtcodeCopy); [lia | intros gt Hgt; unfold table_ok, price in Hgt; lia | lia]
    | apply (priced_table _); intros gt Hgt; unfold table_ok in Hgt; tauto ]
  | split; [vm_compute; congruence | split; [vm_compute; congruence | auto]]].
Ltac entry_safe :=
  split; [kept_gas|]; cbn [validateStack entry]; unfold makeDupStackFunc, makeSwapStackFunc; do 2 eexists;
  split; [reflexivity|]; split; [mem_defined|].

Lemma plain_gas_safe : gas_safe_set (plain_sets Keccak256).
Proof.
  unfold gas_safe_set, plain_sets. rewrite !Forall_app. repeat match goal with |- _ /\ _ => split end.
  all: unfold arithmetic_set, environment_set, storage_set, push_set, dup_set, swap_set, log_set.
  all: repeat (apply Forall_cons; [|]); try apply Forall_nil; cbn [snd].
  all: entry_safe; priced_safe.
Qed.

Lemma value_price_nonneg (v : Z) : 0 <= value_price v.
Proof. unfold value_price, CallValueTransferGas. destruct (v =? 0); lia. Qed.

Ltac call_safe lem :=
  right; do 2 eexists; cbn [gasCost entry memorySize]; split; [apply lem|];
  split; [intros; first [apply value_price_nonneg | lia]|]; split; [lia|]; split; [lia|]; intros g x y st E; injection E as <-; reflexivity.

Lemma call_gas_safe : gas_safe_set call_set.
Proof.
  unfold gas_safe_set, call_set. repeat (apply Forall_cons; [|]); try apply Forall_nil; cbn [snd]; entry_safe.
  - priced_safe.
  - call_safe @price_Call.
  - call_safe @price_CallCode.
  - priced_safe.
  - priced_safe.
Qed.

Lemma frontier_gas_safe : gas_safe_set (NewFrontierInstructionSet Keccak256).
Proof.
  pose proof plain_gas_safe as H. unfold NewFrontierInstructionSet, gas_safe_set, plain_sets in *.
  rewrite !Forall_app in *. intuition. apply call_gas_safe.
Qed.

Lemma homestead_gas_safe : gas_safe_set (NewHomesteadInstructionSet Keccak256).
Proof. apply Forall_cons; [|apply frontier_gas_safe]. cbn [snd]. entry_safe. call_safe @price_plain_call. Qed.

Lemma metropolis_gas_safe : gas_safe_set (NewMetropolisInstructionSet Keccak256).
Proof.
  unfold NewMetropolisInstructionSet. repeat (apply Forall_cons; [cbn [snd]|apply homestead_gas_safe || idtac]); entry_safe.
  1, 2, 3: priced_safe.
  call_safe @price_plain_call.
Qed.

(** After the gas function the operands are still those of the instruction. *)
Lemma gas_post_safe o gt ms s0 f : gas_safe o -> table_ok gt -> frame_ok s0 f -> validateStack o (stk f) = None ->
  wp (fun f1 r =>
        evm_ok s0 (evm f1) /\ contract f1 = contract f /\ pc f1 = pc f /\ store (mem f1) = store (mem f) /\
        match r with
        | Err _ => True
        | Ok c => 0 <= c /\ Forall (Z.le 0) (stk f1) /\ validateStack o (stk f1) = None /\
            (forall g, memorySize o = Some g -> g (stk f1) = g (stk f) /\ (ms = 0 \/ ms <= mem_limit))
        end)
     (fun _ => False) False (gasCost o gt env ms) f.
Proof.
  intros (Hk & pops & push & Hv & _ & Hp) Hgt Hf Hs. specialize (Hk gt ms f). rewrite Hv in *.
  pose proof (proj1 (makeStackFunc_spec _ _ _) Hs) as Hlen. unfold wp.
  destruct Hp as [(k & need & ch & Hp & H0 & Hn & Hch)|(base & need & Hp & H0 & Hn & H1 & Hmem)];
    specialize (Hp gt env ms f Hgt); unfold wp in Hp;
    (destruct (gasCost o gt env ms f) as [[f1 r]|p|]; [|lia|exact Hp]); specialize (Hk s0 (fok_evm _ _ Hf)).
  - destruct Hp as (E0 & E1 & E2 & E3 & Hr). do 4 (split; [assumption|]). destruct r as [c|e]; [|exact I].
    rewrite E2. split; [lia|]. split; [apply Hf|]. split; [exact Hs|]. intros g Hg. split; [reflexivity|].
    destruct Hch as [->|E]; [apply Hr; reflexivity|congruence].
  - destruct Hp as (E0 & E1 & E3 & Hr). do 4 (split; [assumption|]). destruct r as [c|e]; [|exact I].
    destruct Hr as (cg & E2 & Hcg & Hc & Hm). specialize (H0 (stk f)). rewrite E2.
    pose proof (fok_stk _ _ Hf) as Hst. destruct (stk f) as [|x st]; [cbn in Hlen; lia|]. cbn [tl] in *.
    apply Forall_tail in Hst. split; [lia|]. split; [constructor; tauto|]. split.
    + apply makeStackFunc_spec. rewrite len_cons in *. lia.
    + intros g Hg. split; [apply Hmem, Hg|exact Hm].
Qed.

(** ** A step *)

Lemma memory_size_safe (o : operation S) st pops : memory_defined o pops -> pops <= len st ->
  exists r, memory_size o st = Ret r /\
    match r with
    | Err _ => True
    | Ok ms => is_u64 ms /\ (memorySize o = None -> ms = 0) /\ forall g n, memorySize o = Some g -> g st = Ret n -> n <= ms
    end.
Proof.
  intros Hd Hl. unfold memory_size. destruct (memorySize o) as [g|] eqn:Eg.
  2: { eexists. split; [reflexivity|]. split; [split; reflexivity || lia|]. split; [reflexivity|discriminate]. }
  destruct (Hd g st Eg Hl) as (n & En). rewrite En. cbn [obind]. unfold bigUint64. cbv iota beta. rewrite Z.gtb_ltb.
  destruct (Z.ltb_spec 64 (BitLen n)) as [|Lb]; [eexists; split; [reflexivity|exact I]|]. apply BitLen_le_iff in Lb; [|lia].
  assert (Hw : is_u64 (Uint64 n)) by apply u64_range. pose proof (toWordSize_range _ Hw).
  rewrite SafeMul_spec by (unfold is_u64; lia). destruct (Z.leb_spec (2 ^ 64) (toWordSize (Uint64 n) * 32)) as [|Lm]; [eexists; split; [reflexivity|exact I]|].
  eexists. split; [reflexivity|]. split; [apply u64_range|]. split; [congruence|]. intros g' n' [= <-]. rewrite En. intros [= <-].
  rewrite u64_small by lia. rewrite toWordSize_ceil in * by exact Hw. unfold Uint64 in *. rewrite u64_small in * by lia.
  pose proof (Z.div_mod (Z.abs n + 31) 32 ltac:(lia)). pose proof (Z.mod_pos_bound (Z.abs n + 31) 32 ltac:(lia)). lia.
Qed.

(** A step goes on with a frame in the invariant, or ends the run. *)
Definition ended (s0 : S) (f : Frame S) (r : run_result) : Prop :=
  evm_ok s0 (evm f) /\ contract_ok (contract f) /\ bytes_ok (fst r).
Definition step_ok (s0 : S) (x : run (Frame S * (unit + run_result))) : Prop :=
  match x with
  | Done (f, inl _) => frame_ok s0 f /\ len (stk f) <= StackLimit
  | Done (f, inr r) => ended s0 f r
  | Crash p => tolerated p
  | Fuel => True
  end.

Lemma stopped s0 f out err : frame_ok s0 f -> bytes_ok out -> ended s0 f (out, err).
Proof. intros H Ho. split; [apply H|]. split; [apply H|exact Ho]. Qed.

Lemma Resize_ok m ms : bytes_ok (store m) -> memory.Len m <= mem_limit -> is_u64 ms -> (ms = 0 \/ ms <= mem_limit) ->
  let m' := if ms >? 0 then memory.Resize m ms else m in
  bytes_ok (store m') /\ memory.Len m <= memory.Len m' <= mem_limit /\ ms <= memory.Len m'.
Proof.
  intros Hb Hl Hu Hms m'. unfold m'. rewrite Z.gtb_ltb. pose proof (len_nonneg (store m)). unfold mem_limit, memory.Len in *.
  destruct (Z.ltb_spec 0 ms); [|split; [exact Hb|lia]].
  split; [|fold (memory.Len (memory.Resize m ms)); rewrite memory_Resize_len by (exact Hu || unfold memory.Len; lia); unfold memory.Len; lia].
  unfold memory.Resize. destruct (_ <? _); [|exact Hb]. cbn [store]. apply bytes_ok_app. split; [exact Hb|apply zeros_ok].
Qed.

Section step.
Variables (call : CallOps S) (o : operation S) (s0 : S).
Hypothesis Hs0 : healthy s0.
Hypothesis Ho : op_safe env o call.

Lemma execute_op_safe ms f : frame_ok s0 f -> validateStack o (stk f) = None -> is_u64 ms -> (ms = 0 \/ ms <= mem_limit) ->
  (forall g n, memorySize o = Some g -> g (stk f) = Ret n -> n <= ms) ->
  (pc f < len (Code (contract f)) \/ halts o = true) -> step_ok s0 (execute_op env call o ms f).
Proof using Hs0 Ho.
  intros Hf Hv Hu Hms Hn Hpc. destruct (Resize_ok (mem f) ms (fok_bytes _ _ Hf) (fok_mem _ _ Hf) Hu Hms) as (R1 & R2 & R3).
  unfold execute_op. set (f2 := if ms >? 0 then _ else _).
  assert (E : mem f2 = (if ms >? 0 then memory.Resize (mem f) ms else mem f) /\ stk f2 = stk f /\ contract f2 = contract f /\
    pc f2 = pc f /\ evm f2 = evm f) by (unfold f2; destruct (_ >? _); auto).
  destruct E as (E1 & E2 & E3 & E4 & E5). rewrite <- E1 in *. assert (Hf2 : frame_ok s0 f2).
  { destruct Hf. split; rewrite ?E2, ?E3, ?E4, ?E5; (assumption || lia). }
  specialize (Ho s0 f2 Hs0 Hf2). rewrite E2 in Ho. specialize (Ho Hv ltac:(intros g n H1 H2; specialize (Hn g n H1 H2); lia)).
  unfold wp in Ho. destruct (execute o env call f2) as [[f3 r]|p|]; [|exact Ho|exact I].
  destruct Ho as ((X1 & X2 & X3 & X4 & X5) & X6 & X7 & X8 & X9). rewrite E3, E4 in *. cbv zeta. set (f4 := if op_returns o then _ else _).
  assert (Hf4 : evm_ok s0 (evm f4) /\ contract f4 = contract f3 /\ mem f4 = mem f3 /\ stk f4 = stk f3 /\ pc f4 = pc f3).
  { unfold f4. destruct (op_returns o); [|auto]. cbn. repeat split; [apply X1|destruct r; [exact X9|apply bytes_ok_nil]]. }
  destruct Hf4 as (F1 & F2 & F3 & F4 & F5). assert (Hend : forall out err, bytes_ok out -> ended s0 f4 (out, err)).
  { intros out err H. split; [exact F1|]. rewrite F2. auto. }
  destruct r as [res|e]; [|apply Hend, bytes_ok_nil]. destruct (reverts o); [apply Hend, X9|].
  destruct (halts o); [apply Hend, X9|]. destruct Hpc as [Hpc|[=]]. pose proof (cok_code _ (fok_contract _ _ Hf)) as [_ Hcl].
  destruct (negb (jumps o)); cbn [step_ok set_pc stk]; rewrite F4; (split; [|exact X6]); split; cbn [evm contract mem stk pc set_pc];
    rewrite ?F2, ?F3, ?F4, ?F5, ?X7; try assumption; rewrite ?u64_small; lia.
Qed.

End step.

Section interpreter.
Variables homestead metropolis : Address -> option PrecompiledContract.
Variable interp : Interpreter S.
Hypothesis Htable : forall call, calls_safe call -> safe_set env call (JumpTable interp).
Hypothesis Hgas : gas_safe_set (JumpTable interp).
Hypothesis Hgt : table_ok (in_gasTable interp).
Hypothesis Hstop : halts (lookup (JumpTable interp) STOP) = true.
Hypothesis Hmeter : DisableGasMetering (vmConfig env) = false.

Lemma lookup_Forall (P : operation S -> Prop) (t : InstructionSet S) op : Forall (fun e => P (snd e)) t ->
  valid (lookup t op) = true -> P (lookup t op).
Proof. induction 1 as [|[k e] t He _ IH]; cbn [lookup]; [discriminate|]. destruct (k =? op); auto. Qed.

Lemma step_safe call s0 f : calls_safe call -> healthy s0 -> frame_ok s0 f -> step_ok s0 (step env interp call f).
Proof using Htable Hgas Hgt Hstop Hmeter.
  intros Hcall Hs0 Hf. destruct (cok_code _ (fok_contract _ _ Hf)) as [_ Hcl]. pose proof (fok_pc _ _ Hf) as Hpc0. unfold step.
  rewrite GetOp_ret by lia. cbn [of_outcome rbind]. set (op := nth _ _ _).
  destruct (enforceRestrictions _ _ _ _ _) as [[e|]|]; cbn [of_outcome rbind]; [apply stopped; auto using bytes_ok_nil| |right; left; reflexivity].
  destruct (valid _) eqn:Hv; cbn [negb]; [|apply stopped; auto using bytes_ok_nil].
  destruct (validateStack _ _) as [e|] eqn:Hs; [apply stopped; auto using bytes_ok_nil|].
  pose proof (lookup_Forall (fun o => op_safe env o call) _ op (Htable call Hcall) Hv) as Ho. pose proof (lookup_Forall gas_safe _ op Hgas Hv) as Hg.
  assert (Hpc : pc f < len (Code (contract f)) \/ halts (lookup (JumpTable interp) op) = true).
  { destruct (Z.lt_ge_cases (pc f) (len (Code (contract f)))) as [|Lp]; [auto|right]. unfold op. rewrite nth_overflow; [exact Hstop|].
    unfold len in Lp. lia. }
  pose proof Hg as (_ & pops & push & Ev & Hd & _). pose proof Hs as Hlen. rewrite Ev in Hlen. apply makeStackFunc_spec in Hlen.
  destruct (memory_size_safe _ (stk f) pops Hd ltac:(lia)) as (r & -> & Hr). cbn [of_outcome rbind].
  destruct r as [ms|e]; [|apply stopped; auto using bytes_ok_nil]. destruct Hr as (Hu & Hnone & Hn). rewrite Hmeter.
  pose proof (gas_post_safe _ (in_gasTable interp) ms s0 f Hg Hgt Hf Hs) as Hp. unfold wp in Hp.
  destruct (gasCost _ _ _ _ _) as [[f1 r]|p|]; [|contradiction..]. destruct Hp as (E1 & E2 & E3 & E4 & Hr).
  destruct r as [c|e]; [|split; [exact E1|]; rewrite E2; split; [apply Hf|apply bytes_ok_nil]].
  destruct Hr as (Hc & Hst & Hs1 & Hmem). pose proof (UseGas_ok (contract f1) c) as Hug. rewrite E2 in *.
  specialize (Hug (fok_contract _ _ Hf)). destruct (UseGas (contract f) c) as [c' ok]. cbn [fst] in Hug. destruct Hug as [Hc' Hcode].
  cbv zeta. destruct ok; [|split; [exact E1|]; split; [exact Hc'|apply bytes_ok_nil]].
  assert (Hf1 : frame_ok s0 (set_contract f1 c')).
  { destruct Hf. split; cbn [evm contract mem stk pc set_contract]; rewrite ?E3, ?E4, ?Hcode; try assumption.
    unfold memory.Len in *. rewrite E4. assumption. }
  apply (execute_op_safe call _ s0 Hs0 Ho ms _ Hf1 Hs1 Hu); cbn [contract pc stk set_contract]; rewrite ?Hcode, ?E3; auto.
  - destruct (memorySize _) as [g|]; [apply (Hmem g eq_refl)|left; apply Hnone; reflexivity].
  - intros g n Eg En. rewrite (proj1 (Hmem g Eg)) in En. exact (Hn g n Eg En).
Qed.

(** ** The methods of the EVM *)

(** What the precompiled contracts return are bytes. *)
Hypothesis Hhomestead : forall a p input out, homestead a = Some p -> slice_ok input -> Run p input = Ret (Ok out) -> bytes_ok out.
Hypothesis Hmetropolis : forall a p input out, metropolis a = Some p -> slice_ok input -> Run p input = Ret (Ok out) -> bytes_ok out.
(** The context moves Ether, and only when the sender has it. *)
Hypothesis HCan : forall a v s, dbreads s (fst (CanTransfer (context env) a v s)) /\
  (snd (CanTransfer (context env) a v s) = true -> v <= snd (GetBalance a s)).
Hypothesis HTransfer : forall a b v s, Transfer (context env) a b v s = AddBalance b v (SubBalance a v s).

Lemma dbreads_levolves s s' : dbreads s s' -> levolves s s'.
Proof. induction 1 as [s|s1 s2 s3 H _ IH]; [apply lev_refl|]. apply (lev_step _ _ _ (l_read _ _ H) IH). Qed.

(** The sender has the amount. *)
Definition solvent (a : Address) (v : Z) (s : S) : Prop := healthy s /\ v <= snd (GetBalance a s).

Lemma solvent_read a v s s' : dbread s s' -> solvent a v s -> solvent a v s'.
Proof. intros H [H1 H2]. split; [apply (lstep_healthy _ _ (l_read _ _ H) H1)|]. rewrite (balance_read s s' a H (proj1 H1)). exact H2. Qed.
Lemma solvent_reads a v s s' : dbreads s s' -> solvent a v s -> solvent a v s'.
Proof. induction 1; eauto using solvent_read. Qed.
Lemma solvent_Snapshot a v s : solvent a v s -> solvent a v (fst (Snapshot s)).
Proof. intros [H1 H2]. split; [apply (lstep_healthy _ _ (l_Snapshot _) H1)|]. rewrite balance_Snapshot by apply H1. exact H2. Qed.
Lemma solvent_CreateAccount a v b s : solvent a v s -> solvent a v (CreateAccount b s).
Proof. intros [H1 H2]. split; [apply (lstep_healthy _ _ (l_CreateAccount _ _) H1)|]. rewrite balance_CreateAccount by apply H1. exact H2. Qed.
Lemma solvent_SetNonce a v b n s : solvent a v s -> solvent a v (SetNonce b n s).
Proof. intros [H1 H2]. split; [apply (lstep_healthy _ _ (l_SetNonce _ _ _) H1)|]. rewrite balance_SetNonce by apply H1. exact H2. Qed.

Lemma evm_ok_trans s0 s1 e : levolves s0 s1 -> evm_ok s1 e -> evm_ok s0 e.
Proof. intros H [H1 H2]. split; [apply (levolves_trans _ _ _ H H1)|exact H2]. Qed.
Lemma result_ok_trans s0 s1 x : levolves s0 s1 -> result_ok s1 x -> result_ok s0 x.
Proof. intros H. destruct x as [[e [[res rest] err]]|p|]; auto. intros (H1 & H2). split; [exact (evm_ok_trans _ _ _ H H1)|exact H2]. Qed.
Lemma create_ok_trans s0 s1 x : levolves s0 s1 -> create_ok s1 x -> create_ok s0 x.
Proof. intros H. destruct x as [[e [a [[res rest] err]]]|p|]; auto. intros (H1 & H2). split; [exact (evm_ok_trans _ _ _ H H1)|exact H2]. Qed.

Lemma result_done s0 e gas err : evm_ok s0 e -> 0 <= gas -> result_ok s0 (Done (e, ([], gas, err))).
Proof. intros He Hg. split; [exact He|]. split; [apply bytes_ok_nil|exact Hg]. Qed.
Lemma create_done s0 e a gas err : evm_ok s0 e -> 0 <= gas -> create_ok s0 (Done (e, (a, ([], gas, err)))).
Proof. intros He Hg. split; [exact He|]. split; [apply bytes_ok_nil|exact Hg]. Qed.

(** The state of the machine [e] is [s]. *)
Lemma evm_ok_refl (e : EVM S) s : bytes_ok (returnData e) -> evm_ok s (set_statedb e s).
Proof. intros H. split; [apply lev_refl|exact H]. Qed.

Definition run_ok (s0 : S) (x : run (EVM S * Contract * run_result)) : Prop :=
  match x with
  | Done (e, c, r) => evm_ok s0 e /\ contract_ok c /\ bytes_ok (fst r)
  | Crash p => tolerated p
  | Fuel => True
  end.

Section calls.
Variable lp : Frame S -> run (Frame S * run_result).
Hypothesis Hloop : forall s0 f, healthy s0 -> frame_ok s0 f -> 
  match lp f with Done (f', r) => ended s0 f' r | Crash p => tolerated p | Fuel => True end.

Lemma Run_safe s0 e c i : healthy s0 -> evm_ok s0 e -> contract_ok c -> slice_ok i -> run_ok s0 (Interpreter_Run lp e c i).
Proof using Hloop.
  intros Hs He Hc Hi. unfold Interpreter_Run. destruct (_ =? 0).
  { split; [split; [apply He|apply bytes_ok_nil]|]. split; [exact Hc|apply bytes_ok_nil]. }
  match goal with |- context [lp ?f] => assert (Hf : frame_ok s0 f) end.
  { split; cbn [evm contract mem stk pc]; try apply Forall_nil; try apply bytes_ok_nil; try (vm_compute; congruence).
    - split; [apply He|apply bytes_ok_nil].
    - destruct Hc. split; assumption.
    - pose proof (len_nonneg (Code (set_Input c i))). lia. }
  specialize (Hloop s0 _ Hs Hf). destruct (lp _) as [[f' r]|p|]; [|exact Hloop|exact I].
  destruct Hloop as (H1 & H2 & H3). split; [|auto]. destruct H1. split; assumption.
Qed.

Lemma evm_run_safe s0 e c i : healthy s0 -> evm_ok s0 e -> contract_ok c -> slice_ok i ->
  run_ok s0 (evm_run homestead metropolis env lp e c i).
Proof using Hloop Hhomestead Hmetropolis.
  intros Hs He Hc Hi. unfold evm_run. destruct (match CodeAddr c with Some a => _ | None => None end) as [p|] eqn:Ep; [|apply Run_safe; assumption].
  destruct (CodeAddr c) as [a|]; [|discriminate]. unfold RunPrecompiledContract.
  destruct (RequiredGas p i) as [g|]; [|right; right; reflexivity]. cbn [obind]. pose proof (UseGas_ok c g Hc) as [Hc' _].
  destruct (UseGas c g) as [c' [|]]; [|split; [exact He|]; split; [exact Hc'|apply bytes_ok_nil]].
  destruct (Run p i) as [r|] eqn:Er; [|right; right; reflexivity]. cbn. split; [exact He|]. split; [exact Hc'|].
  destruct r as [out|err]; [|apply bytes_ok_nil]. unfold precompiles in Ep.
  destruct (IsMetropolis _ _); [exact (Hmetropolis a p i out Ep Hi Er)|exact (Hhomestead a p i out Ep Hi Er)].
Qed.

Lemma NewContract_ok caller to v gas : 0 <= v -> 0 <= gas -> contract_ok (NewContract caller to (Some v) gas).
Proof. intros Hv Hg. split; cbn; [apply slice_ok_nil|apply slice_ok_nil|exact Hg|eauto]. Qed.

Lemma SetCallCode_ok c addr hash code : contract_ok c -> slice_ok code -> contract_ok (SetCallCode c addr hash code).
Proof. intros [H1 H2 H3 H4] Hc. split; assumption. Qed.

Lemma used_up c g : contract_ok c -> 0 <= Gas (fst (UseGas c g)).
Proof. intros H. apply (UseGas_ok c g H). Qed.

Lemma finish_safe s1 e c r : healthy s1 -> evm_ok (fst (Snapshot s1)) e -> contract_ok c -> bytes_ok (fst r) ->
  result_ok s1 (finish (snd (Snapshot s1)) e c r).
Proof.
  intros Hs He Hc Hr. destruct r as [out [er|]]; cbn [finish].
  - destruct (healthy_revert s1 _ Hs (eok_db _ _ He)) as (s3 & -> & H3). cbn [of_outcome rbind].
    split; [split; [exact H3|apply He]|]. split; [exact Hr|]. destruct (negb _); [apply used_up, Hc|apply Hc].
  - split; [apply (evm_ok_trans _ _ _ (lev_step _ _ _ (l_Snapshot _) (lev_refl _)) He)|]. split; [exact Hr|apply Hc].
Qed.

Lemma call_code_safe s1 e c addr i : healthy s1 -> evm_ok (fst (Snapshot s1)) e -> contract_ok c -> slice_ok i ->
  result_ok s1 (call_code homestead metropolis env lp (snd (Snapshot s1)) c addr i e).
Proof using Hloop Hhomestead Hmetropolis.
  intros Hs He Hc Hi. pose proof (lstep_healthy _ _ (l_Snapshot s1) Hs) as Hs'. unfold call_code. rewrite !with_db_eq.
  set (e1 := set_statedb e _). assert (He1 : evm_ok (fst (Snapshot s1)) e1) by (apply (evm_ok_read _ _ (GetCodeHash addr) He); constructor).
  set (e2 := set_statedb e1 _). assert (He2 : evm_ok (fst (Snapshot s1)) e2) by (apply (evm_ok_read _ _ (GetCode addr) He1); constructor).
  set (c' := SetCallCode _ _ _ _). assert (Hc' : contract_ok c').
  { apply SetCallCode_ok; [exact Hc|]. apply ledger_code, (evm_ok_ledger _ _ Hs' He1). }
  pose proof (evm_run_safe _ e2 c' i Hs' He2 Hc' Hi) as Hr.
  destruct (evm_run _ _ _ _ _ _ _) as [[[e3 c3] r]|p|]; cbn [rbind]; [|exact Hr|exact I].
  destruct Hr as (H1 & H2 & H3). apply finish_safe; assumption.
Qed.

Lemma new_dests_ok s0 caller e : evm_ok s0 e -> evm_ok s0 (new_dests caller e).
Proof. intros [H1 H2]. unfold new_dests. destruct (ref_Contract caller); split; assumption. Qed.

(** The machine at its snapshot. *)
Lemma snapshot_ok s0 e : evm_ok s0 e -> evm_ok (fst (Snapshot (statedb e))) (set_statedb e (fst (Snapshot (statedb e)))).
Proof. intros He. apply evm_ok_refl, He. Qed.

Lemma evm_healthy s0 e : healthy s0 -> evm_ok s0 e -> healthy (statedb e).
Proof. intros H He. apply (levolves_healthy _ _ (eok_db _ _ He) H). Qed.

(** The check of the balance, and the transfer once the recipient exists. *)
Lemma can_transfer_ok s0 e a v : healthy s0 -> evm_ok s0 e ->
  let s1 := fst (CanTransfer (context env) a v (statedb e)) in
  evm_ok s0 (set_statedb e s1) /\ (snd (CanTransfer (context env) a v (statedb e)) = true -> solvent a v s1).
Proof using HCan.
  intros Hs He s1. destruct (HCan a v (statedb e)) as [H1 H2]. fold s1 in H1. split.
  - split; [apply (levolves_trans _ _ _ (eok_db _ _ He)), dbreads_levolves, H1|apply He].
  - intros Hc. apply (solvent_reads _ _ _ _ H1). split; [apply (evm_healthy _ _ Hs He)|auto].
Qed.

Lemma transfer_ok s0 e a b v : evm_ok s0 e -> 0 <= v -> solvent a v (statedb e) ->
  evm_ok s0 (on_db (Transfer (context env) a b v) e).
Proof using HTransfer.
  intros He Hv [_ Hb]. unfold on_db. rewrite HTransfer. apply (evm_ok_step _ _ _ He), l_Transfer. lia.
Qed.

Lemma Call_result s0 e caller addr i gas v : healthy s0 -> evm_ok s0 e -> slice_ok i -> 0 <= gas -> 0 <= v ->
  result_ok s0 (Call homestead metropolis env lp caller addr i gas v e).
Proof using Hloop Hhomestead Hmetropolis HCan HTransfer.
  intros Hs He Hi Hg Hv. unfold Call. destruct (_ && _); [apply result_done; assumption|]. destruct (_ >? _); [apply result_done; assumption|].
  rewrite with_db_eq. destruct (can_transfer_ok s0 e (ref_Address caller) v Hs He) as [He1 Hsol]. set (e1 := set_statedb e _) in *.
  destruct (snd _); cbn [negb]; [|apply result_done; assumption]. specialize (Hsol eq_refl).
  rewrite !with_db_eq. apply (result_ok_trans s0 (statedb e1)); [apply He1|]. pose proof (evm_healthy _ _ Hs He1) as Hs1.
  pose proof (snapshot_ok _ _ He1) as He2. set (e2 := set_statedb e1 _) in *. apply solvent_Snapshot in Hsol.
  assert (He3 : evm_ok (fst (Snapshot (statedb e1))) (set_statedb e2 (fst (Exist addr (statedb e2))))) by (apply (evm_ok_read _ _ (Exist addr) He2); constructor).
  apply (solvent_read _ _ _ _ (dr_Exist addr _)) in Hsol. set (e3 := set_statedb e2 _) in *.
  destruct (_ && _).
  { apply result_done; [|exact Hg]. apply (evm_ok_trans _ _ _ (lev_step _ _ _ (l_Snapshot _) (lev_refl _)) He3). }
  cbv zeta. apply call_code_safe; [exact Hs1| |apply NewContract_ok; assumption|exact Hi]. apply new_dests_ok, transfer_ok; [|exact Hv|].
  - destruct (negb _); [apply (evm_ok_step _ _ _ He3), l_CreateAccount|exact He3].
  - destruct (negb _); [apply solvent_CreateAccount, Hsol|exact Hsol].
Qed.

Lemma CallCode_result s0 e caller addr i gas v : healthy s0 -> evm_ok s0 e -> slice_ok i -> 0 <= gas -> 0 <= v ->
  result_ok s0 (CallCode homestead metropolis env lp caller addr i gas v e).
Proof using Hloop Hhomestead Hmetropolis HCan.
  intros Hs He Hi Hg Hv. unfold CallCode. destruct (_ && _); [apply result_done; assumption|]. destruct (_ >? _); [apply result_done; assumption|].
  rewrite with_db_eq. destruct (can_transfer_ok s0 e (ref_Address caller) v Hs He) as [He1 _]. set (e1 := set_statedb e _) in *.
  destruct (snd _); cbn [negb]; [|apply result_done; assumption]. rewrite with_db_eq. apply (result_ok_trans s0 (statedb e1)); [apply He1|].
  apply call_code_safe; [apply (evm_healthy _ _ Hs He1)| |apply NewContract_ok; assumption|exact Hi].
  apply new_dests_ok, (snapshot_ok _ _ He1).
Qed.

Lemma DelegateCall_result s0 e caller addr i gas : healthy s0 -> evm_ok s0 e -> slice_ok i -> 0 <= gas -> parent_ok caller ->
  result_ok s0 (DelegateCall homestead metropolis env lp caller addr i gas e).
Proof using Hloop Hhomestead Hmetropolis.
  intros Hs He Hi Hg (pa & v & Ep & Hv). unfold DelegateCall.
  destruct (_ && _); [apply result_done; assumption|]. destruct (_ >? _); [apply result_done; assumption|].
  rewrite with_db_eq. unfold AsDelegate. cbn [NewContract VmContract.caller]. rewrite Ep. cbn [of_outcome rbind].
  apply (result_ok_trans s0 (statedb e)); [apply He|]. apply call_code_safe; [apply (evm_healthy _ _ Hs He)| | |exact Hi].
  - apply new_dests_ok, (snapshot_ok _ _ He).
  - split; cbn; [apply slice_ok_nil|apply slice_ok_nil|exact Hg|eauto].
Qed.

Lemma StaticCall_result s0 e caller addr i gas : healthy s0 -> evm_ok s0 e -> slice_ok i -> 0 <= gas ->
  result_ok s0 (StaticCall homestead metropolis env lp caller addr i gas e).
Proof using Hloop Hhomestead Hmetropolis.
  intros Hs He Hi Hg. unfold StaticCall.
  destruct (_ && _); [apply result_done; assumption|]. destruct (_ >? _); [apply result_done; assumption|]. rewrite with_db_eq.
  assert (He1 : evm_ok s0 (set_readOnly e true)) by (destruct He; split; assumption). set (e1 := set_readOnly e true) in *.
  apply (result_ok_trans s0 (statedb e1)); [apply He1|]. assert (Hc : contract_ok (NewContract caller (AccountRef addr) (Some 0) gas)) by (apply NewContract_ok; lia).
  pose proof (call_code_safe _ _ _ addr i (evm_healthy _ _ Hs He1) (new_dests_ok _ caller _ (snapshot_ok _ _ He1)) Hc Hi) as Hr.
  destruct (call_code _ _ _ _ _ _ _ _ _) as [[e2 [[res rest] err]]|p|]; cbn [rbind]; [|exact Hr|exact I].
  destruct Hr as (H1 & H2). split; [|exact H2]. destruct (readOnly e); [exact H1|]. destruct H1; split; assumption.
Qed.

(** *** Create *)

Lemma CreateAddress_ret a nonce : exists addr, CreateAddress Keccak256 a nonce = Ret addr.
Proof using HKeccak.
  unfold CreateAddress. destruct (encode_pair (Address_Bytes a) nonce) as (out & ->).
  { unfold Address_Bytes. rewrite be_bytes_len. reflexivity. }
  cbn [obind]. destruct (HKeccak out) as [_ El]. rewrite El, slice_ret by (rewrite ?El; lia). cbn [obind]. eauto.
Qed.

(** The state after the deployment code, with its output stored or the error of that. *)
Lemma create_finish_safe s1 a e c r : healthy s1 -> evm_ok (fst (Snapshot s1)) e -> contract_ok c -> bytes_ok (fst r) ->
  create_ok s1 (create_finish env (snd (Snapshot s1)) a e c r).
Proof.
  intros Hs He Hc Hr. destruct r as [out err]. cbn [fst] in Hr. unfold create_finish.
  set (t := match err with None => _ | Some er => _ end).
  assert (Ht : evm_ok (fst (Snapshot s1)) (fst (fst t)) /\ contract_ok (snd (fst t))).
  { unfold t. destruct err as [er|]; [auto|]. destruct (Z.gtb_spec (len out) MaxCodeSize) as [|Lo]; cbn [negb]; [auto|].
    pose proof (UseGas_ok c (u64 (u64 (len out) * CreateDataGas)) Hc) as [Hc' _]. destruct (UseGas _ _) as [c' [|]]; cbn [fst snd] in *; [|auto].
    split; [|exact Hc']. apply (evm_ok_step _ _ _ He), l_SetCode. split; [exact Hr|]. unfold MaxCodeSize in Lo. lia. }
  destruct t as [[e2 c2] err2]. cbn [fst snd] in Ht. destruct Ht as [He2 Hc2]. cbv zeta.
  destruct (_ || _); cbn [rbind].
  - destruct (healthy_revert s1 _ Hs (eok_db _ _ He2)) as (s3 & -> & H3). cbn [of_outcome rbind].
    split; [split; [exact H3|apply He2]|]. split; [exact Hr|]. destruct (negb _); [apply used_up, Hc2|apply Hc2].
  - split; [apply (evm_ok_trans _ _ _ (lev_step _ _ _ (l_Snapshot _) (lev_refl _)) He2)|]. split; [exact Hr|apply Hc2].
Qed.

(** The account is made and the value moved to it. *)
Lemma create_account_ok s1 e a b v : evm_ok s1 e -> 0 <= v -> solvent a v (statedb e) ->
  let e1 := on_db (CreateAccount b) e in
  let e2 := if IsEIP158 (chainConfig env) (Some (BlockNumber (context env))) then on_db (SetNonce b 1) e1 else e1 in
  evm_ok s1 (on_db (Transfer (context env) a b v) e2).
Proof using HTransfer.
  intros He Hv Hsol e1 e2. assert (He1 : evm_ok s1 e1) by apply (evm_ok_step _ _ _ He), l_CreateAccount.
  apply (solvent_CreateAccount _ _ b) in Hsol. apply transfer_ok; [|exact Hv|]; unfold e2; destruct (IsEIP158 _ _).
  - apply (evm_ok_step _ _ _ He1), l_SetNonce.
  - exact He1.
  - apply solvent_SetNonce, Hsol.
  - exact Hsol.
Qed.

Lemma Create_result s0 e caller code gas v : healthy s0 -> evm_ok s0 e -> slice_ok code -> 0 <= gas -> 0 <= v ->
  create_ok s0 (Create Keccak256 homestead metropolis env lp caller code gas v e).
Proof using Hloop Hhomestead Hmetropolis HCan HTransfer HKeccak.
  intros Hs He Hcode Hg Hv. unfold Create. destruct (_ && _); [apply create_done; assumption|]. destruct (_ >? _); [apply create_done; assumption|].
  rewrite with_db_eq. set (a := ref_Address caller). destruct (can_transfer_ok s0 e a v Hs He) as [He1 Hsol]. set (e1 := set_statedb e _) in *.
  destruct (snd _); cbn [negb]; [|apply create_done; assumption]. specialize (Hsol eq_refl). rewrite with_db_eq.
  assert (He2 : evm_ok s0 (set_statedb e1 (fst (GetNonce a (statedb e1))))) by (apply (evm_ok_read _ _ (GetNonce a) He1); constructor).
  apply (solvent_read _ _ _ _ (dr_GetNonce a _)) in Hsol. set (e2 := set_statedb e1 _) in *. cbv zeta.
  set (nonce := snd (GetNonce a _)). set (e3 := on_db _ e2).
  assert (He3 : evm_ok s0 e3) by apply (evm_ok_step _ _ _ He2), l_SetNonce. apply (solvent_SetNonce _ _ a (u64 (nonce + 1))) in Hsol.
  destruct (CreateAddress_ret a nonce) as (b & ->). cbn [of_outcome rbind]. rewrite !with_db_eq.
  assert (He4 : evm_ok s0 (set_statedb e3 (fst (GetCodeHash b (statedb e3))))) by (apply (evm_ok_read _ _ (GetCodeHash b) He3); constructor).
  apply (solvent_read _ _ _ _ (dr_GetCodeHash b _)) in Hsol. set (e4 := set_statedb e3 _) in *.
  assert (He5 : evm_ok s0 (set_statedb e4 (fst (GetNonce b (statedb e4))))) by (apply (evm_ok_read _ _ (GetNonce b) He4); constructor).
  apply (solvent_read _ _ _ _ (dr_GetNonce b _)) in Hsol. set (e5 := set_statedb e4 _) in *.
  destruct (_ || _); [apply create_done; [exact He5|lia]|]. apply (create_ok_trans s0 (statedb e5)); [apply He5|].
  apply solvent_Snapshot in Hsol. pose proof (snapshot_ok _ _ He5) as He6. pose proof (evm_healthy _ _ Hs He5) as Hs5.
  set (c := SetCallCode _ _ _ _). assert (Hc : contract_ok c) by (apply SetCallCode_ok; [apply NewContract_ok; assumption|exact Hcode]).
  pose proof (evm_run_safe _ _ c [] (lstep_healthy _ _ (l_Snapshot _) Hs5) (new_dests_ok _ caller _ (create_account_ok _ _ a b v He6 Hv Hsol)) Hc slice_ok_nil) as Hr.
  cbv zeta in Hr. destruct (evm_run _ _ _ _ _ _ _) as [[[e7 c7] r]|p|]; cbn [rbind]; [|exact Hr|exact I].
  destruct Hr as (H1 & H2 & H3). apply create_finish_safe; assumption.
Qed.

Lemma call_ops_safe : calls_safe (call_ops Keccak256 homestead metropolis env lp).
Proof using Hloop Hhomestead Hmetropolis HCan HTransfer HKeccak.
  split; intros; cbn [call_ops c_Call c_CallCode c_DelegateCall c_StaticCall c_Create].
  - apply Call_result; assumption.
  - apply CallCode_result; assumption.
  - apply DelegateCall_result; assumption.
  - apply StaticCall_result; assumption.
  - apply Create_result; assumption.
Qed.

End calls.

(** ** The loop *)

Lemma loop_safe fuel : forall s0 f, healthy s0 -> frame_ok s0 f ->
  match loop Keccak256 homestead metropolis env interp fuel f with Done (f', r) => ended s0 f' r | Crash p => tolerated p | Fuel => True end.
Proof using Hhomestead Hmetropolis HCan HTransfer HKeccak Htable Hgas Hgt Hstop Hmeter.
  induction fuel as [|fuel IH]; intros s0 f Hs Hf; [exact I|]. cbn [loop].
  destruct (LoadAbort env (evm f)) as [a e] eqn:Ea. assert (Hf1 : frame_ok s0 (set_evm f e)).
  { unfold LoadAbort in Ea. injection Ea as _ <-. destruct Hf as [[H1 H2]]. split; try assumption. split; assumption. }
  destruct (a =? 0); [|apply stopped; auto using bytes_ok_nil].
  pose proof (step_safe _ s0 _ (call_ops_safe _ IH) Hs Hf1) as Hst.
  destruct (step _ _ _ _) as [[f2 [u|r]]|p|]; cbn [rbind]; [|exact Hst|exact Hst|exact I]. apply IH; [exact Hs|apply Hst].
Qed.

End interpreter.
End safe_run.
