(* ===== verification/StateLaws.v ===== *)
(** * Package [core/state]: the laws of snapshots

    Two states are equivalent when every query answers the same in both; the
    caches, the dirty marks, the recorded errors and [logSize] are not part of
    it.  Every method logs entries whose [undo] leads back to an equivalent
    state, so [RevertToSnapshot] restores the state the snapshot was taken of.
    The instances at the end are the promise [VmLedger.v] is written against. *)

From stdpp Require Import base gmap.
From Stdlib Require Import ZArith List Lia Bool.
From S2P Require Import Prelude GoBig ByteBuf CommonTypes Rlp VmCommon VmMemory VmState VmEvolve VmLedger CoreState.
Import ListNotations.
Local Open Scope Z_scope.

Section laws.
Context {T E : Type} {HT : Trie T E}.
Variable Keccak256 : list Z -> list Z.
Variable db : Database T E.
Variable decodeAccount : list Z -> option Account.
Abbreviation St := (@State T E).
Abbreviation Obj := (@stateObject T E).
Abbreviation get := (getStateObject decodeAccount).

(** ** Equivalence of objects *)

(** [GetCodeSize] of an object *)
Definition code_size (o : Obj) : Z :=
  match code o with
  | _ :: _ => len (code o)
  | [] => fst (ContractCodeSize db (addrHash Keccak256 (address o)) (acc_CodeHash (data o)))
  end.

Record object_eq (o o' : Obj) : Prop := mkObjectEq {
  eq_address : address o = address o';
  eq_data : data o = data o';
  eq_code : fst (object_Code Keccak256 db o) = fst (object_Code Keccak256 db o');
  eq_size : code_size o = code_size o';
  eq_storage k : fst (object_GetState Keccak256 db o k) = fst (object_GetState Keccak256 db o' k);
  eq_suicided : suicided o = suicided o';
  eq_deleted : deleted o = deleted o' }.

#[local] Instance object_equiv : Equiv Obj := object_eq.

#[local] Instance object_equivalence : Equivalence (≡@{Obj}).
Proof.
  split.
  - intros o. split; reflexivity.
  - intros o o' [A D C N G S X]. split; auto.
  - intros o1 o2 o3 [A D C N G S X] [A' D' C' N' G' S' X']. split; congruence.
Qed.

(** What an object reads from its storage trie. *)
Definition trie_slot (o : Obj) (k : Hash) : Hash :=
  match fst (getTrie Keccak256 db o) with
  | None => 0
  | Some t => match TryGet t (Hash_Bytes k) with Ok enc => fst (slot_value enc) | Err _ => 0 end
  end.


Lemma object_GetState_value o k :
  fst (object_GetState Keccak256 db o k) = match cachedStorage o !! k with Some v => v | None => trie_slot o k end.
Proof.
  unfold object_GetState, trie_slot. destruct (cachedStorage o !! k); [reflexivity|].
  destruct (getTrie Keccak256 db o) as [[t|] o']; cbn [fst]; [|reflexivity].
  destruct (TryGet t _); [|reflexivity]. destruct (slot_value _) as [v [e|]]; reflexivity.
Qed.

(** The storage trie depends only on the address, the root and the open trie. *)
Lemma trie_slot_proper (o o' : Obj) k : obj_trie o' = obj_trie o -> address o' = address o -> Root (data o') = Root (data o) ->
  trie_slot o' k = trie_slot o k.
Proof.
  intros E1 E2 E3. unfold trie_slot, getTrie. rewrite E1, E2, E3. destruct (obj_trie o); [reflexivity|].
  destruct (OpenStorageTrie _ _ _); [reflexivity|]. destruct (OpenStorageTrie _ _ 0); reflexivity.
Qed.

Lemma trie_slot_open (o : Obj) k : trie_slot (snd (getTrie Keccak256 db o)) k = trie_slot o k.
Proof.
  unfold trie_slot at 2. unfold getTrie. destruct (obj_trie o) eqn:Et; [cbn [snd fst]; unfold trie_slot, getTrie; rewrite Et; reflexivity|].
  destruct (OpenStorageTrie _ _ _) eqn:E1; [reflexivity|]. destruct (OpenStorageTrie _ _ 0) eqn:E2; cbn [snd fst].
  - unfold trie_slot, getTrie, object_setError. destruct (obj_dbErr _); reflexivity.
  - unfold trie_slot, getTrie, object_setError. destruct (obj_dbErr _); cbn; rewrite ?Et, E1, E2; reflexivity.
Qed.

(** Equivalence from the fields, but for the storage. *)
Lemma object_eq_storage (o o' : Obj) : address o = address o' -> data o = data o' -> code o = code o' ->
  (forall k, fst (object_GetState Keccak256 db o k) = fst (object_GetState Keccak256 db o' k)) ->
  suicided o = suicided o' -> deleted o = deleted o' -> o ≡ o'.
Proof.
  intros A D C G S X. split; auto.
  - unfold object_Code. rewrite C, D, A. destruct (code o'); [|reflexivity]. destruct (_ =? _); [reflexivity|].
    destruct (ContractCode _ _ _); reflexivity.
  - unfold code_size. rewrite C, D, A. reflexivity.
Qed.

(** Objects that differ only in the flags, the dirty storage and the error. *)
Lemma object_eq_fields (o o' : Obj) : address o = address o' -> data o = data o' -> code o = code o' ->
  cachedStorage o = cachedStorage o' -> obj_trie o = obj_trie o' -> suicided o = suicided o' ->
  deleted o = deleted o' -> o ≡ o'.
Proof.
  intros A D C G R S X. apply object_eq_storage; auto. intros k. rewrite !object_GetState_value, G.
  destruct (cachedStorage o' !! k); [reflexivity|]. apply trie_slot_proper; congruence.
Qed.

Lemma object_setError_eq (o : Obj) err : object_setError o err ≡ o.
Proof. apply object_eq_fields; unfold object_setError; destruct (obj_dbErr o); reflexivity. Qed.

Lemma getTrie_fields (o : Obj) : let o' := snd (getTrie Keccak256 db o) in
  address o' = address o /\ data o' = data o /\ code o' = code o /\ cachedStorage o' = cachedStorage o /\
  suicided o' = suicided o /\ deleted o' = deleted o.
Proof.
  unfold getTrie, object_setError. destruct (obj_trie o); [auto 10|]. destruct (OpenStorageTrie _ _ _); [cbn; auto 10|].
  destruct (OpenStorageTrie _ _ 0); cbn [snd obj_dbErr set_obj_trie]; destruct (obj_dbErr o); cbn; auto 10.
Qed.

Lemma getTrie_eq (o : Obj) : snd (getTrie Keccak256 db o) ≡ o.
Proof.
  destruct (getTrie_fields o) as (A & D & C & G & S & X). apply object_eq_storage; auto.
  intros k. rewrite !object_GetState_value, G, trie_slot_open. reflexivity.
Qed.

Lemma cache_eq (o : Obj) k : cachedStorage o !! k = None ->
  set_storage o (<[k := trie_slot o k]> (cachedStorage o)) (dirtyStorage o) ≡ o.
Proof.
  intros Hk. apply object_eq_storage; try reflexivity. intros j. rewrite !object_GetState_value. cbn [set_storage cachedStorage].
  rewrite (trie_slot_proper o (set_storage o _ _) j) by reflexivity. unfold Hash in *.
  destruct (decide (k = j)) as [<-|N]; [rewrite lookup_insert_eq, Hk; reflexivity | rewrite lookup_insert_ne by exact N; reflexivity].
Qed.

(** Reading a slot fills the caches of the object only. *)
Lemma object_GetState_eq (o : Obj) k : snd (object_GetState Keccak256 db o k) ≡ o.
Proof.
  unfold object_GetState. destruct (cachedStorage o !! k) eqn:Hk; [reflexivity|].
  pose proof (getTrie_eq o) as Ho. pose proof (getTrie_fields o) as (_ & _ & _ & Hc & _).
  pose proof (trie_slot_open o k) as Hs. unfold trie_slot at 2 in Hs.
  destruct (getTrie Keccak256 db o) as [[t|] o1]; cbn [fst snd] in *; [|exact Ho].
  destruct (TryGet t (Hash_Bytes k)) as [enc|e]; [|rewrite object_setError_eq; exact Ho].
  destruct (slot_value enc) as [v err]; cbn [fst] in Hs.
  set (o2 := match err with Some e => _ | None => o1 end).
  assert (H2 : o2 ≡ o1) by (unfold o2; destruct err; [apply object_setError_eq|reflexivity]).
  cbn [snd]. destruct (negb _); [|rewrite H2; exact Ho]. rewrite <- Ho, <- H2, <- Hs.
  assert (Es : trie_slot o1 k = trie_slot o2 k).
  { symmetry. apply trie_slot_proper; unfold o2, object_setError; destruct err; auto; destruct (obj_dbErr o1); reflexivity. }
  rewrite Es. apply cache_eq. unfold o2, object_setError. destruct err; [destruct (obj_dbErr o1)|]; cbn; rewrite Hc; exact Hk.
Qed.

(** The size of a code is that of the code the database has under its hash. *)
Hypothesis Hsize : forall a h, fst (ContractCodeSize db a h) = len (fst (ContractCode db a h)).

(** Reading the code caches it. *)
Lemma object_Code_eq (o : Obj) : snd (object_Code Keccak256 db o) ≡ o.
Proof using Hsize.
  unfold object_Code. destruct (code o) as [|x c] eqn:Ec; [|reflexivity]. destruct (_ =? _) eqn:Eh; [reflexivity|].
  destruct (ContractCode db _ _) as [c err] eqn:Edb. cbn [snd].
  set (o2 := match err with Some e => _ | None => o end).
  assert (H2 : o2 ≡ o) by (unfold o2; destruct err; [apply object_setError_eq|reflexivity]). rewrite <- H2.
  assert (Hc : code o2 = [] /\ address o2 = address o /\ data o2 = data o).
  { unfold o2, object_setError. destruct err; [destruct (obj_dbErr o)|]; auto. }
  destruct Hc as (Hc & Ha & Hd). split; try reflexivity.
  - unfold object_Code. cbn [set_code code address data acc_CodeHash]. rewrite Hc, Ha, Hd, Eh, Edb.
    destruct c; reflexivity.
  - unfold code_size. cbn [set_code code address data]. rewrite Hc, Ha, Hd, Hsize, Edb. destruct c; reflexivity.
  - intros k. rewrite !object_GetState_value. cbn [set_code cachedStorage].
    rewrite (trie_slot_proper o2 (set_code o2 c (dirtyCode o2)) k) by reflexivity. reflexivity.
Qed.

(** Setting a field keeps objects equivalent. *)
Definition with_balance (o : Obj) (v : Z) : Obj :=
  set_data o (mkAccount (Nonce (data o)) v (Root (data o)) (acc_CodeHash (data o))).
Definition with_nonce (o : Obj) (n : Z) : Obj :=
  set_data o (mkAccount n (acc_Balance (data o)) (Root (data o)) (acc_CodeHash (data o))).
Definition with_code (o : Obj) (h : Hash) (c : list Z) : Obj :=
  set_code (set_data o (mkAccount (Nonce (data o)) (acc_Balance (data o)) (Root (data o)) h)) c true.
Definition with_slot (o : Obj) (k v : Hash) : Obj :=
  set_storage o (<[k := v]> (cachedStorage o)) (<[k := v]> (dirtyStorage o)).
Definition with_suicided (o : Obj) (b : bool) : Obj := set_flags o b (touched o) (deleted o) (onDirty o).

(** Replacing the data keeps the storage as long as the root stays. *)
Lemma set_data_storage (o : Obj) d k : Root d = Root (data o) ->
  fst (object_GetState Keccak256 db (set_data o d) k) = fst (object_GetState Keccak256 db o k).
Proof.
  intros H. rewrite !object_GetState_value. cbn [set_data cachedStorage].
  destruct (cachedStorage o !! k); [reflexivity|]. apply trie_slot_proper; auto.
Qed.

(** Replacing nonce and balance keeps the code. *)
Lemma set_data_code (o : Obj) d : acc_CodeHash d = acc_CodeHash (data o) ->
  fst (object_Code Keccak256 db (set_data o d)) = fst (object_Code Keccak256 db o) /\ code_size (set_data o d) = code_size o.
Proof.
  intros H. unfold object_Code, code_size. cbn [set_data code data address]. rewrite H. split; [|reflexivity].
  destruct (code o); [|reflexivity]. destruct (_ =? _); [reflexivity|]. destruct (ContractCode _ _ _); reflexivity.
Qed.

Lemma set_data_eq (o o' : Obj) d : o ≡ o' -> Root d = Root (data o) -> acc_CodeHash d = acc_CodeHash (data o) ->
  set_data o d ≡ set_data o' d.
Proof.
  intros [A D C N G S X] R H. destruct (set_data_code o d H) as [E1 E2].
  destruct (set_data_code o' d ltac:(congruence)) as [E3 E4]. split; cbn; try congruence.
  intros k. rewrite !set_data_storage by congruence. apply G.
Qed.

#[local] Instance with_balance_proper : Proper ((≡) ==> (=) ==> (≡)) with_balance.
Proof.
  intros o o' H v _ <-. unfold with_balance. rewrite <- (eq_data _ _ H). apply set_data_eq; auto.
Qed.

#[local] Instance with_nonce_proper : Proper ((≡) ==> (=) ==> (≡)) with_nonce.
Proof.
  intros o o' H v _ <-. unfold with_nonce. rewrite <- (eq_data _ _ H). apply set_data_eq; auto.
Qed.

#[local] Instance with_code_proper : Proper ((≡) ==> (=) ==> (=) ==> (≡)) with_code.
Proof.
  intros o o' [A D C N G S X] h _ <- c _ <-. split; cbn; try congruence.
  - unfold object_Code, with_code. cbn [set_code set_data code data address acc_CodeHash]. rewrite A.
    destruct c; [|reflexivity]. destruct (_ =? _); [reflexivity|]. destruct (ContractCode _ _ _); reflexivity.
  - unfold code_size, with_code. cbn [set_code set_data code data address acc_CodeHash]. rewrite A. reflexivity.
  - intros k. unfold with_code. specialize (G k). rewrite !object_GetState_value in *. cbn [set_code set_data cachedStorage].
    rewrite (trie_slot_proper o (set_code _ _ _) k), (trie_slot_proper o' (set_code _ _ _) k) by reflexivity. exact G.
Qed.

Lemma with_slot_storage (o : Obj) k v j :
  fst (object_GetState Keccak256 db (with_slot o k v) j) = if decide (k = j) then v else fst (object_GetState Keccak256 db o j).
Proof.
  rewrite !object_GetState_value. unfold with_slot. cbn [set_storage cachedStorage]. unfold Hash in *.
  rewrite (trie_slot_proper o (set_storage o _ _) j) by reflexivity.
  destruct (decide (k = j)) as [<-|N]; [rewrite lookup_insert_eq | rewrite lookup_insert_ne by exact N]; reflexivity.
Qed.

Lemma object_Code_fields (o o' : Obj) : code o' = code o -> address o' = address o -> acc_CodeHash (data o') = acc_CodeHash (data o) ->
  fst (object_Code Keccak256 db o') = fst (object_Code Keccak256 db o).
Proof.
  intros E1 E2 E3. unfold object_Code. rewrite E1, E2, E3. destruct (code o); [|reflexivity].
  destruct (_ =? _); [reflexivity|]. destruct (ContractCode _ _ _); reflexivity.
Qed.

#[local] Instance with_slot_proper : Proper ((≡) ==> (=) ==> (=) ==> (≡)) with_slot.
Proof.
  intros o o' [A D C N G S X] k _ <- v _ <-. split; auto.
  - rewrite (object_Code_fields o (with_slot o k v)), (object_Code_fields o' (with_slot o' k v)) by reflexivity. exact C.
  - intros j. rewrite !with_slot_storage. destruct (decide _); auto.
Qed.

#[local] Instance with_suicided_proper : Proper ((≡) ==> (=) ==> (≡)) with_suicided.
Proof.
  intros o o' [A D C N G S X] b _ <-. split; auto.
  - rewrite (object_Code_fields o (with_suicided o b)), (object_Code_fields o' (with_suicided o' b)) by reflexivity. exact C.
  - intros j. specialize (G j). rewrite !object_GetState_value in *. cbn [with_suicided set_flags cachedStorage].
    rewrite (trie_slot_proper o (with_suicided o b)), (trie_slot_proper o' (with_suicided o' b)) by reflexivity. exact G.
Qed.

(** Setting a field back to what it was. *)
Lemma with_balance_undo (o : Obj) v : with_balance (with_balance o v) (acc_Balance (data o)) ≡ o.
Proof. apply object_eq_fields; try reflexivity. cbn. destruct (data o); reflexivity. Qed.

Lemma with_nonce_undo (o : Obj) n : with_nonce (with_nonce o n) (Nonce (data o)) ≡ o.
Proof. apply object_eq_fields; try reflexivity. cbn. destruct (data o); reflexivity. Qed.

Lemma with_slot_undo (o : Obj) k v : with_slot (with_slot o k v) k (fst (object_GetState Keccak256 db o k)) ≡ o.
Proof.
  apply object_eq_storage; try reflexivity. intros j. rewrite !with_slot_storage.
  destruct (decide (k = j)) as [->|]; reflexivity.
Qed.

Lemma with_code_undo (o : Obj) h c :
  with_code (with_code o h c) (acc_CodeHash (data o)) (fst (object_Code Keccak256 db o)) ≡ o.
Proof using Hsize.
  split; try reflexivity.
  - cbn. destruct (data o); reflexivity.
  - unfold object_Code, with_code. cbn [set_code set_data code data address acc_CodeHash].
    destruct (code o) as [|x l] eqn:Ec; cbn [fst]; [|reflexivity].
    destruct (_ =? _) eqn:Eh; cbn [fst]; [reflexivity|].
    destruct (ContractCode _ _ _) as [[|y l] err] eqn:Edb; reflexivity.
  - unfold object_Code, code_size, with_code. cbn [set_code set_data code data address acc_CodeHash].
    destruct (code o) as [|x l] eqn:Ec; cbn [fst]; [|reflexivity].
    destruct (_ =? _) eqn:Eh; cbn [fst]; [reflexivity|]. rewrite Hsize.
    destruct (ContractCode _ _ _) as [[|y l] err] eqn:Edb; reflexivity.
  - intros k. rewrite !object_GetState_value. cbn [with_code set_code set_data cachedStorage].
    rewrite (trie_slot_proper o (with_code _ _ _)) by reflexivity. reflexivity.
Qed.

(** ** Equivalence of states *)

Definition live (s : St) (a : Address) : option Obj := fst (get s a).
(** [GetLogs] *)
Definition GetLogs (s : St) (h : Hash) : list Log := match logs s !! h with Some l => l | None => [] end.

Record state_eq (s s' : St) : Prop := mkStateEq {
  eq_trie : trie s = trie s';
  eq_live a : live s a ≡ live s' a;
  eq_refund : refund s = refund s';
  eq_thash : thash s = thash s';
  eq_bhash : bhash s = bhash s';
  eq_txIndex : txIndex s = txIndex s';
  eq_logs h : GetLogs s h = GetLogs s' h;
  eq_preimages : preimages s = preimages s' }.

#[local] Instance state_equiv : Equiv St := state_eq.

#[local] Instance state_equivalence : Equivalence (≡@{St}).
Proof.
  split.
  - intros s. split; reflexivity.
  - intros s s' [A L R H B X G P]. split; auto. intros a. symmetry. apply L.
  - intros s1 s2 s3 [A L R H B X G P] [A' L' R' H' B' X' G' P']. split; try congruence.
    intros a. rewrite L. apply L'.
Qed.

(** What [getStateObject] finds in the trie. *)
Definition loaded (t : T) (a : Address) : option Obj :=
  match TryGet t (Address_Bytes a) with
  | Ok (x :: enc) => match decodeAccount (x :: enc) with Some d => Some (newObject a d) | None => None end
  | _ => None
  end.

Lemma live_value s a : live s a =
  match stateObjects s !! a with Some o => if deleted o then None else Some o | None => loaded (trie s) a end.
Proof.
  unfold live, getStateObject, loaded. unfold Address in *. destruct (stateObjects s !! a); [reflexivity|].
  destruct (TryGet _ _) as [[|x enc]|e]; [reflexivity| |reflexivity]. destruct (decodeAccount _); reflexivity.
Qed.

Lemma live_fields s s' a : stateObjects s = stateObjects s' -> trie s = trie s' -> live s a = live s' a.
Proof. intros E1 E2. rewrite !live_value, E1, E2. reflexivity. Qed.

Lemma live_put s (o : Obj) a : live (setStateObject s o) a =
  if decide (address o = a) then if deleted o then None else Some o else live s a.
Proof.
  rewrite !live_value. cbn [setStateObject set_objects stateObjects trie]. unfold Address in *.
  case_decide as H; [subst a; rewrite lookup_insert_eq | rewrite lookup_insert_ne by exact H]; reflexivity.
Qed.

(** The state [getStateObject] leaves: the object is in it. *)
Lemma get_state s a : exists s', get s a = (live s a, s') /\ journal s' = journal s /\
  validRevisions s' = validRevisions s /\ nextRevisionId s' = nextRevisionId s /\ trie s' = trie s /\
  refund s' = refund s /\ thash s' = thash s /\ bhash s' = bhash s /\ txIndex s' = txIndex s /\ logs s' = logs s /\
  logSize s' = logSize s /\ preimages s' = preimages s /\
  (stateObjects s' = stateObjects s \/ exists o, stateObjects s !! a = None /\ loaded (trie s) a = Some o /\
     stateObjects s' = <[a := o]> (stateObjects s)).
Proof.
  unfold live, getStateObject, loaded, setError. unfold Address in *. destruct (stateObjects s !! a) as [o|]; cbn [fst].
  { eexists. split; [reflexivity|]. auto 20. }
  destruct (TryGet _ _) as [[|x enc]|e].
  - destruct (dbErr s); eexists; (split; [reflexivity|]); auto 20.
  - destruct (decodeAccount _) as [d|]; cbn [fst]; eexists; (split; [reflexivity|]); [|auto 20].
    cbn. repeat (split; [reflexivity|]). right. exists (newObject a d). auto.
  - destruct (dbErr s); eexists; (split; [reflexivity|]); auto 20.
Qed.

(** The journal and the revisions stay. *)
Definition log_kept (s s' : St) : Prop :=
  journal s' = journal s /\ validRevisions s' = validRevisions s /\ nextRevisionId s' = nextRevisionId s.

#[local] Instance log_kept_preorder : PreOrder log_kept.
Proof. split; [intros s; repeat split|]. intros s1 s2 s3 (A & B & C) (A' & B' & C'). repeat split; congruence. Qed.

(** [getStateObject] changes nothing that is visible. *)
Lemma get_eq s a : snd (get s a) ≡ s.
Proof.
  destruct (get_state s a) as (s' & -> & _ & _ & _ & E1 & E2 & E3 & E4 & E5 & E6 & _ & E7 & Ho). cbn [snd].
  split; auto; [|unfold GetLogs; rewrite E6; reflexivity].
  intros b. rewrite !live_value, E1. destruct Ho as [->|(o & Ha & Hl & ->)]; [reflexivity|]. unfold Address in *.
  destruct (decide (a = b)) as [<-|N]; [|rewrite lookup_insert_ne by exact N; reflexivity].
  rewrite lookup_insert_eq, Ha, Hl. unfold loaded in Hl. destruct (TryGet _ _) as [[|]|]; try discriminate.
  destruct (decodeAccount _); [|discriminate]. injection Hl as <-. reflexivity.
Qed.

Lemma get_kept s a : log_kept s (snd (get s a)).
Proof. destruct (get_state s a) as (s' & -> & E1 & E2 & E3 & _). repeat split; assumption. Qed.

Lemma get_live s a : fst (get s a) = live s a.
Proof. reflexivity. Qed.

(** Fields of the state that the equivalence does not look at. *)
Lemma state_eq_fields (s s' : St) : trie s = trie s' -> stateObjects s = stateObjects s' -> refund s = refund s' ->
  thash s = thash s' -> bhash s = bhash s' -> txIndex s = txIndex s' -> logs s = logs s' -> preimages s = preimages s' ->
  s ≡ s'.
Proof.
  intros E1 E2 E3 E4 E5 E6 E7 E8. split; auto; [|unfold GetLogs; rewrite E7; reflexivity].
  intros a. rewrite !live_value, E1, E2. reflexivity.
Qed.

#[local] Instance put_proper : Proper ((≡) ==> (≡) ==> (≡)) (@setStateObject T E).
Proof.
  intros s s' [A L R H B X G P] o o' Ho. split; auto. intros a. rewrite !live_put.
  rewrite <- (eq_address _ _ Ho), <- (eq_deleted _ _ Ho). case_decide; [|apply L]. destruct (deleted o); [reflexivity|].
  constructor. exact Ho.
Qed.

Lemma fire_eq s (o : Obj) : fst (fire s o) ≡ s /\ snd (fire s o) ≡ o.
Proof.
  unfold fire. destruct (onDirty o); cbn [fst snd]; (split; [|]); try reflexivity.
  - apply state_eq_fields; reflexivity.
  - apply object_eq_fields; reflexivity.
Qed.

Lemma put_dirty_eq s (o : Obj) : put_dirty s o ≡ setStateObject s o.
Proof. unfold put_dirty. pose proof (fire_eq s o) as [H1 H2]. destruct (fire s o). cbn [fst snd] in *. rewrite H1, H2. reflexivity. Qed.

Lemma put_dirty_kept s (o : Obj) : log_kept s (put_dirty s o).
Proof. unfold put_dirty, fire. destruct (onDirty o); repeat split. Qed.

#[local] Instance put_dirty_proper : Proper ((≡) ==> (≡) ==> (≡)) (@put_dirty T E).
Proof. intros s s' Hs o o' Ho. rewrite !put_dirty_eq, Hs, Ho. reflexivity. Qed.

Lemma put_put s (o o' : Obj) : address o = address o' -> setStateObject (setStateObject s o) o' ≡ setStateObject s o'.
Proof. intros E1. split; try reflexivity. intros a. rewrite !live_put, E1. case_decide; reflexivity. Qed.

Lemma put_same s (o o' : Obj) : live s (address o) = Some o -> deleted o = false -> o' ≡ o -> setStateObject s o' ≡ s.
Proof.
  intros Hl Hd Ho. rewrite Ho. split; try reflexivity. intros a. rewrite live_put. case_decide as Ha; [|reflexivity].
  subst a. rewrite Hd, Hl. reflexivity.
Qed.

Lemma append_journal_eq (s : St) e : append_journal s e ≡ s.
Proof. apply state_eq_fields; reflexivity. Qed.

(** ** [undo] respects the equivalence *)

Definition outcome_equiv (x y : outcome St) : Prop :=
  match x, y with Ret s, Ret s' => s ≡ s' | Panic, Panic => True | _, _ => False end.

Lemma on_object_eq s s' a k : s ≡ s' -> Proper ((≡) ==> (≡) ==> (≡)) k ->
  outcome_equiv (on_object decodeAccount s a k) (on_object decodeAccount s' a k).
Proof.
  intros Hs Hk. unfold on_object. pose proof (eq_live _ _ Hs a) as Hl. unfold live in Hl.
  pose proof (get_eq s a) as H1. pose proof (get_eq s' a) as H2.
  destruct (get s a) as [o t], (get s' a) as [o' t']. cbn [fst snd] in *.
  destruct Hl as [o o' Ho|]; [|exact I]. apply Hk; [|exact Ho]. rewrite H1, H2. exact Hs.
Qed.

#[local] Instance set_objects_delete_proper a : Proper ((≡) ==> (≡)) (fun s : St => set_objects s (base.delete a (stateObjects s))).
Proof.
  intros s s' [A L R H B X G P]. split; auto. intros b. specialize (L b). rewrite !live_value in *.
  cbn [set_objects stateObjects trie]. unfold Address in *.
  destruct (decide (a = b)) as [<-|N]; [rewrite !lookup_delete_eq, A; reflexivity | rewrite !lookup_delete_ne by exact N; exact L].
Qed.

Lemma set_dirty_eq (s : St) d : set_dirty s d ≡ s.
Proof. apply state_eq_fields; reflexivity. Qed.

Lemma outcome_equiv_bind (x y : outcome St) (k k' : St -> outcome St) : outcome_equiv x y ->
  (forall s s', s ≡ s' -> outcome_equiv (k s) (k' s')) -> outcome_equiv (obind x k) (obind y k').
Proof. intros H Hk. destruct x, y; try contradiction; [apply Hk, H | exact I]. Qed.

Definition log_list (l : gmap Z (list Log)) (h : Hash) : list Log := match l !! h with Some l => l | None => [] end.

Lemma set_logs_eq (s s' : St) l l' n n' : s ≡ s' -> (forall h, log_list l h = log_list l' h) -> set_logs s l n ≡ set_logs s' l' n'.
Proof. intros [A L R H B X G P] Hl. split; auto. intros a. rewrite (live_fields (set_logs s l n) s a), (live_fields (set_logs s' l' n') s' a) by reflexivity. apply L. Qed.

Lemma log_list_insert l h v j : log_list (<[h := v]> l) j = if decide (h = j) then v else log_list l j.
Proof.
  unfold log_list. unfold Hash in *. case_decide as H; [subst j; rewrite lookup_insert_eq | rewrite lookup_insert_ne by exact H]; reflexivity.
Qed.

Lemma log_list_delete l h j : log_list (base.delete h l) j = if decide (h = j) then [] else log_list l j.
Proof.
  unfold log_list. unfold Hash in *. case_decide as H; [subst j; rewrite lookup_delete_eq | rewrite lookup_delete_ne by exact H]; reflexivity.
Qed.

(** The last log of a transaction is dropped. *)
Lemma undo_addLog h s : undo decodeAccount (addLogChange h) s =
  if len (GetLogs s h) =? 1 then Ret (set_logs s (base.delete h (logs s)) (logSize s))
  else let! l := slice (GetLogs s h) 0 (len (GetLogs s h) - 1) in Ret (set_logs s (<[h := l]> (logs s)) (logSize s)).
Proof. reflexivity. Qed.

#[local] Instance set_flags_touched_proper b :
  Proper ((≡) ==> (≡) ==> (≡)) (fun (s : St) o => setStateObject s (set_flags o (suicided o) b (deleted o) (onDirty o))).
Proof.
  intros s s' Hs o o' Ho.
  assert (Hf : forall x : Obj, set_flags x (suicided x) b (deleted x) (onDirty x) ≡ x) by (intros x; apply object_eq_fields; reflexivity).
  rewrite !Hf, Hs, Ho. reflexivity.
Qed.

Lemma undo_suicide a b v s : undo decodeAccount (suicideChange a b v) s =
  match live s a with
  | None => Ret (snd (get s a))
  | Some _ => on_object decodeAccount s a (fun s o => put_dirty s (with_balance (with_suicided o b) v))
  end.
Proof. cbn [undo]. unfold on_object, live. destruct (get s a) as [[o|] t]; reflexivity. Qed.

Lemma undo_eq e s s' : s ≡ s' -> outcome_equiv (undo decodeAccount e s) (undo decodeAccount e s').
Proof.
  intros Hs. destruct e as [a|p|a b v|a v|a n|a k v|a c h|v|h|h|a b d]; rewrite ?undo_suicide, ?undo_addLog; cbn [undo].
  - cbn. rewrite !set_dirty_eq. apply (set_objects_delete_proper a), Hs.
  - cbn. rewrite Hs. reflexivity.
  - destruct (eq_live _ _ Hs a); [|cbn; rewrite !get_eq; exact Hs].
    apply on_object_eq; [exact Hs|]. intros t t' Ht o o' Ho. rewrite Ht, Ho. reflexivity.
  - apply (on_object_eq s s' a (fun t o => put_dirty t (with_balance o v)) Hs). intros t t' Ht o o' Ho. rewrite Ht, Ho. reflexivity.
  - apply (on_object_eq s s' a (fun t o => put_dirty t (with_nonce o n)) Hs). intros t t' Ht o o' Ho. rewrite Ht, Ho. reflexivity.
  - apply (on_object_eq s s' a (fun t o => put_dirty t (with_slot o k v)) Hs). intros t t' Ht o o' Ho. rewrite Ht, Ho. reflexivity.
  - apply (on_object_eq s s' a (fun t o => put_dirty t (with_code o h c)) Hs). intros t t' Ht o o' Ho. rewrite Ht, Ho. reflexivity.
  - destruct Hs as [A L R H B X G P]. split; auto. intros a. rewrite (live_fields (set_refund s v) s a), (live_fields (set_refund s' v) s' a) by reflexivity. apply L.
  - rewrite <- (eq_logs _ _ Hs h). destruct (_ =? 1).
    { apply set_logs_eq; [exact Hs|]. intros j. rewrite !log_list_delete. case_decide; [reflexivity|apply (eq_logs _ _ Hs)]. }
    destruct (slice _ _ _); [|exact I]. apply set_logs_eq; [exact Hs|]. intros j. rewrite !log_list_insert.
    case_decide; [reflexivity|apply (eq_logs _ _ Hs)].
  - destruct Hs as [A L R H B X G P]. split; auto; [|cbn; rewrite P; reflexivity].
    intros a. rewrite (live_fields (set_preimages s _) s a), (live_fields (set_preimages s' _) s' a) by reflexivity. apply L.
  - destruct (_ && _); [|exact Hs]. apply outcome_equiv_bind; [apply on_object_eq; [exact Hs|exact _]|].
    intros t t' Ht. destruct (negb d); cbn; rewrite ?set_dirty_eq; exact Ht.
Qed.

Lemma undo_all_eq es : forall s s', s ≡ s' -> outcome_equiv (undo_all decodeAccount es s) (undo_all decodeAccount es s').
Proof.
  induction es as [|e es IH]; intros s s' Hs; [exact Hs|]. cbn [undo_all].
  apply outcome_equiv_bind; [apply IH, Hs|]. intros t t'. apply undo_eq.
Qed.

Lemma undo_all_app es es' s : undo_all decodeAccount (es ++ es') s = let! s := undo_all decodeAccount es' s in undo_all decodeAccount es s.
Proof.
  induction es as [|e es IH]; cbn [undo_all app]; [destruct (undo_all _ es' s); reflexivity|].
  rewrite IH. destruct (undo_all _ es' s); reflexivity.
Qed.

(** ** Well-formed states *)

(** An entry that brings back an object brings back one that is not deleted. *)
Definition entry_ok (e : @journalEntry T E) : Prop :=
  match e with resetObjectChange p => deleted p = false | _ => True end.

(** Objects are under their address, and those [Finalise] deleted are gone from the trie. *)
Record wf (s : St) : Prop := {
  wf_objects a o : stateObjects s !! a = Some o -> address o = a /\ (deleted o = true -> loaded (trie s) a = None);
  wf_journal : Forall entry_ok (journal s) }.

Lemma wf_fields s s' : wf s -> stateObjects s' = stateObjects s -> trie s' = trie s -> journal s' = journal s -> wf s'.
Proof. intros [H1 H2] E1 E2 E3. split; rewrite ?E1, ?E2, ?E3; assumption. Qed.

Lemma wf_live s a o : wf s -> live s a = Some o -> address o = a /\ deleted o = false.
Proof.
  intros [H _]. rewrite live_value. specialize (H a). unfold Address in *. destruct (stateObjects s !! a) as [o'|].
  - destruct (deleted o') eqn:Ed; [discriminate|]. intros [= <-]. split; [apply H; reflexivity|exact Ed].
  - unfold loaded. destruct (TryGet _ _) as [[|]|]; try discriminate. destruct (decodeAccount _); [|discriminate].
    intros [= <-]. auto.
Qed.

Lemma wf_put s (o : Obj) : wf s -> deleted o = false -> wf (setStateObject s o).
Proof.
  intros [H1 H2] Hd. split; [|exact H2]. intros a o' Ha. cbn [setStateObject set_objects stateObjects trie] in *.
  unfold Address in *. destruct (decide (address o = a)) as [<-|N].
  - rewrite lookup_insert_eq in Ha. injection Ha as <-. split; [reflexivity|congruence].
  - rewrite lookup_insert_ne in Ha by exact N. apply H1, Ha.
Qed.

Lemma wf_put_dirty s (o : Obj) : wf s -> deleted o = false -> wf (put_dirty s o).
Proof.
  intros H Hd. unfold put_dirty, fire. destruct (onDirty o); [|apply wf_put; assumption].
  apply wf_put; [|exact Hd]. apply (wf_fields s); auto.
Qed.

Lemma wf_append s e : wf s -> entry_ok e -> wf (append_journal s e).
Proof. intros [H1 H2] He. split; [exact H1|]. cbn. apply Forall_app. auto. Qed.

Lemma wf_get s a : wf s -> wf (snd (get s a)).
Proof.
  intros H. destruct (get_state s a) as (s' & -> & E1 & _ & _ & E2 & _ & _ & _ & _ & _ & _ & _ & Ho). cbn [snd].
  destruct Ho as [Eo|(o & Ha & Hl & Eo)]; [apply (wf_fields s); assumption|].
  assert (Hw : wf (setStateObject s o)).
  { apply wf_put; [exact H|]. apply (wf_live s a o H). rewrite live_value. unfold Address in *. rewrite Ha. exact Hl. }
  apply (wf_fields (setStateObject s o)); auto. rewrite Eo. cbn. f_equal. symmetry.
  apply (wf_live s a o H). rewrite live_value. unfold Address in *. rewrite Ha. exact Hl.
Qed.

Lemma wf_on_object s a k s' : wf s -> (forall t o, wf t -> deleted o = false -> wf (k t o)) ->
  on_object decodeAccount s a k = Ret s' -> wf s'.
Proof.
  intros H Hk. unfold on_object. pose proof (wf_get s a H) as Hw. pose proof (wf_live s a) as Hl. unfold live in Hl.
  destruct (get s a) as [[o|] t]; [|discriminate]. intros [= <-]. apply Hk; [exact Hw|]. apply (Hl o H eq_refl).
Qed.

Lemma wf_undo e s s' : wf s -> entry_ok e -> undo decodeAccount e s = Ret s' -> wf s'.
Proof.
  intros H He. destruct e as [a|p|a b v|a v|a n|a k v|a c h|v|h|h|a b d]; rewrite ?undo_suicide, ?undo_addLog; cbn [undo].
  - intros [= <-]. destruct H as [H1 H2]. split; [|exact H2]. cbn. intros b o Hb. unfold Address in *.
    apply lookup_delete_Some in Hb as [_ Hb]. apply H1, Hb.
  - intros [= <-]. apply wf_put; assumption.
  - destruct (live s a); [|intros [= <-]; apply wf_get, H].
    apply wf_on_object; [exact H|]. intros t o Ht Hd. apply wf_put_dirty; assumption.
  - apply wf_on_object; [exact H|]. intros t o Ht Hd. apply wf_put_dirty; assumption.
  - apply wf_on_object; [exact H|]. intros t o Ht Hd. apply wf_put_dirty; assumption.
  - apply wf_on_object; [exact H|]. intros t o Ht Hd. apply wf_put_dirty; assumption.
  - apply wf_on_object; [exact H|]. intros t o Ht Hd. apply wf_put_dirty; assumption.
  - intros [= <-]. apply (wf_fields s); auto.
  - destruct (_ =? 1); [intros [= <-]; apply (wf_fields s); auto|]. destruct (slice _ _ _); [|discriminate].
    intros [= <-]. apply (wf_fields s); auto.
  - intros [= <-]. apply (wf_fields s); auto.
  - destruct (_ && _); [|intros [= <-]; exact H]. destruct (on_object _ _ _ _) as [t|] eqn:Eo; [|discriminate].
    apply wf_on_object in Eo; [|exact H|intros t' o Ht Hd; apply wf_put; assumption].
    intros [= <-]. destruct (negb d); [apply (wf_fields t); auto|exact Eo].
Qed.

Lemma on_object_kept s a k s' : (forall t o, log_kept t (k t o)) -> on_object decodeAccount s a k = Ret s' -> log_kept s s'.
Proof.
  intros Hk. unfold on_object. pose proof (get_kept s a) as Hg. destruct (get s a) as [[o|] t]; [|discriminate].
  intros [= <-]. transitivity t; [exact Hg|apply Hk].
Qed.

Lemma undo_kept e s s' : undo decodeAccount e s = Ret s' -> log_kept s s'.
Proof.
  destruct e as [a|p|a b v|a v|a n|a k v|a c h|v|h|h|a b d]; rewrite ?undo_suicide, ?undo_addLog; cbn [undo];
    try (intros [= <-]; repeat split; fail); try (apply on_object_kept; intros; apply put_dirty_kept).
  - destruct (live s a); [apply on_object_kept; intros; apply put_dirty_kept | intros [= <-]; apply get_kept].
  - destruct (_ =? 1); [intros [= <-]; repeat split|]. destruct (slice _ _ _); [|discriminate]. intros [= <-]. repeat split.
  - destruct (_ && _); [|intros [= <-]; reflexivity]. destruct (on_object _ _ _ _) as [t|] eqn:Eo; [|discriminate].
    apply on_object_kept in Eo; [|intros; repeat split]. intros [= <-]. transitivity t; [exact Eo|].
    destruct (negb d); repeat split.
Qed.

Lemma undo_all_inv es : forall s s', wf s -> Forall entry_ok es -> undo_all decodeAccount es s = Ret s' -> wf s' /\ log_kept s s'.
Proof.
  induction es as [|e es IH]; intros s s' Hw Hes; cbn [undo_all]; [intros [= <-]; split; [exact Hw|reflexivity]|].
  apply Forall_cons_iff in Hes as [He Hes]. destruct (undo_all _ es s) as [t|] eqn:Et; [|discriminate]. cbn [obind]. intros Hu.
  destruct (IH s t Hw Hes Et) as [H1 H2]. split; [exact (wf_undo _ _ _ H1 He Hu)|].
  transitivity t; [exact H2|exact (undo_kept _ _ _ Hu)].
Qed.

(** ** Methods log what they do *)

(** The new entries of the journal lead back to a state equivalent to the old. *)
Definition logged (s s' : St) : Prop :=
  exists es, journal s' = journal s ++ es /\ outcome_equiv (undo_all decodeAccount es s') (Ret s).

Record steps (s s' : St) : Prop := {
  steps_wf : wf s';
  steps_logged : logged s s';
  steps_revisions : validRevisions s' = validRevisions s;
  steps_next : nextRevisionId s' = nextRevisionId s }.

Lemma steps_trans s1 s2 s3 : steps s1 s2 -> steps s2 s3 -> steps s1 s3.
Proof.
  intros [W1 (es1 & J1 & U1) R1 N1] [W2 (es2 & J2 & U2) R2 N2]. split; [exact W2| |congruence|congruence].
  exists (es1 ++ es2). split; [rewrite J2, J1, app_assoc; reflexivity|]. rewrite undo_all_app.
  destruct (undo_all _ es2 s3) as [t|]; [|contradiction]. cbn [obind].
  pose proof (undo_all_eq es1 t s2 U2) as H. destruct (undo_all _ es1 t), (undo_all _ es1 s2); try contradiction.
  cbn in *. rewrite H. exact U1.
Qed.

Lemma steps_silent s s' : wf s' -> s' ≡ s -> log_kept s s' -> steps s s'.
Proof.
  intros W H (J & R & N). split; auto. exists []. rewrite app_nil_r. auto.
Qed.

Lemma steps_entry e s s' : wf s' -> journal s' = journal s ++ [e] -> validRevisions s' = validRevisions s ->
  nextRevisionId s' = nextRevisionId s -> outcome_equiv (undo decodeAccount e s') (Ret s) -> steps s s'.
Proof. intros W J R N U. split; auto. exists [e]. auto. Qed.

Lemma steps_get s a : wf s -> steps s (snd (get s a)).
Proof. intros W. apply steps_silent; [apply wf_get, W | apply get_eq | apply get_kept]. Qed.

(** A changed object, and an entry that changes it back. *)
Lemma steps_changed s s' (o o' : Obj) e g : wf s -> wf s' -> live s (address o) = Some o -> s' ≡ setStateObject s o' ->
  journal s' = journal s ++ [e] -> validRevisions s' = validRevisions s -> nextRevisionId s' = nextRevisionId s ->
  address o' = address o -> deleted o' = false -> Proper ((≡) ==> (≡)) g ->
  (forall t x, live t (address o) = Some x -> undo decodeAccount e t = on_object decodeAccount t (address o) (fun t x => put_dirty t (g x))) ->
  g o' ≡ o -> steps s s'.
Proof.
  intros W W' Hl Hs J R N Ha Hd Hg Hu Ho. apply (steps_entry e); auto.
  pose proof (eq_live _ _ Hs (address o)) as Hx. rewrite live_put, Ha in Hx. rewrite decide_True, Hd in Hx by reflexivity.
  destruct (live s' (address o)) as [x|] eqn:El; [|inversion Hx]. rewrite (Hu s' x El). apply Some_equiv_inj in Hx.
  unfold on_object. destruct (get_state s' (address o)) as (t & Eg & _). pose proof (get_eq s' (address o)) as Ht.
  rewrite Eg in *. rewrite El. cbn [snd outcome_equiv] in *.
  rewrite put_dirty_eq, Ht, Hs, Hx, Ho, put_put by exact Ha. apply (put_same s o o); [exact Hl| |reflexivity].
  apply (wf_live s (address o) o W Hl).
Qed.

Lemma steps_modify s (o o' : Obj) e g : wf s -> live s (address o) = Some o -> address o' = address o -> deleted o' = false ->
  entry_ok e -> Proper ((≡) ==> (≡)) g -> (forall t, undo decodeAccount e t = on_object decodeAccount t (address o) (fun t x => put_dirty t (g x))) ->
  g o' ≡ o -> steps s (put_dirty (append_journal s e) o').
Proof.
  intros W Hl Ha Hd He Hg Hu Ho. destruct (put_dirty_kept (append_journal s e) o') as (J & R & N).
  apply (steps_changed s _ o o' e g); auto.
  - apply wf_put_dirty; [apply wf_append; assumption|exact Hd].
  - rewrite put_dirty_eq, append_journal_eq. reflexivity.
Qed.

(** A fresh object of [createObject], already marked dirty. *)
Definition fresh (a : Address) : Obj :=
  set_flags (newObject a (zero_account Keccak256)) false false false false.
Definition created (s : St) (a : Address) : @journalEntry T E :=
  match live s a with None => createObjectChange a | Some p => resetObjectChange p end.

Lemma createObject_value s a : exists d, createObject Keccak256 decodeAccount s a =
  (fresh a, live s a, setStateObject (append_journal (set_dirty (snd (get s a)) d) (created s a)) (fresh a)).
Proof. unfold createObject, created, live. destruct (get s a) as [o t]. eexists. reflexivity. Qed.

(** Whatever was done to the new object, undoing its creation leads back. *)
Lemma steps_created s s' a (o : Obj) : wf s -> wf s' -> address o = a -> s' ≡ setStateObject s o -> journal s' = journal s ++ [created s a] ->
  validRevisions s' = validRevisions s -> nextRevisionId s' = nextRevisionId s -> steps s s'.
Proof.
  intros W W' Ha Hs J R N. apply (steps_entry (created s a)); auto. unfold created. pose proof (wf_live s a) as Hw.
  pose proof (live_value s a) as Hv. destruct (live s a) as [p|] eqn:Hl; cbn [undo outcome_equiv].
  - destruct (Hw p W eq_refl) as [Hp Hd]. rewrite Hs, put_put by congruence. apply (put_same s p p); [congruence|exact Hd|reflexivity].
  - rewrite set_dirty_eq, (set_objects_delete_proper a _ _ Hs). split; try reflexivity. intros b. rewrite live_value.
    cbn [set_objects setStateObject stateObjects trie]. unfold Address in *. rewrite Ha. destruct (decide (a = b)) as [<-|Nb].
    + rewrite lookup_delete_eq, Hl. pose proof (wf_objects _ W a) as Ho. unfold Address in *.
      destruct (stateObjects s !! a) as [o'|]; [|rewrite <- Hv; reflexivity].
      destruct (deleted o') eqn:Ed; [|discriminate]. destruct (Ho o' eq_refl) as [_ H]. rewrite (H Ed). reflexivity.
    + rewrite lookup_delete_ne, lookup_insert_ne, live_value by exact Nb. reflexivity.
Qed.

Lemma createObject_state s a d : wf s ->
  let s' := setStateObject (append_journal (set_dirty (snd (get s a)) d) (created s a)) (fresh a) in
  wf s' /\ s' ≡ setStateObject s (fresh a) /\ journal s' = journal s ++ [created s a] /\
  validRevisions s' = validRevisions s /\ nextRevisionId s' = nextRevisionId s.
Proof.
  intros W s'. destruct (get_kept s a) as (J & R & N). split; [|split; [|split; [|auto]]].
  - apply wf_put; [|reflexivity]. apply wf_append; [apply (wf_fields (snd (get s a))); auto; apply wf_get, W|].
    unfold created. pose proof (wf_live s a) as Hl. destruct (live s a) as [p|]; [apply (Hl p W eq_refl)|exact I].
  - unfold s'. rewrite append_journal_eq, set_dirty_eq, get_eq. reflexivity.
  - cbn. rewrite J. reflexivity.
Qed.

(** [GetOrNewStateObject]: the object is in the state. *)
Lemma GetOrNew_steps s a : wf s -> let '(o, s') := GetOrNewStateObject Keccak256 decodeAccount s a in
  steps s s' /\ live s' a = Some o /\ address o = a /\ deleted o = false.
Proof.
  intros W. unfold GetOrNewStateObject. pose proof (steps_get s a W) as Hs. pose proof (wf_live s a) as Hl.
  pose proof (get_eq s a) as He. unfold live in Hl at 1. destruct (get_state s a) as (t & Eg & _ & _ & _ & Et & _ & _ & _ & _ & _ & _ & _ & Ho).
  rewrite Eg in *. cbn [fst snd] in *. destruct (live s a) as [o|] eqn:El.
  - split; [exact Hs|]. split; [|apply (Hl o W eq_refl)].
    rewrite live_value in El |- *. rewrite Et. unfold Address in *. destruct Ho as [->|(o' & H1 & H2 & ->)]; [exact El|].
    rewrite H1 in El. rewrite lookup_insert_eq. rewrite H2 in El. injection El as ->.
    rewrite (proj2 (Hl o W eq_refl)). reflexivity.
  - destruct (createObject_value t a) as (d & ->). cbn [fst snd].
    destruct (createObject_state t a d (steps_wf _ _ Hs)) as (W' & E' & J' & R' & N'). split.
    { apply (steps_trans _ t); [exact Hs|]. apply (steps_created t _ a (fresh a)); auto. apply (steps_wf _ _ Hs). }
    rewrite live_put. case_decide; [|contradiction]. auto.
Qed.

Lemma CreateAccount_steps a s : wf s -> steps s (st_CreateAccount Keccak256 decodeAccount a s).
Proof.
  intros W. unfold st_CreateAccount. destruct (createObject_value s a) as (d & ->).
  destruct (createObject_state s a d W) as (W' & E' & J' & R' & N'). set (s' := setStateObject _ _) in *.
  destruct (live s a) as [p|]; [|apply (steps_created s s' a (fresh a)); auto].
  change (steps s (put_dirty s' (with_balance (fresh a) (acc_Balance (data p))))).
  destruct (put_dirty_kept s' (with_balance (fresh a) (acc_Balance (data p)))) as (J & R & N).
  apply (steps_created s _ a (with_balance (fresh a) (acc_Balance (data p)))); auto; try congruence.
  - apply wf_put_dirty; [exact W'|reflexivity].
  - rewrite put_dirty_eq, E', put_put; reflexivity.
Qed.

(** After [GetOrNewStateObject], one more step. *)
Lemma with_object s a (k : Obj -> St -> St) : wf s ->
  (forall o t, wf t -> live t a = Some o -> address o = a -> deleted o = false -> steps t (k o t)) ->
  steps s (let '(o, t) := GetOrNewStateObject Keccak256 decodeAccount s a in k o t).
Proof.
  intros W Hk. pose proof (GetOrNew_steps s a W) as H. destruct (GetOrNewStateObject _ _ s a) as [o t].
  destruct H as (H & H1 & H2 & H3). apply (steps_trans _ t); [exact H|]. apply Hk; auto. apply (steps_wf _ _ H).
Qed.

Lemma SetBalance_steps t (o : Obj) v : wf t -> live t (address o) = Some o -> deleted o = false -> steps t (SetBalance t o v).
Proof.
  intros W Hl Hd. change (steps t (put_dirty (append_journal t (balanceChange (address o) (acc_Balance (data o)))) (with_balance o v))).
  apply (steps_modify t o _ _ (fun x => with_balance x (acc_Balance (data o)))); auto; [exact I| |apply with_balance_undo].
  intros x x' Hx. rewrite Hx. reflexivity.
Qed.

Lemma SubBalance_steps a v s : wf s -> steps s (st_SubBalance Keccak256 decodeAccount a v s).
Proof.
  intros W. apply (with_object s a (fun o t => if Sign v =? 0 then t else SetBalance t o (acc_Balance (data o) - v))); [exact W|].
  intros o t Wt Hl Ha Hd. destruct (_ =? 0); [apply steps_silent; auto; reflexivity|]. subst a. apply SetBalance_steps; auto.
Qed.

(** [touch] marks the object only; the mark is taken back or left. *)
Lemma touch_steps t (o : Obj) : wf t -> live t (address o) = Some o -> deleted o = false -> steps t (touch t o).
Proof.
  intros W Hl Hd. unfold touch. set (e := touchChange _ _ _). set (s1 := append_journal t e).
  pose proof (fire_eq s1 o) as [F1 F2].
  assert (Fk : log_kept s1 (fst (fire s1 o)) /\ wf (fst (fire s1 o)) /\ address (snd (fire s1 o)) = address o /\ deleted (snd (fire s1 o)) = false).
  { assert (wf s1) by (apply wf_append; [exact W|exact I]). unfold fire. destruct (onDirty o); cbn [fst snd];
      (split; [repeat split|]); (split; [apply (wf_fields s1); auto|]); auto. }
  destruct (fire s1 o) as [s2 o2]. cbn [fst snd] in *. destruct Fk as ((J & R & N) & W2 & A2 & D2).
  set (s3 := setStateObject _ _). assert (H3 : s3 ≡ t).
  { unfold s3. rewrite F1. unfold s1. rewrite append_journal_eq. apply (put_same t o); auto.
    rewrite <- F2. apply object_eq_fields; reflexivity. }
  apply (steps_entry e); auto; [apply wf_put; [exact W2|exact D2]|].
  unfold e. cbn [undo]. destruct (_ && _); [|exact H3].
  pose proof (on_object_eq s3 t (address o) _ H3 (set_flags_touched_proper (touched o))) as H.
  unfold on_object at 2 in H. destruct (get_state t (address o)) as (t' & Eg & _). pose proof (get_eq t (address o)) as Ht'.
  rewrite Eg in *. rewrite Hl in H. cbn [snd] in Ht'. destruct (on_object _ _ _ _) as [s4|]; [|contradiction]. cbn in H.
  assert (H4 : s4 ≡ t).
  { rewrite H, Ht'. apply (put_same t o); auto. apply object_eq_fields; reflexivity. }
  cbn [obind]. destruct (negb _); cbn; rewrite ?set_dirty_eq; exact H4.
Qed.

Lemma AddBalance_steps a v s : wf s -> steps s (st_AddBalance Keccak256 decodeAccount a v s).
Proof.
  intros W. apply (with_object s a (fun o t => if Sign v =? 0 then if empty_object Keccak256 o then touch t o else t
                                              else SetBalance t o (acc_Balance (data o) + v))); [exact W|].
  intros o t Wt Hl Ha Hd. subst a. destruct (_ =? 0); [|apply SetBalance_steps; auto].
  destruct (empty_object _ o); [apply touch_steps; auto | apply steps_silent; auto; reflexivity].
Qed.

Lemma Transfer_steps a b v s : wf s ->
  steps s (st_AddBalance Keccak256 decodeAccount b v (st_SubBalance Keccak256 decodeAccount a v s)).
Proof.
  intros W. pose proof (SubBalance_steps a v s W) as H. apply (steps_trans _ _ _ H). apply AddBalance_steps, (steps_wf _ _ H).
Qed.

Lemma SetNonce_steps a n s : wf s -> steps s (st_SetNonce Keccak256 decodeAccount a n s).
Proof.
  intros W. apply (with_object s a (fun o t => setNonce (append_journal t (nonceChange (address o) (Nonce (data o)))) o n)); [exact W|].
  intros o t Wt Hl Ha Hd. subst a.
  apply (steps_modify t o (with_nonce o n) _ (fun x => with_nonce x (Nonce (data o)))); auto; [exact I| |apply with_nonce_undo].
  intros x x' Hx. rewrite Hx. reflexivity.
Qed.

Lemma SetCode_steps a c s : wf s -> steps s (st_SetCode Keccak256 db decodeAccount a c s).
Proof using Hsize.
  intros W. apply (with_object s a (fun o t => let '(prevcode, o) := object_Code Keccak256 db o in
    setCode (append_journal t (codeChange (address o) prevcode (acc_CodeHash (data o)))) o (BytesToHash (Keccak256 c)) c)); [exact W|].
  intros o t Wt Hl Ha Hd. subst a. pose proof (object_Code_eq o) as He. destruct (object_Code Keccak256 db o) as [p o1] eqn:Eo.
  cbn [snd] in He. assert (Hp : p = fst (object_Code Keccak256 db o1)) by (rewrite (eq_code _ _ He), Eo; reflexivity).
  pose proof (eq_address _ _ He) as Ha. pose proof (eq_deleted _ _ He) as Hd1. rewrite Ha.
  apply (steps_modify t o (with_code o1 (BytesToHash (Keccak256 c)) c) _ (fun x => with_code x (acc_CodeHash (data o1)) p)); auto.
  - exact (eq_trans Hd1 Hd).
  - exact I.
  - intros x x' Hx. rewrite Hx. reflexivity.
  - rewrite Hp, with_code_undo. exact He.
Qed.

Lemma SetState_steps a k v s : wf s -> steps s (st_SetState Keccak256 db decodeAccount a k v s).
Proof.
  intros W. apply (with_object s a (fun o t => let '(prevalue, o) := object_GetState Keccak256 db o k in
    setState (append_journal t (storageChange (address o) k prevalue)) o k v)); [exact W|].
  intros o t Wt Hl Ha Hd. subst a. pose proof (object_GetState_eq o k) as He.
  destruct (object_GetState Keccak256 db o k) as [p o1] eqn:Eo. cbn [snd] in He.
  assert (Hp : p = fst (object_GetState Keccak256 db o1 k)) by (rewrite (eq_storage _ _ He), Eo; reflexivity).
  pose proof (eq_address _ _ He) as Ha. pose proof (eq_deleted _ _ He) as Hd1. rewrite Ha.
  apply (steps_modify t o (with_slot o1 k v) _ (fun x => with_slot x k p)); auto.
  - exact (eq_trans Hd1 Hd).
  - exact I.
  - intros x x' Hx. rewrite Hx. reflexivity.
  - rewrite Hp, with_slot_undo. exact He.
Qed.

Lemma with_suicided_undo (o : Obj) : with_balance (with_suicided (with_balance (with_suicided o true) 0) (suicided o)) (acc_Balance (data o)) ≡ o.
Proof. apply object_eq_fields; try reflexivity. cbn. destruct (data o); reflexivity. Qed.

Lemma live_get s a o : wf s -> live s a = Some o -> live (snd (get s a)) a = Some o.
Proof.
  intros W El. destruct (wf_live s a o W El) as [_ Hd].
  destruct (get_state s a) as (t & -> & _ & _ & _ & Et & _ & _ & _ & _ & _ & _ & _ & Ho). cbn [snd].
  rewrite live_value in El |- *. rewrite Et. unfold Address in *. destruct Ho as [->|(o' & H1 & H2 & ->)]; [exact El|].
  rewrite H1 in El. rewrite lookup_insert_eq. rewrite H2 in El. injection El as ->. rewrite Hd. reflexivity.
Qed.

Lemma Suicide_steps a s : wf s -> steps s (fst (st_Suicide decodeAccount a s)).
Proof.
  intros W. unfold st_Suicide. pose proof (steps_get s a W) as Hs. pose proof (live_get s a) as Hl.
  destruct (get_state s a) as (t & Eg & _). rewrite Eg in *. cbn [snd] in *.
  destruct (live s a) as [o|] eqn:El; [|exact Hs]. apply (steps_trans _ t); [exact Hs|].
  destruct (wf_live s a o W El) as [Ha Hd]. specialize (Hl o W eq_refl).
  set (e := suicideChange _ _ _). set (t1 := append_journal t e). set (r := fire t1 _).
  assert (W1 : wf t1) by (apply wf_append; [apply (steps_wf _ _ Hs)|exact I]).
  assert (Hr : wf (fst r) /\ log_kept t1 (fst r) /\ deleted (snd r) = false).
  { unfold r, fire. destruct (onDirty _); cbn [fst snd]; (split; [apply (wf_fields t1); auto|]); (split; [repeat split|exact Hd]). }
  destruct (fire_eq t1 (with_suicided o true)) as [F1 F2]. change (fire t1 _) with r in F1, F2.
  destruct r as [t2 o2]. cbn [fst snd] in *. destruct Hr as (W2 & (J & R & N) & D2).
  apply (steps_changed t _ o (with_balance (with_suicided o true) 0) e
           (fun x => with_balance (with_suicided x (suicided o)) (acc_Balance (data o)))); auto.
  - apply (steps_wf _ _ Hs).
  - apply wf_put; [exact W2|exact D2].
  - rewrite Ha. exact Hl.
  - change (set_data o2 _) with (with_balance o2 0). rewrite F1, F2. unfold t1. rewrite append_journal_eq. reflexivity.
  - intros x x' Hx. rewrite Hx. reflexivity.
  - intros t' x Hx. unfold e. rewrite undo_suicide, <- Ha, Hx. reflexivity.
  - apply with_suicided_undo.
Qed.

Lemma slice_prefix {A : Type} (l r : list A) : slice (l ++ r) 0 (len l) = Ret l.
Proof.
  rewrite slice_ret by (rewrite ?len_app; pose proof (len_nonneg l); pose proof (len_nonneg r); lia).
  f_equal. rewrite Z.sub_0_r. unfold len. rewrite Nat2Z.id. apply take_app_length.
Qed.

Lemma AddLog_steps l s : wf s -> steps s (st_AddLog l s).
Proof.
  intros W. apply (steps_entry (addLogChange (thash s))); try reflexivity.
  { apply (wf_fields (append_journal s (addLogChange (thash s)))); try reflexivity. apply wf_append; [exact W|exact I]. }
  rewrite undo_addLog. set (s' := st_AddLog l s).
  assert (Hl : exists x, logs s' = <[thash s := GetLogs s (thash s) ++ [x]]> (logs s)) by (eexists; reflexivity).
  destruct Hl as (x & Hl). assert (Hg : GetLogs s' (thash s) = GetLogs s (thash s) ++ [x]).
  { change (GetLogs s' ?h) with (log_list (logs s') h). rewrite Hl, log_list_insert, decide_True; reflexivity. }
  assert (Hback : forall m n, (forall h, log_list m h = GetLogs s h) -> set_logs s' m n ≡ s).
  { intros m n Hm. transitivity (set_logs s (logs s) (logSize s)); [|apply state_eq_fields; reflexivity].
    transitivity (set_logs s m n); [apply state_eq_fields; reflexivity|]. apply set_logs_eq; [reflexivity|exact Hm]. }
  rewrite Hg, Hl, len_app. change (len [x]) with 1. destruct (Z.eqb_spec (len (GetLogs s (thash s)) + 1) 1) as [E1|N1].
  - assert (E0 : GetLogs s (thash s) = []).
    { destruct (GetLogs s (thash s)) as [|y m]; [reflexivity|]. rewrite len_cons in E1. pose proof (len_nonneg m). lia. }
    apply Hback. intros h. rewrite log_list_delete, log_list_insert. case_decide as Eh; [subst h; congruence|reflexivity].
  - replace (len (GetLogs s (thash s)) + 1 - 1) with (len (GetLogs s (thash s))) by lia. rewrite slice_prefix.
    apply Hback. intros h. rewrite !log_list_insert. case_decide as Eh; [subst h; reflexivity|reflexivity].
Qed.

Lemma AddPreimage_steps h p s : wf s -> steps s (st_AddPreimage h p s).
Proof.
  intros W. unfold st_AddPreimage. unfold Hash in *. destruct (preimages s !! h) as [q|] eqn:Ep; [apply steps_silent; auto; reflexivity|].
  apply (steps_entry (addPreimageChange h)); try reflexivity.
  { apply (wf_fields (append_journal s (addPreimageChange h))); try reflexivity. apply wf_append; [exact W|exact I]. }
  apply state_eq_fields; try reflexivity. cbn. apply delete_insert_id, Ep.
Qed.

Lemma AddRefund_steps g s : wf s -> steps s (st_AddRefund g s).
Proof.
  intros W. apply (steps_entry (refundChange (refund s))); try reflexivity.
  { apply (wf_fields (append_journal s (refundChange (refund s)))); try reflexivity. apply wf_append; [exact W|exact I]. }
  apply state_eq_fields; reflexivity.
Qed.

(** ** Queries *)

Lemma put_read s a (o o' : Obj) : wf s -> live s a = Some o -> o' ≡ o ->
  let s' := setStateObject (snd (get s a)) o' in wf s' /\ s' ≡ s /\ log_kept s s'.
Proof.
  intros W Hl Ho s'. destruct (wf_live s a o W Hl) as [Ha Hd]. split; [|split].
  - apply wf_put; [apply wf_get, W|]. rewrite (eq_deleted _ _ Ho). exact Hd.
  - unfold s'. rewrite get_eq. apply (put_same s o); [rewrite Ha|..]; assumption.
  - destruct (get_kept s a) as (J & R & N). repeat split; assumption.
Qed.

Lemma get_read s a : wf s -> wf (snd (get s a)) /\ snd (get s a) ≡ s /\ log_kept s (snd (get s a)).
Proof. intros W. split; [apply wf_get, W|]. split; [apply get_eq|apply get_kept]. Qed.

Lemma st_get_state {A : Type} (d : A) g a s : fst (st_get decodeAccount d g a s) = snd (get s a).
Proof. unfold st_get. destruct (get s a); reflexivity. Qed.

#[local] Instance DB : StateDB St := state_StateDB Keccak256 db decodeAccount.

Lemma dbread_eq s s' : dbread s s' -> wf s -> wf s' /\ s' ≡ s /\ log_kept s s'.
Proof using Hsize.
  intros H W. destruct H as [a s|a s|a s|a s|a s|a k s|a s|a s|a s]; cbn;
    unfold st_GetBalance, st_GetNonce, st_GetCodeHash, st_HasSuicided, st_Exist, st_Empty;
    rewrite ?st_get_state; try (apply get_read, W).
  - unfold st_GetCode. pose proof (get_read s a W) as Hr. pose proof (put_read s a) as Hp. destruct (get_state s a) as (t & Eg & _).
    rewrite Eg in *. cbn [snd] in *. destruct (live s a) as [o|]; [|exact Hr].
    pose proof (object_Code_eq o) as Ho. destruct (object_Code Keccak256 db o) as [c o']. apply (Hp o o' W eq_refl Ho).
  - unfold st_GetCodeSize. pose proof (get_read s a W) as Hr. destruct (get_state s a) as (t & Eg & _). rewrite Eg in *.
    cbn [snd] in *. destruct (live s a) as [o|]; [|exact Hr]. destruct (code o); [|exact Hr].
    destruct (ContractCodeSize _ _ _) as [n [e|]]; [|exact Hr]. cbn [fst]. destruct Hr as (H1 & H2 & H3).
    unfold setError. destruct (dbErr t); [auto|]. split; [apply (wf_fields t); auto|]. split; [|exact H3].
    rewrite <- H2. apply state_eq_fields; reflexivity.
  - unfold st_GetState. pose proof (get_read s a W) as Hr. pose proof (put_read s a) as Hp. destruct (get_state s a) as (t & Eg & _).
    rewrite Eg in *. cbn [snd] in *. destruct (live s a) as [o|]; [|exact Hr].
    pose proof (object_GetState_eq o k) as Ho. destruct (object_GetState Keccak256 db o k) as [c o']. apply (Hp o o' W eq_refl Ho).
Qed.

(** ** Snapshots *)

(** The identifiers of the valid revisions ascend and the next one is larger. *)
Fixpoint ascending (rs : list revision) (next : Z) : Prop :=
  match rs with
  | [] => True
  | r :: rs => Forall (fun x => rev_id r < rev_id x) rs /\ rev_id r < next /\ ascending rs next
  end.

Lemma ascending_app rs rs' next : ascending (rs ++ rs') next <->
  ascending rs next /\ ascending rs' next /\ Forall (fun x => Forall (fun y => rev_id x < rev_id y) rs') rs.
Proof.
  induction rs as [|r rs IH]; cbn [ascending app]; [split; [intros H; repeat split; auto|tauto]|].
  rewrite IH, Forall_app, Forall_cons_iff. tauto.
Qed.

Lemma ascending_next rs n n' : ascending rs n -> n <= n' -> ascending rs n'.
Proof. induction rs as [|r rs IH]; cbn; [auto|]. intros (H1 & H2 & H3) L. repeat split; auto. lia. Qed.

Lemma ascending_below rs n : ascending rs n -> Forall (fun r => rev_id r < n) rs.
Proof. induction rs as [|r rs IH]; cbn; [constructor|]. intros (_ & H & H3). constructor; auto. Qed.

Lemma ascending_snoc rs n i : ascending rs n -> ascending (rs ++ [mkRevision n i]) (n + 1).
Proof.
  intros H. apply ascending_app. split; [apply (ascending_next _ n); [exact H|lia]|]. cbn. repeat split; auto; [lia|].
  eapply Forall_impl; [|exact (ascending_below _ _ H)]. intros r Hr. repeat constructor. exact Hr.
Qed.

(** [sort.Search] finds the first index at which a monotone predicate holds. *)
Lemma search_loop_spec fuel f : forall i j, i <= j -> j - i <= Z.of_nat fuel ->
  (forall x y, i <= x <= y -> y < j -> f x = true -> f y = true) ->
  let r := search_loop fuel f i j in i <= r <= j /\ (forall x, i <= x < r -> f x = false) /\ (r < j -> f r = true).
Proof.
  induction fuel as [|fuel IH]; intros i j L Hf Hm; cbn [search_loop].
  { assert (i = j) by lia. subst j. repeat split; try lia. }
  destruct (Z.ltb_spec i j) as [L1|L1]; [|repeat split; try lia].
  set (h := i + (j - i) / 2). assert (Hh : i <= h < j).
  { unfold h. pose proof (Z.div_pos (j - i) 2 ltac:(lia) ltac:(lia)). pose proof (Z.div_lt (j - i) 2 ltac:(lia) ltac:(lia)). lia. }
  destruct (f h) eqn:Efh; cbn [negb].
  - destruct (IH i h ltac:(lia) ltac:(lia) ltac:(intros x y Hx Hy; apply Hm; lia)) as (H1 & H2 & H3).
    repeat split; try lia; auto. intros _. destruct (Z.eq_dec (search_loop fuel f i h) h) as [->|N]; [exact Efh|apply H3; lia].
  - destruct (IH (h + 1) j ltac:(lia) ltac:(lia) ltac:(intros x y Hx Hy; apply Hm; lia)) as (H1 & H2 & H3).
    repeat split; try lia; auto. intros x Hx. destruct (Z.le_gt_cases (h + 1) x); [apply H2; lia|].
    destruct (f x) eqn:Ex; [|reflexivity]. rewrite (Hm x h) in Efh; [discriminate|lia|lia|exact Ex].
Qed.

(** The revision with a given identifier. *)
Lemma search_revision rs r more next : ascending (rs ++ r :: more) next ->
  sort_Search (len (rs ++ r :: more)) (fun i => match index (rs ++ r :: more) i with Ret x => rev_id x >=? rev_id r | Panic => true end) = len rs.
Proof.
  intros Ha. apply ascending_app in Ha as (_ & (Hmore & _ & _) & Hrs). unfold sort_Search. set (l := rs ++ r :: more). set (f := fun i : Z => _).
  assert (Hlen : 0 <= len rs < len l).
  { unfold l. rewrite len_app, len_cons. pose proof (len_nonneg rs). pose proof (len_nonneg more). lia. }
  assert (Hlow : forall x, 0 <= x < len rs -> f x = false).
  { intros x Hx. unfold f, l. destruct (index_exists rs x Hx) as (y & Hy). apply index_in in Hy as [_ Hy].
    assert (Hi : index (rs ++ r :: more) x = Ret y) by (apply index_ret; [rewrite nth_error_app1 by (unfold len in Hx; lia); exact Hy|lia]).
    rewrite Hi. apply nth_error_In in Hy. rewrite List.Forall_forall in Hrs. specialize (Hrs y Hy).
    apply Forall_cons_iff in Hrs as [Hrs _]. destruct (Z.geb_spec (rev_id y) (rev_id r)); [lia|reflexivity]. }
  assert (Hhigh : forall x, len rs <= x -> f x = true).
  { intros x Hx. unfold f. destruct (index l x) as [y|] eqn:Ey; [|reflexivity]. apply index_in in Ey as [Hxl Ey]. unfold l in Ey.
    rewrite nth_error_app2 in Ey by (unfold len in Hx; lia). apply nth_error_In in Ey.
    destruct (Z.geb_spec (rev_id y) (rev_id r)) as [|L]; [reflexivity|]. exfalso. destruct Ey as [->|Ey]; [lia|].
    rewrite List.Forall_forall in Hmore. specialize (Hmore y Ey). lia. }
  destruct (search_loop_spec (Z.to_nat (len l)) f 0 (len l) ltac:(lia) ltac:(lia)) as (H1 & H2 & H3).
  { intros x y Hx Hy Ex. destruct (Z.lt_ge_cases x (len rs)); [rewrite Hlow in Ex by lia; discriminate|]. apply Hhigh. lia. }
  set (i := search_loop _ _ _ _) in *. destruct (Z.lt_trichotomy i (len rs)) as [L|[Heq|L]]; [|exact Heq|].
  - rewrite Hlow in H3 by lia. discriminate (H3 ltac:(lia)).
  - pose proof (H2 (len rs) ltac:(lia)) as Hc. rewrite Hhigh in Hc by lia. discriminate.
Qed.

Lemma dbstep_steps s s' : dbstep false s s' -> wf s -> steps s s' \/ s' = fst (Snapshot s).
Proof using Hsize.
  intros H W. destruct H as [s|h d s|a s _|a b v s _|a s _|a n s _|a c s _|g s _|a k v s _|a b s _|l s _|s s' H]; cbn;
    [right; reflexivity|left..].
  - apply AddPreimage_steps, W.
  - change (fst (st_Exist decodeAccount a s)) with (fst (Exist a s)). destruct (dbread_eq _ _ (dr_Exist a s) W) as (W1 & E1 & K1).
    apply (steps_trans _ (fst (Exist a s))); [apply steps_silent; assumption | apply CreateAccount_steps, W1].
  - apply Transfer_steps, W.
  - apply CreateAccount_steps, W.
  - apply SetNonce_steps, W.
  - apply SetCode_steps, W.
  - apply AddRefund_steps, W.
  - apply SetState_steps, W.
  - destruct (dbread_eq _ _ (dr_GetBalance a s) W) as (W1 & E1 & K1). change (st_GetBalance decodeAccount a s) with (GetBalance a s).
    set (t := st_AddBalance Keccak256 decodeAccount b _ _). assert (Ht : steps (fst (GetBalance a s)) t) by apply AddBalance_steps, W1.
    apply (steps_trans _ t); [|apply Suicide_steps, (steps_wf _ _ Ht)].
    apply (steps_trans _ (fst (GetBalance a s))); [apply steps_silent; assumption|exact Ht].
  - apply AddLog_steps, W.
  - destruct (dbread_eq _ _ H W) as (W1 & E1 & K1). apply steps_silent; assumption.
Qed.

Definition state_ok (s : St) : Prop := wf s /\ ascending (validRevisions s) (nextRevisionId s).

Definition state_same (s s' : St) : Prop := s ≡ s' /\ journal s = journal s' /\ validRevisions s = validRevisions s'.

(** The journal of [s] since the snapshot [id] of [s0] undoes to [s0]. *)
Definition state_undoes (id : Z) (s0 s : St) : Prop :=
  exists es more, journal s = journal s0 ++ es /\
    validRevisions s = validRevisions s0 ++ mkRevision id (len (journal s0)) :: more /\
    outcome_equiv (undo_all decodeAccount es s) (Ret s0).

Lemma outcome_equiv_trans x y z : outcome_equiv x y -> outcome_equiv y z -> outcome_equiv x z.
Proof. destruct x, y, z; cbn; try tauto. intros -> ->. reflexivity. Qed.

Lemma snapshot_eq s : fst (Snapshot s) ≡ s.
Proof. apply state_eq_fields; reflexivity. Qed.

Lemma state_same_equivalence : Equivalence state_same.
Proof.
  split; [intros s; repeat split; reflexivity|intros s s' (A & B & C)|intros s1 s2 s3 (A & B & C) (A' & B' & C')].
  - split; [symmetry; exact A|auto].
  - split; [rewrite A; exact A'|]. split; congruence.
Qed.

Lemma state_ok_step s s' : dbstep false s s' -> state_ok s -> state_ok s'.
Proof using Hsize.
  intros H [W A]. destruct (dbstep_steps _ _ H W) as [[W' _ R N]| -> ]; [split; [exact W'|rewrite R, N; exact A]|].
  split; [apply (wf_fields s); auto|]. apply ascending_snoc, A.
Qed.

Lemma state_read_same s s' : dbread s s' -> state_ok s -> state_same s s'.
Proof using Hsize.
  intros H [W A]. destruct (dbread_eq _ _ H W) as (_ & E1 & (J & R & N)). split; [symmetry; exact E1|auto].
Qed.

Lemma state_undoes_snapshot s : state_ok s -> state_undoes (snd (Snapshot s)) s (fst (Snapshot s)).
Proof.
  intros _. exists [], []. split; [rewrite app_nil_r; reflexivity|]. split; [reflexivity|]. apply snapshot_eq.
Qed.

Lemma state_undoes_step id s0 s s' : state_ok s -> dbstep false s s' -> state_undoes id s0 s -> state_undoes id s0 s'.
Proof using Hsize.
  intros [W A] H (es & more & J & R & U). destruct (dbstep_steps _ _ H W) as [[W' (es' & J' & U') R' N']| -> ].
  - exists (es ++ es'), more. rewrite J', J, R', R, app_assoc. repeat split. rewrite undo_all_app.
    destruct (undo_all _ es' s') as [t|]; [|contradiction]. apply (outcome_equiv_trans _ _ _ (undo_all_eq es t s U') U).
  - exists es, (more ++ [mkRevision (nextRevisionId s) (len (journal s))]). split; [exact J|]. split.
    + cbn. rewrite R, <- app_assoc. reflexivity.
    + apply (outcome_equiv_trans _ _ _ (undo_all_eq es _ s (snapshot_eq s)) U).
Qed.

Lemma state_undoes_same id s0 s s' : state_same s s' -> state_undoes id s0 s -> state_undoes id s0 s'.
Proof.
  intros (E1 & E2 & E3) (es & more & J & R & U). exists es, more. rewrite <- E2, <- E3. repeat split; auto.
  apply (outcome_equiv_trans _ (undo_all decodeAccount es s)); [|exact U]. apply undo_all_eq. symmetry. exact E1.
Qed.

Lemma state_undoes_revert id s0 s : state_ok s -> state_undoes id s0 s ->
  exists s', RevertToSnapshot id s = Ret s' /\ state_same s0 s' /\ state_ok s'.
Proof.
  intros [W A] (es & more & J & R & U). cbn. unfold st_RevertToSnapshot. rewrite R in *.
  pose proof (search_revision _ (mkRevision id (len (journal s0))) more _ A) as Hs. cbn [rev_id] in Hs. rewrite Hs. clear Hs.
  assert (Hi : index (validRevisions s0 ++ mkRevision id (len (journal s0)) :: more) (len (validRevisions s0)) = Ret (mkRevision id (len (journal s0)))).
  { apply index_ret; [|apply len_nonneg]. unfold len. rewrite Nat2Z.id, nth_error_app2, Nat.sub_diag by lia. reflexivity. }
  destruct (Z.eqb_spec (len (validRevisions s0)) (len (validRevisions s0 ++ mkRevision id (len (journal s0)) :: more))) as [E1|_].
  { rewrite len_app, len_cons in E1. pose proof (len_nonneg more). lia. }
  rewrite Hi. cbn [obind rev_id journalIndex]. rewrite Z.eqb_refl. cbn [negb].
  assert (Es : skipn (Z.to_nat (len (journal s0))) (journal s) = es).
  { rewrite J. unfold len. rewrite Nat2Z.id. apply drop_app_length. }
  rewrite Es. destruct (undo_all decodeAccount es s) as [t|] eqn:Eu; [|contradiction]. cbn [obind].
  assert (Hes : Forall entry_ok es) by (pose proof (wf_journal _ W) as Hj; rewrite J in Hj; apply Forall_app in Hj; apply Hj).
  destruct (undo_all_inv es s t W Hes Eu) as [Wt (Jt & Rt & Nt)].
  rewrite Jt, J, slice_prefix. cbn [obind]. rewrite Rt, R, slice_prefix. cbn [obind]. eexists. split; [reflexivity|]. split.
  - split; [|auto]. transitivity t; [symmetry; exact U|]. apply state_eq_fields; reflexivity.
  - split; [|cbn; rewrite Nt; apply ascending_app in A; apply A]. destruct Wt as [W1 W2]. split; [exact W1|]. cbn.
    rewrite Jt, J in W2. apply Forall_app in W2. apply W2.
Qed.

#[global] Instance state_SnapshotLaws : SnapshotLaws St := {
  db_ok := state_ok;
  same := state_same;
  undoes := state_undoes;
  same_equivalence := state_same_equivalence;
  ok_step := state_ok_step;
  read_same := state_read_same;
  undoes_snapshot := state_undoes_snapshot;
  undoes_step := state_undoes_step;
  undoes_same id s0 s s' _ _ := state_undoes_same id s0 s s';
  undoes_revert := state_undoes_revert }.

Lemma steps_ok s s' : steps s s' -> state_ok s -> state_ok s'.
Proof. intros [W _ R N] [_ A]. split; [exact W|]. rewrite R, N. exact A. Qed.

Lemma New_ok t : state_ok (New t).
Proof. split; [|exact I]. split; [intros a o H; discriminate H|constructor]. Qed.

(** ** Read-only mode *)

(** An account is the same, or it was missing and is now there without content. *)
Definition account_unchanged (a : Address) (o o' : option Obj) : Prop :=
  o ≡ o' \/ o = None /\ exists x, o' = Some x /\ x ≡ fresh a.

(** Everything but the preimages, and the accounts that are missing or empty. *)
Record state_unchanged (s s' : St) : Prop := {
  un_trie : trie s = trie s';
  un_live a : account_unchanged a (live s a) (live s' a);
  un_refund : refund s = refund s';
  un_logs h : GetLogs s h = GetLogs s' h }.

Lemma state_unchanged_preorder : PreOrder state_unchanged.
Proof.
  split.
  - intros s. split; try reflexivity. intros a. left. reflexivity.
  - intros s1 s2 s3 [A L R G] [A' L' R' G']. split; try congruence. intros a. specialize (L a). specialize (L' a).
    destruct L as [E1|(E1 & x & E2 & E3)], L' as [E4|(E4 & y & E5 & E6)].
    + left. rewrite E1. exact E4.
    + right. rewrite E4 in E1. split; [inversion E1; reflexivity|eauto].
    + right. split; [exact E1|]. rewrite E2 in E4. inversion E4 as [? z Hz Hz1 Hz2|]. exists z. split; [auto|]. rewrite <- Hz. exact E3.
    + congruence.
Qed.

Lemma eq_unchanged s s' : s ≡ s' -> state_unchanged s s'.
Proof. intros [A L R H B X G P]. split; auto. intros a. left. apply L. Qed.

(** The only difference is a new object. *)
Lemma put_fresh_unchanged s s' a : live s a = None -> s' ≡ setStateObject s (fresh a) -> state_unchanged s s'.
Proof.
  intros Hl [A L R H B X G P]. split; [symmetry; exact A| |symmetry; exact R|intros h; symmetry; apply G].
  intros b. specialize (L b). rewrite live_put in L. change (address (fresh a)) with a in L. case_decide as Eb.
  - subst b. right. split; [exact Hl|]. cbn in L. inversion L as [x y Hx E1 E2|]. exists x. auto.
  - left. symmetry. exact L.
Qed.

Lemma GetOrNew_unchanged s a : wf s -> state_unchanged s (snd (GetOrNewStateObject Keccak256 decodeAccount s a)).
Proof.
  intros W. unfold GetOrNewStateObject. pose proof (get_eq s a) as He. destruct (get_state s a) as (t & Eg & _). rewrite Eg in *.
  cbn [snd] in He. pose proof (wf_get s a W) as Wt. rewrite Eg in Wt. cbn [snd] in Wt.
  destruct (live s a) as [o|] eqn:El; [apply eq_unchanged; symmetry; exact He|].
  destruct (createObject_value t a) as (d & ->). cbn [snd]. destruct (createObject_state t a d Wt) as (_ & E' & _).
  apply (put_fresh_unchanged s _ a El). rewrite E', He. reflexivity.
Qed.

Lemma touch_eq t (o : Obj) : live t (address o) = Some o -> deleted o = false -> touch t o ≡ t.
Proof.
  intros Hl Hd. unfold touch. set (s1 := append_journal _ _). pose proof (fire_eq s1 o) as [F1 F2].
  destruct (fire s1 o) as [s2 o2]. cbn [fst snd] in *. rewrite F1. unfold s1. rewrite append_journal_eq.
  apply (put_same t o); auto. rewrite <- F2. apply object_eq_fields; reflexivity.
Qed.

Lemma AddZero_unchanged a s : wf s -> state_unchanged s (st_AddBalance Keccak256 decodeAccount a 0 s).
Proof.
  intros W. unfold st_AddBalance. pose proof (GetOrNew_unchanged s a W) as Hu. pose proof (GetOrNew_steps s a W) as Hs.
  destruct (GetOrNewStateObject _ _ s a) as [o t]. cbn [snd] in Hu. destruct Hs as (_ & Hl & Ha & Hd). cbn.
  destruct (empty_object _ o); [|exact Hu]. subst a. pose proof (touch_eq t o Hl Hd) as Ht.
  destruct state_unchanged_preorder as [_ Htr]. apply (Htr _ t); [exact Hu|]. apply eq_unchanged. symmetry. exact Ht.
Qed.

Lemma readonly_step s s' : dbstep true s s' -> wf s -> state_unchanged s s'.
Proof using Hsize.
  intros H W.
  assert (Hread : forall t t' : St, dbread t t' -> wf t -> state_unchanged t t').
  { intros t t' Hr Wt. apply eq_unchanged. symmetry. apply (dbread_eq _ _ Hr Wt). }
  destruct H as [s|h d s|a s Hx|a b v s Hv|a s E1|a n s E1|a c s E1|g s E1|a k v s E1|a b s E1|l s E1|s s' H];
    try discriminate E1; cbn.
  - apply eq_unchanged. symmetry. apply snapshot_eq.
  - unfold st_AddPreimage. destruct (_ !! h); [apply eq_unchanged; reflexivity|]. split; try reflexivity.
    intros a. left. erewrite (live_fields s _ a); reflexivity.
  - destruct (dbread_eq _ _ (dr_Exist a s) W) as (Wt & Et & _). change (fst (st_Exist decodeAccount a s)) with (fst (Exist a s)).
    set (t := fst (Exist a s)) in *. assert (El : live s a = None).
    { change (snd (Exist a s)) with (snd (st_Exist decodeAccount a s)) in Hx. unfold st_Exist, st_get, live in *.
      destruct (get s a) as [[o|] t']; [discriminate|reflexivity]. }
    assert (Elt : live t a = None) by (pose proof (eq_live _ _ Et a) as Hl; rewrite El in Hl; inversion Hl; reflexivity).
    unfold st_CreateAccount. destruct (createObject_value t a) as (d & ->). rewrite Elt.
    destruct (createObject_state t a d Wt) as (_ & E' & _). apply (put_fresh_unchanged s _ a El). rewrite E', Et. reflexivity.
  - rewrite (Hv eq_refl). assert (Hs : state_unchanged s (st_SubBalance Keccak256 decodeAccount a 0 s)).
    { unfold st_SubBalance. pose proof (GetOrNew_unchanged s a W) as Hu. destruct (GetOrNewStateObject _ _ s a). exact Hu. }
    destruct state_unchanged_preorder as [_ Htr]. apply (Htr _ _ _ Hs), AddZero_unchanged, (steps_wf _ _ (SubBalance_steps a 0 s W)).
  - apply (Hread _ _ H W).
Qed.

#[global] Instance state_ReadOnlyLaws : ReadOnlyLaws St := {
  unchanged := state_unchanged;
  unchanged_preorder := state_unchanged_preorder;
  same_unchanged s s' H := eq_unchanged s s' (proj1 H);
  readonly_unchanged s s' H Hok := readonly_step s s' H (proj1 Hok) }.

(** ** What the queries answer *)

(** Every query of the interface and of the logs has the same answer. *)
Record answers_same (s s' : St) : Prop := {
  same_GetBalance a : snd (GetBalance a s) = snd (GetBalance a s');
  same_GetNonce a : snd (GetNonce a s) = snd (GetNonce a s');
  same_GetCodeHash a : snd (GetCodeHash a s) = snd (GetCodeHash a s');
  same_GetCode a : snd (GetCode a s) = snd (GetCode a s');
  same_GetCodeSize a : snd (GetCodeSize a s) = snd (GetCodeSize a s');
  same_GetState a k : snd (GetState a k s) = snd (GetState a k s');
  same_HasSuicided a : snd (HasSuicided a s) = snd (HasSuicided a s');
  same_Exist a : snd (Exist a s) = snd (Exist a s');
  same_Empty a : snd (Empty a s) = snd (Empty a s');
  same_GetRefund : GetRefund s = GetRefund s';
  same_GetLogs h : GetLogs s h = GetLogs s' h;
  same_preimages : preimages s = preimages s' }.

Lemma st_get_value {A : Type} (d : A) g a s : snd (st_get decodeAccount d g a s) = match live s a with Some o => g o | None => d end.
Proof. unfold st_get, live. destruct (get s a) as [[o|] t]; reflexivity. Qed.

Lemma GetCode_value a s : snd (GetCode a s) = match live s a with Some o => fst (object_Code Keccak256 db o) | None => [] end.
Proof. cbn. unfold st_GetCode, live. destruct (get s a) as [[o|] t]; [|reflexivity]. cbn. destruct (object_Code _ _ o); reflexivity. Qed.

Lemma GetCodeSize_value a s : snd (GetCodeSize a s) = match live s a with Some o => code_size o | None => 0 end.
Proof.
  cbn. unfold st_GetCodeSize, live, code_size. destruct (get s a) as [[o|] t]; [|reflexivity]. cbn. destruct (code o); [|reflexivity].
  destruct (ContractCodeSize _ _ _) as [n [e|]]; reflexivity.
Qed.

Lemma GetState_value a k s : snd (GetState a k s) = match live s a with Some o => fst (object_GetState Keccak256 db o k) | None => 0 end.
Proof.
  cbn. unfold st_GetState, live. destruct (get s a) as [[o|] t]; [|reflexivity]. cbn. destruct (object_GetState _ _ o k); reflexivity.
Qed.

#[local] Instance empty_object_proper : Proper ((≡) ==> (=)) (empty_object (T := T) (E := E) Keccak256).
Proof. intros o o' H. unfold empty_object. rewrite (eq_data _ _ H). reflexivity. Qed.

Lemma eq_answers s s' : s ≡ s' -> answers_same s s'.
Proof.
  intros H. pose proof (eq_live _ _ H) as Hl. split; try apply H; intros a; try intros k;
    rewrite ?GetCode_value, ?GetCodeSize_value, ?GetState_value; cbn [GetBalance GetNonce GetCodeHash HasSuicided Exist Empty DB state_StateDB];
    unfold st_GetBalance, st_GetNonce, st_GetCodeHash, st_HasSuicided, st_Exist, st_Empty; rewrite ?st_get_value;
    destruct (Hl a) as [o o' Ho|]; try reflexivity;
    [rewrite (eq_data _ _ Ho)..|apply Ho|apply Ho|apply Ho|apply Ho|]; try reflexivity. rewrite Ho. reflexivity.
Qed.

(** What read-only mode protects: a missing account answers like an empty one. *)
Record content_same (s s' : St) : Prop := {
  content_GetBalance a : snd (GetBalance a s) = snd (GetBalance a s');
  content_GetNonce a : snd (GetNonce a s) = snd (GetNonce a s');
  content_GetCode a : snd (GetCode a s) = snd (GetCode a s');
  content_GetState a k : snd (GetState a k s) = snd (GetState a k s');
  content_HasSuicided a : snd (HasSuicided a s) = snd (HasSuicided a s');
  content_Empty a : snd (Empty a s) = snd (Empty a s');
  content_GetRefund : GetRefund s = GetRefund s';
  content_GetLogs h : GetLogs s h = GetLogs s' h }.

(** The storage trie of the zero root has no entries. *)
Hypothesis Hempty : forall a t k, OpenStorageTrie db a 0 = Ok t -> TryGet t k = Ok [].

Lemma fresh_storage a k : fst (object_GetState Keccak256 db (fresh a) k) = 0.
Proof using Hempty.
  rewrite object_GetState_value. change (cachedStorage (fresh a)) with (∅ : gmap Z Z). unfold Hash in *. rewrite lookup_empty.
  unfold trie_slot, getTrie. cbn. destruct (OpenStorageTrie db _ 0) as [t|e] eqn:Eo; cbn [fst]; [|reflexivity].
  rewrite (Hempty _ _ _ Eo). reflexivity.
Qed.

Lemma unchanged_content s s' : state_unchanged s s' -> content_same s s'.
Proof using Hempty.
  intros [A L R G]. split; try assumption; intros a; try intros k;
    rewrite ?GetCode_value, ?GetState_value; cbn [GetBalance GetNonce HasSuicided Empty DB state_StateDB];
    unfold st_GetBalance, st_GetNonce, st_HasSuicided, st_Empty; rewrite ?st_get_value;
    (destruct (L a) as [[o o' Ho|]|(-> & x & -> & Ho)]; [|reflexivity|]).
  all: try (rewrite (eq_data _ _ Ho); reflexivity); try (apply Ho; fail).
  - rewrite (eq_code _ _ Ho). cbn. rewrite Z.eqb_refl. reflexivity.
  - rewrite (eq_storage _ _ Ho), fresh_storage. reflexivity.
  - rewrite (eq_suicided _ _ Ho). reflexivity.
  - rewrite Ho. reflexivity.
  - rewrite Ho. unfold empty_object. cbn. rewrite Z.eqb_refl. reflexivity.
Qed.
End laws.
