(* ===== verification/StateSpec.v ===== *)
(** * Package [core/state]: what the methods do

    The state as a map from addresses to accounts, behind its caches and its
    journal: each setter changes one account the way its name says and nothing
    else, and the getters read what was set. *)

From stdpp Require Import base gmap.
From Stdlib Require Import ZArith List Lia Bool.
From S2P Require Import Prelude GoBig ByteBuf CommonTypes Rlp VmCommon VmContract VmMemory VmState VmEvolve VmLedger CoreState StateLaws VmSample.
Import ListNotations.
Local Open Scope Z_scope.

(** ** The specification *)

Record account : Type := mkView { v_balance : Z; v_nonce : Z; v_code : list Z; v_storage : Hash -> Hash; v_suicided : bool }.
Definition empty_account : account := mkView 0 0 [] (fun _ => 0) false.
Definition world : Type := Address -> account.

Definition account_eq (x y : account) : Prop :=
  v_balance x = v_balance y /\ v_nonce x = v_nonce y /\ v_code x = v_code y /\
  (forall k, v_storage x k = v_storage y k) /\ v_suicided x = v_suicided y.
Definition world_eq (w w' : world) : Prop := forall a, account_eq (w a) (w' a).

#[export] Instance account_equivalence : Equivalence account_eq.
Proof.
  split; unfold account_eq.
  - intros x. auto.
  - intros x y (A & B & C & D & F). auto.
  - intros x y z (A & B & C & D & F) (A' & B' & C' & D' & F'). repeat split; congruence.
Qed.

(** Change one account of a world. *)
Definition at_account (a : Address) (f : account -> account) (w : world) : world := fun b => if a =? b then f (w b) else w b.

Definition add_balance (v : Z) (x : account) : account := mkView (v_balance x + v) (v_nonce x) (v_code x) (v_storage x) (v_suicided x).
Definition set_nonce (n : Z) (x : account) : account := mkView (v_balance x) n (v_code x) (v_storage x) (v_suicided x).
Definition set_account_code (c : list Z) (x : account) : account := mkView (v_balance x) (v_nonce x) c (v_storage x) (v_suicided x).
Definition set_slot (k v : Hash) (x : account) : account :=
  mkView (v_balance x) (v_nonce x) (v_code x) (fun j => if k =? j then v else v_storage x j) (v_suicided x).
Definition destroy (x : account) : account := mkView 0 (v_nonce x) (v_code x) (v_storage x) true.
(** A new account starts empty but for the balance. *)
Definition recreate (x : account) : account := add_balance (v_balance x) empty_account.

Section spec.
Context {T E : Type} {HT : Trie T E}.
Variable Keccak256 : list Z -> list Z.
Variable db : Database T E.
Variable decodeAccount : list Z -> option Account.
Abbreviation St := (@State T E).
Abbreviation Obj := (@stateObject T E).
Abbreviation get := (getStateObject decodeAccount).
Abbreviation alive := (live decodeAccount).

#[local] Instance DBi : StateDB St := state_StateDB Keccak256 db decodeAccount.
#[local] Instance obj_equiv : Equiv Obj := object_equiv Keccak256 db.
#[local] Instance obj_equivalence : Equivalence (≡@{Obj}) := object_equivalence Keccak256 db.
#[local] Instance st_equiv : Equiv St := state_equiv Keccak256 db decodeAccount.
#[local] Instance st_equivalence : Equivalence (≡@{St}) := state_equivalence Keccak256 db decodeAccount.
#[local] Instance st_put_proper : Proper ((≡) ==> (≡) ==> (≡)) (@setStateObject T E) := put_proper Keccak256 db decodeAccount.
#[local] Instance st_put_dirty_proper : Proper ((≡) ==> (≡) ==> (≡)) (@put_dirty T E) := put_dirty_proper Keccak256 db decodeAccount.

(** ** Each setter replaces one object *)

(** The object of an address, a fresh one when there is none. *)
Definition object_at (s : St) (a : Address) : Obj := match alive s a with Some o => o | None => fresh Keccak256 a end.

Lemma object_at_ok s a : wf decodeAccount s -> address (object_at s a) = a /\ deleted (object_at s a) = false.
Proof.
  intros W. unfold object_at. pose proof (wf_live decodeAccount s a) as H. destruct (alive s a) as [o|]; [apply (H o W eq_refl)|auto].
Qed.

Lemma GetOrNew_eq s a : wf decodeAccount s -> let '(o, t) := GetOrNewStateObject Keccak256 decodeAccount s a in
  o = object_at s a /\ setStateObject t o ≡ setStateObject s o.
Proof.
  intros W. unfold GetOrNewStateObject, object_at. pose proof (get_eq Keccak256 db decodeAccount s a) as He.
  destruct (get_state decodeAccount s a) as (t & Eg & _). rewrite Eg in *. cbn [snd] in He.
  pose proof (wf_get decodeAccount s a W) as Wt. rewrite Eg in Wt. cbn [snd] in Wt.
  destruct (alive s a) as [o|] eqn:El; [split; [reflexivity|rewrite He; reflexivity]|].
  destruct (createObject_value Keccak256 decodeAccount t a) as (d & ->). cbn [fst snd].
  destruct (createObject_state Keccak256 db decodeAccount t a d Wt) as (_ & E' & _). split; [reflexivity|].
  rewrite E', put_put, He by reflexivity. reflexivity.
Qed.

(** A method that puts an object after [GetOrNewStateObject] replaces the object of the address. *)
Lemma with_object_eq s a (k : Obj -> St -> St) (f : Obj -> Obj) : wf decodeAccount s ->
  (forall o t, alive t a = Some o -> address o = a -> deleted o = false -> k o t ≡ setStateObject t (f o) /\ address (f o) = a) ->
  (let '(o, t) := GetOrNewStateObject Keccak256 decodeAccount s a in k o t) ≡ setStateObject s (f (object_at s a)).
Proof.
  intros W Hk. pose proof (GetOrNew_eq s a W) as H. pose proof (GetOrNew_steps Keccak256 db decodeAccount s a W) as H'.
  destruct (GetOrNewStateObject _ _ s a) as [o t]. destruct H as [-> Ht]. destruct H' as (_ & Hl & Ha & Hd).
  destruct (Hk (object_at s a) t Hl Ha Hd) as [H1 H2]. rewrite H1.
  rewrite <- (put_put Keccak256 db decodeAccount t (object_at s a)), Ht, put_put by congruence. reflexivity.
Qed.

Lemma append_put_eq s e (o : Obj) : put_dirty (append_journal s e) o ≡ setStateObject s o.
Proof.
  change (state_eq Keccak256 db decodeAccount (put_dirty (append_journal s e) o) (setStateObject s o)).
  rewrite (put_dirty_eq Keccak256 db decodeAccount). apply st_put_proper; [apply append_journal_eq|reflexivity].
Qed.

(** Putting an object back, up to its caches, changes nothing. *)
Lemma put_back t a (o o' : Obj) : alive t a = Some o -> address o = a -> deleted o = false -> o' ≡ o -> t ≡ setStateObject t o'.
Proof. intros Hl Ha Hd Ho. symmetry. apply (put_same Keccak256 db decodeAccount t o); [rewrite Ha|..]; assumption. Qed.

Lemma with_balance_id (o : Obj) : with_balance o (acc_Balance (data o)) ≡ o.
Proof. apply object_eq_fields; try reflexivity. cbn. destruct (data o); reflexivity. Qed.

Lemma SetNonce_eq a n s : wf decodeAccount s -> SetNonce a n s ≡ setStateObject s (with_nonce (object_at s a) n).
Proof.
  intros W. apply (with_object_eq s a (fun o t => setNonce (append_journal t (nonceChange (address o) (Nonce (data o)))) o n) (fun o => with_nonce o n) W).
  intros o t _ Ha _. split; [apply append_put_eq|exact Ha].
Qed.

Lemma SubBalance_eq a v s : wf decodeAccount s ->
  SubBalance a v s ≡ setStateObject s (with_balance (object_at s a) (acc_Balance (data (object_at s a)) - v)).
Proof.
  intros W. apply (with_object_eq s a (fun o t => if Sign v =? 0 then t else SetBalance t o (acc_Balance (data o) - v))
                    (fun o => with_balance o (acc_Balance (data o) - v)) W).
  intros o t Hl Ha Hd. split; [|exact Ha]. destruct (Z.eqb_spec (Sign v) 0) as [Ev|Nv]; [|apply append_put_eq].
  apply (put_back t a o); auto. assert (v = 0) as -> by (unfold Sign in Ev; lia). rewrite Z.sub_0_r. apply with_balance_id.
Qed.

Lemma AddBalance_eq a v s : wf decodeAccount s ->
  AddBalance a v s ≡ setStateObject s (with_balance (object_at s a) (acc_Balance (data (object_at s a)) + v)).
Proof.
  intros W. apply (with_object_eq s a (fun o t => if Sign v =? 0 then if empty_object Keccak256 o then touch t o else t
                                                 else SetBalance t o (acc_Balance (data o) + v))
                    (fun o => with_balance o (acc_Balance (data o) + v)) W).
  intros o t Hl Ha Hd. split; [|exact Ha]. destruct (Z.eqb_spec (Sign v) 0) as [Ev|Nv]; [|apply append_put_eq].
  assert (v = 0) as -> by (unfold Sign in Ev; lia). rewrite Z.add_0_r.
  assert (Ht : (if empty_object Keccak256 o then touch t o else t) ≡ t).
  { destruct (empty_object _ _); [|reflexivity]. apply touch_eq; [rewrite Ha|]; assumption. }
  rewrite Ht. apply (put_back t a o); auto. apply with_balance_id.
Qed.

Lemma SetState_eq a k v s : wf decodeAccount s -> SetState a k v s ≡ setStateObject s (with_slot (object_at s a) k v).
Proof.
  intros W. apply (with_object_eq s a (fun o t => let '(prevalue, o) := object_GetState Keccak256 db o k in
    setState (append_journal t (storageChange (address o) k prevalue)) o k v) (fun o => with_slot o k v) W).
  intros o t _ Ha _. split; [|exact Ha]. pose proof (object_GetState_eq Keccak256 db o k) as Ho. destruct (object_GetState _ _ o k) as [p o1].
  cbn [snd] in Ho. change (setState ?x o1 k v) with (put_dirty x (with_slot o1 k v)). rewrite append_put_eq.
  apply st_put_proper; [reflexivity|]. apply with_slot_proper; auto.
Qed.

(** The database gives the size of the code it stores. *)
Hypothesis Hsize : forall a h, fst (ContractCodeSize db a h) = len (fst (ContractCode db a h)).

Lemma SetCode_eq a c s : wf decodeAccount s ->
  db_SetCode a c s ≡ setStateObject s (with_code (object_at s a) (BytesToHash (Keccak256 c)) c).
Proof using Hsize.
  intros W. apply (with_object_eq s a (fun o t => let '(prevcode, o) := object_Code Keccak256 db o in
    setCode (append_journal t (codeChange (address o) prevcode (acc_CodeHash (data o)))) o (BytesToHash (Keccak256 c)) c)
    (fun o => with_code o (BytesToHash (Keccak256 c)) c) W).
  intros o t _ Ha _. split; [|exact Ha]. pose proof (object_Code_eq Keccak256 db Hsize o) as Ho. destruct (object_Code _ _ o) as [p o1].
  cbn [snd] in Ho. change (setCode ?x o1 ?h c) with (put_dirty x (with_code o1 h c)). rewrite append_put_eq.
  apply st_put_proper; [reflexivity|]. apply with_code_proper; auto.
Qed.

(** A new account keeps the balance of the old one. *)
Lemma CreateAccount_eq a s : wf decodeAccount s ->
  CreateAccount a s ≡ setStateObject s (with_balance (fresh Keccak256 a) (acc_Balance (data (object_at s a)))).
Proof.
  intros W. cbn. unfold st_CreateAccount, object_at. destruct (createObject_value Keccak256 decodeAccount s a) as (d & ->).
  destruct (createObject_state Keccak256 db decodeAccount s a d W) as (_ & E' & _). set (s' := setStateObject _ _) in *.
  destruct (alive s a) as [p|].
  - change (put_dirty s' (with_balance (fresh Keccak256 a) (acc_Balance (data p))) ≡ setStateObject s (with_balance (fresh Keccak256 a) (acc_Balance (data p)))).
    rewrite (put_dirty_eq Keccak256 db decodeAccount), E', put_put; reflexivity.
  - rewrite E'. apply st_put_proper; [reflexivity|]. symmetry. apply with_balance_id.
Qed.

Lemma Suicide_eq a s : wf decodeAccount s ->
  fst (Suicide a s) ≡ match alive s a with Some o => setStateObject s (with_balance (with_suicided o true) 0) | None => s end.
Proof.
  intros W. cbn. unfold st_Suicide. pose proof (get_eq Keccak256 db decodeAccount s a) as He.
  destruct (get_state decodeAccount s a) as (t & Eg & _). rewrite Eg in *. cbn [snd] in He.
  destruct (alive s a) as [o|]; [|exact He]. set (t1 := append_journal _ _).
  destruct (fire_eq Keccak256 db decodeAccount t1 (with_suicided o true)) as [F1 F2].
  change (fire t1 (set_flags o true (touched o) (deleted o) (onDirty o))) with (fire t1 (with_suicided o true)).
  destruct (fire t1 (with_suicided o true)) as [t2 o2]. cbn [fst snd] in *. change (set_data o2 _) with (with_balance o2 0).
  apply st_put_proper; [|apply with_balance_proper; auto]. etransitivity; [exact F1|]. unfold t1.
  etransitivity; [apply append_journal_eq|exact He].
Qed.

(** [SetNonce] of equivalent states. *)
Lemma SetNonce_proper a n s s' : wf decodeAccount s -> wf decodeAccount s' -> s ≡ s' -> SetNonce a n s ≡ SetNonce a n s'.
Proof.
  intros W W' Hs. rewrite (SetNonce_eq a n s W), (SetNonce_eq a n s' W').
  apply st_put_proper; [exact Hs|]. apply with_nonce_proper; [|reflexivity]. unfold object_at.
  destruct (eq_live _ _ _ _ _ Hs a) as [o o' Ho|]; [exact Ho|reflexivity].
Qed.

(** The state in which [Create] takes its snapshot. *)
Lemma create_begun_eq a s s1 : create_begun a s s1 -> state_ok decodeAccount s ->
  (s1 ≡ s \/ s1 ≡ SetNonce a (u64 (snd (GetNonce a s) + 1)) s) /\ state_ok decodeAccount s1.
Proof using Hsize.
  pose (L := state_SnapshotLaws Keccak256 db decodeAccount Hsize).
  intros [H|(s0 & H1 & H2)] Hok.
  - destruct (dbreads_same (L := L) _ _ H Hok) as [(E1 & _) Hok1]. split; [left; symmetry; exact E1|exact Hok1].
  - destruct (dbreads_same (L := L) _ _ H1 Hok) as [(E1 & _) Hok0].
    assert (Hr : dbread s0 (fst (GetNonce a s0))) by constructor.
    destruct (dbreads_same (L := L) _ _ (dbreads_one _ _ Hr) Hok0) as [(E2 & _) Hok1].
    assert (Hn : snd (GetNonce a s0) = snd (GetNonce a s)) by (symmetry; apply (same_GetNonce _ _ _ _ _ (eq_answers _ _ _ _ _ E1))).
    rewrite Hn in H2. set (n := u64 _) in *. pose proof (SetNonce_steps Keccak256 db decodeAccount a n _ (proj1 Hok1)) as Hs.
    destruct (dbreads_same (L := L) _ _ H2 (steps_ok _ _ _ _ _ Hs Hok1)) as [(E3 & _) Hok3].
    split; [right|exact Hok3]. etransitivity; [symmetry; exact E3|].
    apply SetNonce_proper; [apply Hok1|apply Hok|]. etransitivity; [symmetry; exact E2|symmetry; exact E1].
Qed.

(** ** The abstract state *)

(** The storage trie of the zero root has no entries. *)
Hypothesis Hempty : forall a t k, OpenStorageTrie db a 0 = Ok t -> TryGet t k = Ok [].

(** What the queries say of an account. *)
Definition view (s : St) : world := fun a =>
  mkView (snd (GetBalance a s)) (snd (GetNonce a s)) (snd (GetCode a s)) (fun k => snd (GetState a k s)) (snd (HasSuicided a s)).

Definition object_view (o : Obj) : account :=
  mkView (acc_Balance (data o)) (Nonce (data o)) (fst (object_Code Keccak256 db o)) (fun k => fst (object_GetState Keccak256 db o k)) (suicided o).

Lemma object_view_eq (o o' : Obj) : o ≡ o' -> account_eq (object_view o) (object_view o').
Proof. intros [A D C N G S X]. unfold account_eq, object_view. cbn. rewrite D. auto. Qed.

Lemma view_alive s a : account_eq (view s a) (match alive s a with Some o => object_view o | None => empty_account end).
Proof.
  assert (Hc : snd (GetCode a s) = match alive s a with Some o => fst (object_Code Keccak256 db o) | None => [] end) by apply GetCode_value.
  assert (Hs : forall k, snd (GetState a k s) = match alive s a with Some o => fst (object_GetState Keccak256 db o k) | None => 0 end) by (intros k; apply (GetState_value Keccak256 db decodeAccount a k s)).
  unfold view, account_eq. cbn [v_balance v_nonce v_code v_storage v_suicided]. rewrite Hc.
  cbn [GetBalance GetNonce HasSuicided DBi state_StateDB]. unfold st_GetBalance, st_GetNonce, st_HasSuicided. rewrite !st_get_value.
  destruct (alive s a); cbn; auto.
Qed.

Lemma fresh_view a : account_eq (object_view (fresh Keccak256 a)) empty_account.
Proof using Hempty.
  unfold account_eq, object_view. cbn [v_balance v_nonce v_code v_storage v_suicided empty_account]. repeat split.
  - cbn. rewrite Z.eqb_refl. reflexivity.
  - intros k. apply (fresh_storage _ _ Hempty).
Qed.

Lemma object_at_view s a : account_eq (object_view (object_at s a)) (view s a).
Proof using Hempty.
  etransitivity; [|symmetry; apply view_alive]. unfold object_at. destruct (alive s a); [reflexivity|apply fresh_view].
Qed.

Lemma eq_view s s' : s ≡ s' -> world_eq (view s) (view s').
Proof.
  intros Hs a. etransitivity; [apply view_alive|]. etransitivity; [|symmetry; apply view_alive].
  destruct (eq_live _ _ _ _ _ Hs a) as [x y Hx|]; [|reflexivity]. apply object_view_eq. exact Hx.
Qed.

(** Replacing an object replaces the account. *)
Lemma put_view s s' (o : Obj) w : s' ≡ setStateObject s o -> deleted o = false -> account_eq (object_view o) w ->
  world_eq (view s') (at_account (address o) (fun _ => w) (view s)).
Proof.
  intros Hs Hd Hw b. unfold at_account. etransitivity; [apply view_alive|]. pose proof (eq_live _ _ _ _ _ Hs b) as Hl.
  rewrite live_put in Hl. destruct (Z.eqb_spec (address o) b) as [Eb|Nb].
  - rewrite decide_True, Hd in Hl by exact Eb. inversion Hl as [x y Hx E1 E2|]. etransitivity; [|exact Hw]. apply object_view_eq. exact Hx.
  - rewrite decide_False in Hl by exact Nb. etransitivity; [|symmetry; apply view_alive]. inversion Hl as [x y Hx E1 E2|E1 E2]; [|reflexivity].
    apply object_view_eq. exact Hx.
Qed.

(** Views of changed objects. *)
Lemma view_with_balance (o : Obj) v x : account_eq (object_view o) x ->
  account_eq (object_view (with_balance o (acc_Balance (data o) + v))) (add_balance v x).
Proof.
  intros (A & B & C & D & F). unfold account_eq, object_view in *. cbn [v_balance v_nonce v_code v_storage v_suicided add_balance] in *.
  set (d := mkAccount (Nonce (data o)) (acc_Balance (data o) + v) (Root (data o)) (acc_CodeHash (data o))).
  change (with_balance o (acc_Balance (data o) + v)) with (set_data o d).
  rewrite (proj1 (set_data_code Keccak256 db o d eq_refl)), <- A. repeat split; auto.
  intros k. rewrite (set_data_storage Keccak256 db o d k eq_refl). apply D.
Qed.

Lemma view_with_nonce (o : Obj) n x : account_eq (object_view o) x -> account_eq (object_view (with_nonce o n)) (set_nonce n x).
Proof.
  intros (A & B & C & D & F). unfold account_eq, object_view in *. cbn [v_balance v_nonce v_code v_storage v_suicided set_nonce] in *.
  set (d := mkAccount n (acc_Balance (data o)) (Root (data o)) (acc_CodeHash (data o))). change (with_nonce o n) with (set_data o d).
  rewrite (proj1 (set_data_code Keccak256 db o d eq_refl)). repeat split; auto.
  intros k. rewrite (set_data_storage Keccak256 db o d k eq_refl). apply D.
Qed.

Lemma view_with_slot (o : Obj) k v x : account_eq (object_view o) x -> account_eq (object_view (with_slot o k v)) (set_slot k v x).
Proof.
  intros (A & B & C & D & F). unfold account_eq, object_view in *. cbn [v_balance v_nonce v_code v_storage v_suicided set_slot] in *.
  rewrite (object_Code_fields Keccak256 db o (with_slot o k v)) by reflexivity. repeat split; auto.
  intros j. rewrite with_slot_storage, <- D. destruct (Z.eqb_spec k j) as [->|N]; [rewrite decide_True | rewrite decide_False]; auto.
Qed.

Lemma view_with_code (o : Obj) c x : account_eq (object_view o) x ->
  account_eq (object_view (with_code o (BytesToHash (Keccak256 c)) c)) (set_account_code c x).
Proof.
  intros (A & B & C & D & F). unfold account_eq, object_view in *. cbn [v_balance v_nonce v_code v_storage v_suicided set_account_code] in *.
  repeat split; auto.
  - unfold object_Code, with_code. cbn [code set_code data set_data acc_CodeHash]. destruct c; [|reflexivity].
    unfold emptyCode. rewrite Z.eqb_refl. reflexivity.
  - intros k. rewrite <- D, !object_GetState_value. cbn [with_code set_code set_data cachedStorage].
    rewrite (trie_slot_proper Keccak256 db o (with_code _ _ _)) by reflexivity. reflexivity.
Qed.

Lemma view_suicided (o : Obj) x : account_eq (object_view o) x -> account_eq (object_view (with_balance (with_suicided o true) 0)) (destroy x).
Proof.
  intros (A & B & C & D & F). unfold account_eq, object_view in *. cbn [v_balance v_nonce v_code v_storage v_suicided destroy] in *.
  rewrite (object_Code_fields Keccak256 db o (with_balance (with_suicided o true) 0)) by reflexivity. repeat split; auto.
  intros k. rewrite <- D, !object_GetState_value. cbn [with_balance with_suicided set_flags set_data cachedStorage].
  rewrite (trie_slot_proper Keccak256 db o (with_balance _ _)) by reflexivity. reflexivity.
Qed.

(** A setter that replaces the object of an address by [f] of it. *)
Lemma setter_view s s' a (f : Obj -> Obj) (g : account -> account) : wf decodeAccount s -> s' ≡ setStateObject s (f (object_at s a)) ->
  (forall o, address (f o) = address o /\ deleted (f o) = deleted o) ->
  (forall o x, account_eq (object_view o) x -> account_eq (object_view (f o)) (g x)) ->
  world_eq (view s') (at_account a g (view s)).
Proof.
  intros W Hs Hf Hg b. destruct (object_at_ok s a W) as [Ha Hd]. destruct (Hf (object_at s a)) as [Fa Fd].
  pose proof (put_view s s' _ _ Hs ltac:(congruence) (Hg _ _ (object_at_view s a)) b) as H. rewrite Fa, Ha in H.
  unfold at_account in *. destruct (Z.eqb_spec a b) as [->|]; exact H.
Qed.

Lemma AddBalance_view a v s : wf decodeAccount s -> world_eq (view (AddBalance a v s)) (at_account a (add_balance v) (view s)).
Proof using Hempty.
  intros W. apply (setter_view s _ a (fun o => with_balance o (acc_Balance (data o) + v))); [exact W|apply AddBalance_eq, W|auto|].
  intros o x. apply view_with_balance.
Qed.

Lemma SubBalance_view a v s : wf decodeAccount s -> world_eq (view (SubBalance a v s)) (at_account a (add_balance (- v)) (view s)).
Proof using Hempty.
  intros W. apply (setter_view s _ a (fun o => with_balance o (acc_Balance (data o) - v))); [exact W|apply SubBalance_eq, W|auto|].
  intros o x. apply (view_with_balance o (- v)).
Qed.

Lemma SetNonce_view a n s : wf decodeAccount s -> world_eq (view (SetNonce a n s)) (at_account a (set_nonce n) (view s)).
Proof using Hempty.
  intros W. apply (setter_view s _ a (fun o => with_nonce o n)); [exact W|apply SetNonce_eq, W|auto|].
  intros o x. apply view_with_nonce.
Qed.

Lemma SetCode_view a c s : wf decodeAccount s -> world_eq (view (db_SetCode a c s)) (at_account a (set_account_code c) (view s)).
Proof using Hempty Hsize.
  intros W. apply (setter_view s _ a (fun o => with_code o (BytesToHash (Keccak256 c)) c)); [exact W|apply SetCode_eq, W|auto|].
  intros o x. apply view_with_code.
Qed.

Lemma SetState_view a k v s : wf decodeAccount s -> world_eq (view (SetState a k v s)) (at_account a (set_slot k v) (view s)).
Proof using Hempty.
  intros W. apply (setter_view s _ a (fun o => with_slot o k v)); [exact W|apply SetState_eq, W|auto|].
  intros o x. apply view_with_slot.
Qed.

Lemma CreateAccount_view a s : wf decodeAccount s -> world_eq (view (CreateAccount a s)) (at_account a recreate (view s)).
Proof using Hempty Hsize.
  intros W b. destruct (object_at_ok s a W) as [Ha _].
  assert (Hb : acc_Balance (data (object_at s a)) = v_balance (view s a)) by apply (object_at_view s a).
  pose proof (CreateAccount_eq a s W) as Hs. rewrite Hb in Hs.
  pose proof (put_view s _ _ _ Hs eq_refl (view_with_balance (fresh Keccak256 a) (v_balance (view s a)) _ (fresh_view a)) b) as H.
  change (address (with_balance (fresh Keccak256 a) _)) with a in H. unfold at_account in *.
  destruct (Z.eqb_spec a b) as [->|]; exact H.
Qed.

Lemma Suicide_result a s : snd (Suicide a s) = match alive s a with Some _ => true | None => false end.
Proof. cbn. unfold st_Suicide, live. destruct (get s a) as [[o|] t]; [|reflexivity]. cbn. destruct (fire _ _). reflexivity. Qed.

Lemma Suicide_view a s : wf decodeAccount s ->
  world_eq (view (fst (Suicide a s))) (if snd (Suicide a s) then at_account a destroy (view s) else view s).
Proof using Hempty Hsize.
  intros W. pose proof (Suicide_eq a s W) as Hs. pose proof (wf_live decodeAccount s a) as Hw.
  rewrite Suicide_result. pose proof (view_alive s a) as Hv. destruct (alive s a) as [o|]; cbn [negb].
  - destruct (Hw o W eq_refl) as [Ha Hd]. intros b.
    pose proof (put_view s _ _ _ Hs Hd (view_suicided o (view s a) ltac:(symmetry; exact Hv)) b) as H.
    change (address (with_balance (with_suicided o true) 0)) with (address o) in H. rewrite Ha in H.
    unfold at_account in *. destruct (Z.eqb_spec a b) as [->|]; exact H.
  - apply eq_view, Hs.
Qed.
End spec.

(** ** Theorems *)

Section theorems.
Context {T E : Type} {HT : Trie T E}.
Variable Keccak256 : list Z -> list Z.
Variable db : Database T E.
Variable decodeAccount : list Z -> option Account.
#[local] Instance DBt : StateDB (@State T E) := state_StateDB Keccak256 db decodeAccount.
Let world_of : @State T E -> world := view Keccak256 db decodeAccount.

(** C11: Refinement: behind its caches, tries and journal, the state database is a map from addresses to accounts:
    AddBalance, SubBalance, SetNonce, SetCode, SetState, CreateAccount and Suicide each change what the queries say of
    the one account by the one field, creating it when missing, and leave every other account and field. *)
Theorem state_implements_world s a :
  (forall a h, fst (ContractCodeSize db a h) = len (fst (ContractCode db a h))) ->
  (forall a t k, OpenStorageTrie db a 0 = Ok t -> TryGet t k = Ok []) -> state_ok decodeAccount s ->
  (forall v, world_eq (world_of (AddBalance a v s)) (at_account a (add_balance v) (world_of s))) /\
  (forall v, world_eq (world_of (SubBalance a v s)) (at_account a (add_balance (- v)) (world_of s))) /\
  (forall n, world_eq (world_of (SetNonce a n s)) (at_account a (set_nonce n) (world_of s))) /\
  (forall c, world_eq (world_of (db_SetCode a c s)) (at_account a (set_account_code c) (world_of s))) /\
  (forall k v, world_eq (world_of (SetState a k v s)) (at_account a (set_slot k v) (world_of s))) /\
  world_eq (world_of (CreateAccount a s)) (at_account a recreate (world_of s)) /\
  world_eq (world_of (fst (Suicide a s))) (if snd (Suicide a s) then at_account a destroy (world_of s) else world_of s).
Proof.
  intros Hsize Hempty [W _]. split; [|split; [|split; [|split; [|split; [|split]]]]]; intros.
  - apply AddBalance_view; assumption.
  - apply SubBalance_view; assumption.
  - apply SetNonce_view; assumption.
  - apply SetCode_view; assumption.
  - apply SetState_view; assumption.
  - apply CreateAccount_view; assumption.
  - apply Suicide_view; assumption.
Qed.


End theorems.

(** ** The example state *)

Lemma sample_sizes a h : fst (ContractCodeSize Sample.no_database a h) = len (fst (ContractCode Sample.no_database a h)).
Proof. reflexivity. Qed.

Lemma sample_empty_root a t k : OpenStorageTrie Sample.no_database a 0 = Ok t -> TryGet t k = Ok [].
Proof. reflexivity. Qed.

Lemma sample_ok code : state_ok (fun _ => None) (Sample.state_with code).
Proof.
  assert (H1 : state_ok (fun _ => None) (AddBalance 1 1000 (New tt : Sample.sample_state))).
  { apply (steps_ok Sample.hash Sample.no_database (fun _ => None) (New tt)); [|apply New_ok]. apply AddBalance_steps, New_ok. }
  apply (steps_ok Sample.hash Sample.no_database (fun _ => None) (AddBalance 1 1000 (New tt : Sample.sample_state))); [|exact H1].
  apply SetCode_steps; [exact sample_sizes|apply H1].
Qed.

Lemma state_implements_world_witness :
  world_eq (view Sample.hash Sample.no_database (fun _ => None) (AddBalance 1 5 (Sample.state_with Sample.add_code)))
    (at_account 1 (add_balance 5) (view Sample.hash Sample.no_database (fun _ => None) (Sample.state_with Sample.add_code))).
Proof.
  exact (proj1 (state_implements_world Sample.hash Sample.no_database (fun _ => None) (Sample.state_with Sample.add_code) 1
    sample_sizes sample_empty_root (sample_ok Sample.add_code)) 5).
Defined.

