(* ===== verification/StateLedger.v ===== *)
(** * Package [core/state]: balances and code under the machine

    The changes the machine makes to the state, as changes of the map from
    addresses to accounts: an amount is moved only from a sender that has it, and
    Ether is never created.  These discharge the laws of [VmLedger.v]. *)

From stdpp Require Import base gmap.
From Stdlib Require Import ZArith List Lia Bool.
From S2P Require Import Prelude GoBig CommonTypes VmCommon VmContract VmMemory VmState VmEvolve VmLedger CoreState StateLaws StateSpec.
Import ListNotations.
Local Open Scope Z_scope.

(** ** Changes of the abstract state *)

Inductive wstep : world -> world -> Prop :=
| w_same w w' : world_eq w w' -> wstep w w'
| w_create w w' a : world_eq w' (at_account a recreate w) -> wstep w w'
| w_nonce w w' a n : world_eq w' (at_account a (set_nonce n) w) -> wstep w w'
| w_code w w' a c : slice_ok c -> world_eq w' (at_account a (set_account_code c) w) -> wstep w w'
| w_slot w w' a k v : world_eq w' (at_account a (set_slot k v) w) -> wstep w w'
| w_move w w' a b v : 0 <= v <= v_balance (w a) ->
    world_eq w' (at_account b (add_balance v) (at_account a (add_balance (- v)) w)) -> wstep w w'
| w_destroy w w' a b : world_eq w' (at_account a destroy (at_account b (add_balance (v_balance (w a))) w)) -> wstep w w'.

(** Accounts with Ether that is not negative and code that fits in memory. *)
Definition world_ok (w : world) : Prop := forall a, 0 <= v_balance (w a) /\ slice_ok (v_code (w a)).

Lemma world_ok_eq w w' : world_eq w w' -> world_ok w -> world_ok w'.
Proof. intros H Hw a. destruct (H a) as (A & _ & C & _). rewrite <- A, <- C. apply Hw. Qed.

Lemma wstep_ok w w' : wstep w w' -> world_ok w -> world_ok w'.
Proof.
  intros H Hw. assert (Hnil : slice_ok []) by (split; [constructor|reflexivity]).
  destruct H as [w w' H|w w' a H|w w' a n H|w w' a c Hc H|w w' a k v H|w w' a b v Hv H|w w' a b H]; intros x; destruct (H x) as (A & _ & C & _).
  1: rewrite <- A, <- C; apply Hw.
  all: rewrite A, C; unfold at_account; pose proof (Hw x) as [Hx1 Hx2].
  1, 2, 3, 4: destruct (Z.eqb_spec a x) as [->|N]; cbn; auto; lia.
  - destruct (Z.eqb_spec b x) as [->|Nb], (Z.eqb_spec a x) as [->|Na]; cbn; (split; [lia|exact Hx2]).
  - destruct (Z.eqb_spec a x) as [->|Na], (Z.eqb_spec b x) as [->|Nb]; cbn; try (split; [lia|exact Hx2]).
    all: pose proof (proj1 (Hw a)); split; [lia|exact Hx2].
Qed.

(** ** Ether *)

(** The Ether of the accounts [A]. *)
Definition supply (A : list Address) (w : world) : Z := fold_right (fun a n => v_balance (w a) + n) 0 A.

Lemma supply_cons x A w : supply (x :: A) w = v_balance (w x) + supply A w.
Proof. reflexivity. Qed.

Lemma supply_eq A w w' : world_eq w w' -> supply A w = supply A w'.
Proof. intros H. induction A as [|a A IH]; [reflexivity|]. rewrite !supply_cons, IH, (proj1 (H a)). reflexivity. Qed.

Lemma supply_at A a f w : NoDup A -> In a A -> supply A (at_account a f w) = supply A w + v_balance (f (w a)) - v_balance (w a).
Proof.
  induction 1 as [|x A Hx HA IH]; intros Hin; [destruct Hin|]. rewrite !supply_cons.
  destruct (Z.eq_dec a x) as [->|N].
  - assert (E : supply A (at_account x f w) = supply A w).
    { clear -Hx. induction A as [|y A IH]; [reflexivity|].
      rewrite !supply_cons, IH by (intros H; apply Hx; right; exact H). unfold at_account.
      destruct (Z.eqb_spec x y) as [->|]; [destruct Hx; left; reflexivity|reflexivity]. }
    rewrite E. unfold at_account at 1. rewrite Z.eqb_refl. lia.
  - destruct Hin as [<-|Hin]; [congruence|]. rewrite (IH Hin). unfold at_account at 1. destruct (Z.eqb_spec a x); [congruence|]. lia.
Qed.

Lemma at_value a f w : at_account a f w a = f (w a).
Proof. unfold at_account. rewrite Z.eqb_refl. reflexivity. Qed.

(** Accounts that only change in other fields. *)
Lemma supply_kept A a f w : (forall x, v_balance (f x) = v_balance x) -> supply A (at_account a f w) = supply A w.
Proof.
  intros H. induction A as [|x A IH]; [reflexivity|]. rewrite !supply_cons, IH.
  unfold at_account at 1. destruct (a =? x); rewrite ?H; reflexivity.
Qed.

Lemma wstep_supply w w' : wstep w w' -> world_ok w -> exists B, forall A, NoDup A -> incl B A -> supply A w' <= supply A w.
Proof.
  intros H Hw.
  destruct H as [w w' H|w w' a H|w w' a n H|w w' a c Hc H|w w' a k v H|w w' a b v Hv H|w w' a b H].
  - exists []. intros A _ _. rewrite (supply_eq _ _ _ H). lia.
  - exists []. intros A _ _. rewrite (supply_eq _ _ _ H), supply_kept by reflexivity. lia.
  - exists []. intros A _ _. rewrite (supply_eq _ _ _ H), supply_kept by reflexivity. lia.
  - exists []. intros A _ _. rewrite (supply_eq _ _ _ H), supply_kept by reflexivity. lia.
  - exists []. intros A _ _. rewrite (supply_eq _ _ _ H), supply_kept by reflexivity. lia.
  - exists [a; b]. intros A HA Hi. rewrite (supply_eq _ _ _ H).
    rewrite !supply_at by (exact HA || apply Hi; cbn; auto). cbn. lia.
  - exists [a; b]. intros A HA Hi. rewrite (supply_eq _ _ _ H).
    rewrite !supply_at by (exact HA || apply Hi; cbn; auto). cbn. unfold at_account.
    destruct (Z.eqb_spec b a) as [->|]; cbn; pose proof (proj1 (Hw a)); lia.
Qed.

(** ** The state of the package *)

Section ledger.
Context {T E : Type} {HT : Trie T E}.
Variable Keccak256 : list Z -> list Z.
Variable db : Database T E.
Variable decodeAccount : list Z -> option Account.
Hypothesis Hsize : forall a h, fst (ContractCodeSize db a h) = len (fst (ContractCode db a h)).
Hypothesis Hempty : forall a t k, OpenStorageTrie db a 0 = Ok t -> TryGet t k = Ok [].
Abbreviation St := (@State T E).
#[local] Instance DBl : StateDB St := state_StateDB Keccak256 db decodeAccount.
#[local] Instance Ll : SnapshotLaws St := state_SnapshotLaws Keccak256 db decodeAccount Hsize.
Let world_of : St -> world := view Keccak256 db decodeAccount.

Lemma at_proper a f (w w' : world) : (forall x y, account_eq x y -> account_eq (f x) (f y)) -> world_eq w w' ->
  world_eq (at_account a f w) (at_account a f w').
Proof. intros Hf H b. unfold at_account. destruct (a =? b); [apply Hf|]; apply H. Qed.

Lemma add_balance_proper v x y : account_eq x y -> account_eq (add_balance v x) (add_balance v y).
Proof. intros (A & B & C & D & F). repeat split; cbn; auto. rewrite A. reflexivity. Qed.

Lemma destroy_proper x y : account_eq x y -> account_eq (destroy x) (destroy y).
Proof. intros (A & B & C & D & F). repeat split; cbn; auto. Qed.

(** Calls that keep the objects. *)
Lemma objects_view s s' : (forall a, live decodeAccount s' a = live decodeAccount s a) -> world_eq (world_of s) (world_of s').
Proof. intros H a. etransitivity; [apply view_alive|]. etransitivity; [|symmetry; apply view_alive]. rewrite H. reflexivity. Qed.

Lemma read_view s s' : dbread s s' -> state_ok decodeAccount s -> world_eq (world_of s) (world_of s').
Proof. intros H Hok. apply eq_view. apply (read_same (SnapshotLaws := Ll) s s' H Hok). Qed.

Lemma wf_step s s' : dbstep false s s' -> state_ok decodeAccount s -> wf decodeAccount s'.
Proof. intros H Hok. apply (ok_step (SnapshotLaws := Ll) s s' H Hok). Qed.

Lemma wf_after s s' : steps Keccak256 db decodeAccount s s' -> wf decodeAccount s'.
Proof. intros H. apply H. Qed.

Lemma lstep_view s s' : lstep s s' -> state_ok decodeAccount s -> wstep (world_of s) (world_of s').
Proof.
  intros H Hok. pose proof (proj1 Hok) as W. destruct H as [s s' H|s|h d s|a s|a n s|g s|l s|a c s Hc|a k v s Hv|a b v s Hv|a b s].
  - apply w_same, read_view; assumption.
  - apply w_same, objects_view. intros a. apply live_fields; reflexivity.
  - apply w_same, objects_view. intros a. cbn. unfold st_AddPreimage. destruct (_ !! h); [reflexivity|]. apply live_fields; reflexivity.
  - apply (w_create _ _ a), CreateAccount_view; assumption.
  - apply (w_nonce _ _ a n), SetNonce_view; assumption.
  - apply w_same, objects_view. intros a. apply live_fields; reflexivity.
  - apply w_same, objects_view. intros a. apply live_fields; reflexivity.
  - apply (w_code _ _ a c Hc), SetCode_view; assumption.
  - apply (w_slot _ _ a k v), SetState_view; assumption.
  - apply (w_move (world_of s) _ a b v Hv). intros x. etransitivity; [apply AddBalance_view; [assumption|]|].
    { apply (wf_after s), SubBalance_steps, W. }
    apply at_proper; [apply add_balance_proper|]. apply SubBalance_view; assumption.
  - set (s1 := fst (GetBalance a s)). set (v := snd (GetBalance a s)). set (s2 := AddBalance b v s1).
    assert (H1 : world_eq (world_of s) (world_of s1)) by (apply read_view; [constructor|exact Hok]).
    assert (W1 : wf decodeAccount s1) by (apply (wf_step s s1); [apply ds_read; constructor|exact Hok]).
    assert (W2 : wf decodeAccount s2) by (apply (wf_after s1), AddBalance_steps, W1).
    assert (H2 : world_eq (world_of s2) (at_account b (add_balance v) (world_of s))).
    { intros x. etransitivity; [apply AddBalance_view; assumption|]. apply at_proper; [apply add_balance_proper|]. intros y. symmetry. apply H1. }
    pose proof (Suicide_view Keccak256 db decodeAccount Hsize Hempty a s2 W2) as H3. pose proof (Suicide_result Keccak256 db decodeAccount a s2) as Hr.
    destruct (snd (Suicide a s2)).
    + apply (w_destroy _ _ a b). intros x. etransitivity; [apply H3|]. apply at_proper; [apply destroy_proper|exact H2].
    + assert (v = 0) as Ev.
      { destruct (H2 a) as (A & _). destruct (view_alive Keccak256 db decodeAccount s2 a) as (A' & _). unfold world_of in A. rewrite A in A'.
        destruct (live decodeAccount s2 a); [discriminate|]. unfold at_account in A'.
        destruct (b =? a); [|exact A']. assert (v + v = 0) by exact A'. lia. }
      apply w_same. intros x. etransitivity; [|symmetry; apply H3]. etransitivity; [|symmetry; apply H2].
      rewrite Ev. unfold at_account. destruct (b =? x); [|reflexivity]. repeat split; cbn; lia.
Qed.

(** The refund counter does not decrease within a call. *)
Lemma lstep_refund s s' : lstep s s' -> state_ok decodeAccount s -> refund s <= refund s'.
Proof using Hsize.
  intros H Hok. pose proof (proj1 Hok) as W.
  assert (P : forall x y (o : @stateObject T E), state_eq Keccak256 db decodeAccount y (setStateObject x o) -> refund x = refund y).
  { intros x y o He. rewrite (eq_refund _ _ _ _ _ He). reflexivity. }
  assert (Hadd : forall a v t, wf decodeAccount t -> refund t = refund (AddBalance a v t)) by (intros a v t Wt; eapply P, AddBalance_eq, Wt).
  assert (Hsub : forall a v t, wf decodeAccount t -> refund t = refund (SubBalance a v t)) by (intros a v t Wt; eapply P, SubBalance_eq, Wt).
  destruct H as [s s' H|s|h d s|a s|a n s|g s Hg|l s|a c s Hc|a k v s Hv|a b v s Hv|a b s].
  - apply Z.eq_le_incl. apply (eq_refund _ _ _ _ _ (proj1 (read_same (SnapshotLaws := Ll) s s' H Hok))).
  - reflexivity.
  - cbn. unfold st_AddPreimage. destruct (_ !! h); reflexivity.
  - apply Z.eq_le_incl. eapply P, CreateAccount_eq, W.
  - apply Z.eq_le_incl. eapply P, SetNonce_eq, W.
  - cbn. lia.
  - reflexivity.
  - apply Z.eq_le_incl. eapply P, SetCode_eq, W. exact Hsize.
  - apply Z.eq_le_incl. eapply P, SetState_eq, W.
  - rewrite (Hsub a v s W), (Hadd b v (SubBalance a v s)); [reflexivity|]. apply (wf_after s), SubBalance_steps, W.
  - set (s1 := fst (GetBalance a s)). set (s2 := AddBalance b _ s1). assert (Hr : dbread s s1) by constructor.
    assert (W1 : wf decodeAccount s1) by (apply (wf_step s s1); [apply ds_read, Hr|exact Hok]).
    assert (W2 : wf decodeAccount s2) by (apply (wf_after s1), AddBalance_steps, W1).
    rewrite (eq_refund _ _ _ _ _ (proj1 (read_same (SnapshotLaws := Ll) s s1 Hr Hok))), (Hadd b (snd (GetBalance a s)) s1 W1).
    fold s2. apply Z.eq_le_incl. pose proof (Suicide_eq Keccak256 db decodeAccount a s2 W2) as H.
    etransitivity; [|symmetry; exact (eq_refund _ _ _ _ _ H)]. destruct (live _ _ _); reflexivity.
Qed.

Lemma code_size_nonneg (s : St) a : 0 <= snd (GetCodeSize a s).
Proof using Hsize.
  assert (H : snd (GetCodeSize a s) = match live decodeAccount s a with Some o => code_size Keccak256 db o | None => 0 end) by apply GetCodeSize_value.
  rewrite H. destruct (live decodeAccount s a) as [o|]; [|lia]. unfold code_size.
  destruct (code o); [|apply len_nonneg]. rewrite Hsize. apply len_nonneg.
Qed.

#[global] Instance state_LedgerLaws : LedgerLaws St.
Proof using Hsize Hempty.
  refine {| ledger := fun s => world_ok (world_of s) /\ 0 <= refund s |}.
  - intros s s' [H _] [Hw Hr]. split; [apply (world_ok_eq _ _ (eq_view _ _ _ _ _ H) Hw)|]. rewrite <- (eq_refund _ _ _ _ _ H). exact Hr.
  - intros s s' H Hok [Hw Hr]. split; [apply (wstep_ok _ _ (lstep_view s s' H Hok) Hw)|]. pose proof (lstep_refund s s' H Hok). lia.
  - intros a s [H _]. apply (H a).
  - intros a s _. apply code_size_nonneg.
  - intros a s [H _]. apply (H a).
  - intros s [_ H]. exact H.
  - intros s s' a H Hok. symmetry. apply (read_view s s' H Hok a).
  - intros s a _. symmetry. assert (Hs : world_eq (world_of s) (world_of (fst (Snapshot s)))); [|apply (Hs a)].
    apply objects_view. intros b. apply live_fields; reflexivity.
  - intros s a b [W _]. destruct (CreateAccount_view Keccak256 db decodeAccount Hsize Hempty b s W a) as (A & _).
    unfold at_account in A. destruct (b =? a); exact A.
  - intros s a b n [W _]. destruct (SetNonce_view Keccak256 db decodeAccount Hempty b n s W a) as (A & _).
    unfold at_account in A. destruct (b =? a); exact A.
Defined.

(** Along a run the Ether of the accounts does not grow: of any accounts among
    which are the ones the run moved Ether between. *)
Lemma levolves_supply s s' : levolves s s' -> healthy s ->
  exists B, forall A, NoDup A -> incl B A -> supply A (world_of s') <= supply A (world_of s).
Proof using Hsize Hempty.
  induction 1 as [s|s1 s2 s3 H _ IH|s1 s2 s3 s4 H _ Hr _ IH]; intros Hs.
  - exists []. intros A _ _. lia.
  - destruct (wstep_supply _ _ (lstep_view s1 s2 H (proj1 Hs)) (proj1 (proj2 Hs))) as (B1 & H1).
    destruct (IH (lstep_healthy _ _ H Hs)) as (B2 & H2). exists (B1 ++ B2). intros A HA Hi.
    apply incl_app_inv in Hi as [Hi1 Hi2]. specialize (H1 A HA Hi1). specialize (H2 A HA Hi2). lia.
  - destruct (committed_same false s1 s3 ErrDepth (ex_intro _ s2 (conj (levolves_evolves _ _ H) Hr)) (proj1 Hs)) as [H3 H4].
    destruct (IH (levolves_healthy _ _ (lev_revert _ _ _ _ H Hr (lev_refl _)) Hs)) as (B & HB). exists B. intros A HA Hi.
    rewrite (supply_eq A (world_of s1) (world_of s3)); [apply (HB A HA Hi)|]. apply eq_view, H3.
Qed.

End ledger.
