(* ===== verification/CoreFinal.v ===== *)
(** * Package [core/state]: finalising, committing and copying

    The methods of [core/state/statedb.go] and [core/state/state_object.go] that
    write the objects to the tries, and the copies.  The order in which Go ranges
    over a map is not defined: the orders of the four maps that are ranged over
    are parameters.  Two [StateDB]s that share a trie, as a copy does with its
    original, are a pair of states in [on_copy]. *)

From stdpp Require Import base gmap.
From Stdlib Require Import ZArith List Lia Bool.
From S2P Require Import Prelude GoBig CommonTypes Rlp VmCommon VmState CoreState.
Import ListNotations.
Local Open Scope Z_scope.

(** [trie.CommitTo(dbw)] and [dbw.Put(key, value)]. *)
Class TrieCommit (T E W : Type) : Type := mkTrieCommit {
  trie_CommitTo : T -> W -> T * W * result Hash E;
  Put : W -> list Z -> list Z -> W * option E }.

(** [bytes.TrimLeft(b, "\x00")] *)
Fixpoint trim_left (b : list Z) : list Z :=
  match b with
  | [] => []
  | x :: t => if x =? 0 then trim_left t else b
  end.

(** [rlp.EncodeToBytes] of an [Account], whose fields are a [uint64], a
    [*big.Int], an array and a slice. *)
Definition encodeAccount (d : Account) : outcome (result (list Z) rlpErr) :=
  EncodeToBytes (VList [VUint (Nonce d); VBigInt (Some (acc_Balance d)); VBytes (Hash_Bytes (Root d)); VBytes (Hash_Bytes (acc_CodeHash d))]).

(** [for x := range xs { ... }] with a body that may panic. *)
Fixpoint each {A B : Type} (f : B -> A -> outcome A) (xs : list B) (a : A) : outcome A :=
  match xs with
  | [] => Ret a
  | x :: xs => let! a := f x a in each f xs a
  end.

Section final.
Context {T E : Type} {HT : Trie T E}.
Variable Keccak256 : list Z -> list Z.
Variable db : Database T E.
Abbreviation St := (@State T E).
Abbreviation Obj := (@stateObject T E).

(** The orders of ranging over [dirtyStorage], [stateObjectsDirty] and [stateObjects]. *)
Variable range_slots : gmap Z Z -> list (Z * Z).
Variable range_dirty : gset Z -> list Z.
Variable range_objects : gmap Z Obj -> list Z.

(** ** Objects *)

(** The body of the loop of [updateTrie]; the error of the encoder is ignored. *)
Definition write_slot (kv : Hash * Hash) (x : T * Obj) : outcome (T * Obj) :=
  let '(key, value) := kv in
  let '(tr, o) := x in
  let o := set_storage o (cachedStorage o) (base.delete key (dirtyStorage o)) in
  if value =? 0 then
    let '(tr, err) := TryDelete tr (Hash_Bytes key) in
    Ret (tr, object_setError o (option_map db_error err))
  else
    let! v := EncodeToBytes (VBytes (trim_left (Hash_Bytes value))) in
    let '(tr, err) := TryUpdate tr (Hash_Bytes key) (match v with Ok v => v | Err _ => [] end) in
    Ret (tr, object_setError o (option_map db_error err)).

(** A trie that could not be opened is nil: a method of it panics. *)
Definition updateTrie (o : Obj) : outcome (option T * Obj) :=
  let '(tr, o) := getTrie Keccak256 db o in
  match tr with
  | None => match range_slots (dirtyStorage o) with [] => Ret (None, o) | _ :: _ => Panic end
  | Some tr =>
      let! x := each write_slot (range_slots (dirtyStorage o)) (tr, o) in
      let '(tr, o) := x in
      Ret (Some tr, set_obj_trie o tr)
  end.

Definition set_Root (o : Obj) (root : Hash) : Obj :=
  set_data o (mkAccount (Nonce (data o)) (acc_Balance (data o)) root (acc_CodeHash (data o))).

Definition updateRoot (o : Obj) : outcome Obj :=
  let! x := updateTrie o in
  let '(tr, o) := x in
  match tr with
  | None => Panic
  | Some tr => Ret (set_Root o (trie_Hash tr))
  end.

(** [CopyTrie] copies: the tries of the two objects are independent. *)
Definition deepCopy (o : Obj) (onDirty : bool) : Obj :=
  mkObject (address o) (data o) None (obj_trie o) (code o) (dirtyStorage o) (dirtyStorage o) (dirtyCode o)
    (suicided o) false (deleted o) onDirty.

(** ** The state *)

(** [self.trie.TryUpdate(addr[:], data)] and [TryDelete], the trie being shared state of its own. *)
Definition updateStateObject (s : St) (o : Obj) : outcome St :=
  let! enc := encodeAccount (data o) in
  match enc with
  | Err _ => Panic
  | Ok enc => let '(t, err) := TryUpdate (trie s) (Address_Bytes (address o)) enc in Ret (setError (set_trie s t) err)
  end.

Definition deleteStateObject (s : St) (o : Obj) : St :=
  let o := set_flags o (suicided o) (touched o) true (onDirty o) in
  let s := setStateObject s o in
  let '(t, err) := TryDelete (trie s) (Address_Bytes (address o)) in
  setError (set_trie s t) err.

Definition clearJournalAndRefund (s : St) : St := set_refund (set_revisions (set_journal s []) [] (nextRevisionId s)) 0.

(** The body of the loop of [Finalise]; a method of a nil object panics. *)
Definition finalise_one (deleteEmptyObjects : bool) (a : Address) (s : St) : outcome St :=
  match stateObjects s !! a with
  | None => Panic
  | Some o =>
      if suicided o || (deleteEmptyObjects && empty_object Keccak256 o) then Ret (deleteStateObject s o)
      else
        let! o := updateRoot o in
        updateStateObject (setStateObject s o) o
  end.

Definition Finalise (deleteEmptyObjects : bool) (s : St) : outcome St :=
  let! s := each (finalise_one deleteEmptyObjects) (range_dirty (stateObjectsDirty s)) s in
  Ret (clearJournalAndRefund s).

Definition IntermediateRoot (deleteEmptyObjects : bool) (s : St) : outcome (St * Hash) :=
  let! s := Finalise deleteEmptyObjects s in
  Ret (s, trie_Hash (trie s)).

Definition Prepare (thash bhash : Hash) (ti : Z) (s : St) : St :=
  mkState (trie s) (stateObjects s) (stateObjectsDirty s) (dbErr s) (refund s) thash bhash ti (logs s) (logSize s)
    (preimages s) (journal s) (validRevisions s) (nextRevisionId s).

Definition delete_suicide (a : Address) (s : St) : outcome St :=
  match stateObjects s !! a with
  | None => Panic
  | Some o =>
      let s := if suicided o then setStateObject s (set_flags o (suicided o) (touched o) true (onDirty o)) else s in
      Ret (set_dirty s (stateObjectsDirty s ∖ {[ a ]}))
  end.

Definition DeleteSuicides (s : St) : outcome St :=
  let s := clearJournalAndRefund s in
  each delete_suicide (range_dirty (stateObjectsDirty s)) s.

(** [OpenTrie] of the database. *)
Variable OpenTrie : Hash -> result T E.

Definition open_state (root : Hash) : result St E :=
  match OpenTrie root with
  | Err e => Err e
  | Ok t => Ok (New t)
  end.

Definition Reset (root : Hash) (s : St) : St * option E :=
  match OpenTrie root with
  | Err e => (s, Some e)
  | Ok t => (clearJournalAndRefund (mkState t ∅ ∅ (dbErr s) (refund s) 0 0 0 ∅ 0 ∅ (journal s) (validRevisions s) (nextRevisionId s)), None)
  end.

(** ** Copies *)

Definition copy_object (from_ : St) (a : Address) (s : St) : outcome St :=
  match stateObjects from_ !! a with
  | None => Panic
  | Some o => Ret (set_dirty (set_objects s (<[a := deepCopy o true]> (stateObjects s))) ({[ a ]} ∪ stateObjectsDirty s))
  end.

(** The trie of the copy is the trie of the original. *)
Definition Copy (s : St) : outcome St :=
  each (copy_object s) (range_dirty (stateObjectsDirty s))
    (mkState (trie s) ∅ ∅ None (refund s) 0 0 0 (logs s) (logSize s) (preimages s) [] [] 0).

(** A method called on the copy of a state: both hold the same trie. *)
Definition on_copy (f : St -> outcome St) (original copy : St) : outcome (St * St) :=
  let! copy := f copy in
  Ret (set_trie original (trie copy), copy).

Definition StorageTrie (decodeAccount : list Z -> option Account) (a : Address) (s : St) : outcome (option T * St) :=
  let '(o, s) := getStateObject decodeAccount s a in
  match o with
  | None => Ret (None, s)
  | Some o => let! x := updateTrie (deepCopy o false) in Ret (fst x, s)
  end.

(** ** Committing *)

Section commit.
Context {W : Type} {HC : TrieCommit T E W}.
(** Whether the code of an object is nil, which is not told from empty code otherwise. *)
Variable nil_code : Obj -> bool.

Definition CommitTrie (o : Obj) (w : W) : outcome (Obj * W * option object_error) :=
  let! x := updateTrie o in
  let '(tr, o) := x in
  match obj_dbErr o with
  | Some e => Ret (o, w, Some e)
  | None =>
      match tr with
      | None => Panic
      | Some tr =>
          let '(tr, w, r) := trie_CommitTo tr w in
          let o := set_obj_trie o tr in
          match r with
          | Ok root => Ret (set_Root o root, w, None)
          | Err e => Ret (o, w, Some (db_error e))
          end
      end
  end.

(** One object: the state, the writer and the error that ends the commit. *)
Definition commit_one (deleteEmptyObjects : bool) (a : Address) (s : St) (w : W) : outcome (St * W * option (@object_error E)) :=
  match stateObjects s !! a with
  | None => Panic
  | Some o =>
      let isDirty := bool_decide (a ∈ stateObjectsDirty s) in
      let clean (s : St) : St := set_dirty s (stateObjectsDirty s ∖ {[ a ]}) in
      if suicided o || (isDirty && deleteEmptyObjects && empty_object Keccak256 o) then Ret (clean (deleteStateObject s o), w, None)
      else if isDirty then
        let '(o, w, err) :=
          (if negb (nil_code o) && dirtyCode o then
             match Put w (Hash_Bytes (acc_CodeHash (data o))) (code o) with
             | (w, Some e) => (o, w, Some (db_error e))
             | (w, None) => (set_code o (code o) false, w, None)
             end
           else (o, w, None)) in
        match err with
        | Some e => Ret (setStateObject s o, w, Some e)
        | None =>
            let! x := CommitTrie o w in
            let '(o, w, err) := x in
            match err with
            | Some e => Ret (setStateObject s o, w, Some e)
            | None => let! s := updateStateObject (setStateObject s o) o in Ret (clean s, w, None)
            end
        end
      else Ret (clean s, w, None)
  end.

Fixpoint commit_all (deleteEmptyObjects : bool) (addrs : list Address) (s : St) (w : W) : outcome (St * W * option (@object_error E)) :=
  match addrs with
  | [] => Ret (s, w, None)
  | a :: addrs =>
      let! x := commit_one deleteEmptyObjects a s w in
      let '(s, w, err) := x in
      match err with
      | Some e => Ret (s, w, Some e)
      | None => commit_all deleteEmptyObjects addrs s w
      end
  end.

Definition CommitTo (deleteEmptyObjects : bool) (s : St) (w : W) : outcome (St * W * result Hash (@object_error E)) :=
  let! x := commit_all deleteEmptyObjects (range_objects (stateObjects s)) s w in
  let '(s, w, err) := x in
  match err with
  | Some e => Ret (clearJournalAndRefund s, w, Err e)
  | None =>
      let '(t, w, r) := trie_CommitTo (trie s) w in
      Ret (clearJournalAndRefund (set_trie s t), w, match r with Ok root => Ok root | Err e => Err (db_error e) end)
  end.

End commit.
End final.
