(* ===== verification/CoreDatabase.v ===== *)
(** * Package [core/state]: the database of tries and code

    [core/state/database.go] over the tries of package [trie].  The key-value store
    is a parameter, as is the cache of code sizes, which is an [lru.Cache].  The
    mutex is not modelled. *)

From stdpp Require Import base gmap.
From Stdlib Require Import ZArith List Lia Bool.
From S2P Require Import Prelude GoBig CommonTypes Rlp TrieNode TrieOps TrieHash TrieSecure CoreState CoreFinal.
Import ListNotations.
Local Open Scope Z_scope.

Definition MaxTrieCacheGen : Z := 120.
Definition maxPastTries : nat := 12.

(** The errors of the methods: a missing node, or a key that the store does not
    have.  A panic of a method of a trie is [trie_panics]. *)
Inductive database_error : Type := trie_error (e : trieErr) | not_found | trie_panics.

(** The cache of code sizes. *)
Class Lru (C : Type) : Type := mkLru {
  lru_Get : C -> Hash -> C * option Z;
  lru_Add : C -> Hash -> Z -> C }.

Section database.
Variable Keccak256 : list Z -> list Z.
Variable Get : list Z -> option (list Z).
Context {C : Type} {HC : Lru C}.

Record cachingDB : Type := mkCachingDB { pastTries : list SecureTrie; codeSizeCache : C }.

(** The loop of [OpenTrie], from the last trie: the tries, which [Hash] changes, and the copy. *)
Fixpoint open_past (ts : list SecureTrie) (root : Hash) : outcome (list SecureTrie * option SecureTrie) :=
  match ts with
  | [] => Ret ([], None)
  | t :: ts =>
      let! x := secure_Hash Keccak256 MaxTrieCacheGen t in
      let '(t, h) := x in
      if h =? root then Ret (t :: ts, Some (secure_Copy t))
      else
        let! x := open_past ts root in
        Ret (t :: fst x, snd x)
  end.

Definition cachingDB_OpenTrie (db : cachingDB) (root : Hash) : outcome (cachingDB * result SecureTrie trieErr) :=
  let! x := open_past (rev (pastTries db)) root in
  let db := mkCachingDB (rev (fst x)) (codeSizeCache db) in
  match snd x with
  | Some t => Ret (db, Ok t)
  | None => let! r := NewSecure Get root in Ret (db, r)
  end.

Definition pushTrie (db : cachingDB) (t : SecureTrie) : cachingDB :=
  mkCachingDB (if (maxPastTries <=? length (pastTries db))%nat then tl (pastTries db) ++ [t] else pastTries db ++ [t]) (codeSizeCache db).

Definition cachingDB_OpenStorageTrie (addrHash root : Hash) : outcome (result SecureTrie trieErr) := NewSecure Get root.

Definition cachingDB_ContractCode (db : cachingDB) (addrHash codeHash : Hash) : cachingDB * (list Z * option database_error) :=
  match Get (Hash_Bytes codeHash) with
  | Some code => (mkCachingDB (pastTries db) (lru_Add (codeSizeCache db) codeHash (len code)), (code, None))
  | None => (db, ([], Some not_found))
  end.

Definition cachingDB_ContractCodeSize (db : cachingDB) (addrHash codeHash : Hash) : cachingDB * (Z * option database_error) :=
  let '(c, cached) := lru_Get (codeSizeCache db) codeHash in
  let db := mkCachingDB (pastTries db) c in
  match cached with
  | Some n => (db, (n, None))
  | None =>
      let '(db, (code, err)) := cachingDB_ContractCode db addrHash codeHash in
      let db := match err with None => mkCachingDB (pastTries db) (lru_Add (codeSizeCache db) codeHash (len code)) | Some _ => db end in
      (db, (len code, err))
  end.

(** [cachedTrie.CommitTo] *)
Definition cachedTrie_CommitTo {W E : Type} (Put : W -> list Z -> list Z -> W * option E) (db : cachingDB) (t : SecureTrie) (w : W) : outcome (cachingDB * SecureTrie * W * result Hash E) :=
  let! x := secure_CommitTo Keccak256 Put MaxTrieCacheGen t w in
  let '(t, w, r) := x in
  Ret (match r with Ok _ => pushTrie db t | Err _ => db end, t, w, r).

(** ** The interfaces *)

(** Secure tries as the tries of the state.  The interface has no panics, and the
    nodes that reading or hashing caches are not kept. *)
Definition SecureTrie_Trie : Trie SecureTrie database_error := {|
  TryGet t k := match secure_TryGet Keccak256 Get t k with
    | Ret (_, Ok v) => Ok v
    | Ret (_, Err e) => Err (trie_error e)
    | Panic => Err trie_panics
    end;
  TryUpdate t k v := match secure_TryUpdate Keccak256 Get t k v with
    | Ret (t', None) => (t', None)
    | Ret (t', Some e) => (t', Some (trie_error e))
    | Panic => (t, Some trie_panics)
    end;
  TryDelete t k := match secure_TryDelete Keccak256 Get t k with
    | Ret (t', None) => (t', None)
    | Ret (t', Some e) => (t', Some (trie_error e))
    | Panic => (t, Some trie_panics)
    end;
  trie_Hash t := match secure_Hash Keccak256 MaxTrieCacheGen t with Ret (_, h) => h | Panic => 0 end |}.

(** Commits of the tries of the state, each with its cache limit. *)
Definition SecureTrie_Commit {W : Type} (cachelimit : SecureTrie -> Z) (Put : W -> list Z -> list Z -> W * option database_error) : TrieCommit SecureTrie database_error W := {|
  trie_CommitTo t w := match secure_CommitTo Keccak256 Put (cachelimit t) t w with Ret x => x | Panic => (t, w, Err trie_panics) end;
  CoreFinal.Put := Put |}.

(** The database as the state uses it. *)
Definition state_database : Database SecureTrie database_error := {|
  OpenStorageTrie a root := match cachingDB_OpenStorageTrie a root with
    | Ret (Ok t) => Ok t
    | Ret (Err e) => Err (trie_error e)
    | Panic => Err trie_panics
    end;
  ContractCode a h := match Get (Hash_Bytes h) with Some code => (code, None) | None => ([], Some not_found) end;
  ContractCodeSize a h := match Get (Hash_Bytes h) with Some code => (len code, None) | None => (0, Some not_found) end |}.
End database.
