(* ===== verification/StateFinal.v ===== *)
(** * Package [core/state]: what finalising writes

    The tries behind a class of laws, the invariant that ties the objects to the
    tries (an object that is not marked dirty is what the trie has), and what
    [Finalise] and [Copy] do to the accounts and to the tries. *)

From Stdlib Require Import ZArith List Lia Bool.
From stdpp Require Import base gmap.
From S2P Require Import Prelude GoBig ByteBuf CommonTypes Rlp RlpTheorems VmCommon VmState CoreState StateLaws StateSpec CoreFinal.
Import ListNotations.
Local Open Scope Z_scope.

(** ** The laws of a trie *)

(** What [Trie] promises of the tries it can hold, for some keys; an update or
    deletion that returns an error promises nothing. *)
Class TrieLaws (T E : Type) {HT : Trie T E} : Type := {
  trie_ok : T -> Prop;
  trie_key : list Z -> Prop;
  update_ok t k v t' : trie_ok t -> v <> [] -> len v < 2 ^ 32 -> TryUpdate t k v = (t', None) -> trie_ok t';
  delete_ok t k t' : trie_ok t -> TryDelete t k = (t', None) -> trie_ok t';
  get_update t k v t' j : trie_ok t -> trie_key k -> trie_key j -> v <> [] ->
    TryUpdate t k v = (t', None) -> TryGet t' j = if decide (k = j) then Ok v else TryGet t j;
  get_delete t k t' j : trie_ok t -> trie_key k -> trie_key j ->
    TryDelete t k = (t', None) -> TryGet t' j = if decide (k = j) then Ok [] else TryGet t j;
  hash_range t : trie_ok t -> hash_ok (trie_Hash t) }.

(** The slots and the addresses that are such keys. *)
Definition slot_used (used : list Z -> Prop) (k : Z) : Prop := hash_ok k /\ used (Hash_Bytes k).
Definition address_used (used : list Z -> Prop) (a : Z) : Prop := address_ok a /\ used (Address_Bytes a).

(** ** Slots *)

Lemma trim_left_SetBytes b : SetBytes (trim_left b) = SetBytes b.
Proof.
  induction b as [|x b IH]; [reflexivity|]. cbn [trim_left]. destruct (Z.eqb_spec x 0) as [->|]; [|reflexivity].
  rewrite IH, SetBytes_cons. lia.
Qed.

Lemma trim_left_len b : len (trim_left b) <= len b.
Proof.
  induction b as [|x b IH]; [reflexivity|]. cbn [trim_left]. destruct (x =? 0); [|reflexivity]. rewrite len_cons. lia.
Qed.

Definition slot_bytes (v : Hash) : list Z := trim_left (Hash_Bytes v).

Lemma slot_bytes_len v : len (slot_bytes v) <= 32.
Proof. etransitivity; [apply trim_left_len|]. unfold Hash_Bytes. rewrite be_bytes_len. reflexivity. Qed.

Lemma slot_encoded v : EncodeToBytes (VBytes (slot_bytes v)) = Ret (Ok (rlp_string (slot_bytes v))).
Proof.
  pose proof (slot_bytes_len v) as H. rewrite EncodeToBytes_rlp; [reflexivity|reflexivity|]. cbn [rlp].
  pose proof (rlp_string_le (slot_bytes v) ltac:(lia)). lia.
Qed.

Lemma slot_encoding_len v : len (rlp_string (slot_bytes v)) < 2 ^ 32.
Proof. pose proof (slot_bytes_len v). pose proof (rlp_string_le (slot_bytes v) ltac:(lia)). lia. Qed.

Lemma rlp_string_nonempty b : rlp_string b <> [].
Proof. apply (rlp_nonempty (VBytes b)). discriminate. Qed.

Lemma slot_value_encoded v : hash_ok v -> slot_value (rlp_string (slot_bytes v)) = (v, None).
Proof.
  intros Hv. pose proof (slot_bytes_len v) as H. pose proof (rlp_string_le (slot_bytes v) ltac:(lia)) as Hl.
  unfold slot_value. pose proof (rlp_string_nonempty (slot_bytes v)) as Hn.
  pose proof (reads_string (slot_bytes v) [] ltac:(rewrite app_nil_r; lia)) as Hr. rewrite app_nil_r in Hr.
  rewrite (reads_Split (rlp_string (slot_bytes v)) _ _ _ ltac:(lia) Hr). destruct (rlp_string _); [contradiction|]. f_equal.
  unfold BytesToHash, slot_bytes, Hash_Bytes. rewrite trim_left_SetBytes, SetBytes_be_bytes.
  unfold hash_ok in Hv. change (256 ^ Z.of_nat (Z.to_nat HashLength)) with (2 ^ 256). change (256 ^ HashLength) with (2 ^ 256).
  rewrite (Z.mod_small v), Z.mod_small by lia. reflexivity.
Qed.

Lemma Hash_Bytes_inj h k : hash_ok h -> hash_ok k -> Hash_Bytes h = Hash_Bytes k -> h = k.
Proof. intros Hh Hk H. rewrite <- (Hash_Big_id h Hh), <- (Hash_Big_id k Hk). unfold Hash_Big. rewrite H. reflexivity. Qed.

Lemma Address_Bytes_inj a b : address_ok a -> address_ok b -> Address_Bytes a = Address_Bytes b -> a = b.
Proof. intros Ha Hb H. rewrite <- (Address_Big_id a Ha), <- (Address_Big_id b Hb). unfold Address_Big. rewrite H. reflexivity. Qed.

Lemma Hash_Bytes_ok h : bytes_ok (Hash_Bytes h) /\ len (Hash_Bytes h) = 32.
Proof. split; [apply be_bytes_ok|apply be_bytes_len]. Qed.

Lemma Address_Bytes_ok a : bytes_ok (Address_Bytes a) /\ len (Address_Bytes a) = 20.
Proof. split; [apply be_bytes_ok|apply be_bytes_len]. Qed.

(** ** Accounts *)

Lemma byte_len_256 x : 0 <= x < 2 ^ 256 -> byte_len x <= 32.
Proof.
  intros Hx. unfold byte_len. assert (BitLen x <= 256) by (apply BitLen_le_iff; lia). apply Z.lt_succ_r, Z.div_lt_upper_bound; lia.
Qed.

Lemma rlp_account d : is_u64 (Nonce d) -> 0 <= acc_Balance d < 2 ^ 256 -> len (rlp (VList [VUint (Nonce d); VBigInt (Some (acc_Balance d)); VBytes (Hash_Bytes (Root d)); VBytes (Hash_Bytes (acc_CodeHash d))])) < 2 ^ 32.
Proof.
  intros Hn Hb. cbn [rlp flat_map]. unfold rlp_list. rewrite !len_app. unfold is_u64 in Hn.
  pose proof (byte_len_256 (Nonce d) ltac:(lia)). pose proof (byte_len_256 (acc_Balance d) Hb).
  assert (P : forall b, len b <= 32 -> 0 <= len (rlp_string b) <= 41).
  { intros b Hl. pose proof (rlp_string_le b ltac:(lia)). pose proof (len_nonneg (rlp_string b)). lia. }
  pose proof (P (Bytes (Nonce d)) ltac:(rewrite Bytes_len; lia)). pose proof (P (Bytes (acc_Balance d)) ltac:(rewrite Bytes_len; lia)).
  pose proof (P (Hash_Bytes (Root d)) ltac:(rewrite (proj2 (Hash_Bytes_ok _)); lia)). pose proof (P (Hash_Bytes (acc_CodeHash d)) ltac:(rewrite (proj2 (Hash_Bytes_ok _)); lia)).
  change (len (@nil Z)) with 0. set (n := len (rlp_string (Bytes (Nonce d))) + _). assert (Hl : 0 <= n <= 164) by (unfold n; lia).
  rewrite rlp_head_len by lia. unfold headsize. destruct (Z.ltb_spec n 56); [lia|]. rewrite intsize_byte_len by lia. pose proof (byte_len_small n ltac:(lia)). lia.
Qed.

Lemma encodeAccount_total d : is_u64 (Nonce d) -> 0 <= acc_Balance d < 2 ^ 256 -> exists enc, encodeAccount d = Ret (Ok enc) /\ len enc < 2 ^ 32.
Proof.
  intros Hn Hb. unfold encodeAccount. rewrite EncodeToBytes_rlp.
  - cbn. destruct (Z.ltb_spec (acc_Balance d) 0); [lia|]. eexists. split; [reflexivity|apply rlp_account; assumption].
  - cbn. unfold is_u64 in Hn. destruct (Z.leb_spec 0 (Nonce d)), (Z.ltb_spec (Nonce d) (2 ^ 64)); try lia; reflexivity.
  - pose proof (rlp_account d Hn Hb). lia.
Qed.

(** Accounts with the same answers, for the slots that are used. *)
Definition account_same (used : list Z -> Prop) (x y : account) : Prop :=
  v_balance x = v_balance y /\ v_nonce x = v_nonce y /\ v_code x = v_code y /\
  (forall k, slot_used used k -> v_storage x k = v_storage y k) /\ v_suicided x = v_suicided y.

Lemma eq_same used x y : account_eq x y -> account_same used x y.
Proof. intros (A & B & C & D & F). repeat split; auto. Qed.

Lemma account_same_trans used x y z : account_same used x y -> account_same used y z -> account_same used x z.
Proof. intros (A & B & C & D & F) (A' & B' & C' & D' & F'). repeat split; try congruence. intros k Hk. rewrite D, D'; auto. Qed.

Lemma account_same_sym used x y : account_same used x y -> account_same used y x.
Proof. intros (A & B & C & D & F). repeat split; auto. intros k Hk. symmetry. auto. Qed.

(** A loop that keeps an invariant. *)
Lemma each_inv {A B : Type} (f : B -> A -> outcome A) (P : list B -> A -> Prop) xs : forall a a',
  (forall x xs a a', P (x :: xs) a -> f x a = Ret a' -> P xs a') -> P xs a -> each f xs a = Ret a' -> P [] a'.
Proof.
  induction xs as [|x xs IH]; intros a a' Hf Ha; cbn [each]; [intros [= <-]; exact Ha|].
  destruct (f x a) as [a1|] eqn:E1; [|discriminate]. cbn [obind]. apply IH; [exact Hf|apply (Hf x xs a); assumption].
Qed.

Section final.
Context {T E : Type} {HT : Trie T E} {HL : TrieLaws T E}.
Variable Keccak256 : list Z -> list Z.
Variable db : Database T E.
Variable decodeAccount : list Z -> option Account.
Variable range_slots : gmap Z Z -> list (Z * Z).
Variable range_dirty : gset Z -> list Z.
Abbreviation St := (@State T E).
Abbreviation Obj := (@stateObject T E).
Abbreviation slot := (trie_slot Keccak256 db).
Abbreviation slot_ok := (slot_used (@trie_key T E HT HL)).
Abbreviation addr_ok := (address_used (@trie_key T E HT HL)).
#[local] Instance fin_obj_equiv : Equiv Obj := object_equiv Keccak256 db.
#[local] Instance fin_obj_equivalence : Equivalence (≡@{Obj}) := object_equivalence Keccak256 db.

(** A range visits every entry once. *)
Hypothesis Hslots : forall m, range_slots m ≡ₚ map_to_list m.

(** What the database has: the storage of a root, and the code of a hash. *)
Definition root_held (r : Hash) : Prop := forall a, exists t, OpenStorageTrie db a r = Ok t /\ trie_ok t.
Definition code_held (h : Hash) : Prop := h = emptyCode Keccak256 \/ forall a, snd (ContractCode db a h) = None.
Definition account_held (d : Account) : Prop := root_held (Root d) /\ code_held (acc_CodeHash d).
Hypothesis Hzero : root_held 0.

(** ** Objects *)

Record account_ok (d : Account) : Prop := {
  acc_nonce_ok : is_u64 (Nonce d); acc_root_ok : hash_ok (Root d); acc_code_ok : hash_ok (acc_CodeHash d) }.

(** Code that was set has its hash; other code is the code of the database, when it was read. *)
Definition code_inv (o : Obj) : Prop :=
  if dirtyCode o then acc_CodeHash (data o) = BytesToHash (Keccak256 (code o))
  else code_held (acc_CodeHash (data o)) /\
    (code o = [] \/ acc_CodeHash (data o) <> emptyCode Keccak256 /\ code o = fst (ContractCode db (addrHash Keccak256 (address o)) (acc_CodeHash (data o)))).

(** A dirty slot is cached, and a cached slot that is not dirty is in the trie; a
    trie that was not opened yet can be opened. *)
Record obj_inv (o : Obj) : Prop := {
  oi_held : obj_trie o = None -> root_held (Root (data o));
  oi_code : code_inv o;
  oi_account : account_ok (data o);
  oi_trie t : obj_trie o = Some t -> trie_ok t;
  oi_cached (k v : Z) : cachedStorage o !! k = Some v -> slot_ok k;
  oi_range (k v : Z) : dirtyStorage o !! k = Some v -> hash_ok v;
  oi_dirty (k v : Z) : dirtyStorage o !! k = Some v -> cachedStorage o !! k = Some v;
  oi_clean (k v : Z) : cachedStorage o !! k = Some v -> dirtyStorage o !! k = None -> slot o k = v }.

(** The invariant depends only on the storage, the code and the account. *)
Lemma obj_inv_proper' (o o' : Obj) : obj_inv o -> code_inv o' -> account_ok (data o') -> address o' = address o -> Root (data o') = Root (data o) ->
  obj_trie o' = obj_trie o -> cachedStorage o' = cachedStorage o -> dirtyStorage o' = dirtyStorage o -> obj_inv o'.
Proof.
  intros [I0 I0' I1 I2 I3 I4 I5 I6] Hco Hd Ha Hr Ht Hc Hdi. split; rewrite ?Ht, ?Hc, ?Hdi, ?Hr; auto.
  intros k v Hk Hn. rewrite (trie_slot_proper Keccak256 db o o' k) by assumption. auto.
Qed.

Lemma obj_inv_proper (o o' : Obj) : obj_inv o -> account_ok (data o') -> address o' = address o -> Root (data o') = Root (data o) ->
  obj_trie o' = obj_trie o -> cachedStorage o' = cachedStorage o -> dirtyStorage o' = dirtyStorage o ->
  code o' = code o -> dirtyCode o' = dirtyCode o -> acc_CodeHash (data o') = acc_CodeHash (data o) -> obj_inv o'.
Proof.
  intros Hi Hd Ha Hr Ht Hc Hdi E1 E2 E3. apply (obj_inv_proper' o); auto. unfold code_inv. rewrite E1, E2, E3, Ha. apply (oi_code o Hi).
Qed.

Definition slot_in (t : T) (k : Hash) : Hash :=
  match TryGet t (Hash_Bytes k) with Ok enc => fst (slot_value enc) | Err _ => 0 end.

(** Fields that [updateTrie] leaves. *)
Definition same_fields (o o' : Obj) : Prop :=
  address o' = address o /\ data o' = data o /\ code o' = code o /\ cachedStorage o' = cachedStorage o /\
  dirtyCode o' = dirtyCode o /\ suicided o' = suicided o /\ touched o' = touched o /\ deleted o' = deleted o /\ onDirty o' = onDirty o.

Lemma setError_same (o : Obj) err : same_fields o (object_setError o err) /\ dirtyStorage (object_setError o err) = dirtyStorage o /\
  obj_trie (object_setError o err) = obj_trie o /\ (obj_dbErr (object_setError o err) = None -> err = None /\ obj_dbErr o = None).
Proof. unfold same_fields, object_setError. destruct (obj_dbErr o) eqn:Ee; cbn; repeat split; auto; congruence. Qed.

Lemma same_fields_trans o1 o2 o3 : same_fields o1 o2 -> same_fields o2 o3 -> same_fields o1 o3.
Proof. unfold same_fields. intros. intuition congruence. Qed.

(** The writes, with the slots [kvs] remaining. *)
Record writing (o0 : Obj) (t0 : T) (kvs : list (Z * Z)) (x : T * Obj) : Prop := {
  wr_nodup : NoDup kvs.*1;
  wr_in (k v : Z) : (k, v) ∈ kvs -> dirtyStorage o0 !! k = Some v;
  wr_trie : obj_dbErr (snd x) = None -> trie_ok (fst x);
  wr_fields : same_fields o0 (snd x);
  wr_left (k : Z) : dirtyStorage (snd x) !! k = if decide (k ∈ kvs.*1) then dirtyStorage o0 !! k else None;
  wr_slots (k : Z) : obj_dbErr (snd x) = None -> slot_ok k -> slot_in (fst x) k =
    if decide (k ∈ kvs.*1) then slot_in t0 k else match dirtyStorage o0 !! k with Some v => v | None => slot_in t0 k end }.

(** One write puts [v] in slot [key]. *)
Lemma write_slot_spec key v t (o : Obj) x : slot_ok key -> hash_ok v -> write_slot (key, v) (t, o) = Ret x ->
  same_fields o (snd x) /\ dirtyStorage (snd x) = base.delete key (dirtyStorage o) /\
  (obj_dbErr (snd x) = None -> obj_dbErr o = None /\ (trie_ok t -> trie_ok (fst x) /\
    forall k, slot_ok k -> slot_in (fst x) k = if decide (key = k) then v else slot_in t k)).
Proof.
  intros [Hk Uk] Hv. cbn [write_slot]. set (o1 := set_storage _ _ _).
  destruct (Z.eqb_spec v 0) as [->|Nv].
  - destruct (TryDelete t (Hash_Bytes key)) as [t' err] eqn:Ed. intros [= <-]. cbn [fst snd].
    destruct (setError_same o1 (option_map db_error err)) as (F & D & _ & R). split; [exact F|]. split; [exact D|].
    intros He. destruct (R He) as [Hn Ho]. destruct err; [discriminate|]. split; [exact Ho|]. intros Ht.
    split; [apply (delete_ok t (Hash_Bytes key) _ Ht Ed)|]. intros k [Hkk Ukk]. unfold slot_in.
    rewrite (get_delete t (Hash_Bytes key) t' (Hash_Bytes k) Ht Uk Ukk Ed).
    destruct (decide (key = k)) as [<-|N]; [rewrite decide_True by reflexivity; reflexivity|].
    rewrite decide_False; [reflexivity|]. intros He'. apply N, Hash_Bytes_inj; assumption.
  - fold (slot_bytes v). rewrite slot_encoded. cbn [obind]. destruct (TryUpdate t (Hash_Bytes key) _) as [t' err] eqn:Eu. intros [= <-]. cbn [fst snd].
    destruct (setError_same o1 (option_map db_error err)) as (F & D & _ & R). split; [exact F|]. split; [exact D|].
    intros He. destruct (R He) as [Hn Ho]. destruct err; [discriminate|]. pose proof (rlp_string_nonempty (slot_bytes v)) as Hne. split; [exact Ho|]. intros Ht.
    split; [apply (update_ok t (Hash_Bytes key) _ _ Ht Hne (slot_encoding_len v) Eu)|]. intros k [Hkk Ukk]. unfold slot_in.
    rewrite (get_update t (Hash_Bytes key) _ t' (Hash_Bytes k) Ht Uk Ukk Hne Eu).
    destruct (decide (key = k)) as [<-|N]; [rewrite decide_True by reflexivity; rewrite slot_value_encoded by exact Hv; reflexivity|].
    rewrite decide_False; [reflexivity|]. intros He'. apply N, Hash_Bytes_inj; assumption.
Qed.

Lemma writing_step o0 t0 kv kvs x x' : obj_inv o0 -> writing o0 t0 (kv :: kvs) x -> write_slot kv x = Ret x' -> writing o0 t0 kvs x'.
Proof.
  intros Hi [W1 W2 W3 W4 W5 W6] Hw. destruct kv as [key v], x as [t o]. cbn [fst snd] in *.
  assert (Hd : dirtyStorage o0 !! key = Some v) by (apply W2; left). pose proof (oi_range o0 Hi key v Hd) as Hv. pose proof (oi_cached o0 Hi key v (oi_dirty o0 Hi key v Hd)) as Hk.
  destruct (write_slot_spec key v t o x' Hk Hv Hw) as (F & D & R). rewrite fmap_cons in W1. cbn [fst] in W1. apply NoDup_cons in W1 as [N1 N2].
  assert (Hin : forall k, k ∈ ((key, v) :: kvs).*1 <-> k = key \/ k ∈ kvs.*1) by (intros k; rewrite fmap_cons, elem_of_cons; reflexivity).
  split; auto.
  - intros k w Hkw. apply W2. right. exact Hkw.
  - intros He. destruct (R He) as [Ho R']. apply (R' (W3 Ho)).
  - apply (same_fields_trans _ _ _ W4 F).
  - intros k. rewrite D. destruct (decide (k = key)) as [->|N]; [rewrite lookup_delete_eq, decide_False by exact N1; reflexivity|].
    rewrite lookup_delete_ne, W5 by congruence. apply decide_ext. rewrite Hin. intuition congruence.
  - intros k He Hkk. destruct (R He) as [Ho R']. destruct (R' (W3 Ho)) as [_ R2]. rewrite (R2 k Hkk), (W6 k Ho Hkk). unfold Hash in *.
    destruct (decide (key = k)) as [<-|N]; [rewrite (decide_False (P := key ∈ kvs.*1)) by exact N1; rewrite Hd; reflexivity|].
    apply decide_ext. rewrite Hin. intuition congruence.
Qed.

Lemma getTrie_more (o : Obj) : let o' := snd (getTrie Keccak256 db o) in
  same_fields o o' /\ dirtyStorage o' = dirtyStorage o /\ obj_trie o' = fst (getTrie Keccak256 db o) /\
  (obj_dbErr o' = None -> obj_dbErr o = None /\ fst (getTrie Keccak256 db o) <> None).
Proof.
  unfold getTrie, same_fields. destruct (obj_trie o) eqn:Et; [cbn; repeat split; auto; discriminate|].
  destruct (OpenStorageTrie _ _ _); [cbn; repeat split; auto; discriminate|].
  destruct (OpenStorageTrie _ _ 0); unfold object_setError; cbn [snd fst obj_dbErr set_obj_trie]; destruct (obj_dbErr o) eqn:Ee; cbn;
    repeat split; auto; congruence.
Qed.

Lemma getTrie_opens (o : Obj) : obj_inv o -> exists t, fst (getTrie Keccak256 db o) = Some t /\ trie_ok t /\ obj_dbErr (snd (getTrie Keccak256 db o)) = obj_dbErr o.
Proof.
  intros Hi. unfold getTrie. destruct (obj_trie o) as [t|] eqn:Et; [exists t; pose proof (oi_trie o Hi t Et); auto|].
  destruct (oi_held o Hi Et (addrHash Keccak256 (address o))) as (t & -> & Ht). exists t. auto.
Qed.

Lemma getTrie_ok (o : Obj) t : obj_inv o -> fst (getTrie Keccak256 db o) = Some t -> trie_ok t /\ forall k, slot o k = slot_in t k.
Proof.
  intros Hi Ht. split; [|intros k; unfold trie_slot; rewrite Ht; reflexivity].
  destruct (getTrie_opens o Hi) as (t' & Et & H & _). rewrite Et in Ht. injection Ht as <-. exact H.
Qed.

Abbreviation get_slot o k := (fst (object_GetState Keccak256 db o k)).

Lemma updateTrie_spec (o : Obj) tr o' : obj_inv o -> updateTrie Keccak256 db range_slots o = Ret (tr, o') -> obj_dbErr o' = None ->
  exists t, tr = Some t /\ obj_trie o' = Some t /\ trie_ok t /\ same_fields o o' /\ dirtyStorage o' = ∅ /\
    forall k, slot_ok k -> slot_in t k = get_slot o k.
Proof using Hslots.
  intros Hi. unfold updateTrie. pose proof (getTrie_more o) as (F & D & _ & He). pose proof (getTrie_ok o) as Ht.
  destruct (getTrie Keccak256 db o) as [[t0|] o1]; cbn [fst snd] in *.
  2: { destruct (range_slots _); [|discriminate]. intros [= <- <-] Hn. destruct (He Hn) as [_ Hx]. contradiction. }
  destruct (Ht t0 Hi eq_refl) as [Ht0 Hs0]. rewrite D. set (kvs := range_slots (dirtyStorage o)).
  destruct (each write_slot kvs (t0, o1)) as [[t o2]|] eqn:Ew; [|discriminate]. cbn [obind]. intros [= <- <-] Hn.
  assert (W : writing o t0 [] (t, o2)).
  { apply (each_inv write_slot (writing o t0) kvs (t0, o1)); [intros x xs a a'; apply (writing_step o t0 x xs a a' Hi)| |exact Ew].
    assert (Hp : kvs ≡ₚ map_to_list (dirtyStorage o)) by apply Hslots. split; auto.
    - rewrite Hp. apply NoDup_fst_map_to_list.
    - intros k v Hkv. rewrite Hp in Hkv. apply elem_of_map_to_list, Hkv.
    - intros k. cbn [snd]. rewrite D. case_decide as Hk; [reflexivity|]. apply eq_None_not_Some. intros [v Hv]. apply Hk.
      rewrite Hp. apply list_elem_of_fmap. exists (k, v). split; [reflexivity|]. apply elem_of_map_to_list, Hv.
    - intros k _ _. cbn [fst]. case_decide as Hk; [reflexivity|]. assert (Hd : dirtyStorage o !! k = None); [|unfold Hash in *; rewrite Hd; reflexivity].
      apply eq_None_not_Some. intros [v Hv]. apply Hk. rewrite Hp. apply list_elem_of_fmap. exists (k, v). split; [reflexivity|]. apply elem_of_map_to_list, Hv. }
  destruct W as [_ _ W3 W4 W5 W6]. cbn [fst snd] in *. assert (Ho2 : obj_dbErr o2 = None) by exact Hn. exists t.
  split; [reflexivity|]. split; [reflexivity|]. split; [apply W3, Ho2|]. split; [exact W4|]. split.
  - apply map_eq. intros k. cbn. rewrite W5, lookup_empty. reflexivity.
  - intros k Hk. rewrite (W6 k Ho2 Hk), object_GetState_value. cbn. rewrite <- Hs0. unfold Hash in *.
    destruct (dirtyStorage o !! k) as [v|] eqn:Ed; [rewrite (oi_dirty o Hi k v Ed); reflexivity|].
    destruct (cachedStorage o !! k) as [v|] eqn:Ec; [|reflexivity]. apply (oi_clean o Hi k v Ec Ed).
Qed.

(** An object after its storage is written: the slots are in the trie whose hash is the root. *)
Record flushed (o o' : Obj) : Prop := {
  fl_trie : exists t, obj_trie o' = Some t /\ trie_ok t /\ Root (data o') = trie_Hash t /\ forall k, slot_ok k -> slot_in t k = get_slot o k;
  fl_data : data o' = mkAccount (Nonce (data o)) (acc_Balance (data o)) (Root (data o')) (acc_CodeHash (data o));
  fl_address : address o' = address o;
  fl_code : code o' = code o;
  fl_dirtyCode : dirtyCode o' = dirtyCode o;
  fl_cached : cachedStorage o' = cachedStorage o;
  fl_dirty : dirtyStorage o' = ∅;
  fl_suicided : suicided o' = suicided o;
  fl_deleted : deleted o' = deleted o;
  fl_onDirty : onDirty o' = onDirty o }.

Lemma updateRoot_spec (o o' : Obj) : obj_inv o -> updateRoot Keccak256 db range_slots o = Ret o' -> obj_dbErr o' = None -> flushed o o'.
Proof using Hslots.
  intros Hi. unfold updateRoot. destruct (updateTrie _ _ _ o) as [[tr o1]|] eqn:Eu; [|discriminate]. cbn [obind].
  destruct tr as [t|]; [|discriminate]. intros [= <-] Hn.
  destruct (updateTrie_spec o (Some t) o1 Hi Eu Hn) as (t' & [= <-] & Ht & Hok & F & Hd & Hs). destruct F as (A & D & C & G & DC & S & _ & X & O).
  split; cbn; auto; [exists t; auto|rewrite D; reflexivity].
Qed.

(** Reading a slot gives the same before and after, from the cache or from the trie. *)
Lemma flushed_slot o o' k : obj_inv o -> flushed o o' -> slot_ok k -> slot o' k = get_slot o k /\ get_slot o' k = get_slot o k.
Proof.
  intros Hi H Hk. destruct (fl_trie o o' H) as (t & Ht & _ & _ & Hs).
  assert (E1 : slot o' k = get_slot o k) by (rewrite <- (Hs k Hk); unfold trie_slot, getTrie; rewrite Ht; reflexivity).
  split; [exact E1|]. rewrite object_GetState_value, (fl_cached o o' H), E1, object_GetState_value. unfold Hash in *. destruct (cachedStorage o !! k); reflexivity.
Qed.

Lemma flushed_inv o o' : obj_inv o -> flushed o o' -> obj_inv o'.
Proof.
  intros Hi H. pose proof (oi_cached o Hi) as Hc. destruct (fl_trie o o' H) as (t & Ht & Hok & Hr & Hs). split.
  - rewrite Ht. discriminate.
  - unfold code_inv. rewrite (fl_code o o' H), (fl_dirtyCode o o' H), (fl_data o o' H), (fl_address o o' H). apply (oi_code o Hi).
  - destruct (oi_account o Hi) as [A1 A2 A3]. rewrite (fl_data o o' H). split; cbn; auto. rewrite Hr. apply hash_range, Hok.
  - rewrite Ht. intros t' [= <-]. exact Hok.
  - rewrite (fl_cached o o' H). exact Hc.
  - rewrite (fl_dirty o o' H). intros k v Hk. rewrite lookup_empty in Hk. discriminate.
  - rewrite (fl_dirty o o' H). intros k v Hk. rewrite lookup_empty in Hk. discriminate.
  - intros k v. rewrite (fl_cached o o' H). intros Hk _. destruct (flushed_slot o o' k Hi H (Hc k v Hk)) as [E1 _].
    rewrite E1, object_GetState_value. unfold Hash in *. rewrite Hk. reflexivity.
Qed.

Lemma write_slot_err kv t (o : Obj) x : write_slot kv (t, o) = Ret x ->
  (obj_dbErr (snd x) = None -> obj_dbErr o = None) /\ address (snd x) = address o.
Proof.
  destruct kv as [key v]. cbn [write_slot]. set (o1 := set_storage _ _ _).
  assert (P : forall err, (obj_dbErr (object_setError o1 err) = None -> obj_dbErr o = None) /\ address (object_setError o1 err) = address o).
  { intros err. destruct (setError_same o1 err) as ((A & _) & _ & _ & R). split; [intros H; apply (R H)|exact A]. }
  destruct (v =? 0); [destruct (TryDelete _ _); intros [= <-]; apply P|].
  fold (slot_bytes v). rewrite slot_encoded. cbn [obind]. destruct (TryUpdate _ _ _). intros [= <-]. apply P.
Qed.

(** The error of an object stays, and its address. *)
Lemma updateRoot_err (o o' : Obj) : updateRoot Keccak256 db range_slots o = Ret o' -> (obj_dbErr o' = None -> obj_dbErr o = None) /\ address o' = address o.
Proof.
  unfold updateRoot, updateTrie. pose proof (getTrie_more o) as ((Ha & _) & _ & _ & He). destruct (getTrie Keccak256 db o) as [[t0|] o1]; cbn [fst snd] in *.
  2: { destruct (range_slots _); discriminate. }
  destruct (each _ _ _) as [[t o2]|] eqn:Ew; [|discriminate]. cbn [obind]. intros [= <-]. set (P (x : T * Obj) := (obj_dbErr (snd x) = None -> obj_dbErr o1 = None) /\ address (snd x) = address o1).
  assert (H : P (t, o2)).
  { refine (each_inv write_slot (fun _ => P) _ (t0, o1) (t, o2) _ _ Ew); [|split; [intros H; exact H|reflexivity]].
    intros x xs [ta a] a' [Ha1 Ha2] Hw. destruct (write_slot_err x ta a a' Hw) as [H1 H2]. split; [auto|]. cbn [snd] in *. congruence. }
  destruct H as [H1 H2]. split; [intros Hn; apply He, H1, Hn|]. cbn [snd] in H2. cbn. congruence.
Qed.

(** ** States *)

(** The account the trie has. *)
Definition stored (t : T) (a : Address) : option Account :=
  match TryGet t (Address_Bytes a) with
  | Ok (x :: enc) => decodeAccount (x :: enc)
  | _ => None
  end.

Lemma loaded_stored t a : loaded decodeAccount t a = newObject a <$> stored t a.
Proof. unfold loaded, stored. destruct (TryGet _ _) as [[|x enc]|]; reflexivity. Qed.

(** [EIP158] accounts that [Finalise(deleteEmpty)] removes. *)
Definition removed (deleteEmpty : bool) (o : Obj) : bool := suicided o || (deleteEmpty && empty_object Keccak256 o).

Record fin_inv (deleteEmpty : bool) (s : St) : Prop := {
  fi_trie : trie_ok (trie s);
  fi_object (a : Z) o : stateObjects s !! a = Some o -> addr_ok a /\ address o = a /\ obj_inv o;
  fi_clean (a : Z) o : stateObjects s !! a = Some o -> a ∉ stateObjectsDirty s -> onDirty o = true /\ loaded decodeAccount (trie s) a ≡ Some o;
  fi_deleted (a : Z) o : stateObjects s !! a = Some o -> deleted o = true -> removed deleteEmpty o = true /\ stored (trie s) a = None;
  fi_dirty (a : Z) : a ∈ stateObjectsDirty s -> is_Some (stateObjects s !! a);
  fi_held (a : Z) d : addr_ok a -> a ∉ stateObjectsDirty s -> stored (trie s) a = Some d -> account_held d }.

Definition no_errors (s : St) : Prop := dbErr s = None /\ forall (a : Z) o, stateObjects s !! a = Some o -> obj_dbErr o = None.

(** Balances of 256 bits. *)
Definition small_balance (d : Account) : Prop := 0 <= acc_Balance d < 2 ^ 256.
Definition small_balances (s : St) : Prop := forall (a : Z) o, stateObjects s !! a = Some o -> small_balance (data o).

(** The decoder inverts the encoder and gives accounts. *)
Hypothesis Hdecode : forall d enc, account_ok d -> small_balance d -> encodeAccount d = Ret (Ok enc) -> enc <> [] /\ decodeAccount enc = Some d.
Hypothesis Hdecoded : forall enc d, decodeAccount enc = Some d -> account_ok d.

Lemma setError_state (s : St) err : trie (setError s err) = trie s /\ stateObjects (setError s err) = stateObjects s /\
  stateObjectsDirty (setError s err) = stateObjectsDirty s /\ (dbErr (setError s err) = None -> err = None /\ dbErr s = None).
Proof. unfold setError. destruct (dbErr s) eqn:Ee; cbn; repeat split; auto; congruence. Qed.

Lemma other_stored_update t enc t' a b : trie_ok t -> addr_ok a -> addr_ok b -> a <> b -> enc <> [] ->
  TryUpdate t (Address_Bytes b) enc = (t', None) -> stored t' a = stored t a.
Proof.
  intros Ht [Ha Ua] [Hb Ub] N Hne Hu. unfold stored.
  rewrite (get_update t (Address_Bytes b) enc t' (Address_Bytes a) Ht Ub Ua Hne Hu), decide_False; [reflexivity|].
  intros He. apply N. symmetry. apply Address_Bytes_inj; assumption.
Qed.

Lemma other_stored_delete t t' a b : trie_ok t -> addr_ok a -> addr_ok b -> a <> b ->
  TryDelete t (Address_Bytes b) = (t', None) -> stored t' a = stored t a.
Proof.
  intros Ht [Ha Ua] [Hb Ub] N Hu. unfold stored.
  rewrite (get_delete t (Address_Bytes b) t' (Address_Bytes a) Ht Ub Ua Hu), decide_False; [reflexivity|].
  intros He. apply N. symmetry. apply Address_Bytes_inj; assumption.
Qed.

(** A dirty object is deleted, and gone from the trie, or written: its slots to its trie, its account to the trie of accounts. *)
Definition settled_object (deleteEmpty : bool) (b : Z) (o : Obj) (s' : St) : Prop :=
  if removed deleteEmpty o
  then (exists o', stateObjects s' !! b = Some o' /\ deleted o' = true /\ removed deleteEmpty o' = true /\ obj_inv o' /\ address o' = b) /\ stored (trie s') b = None
  else exists o', stateObjects s' !! b = Some o' /\ flushed o o' /\ obj_inv o' /\ stored (trie s') b = Some (data o').

(** What finalising does to one object, and leaves of the others. *)
Record finalised_at (deleteEmpty : bool) (b : Z) (o : Obj) (s s' : St) : Prop := {
  fa_others (a : Z) : a <> b -> stateObjects s' !! a = stateObjects s !! a;
  fa_stored (a : Z) : a <> b -> addr_ok a -> stored (trie s') a = stored (trie s) a;
  fa_dirty : stateObjectsDirty s' = stateObjectsDirty s;
  fa_trie : trie_ok (trie s');
  fa_object : settled_object deleteEmpty b o s' }.

Lemma updateStateObject_objects s (o : Obj) s' : updateStateObject s o = Ret s' -> stateObjects s' = stateObjects s.
Proof.
  unfold updateStateObject. destruct (encodeAccount _) as [[enc|]|]; cbn [obind]; try discriminate. destruct (TryUpdate _ _ _) as [t err].
  intros [= <-]. apply (setError_state (set_trie s t) err).
Qed.

Lemma updateStateObject_spec s (o : Obj) s' : trie_ok (trie s) -> addr_ok (address o) -> account_ok (data o) -> small_balance (data o) ->
  updateStateObject s o = Ret s' -> dbErr s' = None ->
  dbErr s = None /\ trie_ok (trie s') /\ stateObjects s' = stateObjects s /\ stateObjectsDirty s' = stateObjectsDirty s /\
  stored (trie s') (address o) = Some (data o) /\ forall a, a <> address o -> addr_ok a -> stored (trie s') a = stored (trie s) a.
Proof using Hdecode.
  intros Ht Ha Hd Hsm. unfold updateStateObject. destruct (encodeAccount (data o)) as [[enc|]|] eqn:Ee; cbn [obind]; try discriminate.
  destruct (Hdecode (data o) enc Hd Hsm Ee) as [Hne Hdec].
  destruct (encodeAccount_total (data o) (acc_nonce_ok _ Hd) Hsm) as (enc' & Ee' & Hlen). rewrite Ee in Ee'. injection Ee' as <-. destruct (TryUpdate _ _ enc) as [t err] eqn:Eu. intros [= <-].
  destruct (setError_state (set_trie s t) err) as (E1 & E2 & E3 & E4). intros Hn. destruct (E4 Hn) as [-> Hs]. rewrite E1, E2, E3. cbn [set_trie trie stateObjects stateObjectsDirty].
  pose proof (proj2 Ha) as Ua. repeat split; auto.
  - apply (update_ok _ _ _ _ Ht Hne Hlen Eu).
  - unfold stored. rewrite (get_update _ _ _ _ _ Ht Ua Ua Hne Eu), decide_True by reflexivity. destruct enc; [contradiction|exact Hdec].
  - intros a N Hao. exact (other_stored_update (trie s) enc t a (address o) Ht Hao Ha N Hne Eu).
Qed.

Lemma deleteStateObject_spec s (o : Obj) : trie_ok (trie s) -> addr_ok (address o) -> dbErr (deleteStateObject s o) = None ->
  let s' := deleteStateObject s o in
  dbErr s = None /\ trie_ok (trie s') /\ stateObjectsDirty s' = stateObjectsDirty s /\
  stateObjects s' = <[address o := set_flags o (suicided o) (touched o) true (onDirty o)]> (stateObjects s) /\
  stored (trie s') (address o) = None /\ forall a, a <> address o -> addr_ok a -> stored (trie s') a = stored (trie s) a.
Proof.
  intros Ht Ha. unfold deleteStateObject. cbn zeta. set (o' := set_flags _ _ _ _ _). cbn [setStateObject set_objects trie].
  change (address o') with (address o). destruct (TryDelete _ _) as [t err] eqn:Eu.
  destruct (setError_state (set_trie (setStateObject s o') t) err) as (E1 & E2 & E3 & E4). intros Hn. destruct (E4 Hn) as [-> Hs]. rewrite E1, E2, E3.
  cbn [set_trie setStateObject set_objects trie stateObjects stateObjectsDirty]. pose proof (proj2 Ha) as Ua. repeat split; auto.
  - apply (delete_ok _ _ _ Ht Eu).
  - unfold stored. rewrite (get_delete _ _ _ _ Ht Ua Ua Eu), decide_True by reflexivity. reflexivity.
  - intros a N Hao. exact (other_stored_delete (trie s) t a (address o) Ht Hao Ha N Eu).
Qed.

(** Whatever the errors: objects stay under their address, and errors stay. *)
Definition addressed (s : St) : Prop := forall (a : Z) o, stateObjects s !! a = Some o -> address o = a.

Lemma put_addressed (s s' : St) (b : Z) (o o' : Obj) : addressed s -> stateObjects s !! b = Some o -> address o' = b ->
  stateObjects s' = <[b := o']> (stateObjects s) -> (dbErr s' = None -> dbErr s = None) -> (obj_dbErr o' = None -> obj_dbErr o = None) ->
  addressed s' /\ (no_errors s' -> no_errors s).
Proof.
  intros Ha Hb Ho' Es Hd He. split.
  - intros a oa. rewrite Es. destruct (decide (a = b)) as [->|N]; [rewrite lookup_insert_eq; intros [= <-]; exact Ho'|].
    rewrite lookup_insert_ne by congruence. apply Ha.
  - intros [H1 H2]. split; [auto|]. intros a oa Hoa. destruct (decide (a = b)) as [->|N].
    + rewrite Hb in Hoa. injection Hoa as <-. apply He, (H2 b). rewrite Es. apply lookup_insert_eq.
    + apply (H2 a). rewrite Es, lookup_insert_ne by congruence. exact Hoa.
Qed.

Lemma finalise_one_addressed de (b : Z) s s' : addressed s -> finalise_one Keccak256 db range_slots de b s = Ret s' ->
  addressed s' /\ (no_errors s' -> no_errors s).
Proof.
  intros Ha. unfold finalise_one. unfold Address in *. destruct (stateObjects s !! b) as [o|] eqn:Eb; [|discriminate]. pose proof (Ha b o Eb) as Hao.
  destruct (_ || _).
  - intros [= <-]. unfold deleteStateObject. set (o' := set_flags _ _ _ _ _). cbn zeta. destruct (TryDelete _ _) as [t err].
    destruct (setError_state (set_trie (setStateObject s o') t) err) as (E1 & E2 & E3 & E4).
    apply (put_addressed s _ b o o' Ha Eb Hao); [rewrite E2; cbn; f_equal; exact Hao|intros H; apply (E4 H)|auto].
  - destruct (updateRoot _ _ _ o) as [o1|] eqn:Eu; [|discriminate]. cbn [obind]. intros Hup. destruct (updateRoot_err o o1 Eu) as [Herr Ha1].
    apply (put_addressed s s' b o o1 Ha Eb); [congruence|rewrite (updateStateObject_objects _ _ _ Hup); cbn; f_equal; congruence| |exact Herr].
    unfold updateStateObject in Hup. destruct (encodeAccount _) as [[enc|]|]; cbn [obind] in Hup; try discriminate.
    destruct (TryUpdate _ _ enc) as [t err]. injection Hup as <-. destruct (setError_state (set_trie (setStateObject s o1) t) err) as (_ & _ & _ & E4).
    intros H. apply (E4 H).
Qed.

Lemma finalise_one_spec de (b : Z) s s' : fin_inv de s -> (forall o, stateObjects s !! b = Some o -> small_balance (data o)) -> finalise_one Keccak256 db range_slots de b s = Ret s' -> no_errors s' ->
  exists o, stateObjects s !! b = Some o /\ finalised_at de b o s s'.
Proof using Hslots Hdecode.
  intros [F1 F2 F3 F4 F5 F6] Hsm. unfold finalise_one. unfold Address in *. destruct (stateObjects s !! b) as [o|] eqn:Eb; [|discriminate]. specialize (Hsm o eq_refl).
  destruct (F2 b o Eb) as (Hab & Hao & Hio). fold (removed de o). destruct (removed de o) eqn:Er.
  - intros [= <-] [Hn Hno]. rewrite <- Hao in Hab. destruct (deleteStateObject_spec s o F1 Hab Hn) as (D1 & D2 & D3 & D4 & D5 & D6).
    rewrite Hao in *.
    exists o. split; [reflexivity|]. split; auto.
    + intros a N. rewrite D4, lookup_insert_ne by congruence. reflexivity.
    + unfold settled_object. rewrite Er. split; [|exact D5]. eexists. rewrite D4, lookup_insert_eq. split; [reflexivity|]. split; [reflexivity|]. split; [exact Er|].
      split; [apply (obj_inv_proper o); auto; apply Hio|exact Hao].
  - destruct (updateRoot _ _ _ o) as [o1|] eqn:Eu; [|discriminate]. cbn [obind]. intros Hup [Hn Hno].
    destruct (updateRoot_err o o1 Eu) as [Herr Ha1]. rewrite Hao in Ha1.
    pose proof (updateStateObject_objects _ _ _ Hup) as Hobj. cbn [setStateObject set_objects stateObjects] in Hobj. unfold Address in *. rewrite Ha1 in Hobj.
    assert (H1 : stateObjects s' !! b = Some o1) by (rewrite Hobj; apply lookup_insert_eq).
    pose proof (updateRoot_spec o o1 Hio Eu (Hno b o1 H1)) as Hf. pose proof (flushed_inv o o1 Hio Hf) as Hi1.
    destruct (updateStateObject_spec (setStateObject s o1) o1 s' F1) as (U1 & U2 & U3 & U4 & U5 & U6); try assumption; [rewrite Ha1; exact Hab|apply Hi1|unfold small_balance; rewrite (fl_data o o1 Hf); exact Hsm|].
    rewrite Ha1 in *.
    exists o. split; [reflexivity|]. split; auto; [intros a N; rewrite Hobj, lookup_insert_ne by congruence; reflexivity|].
      unfold settled_object. rewrite Er. exists o1. auto.
Qed.

Lemma finalised_inv de (b : Z) o s s' : fin_inv de s -> b ∈ stateObjectsDirty s -> stateObjects s !! b = Some o -> finalised_at de b o s s' -> fin_inv de s'.
Proof.
  intros [F1 F2 F3 F4 F5 F6] Hb Eb [A1 A2 A3 A4 A5]. destruct (F2 b o Eb) as (Hab & Hao & Hio).
  assert (Ho : forall a, a = b -> exists o', stateObjects s' !! a = Some o' /\ address o' = a /\ obj_inv o' /\ (deleted o' = true -> removed de o' = true /\ stored (trie s') a = None)).
  { intros a ->. unfold settled_object in A5. destruct (removed de o) eqn:Er.
    - destruct A5 as [(o' & E' & H1 & H2 & H3 & H4) H5]. exists o'. auto.
    - destruct A5 as (o' & E' & H1 & H2 & H3). exists o'. split; [exact E'|]. split; [rewrite (fl_address o o' H1); exact Hao|]. split; [exact H2|].
      rewrite (fl_deleted o o' H1). intros Hd. destruct (F4 b o Eb Hd). congruence. }
  split; auto.
  - intros a oa Ha. destruct (decide (a = b)) as [->|N]; [|rewrite A1 in Ha by exact N; apply (F2 a oa Ha)].
    destruct (Ho b eq_refl) as (o' & E' & H1 & H2 & _). rewrite E' in Ha. injection Ha as <-. auto.
  - intros a oa Ha Hd. rewrite A3 in Hd. assert (N : a <> b) by (intros ->; contradiction). rewrite A1 in Ha by exact N.
    rewrite loaded_stored, (A2 a N (proj1 (F2 a oa Ha))), <- loaded_stored. apply (F3 a oa Ha Hd).
  - intros a oa Ha Hd. destruct (decide (a = b)) as [->|N].
    + destruct (Ho b eq_refl) as (o' & E' & _ & _ & H3). rewrite E' in Ha. injection Ha as <-. auto.
    + rewrite A1 in Ha by exact N. rewrite (A2 a N (proj1 (F2 a oa Ha))). apply (F4 a oa Ha Hd).
  - intros a Ha. rewrite A3 in Ha. destruct (decide (a = b)) as [->|N]; [|rewrite A1 by exact N; apply F5, Ha].
    destruct (Ho b eq_refl) as (o' & E' & _). rewrite E'. eauto.
  - intros a d Ha Hn. rewrite A3 in Hn. assert (N : a <> b) by (intros ->; contradiction). rewrite (A2 a N Ha). apply F6; assumption.
Qed.

Lemma inv_addressed de s : fin_inv de s -> addressed s.
Proof. intros F a o Ha. apply (fi_object de s F a o Ha). Qed.

(** The loop of [Finalise]. *)
Lemma finalise_loop_err de xs : forall s s', addressed s -> each (finalise_one Keccak256 db range_slots de) xs s = Ret s' -> no_errors s' -> no_errors s.
Proof.
  induction xs as [|x xs IH]; intros s s' Ha; cbn [each]; [intros [= <-]; auto|].
  destruct (finalise_one _ _ _ de x s) as [s1|] eqn:E1; [|discriminate]. cbn [obind]. intros H Hn.
  destruct (finalise_one_addressed de x s s1 Ha E1) as [Ha1 H1]. apply H1, (IH s1 s' Ha1 H Hn).
Qed.

Lemma finalise_loop de xs : forall s s', fin_inv de s -> NoDup xs -> (forall x, x ∈ xs -> x ∈ stateObjectsDirty s) ->
  (forall (x : Z) o, x ∈ xs -> stateObjects s !! x = Some o -> small_balance (data o)) -> each (finalise_one Keccak256 db range_slots de) xs s = Ret s' -> no_errors s' ->
  fin_inv de s' /\ stateObjectsDirty s' = stateObjectsDirty s /\
  (forall a : Z, a ∉ xs -> stateObjects s' !! a = stateObjects s !! a /\ (addr_ok a -> stored (trie s') a = stored (trie s) a)) /\
  (forall a : Z, a ∈ xs -> exists o, stateObjects s !! a = Some o /\ settled_object de a o s').
Proof using Hslots Hdecode.
  induction xs as [|b xs IH]; intros s s' Hi Hnd Hin Hsm; cbn [each].
  { intros [= <-] _. split; [exact Hi|]. split; [reflexivity|]. split; [auto|]. intros a Ha. apply elem_of_nil in Ha. contradiction. }
  destruct (finalise_one _ _ _ de b s) as [s1|] eqn:E1; [|discriminate]. cbn [obind]. intros H Hn. apply NoDup_cons in Hnd as [Nb Hnd].
  destruct (finalise_one_addressed de b s s1 (inv_addressed de s Hi) E1) as [Ha1 _].
  destruct (finalise_one_spec de b s s1 Hi (fun o => Hsm b o ltac:(left)) E1 (finalise_loop_err de xs s1 s' Ha1 H Hn)) as (o & Eo & A).
  assert (Hbd : b ∈ stateObjectsDirty s) by (apply Hin; left). pose proof (finalised_inv de b o s s1 Hi Hbd Eo A) as Hi1.
  destruct (IH s1 s' Hi1 Hnd) as (R1 & R2 & R3 & R4); auto.
  { intros x Hx. rewrite (fa_dirty _ _ _ _ _ A). apply Hin. right. exact Hx. }
  { intros x ox Hx Eox. apply (Hsm x); [right; exact Hx|]. rewrite <- Eox. symmetry. apply (fa_others _ _ _ _ _ A). intros ->. contradiction. }
  split; [exact R1|]. split; [rewrite R2; apply A|]. split.
  - intros a Ha. apply not_elem_of_cons in Ha as [N Ha]. destruct (R3 a Ha) as [E1' E2']. rewrite E1', (fa_others _ _ _ _ _ A a N). split; [reflexivity|].
    intros Hok. rewrite (E2' Hok). apply (fa_stored _ _ _ _ _ A a N Hok).
  - intros a Ha. apply elem_of_cons in Ha as [->|Ha].
    + exists o. split; [exact Eo|]. pose proof (fa_object _ _ _ _ _ A) as Ho. destruct (R3 b Nb) as [E1' E2']. unfold settled_object in *.
      rewrite E1', (E2' (proj1 (fi_object de s Hi b o Eo))). exact Ho.
    + destruct (R4 a Ha) as (oa & Eoa & Hoa). exists oa. split; [|exact Hoa]. rewrite <- Eoa. symmetry. apply (fa_others _ _ _ _ _ A). intros ->. contradiction.
Qed.

(** ** [Finalise] *)

Hypothesis Hdirty : forall d, range_dirty d ≡ₚ elements d.

Lemma clear_fields (s : St) : let s' := clearJournalAndRefund s in trie s' = trie s /\ stateObjects s' = stateObjects s /\
  stateObjectsDirty s' = stateObjectsDirty s /\ dbErr s' = dbErr s.
Proof. repeat split. Qed.

Lemma fin_inv_fields de s s' : fin_inv de s -> trie s' = trie s -> stateObjects s' = stateObjects s -> stateObjectsDirty s' = stateObjectsDirty s -> fin_inv de s'.
Proof. intros [F1 F2 F3 F4 F5 F6] E1 E2 E3. split; rewrite ?E1, ?E2, ?E3; assumption. Qed.

Lemma Finalise_state de s s' : fin_inv de s -> small_balances s -> Finalise Keccak256 db range_slots range_dirty de s = Ret s' -> no_errors s' ->
  fin_inv de s' /\ stateObjectsDirty s' = stateObjectsDirty s /\
  (forall a : Z, a ∉ stateObjectsDirty s -> stateObjects s' !! a = stateObjects s !! a /\ (addr_ok a -> stored (trie s') a = stored (trie s) a)) /\
  (forall a : Z, a ∈ stateObjectsDirty s -> exists o, stateObjects s !! a = Some o /\ settled_object de a o s').
Proof using Hslots Hdecode Hdirty.
  intros Hi Hsm. unfold Finalise. destruct (each _ _ s) as [s1|] eqn:El; [|discriminate]. cbn [obind]. intros [= <-] Hn.
  assert (Hp : range_dirty (stateObjectsDirty s) ≡ₚ elements (stateObjectsDirty s)) by apply Hdirty.
  assert (Hin : forall x, x ∈ range_dirty (stateObjectsDirty s) <-> x ∈ stateObjectsDirty s) by (intros x; rewrite Hp; apply elem_of_elements).
  destruct (finalise_loop de (range_dirty (stateObjectsDirty s)) s s1 Hi) as (R1 & R2 & R3 & R4); [rewrite Hp; apply NoDup_elements|intros x; apply Hin|intros x o _; apply Hsm|exact El|exact Hn|].
  split; [apply (fin_inv_fields de s1); auto|]. split; [exact R2|]. split.
  - intros a Ha. apply R3. rewrite Hin. exact Ha.
  - intros a Ha. apply R4. rewrite Hin. exact Ha.
Qed.

(** A live object that is not dirty is the one in the trie. *)
Lemma live_cases (s : St) (a : Z) : live decodeAccount s a =
  match stateObjects s !! a with Some o => if deleted o then None else Some o | None => newObject a <$> stored (trie s) a end.
Proof. rewrite live_value, loaded_stored. reflexivity. Qed.

(** After [Finalise] the trie has exactly the accounts the queries see. *)
Lemma Finalise_stored de s s' (a : Z) : fin_inv de s -> small_balances s -> Finalise Keccak256 db range_slots range_dirty de s = Ret s' -> no_errors s' -> addr_ok a ->
  stored (trie s') a = data <$> live decodeAccount s' a.
Proof using Hslots Hdecode Hdirty.
  intros Hi Hsm Hf Hn Ha. destruct (Finalise_state de s s' Hi Hsm Hf Hn) as (Hi' & Ed & R3 & R4). rewrite live_cases.
  destruct (decide (a ∈ stateObjectsDirty s)) as [Hd|Hd].
  - destruct (R4 a Hd) as (o & Eo & So). unfold settled_object in So. destruct (removed de o) eqn:Er.
    + destruct So as [(o' & E' & D' & _) St']. rewrite E', D', St'. reflexivity.
    + destruct So as (o' & E' & F' & _ & St'). rewrite E', St'. rewrite (fl_deleted o o' F').
      destruct (deleted o) eqn:Edel; [|reflexivity]. destruct (fi_deleted de s Hi a o Eo Edel). congruence.
  - destruct (stateObjects s' !! a) as [o|] eqn:Eo; [|destruct (stored _ a); reflexivity].
    rewrite <- Ed in Hd. destruct (fi_clean de s' Hi' a o Eo Hd) as [_ Hl]. rewrite loaded_stored in Hl.
    destruct (stored (trie s') a) as [d|]; cbn in Hl; inversion Hl as [x y Hxy|]; subst.
    destruct Hxy as [_ Hdata _ _ _ _ Hdel]. cbn in Hdata, Hdel. rewrite <- Hdel, Hdata. reflexivity.
Qed.

Abbreviation world_of := (view Keccak256 db decodeAccount).
Abbreviation same := (account_same (@trie_key T E HT HL)).
#[local] Instance fin_db : StateDB St := state_StateDB Keccak256 db decodeAccount.

Lemma flushed_view o o' : obj_inv o -> flushed o o' -> same (object_view Keccak256 db o) (object_view Keccak256 db o').
Proof.
  intros Hi H. unfold object_view. rewrite (fl_data o o' H). repeat split; cbn [v_balance v_nonce v_code v_storage v_suicided].
  - rewrite (object_Code_fields Keccak256 db o o'); [reflexivity|apply H|apply H|rewrite (fl_data o o' H); reflexivity].
  - intros k Hk. symmetry. apply (flushed_slot o o' k Hi H Hk).
  - symmetry. apply H.
Qed.

(** An account is gone after [Finalise]. *)
Definition gone (deleteEmpty : bool) (s : St) (a : Z) : bool :=
  bool_decide (a ∈ stateObjectsDirty s) && (snd (HasSuicided a s) || (deleteEmpty && snd (Empty a s))).

Lemma gone_dirty de s (a : Z) (o : Obj) : a ∈ stateObjectsDirty s -> stateObjects s !! a = Some o -> gone de s a = if deleted o then de else removed de o.
Proof.
  intros Hd Eo. unfold gone. rewrite bool_decide_true by exact Hd. cbn [andb].
  assert (Hs : snd (HasSuicided a s) = match live decodeAccount s a with Some o => suicided o | None => false end) by apply st_get_value.
  assert (He : snd (Empty a s) = match live decodeAccount s a with Some o => empty_object Keccak256 o | None => true end) by apply st_get_value.
  rewrite Hs, He, live_cases, Eo. destruct (deleted o); [destruct de|]; reflexivity.
Qed.

Lemma gone_clean de s (a : Z) : a ∉ stateObjectsDirty s -> gone de s a = false.
Proof. intros Hd. unfold gone. rewrite bool_decide_false by exact Hd. reflexivity. Qed.

Lemma Finalise_world de s s' (a : Z) : fin_inv de s -> small_balances s -> Finalise Keccak256 db range_slots range_dirty de s = Ret s' -> no_errors s' -> addr_ok a ->
  same (world_of s' a) (if gone de s a then empty_account else world_of s a) /\ (gone de s a = true -> snd (Exist a s') = false).
Proof using Hslots Hdecode Hdirty.
  intros Hi Hsm Hf Hn Ha. destruct (Finalise_state de s s' Hi Hsm Hf Hn) as (Hi' & Ed & R3 & R4).
  assert (Hx : snd (Exist a s') = match live decodeAccount s' a with Some _ => true | None => false end) by apply st_get_value.
  pose proof (view_alive Keccak256 db decodeAccount s a) as V. pose proof (view_alive Keccak256 db decodeAccount s' a) as V'.
  rewrite Hx, live_cases. rewrite live_cases in V, V'. destruct (decide (a ∈ stateObjectsDirty s)) as [Hd|Hd].
  - destruct (R4 a Hd) as (o & Eo & So). rewrite (gone_dirty de s a o Hd Eo), Eo in *. unfold settled_object in So. destruct (removed de o) eqn:Er.
    + destruct So as [(o' & E' & D' & _) _]. rewrite E', D' in *. split; [|reflexivity]. apply eq_same.
      destruct (deleted o); [destruct de|]; try exact V'. etransitivity; [exact V'|symmetry; exact V].
    + destruct So as (o' & E' & F' & Hio' & _). rewrite E', (fl_deleted o o' F') in *.
      destruct (deleted o) eqn:Edel; [destruct (fi_deleted de s Hi a o Eo Edel); congruence|]. split; [|discriminate].
      apply (account_same_trans _ _ _ _ (eq_same _ _ _ V')), account_same_sym, (account_same_trans _ _ _ _ (eq_same _ _ _ V)).
      apply flushed_view; [apply (fi_object de s Hi a o Eo)|exact F'].
  - rewrite (gone_clean de s a Hd). split; [|discriminate]. destruct (R3 a Hd) as [E1 E2]. rewrite E1, (E2 Ha) in V'.
    apply eq_same. etransitivity; [exact V'|symmetry; exact V].
Qed.

(** ** The methods keep the invariant *)

Lemma newObject_inv a d : account_ok d -> account_held d -> obj_inv (newObject a d).
Proof. intros Hd [Hr Hc]. split; cbn; auto; try discriminate; try (intros k v Hk; rewrite lookup_empty in Hk; discriminate). Qed.

Lemma inv_insert de s s' (a : Z) (o : Obj) : fin_inv de s -> addr_ok a -> address o = a -> obj_inv o -> deleted o = false ->
  trie s' = trie s -> stateObjects s' = <[a := o]> (stateObjects s) ->
  (stateObjectsDirty s' = {[ a ]} ∪ stateObjectsDirty s \/
   stateObjectsDirty s' = stateObjectsDirty s /\ (a ∉ stateObjectsDirty s -> onDirty o = true /\ loaded decodeAccount (trie s) a ≡ Some o)) ->
  fin_inv de s'.
Proof.
  intros [F1 F2 F3 F4 F5 F6] Ha Hao Hio Hdel Et Eo Ed.
  assert (Hs : forall x, x ∈ stateObjectsDirty s' -> x = a \/ x ∈ stateObjectsDirty s) by (intros x Hx; destruct Ed as [Ed|[Ed _]]; rewrite Ed in Hx; clear -Hx; set_solver).
  assert (Hs' : forall x, x ∉ stateObjectsDirty s' -> x ∉ stateObjectsDirty s) by (intros x Hx; destruct Ed as [Ed|[Ed _]]; rewrite Ed in Hx; clear -Hx; set_solver).
  split; rewrite ?Et, ?Eo; auto.
  - intros b ob. destruct (decide (b = a)) as [->|N]; [rewrite lookup_insert_eq; intros [= <-]; auto|rewrite lookup_insert_ne by congruence; apply F2].
  - intros b ob. destruct (decide (b = a)) as [->|N]; [rewrite lookup_insert_eq; intros [= <-] Hb|rewrite lookup_insert_ne by congruence; intros H Hb; apply (F3 b ob H), Hs', Hb].
    destruct Ed as [Ed|[Ed Hc]]; [rewrite Ed in Hb; clear -Hb; set_solver|]. apply Hc, Hs', Hb.
  - intros b ob. destruct (decide (b = a)) as [->|N]; [rewrite lookup_insert_eq; intros [= <-]; congruence|rewrite lookup_insert_ne by congruence; apply F4].
  - intros b Hb. destruct (decide (b = a)) as [->|N]; [rewrite lookup_insert_eq; eauto|rewrite lookup_insert_ne by congruence]. apply F5. destruct (Hs b Hb); [contradiction|assumption].
  - intros b d Hb Hn. apply F6; [exact Hb|apply Hs', Hn].
Qed.

Lemma inv_get de s (a : Z) : fin_inv de s -> addr_ok a ->
  let '(o, s') := getStateObject decodeAccount s a in
  fin_inv de s' /\ match o with Some o => stateObjects s' !! a = Some o /\ deleted o = false | None => True end.
Proof using Hdecoded.
  intros Hi Ha. unfold getStateObject. unfold Address in *. destruct (stateObjects s !! a) as [o|] eqn:Eo.
  - split; [exact Hi|]. destruct (deleted o) eqn:Ed; auto.
  - assert (Hset : forall err, fin_inv de (setError s err)).
    { intros err. destruct (setError_state s err) as (E1 & E2 & E3 & _). apply (fin_inv_fields de s); assumption. }
    pose proof (loaded_stored (trie s) a) as Hl. pose proof (fi_held de s Hi a) as Hh.
    assert (Hnd : a ∉ stateObjectsDirty s) by (intros Hd; destruct (fi_dirty de s Hi a Hd); congruence). unfold stored in Hl, Hh.
    destruct (TryGet (trie s) (Address_Bytes a)) as [[|x enc]|e]; [auto| |auto].
    destruct (decodeAccount (x :: enc)) as [d|] eqn:Ed; [|auto]. split; [|split; [apply lookup_insert_eq|reflexivity]].
    apply (inv_insert de s _ a (newObject a d)); auto; [apply newObject_inv; [apply (Hdecoded _ _ Ed)|apply (Hh d Ha Hnd eq_refl)]|].
    right. split; [reflexivity|]. intros _. split; [reflexivity|]. rewrite Hl. reflexivity.
Qed.

Lemma inv_put_dirty de s (a : Z) (o o' : Obj) : fin_inv de s -> stateObjects s !! a = Some o -> address o' = address o -> obj_inv o' ->
  onDirty o' = onDirty o -> deleted o' = false -> fin_inv de (put_dirty s o').
Proof.
  intros Hi Eo Ha' Hio Hon Hdel. destruct (fi_object de s Hi a o Eo) as (Hab & Hao & _). rewrite Hao in Ha'.
  unfold put_dirty, fire. destruct (onDirty o') eqn:Eon.
  - apply (inv_insert de s _ a (set_flags o' (suicided o') (touched o') (deleted o') false)); auto.
    + apply (obj_inv_proper o'); auto; apply Hio.
    + cbn. rewrite Ha'. reflexivity.
    + left. cbn. rewrite Ha'. reflexivity.
  - apply (inv_insert de s _ a o'); auto; [cbn; rewrite Ha'; reflexivity|]. right. split; [reflexivity|]. intros Hd.
    destruct (fi_clean de s Hi a o Eo Hd). congruence.
Qed.

(** Reading into the caches of an object. *)
Lemma inv_put_read de s (a : Z) (o o' : Obj) : fin_inv de s -> stateObjects s !! a = Some o -> deleted o = false -> o' ≡ o -> obj_inv o' ->
  onDirty o' = onDirty o -> fin_inv de (setStateObject s o').
Proof.
  intros Hi Eo Hdel He Hio Hon. destruct (fi_object de s Hi a o Eo) as (Hab & Hao & _). pose proof He as [Ha' _ _ _ _ _ Hdel']. rewrite Hao in Ha'.
  apply (inv_insert de s _ a o'); auto; [congruence|cbn; rewrite Ha'; reflexivity|]. right. split; [reflexivity|]. intros Hd.
  destruct (fi_clean de s Hi a o Eo Hd) as [H1 H2]. split; [congruence|]. rewrite H2. constructor. symmetry. exact He.
Qed.

Lemma getTrie_inv (o : Obj) : obj_inv o -> obj_inv (snd (getTrie Keccak256 db o)).
Proof.
  intros Hi. pose proof (getTrie_more o) as (F & D & T1 & _). destruct F as (A & Da & Co & G & Dc & _). split.
  - rewrite T1. destruct (getTrie_opens o Hi) as (t & -> & _). discriminate.
  - unfold code_inv. rewrite Da, Co, Dc, A. apply (oi_code o Hi).
  - rewrite Da. apply Hi.
  - intros t. rewrite T1. intros Ht. apply (getTrie_ok o t Hi Ht).
  - rewrite G. apply Hi.
  - rewrite D. apply Hi.
  - rewrite D, G. apply Hi.
  - intros k v. rewrite D, G, trie_slot_open. apply Hi.
Qed.

Lemma object_GetState_inv (o : Obj) (k : Z) : obj_inv o -> slot_ok k ->
  let o' := snd (object_GetState Keccak256 db o k) in obj_inv o' /\ onDirty o' = onDirty o /\ dirtyStorage o' = dirtyStorage o.
Proof.
  intros Hi Hk. unfold object_GetState. unfold Hash in *. destruct (cachedStorage o !! k) eqn:Ec; [auto|].
  pose proof (getTrie_inv o Hi) as Hi1. pose proof (getTrie_more o) as (F & D & _). pose proof (trie_slot_open Keccak256 db o k) as Hs. pose proof (getTrie_ok o) as Hok.
  destruct (getTrie Keccak256 db o) as [[t|] o1]; cbn [fst snd] in *; destruct F as (A & Da & _ & G & _ & _ & _ & _ & O); [|auto].
  assert (Herr : forall err, obj_inv (object_setError o1 err) /\ onDirty (object_setError o1 err) = onDirty o /\ dirtyStorage (object_setError o1 err) = dirtyStorage o /\
    cachedStorage (object_setError o1 err) = cachedStorage o /\ obj_trie (object_setError o1 err) = obj_trie o1 /\ data (object_setError o1 err) = data o1 /\ address (object_setError o1 err) = address o1).
  { intros err. destruct (setError_same o1 err) as (F' & D' & T' & _). destruct F' as (A' & Da' & Co' & G' & Dc' & _ & _ & _ & O').
    split; [|repeat split; congruence]. apply (obj_inv_proper o1); auto; [rewrite Da'; apply Hi1|congruence..]. }
  destruct (TryGet t (Hash_Bytes k)) as [enc|e] eqn:Eg; [|cbn [snd]; destruct (Herr (Some (db_error e))) as (H1 & H2 & H3 & _); auto].
  destruct (slot_value enc) as [v err] eqn:Ev. cbn [snd]. set (o2 := match err with Some e => _ | None => o1 end).
  assert (H2 : obj_inv o2 /\ onDirty o2 = onDirty o /\ dirtyStorage o2 = dirtyStorage o /\ cachedStorage o2 = cachedStorage o /\ slot o2 k = v).
  { assert (Hv : slot o1 k = v) by (rewrite Hs; destruct (Hok t Hi eq_refl) as [_ H]; rewrite H; unfold slot_in; rewrite Eg, Ev; reflexivity).
    unfold o2. destruct err as [e|]; [|auto 6]. destruct (Herr (Some (rlp_error e))) as (H1 & H2 & H3 & H4 & H5 & H6 & H7). split; [exact H1|]. split; [exact H2|]. split; [exact H3|]. split; [exact H4|].
    rewrite <- Hv. apply trie_slot_proper; congruence. }
  destruct H2 as (I2 & O2 & D2 & G2 & S2). destruct (negb (v =? 0)); [|auto]. split; [|auto]. split; cbn; try apply I2.
  - intros j w. destruct (decide (j = k)) as [->|N]; [auto|]. rewrite lookup_insert_ne by congruence. apply I2.
  - intros j w Hj. destruct (decide (j = k)) as [->|N]; [|rewrite lookup_insert_ne by congruence; apply (oi_dirty _ I2 j w Hj)].
    apply (oi_dirty _ I2) in Hj. rewrite G2 in Hj. congruence.
  - intros j w. rewrite (trie_slot_proper Keccak256 db o2 (set_storage _ _ _) j) by reflexivity.
    destruct (decide (j = k)) as [->|N]; [rewrite lookup_insert_eq; intros [= <-] _; exact S2|rewrite lookup_insert_ne by congruence; apply I2].
Qed.

Lemma set_storage_inv (o : Obj) (k v : Z) : obj_inv o -> slot_ok k -> hash_ok v ->
  obj_inv (set_storage o (<[k := v]> (cachedStorage o)) (<[k := v]> (dirtyStorage o))).
Proof.
  intros Hi Hk Hv. split; cbn; try apply Hi.
  - intros j w. destruct (decide (j = k)) as [->|N]; [auto|]. rewrite lookup_insert_ne by congruence. apply Hi.
  - intros j w. destruct (decide (j = k)) as [->|N]; [rewrite lookup_insert_eq; intros [= <-]; exact Hv|]. rewrite lookup_insert_ne by congruence. apply Hi.
  - intros j w. destruct (decide (j = k)) as [->|N]; [rewrite !lookup_insert_eq; auto|]. rewrite !lookup_insert_ne by congruence. apply Hi.
  - intros j w. destruct (decide (j = k)) as [->|N]; [rewrite !lookup_insert_eq; discriminate|]. rewrite !lookup_insert_ne by congruence.
    rewrite (trie_slot_proper Keccak256 db o (set_storage _ _ _) j) by reflexivity. apply Hi.
Qed.

Lemma object_Code_inv (o : Obj) : obj_inv o ->
  let o' := snd (object_Code Keccak256 db o) in obj_inv o' /\ onDirty o' = onDirty o /\ address o' = address o /\ data o' = data o /\ deleted o' = deleted o.
Proof.
  intros Hi. unfold object_Code. destruct (code o) eqn:Ec; [|auto 6]. destruct (Z.eqb_spec (acc_CodeHash (data o)) (emptyCode Keccak256)) as [|Ne]; [auto 6|].
  destruct (ContractCode _ _ _) as [c err] eqn:Ecc. cbn [snd].
  set (o2 := match err with Some e => _ | None => o end).
  assert (H2 : same_fields o o2 /\ dirtyStorage o2 = dirtyStorage o /\ obj_trie o2 = obj_trie o).
  { unfold o2. destruct err as [e|]; [|unfold same_fields; auto 20]. destruct (setError_same o (Some (db_error e))) as (F & D & T' & _). auto. }
  destruct H2 as ((A & Da & _ & G & Dc & _ & _ & X & O) & D & T'). split; [|auto].
  apply (obj_inv_proper' o); cbn; auto; [|rewrite Da; apply Hi|rewrite Da; reflexivity].
  unfold code_inv. cbn. rewrite Da, Dc, A, Ecc. pose proof (oi_code o Hi) as Hco. unfold code_inv in Hco. rewrite Ec in Hco. destruct (dirtyCode o); [contradiction|].
  split; [apply Hco|right; auto].
Qed.

Lemma zero_account_ok : account_ok (zero_account Keccak256).
Proof.
  split; cbn; [split; [lia|reflexivity]|split; [lia|reflexivity]|]. unfold emptyCode, BytesToHash. change (256 ^ HashLength) with (2 ^ 256).
  split; [apply Z.mod_pos_bound; lia|apply Z.mod_pos_bound; lia].
Qed.

Lemma inv_create de s (a : Z) : fin_inv de s -> addr_ok a ->
  let '(o, prev, s') := createObject Keccak256 decodeAccount s a in
  fin_inv de s' /\ stateObjects s' !! a = Some o /\ o = fresh Keccak256 a.
Proof using Hzero Hdecoded.
  intros Hi Ha. unfold createObject. pose proof (inv_get de s a Hi Ha) as Hg. destruct (getStateObject decodeAccount s a) as [prev s1]. destruct Hg as [Hi1 _].
  cbn [fire newObject onDirty MarkStateObjectDirty]. set (o := set_flags _ _ _ _ _). split; [|split; [apply lookup_insert_eq|reflexivity]].
  apply (inv_insert de s1 _ a o); auto. apply (obj_inv_proper (newObject a (zero_account Keccak256))); auto; [|apply zero_account_ok].
  apply newObject_inv; [apply zero_account_ok|]. split; [exact Hzero|left; reflexivity].
Qed.

Lemma inv_GetOrNew de s (a : Z) : fin_inv de s -> addr_ok a ->
  let '(o, s') := GetOrNewStateObject Keccak256 decodeAccount s a in
  fin_inv de s' /\ stateObjects s' !! a = Some o /\ deleted o = false /\ obj_inv o.
Proof using Hzero Hdecoded.
  intros Hi Ha. unfold GetOrNewStateObject. pose proof (inv_get de s a Hi Ha) as Hg. destruct (getStateObject decodeAccount s a) as [[o|] s1]; destruct Hg as [Hi1 Hg].
  - destruct Hg as [Hg1 Hg2]. split; [exact Hi1|]. split; [exact Hg1|]. split; [exact Hg2|apply (fi_object de s1 Hi1 a o Hg1)].
  - pose proof (inv_create de s1 a Hi1 Ha) as Hc. destruct (createObject _ _ s1 a) as [[o prev] s2]. destruct Hc as (H1 & H2 & ->).
    split; [exact H1|]. split; [exact H2|]. split; [reflexivity|]. apply (fi_object de s2 H1 a _ H2).
Qed.

(** A call of a method, and what it leaves the state as. *)
Inductive method : Type :=
| mGetBalance (a : Address)
| mGetCode (a : Address)
| mGetCodeSize (a : Address)
| mGetState (a : Address) (k : Hash)
| mCreateAccount (a : Address)
| mAddBalance (a : Address) (v : Z)
| mSubBalance (a : Address) (v : Z)
| mSetNonce (a : Address) (n : Z)
| mSetCode (a : Address) (c : list Z)
| mSetState (a : Address) (k v : Hash)
| mSuicide (a : Address)
| mAddRefund (g : Z)
| mAddLog (l : Log)
| mAddPreimage (h : Hash) (p : list Z)
| mSnapshot.

Definition perform (c : method) (s : St) : St :=
  match c with
  | mGetBalance a => fst (GetBalance a s)
  | mGetCode a => fst (GetCode a s)
  | mGetCodeSize a => fst (GetCodeSize a s)
  | mGetState a k => fst (GetState a k s)
  | mCreateAccount a => CreateAccount a s
  | mAddBalance a v => AddBalance a v s
  | mSubBalance a v => SubBalance a v s
  | mSetNonce a n => SetNonce a n s
  | mSetCode a c => db_SetCode a c s
  | mSetState a k v => SetState a k v s
  | mSuicide a => fst (Suicide a s)
  | mAddRefund g => AddRefund g s
  | mAddLog l => AddLog l s
  | mAddPreimage h p => AddPreimage h p s
  | mSnapshot => fst (Snapshot s)
  end.

(** Addresses and keys that are used, values and nonces of their widths. *)
Definition method_ok (used : list Z -> Prop) (c : method) : Prop :=
  match c with
  | mGetBalance a | mGetCode a | mGetCodeSize a | mCreateAccount a | mAddBalance a _ | mSubBalance a _ | mSetCode a _ | mSuicide a => address_used used a
  | mGetState a k => address_used used a /\ slot_used used k
  | mSetNonce a n => address_used used a /\ is_u64 n
  | mSetState a k v => address_used used a /\ slot_used used k /\ hash_ok v
  | mAddRefund _ | mAddLog _ | mAddPreimage _ _ | mSnapshot => True
  end.

Lemma account_with d n b h : account_ok d -> is_u64 n -> hash_ok h -> account_ok (mkAccount n b (Root d) h).
Proof. intros [_ H _] Hn Hh. split; assumption. Qed.

Lemma inv_append de s e : fin_inv de s -> fin_inv de (append_journal s e).
Proof. intros H. apply (fin_inv_fields de s); auto. Qed.

(** A setter after [GetOrNewStateObject]: a journal entry, and the object with new data. *)
Lemma inv_setter de s (a : Z) (o o' : Obj) e : fin_inv de s -> stateObjects s !! a = Some o -> obj_inv o' -> address o' = address o -> deleted o' = false ->
  onDirty o' = onDirty o -> fin_inv de (put_dirty (append_journal s e) o').
Proof. intros Hi Eo Hio Ha Hd Hon. apply (inv_put_dirty de _ a o); auto. apply inv_append, Hi. Qed.

Lemma touch_put (s : St) (o : Obj) : touch s o =
  put_dirty (append_journal s (touchChange (address o) (touched o) (negb (onDirty o)))) (set_flags o (suicided o) true (deleted o) (onDirty o)).
Proof. unfold touch, put_dirty, fire. cbn [onDirty set_flags]. destruct (onDirty o) eqn:Eo; [reflexivity|]. cbn. rewrite ?Eo. reflexivity. Qed.

Lemma Keccak_hash_ok c : hash_ok (BytesToHash (Keccak256 c)).
Proof. unfold BytesToHash. change (256 ^ HashLength) with (2 ^ 256). split; apply Z.mod_pos_bound; lia. Qed.

Hypothesis Hsize : forall a h, fst (ContractCodeSize db a h) = len (fst (ContractCode db a h)).

Lemma inv_setters de s c : fin_inv de s -> method_ok (@trie_key T E HT HL) c ->
  match c with mAddBalance _ _ | mSubBalance _ _ | mSetNonce _ _ | mSetCode _ _ | mSetState _ _ _ => fin_inv de (perform c s) | _ => True end.
Proof using Hzero Hdecoded.
  intros Hi Hc. destruct c as [a|a|a|a k|a|a v|a v|a n|a c|a k v|a|g|l|h p|]; try exact I; cbn [perform method_ok] in *.
  all: assert (Ha : addr_ok a) by apply Hc; pose proof (inv_GetOrNew de s a Hi Ha) as H; cbn [AddBalance SubBalance SetNonce db_SetCode SetState fin_db state_StateDB].
  all: unfold st_AddBalance, st_SubBalance, st_SetNonce, st_SetCode, st_SetState.
  all: destruct (GetOrNewStateObject Keccak256 decodeAccount s a) as [o s1]; destruct H as (H1 & H2 & H3 & H4).
  - destruct (_ =? 0); [destruct (empty_object _ _); [|exact H1]|].
    + rewrite touch_put. apply (inv_setter de s1 a o); auto. apply (obj_inv_proper o); auto; apply H4.
    + apply (inv_setter de s1 a o); auto. apply (obj_inv_proper o); auto. destruct (oi_account o H4). apply account_with; assumption || apply H4.
  - destruct (_ =? 0); [exact H1|]. apply (inv_setter de s1 a o); auto. apply (obj_inv_proper o); auto. destruct (oi_account o H4). apply account_with; assumption || apply H4.
  - apply (inv_setter de s1 a o); auto. apply (obj_inv_proper o); auto. destruct (oi_account o H4). apply account_with; try assumption; apply Hc || apply H4.
  - destruct (object_Code_inv o H4) as (C1 & C2 & C3 & C4 & C5). destruct (object_Code Keccak256 db o) as [p o1]. cbn [snd] in *.
    apply (inv_setter de s1 a o); cbn; auto; [|congruence]. apply (obj_inv_proper' o1); auto; [reflexivity|]. destruct (oi_account o1 C1). apply account_with; try assumption; [apply C1|apply Keccak_hash_ok].
  - destruct Hc as (_ & Hk & Hv). destruct (object_GetState_inv o k H4 Hk) as (C1 & C2 & C3). pose proof (object_GetState_eq Keccak256 db o k) as [C4 _ _ _ _ _ C5].
    destruct (object_GetState Keccak256 db o k) as [p o1]. cbn [snd] in *.
    apply (inv_setter de s1 a o); cbn; auto; [|congruence]. apply set_storage_inv; assumption.
Qed.

Lemma Suicide_put (a : Address) (s : St) : fst (Suicide a s) =
  let '(o, s) := getStateObject decodeAccount s a in
  match o with
  | None => s
  | Some o => put_dirty (append_journal s (suicideChange a (suicided o) (acc_Balance (data o)))) (with_balance (with_suicided o true) 0)
  end.
Proof.
  cbn. unfold st_Suicide. destruct (getStateObject decodeAccount s a) as [[o|] s1]; [|reflexivity]. unfold put_dirty, fire.
  unfold with_balance, with_suicided. cbn [set_flags set_data onDirty]. destruct (onDirty o) eqn:Eo; cbn; rewrite ?Eo; reflexivity.
Qed.

Lemma inv_create_account de s (a : Z) : fin_inv de s -> addr_ok a -> fin_inv de (CreateAccount a s).
Proof using Hzero Hdecoded.
  intros Hi Ha. cbn. unfold st_CreateAccount. pose proof (inv_create de s a Hi Ha) as H. destruct (createObject Keccak256 decodeAccount s a) as [[o [p|]] s1]; destruct H as (H1 & H2 & ->); [|exact H1].
  destruct (fi_object de s1 H1 a _ H2) as (_ & _ & H4). apply (inv_put_dirty de s1 a (fresh Keccak256 a)); auto. apply (obj_inv_proper (fresh Keccak256 a)); auto.
  destruct (oi_account _ H4). apply account_with; assumption || apply H4.
Qed.

Lemma inv_getters de s c : fin_inv de s -> method_ok (@trie_key T E HT HL) c ->
  match c with mGetBalance _ | mGetCode _ | mGetCodeSize _ | mGetState _ _ => fin_inv de (perform c s) | _ => True end.
Proof using Hzero Hdecoded Hsize.
  intros Hi Hc. destruct c as [a|a|a|a k|a|a v|a v|a n|a c|a k v|a|g|l|h p|]; try exact I; cbn [perform method_ok] in *.
  all: assert (Ha : addr_ok a) by apply Hc; pose proof (inv_get de s a Hi Ha) as H; cbn [GetBalance GetCode GetCodeSize GetState fin_db state_StateDB].
  all: unfold st_GetBalance, st_get, st_GetCode, st_GetCodeSize, st_GetState; destruct (getStateObject decodeAccount s a) as [[o|] s1]; destruct H as [H1 H2]; try exact H1.
  all: destruct H2 as [H2 H3]; destruct (fi_object de s1 H1 a o H2) as (_ & _ & H4).
  - destruct (object_Code_inv o H4) as (C1 & C2 & _). pose proof (object_Code_eq Keccak256 db Hsize o) as C3. destruct (object_Code Keccak256 db o) as [p o1].
    apply (inv_put_read de s1 a o); assumption.
  - destruct (code o); [|exact H1]. destruct (ContractCodeSize _ _ _) as [z [e|]]; [|exact H1]. cbn [fst].
    destruct (setError_state s1 (Some e)) as (E1 & E2 & E3 & _). apply (fin_inv_fields de s1); assumption.
  - destruct (object_GetState_inv o k H4 (proj2 Hc)) as (C1 & C2 & _). pose proof (object_GetState_eq Keccak256 db o k) as C3. destruct (object_GetState Keccak256 db o k) as [p o1].
    apply (inv_put_read de s1 a o); assumption.
Qed.

Lemma perform_inv de s c : fin_inv de s -> method_ok (@trie_key T E HT HL) c -> fin_inv de (perform c s).
Proof using Hzero Hdecoded Hsize.
  intros Hi Hc. pose proof (inv_getters de s c Hi Hc) as G. pose proof (inv_setters de s c Hi Hc) as P.
  destruct c as [a|a|a|a k|a|a v|a v|a n|a c|a k v|a|g|l|h p|]; try exact G; try exact P; cbn [perform method_ok] in *.
  - apply inv_create_account; assumption.
  - rewrite Suicide_put. pose proof (inv_get de s a Hi Hc) as H. destruct (getStateObject decodeAccount s a) as [[o|] s1]; destruct H as [H1 H2]; [|exact H1].
    destruct H2 as [H2 H3]. destruct (fi_object de s1 H1 a o H2) as (_ & _ & H4). apply (inv_setter de s1 a o); auto.
    apply (obj_inv_proper o); auto. destruct (oi_account o H4). apply account_with; assumption || apply H4.
  - apply (fin_inv_fields de s); auto.
  - apply (fin_inv_fields de s); auto.
  - cbn. unfold st_AddPreimage. destruct (_ !! h); [exact Hi|]. apply (fin_inv_fields de s); auto.
  - apply (fin_inv_fields de s); auto.
Qed.

Definition performs (cs : list method) (s : St) : St := fold_left (fun s c => perform c s) cs s.

Lemma performs_inv de cs : forall s, fin_inv de s -> Forall (method_ok (@trie_key T E HT HL)) cs -> fin_inv de (performs cs s).
Proof using Hzero Hdecoded Hsize.
  induction cs as [|c cs IH]; intros s Hi Hc; [exact Hi|]. inversion Hc; subst. apply IH; [apply perform_inv; assumption|assumption].
Qed.

(** The database has the accounts of a trie. *)
Definition accounts_held (t : T) : Prop := forall (a : Z) d, addr_ok a -> stored t a = Some d -> account_held d.

Lemma New_inv de t : trie_ok t -> accounts_held t -> fin_inv de (New t).
Proof.
  intros Ht Hh. split; cbn; [exact Ht|..]; try (intros a o Ha; rewrite lookup_empty in Ha; discriminate).
  - intros a Ha. apply elem_of_empty in Ha. contradiction.
  - intros a d Ha _. apply Hh, Ha.
Qed.

(** ** [Finalise] returns *)

Lemma write_slot_total kv x : exists x', write_slot kv x = Ret x'.
Proof.
  destruct kv as [key v], x as [t o]. cbn [write_slot]. destruct (v =? 0); [destruct (TryDelete _ _); eauto|].
  fold (slot_bytes v). rewrite slot_encoded. cbn [obind]. destruct (TryUpdate _ _ _). eauto.
Qed.

Lemma each_total {A B : Type} (f : B -> A -> outcome A) xs : (forall x a, exists a', f x a = Ret a') -> forall a, exists a', each f xs a = Ret a'.
Proof.
  intros Hf. induction xs as [|x xs IH]; intros a; cbn [each]; [eauto|]. destruct (Hf x a) as (a1 & ->). cbn [obind]. apply IH.
Qed.

Lemma updateRoot_total (o : Obj) : exists o', updateRoot Keccak256 db range_slots o = Ret o' /\ Nonce (data o') = Nonce (data o) /\
  acc_Balance (data o') = acc_Balance (data o).
Proof using Hzero.
  unfold updateRoot, updateTrie. assert (Ht : exists t, fst (getTrie Keccak256 db o) = Some t).
  { unfold getTrie. destruct (obj_trie o); [eauto|]. destruct (OpenStorageTrie _ _ (Root _)); [eauto|]. destruct (Hzero (addrHash Keccak256 (address o))) as (t & -> & _). eauto. }
  pose proof (getTrie_more o) as (F & _). destruct Ht as (t & Ht). destruct (getTrie Keccak256 db o) as [tr o1]. cbn [fst snd] in *. subst tr.
  destruct (each_total write_slot (range_slots (dirtyStorage o1)) write_slot_total (t, o1)) as ([t' o2] & Ew). rewrite Ew. cbn [obind].
  eexists. split; [reflexivity|]. cbn. assert (D : data (snd (t', o2)) = data o1).
  { refine (each_inv write_slot (fun _ x => data (snd x) = data o1) _ (t, o1) (t', o2) _ eq_refl Ew). intros [k v] xs [ta oa] x' Ha. cbn [write_slot].
    set (o3 := set_storage _ _ _). assert (P : forall err, data (object_setError o3 err) = data o1).
    { intros err. destruct (setError_same o3 err) as ((_ & -> & _) & _). exact Ha. }
    destruct (v =? 0); [destruct (TryDelete _ _); intros [= <-]; apply P|].
    fold (slot_bytes v). rewrite slot_encoded. cbn [obind]. destruct (TryUpdate _ _ _). intros [= <-]. apply P. }
  cbn [snd] in D. rewrite D. destruct F as (_ & -> & _). auto.
Qed.

(** An object that can be encoded. *)
Definition pending (s : St) (a : Z) : Prop :=
  exists o, stateObjects s !! a = Some o /\ is_u64 (Nonce (data o)) /\ 0 <= acc_Balance (data o) < 2 ^ 256.

Lemma finalise_one_total de (b : Z) s : addressed s -> pending s b ->
  exists s', finalise_one Keccak256 db range_slots de b s = Ret s' /\ forall a : Z, a <> b -> stateObjects s' !! a = stateObjects s !! a.
Proof using Hzero.
  intros Had (o & Eo & Hn & Hb). unfold finalise_one. unfold Address in *. rewrite Eo. pose proof (Had b o Eo) as Hao. destruct (_ || _).
  - eexists. split; [reflexivity|]. intros a N. unfold deleteStateObject. set (o' := set_flags _ _ _ _ _). cbn zeta. destruct (TryDelete _ _) as [t err].
    destruct (setError_state (set_trie (setStateObject s o') t) err) as (_ & -> & _). cbn. unfold Address in *. rewrite lookup_insert_ne by congruence. reflexivity.
  - destruct (updateRoot_total o) as (o1 & Eu & En & Eb). rewrite Eu. cbn [obind]. destruct (updateRoot_err o o1 Eu) as [_ Ha1].
    destruct (encodeAccount_total (data o1) ltac:(congruence) ltac:(congruence)) as (enc & Ee & _). unfold updateStateObject. rewrite Ee. cbn [obind].
    destruct (TryUpdate _ _ _) as [t err]. eexists. split; [reflexivity|]. intros a N.
    destruct (setError_state (set_trie (setStateObject s o1) t) err) as (_ & -> & _). cbn. unfold Address in *. rewrite lookup_insert_ne by congruence. reflexivity.
Qed.

Lemma finalise_loop_total de xs : forall s, addressed s -> NoDup xs -> (forall x, x ∈ xs -> pending s x) ->
  exists s', each (finalise_one Keccak256 db range_slots de) xs s = Ret s'.
Proof using Hzero.
  induction xs as [|b xs IH]; intros s Ha Hnd Hp; cbn [each]; [eauto|]. apply NoDup_cons in Hnd as [Nb Hnd].
  destruct (finalise_one_total de b s Ha (Hp b ltac:(left))) as (s1 & E1 & H1). rewrite E1. cbn [obind].
  destruct (finalise_one_addressed de b s s1 Ha E1) as [Ha1 _]. apply IH; auto. intros x Hx. destruct (Hp x ltac:(right; exact Hx)) as (o & Eo & Ho).
  exists o. split; [|exact Ho]. rewrite H1; [exact Eo|]. intros ->. contradiction.
Qed.

Lemma Finalise_total de s : fin_inv de s -> small_balances s -> exists s', Finalise Keccak256 db range_slots range_dirty de s = Ret s'.
Proof using Hzero Hdirty.
  intros Hi Hb. unfold Finalise. assert (Hp : range_dirty (stateObjectsDirty s) ≡ₚ elements (stateObjectsDirty s)) by apply Hdirty.
  destruct (finalise_loop_total de (range_dirty (stateObjectsDirty s)) s (inv_addressed de s Hi)) as (s' & ->); [rewrite Hp; apply NoDup_elements| |cbn; eauto].
  intros x Hx. rewrite Hp in Hx. apply elem_of_elements in Hx. destruct (fi_dirty de s Hi x Hx) as (o & Eo). exists o. split; [exact Eo|].
  split; [apply (fi_object de s Hi x o Eo)|apply (Hb x o Eo)].
Qed.

(** ** [Copy] *)

Lemma deepCopy_view (o : Obj) b : obj_inv o -> account_eq (object_view Keccak256 db (deepCopy o b)) (object_view Keccak256 db o).
Proof.
  intros Hi. unfold account_eq, object_view. cbn [v_balance v_nonce v_code v_storage v_suicided]. repeat split.
  - apply (object_Code_fields Keccak256 db o (deepCopy o b)); reflexivity.
  - intros k. rewrite !object_GetState_value. cbn [deepCopy cachedStorage]. rewrite (trie_slot_proper Keccak256 db o (deepCopy o b) k) by reflexivity.
    unfold Hash in *. destruct (dirtyStorage o !! k) as [v|] eqn:Ed; [rewrite (oi_dirty o Hi k v Ed); reflexivity|].
    destruct (cachedStorage o !! k) as [v|] eqn:Ec; [|reflexivity]. apply (oi_clean o Hi k v Ec Ed).
Qed.

Lemma copy_loop (s : St) xs : forall c c', each (copy_object s) xs c = Ret c' ->
  trie c' = trie c /\ refund c' = refund c /\ logs c' = logs c /\ preimages c' = preimages c /\
  (forall a : Z, a ∈ xs -> exists o, stateObjects s !! a = Some o /\ stateObjects c' !! a = Some (deepCopy o true)) /\
  (forall a : Z, a ∉ xs -> stateObjects c' !! a = stateObjects c !! a).
Proof.
  induction xs as [|x xs IH]; intros c c'; cbn [each].
  { intros [= <-]. do 4 (split; [reflexivity|]). split; [intros a Ha; apply elem_of_nil in Ha; contradiction|reflexivity]. }
  destruct (copy_object s x c) as [c1|] eqn:E1; [|discriminate]. cbn [obind]. intros H. revert E1. unfold copy_object. unfold Address in *.
  destruct (stateObjects s !! x) as [o|] eqn:Eo; [|discriminate]. intros [= <-].
  destruct (IH _ c' H) as (R1 & R2 & R3 & R4 & R5 & R6). do 4 (split; [assumption|]). cbn in R6. split.
  - intros a Ha. destruct (decide (a ∈ xs)) as [Hx|Hx]; [apply R5, Hx|]. apply elem_of_cons in Ha as [->|Ha]; [|contradiction].
    exists o. split; [exact Eo|]. rewrite R6, lookup_insert_eq by exact Hx. reflexivity.
  - intros a Ha. apply not_elem_of_cons in Ha as [N Ha]. rewrite R6, lookup_insert_ne by congruence || exact Ha. reflexivity.
Qed.

(** A copy answers the queries as the original. *)
Lemma Copy_world de s c : fin_inv de s -> Copy range_dirty s = Ret c ->
  world_eq (world_of c) (world_of s) /\ refund c = refund s /\ logs c = logs s /\ preimages c = preimages s /\ trie c = trie s.
Proof using Hdirty.
  intros Hi Hc. destruct (copy_loop s _ _ c Hc) as (R1 & R2 & R3 & R4 & R5 & R6). cbn in R1, R2, R3, R4, R6. split; [|auto].
  assert (Hin : forall x, x ∈ range_dirty (stateObjectsDirty s) <-> x ∈ stateObjectsDirty s) by (intros x; rewrite Hdirty; apply elem_of_elements).
  intros a. unfold Address in a. etransitivity; [apply view_alive|]. etransitivity; [|symmetry; apply view_alive]. rewrite !live_cases, R1.
  destruct (decide (a ∈ stateObjectsDirty s)) as [Hd|Hd].
  - destruct (R5 a (proj2 (Hin a) Hd)) as (o & Eo & ->). rewrite Eo. cbn [deepCopy deleted]. destruct (deleted o); [reflexivity|].
    apply deepCopy_view, (fi_object de s Hi a o Eo).
  - rewrite R6, lookup_empty by (rewrite Hin; exact Hd). destruct (stateObjects s !! a) as [o|] eqn:Eo; [|reflexivity].
    destruct (fi_clean de s Hi a o Eo Hd) as [_ Hl]. rewrite loaded_stored in Hl.
    destruct (stored (trie s) a) as [d|]; cbn in Hl; inversion Hl as [x y Hxy|]; subst.
    pose proof (eq_deleted _ _ _ _ Hxy) as Hdel. cbn in Hdel. rewrite <- Hdel. apply object_view_eq. exact Hxy.
Qed.

End final.
