(* ===== verification/StateTrie.v ===== *)
(** * Package [core/state]: [Finalise] without errors

    Over tries whose methods do not fail, finalising a state without errors leaves
    no error. *)

From Stdlib Require Import ZArith List Lia Bool.
From stdpp Require Import base gmap.
From S2P Require Import Prelude GoBig CommonTypes Rlp VmCommon VmState CoreState CoreFinal StateLaws StateFinal ByteBuf RlpTheorems RlpStream RlpDecode TrieNode TrieOps TrieHash TrieSecure TrieSpec TrieRefine TrieMerkle TrieStore TrieContents CoreDatabase.
Import ListNotations.
Local Open Scope Z_scope.

(** The changes of a trie do not fail. *)
Class TrieTotal (T E : Type) {HT : Trie T E} {HL : TrieLaws T E} : Prop := {
  update_total t k v : trie_ok t -> v <> [] -> exists t', TryUpdate t k v = (t', None);
  delete_total t k : trie_ok t -> exists t', TryDelete t k = (t', None) }.

Section errors.
Context {T E : Type} {HT : Trie T E} {HL : TrieLaws T E} {HTot : TrieTotal T E}.
Variable Keccak256 : list Z -> list Z.
Variable db : Database T E.
Variable decodeAccount : list Z -> option Account.
Variable range_slots : gmap Z Z -> list (Z * Z).
Variable range_dirty : gset Z -> list Z.
Abbreviation St := (@State T E).
Abbreviation Obj := (@stateObject T E).
Hypothesis Hslots : forall m, range_slots m ≡ₚ map_to_list m.
Hypothesis Hdirty : forall d, range_dirty d ≡ₚ elements d.
Hypothesis Hdecode : forall d enc, account_ok d -> small_balance d -> encodeAccount d = Ret (Ok enc) -> enc <> [] /\ decodeAccount enc = Some d.
Abbreviation fin_inv := (fin_inv Keccak256 db decodeAccount).
Abbreviation obj_inv := (obj_inv Keccak256 db).

Lemma write_slot_clean kv t (o : Obj) : trie_ok t -> obj_dbErr o = None ->
  exists t' o', write_slot kv (t, o) = Ret (t', o') /\ trie_ok t' /\ obj_dbErr o' = None.
Proof using HTot.
  intros Ht Ho. destruct kv as [key v]. cbn [write_slot]. destruct (v =? 0).
  - destruct (delete_total t (Hash_Bytes key) Ht) as (t' & E1). rewrite E1. do 2 eexists. split; [reflexivity|].
    split; [apply (delete_ok t (Hash_Bytes key) t' Ht E1)|]. unfold object_setError. cbn. rewrite Ho. reflexivity.
  - fold (slot_bytes v). rewrite slot_encoded. cbn [obind]. pose proof (rlp_string_nonempty (slot_bytes v)) as Hne.
    destruct (update_total t (Hash_Bytes key) _ Ht Hne) as (t' & E1). rewrite E1. do 2 eexists. split; [reflexivity|].
    split; [apply (update_ok t (Hash_Bytes key) _ t' Ht Hne (slot_encoding_len v) E1)|]. unfold object_setError. cbn. rewrite Ho. reflexivity.
Qed.

Lemma write_slots_clean kvs : forall t (o : Obj), trie_ok t -> obj_dbErr o = None ->
  exists t' o', each write_slot kvs (t, o) = Ret (t', o') /\ trie_ok t' /\ obj_dbErr o' = None.
Proof using HTot.
  induction kvs as [|kv kvs IH]; intros t o Ht Ho; cbn [each]; [eauto|].
  destruct (write_slot_clean kv t o Ht Ho) as (t1 & o1 & E1 & Ht1 & Ho1). rewrite E1. cbn [obind]. apply (IH t1 o1 Ht1 Ho1).
Qed.

Lemma updateTrie_clean (o : Obj) : obj_inv o -> obj_dbErr o = None -> exists t o', updateTrie Keccak256 db range_slots o = Ret (Some t, o') /\ obj_dbErr o' = None.
Proof using HTot.
  intros Hi Ho. unfold updateTrie. destruct (getTrie_opens Keccak256 db o Hi) as (t & E1 & Ht & Ho1). rewrite Ho in Ho1.
  destruct (getTrie Keccak256 db o) as [tr o1]. cbn [fst snd] in *. subst tr.
  destruct (write_slots_clean (range_slots (dirtyStorage o1)) t o1 Ht Ho1) as (t' & o' & E1 & _ & Ho'). rewrite E1. cbn [obind]. do 2 eexists. split; [reflexivity|exact Ho'].
Qed.

Lemma updateRoot_clean (o : Obj) : obj_inv o -> obj_dbErr o = None -> exists o', updateRoot Keccak256 db range_slots o = Ret o' /\ obj_dbErr o' = None.
Proof using HTot.
  intros Hi Ho. unfold updateRoot. destruct (updateTrie_clean o Hi Ho) as (t & o' & -> & Ho'). cbn [obind]. eexists. split; [reflexivity|exact Ho'].
Qed.

Lemma deleteStateObject_clean (s : St) (o : Obj) : trie_ok (trie s) -> dbErr s = None -> dbErr (deleteStateObject s o) = None.
Proof using HTot.
  intros Ht Hs. unfold deleteStateObject. set (o' := set_flags _ _ _ _ _). cbn zeta.
  destruct (delete_total (trie (setStateObject s o')) (Address_Bytes (address o')) Ht) as (t & ->). unfold setError. cbn. rewrite Hs. reflexivity.
Qed.

Lemma updateStateObject_clean (s : St) (o : Obj) : trie_ok (trie s) -> dbErr s = None -> account_ok (data o) -> small_balance (data o) ->
  exists s', updateStateObject s o = Ret s' /\ dbErr s' = None.
Proof using HTot Hdecode.
  intros Ht Hs Hd Hsm. destruct (encodeAccount_total (data o) (acc_nonce_ok _ Hd) Hsm) as (enc & Ee & _). destruct (Hdecode _ enc Hd Hsm Ee) as [Hne _].
  unfold updateStateObject. rewrite Ee. cbn [obind]. destruct (update_total (trie s) (Address_Bytes (address o)) enc Ht Hne) as (t & ->).
  eexists. split; [reflexivity|]. unfold setError. cbn. rewrite Hs. reflexivity.
Qed.

Lemma no_errors_put (s s' : St) (b : Z) o : no_errors s -> dbErr s' = None -> obj_dbErr o = None -> stateObjects s' = <[b := o]> (stateObjects s) -> no_errors s'.
Proof.
  intros [_ Hs] Hd Ho Es. split; [exact Hd|]. intros a oa. rewrite Es. destruct (decide (a = b)) as [->|N]; [rewrite lookup_insert_eq; intros [= <-]; exact Ho|].
  rewrite lookup_insert_ne by congruence. apply Hs.
Qed.

Lemma finalise_one_clean de (b : Z) s o : fin_inv de s -> no_errors s -> stateObjects s !! b = Some o -> small_balance (data o) ->
  exists s', finalise_one Keccak256 db range_slots de b s = Ret s' /\ no_errors s'.
Proof using HTot Hslots Hdecode.
  intros Hi Hn Eb Hsm. destruct (fi_object _ _ _ de s Hi b o Eb) as (Hab & Hao & Hio). unfold finalise_one. unfold Address in *. rewrite Eb. destruct (_ || _).
  - eexists. split; [reflexivity|]. pose proof (deleteStateObject_clean s o (fi_trie _ _ _ de s Hi) (proj1 Hn)) as Hc.
    rewrite <- Hao in Hab. destruct (deleteStateObject_spec decodeAccount s o (fi_trie _ _ _ de s Hi) Hab Hc) as (_ & _ & _ & Es & _). rewrite Hao in Es.
    refine (no_errors_put s _ b _ Hn Hc _ Es); apply (proj2 Hn b o Eb).
  - destruct (updateRoot_clean o Hio (proj2 Hn b o Eb)) as (o1 & Eu & Ho1). rewrite Eu. cbn [obind]. destruct (updateRoot_err Keccak256 db range_slots o o1 Eu) as [_ Ha1].
    pose proof (updateRoot_spec Keccak256 db range_slots Hslots o o1 Hio Eu Ho1) as Hf. pose proof (flushed_inv Keccak256 db o o1 Hio Hf) as Hi1.
    assert (Hsm1 : small_balance (data o1)) by (unfold small_balance; rewrite (fl_data _ _ o o1 Hf); exact Hsm).
    destruct (updateStateObject_clean (setStateObject s o1) o1 (fi_trie _ _ _ de s Hi) (proj1 Hn) (oi_account _ _ _ Hi1) Hsm1) as (s' & Es & Hc). exists s'. split; [exact Es|].
    apply (no_errors_put s _ b o1 Hn Hc Ho1). rewrite (updateStateObject_objects _ _ _ Es). cbn. f_equal. congruence.
Qed.

Lemma finalise_loop_clean de xs : forall s, fin_inv de s -> no_errors s -> NoDup xs -> (forall x, x ∈ xs -> x ∈ stateObjectsDirty s) ->
  (forall (x : Z) o, x ∈ xs -> stateObjects s !! x = Some o -> small_balance (data o)) ->
  exists s', each (finalise_one Keccak256 db range_slots de) xs s = Ret s' /\ no_errors s'.
Proof using HTot Hslots Hdecode.
  induction xs as [|b xs IH]; intros s Hi Hn Hnd Hin Hob; cbn [each]; [eauto|]. apply NoDup_cons in Hnd as [Nb Hnd].
  assert (Hbd : b ∈ stateObjectsDirty s) by (apply Hin; left). pose proof (fi_dirty _ _ _ de s Hi b Hbd) as Hso; destruct Hso as (o & Eb). pose proof (Hob b o (list_elem_of_here b xs) Eb) as Hsm.
  destruct (finalise_one_clean de b s o Hi Hn Eb Hsm) as (s1 & E1 & Hn1). rewrite E1. cbn [obind].
  destruct (finalise_one_spec Keccak256 db decodeAccount range_slots Hslots Hdecode de b s s1 Hi (fun o Ho => Hob b o ltac:(left) Ho) E1 Hn1) as (o' & Eo' & A).
  apply IH; auto.
  - apply (finalised_inv Keccak256 db decodeAccount de b o' s s1 Hi Hbd Eo' A).
  - intros x Hx. rewrite (fa_dirty _ _ _ _ _ _ _ _ A). apply Hin. right. exact Hx.
  - intros x ox Hx Eox. apply (Hob x); [right; exact Hx|]. rewrite <- Eox. symmetry. apply (fa_others _ _ _ _ _ _ _ _ A). intros ->. contradiction.
Qed.

Lemma Finalise_clean de s : fin_inv de s -> small_balances s -> no_errors s ->
  exists s', Finalise Keccak256 db range_slots range_dirty de s = Ret s' /\ no_errors s'.
Proof using HTot Hslots Hdirty Hdecode.
  intros Hi Hb Hn. unfold Finalise. assert (Hp : range_dirty (stateObjectsDirty s) ≡ₚ elements (stateObjectsDirty s)) by apply Hdirty.
  assert (Hin : forall x, x ∈ range_dirty (stateObjectsDirty s) <-> x ∈ stateObjectsDirty s) by (intros x; rewrite Hp; apply elem_of_elements).
  destruct (finalise_loop_clean de (range_dirty (stateObjectsDirty s)) s Hi Hn) as (s' & E1 & Hn'); [rewrite Hp; apply NoDup_elements|intros x; apply Hin| |].
  - intros x o _ Eo. apply (Hb x o Eo).
  - rewrite E1. cbn [obind]. eexists. split; [reflexivity|exact Hn'].
Qed.
End errors.

(** * Package [core/state] over package [trie]

    Secure tries have the laws of the tries of the state, and the database of tries
    opens what was committed. *)

(** ** The laws of secure tries *)

(** The hash function, on the keys that are used. *)
Record key_hash (Keccak256 : list Z -> list Z) (used : list Z -> Prop) : Prop := {
  kh_len : forall b, len (Keccak256 b) = 32;
  kh_bytes : forall b, bytes_ok (Keccak256 b);
  kh_inj : forall a b, used a -> used b -> Keccak256 a = Keccak256 b -> a = b }.

Section laws.
Variable Keccak256 : list Z -> list Z.
Variable used : list Z -> Prop.
Hypothesis HK : key_hash Keccak256 used.
Variable Get : list Z -> option (list Z).
#[local] Instance secure_trie : Trie SecureTrie database_error := SecureTrie_Trie Keccak256 Get.

(** The nodes of the trie are a trie in its canonical form, in memory or in the
    store; its keys, and those of the cache, are hashes. *)
Record trie_form (t : SecureTrie) (p : ptrie) : Prop := {
  tf_stands : stands_for Keccak256 Get (sec_root t) p;
  tf_wf : wf p;
  tf_keys : keys32 p;
  tf_cache : Forall (fun kv => len (fst kv) = 32) (secKeyCache t) }.
Definition hashed (k : list Z) : list Z := keybytesToHex (Keccak256 k).

Lemma hashed_key k : hexkey (hashed k).
Proof using HK. apply keybytes_hexkey, (kh_bytes _ _ HK). Qed.

Lemma hashed_inj k j : used k -> used j -> key_eqb (hashed j) (hashed k) = bool_decide (k = j).
Proof using HK.
  intros Hk Hj. unfold hashed. destruct (key_eqb_spec (keybytesToHex (Keccak256 j)) (keybytesToHex (Keccak256 k))) as [E|N].
  - rewrite bool_decide_true; [reflexivity|]. apply (kh_inj _ _ HK k j Hk Hj). symmetry. apply keybytes_inj, E.
  - rewrite bool_decide_false; [reflexivity|]. intros ->. contradiction.
Qed.

Lemma secure_get t p k : stands_for Keccak256 Get (sec_root t) p -> wf p -> TryGet t k = Ok (value_of (plookup p (hashed k))).
Proof using HK.
  intros Hst Hw. cbn. unfold secure_TryGet, hashKey.
  destruct (stands_get Keccak256 (kh_len _ _ HK) Get (sec_cachegen t) (sec_root t) p (Keccak256 k) Hst Hw (kh_bytes _ _ HK k)) as (root' & -> & _). reflexivity.
Qed.

Lemma hashed_len k : len (hashed k) = 65.
Proof using HK. unfold hashed. rewrite keybytes_len, (kh_len _ _ HK). reflexivity. Qed.

Lemma cache_deleted c k : Forall (fun kv => len (fst kv) = 32) c -> Forall (fun kv : list Z * list Z => len (fst kv) = 32) (cache_delete c k).
Proof. intros H. apply List.Forall_forall. intros x Hx. apply List.filter_In in Hx. apply (proj1 (List.Forall_forall _ _) H x), Hx. Qed.

Lemma cache_owned t : Forall (fun kv => len (fst kv) = 32) (secKeyCache t) -> Forall (fun kv => len (fst kv) = 32) (secKeyCache (getSecKeyCache t)).
Proof. unfold getSecKeyCache. destruct (sec_owned t); [auto|]. intros _. constructor. Qed.

Lemma owned_root t : sec_root (getSecKeyCache t) = sec_root t /\ sec_cachegen (getSecKeyCache t) = sec_cachegen t.
Proof. unfold getSecKeyCache. destruct (sec_owned t); auto. Qed.

Lemma secure_update t p k v : trie_form t p -> v <> [] -> exists t' p', TryUpdate t k v = (t', None) /\ stands_for Keccak256 Get (sec_root t') p' /\ wf p' /\
  (len v < 2 ^ 32 -> trie_form t' p') /\ forall j, hexkey j -> plookup p' j = if key_eqb j (hashed k) then Some v else plookup p j.
Proof using HK.
  intros [Hst Hw Hks Hca] Nv. cbn. unfold secure_TryUpdate, hashKey.
  destruct (stands_update Keccak256 (kh_len _ _ HK) Get (sec_cachegen t) (sec_root t) p (Keccak256 k) v Hst Hw (kh_bytes _ _ HK k) Nv) as (root' & p' & -> & Hst' & Hw' & Hl).
  cbn [obind fst snd]. set (t1 := set_sec_root t root'). assert (Hst1 : stands_for Keccak256 Get (sec_root (getSecKeyCache t1)) p') by (rewrite (proj1 (owned_root t1)); exact Hst').
  eexists _, p'. split; [reflexivity|]. split; [exact Hst1|]. split; [exact Hw'|]. split; [|exact Hl]. intros Hv. split; auto.
  - intros j w Hj. rewrite (Hl j Hj). destruct (key_eqb_spec j (keybytesToHex (Keccak256 k))) as [->|_]; [intros [= <-]; split; [apply hashed_len|exact Hv]|apply Hks, Hj].
  - cbn. constructor; [apply (kh_len _ _ HK)|]. apply cache_deleted, cache_owned, Hca.
Qed.

Lemma secure_delete t p k : trie_form t p -> exists t' p', TryDelete t k = (t', None) /\ trie_form t' p' /\
  forall j, hexkey j -> plookup p' j = if key_eqb j (hashed k) then None else plookup p j.
Proof using HK.
  intros [Hst Hw Hks Hca]. cbn. unfold secure_TryDelete, hashKey, trie_TryDelete. cbn [set_sec_cache sec_root sec_cachegen]. destruct (owned_root t) as [-> ->].
  destruct (stands_delete Keccak256 (kh_len _ _ HK) Get (sec_cachegen t) (sec_root t) p (Keccak256 k) Hst Hw (kh_bytes _ _ HK k)) as (d & root' & p' & -> & Hst' & Hw' & Hl).
  cbn [obind fst snd]. eexists _, p'. split; [reflexivity|]. split; [|exact Hl]. split; auto.
  - intros j w Hj. rewrite (Hl j Hj). destruct (key_eqb j _); [discriminate|apply Hks, Hj].
  - cbn. apply cache_deleted, cache_owned, Hca.
Qed.

Lemma BytesToHash_ok b : hash_ok (BytesToHash b).
Proof. unfold BytesToHash. change (256 ^ HashLength) with (2 ^ 256). split; apply Z.mod_pos_bound; lia. Qed.

Lemma HashRoot_range gen lim root r h : trie_HashRoot Keccak256 gen lim root = Ret (r, h) -> hash_ok h.
Proof.
  unfold trie_HashRoot. destruct (hashRoot _ _ _ _ _ _) as [[db [[n c]|e]]|]; cbn; try discriminate; [|intros [= _ <-]; apply BytesToHash_ok].
  destruct n; try discriminate. intros [= _ <-]. apply BytesToHash_ok.
Qed.

(** The values are those of a map, and no method fails. *)
#[local] Instance SecureTrie_laws : TrieLaws SecureTrie database_error.
Proof using HK.
  refine {| trie_ok t := exists p, trie_form t p; trie_key := used |}.
  - intros t k v t' (p & Hp) Nv Hv E. destruct (secure_update t p k v Hp Nv) as (t1 & p' & E1 & _ & _ & Hp' & _). rewrite E in E1. injection E1 as ->. eauto.
  - intros t k t' (p & Hp) E. destruct (secure_delete t p k Hp) as (t1 & p' & E1 & Hp' & _). rewrite E in E1. injection E1 as ->. eauto.
  - intros t k v t' j (p & Hp) Hk Hj Nv E. destruct (secure_update t p k v Hp Nv) as (t1 & p' & E1 & Hst' & Hw' & _ & Hlk). rewrite E in E1. injection E1 as ->.
    rewrite (secure_get t1 p' j Hst' Hw'), (secure_get t p j (tf_stands _ _ Hp) (tf_wf _ _ Hp)), (Hlk _ (hashed_key j)), (hashed_inj k j Hk Hj).
    destruct (decide (k = j)); [rewrite bool_decide_true by assumption|rewrite bool_decide_false by assumption]; reflexivity.
  - intros t k t' j (p & Hp) Hk Hj E. destruct (secure_delete t p k Hp) as (t1 & p' & E1 & Hp' & Hlk). rewrite E in E1. injection E1 as ->.
    rewrite (secure_get t1 p' j (tf_stands _ _ Hp') (tf_wf _ _ Hp')), (secure_get t p j (tf_stands _ _ Hp) (tf_wf _ _ Hp)), (Hlk _ (hashed_key j)), (hashed_inj k j Hk Hj).
    destruct (decide (k = j)); [rewrite bool_decide_true by assumption|rewrite bool_decide_false by assumption]; reflexivity.
  - intros t _. cbn. unfold secure_Hash. destruct (trie_HashRoot _ _ _ _) as [[r h]|] eqn:E; cbn; [apply (HashRoot_range _ _ _ _ _ E)|split; lia].
Defined.

#[local] Instance SecureTrie_total : TrieTotal SecureTrie database_error.
Proof using HK.
  split.
  - intros t k v (p & Hp) Nv. destruct (secure_update t p k v Hp Nv) as (t' & p' & E1 & _). eauto.
  - intros t k (p & Hp). destruct (secure_delete t p k Hp) as (t' & p' & E1 & _). eauto.
Qed.

(** ** The tries of the database *)

(** A root that opens in the store, to a trie of hashed keys. *)
Definition opens_in_store (root : Hash) : Prop := exists n p, trie_New Get root = Ret (Ok n) /\ stands_for Keccak256 Get n p /\ wf p /\ keys32 p.

Lemma opens_held root : opens_in_store root -> root_held (state_database Get) root.
Proof.
  intros (n & p & E & Hst & Hw & Hk) a. exists (mkSecure n 0 [] false). cbn. unfold cachingDB_OpenStorageTrie, NewSecure. rewrite E.
  split; [reflexivity|]. exists p. split; auto.
Qed.

Lemma zero_opens : opens_in_store 0.
Proof. exists nilNode, PNil. split; [reflexivity|]. split; [constructor|]. split; [left; reflexivity|discriminate]. Qed.

(** Code that is in the store. *)
Lemma code_in_store h c : Get (Hash_Bytes h) = Some c -> code_held Keccak256 (state_database Get) h.
Proof. intros E. right. intros a. cbn. rewrite E. reflexivity. Qed.

Lemma state_database_empty a : OpenStorageTrie (state_database Get) a 0 = Ok (mkSecure nilNode 0 [] false).
Proof. reflexivity. Qed.

Lemma state_database_size a h : fst (ContractCodeSize (state_database Get) a h) = len (fst (ContractCode (state_database Get) a h)).
Proof. cbn. destruct (Get (Hash_Bytes h)); reflexivity. Qed.
End laws.

(** ** The accounts in the trie *)

(** A Go slice: of bytes, and of a length that is an [int]. *)
Definition is_slice (b : list Z) : bool := forallb (fun x => (0 <=? x) && (x <? 256)) b && (len b <? 2 ^ 63).

Lemma is_slice_ok b : is_slice b = true <-> bytes_ok b /\ len b < 2 ^ 63.
Proof.
  unfold is_slice. rewrite andb_true_iff, forallb_forall, Z.ltb_lt. split.
  - intros [H1 H2]. split; [|exact H2]. apply List.Forall_forall. intros x Hx. specialize (H1 x Hx). unfold is_byte. lia.
  - intros [H1 H2]. split; [|exact H2]. intros x Hx. pose proof (proj1 (List.Forall_forall _ _) H1 x Hx) as Hb. unfold is_byte in Hb. lia.
Qed.

(** [rlp.DecodeBytes(enc, &data)] of an [Account]. *)
Definition decode_account (enc : list Z) : option Account :=
  if is_slice enc then
    match DecodeBytes account_typ enc with
    | Ret (Ok (DList [DUint n; DBigInt b; DBytes r; DBytes c])) => Some (mkAccount n b (BytesToHash r) (BytesToHash c))
    | _ => None
    end
  else None.

Definition account_dval (d : Account) : dval := DList [DUint (Nonce d); DBigInt (acc_Balance d); DBytes (Hash_Bytes (Root d)); DBytes (Hash_Bytes (acc_CodeHash d))].

Lemma account_typed d : account_ok d -> small_balance d -> typed account_typ (account_dval d).
Proof.
  intros [Hn _ _] [Hb _]. apply typed_fields. cbn [map]. apply fo_cons; [exists (Nonce d); split; [reflexivity|exact Hn]|].
  apply fo_cons; [exists (acc_Balance d); split; [reflexivity|exact Hb]|]. apply fo_cons; [eexists; split; [reflexivity|apply Hash_Bytes_ok]|].
  apply fo_cons; [eexists; split; [reflexivity|apply Hash_Bytes_ok]|]. apply fo_nil.
Qed.

Lemma account_decoded d enc : account_ok d -> small_balance d -> encodeAccount d = Ret (Ok enc) -> enc <> [] /\ decode_account enc = Some d.
Proof.
  intros Hd Hs He. pose proof (account_typed d Hd Hs) as Ht. destruct (typed_encodable account_typ eq_refl _ Ht) as (Hu & Hn & Hb).
  assert (Hl : len (rlp (RlpDecode.enc (account_dval d))) < 2 ^ 63) by (pose proof (rlp_account d (acc_nonce_ok d Hd) Hs) as Hl; cbn in *; lia). specialize (Hb Hl).   assert (E1 : enc = rlp (RlpDecode.enc (account_dval d))).
  { unfold encodeAccount in He. change (VList _) with (RlpDecode.enc (account_dval d)) in He. rewrite EncodeToBytes_rlp, Hn in He by assumption. injection He as <-. reflexivity. }
  subst enc. change (rlp (RlpDecode.enc (account_dval d))) with (encoding (account_dval d)) in *. split; [apply rlp_nonempty; discriminate|]. unfold decode_account. rewrite (proj2 (is_slice_ok _) (conj Hb Hl)).
  rewrite (proj2 (proj2 (DecodeBytes_spec account_typ (encoding (account_dval d)) eq_refl Hb Hl) (account_dval d)) (conj Ht eq_refl)). destruct Hd as [_ Hr Hc]. destruct d as [n b r c]. cbn in *.
  unfold BytesToHash, Hash_Bytes. rewrite !SetBytes_be_bytes. change (Z.of_nat (Z.to_nat HashLength)) with 32. change (256 ^ HashLength) with (2 ^ 256). change (256 ^ 32) with (2 ^ 256).
  unfold hash_ok in *. rewrite !Z.mod_mod, !Z.mod_small by (lia || assumption). reflexivity.
Qed.

Lemma decoded_account enc d : decode_account enc = Some d -> account_ok d.
Proof.
  unfold decode_account. destruct (is_slice enc) eqn:Es; [|discriminate]. apply is_slice_ok in Es. destruct Es as [Hb Hl].
  destruct (DecodeBytes account_typ enc) as [[v|e]|] eqn:Ed; try discriminate. apply (proj2 (DecodeBytes_spec account_typ enc eq_refl Hb Hl) v) in Ed. destruct Ed as [Ht _].
  destruct v as [| | | | |vs|]; try discriminate. apply typed_fields in Ht. cbn [map] in Ht. inversion Ht as [|? ? v1 vs1 H1 Ht1]; subst.
  destruct H1 as (n & -> & Hn). destruct vs1 as [|[| | | |b| |] [|[| | |r| | |] [|[| | |c| | |] [|]]]]; try discriminate. intros [= <-]. split; cbn; [exact Hn|apply BytesToHash_ok|apply BytesToHash_ok].
Qed.

(** ** What the store has *)

Section held.
Variable Keccak256 : list Z -> list Z.
Variable used : list Z -> Prop.
Hypothesis HK : key_hash Keccak256 used.
Variable Get : list Z -> option (list Z).
#[local] Instance held_trie : Trie SecureTrie database_error := SecureTrie_Trie Keccak256 Get.
#[local] Instance held_laws : TrieLaws SecureTrie database_error := SecureTrie_laws Keccak256 used HK Get.

(** The storage of an account, and its code unless that is empty, are in the store. *)
Definition in_store (d : Account) : Prop :=
  opens_in_store Keccak256 Get (Root d) /\ (acc_CodeHash d = emptyCode Keccak256 \/ exists c, Get (Hash_Bytes (acc_CodeHash d)) = Some c).

(** A trie of accounts, of which the storage and the code are in the store. *)
Definition complete (t : SecureTrie) : Prop := forall a d, address_used used a -> stored decode_account t a = Some d -> in_store d.

Lemma complete_held t : complete t -> accounts_held Keccak256 (state_database Get) decode_account t.
Proof using HK.
  intros Hc a d Ha Hs. destruct (Hc a d Ha Hs) as [Hr Hco]. split; [apply opens_held, Hr|]. destruct Hco as [E|(c & E)]; [left; exact E|apply (code_in_store Keccak256 Get _ c E)].
Qed.

(** The state after calls of its methods from a state that was opened. *)
Lemma after_inv de cs t p : complete t -> trie_form Keccak256 Get t p -> Forall (method_ok used) cs ->
  fin_inv Keccak256 (state_database Get) decode_account de (performs Keccak256 (state_database Get) decode_account cs (New t)).
Proof using HK.
  intros Hh Ht Hc. apply performs_inv; auto.
  - apply opens_held, zero_opens.
  - apply decoded_account.
  - apply state_database_size.
  - apply New_inv; [exists p; exact Ht|apply complete_held, Hh].
Qed.
End held.
