(* ===== verification/FinalTheorems.v ===== *)
(** * Theorems about finalising, copying and the database of the state

    The state over secure tries and the RLP encoding of accounts: what [Finalise]
    writes, what a copy answers, where the two go wrong, and what the database of
    tries and code returns. *)

From Stdlib Require Import ZArith List Lia Bool.
From stdpp Require Import base gmap.
From S2P Require Import Prelude GoBig ByteBuf CommonTypes Rlp RlpTheorems RlpStream RlpDecode TrieNode TrieOps TrieHash TrieSecure TrieSpec TrieRefine TrieMerkle TrieStore TrieContents TrieTheorems VmCommon VmState CoreState CoreFinal CoreDatabase StateLaws StateSpec StateFinal StateTrie.
Import ListNotations.
Local Open Scope Z_scope.

Section final.
Variable Keccak256 : list Z -> list Z.
Variable used : list Z -> Prop.
Variable Get : list Z -> option (list Z).
Variable range_slots : gmap Z Z -> list (Z * Z).
Variable range_dirty : gset Z -> list Z.
#[local] Instance final_trie : Trie SecureTrie database_error := SecureTrie_Trie Keccak256 Get.
Abbreviation St := (@State SecureTrie database_error).
Abbreviation db := (state_database Get).
Abbreviation world_of := (view Keccak256 db decode_account).
#[local] Instance final_db : StateDB St := state_StateDB Keccak256 db decode_account.

(** The orders of ranging are orders of the entries. *)
Definition ranges : Prop := (forall m, range_slots m ≡ₚ map_to_list m) /\ (forall d, range_dirty d ≡ₚ elements d).

(** The state after the calls [cs] from a state that was opened. *)
Abbreviation after cs t := (performs Keccak256 db decode_account cs (New t)).

(** The balances have 256 bits, and there is no error. *)
Definition calm (cs : list method) (t : SecureTrie) : Prop := small_balances (after cs t) /\ no_errors (after cs t).


Lemma copy_returns (s : St) xs : (forall a : Z, a ∈ xs -> is_Some (stateObjects s !! a)) -> forall c, exists c', each (copy_object s) xs c = Ret c'.
Proof.
  induction xs as [|x xs IH]; intros Hx c; cbn [each]; [eauto|]. unfold copy_object at 1. destruct (Hx x ltac:(left)) as (o & Eo). unfold Address in *. rewrite Eo. cbn [obind].
  apply IH. intros a Ha. apply Hx. right. exact Ha.
Qed.

(** A copy answers as the original.  After any calls of the methods, [Copy]
    returns a state in which every query of an account, of its code and of its
    storage has the same answer, with the same refund, logs and preimages. *)
Theorem copy_answers_the_same cs t p : key_hash Keccak256 used -> complete Keccak256 used Get t -> ranges -> trie_form Keccak256 Get t p -> Forall (method_ok used) cs ->
  exists c, Copy range_dirty (after cs t) = Ret c /\ world_eq (world_of c) (world_of (after cs t)) /\
    refund c = refund (after cs t) /\ logs c = logs (after cs t) /\ preimages c = preimages (after cs t).
Proof.
  intros HK Hw [Hr1 Hr2] Ht Hc. pose proof (after_inv Keccak256 used HK Get false cs t p Hw Ht Hc) as Hi. set (HL := SecureTrie_laws Keccak256 used HK Get) in *.
  destruct (copy_returns (after cs t) (range_dirty (stateObjectsDirty (after cs t)))
    ltac:(intros a Ha; rewrite Hr2 in Ha; apply elem_of_elements in Ha; apply (fi_dirty _ _ _ _ _ Hi a Ha))
    (mkState (trie (after cs t)) ∅ ∅ None (refund (after cs t)) 0 0 0 (logs (after cs t)) (logSize (after cs t)) (preimages (after cs t)) [] [] 0)) as (c & Ec).
  exists c. split; [exact Ec|]. destruct (Copy_world Keccak256 db decode_account range_dirty Hr2 false _ c Hi Ec) as (W & R1 & R2 & R3 & _). auto.
Qed.
End final.

(** ** The database of code *)

Section code.
Variable Keccak256 : list Z -> list Z.
Variable Get : list Z -> option (list Z).
Context {C : Type} {HC : Lru C}.

(** What an [lru.Cache] returns was added last under the key; it may have forgotten it. *)
Definition lru_forgets : Prop :=
  (forall c h k n, snd (lru_Get (fst (lru_Get c h)) k) = Some n -> snd (lru_Get c k) = Some n) /\
  (forall c h m k n, snd (lru_Get (lru_Add c h m) k) = Some n -> if k =? h then n = m else snd (lru_Get c k) = Some n).

(** The sizes in the cache are those of the code in the store. *)
Definition sizes_right (d : cachingDB) : Prop := forall h n, snd (lru_Get (codeSizeCache d) h) = Some n -> exists code, Get (Hash_Bytes h) = Some code /\ n = len code.

Lemma sizes_add d h code : lru_forgets -> sizes_right d -> Get (Hash_Bytes h) = Some code -> sizes_right (mkCachingDB (pastTries d) (lru_Add (codeSizeCache d) h (len code))).
Proof. intros [_ La] Hd Hg k n Hk. apply La in Hk. destruct (Z.eqb_spec k h) as [->|]; [eauto|apply (Hd k n Hk)]. Qed.

(** The cache of code sizes is right.  From a cache that agrees with the store,
    [ContractCode] and [ContractCodeSize] answer as reading the store does, with
    and without a cached size, and with the error of a missing code; they leave a
    cache that agrees with the store and the past tries as they are. *)
Theorem code_size_cache_right (d : cachingDB) addrHash codeHash : lru_forgets -> sizes_right d ->
  let '(d1, code) := cachingDB_ContractCode Get d addrHash codeHash in
  let '(d2, size) := cachingDB_ContractCodeSize Get d addrHash codeHash in
  code = ContractCode (state_database Get) addrHash codeHash /\ size = ContractCodeSize (state_database Get) addrHash codeHash /\
  fst size = len (fst code) /\ snd size = snd code /\ sizes_right d1 /\ sizes_right d2 /\ pastTries d1 = pastTries d /\ pastTries d2 = pastTries d.
Proof.
  intros HF Hd. unfold cachingDB_ContractCodeSize, cachingDB_ContractCode. cbn [state_database ContractCode ContractCodeSize].
  destruct (lru_Get (codeSizeCache d) codeHash) as [c cached] eqn:El. assert (Hc : sizes_right (mkCachingDB (pastTries d) c)).
  { intros h n Hn. apply (Hd h n), (proj1 HF _ codeHash). rewrite El. exact Hn. }
  assert (Hcached : forall n, cached = Some n -> exists code, Get (Hash_Bytes codeHash) = Some code /\ n = len code) by (intros n ->; apply (Hd codeHash n); rewrite El; reflexivity).
  destruct (Get (Hash_Bytes codeHash)) as [code|] eqn:Eg; destruct cached as [n|]; cbn [pastTries codeSizeCache fst snd].
  - destruct (Hcached n eq_refl) as (code' & [= <-] & ->). repeat split; auto. apply sizes_add; assumption.
  - repeat split; auto; [apply sizes_add; assumption|]. apply (sizes_add (mkCachingDB (pastTries d) (lru_Add c codeHash (len code)))); auto. apply (sizes_add (mkCachingDB (pastTries d) c)); auto.
  - destruct (Hcached n eq_refl) as (code' & [=] & _).
  - repeat split; auto.
Qed.
End code.

(** ** The past tries *)

Section past.
Variable Keccak256 : list Z -> list Z.
Hypothesis Keccak_len : forall b, len (Keccak256 b) = 32.
Variable Get : list Z -> option (list Z).
Context {C : Type} {HC : Lru C}.

(** The contents [m], over hashed keys, have the root [h]. *)
Definition has_root (m : list Z -> option (list Z)) (h : Hash) : Prop := hashed_keys m /\ exists p, of_map p m /\ h = BytesToHash (root_hash Keccak256 p).
Definition trie_with (t : SecureTrie) (m : list Z -> option (list Z)) : Prop := contents Keccak256 Get (sec_root t) m.

Lemma secure_Hash_root t m : trie_with t m -> hashed_keys m -> exists t' h, secure_Hash Keccak256 MaxTrieCacheGen t = Ret (t', h) /\ trie_with t' m /\ has_root m h.
Proof using Keccak_len.
  intros Ht Hm. unfold secure_Hash. destruct (contents_hash Keccak256 Keccak_len Get (sec_cachegen t) MaxTrieCacheGen (sec_root t) m Ht Hm) as (p & root' & Hp & -> & Hc).
  do 2 eexists. split; [reflexivity|]. split; [exact Hc|]. split; [exact Hm|]. eauto.
Qed.

Lemma has_root_unique m h h' : has_root m h -> has_root m h' -> h = h'.
Proof. intros (_ & p & Hp & ->) (_ & q & Hq & ->). rewrite (of_map_unique p q m m Hp Hq (fun _ _ => eq_refl)). reflexivity. Qed.

(** Each of the tries has the contents of its place. *)
Definition past_right (ts : list SecureTrie) (ms : list (list Z -> option (list Z))) : Prop := Forall2 (fun t m => trie_with t m /\ hashed_keys m) ts ms.

Lemma open_past_spec root ts ms : past_right ts ms -> exists ts' r, open_past Keccak256 ts root = Ret (ts', r) /\ past_right ts' ms /\
  match r with
  | Some t => exists m, In m ms /\ trie_with t m /\ has_root m root
  | None => forall m, In m ms -> ~ has_root m root
  end.
Proof using Keccak_len.
  induction 1 as [|t m ts ms [Ht Hm] Hts IH]; cbn [open_past]; [do 2 eexists; split; [reflexivity|]; split; [constructor|]; intros m []|].
  destruct (secure_Hash_root t m Ht Hm) as (t' & h & -> & Ht' & Hr). cbn [obind]. destruct (Z.eqb_spec h root) as [->|N].
  - do 2 eexists. split; [reflexivity|]. split; [constructor; auto|]. exists m. split; [left; reflexivity|]. auto.
  - destruct IH as (ts' & r & -> & Hts' & Hres). cbn [obind fst snd]. do 2 eexists. split; [reflexivity|]. split; [constructor; auto|]. destruct r as [t0|].
    + destruct Hres as (m0 & Hin & H). exists m0. split; [right; exact Hin|exact H].
    + intros m0 [<-|Hin]; [|apply Hres, Hin]. intros Hr'. apply N, (has_root_unique m); assumption.
Qed.

(** [OpenTrie] opens the root that is asked for.  When the store opens the
    root, if at all, to a trie with contents of that root, and the past tries have contents, [OpenTrie]
    returns without panic: a trie whose contents have the root, from the past tries
    or else from the store; or the error of the store, when no past trie has the
    root.  Hashing leaves the contents of the past tries. *)
Theorem open_trie_right (d : cachingDB) ms root : past_right (rev (pastTries d)) ms ->
  trie_New Get root <> Panic -> (forall n, trie_New Get root = Ret (Ok n) -> exists m, contents Keccak256 Get n m /\ has_root m root) ->
  exists (d' : @cachingDB C) r, cachingDB_OpenTrie Keccak256 Get d root = Ret (d', r) /\ past_right (rev (pastTries d')) ms /\ codeSizeCache d' = codeSizeCache d /\
    match r with
    | Ok t => exists m, trie_with t m /\ has_root m root
    | Err e => trie_New Get root = Ret (Err e) /\ forall m, In m ms -> ~ has_root m root
    end.
Proof using Keccak_len.
  intros Hp Hnp Hn. unfold cachingDB_OpenTrie. destruct (open_past_spec root _ _ Hp) as (ts' & r & -> & Hp' & Hr). cbn [obind fst snd]. destruct r as [t|].
  - do 2 eexists. split; [reflexivity|]. cbn [pastTries codeSizeCache]. rewrite rev_involutive. split; [exact Hp'|]. split; [reflexivity|]. destruct Hr as (m & _ & Hm). eauto.
  - unfold NewSecure. destruct (trie_New Get root) as [[n|e]|] eqn:En; [| |contradiction]; cbn [try_bind obind];
      (do 2 eexists; split; [reflexivity|]); cbn [pastTries codeSizeCache]; rewrite rev_involutive; (split; [exact Hp'|]); (split; [reflexivity|]).
    + destruct (Hn n eq_refl) as (m & Hm). exists m. exact Hm.
    + auto.
Qed.
End past.

(** ** Samples *)

(** An empty store, a hash that keeps the last 32 bytes, and ranges in the order of the maps. *)
Definition sample_k (b : list Z) : list Z := be_bytes 32 (SetBytes b).
Definition sample_store : list Z -> option (list Z) := fun _ => None.
Definition sample_slots (m : gmap Z Z) : list (Z * Z) := map_to_list m.
Definition sample_dirty (d : gset Z) : list Z := elements d.
Definition sample_t : SecureTrie := mkSecure nilNode 0 [] false.
Abbreviation sample_database := (state_database sample_store).
#[local] Hint Extern 0 (Trie SecureTrie _) => exact (final_trie sample_k sample_store) : typeclass_instances.
#[local] Hint Extern 0 (StateDB (@State SecureTrie database_error)) => exact (final_db sample_k sample_store) : typeclass_instances.

(** The keys of the samples: three addresses and two slots. *)
Definition sample_keys : list (list Z) := [Address_Bytes 7; Address_Bytes 8; Address_Bytes 9; Hash_Bytes 1; Hash_Bytes 2].
Definition sample_used (k : list Z) : Prop := In k sample_keys.

Lemma sample_key_hash : key_hash sample_k sample_used.
Proof. split; [intros b; apply be_bytes_len|intros b; apply be_bytes_ok|]. apply distinct_no_collision. vm_compute. reflexivity. Qed.

Lemma sample_address a : a = 7 \/ a = 8 \/ a = 9 -> address_used sample_used a.
Proof. intros Ha. split; [unfold address_ok; lia|]. unfold sample_used, sample_keys. destruct Ha as [->|[->| ->]]; auto 6 with datatypes. Qed.
Lemma sample_slot k : k = 1 \/ k = 2 -> slot_used sample_used k.
Proof. intros Hk. split; [unfold hash_ok; lia|]. unfold sample_used, sample_keys. destruct Hk as [->| ->]; auto 8 with datatypes. Qed.

Lemma sample_complete : complete sample_k sample_used sample_store sample_t.
Proof. intros a d _. cbn. discriminate. Qed.

Lemma sample_ranges : ranges sample_slots sample_dirty.
Proof. split; reflexivity. Qed.

Lemma sample_form : trie_form sample_k sample_store sample_t PNil.
Proof. split; [constructor|left; reflexivity|discriminate|constructor]. Qed.

Definition all_objects {O : Type} (f : O -> bool) (m : gmap Z O) : bool := forallb (fun kv => f (snd kv)) (map_to_list m).
Lemma all_objects_spec {O : Type} (f : O -> bool) m : all_objects f m = true -> forall (a : Z) o, m !! a = Some o -> f o = true.
Proof. unfold all_objects. rewrite forallb_forall. intros H a o Ho. apply (H (a, o)), list_elem_of_In, elem_of_map_to_list, Ho. Qed.

Definition sample_methods : list method := [mAddBalance 7 100; mSetNonce 7 1; mSetState 7 1 5; mGetState 7 2; mSetCode 7 [1; 2]; mCreateAccount 9; mAddBalance 8 3; mSnapshot; mSuicide 8].
Abbreviation sample_state := (performs sample_k sample_database decode_account sample_methods (New sample_t)).

Lemma sample_methods_ok : Forall (method_ok sample_used) sample_methods.
Proof.
  unfold sample_methods. repeat (apply List.Forall_cons; [cbn [method_ok]; repeat match goal with |- _ /\ _ => split end;
    first [exact I|apply sample_address; lia|apply sample_slot; lia|unfold hash_ok, is_u64; lia]|]).
  apply List.Forall_nil.
Qed.

Definition object_fine (o : @stateObject SecureTrie database_error) : bool :=
  (0 <=? acc_Balance (data o)) && (acc_Balance (data o) <? 2 ^ 256) && match obj_dbErr o with None => true | Some _ => false end.

Lemma object_fine_spec o : object_fine o = true -> small_balance (data o) /\ obj_dbErr o = None.
Proof. unfold object_fine, small_balance. rewrite !andb_true_iff. intros [[H1 H2] H3]. split; [lia|]. destruct (obj_dbErr o); [discriminate H3|reflexivity]. Qed.

Lemma sample_calm : calm sample_k sample_store sample_methods sample_t.
Proof.
  assert (H : forall (a : Z) o, stateObjects sample_state !! a = Some o -> object_fine o = true) by (apply all_objects_spec; vm_compute; reflexivity).
  split; [intros a o Ho; apply object_fine_spec, (H a o Ho)|]. split; [vm_compute; reflexivity|intros a o Ho; apply object_fine_spec, (H a o Ho)].
Qed.


Lemma copy_answers_the_same_witness : exists c, Copy sample_dirty sample_state = Ret c /\
  world_eq (view sample_k sample_database decode_account c) (view sample_k sample_database decode_account sample_state).
Proof.
  destruct (copy_answers_the_same sample_k sample_used sample_store sample_slots sample_dirty sample_methods sample_t PNil sample_key_hash sample_complete sample_ranges sample_form sample_methods_ok) as (c & H1 & H2 & _).
  exists c. auto.
Defined.

(** ** Where changes are lost or shared *)

Abbreviation open t := (@New SecureTrie database_error t).
Abbreviation sample_new := (open sample_t).
Abbreviation sample_Finalise := (Finalise sample_k sample_database sample_slots sample_dirty).

(** A copy shares the trie of its original.  Finalising a change in the copy of
    a state changes what the original answers for an account that it had not loaded
    before: it had no balance there, and has the balance of the copy then. *)
Theorem copy_shares_trie : exists copied original changed,
  Copy sample_dirty sample_new = Ret copied /\
  on_copy (fun c => sample_Finalise true (AddBalance 7 5 c)) sample_new copied = Ret (original, changed) /\
  snd (GetBalance 7 sample_new) = 0 /\ snd (GetBalance 7 original) = 5.
Proof.
  destruct (Copy sample_dirty sample_new) as [copied|] eqn:E1; [|vm_compute in E1; discriminate E1]. vm_compute in E1. injection E1 as <-.
  do 3 eexists. split; [reflexivity|]. split; [vm_compute; reflexivity|]. split; vm_compute; reflexivity.
Qed.

(** An account without balance is in the trie; it is touched in a call that is
    reverted, and then given a balance. *)
Definition sample_with_empty : outcome (@State SecureTrie database_error) := sample_Finalise false (AddBalance 7 0 sample_new).
Definition sample_touch_reverted : outcome (@State SecureTrie database_error) :=
  let! s := sample_with_empty in
  let x := Snapshot (open (trie s)) in
  let! s := RevertToSnapshot (snd x) (AddBalance 7 0 (fst x)) in
  Ret (AddBalance 7 5 s).

(** A change after a reverted touch is lost.  When touching an empty account is
    reverted, the account is no more dirty and does not become dirty again: a
    balance that is added to it later is there for the queries, but [Finalise] does
    not write it to the trie, and a state that is opened on the trie does not have
    it. *)
Theorem reverted_touch_loses_change : exists s s',
  sample_touch_reverted = Ret s /\ snd (GetBalance 7 s) = 5 /\ sample_Finalise true s = Ret s' /\
  snd (GetBalance 7 s') = 5 /\ snd (GetBalance 7 (open (trie s'))) = 0.
Proof.
  do 2 eexists. split; [vm_compute; reflexivity|]. split; [vm_compute; reflexivity|]. split; [vm_compute; reflexivity|]. split; vm_compute; reflexivity.
Qed.

(** ** Samples of the database *)

(** A cache that forgets nothing. *)
#[local] Instance sample_lru : Lru (Hash -> option Z) := { lru_Get c h := (c, c h); lru_Add c h n := fun k => if k =? h then Some n else c k }.

Lemma code_size_cache_right_witness :
  let Get := fun k => if bool_decide (k = Hash_Bytes 9) then Some [1; 2; 3] else None in
  let '(_, (n, e)) := cachingDB_ContractCodeSize Get (mkCachingDB [] (fun h : Hash => if h =? 9 then Some 3 else None)) 0 9 in n = 3 /\ e = None.
Proof.
  cbv zeta. set (Get := fun k => if bool_decide (k = Hash_Bytes 9) then Some [1; 2; 3] else None). set (d := mkCachingDB [] (fun h : Hash => if h =? 9 then Some 3 else None)).
  assert (HF : @lru_forgets (Hash -> option Z) sample_lru) by (split; [auto|intros c h m k n; cbn; destruct (k =? h); congruence]).
  assert (Hd : sizes_right Get d) by (intros h n; cbn; destruct (Z.eqb_spec h 9) as [->|]; [intros [= <-]; exists [1; 2; 3]; split; reflexivity|discriminate]).
  pose proof (code_size_cache_right Get d 0 9 HF Hd) as H. destruct (cachingDB_ContractCode Get d 0 9) as [d1 code]. destruct (cachingDB_ContractCodeSize Get d 0 9) as [d2 [n e]].
  destruct H as (_ & H & _). vm_compute in H. injection H as -> ->. auto.
Defined.

(** A past trie with one key, found by its hash. *)
Definition sample_entry : list Z -> option (list Z) := TrieContents.update (fun _ => None) (be_bytes 32 5) [1].
Definition sample_past : SecureTrie := match trie_TryUpdate sample_store 0 nilNode (be_bytes 32 5) [1] with Ret (n, _) => mkSecure n 0 [] false | Panic => sample_t end.
Definition sample_past_hash : Hash := match secure_Hash sample_k MaxTrieCacheGen sample_past with Ret (_, h) => h | Panic => 0 end.

Lemma sample_past_right : past_right sample_k sample_store [sample_past] [sample_entry].
Proof.
  constructor; [|constructor]. split.
  - destruct (contents_update sample_k (kh_len _ _ sample_key_hash) sample_store 0 nilNode _ (be_bytes 32 5) [1] (empty_contents sample_k sample_store) (be_bytes_ok _ _) ltac:(discriminate)) as (n & E1 & Hc).
    unfold trie_with, sample_past. rewrite E1. exact Hc.
  - intros key v _. unfold sample_entry, TrieContents.update. destruct (key_eqb_spec key (be_bytes 32 5)) as [->|_]; [|discriminate]. intros [= <-]. split; [apply be_bytes_len|reflexivity].
Qed.

Lemma open_trie_right_witness : exists d' t m, cachingDB_OpenTrie sample_k sample_store (mkCachingDB [sample_past] (fun _ : Hash => @None Z)) sample_past_hash = Ret (d', Ok t) /\
  trie_with sample_k sample_store t m /\ has_root sample_k m sample_past_hash.
Proof.
  assert (Hn : trie_New sample_store sample_past_hash = Ret (Err (MissingNodeError sample_past_hash []))) by (vm_compute; reflexivity).
  destruct (open_trie_right sample_k (kh_len _ _ sample_key_hash) sample_store (mkCachingDB [sample_past] (fun _ : Hash => @None Z)) [sample_entry] sample_past_hash sample_past_right)
    as (d' & r & E1 & _ & _ & Hr); [rewrite Hn; discriminate|intros n; rewrite Hn; discriminate|]. destruct r as [t|e].
  - destruct Hr as (m & Hm). exists d', t, m. auto.
  - exfalso. vm_compute in E1. discriminate E1.
Defined.
