(* ===== verification/CommitTheorems.v ===== *)
(** * Package [core/state]: committing and opening again

    [CommitTo] over secure tries: what it puts into the writer, and what a state
    that is opened on the root it returns answers. *)

From Stdlib Require Import ZArith List Lia Bool.
From stdpp Require Import base gmap.
From S2P Require Import Prelude GoBig ByteBuf CommonTypes Rlp RlpTheorems TrieNode TrieOps TrieHash TrieSecure TrieSpec TrieRefine TrieMerkle TrieStore TrieContents TrieTheorems VmCommon VmState CoreState CoreFinal CoreDatabase StateLaws StateSpec StateFinal StateTrie FinalTheorems.
Import ListNotations.
Local Open Scope Z_scope.

Section commit.
Context {W : Type}.
Variable Keccak256 : list Z -> list Z.
Variable Get : list Z -> option (list Z).
Variable Put : W -> list Z -> list Z -> W * option database_error.
Variable written : W -> list Z -> option (list Z).
Variable known : list Z -> Prop.
Variable cachelimit : SecureTrie -> Z.
Variable range_slots : gmap Z Z -> list (Z * Z).
Variable range_objects : gmap Z (@stateObject SecureTrie database_error) -> list Z.
Variable nil_code : @stateObject SecureTrie database_error -> bool.
Variable used : list Z -> Prop.
Hypothesis HK : key_hash Keccak256 used.
Hypothesis HH : hash_laws Keccak256 known.
(** A writer has what was put last under a key. *)
Hypothesis Put_written : forall w k v w', Put w k v = (w', None) -> forall j, written w' j = if key_eqb j k then Some v else written w j.
Hypothesis Hslots : forall m, range_slots m ≡ₚ map_to_list m.
Hypothesis Hnil : forall o, nil_code o = true -> code o = [].

#[local] Instance commit_trie : Trie SecureTrie database_error := SecureTrie_Trie Keccak256 Get.
#[local] Instance commit_trie_laws : TrieLaws SecureTrie database_error := SecureTrie_laws Keccak256 used HK Get.
#[local] Instance commit_total : TrieTotal SecureTrie database_error := SecureTrie_total Keccak256 used HK Get.
#[local] Instance commit_commit : TrieCommit SecureTrie database_error W := SecureTrie_Commit Keccak256 cachelimit Put.
Abbreviation St := (@State SecureTrie database_error).
Abbreviation Obj := (@stateObject SecureTrie database_error).
Abbreviation db := (state_database Get).
Abbreviation get_slot o k := (fst (object_GetState Keccak256 db o k)).
Abbreviation get_code o := (fst (object_Code Keccak256 db o)).
Abbreviation grown w w' := (TrieStore.grown Keccak256 written known Get (Some w) (Some w')).
Abbreviation clean w := (TrieStore.clean Keccak256 written known Get (Some w)).
Abbreviation updateTrie := (updateTrie Keccak256 db range_slots).
Abbreviation trie_form := (trie_form Keccak256 Get).

(** ** The tries *)

Definition put_failed (e : database_error) : Prop := exists w k v, snd (Put w k v) = Some e.

Lemma put_other w k v w' : clean w -> len k <> 32 -> Put w k v = (w', None) -> grown w w'.
Proof using HH Put_written.
  intros Hc Hk Hp. pose proof (Put_written w k v w' Hp) as Hw. split; [exact I| |].
  - intros j u Hj. cbn [TrieStore.view]. rewrite Hw. destruct (key_eqb_spec j k) as [->|]; [contradiction|auto].
  - intros _ e He. cbn [TrieStore.view]. rewrite Hw. destruct (key_eqb_spec (Keccak256 e) k) as [<-|]; [destruct Hk; apply (hl_len _ _ HH)|apply (Hc ltac:(discriminate) e He)].
Qed.

Lemma put_keys_spec c : Forall (fun kv => len (fst kv) = 32) c -> forall w, clean w ->
  match put_keys Put c w with (w', None) => grown w w' | (w', Some e) => put_failed e end.
Proof using HH Put_written.
  induction 1 as [|[hk key] c Hl _ IH]; intros w Hc; cbn [put_keys]; [apply grown_refl, Hc|].
  destruct (Put w (secKey hk) key) as [w1 [e|]] eqn:Ep; [exists w, (secKey hk), key; rewrite Ep; reflexivity|].
  assert (Hg : grown w w1) by (apply (put_other w (secKey hk) key w1 Hc); [unfold secKey; rewrite len_app; cbn in Hl; rewrite Hl; discriminate|exact Ep]).
  specialize (IH w1 (gr_clean _ _ _ _ _ _ Hg)). destruct (put_keys Put c w1) as [w' [e|]]; [exact IH|apply (grown_trans _ _ _ _ _ _ _ Hg IH)].
Qed.

(** A trie is put into the writer, under the hash of its root. *)
Lemma secure_commit t p w : trie_form t p -> knowns Keccak256 known p -> clean w -> extends Get (written w) ->
  exists t' w' r, trie_CommitTo t w = (t', w', r) /\
    match r with
    | Err e => put_failed e
    | Ok h => h = BytesToHash (root_hash Keccak256 p) /\ instore Keccak256 (written w') p /\ grown w w'
    end.
Proof using HH HK Put_written.
  intros [Hst Hw Hks Hca] Hk Hc Hx. cbn. unfold secure_CommitTo. destruct (owned_root t) as [Er Eg]. rewrite Er, Eg.
  pose proof (put_keys_spec _ (cache_owned t Hca) w Hc) as Hp. destruct (put_keys Put _ w) as [w1 [e|]]; [do 3 eexists; split; [reflexivity|exact Hp]|].
  destruct (keys32_sized Keccak256 (kh_len _ _ HK) p Hw Hks) as [Hs Hl]. pose proof (gr_extends _ _ _ _ _ _ Hp) as Hx1. cbn [TrieStore.view] in Hx1.
  assert (Hst1 : stands_for Keccak256 (written w1) (sec_root t) p).
  { apply (stands_grow Keccak256 (kh_len _ _ HK) Get); [|exact Hst]. intros k v Hlk Hv. apply Hx1; [exact Hlk|]. apply Hx; assumption. }
  destruct (commit_spec Keccak256 (kh_len _ _ HK) Put (sec_cachegen t) (cachelimit t) written Put_written known (fun _ => hl_no_collision _ _ HH) Get (sec_root t) p w1 Hst1 Hw Hs Hk (gr_clean _ _ _ _ _ _ Hp) Hl)
    as (root' & gen' & w' & r & -> & Hr). cbn [obind]. do 3 eexists. split; [reflexivity|]. destruct r as [h|e]; [|apply Hr].
  destruct Hr as (-> & _ & Hi & Hg). split; [reflexivity|]. split; [exact Hi|apply (grown_trans _ _ _ _ _ _ _ Hp Hg)].
Qed.

(** ** Objects *)

Lemma write_slot_code kv t (o : Obj) c b : write_slot kv (t, set_code o c b) = let! x := write_slot kv (t, o) in Ret (fst x, set_code (snd x) c b).
Proof.
  destruct kv as [key v]. cbn [write_slot]. set (o1 := set_storage o _ _). change (set_storage (set_code o c b) _ _) with (set_code o1 c b).
  assert (P : forall err, object_setError (set_code o1 c b) err = set_code (object_setError o1 err) c b) by (intros err; unfold object_setError; cbn; destruct (obj_dbErr o); reflexivity).
  destruct (v =? 0); [destruct (TryDelete _ _); cbn; rewrite P; reflexivity|]. fold (slot_bytes v). rewrite slot_encoded. cbn [obind].
  destruct (TryUpdate _ _ _). cbn. rewrite P. reflexivity.
Qed.

Lemma updateTrie_code (o : Obj) c b : updateTrie (set_code o c b) = let! x := updateTrie o in Ret (fst x, set_code (snd x) c b).
Proof.
  unfold CoreFinal.updateTrie. assert (Hg : getTrie Keccak256 db (set_code o c b) = (fst (getTrie Keccak256 db o), set_code (snd (getTrie Keccak256 db o)) c b)).
  { unfold getTrie. cbn [set_code obj_trie address data]. destruct (obj_trie o); [reflexivity|]. destruct (OpenStorageTrie db _ (Root _)); [reflexivity|].
    destruct (OpenStorageTrie db _ 0); unfold object_setError; cbn; destruct (obj_dbErr o); reflexivity. }
  rewrite Hg. destruct (getTrie Keccak256 db o) as [[t|] o1]; cbn [fst snd]; cbn [set_code dirtyStorage]; [|destruct (range_slots _); reflexivity].
  assert (He : forall kvs t (o : Obj), each write_slot kvs (t, set_code o c b) = let! x := each write_slot kvs (t, o) in Ret (fst x, set_code (snd x) c b)).
  { induction kvs as [|kv kvs IH]; intros t0 o0; cbn [each]; [reflexivity|]. rewrite write_slot_code. destruct (write_slot kv (t0, o0)) as [[t1 o2]|]; cbn [obind fst snd]; [apply IH|reflexivity]. }
  change (mkObject _ _ _ _ _ _ _ _ _ _ _ _) with (set_code o1 c b). rewrite He. destruct (each write_slot _ (t, o1)) as [[t1 o2]|]; reflexivity.
Qed.

(** The slot that a trie in its canonical form has. *)
Definition slot_of (p : ptrie) (k : Hash) : Hash := fst (slot_value (value_of (plookup p (hashed Keccak256 (Hash_Bytes k))))).

Lemma slot_in_form Get' t p k : stands_for Keccak256 Get' (sec_root t) p -> TrieSpec.wf p -> @slot_in SecureTrie database_error (SecureTrie_Trie Keccak256 Get') t k = slot_of p k.
Proof using HK. intros Hst Hw. unfold slot_in. pose proof (secure_get Keccak256 used HK Get' t p (Hash_Bytes k) Hst Hw) as H. unfold secure_trie in H. rewrite H. reflexivity. Qed.

(** The storage of an object is in the writer, under the root of its account. *)
Definition storage_in (w : W) (root : Hash) (o : Obj) : Prop := exists p,
  root = BytesToHash (root_hash Keccak256 p) /\ instore Keccak256 (written w) p /\ TrieSpec.wf p /\ keys32 p /\ knowns Keccak256 known p /\
  forall k, slot_used used k -> slot_of p k = get_slot o k.
Definition code_in (w : W) (h : Hash) (o : Obj) : Prop :=
  h = emptyCode Keccak256 /\ get_code o = [] \/ h <> emptyCode Keccak256 /\ written w (Hash_Bytes h) = Some (get_code o).

Lemma storage_grown w w' root o : grown w w' -> storage_in w root o -> storage_in w' root o.
Proof using HK.
  intros Hg (p & E1 & Hi & Hp). exists p. split; [exact E1|]. split; [|exact Hp]. apply (instore_grow Keccak256 (kh_len _ _ HK) (written w)); [apply Hg|exact Hi].
Qed.

Lemma code_grown w w' h o : grown w w' -> code_in w h o -> code_in w' h o.
Proof. intros Hg [H|[N H]]; [left; exact H|right; split; [exact N|]]. apply (gr_extends _ _ _ _ _ _ Hg); [apply Hash_Bytes_ok|exact H]. Qed.

(** The nodes of the storage that is put are known. *)
Definition storage_known (o : Obj) : Prop := forall t o', updateTrie o = Ret (Some t, o') -> exists p, trie_form t p /\ knowns Keccak256 known p.
Definition commit_failed (e : @object_error database_error) : Prop := exists e', e = db_error e' /\ put_failed e'.

Lemma CommitTrie_spec (o : Obj) c b w : obj_inv Keccak256 db o -> obj_dbErr o = None -> storage_known o -> clean w -> extends Get (written w) ->
  exists o' w' err, CommitTrie Keccak256 db range_slots (set_code o c b) w = Ret (o', w', err) /\
    match err with
    | Some e => commit_failed e
    | None => address o' = address o /\ data o' = mkAccount (Nonce (data o)) (acc_Balance (data o)) (Root (data o')) (acc_CodeHash (data o)) /\
        storage_in w' (Root (data o')) o /\ grown w w'
    end.
Proof using HH HK Hslots Put_written.
  intros Hi Ho Hk Hc Hx. unfold CommitTrie. rewrite updateTrie_code. destruct (updateTrie_clean Keccak256 db range_slots o Hi Ho) as (t & o1 & Eu & Ho1). rewrite Eu. cbn [obind fst snd].
  change (obj_dbErr (set_code o1 c b)) with (obj_dbErr o1). rewrite Ho1. destruct (Hk t o1 Eu) as (p & Hp & Hkp).
  destruct (updateTrie_spec Keccak256 db range_slots Hslots o (Some t) o1 Hi Eu Ho1) as (t' & [= <-] & _ & _ & F & _ & Hs). destruct F as (A & D & _).
  destruct (secure_commit t p w Hp Hkp Hc Hx) as (t1 & w1 & r & -> & Hr). destruct r as [h|e].
  - destruct Hr as (-> & Hin & Hg). do 3 eexists. split; [reflexivity|]. cbn. rewrite D. split; [exact A|]. split; [reflexivity|]. split; [|exact Hg].
    exists p. split; [reflexivity|]. split; [exact Hin|]. split; [apply Hp|]. split; [apply Hp|]. split; [exact Hkp|].
    intros k Hh. rewrite <- (Hs k Hh). symmetry. apply (slot_in_form Get t p k (tf_stands _ _ _ _ Hp) (tf_wf _ _ _ _ Hp)).
  - do 3 eexists. split; [reflexivity|]. exists e. auto.
Qed.

Lemma hash_of_bytes a : Hash_Bytes (BytesToHash (Keccak256 a)) = Keccak256 a.
Proof using HH. apply Hash_Bytes_of; [apply (hl_bytes _ _ HH)|apply (hl_len _ _ HH)]. Qed.

(** Code that is not empty, and has the hash of no code. *)
Lemma set_code_in (o : Obj) w : known [] -> known (code o) -> acc_CodeHash (data o) = BytesToHash (Keccak256 (code o)) ->
  (code o <> [] -> written w (Keccak256 (code o)) = Some (code o)) -> code_in w (acc_CodeHash (data o)) o.
Proof using HH.
  intros H0 Hk Hh Hw. unfold code_in, object_Code. destruct (code o) as [|x c] eqn:Ec.
  - left. unfold emptyCode. rewrite Hh, Z.eqb_refl. auto.
  - right. rewrite <- Ec in *. split; [|cbn [fst]; rewrite Hh, hash_of_bytes; apply Hw; congruence]. rewrite Hh. intros E.
    assert (E2 : Keccak256 (code o) = Keccak256 []) by (rewrite <- (hash_of_bytes (code o)), <- (hash_of_bytes []), E; reflexivity). apply (hl_no_collision _ _ HH) in E2; [congruence|assumption|assumption].
Qed.

Lemma read_code_in (o : Obj) w : obj_inv Keccak256 db o -> dirtyCode o = false -> extends Get (written w) -> code_in w (acc_CodeHash (data o)) o.
Proof.
  intros Hi Hd Hx. pose proof (oi_code _ _ _ Hi) as Hc. unfold code_inv in Hc. rewrite Hd in Hc. destruct Hc as [Hh Hc].
  unfold code_in, object_Code. destruct (Z.eqb_spec (acc_CodeHash (data o)) (emptyCode Keccak256)) as [E|N].
  - left. destruct Hc as [->|[N _]]; [auto|contradiction].
  - right. split; [exact N|]. destruct Hh as [E|Hh]; [contradiction|]. specialize (Hh 0). cbn in *. destruct (Get (Hash_Bytes (acc_CodeHash (data o)))) as [c|] eqn:Eg; [|discriminate].
    rewrite (Hx _ c (proj2 (Hash_Bytes_ok _)) Eg). destruct Hc as [->|[_ Hc]]; [reflexivity|]. cbn in Hc. destruct (code o); [reflexivity|rewrite <- Hc; reflexivity].
Qed.

(** The code of an object, put unless it is nil or was not set. *)
Definition put_code (o : Obj) (w : W) : Obj * W * option (@object_error database_error) :=
  if negb (nil_code o) && dirtyCode o then
    match Put w (Hash_Bytes (acc_CodeHash (data o))) (code o) with
    | (w, Some e) => (o, w, Some (db_error e))
    | (w, None) => (set_code o (code o) false, w, None)
    end
  else (o, w, None).

Lemma put_code_spec (o : Obj) w : obj_inv Keccak256 db o -> known [] -> (dirtyCode o = true -> known (code o)) -> clean w -> extends Get (written w) ->
  let '(o1, w1, err) := put_code o w in
  match err with
  | Some e => commit_failed e
  | None => (exists b, o1 = set_code o (code o) b) /\ grown w w1 /\ code_in w1 (acc_CodeHash (data o)) o
  end.
Proof using HH Hnil Put_written.
  intros Hi H0 Hk Hc Hx. unfold put_code. assert (Eo : o = set_code o (code o) (dirtyCode o)) by (destruct o; reflexivity).
  destruct (dirtyCode o) eqn:Ed; [|rewrite andb_false_r; split; [eauto|split; [apply grown_refl, Hc|apply (read_code_in o w Hi Ed Hx)]]].
  assert (Hh : acc_CodeHash (data o) = BytesToHash (Keccak256 (code o))) by (pose proof (oi_code _ _ _ Hi) as H; unfold code_inv in H; rewrite Ed in H; exact H).
  rewrite andb_true_r. destruct (nil_code o) eqn:En; cbn [negb].
  - split; [eauto|]. split; [apply grown_refl, Hc|]. apply set_code_in; auto. rewrite (Hnil o En). contradiction.
  - rewrite Hh, hash_of_bytes. destruct (Put w (Keccak256 (code o)) (code o)) as [w1 [e|]] eqn:Ep; [exists e; split; [reflexivity|]; do 3 eexists; rewrite Ep; reflexivity|].
    destruct (Put_grown Keccak256 Put written Put_written known (fun _ => hl_no_collision _ _ HH) Get w (code o) w1 Hc (Hk eq_refl) Ep) as [Hg Hw]. split; [eauto|]. split; [exact Hg|].
    rewrite <- Hh. apply set_code_in; auto.
Qed.

(** ** The loop *)

Abbreviation stored := (stored decode_account).

(** The account of an object, with its storage and its code in the writer. *)
Definition written_account (o : Obj) (w : W) (d : Account) : Prop :=
  d = mkAccount (Nonce (data o)) (acc_Balance (data o)) (Root d) (acc_CodeHash (data o)) /\ storage_in w (Root d) o /\ code_in w (acc_CodeHash d) o.

Lemma written_grown o w w' d : grown w w' -> written_account o w d -> written_account o w' d.
Proof using HK. intros Hg (E1 & H2 & H3). split; [exact E1|]. split; [apply (storage_grown w w' _ _ Hg H2)|apply (code_grown w w' _ _ Hg H3)]. Qed.

Section run.
Variable de : bool.
Variable s0 : St.
Variable w0 : W.

(** What is put is known, and nothing else is in the writer under its hash. *)
Record commit_known : Prop := {
  ck_clean : clean w0;
  ck_extends : extends Get (written w0);
  ck_empty : known [];
  ck_code (a : Z) o : stateObjects s0 !! a = Some o -> dirtyCode o = true -> known (code o);
  ck_storage (a : Z) o : a ∈ stateObjectsDirty s0 -> stateObjects s0 !! a = Some o -> storage_known o }.

Hypothesis Hi : fin_inv Keccak256 db decode_account de s0.
Hypothesis Hsm : small_balances s0.
Hypothesis Hne : no_errors s0.
Hypothesis Hck : commit_known.

(** The trie has what it should of an object of the state. *)
Definition settled (a : Z) (o : Obj) (s : St) (w : W) : Prop :=
  if decide (a ∈ stateObjectsDirty s0) then
    if removed Keccak256 de o then stored (trie s) a = None else exists d, stored (trie s) a = Some d /\ written_account o w d
  else stored (trie s) a = stored (trie s0) a.

(** The objects [xs] remain. *)
Record committing (xs : list Z) (s : St) (w : W) : Prop := {
  cm_trie : trie_ok (trie s);
  cm_err : dbErr s = None;
  cm_todo (a : Z) : a ∈ xs -> stateObjects s !! a = stateObjects s0 !! a /\ (a ∈ stateObjectsDirty s <-> a ∈ stateObjectsDirty s0);
  cm_same (a : Z) : address_used used a -> a ∈ xs \/ stateObjects s0 !! a = None -> stored (trie s) a = stored (trie s0) a;
  cm_done (a : Z) o : a ∉ xs -> stateObjects s0 !! a = Some o -> settled a o s w;
  cm_grown : grown w0 w }.

(** What committing the object of [b] changes. *)
Record commits (b : Z) (o : Obj) (s : St) (w : W) (s' : St) (w' : W) : Prop := {
  co_trie : trie_ok (trie s');
  co_err : dbErr s' = None;
  co_objects (a : Z) : a <> b -> stateObjects s' !! a = stateObjects s !! a;
  co_dirty : stateObjectsDirty s' = stateObjectsDirty s ∖ {[ b ]};
  co_stored (a : Z) : address_used used a -> a <> b -> stored (trie s') a = stored (trie s) a;
  co_grown : grown w w';
  co_settled : settled b o s' w' }.

Lemma committing_step b o xs s w s' w' : stateObjects s0 !! b = Some o -> b ∉ xs -> committing (b :: xs) s w -> commits b o s w s' w' -> committing xs s' w'.
Proof using HK Hi.
  intros Eb Nb [C1 C2 C3 C4 C5 C6] [D1 D2 D3 D4 D5 D6 D7]. split; auto.
  - intros a Ha. assert (N : a <> b) by (intros ->; contradiction). destruct (C3 a ltac:(right; exact Ha)) as [E1 E2]. rewrite (D3 a N), E1. split; [reflexivity|].
    rewrite D4, <- E2, elem_of_difference, elem_of_singleton. tauto.
  - intros a Hok Ha. assert (N : a <> b) by (intros ->; destruct Ha; [contradiction|congruence]). rewrite (D5 a Hok N). apply C4; [exact Hok|]. destruct Ha as [Ha|Ha]; [left; right; exact Ha|right; exact Ha].
  - intros a oa Ha Eo. destruct (decide (a = b)) as [->|N]; [rewrite Eb in Eo; injection Eo as <-; exact D7|].
    assert (Hd : settled a oa s w) by (apply C5; [rewrite elem_of_cons; tauto|exact Eo]). unfold settled in Hd |- *. rewrite (D5 a (proj1 (fi_object _ _ _ _ _ Hi a oa Eo)) N).
    destruct (decide _); [|exact Hd]. destruct (removed _ _ _); [exact Hd|]. destruct Hd as (d & E1 & Hd). exists d. split; [exact E1|apply (written_grown _ w w' _ D6 Hd)].
  - apply (grown_trans _ _ _ _ _ _ _ C6 D6).
Qed.

Lemma set_dirty_commits b o s w s' w' : trie_ok (trie s') -> dbErr s' = None -> (forall a : Z, a <> b -> stateObjects s' !! a = stateObjects s !! a) -> stateObjectsDirty s' = stateObjectsDirty s ->
  (forall a : Z, a <> b -> address_used used a -> stored (trie s') a = stored (trie s) a) -> grown w w' -> settled b o s' w' -> commits b o s w (set_dirty s' (stateObjectsDirty s' ∖ {[ b ]})) w'.
Proof. intros H1 H2 H3 H4 H5 H6 H7. split; auto. cbn. rewrite H4. reflexivity. Qed.

Abbreviation commit_one := (commit_one Keccak256 db range_slots nil_code de).

(** An object that is kept: its code, its storage and its account. *)
Lemma commit_kept b o s w : trie_ok (trie s) -> dbErr s = None -> grown w0 w -> stateObjects s0 !! b = Some o -> b ∈ stateObjectsDirty s0 -> removed Keccak256 de o = false ->
  exists s' w' err,
    (let '(o, w, err) := put_code o w in
     match err with
     | Some e => Ret (setStateObject s o, w, Some e)
     | None =>
         let! x := CommitTrie Keccak256 db range_slots o w in
         let '(o, w, err) := x in
         match err with
         | Some e => Ret (setStateObject s o, w, Some e)
         | None => let! s := updateStateObject (setStateObject s o) o in Ret (set_dirty s (stateObjectsDirty s ∖ {[ b ]}), w, None)
         end
     end) = Ret (s', w', err) /\ match err with Some e => commit_failed e | None => commits b o s w s' w' end.
Proof using HH HK Hslots Hnil Put_written Hi Hsm Hne Hck.
  intros Ht Hs Hg Eb Hd Er. destruct (fi_object _ _ _ _ _ Hi b o Eb) as (Hab & Hao & Hio). destruct Hck as [K1 K2 K3 K4 K5].
  assert (Hx : forall w1, grown w0 w1 -> extends Get (written w1)) by (intros w1 H1 k v Hk Hv; apply (gr_extends _ _ _ _ _ _ H1); [exact Hk|apply K2; assumption]).
  pose proof (put_code_spec o w Hio K3 (K4 b o Eb) (gr_clean _ _ _ _ _ _ Hg) (Hx w Hg)) as Hp. destruct (put_code o w) as [[o1 w1] [e|]]; [do 3 eexists; split; [reflexivity|exact Hp]|].
  destruct Hp as ((c & ->) & Hg1 & Hc). pose proof (grown_trans _ _ _ _ _ _ _ Hg Hg1) as Hg01.
  destruct (CommitTrie_spec o (code o) c w1 Hio (proj2 Hne b o Eb) (K5 b o Hd Eb) (gr_clean _ _ _ _ _ _ Hg1) (Hx w1 Hg01)) as (o2 & w2 & err & -> & Hr). cbn [obind].
  destruct err as [e|]; [do 3 eexists; split; [reflexivity|exact Hr]|]. destruct Hr as (A2 & D2 & S2 & Hg2). rewrite Hao in A2.
  assert (Hok : account_ok (data o2)) by (destruct (oi_account _ _ _ Hio) as [N1 _ N3]; rewrite D2; split; cbn; auto; destruct S2 as (p & -> & _); apply BytesToHash_ok).
  assert (Hsb : small_balance (data o2)) by (unfold small_balance; rewrite D2; apply (Hsm b o Eb)).
  destruct (updateStateObject_clean decode_account account_decoded (setStateObject s o2) o2 Ht Hs Hok Hsb) as (s' & Es & Hs'). rewrite Es. cbn [obind]. do 3 eexists. split; [reflexivity|].
  destruct (updateStateObject_spec decode_account account_decoded (setStateObject s o2) o2 s' Ht ltac:(rewrite A2; exact Hab) Hok Hsb Es Hs') as (_ & U1 & U2 & U3 & U4 & U5). rewrite A2 in *.
  apply (set_dirty_commits b o s w s' w2 U1 Hs'); [|exact U3|exact U5|apply (grown_trans _ _ _ _ _ _ _ Hg1 Hg2)|].
  - intros a N. rewrite U2. cbn. unfold Address in *. rewrite A2, lookup_insert_ne by congruence. reflexivity.
  - unfold settled. rewrite decide_True, Er by exact Hd. exists (data o2). split; [exact U4|]. split; [exact D2|]. split; [exact S2|].
    rewrite D2. apply (code_grown w1 w2 _ _ Hg2 Hc).
Qed.

Lemma clean_not_suicided (b : Z) o : stateObjects s0 !! b = Some o -> b ∉ stateObjectsDirty s0 -> suicided o = false.
Proof using Hi.
  intros Eb Hd. destruct (fi_clean _ _ _ _ _ Hi b o Eb Hd) as [_ Hl]. rewrite loaded_stored in Hl. destruct (StateFinal.stored _ _ b); inversion Hl as [x y Hxy|]; subst.
  destruct Hxy as [_ _ _ _ _ Hsu _]. symmetry. exact Hsu.
Qed.

Lemma commit_one_spec (b : Z) o xs s w : committing (b :: xs) s w -> stateObjects s0 !! b = Some o ->
  exists s' w' err, commit_one b s w = Ret (s', w', err) /\ match err with Some e => commit_failed e | None => commits b o s w s' w' end.
Proof using HH HK Hslots Hnil Put_written Hi Hsm Hne Hck.
  intros [C1 C2 C3 C4 C5 C6] Eb. destruct (C3 b ltac:(left)) as [Es Ed]. rewrite Eb in Es. destruct (fi_object _ _ _ _ _ Hi b o Eb) as (Hab & Hao & Hio).
  unfold CoreFinal.commit_one. unfold Address in *. rewrite Es. destruct (decide (b ∈ stateObjectsDirty s0)) as [Hd|Hd].
  - rewrite bool_decide_true by (apply Ed, Hd). cbn [andb]. fold (removed Keccak256 de o). destruct (removed Keccak256 de o) eqn:Er.
    + do 3 eexists. split; [reflexivity|]. pose proof (deleteStateObject_clean s o C1 C2) as Hc. rewrite <- Hao in Hab.
      destruct (deleteStateObject_spec decode_account s o C1 Hab Hc) as (_ & D2 & D3 & D4 & D5 & D6). rewrite Hao in *.
      apply (set_dirty_commits b o s w _ w D2 Hc); [|exact D3|exact D6|apply grown_refl, C6|unfold settled; rewrite decide_True, Er by exact Hd; exact D5].
      intros a N. rewrite D4, lookup_insert_ne by congruence. reflexivity.
    + apply (commit_kept b o s w C1 C2 C6 Eb Hd Er).
  - rewrite bool_decide_false by (rewrite Ed; exact Hd). cbn [andb]. rewrite (clean_not_suicided b o Eb Hd). cbn [orb]. do 3 eexists. split; [reflexivity|].
    apply (set_dirty_commits b o s w s w C1 C2); auto; [apply grown_refl, C6|]. unfold settled. rewrite decide_False by exact Hd. apply C4; [exact Hab|left; left].
Qed.

Lemma commit_loop xs : forall s w, NoDup xs -> (forall a : Z, a ∈ xs -> is_Some (stateObjects s0 !! a)) -> committing xs s w ->
  exists s' w' err, commit_all Keccak256 db range_slots nil_code de xs s w = Ret (s', w', err) /\ match err with Some e => commit_failed e | None => committing [] s' w' end.
Proof using HH HK Hslots Hnil Put_written Hi Hsm Hne Hck.
  induction xs as [|b xs IH]; intros s w Hnd Hin Hc; cbn [commit_all]; [do 3 eexists; split; [reflexivity|exact Hc]|].
  apply NoDup_cons in Hnd as [Nb Hnd]. destruct (Hin b ltac:(left)) as (o & Eb).
  destruct (commit_one_spec b o xs s w Hc Eb) as (s1 & w1 & err & -> & Hr). cbn [obind]. destruct err as [e|]; [do 3 eexists; split; [reflexivity|exact Hr]|].
  apply IH; [exact Hnd|intros a Ha; apply Hin; right; exact Ha|apply (committing_step b o xs s w s1 w1 Eb Nb Hc Hr)].
Qed.

(** ** [CommitTo] *)

Hypothesis Hobjects : forall m, range_objects m ≡ₚ (map_to_list m).*1.
(** The nodes of the trie of accounts are known. *)
Definition accounts_known : Prop := forall s1 w1, commit_all Keccak256 db range_slots nil_code de (range_objects (stateObjects s0)) s0 w0 = Ret (s1, w1, None) ->
  exists p, trie_form (trie s1) p /\ knowns Keccak256 known p.

Lemma commit_start : committing (range_objects (stateObjects s0)) s0 w0.
Proof using Hi Hne Hck Hobjects.
  split; [apply (fi_trie _ _ _ _ _ Hi)|apply Hne|intros a _; split; reflexivity|reflexivity| |apply grown_refl, (ck_clean Hck)].
  intros a o Ha Eo. destruct Ha. rewrite Hobjects. apply list_elem_of_fmap. exists (a, o). split; [reflexivity|]. apply elem_of_map_to_list, Eo.
Qed.

Lemma commit_all_spec : exists s' w' err, commit_all Keccak256 db range_slots nil_code de (range_objects (stateObjects s0)) s0 w0 = Ret (s', w', err) /\
  match err with Some e => commit_failed e | None => committing [] s' w' end.
Proof using HH HK Hslots Hnil Put_written Hi Hsm Hne Hck Hobjects.
  apply commit_loop; [rewrite Hobjects; apply NoDup_fst_map_to_list| |apply commit_start].
  intros a Ha. rewrite Hobjects in Ha. apply list_elem_of_fmap in Ha. destruct Ha as ([a' o] & -> & Ha). apply elem_of_map_to_list in Ha. cbn. eauto.
Qed.

Hypothesis Hak : accounts_known.

Lemma CommitTo_spec : exists s' w' r, CommitTo Keccak256 db range_slots range_objects nil_code de s0 w0 = Ret (s', w', r) /\
  match r with
  | Err e => commit_failed e
  | Ok root => exists p s1 w1, committing [] s1 w1 /\ trie_form (trie s1) p /\ knowns Keccak256 known p /\ root = BytesToHash (root_hash Keccak256 p) /\
      instore Keccak256 (written w') p /\ grown w1 w'
  end.
Proof using HH HK Hslots Hnil Put_written Hi Hsm Hne Hck Hobjects Hak.
  unfold CommitTo. destruct commit_all_spec as (s1 & w1 & err & Ec & Hr).
  rewrite Ec. cbn [obind]. destruct err as [e|]; [do 3 eexists; split; [reflexivity|exact Hr]|]. destruct (Hak s1 w1 Ec) as (p & Hp & Hk). pose proof (cm_grown _ _ _ Hr) as Hg.
  destruct (secure_commit (trie s1) p w1 Hp Hk (gr_clean _ _ _ _ _ _ Hg)) as (t' & w' & r & -> & Hc).
  { intros k v Hl Hv. apply (gr_extends _ _ _ _ _ _ Hg); [exact Hl|]. apply (ck_extends Hck); assumption. }
  do 3 eexists. split; [reflexivity|]. destruct r as [h|e]; [|exists e; auto]. destruct Hc as (-> & Hin & Hg'). exists p, s1, w1. auto 10.
Qed.
End run.

(** ** Opening again *)

Section reopen.
Variable w : W.
Abbreviation Get' := (written w).
Abbreviation db' := (state_database Get').
Abbreviation trie' := (SecureTrie_Trie Keccak256 Get').
Abbreviation view' := (@object_view SecureTrie database_error trie' Keccak256 db').

(** A state that was opened: its accounts read from the trie of the store. *)
Lemma opened_slot a (d : Account) n p k : trie_New Get' (Root d) = Ret (Ok n) -> stands_for Keccak256 Get' n p -> TrieSpec.wf p ->
  v_storage (view' (newObject a d)) k = slot_of p k.
Proof using HK.
  intros En Hst Hw. cbn [object_view v_storage]. rewrite (@object_GetState_value SecureTrie database_error trie' Keccak256 db'). cbn [newObject cachedStorage]. unfold Hash in *. rewrite lookup_empty.
  unfold trie_slot, getTrie. cbn [newObject obj_trie data address OpenStorageTrie state_database]. unfold cachingDB_OpenStorageTrie, NewSecure. rewrite En. cbn [try_bind obind fst].
  apply (slot_in_form Get' (mkSecure n 0 [] false) p k Hst Hw).
Qed.

Lemma opened_code a (d : Account) : v_code (view' (newObject a d)) =
  if acc_CodeHash d =? emptyCode Keccak256 then [] else match Get' (Hash_Bytes (acc_CodeHash d)) with Some c => c | None => [] end.
Proof. cbn. unfold object_Code. cbn. destruct (_ =? _); [reflexivity|]. destruct (written w _); reflexivity. Qed.

(** The account that was written for an object. *)
Lemma written_view (o : Obj) a d : written_account o w d -> suicided o = false -> account_same used (view' (newObject a d)) (object_view Keccak256 db o).
Proof using HK HH.
  intros (E1 & (p & Er & Hin & Hw & Hks & Hk & Hsl) & Hc) Hsu. destruct (keys32_sized Keccak256 (kh_len _ _ HK) p Hw Hks) as [Hs Hl].
  destruct (New_spec Keccak256 (kh_len _ _ HK) known (hl_no_collision _ _ HH) (hl_bytes _ _ HH) (hl_empty _ _ HH) (hl_known _ _ HH) (hl_nonzero _ _ HH) Get' p Hin Hw Hs Hk Hl) as (n & En & Hst).
  rewrite <- Er in En. split; [cbn; rewrite E1; reflexivity|]. split; [cbn; rewrite E1; reflexivity|]. split; [|split; [|cbn; symmetry; exact Hsu]].
  - rewrite opened_code. cbn [v_code object_view]. destruct Hc as [[-> ->]|[N ->]]; [rewrite Z.eqb_refl; reflexivity|]. destruct (Z.eqb_spec (acc_CodeHash d) (emptyCode Keccak256)); [contradiction|reflexivity].
  - intros k Hh. rewrite (opened_slot a d n p k En Hst Hw). apply Hsl, Hh.
Qed.

Lemma New_grow root n : extends Get Get' -> trie_New Get root = Ret (Ok n) -> trie_New Get' root = Ret (Ok n).
Proof.
  intros Hx. unfold trie_New. destruct (_ && _); [|auto]. unfold resolveHash. destruct (Get (Hash_Bytes root)) as [enc|] eqn:Eg; [|discriminate].
  rewrite (Hx _ enc (proj2 (Hash_Bytes_ok root)) Eg). auto.
Qed.

(** An account that was in the store before. *)
Lemma held_view a d : extends Get Get' -> account_held Keccak256 db d -> account_same used (view' (newObject a d)) (object_view Keccak256 db (newObject a d)).
Proof using HK.
  intros Hx [Hr Hc]. split; [reflexivity|]. split; [reflexivity|]. split; [|split; [|reflexivity]].
  - rewrite opened_code. cbn. unfold object_Code. cbn. destruct (Z.eqb_spec (acc_CodeHash d) (emptyCode Keccak256)) as [|N]; [reflexivity|]. destruct Hc as [E1|Hc]; [contradiction|]. specialize (Hc 0).
    cbn in Hc. destruct (Get (Hash_Bytes (acc_CodeHash d))) as [c|] eqn:Eg; [|discriminate Hc]. rewrite (Hx _ c (proj2 (Hash_Bytes_ok _)) Eg). reflexivity.
  - intros k _. cbn [object_view v_storage]. destruct (Hr (addrHash Keccak256 a)) as (t & Et & (p & Hp)).
    assert (Es : fst (object_GetState Keccak256 db (newObject a d) k) = slot_of p k).
    { rewrite object_GetState_value. cbn [newObject cachedStorage]. unfold Hash in *. rewrite lookup_empty. unfold trie_slot, getTrie. cbn [newObject obj_trie data address]. rewrite Et.
      apply (slot_in_form Get t p k (tf_stands _ _ _ _ Hp) (tf_wf _ _ _ _ Hp)). }
    rewrite Es. cbn in Et. unfold cachingDB_OpenStorageTrie, NewSecure in Et. destruct (trie_New Get (Root d)) as [[n|e]|] eqn:En; try discriminate Et. injection Et as <-.
    apply (opened_slot a d n p k (New_grow _ n Hx En)); [|apply Hp]. apply (stands_grow Keccak256 (kh_len _ _ HK) Get _ p Hx), Hp.
Qed.

(** The accounts of the opened trie are in the store. *)
Lemma written_in_store (o : Obj) d : written_account o w d -> in_store Keccak256 Get' d.
Proof using HK HH.
  intros (_ & (p & Er & Hin & Hw & Hks & Hk & _) & Hc). destruct (keys32_sized Keccak256 (kh_len _ _ HK) p Hw Hks) as [Hs Hl].
  destruct (New_spec Keccak256 (kh_len _ _ HK) known (hl_no_collision _ _ HH) (hl_bytes _ _ HH) (hl_empty _ _ HH) (hl_known _ _ HH) (hl_nonzero _ _ HH) Get' p Hin Hw Hs Hk Hl) as (n & En & Hst).
  rewrite <- Er in En. split; [exists n, p; auto|]. destruct Hc as [[E1 _]|[_ E1]]; eauto.
Qed.

Lemma held_in_store d : extends Get Get' -> account_held Keccak256 db d -> in_store Keccak256 Get' d.
Proof using HK.
  intros Hx [Hr Hc]. split.
  - destruct (Hr 0) as (t & Et & (p & Hp)). cbn in Et. unfold cachingDB_OpenStorageTrie, NewSecure in Et. destruct (trie_New Get (Root d)) as [[n|e]|] eqn:En; try discriminate Et. injection Et as <-.
    exists n, p. split; [apply (New_grow _ n Hx En)|]. destruct Hp as [Hst Hw Hk _]. split; [apply (stands_grow Keccak256 (kh_len _ _ HK) Get _ p Hx), Hst|auto].
  - destruct Hc as [E1|Hc]; [left; exact E1|right]. specialize (Hc 0). cbn in Hc. destruct (Get (Hash_Bytes (acc_CodeHash d))) as [c|] eqn:Eg; [|discriminate Hc].
    exists c. apply (Hx _ c (proj2 (Hash_Bytes_ok _)) Eg).
Qed.

Abbreviation world' := (@view SecureTrie database_error trie' Keccak256 db' decode_account).
Abbreviation world_of := (view Keccak256 db decode_account).

(** What the committed trie has, the opened one has. *)
Lemma opened_stored t t' p a : trie_form t p -> stands_for Keccak256 Get' (sec_root t') p -> @StateFinal.stored SecureTrie database_error trie' decode_account t' a = stored t a.
Proof using HK.
  intros Hp Hst. unfold StateFinal.stored. pose proof (secure_get Keccak256 used HK Get' t' p (Address_Bytes a) Hst (tf_wf _ _ _ _ Hp)) as H1. pose proof (secure_get Keccak256 used HK Get t p (Address_Bytes a) (tf_stands _ _ _ _ Hp) (tf_wf _ _ _ _ Hp)) as H2.
  unfold secure_trie in H1, H2. unfold commit_trie. rewrite H1, H2. reflexivity.
Qed.

Lemma opened_view t t' p a : trie_form t p -> stands_for Keccak256 Get' (sec_root t') p ->
  account_same used (world' (New t') a) (match stored t a with Some d => view' (newObject a d) | None => empty_account end).
Proof using HK.
  intros Hp Hst. pose proof (@view_alive SecureTrie database_error trie' Keccak256 db' decode_account (New t') a) as V. rewrite (@live_cases SecureTrie database_error trie') in V.
  pose proof (opened_stored t t' p a Hp Hst) as Es.
  cbn [New stateObjects trie] in V. unfold Address in *. rewrite lookup_empty, Es in V. apply eq_same. etransitivity; [exact V|]. destruct (stored t a); reflexivity.
Qed.

(** The accounts that were not changed. *)
Lemma unchanged_world de s0 (a : Z) : fin_inv Keccak256 db decode_account de s0 -> extends Get Get' -> a ∉ stateObjectsDirty s0 -> address_used used a ->
  account_same used (match stored (trie s0) a with Some d => view' (newObject a d) | None => empty_account end) (world_of s0 a).
Proof using HK.
  intros Hi Hx Hd Ha. pose proof (view_alive Keccak256 db decode_account s0 a) as V. rewrite live_cases in V. pose proof (fi_held _ _ _ _ _ Hi a) as Hh.
  apply account_same_sym, (account_same_trans _ _ _ _ (eq_same _ _ _ V)), account_same_sym. destruct (stateObjects s0 !! a) as [o|] eqn:Eo.
  - destruct (fi_clean _ _ _ _ _ Hi a o Eo Hd) as [_ Hl]. rewrite loaded_stored in Hl. destruct (StateFinal.stored decode_account (trie s0) a) as [d|]; cbn in Hl; inversion Hl as [x y Hxy|]; subst.
    pose proof (eq_deleted _ _ _ _ Hxy) as Hdel. cbn in Hdel. rewrite <- Hdel.
    apply (account_same_trans _ _ _ _ (held_view a d Hx (Hh d Ha Hd eq_refl))). apply eq_same, object_view_eq. exact Hxy.
  - destruct (StateFinal.stored decode_account (trie s0) a) as [d|]; cbn; [apply (held_view a d Hx (Hh d Ha Hd eq_refl))|apply eq_same; reflexivity].
Qed.

Lemma commit_extends de s0 w0 s1 w1 : commit_known s0 w0 -> committing de s0 w0 [] s1 w1 -> grown w1 w -> extends Get Get'.
Proof.
  intros Hck Hc Hg k v Hk Hv. apply (gr_extends _ _ _ _ _ _ Hg); [exact Hk|]. apply (gr_extends _ _ _ _ _ _ (cm_grown _ _ _ _ _ _ Hc)); [exact Hk|]. apply (ck_extends _ _ Hck); assumption.
Qed.

Lemma commit_unchanged de s0 w0 s1 w1 (a : Z) : committing de s0 w0 [] s1 w1 -> a ∉ stateObjectsDirty s0 -> address_used used a -> stored (trie s1) a = stored (trie s0) a.
Proof.
  intros Hc Hd Ha. destruct (stateObjects s0 !! a) as [o|] eqn:Eo; [|apply (cm_same _ _ _ _ _ _ Hc a Ha); right; exact Eo].
  pose proof (cm_done _ _ _ _ _ _ Hc a o ltac:(apply not_elem_of_nil) Eo) as Hs. unfold settled in Hs. rewrite decide_False in Hs by exact Hd. exact Hs.
Qed.

Lemma reopened_world de s0 w0 s1 w1 p t' (a : Z) : fin_inv Keccak256 db decode_account de s0 -> commit_known s0 w0 -> committing de s0 w0 [] s1 w1 -> trie_form (trie s1) p -> grown w1 w ->
  stands_for Keccak256 Get' (sec_root t') p -> address_used used a ->
  account_same used (world' (New t') a) (if gone Keccak256 db decode_account de s0 a then empty_account else world_of s0 a).
Proof using HK HH.
  intros Hi Hck Hc Hp Hg Hst Ha. apply (account_same_trans _ _ _ _ (opened_view (trie s1) t' p a Hp Hst)).
  pose proof (commit_extends de s0 w0 s1 w1 Hck Hc Hg) as Hx.
  destruct (decide (a ∈ stateObjectsDirty s0)) as [Hd|Hd].
  - destruct (fi_dirty _ _ _ _ _ Hi a Hd) as (o & Eo). pose proof (cm_done _ _ _ _ _ _ Hc a o ltac:(apply not_elem_of_nil) Eo) as Hs. unfold settled in Hs. rewrite decide_True in Hs by exact Hd.
    pose proof (view_alive Keccak256 db decode_account s0 a) as V. rewrite live_cases, Eo in V. rewrite (gone_dirty Keccak256 db decode_account de s0 a o Hd Eo). destruct (removed Keccak256 de o) eqn:Er.
    + rewrite Hs. apply eq_same. destruct (deleted o); [destruct de|]; try reflexivity. symmetry. exact V.
    + destruct Hs as (d & -> & Hw). destruct (deleted o) eqn:Edel; [destruct (fi_deleted _ _ _ _ _ Hi a o Eo Edel); congruence|].
      apply account_same_sym, (account_same_trans _ _ _ _ (eq_same _ _ _ V)), account_same_sym. apply written_view; [apply (written_grown o w1 w d Hg Hw)|].
      unfold removed in Er. destruct (suicided o); [discriminate Er|reflexivity].
  - rewrite (gone_clean Keccak256 db decode_account de s0 a Hd).
    rewrite (commit_unchanged de s0 w0 s1 w1 a Hc Hd Ha). apply (unchanged_world de s0 a Hi Hx Hd Ha).
Qed.

Lemma reopened_complete de s0 w0 s1 w1 p t' : fin_inv Keccak256 db decode_account de s0 -> commit_known s0 w0 -> committing de s0 w0 [] s1 w1 -> trie_form (trie s1) p -> grown w1 w ->
  stands_for Keccak256 Get' (sec_root t') p -> complete Keccak256 used Get' t'.
Proof using HK HH.
  unfold complete, held_trie. intros Hi Hck Hc Hp Hg Hst a d Ha. rewrite (opened_stored (trie s1) t' p a Hp Hst). pose proof (commit_extends de s0 w0 s1 w1 Hck Hc Hg) as Hx.
  destruct (decide (a ∈ stateObjectsDirty s0)) as [Hd|Hd].
  - destruct (fi_dirty _ _ _ _ _ Hi a Hd) as (o & Eo). pose proof (cm_done _ _ _ _ _ _ Hc a o ltac:(apply not_elem_of_nil) Eo) as Hs. unfold settled in Hs. rewrite decide_True in Hs by exact Hd.
    destruct (removed Keccak256 de o); [congruence|]. destruct Hs as (d' & E1 & Hw). rewrite E1. intros [= <-]. apply (written_in_store o d'), (written_grown o w1 w d' Hg Hw).
  - rewrite (commit_unchanged de s0 w0 s1 w1 a Hc Hd Ha). intros E1. apply (held_in_store d Hx), (fi_held _ _ _ _ _ Hi a d Ha Hd E1).
Qed.
End reopen.
End commit.

(** * Theorems about committing a state

    A state that is committed and opened again, over secure tries, the RLP encoding
    of accounts, and a writer over the key-value store. *)

Section reached.
Variable Keccak256 : list Z -> list Z.
Variable used : list Z -> Prop.
Variable Get : list Z -> option (list Z).
Variable range_slots : gmap Z Z -> list (Z * Z).
Variable range_dirty : gset Z -> list Z.
Variable de : bool.
#[local] Instance reached_trie : Trie SecureTrie database_error := SecureTrie_Trie Keccak256 Get.
Abbreviation St := (@State SecureTrie database_error).
Abbreviation db := (state_database Get).

(** The states of a block: calls of the methods, and [Finalise] between them. *)
Inductive reached (t : SecureTrie) : St -> Prop :=
| reached_opened : reached t (New t)
| reached_method s c : reached t s -> method_ok used c -> reached t (perform Keccak256 db decode_account c s)
| reached_finalised s s' : reached t s -> small_balances s -> no_errors s -> Finalise Keccak256 db range_slots range_dirty de s = Ret s' -> reached t s'.

Lemma reached_performs t cs : Forall (method_ok used) cs -> forall s, reached t s -> reached t (performs Keccak256 db decode_account cs s).
Proof. induction 1 as [|c cs Hc _ IH]; intros s Hs; [exact Hs|]. apply IH. constructor; assumption. Qed.

Lemma reached_inv (HK : key_hash Keccak256 used) t p s : ranges range_slots range_dirty -> complete Keccak256 used Get t -> trie_form Keccak256 Get t p -> reached t s ->
  @fin_inv SecureTrie database_error (SecureTrie_Trie Keccak256 Get) (SecureTrie_laws Keccak256 used HK Get) Keccak256 db decode_account de s.
Proof.
  intros [Hr1 Hr2] Hc Ht H. set (HL := SecureTrie_laws Keccak256 used HK Get). pose proof (SecureTrie_total Keccak256 used HK Get) as HTot. induction H as [|s c _ IH Hm|s s' _ IH Hb Hn Hf].
  - apply (after_inv Keccak256 used HK Get de [] t p Hc Ht). constructor.
  - apply perform_inv; auto; [apply opens_held, zero_opens|apply decoded_account|apply state_database_size].
  - destruct (Finalise_clean Keccak256 db decode_account range_slots range_dirty Hr1 Hr2 account_decoded de s IH Hb Hn) as (s1 & E1 & Hn1). unfold reached_trie in Hf. rewrite Hf in E1. injection E1 as <-.
    apply (Finalise_state Keccak256 db decode_account range_slots range_dirty Hr1 account_decoded Hr2 de s s' IH Hb Hf Hn1).
Qed.
End reached.

(** What is relied on of the writer, of the store behind it and of the hash function:
    the writer has what was put last, nothing else is under the hashes of what is
    put, and no two of the nodes and codes that are put have the same hash. *)
Record commit_laws {W : Type} (Keccak256 : list Z -> list Z) (used : list Z -> Prop) (Get : list Z -> option (list Z)) (Put : W -> list Z -> list Z -> W * option database_error)
  (written : W -> list Z -> option (list Z)) (cachelimit : SecureTrie -> Z) (range_slots : gmap Z Z -> list (Z * Z)) (range_objects : gmap Z (@stateObject SecureTrie database_error) -> list Z)
  (nil_code : @stateObject SecureTrie database_error -> bool) (de : bool) (known : list Z -> Prop) (s : @State SecureTrie database_error) (w : W) : Prop := {
  cl_key : key_hash Keccak256 used;
  cl_hash : hash_laws Keccak256 known;
  cl_put : forall w k v w', Put w k v = (w', None) -> forall j, written w' j = if key_eqb j k then Some v else written w j;
  cl_nil : forall o, nil_code o = true -> code o = [];
  cl_objects : forall m, range_objects m ≡ₚ (map_to_list m).*1;
  cl_known : commit_known Keccak256 Get written known range_slots s w;
  cl_accounts : accounts_known Keccak256 Get Put known cachelimit range_slots range_objects nil_code de s w }.


(** ** Samples *)

(** A hash that keeps addresses and hashes, a writer that is a list over an empty
    store, and the calls of [sample_methods]. *)
Definition commit_hash (b : list Z) : list Z :=
  if key_eqb b [0x80] then Hash_Bytes emptyRoot else be_bytes 32 (if (len b =? 20) || (len b =? 32) then SetBytes b else 1 + SetBytes b mod (2 ^ 255 - 19)).
Definition commit_Put (w : list (list Z * list Z)) (k v : list Z) : list (list Z * list Z) * option database_error := ((k, v) :: w, None).
Definition commit_range (m : gmap Z (@stateObject SecureTrie database_error)) : list Z := (map_to_list m).*1.
Definition commit_nil (o : @stateObject SecureTrie database_error) : bool := match code o with [] => true | _ => false end.
Definition commit_limit (t : SecureTrie) : Z := MaxTrieCacheGen.
Abbreviation commit_database := (state_database sample_store).
#[local] Hint Extern 0 (Trie SecureTrie _) => exact (SecureTrie_Trie commit_hash sample_store) : typeclass_instances.
#[local] Hint Extern 0 (TrieCommit SecureTrie _ _) => exact (SecureTrie_Commit commit_hash commit_limit commit_Put) : typeclass_instances.
Abbreviation commit_state := (performs commit_hash commit_database decode_account sample_methods (New sample_t)).
Abbreviation commit_update := (updateTrie commit_hash commit_database sample_slots).
Abbreviation commit_run := (commit_all commit_hash commit_database sample_slots commit_nil true (commit_range (stateObjects commit_state)) commit_state []).

Lemma commit_hash_len b : len (commit_hash b) = 32.
Proof. unfold commit_hash. destruct (key_eqb b [0x80]); apply be_bytes_len. Qed.

Lemma commit_hash_key : key_hash commit_hash sample_used.
Proof.
  split; [apply commit_hash_len|intros b; unfold commit_hash; destruct (key_eqb b [0x80]); apply be_bytes_ok|]. apply distinct_no_collision. vm_compute. reflexivity.
Qed.

(** The nodes and codes of the sample. *)
Definition trie_nodes (t : SecureTrie) : list (list Z) := node_encodings commit_hash (erase (sec_root t)).
Definition object_strings (o : @stateObject SecureTrie database_error) : list (list Z) :=
  code o :: match commit_update o with Ret (Some t, _) => trie_nodes t | _ => [] end.
Definition commit_strings : list (list Z) :=
  [] :: flat_map (fun kv => object_strings (snd kv)) (map_to_list (stateObjects commit_state)) ++ match commit_run with Ret (s, _, _) => trie_nodes (trie s) | Panic => [] end.
Definition known_strings (l : list (list Z)) : list (list Z) := [0x80] :: nodup (List.list_eq_dec Z.eq_dec) l.
Definition commit_knows (e : list Z) : Prop := In e (known_strings commit_strings).

Lemma known_strings_in l e : In e l -> In e (known_strings l).
Proof. intros H. right. apply nodup_In, H. Qed.
Lemma commit_knows_in e : In e commit_strings -> commit_knows e.
Proof. exact (known_strings_in commit_strings e). Qed.

Lemma commit_hash_laws : hash_laws commit_hash commit_knows.
Proof.
  split; [apply commit_hash_len|apply commit_hash_key|apply distinct_no_collision; vm_compute; reflexivity|reflexivity|left; reflexivity|].
  intros e He. assert (H : forallb (fun e => negb (BytesToHash (commit_hash e) =? 0)) (known_strings commit_strings) = true) by (vm_compute; reflexivity).
  rewrite forallb_forall in H. specialize (H e He). destruct (Z.eqb_spec (BytesToHash (commit_hash e)) 0); [discriminate H|assumption].
Qed.

Lemma loaded_known (t : SecureTrie) : (exists p, trie_form commit_hash sample_store t p) -> in_memory (sec_root t) = true -> (forall e, In e (trie_nodes t) -> commit_knows e) ->
  exists p, trie_form commit_hash sample_store t p /\ knowns commit_hash commit_knows p.
Proof.
  intros (p & Hp) Hm Hk. exists p. split; [exact Hp|]. apply knowns_encodings. rewrite (resolves_erase _ _ p (sec_root t) (tf_stands _ _ _ _ Hp) Hm). exact Hk.
Qed.

Lemma commit_sample_form : trie_form commit_hash sample_store sample_t PNil.
Proof. split; [constructor|left; reflexivity|discriminate|constructor]. Qed.

Lemma commit_sample_complete : complete commit_hash sample_used sample_store sample_t.
Proof.
  intros a d _. unfold stored. pose proof (secure_get commit_hash sample_used commit_hash_key sample_store sample_t PNil (Address_Bytes a) (tf_stands _ _ _ _ commit_sample_form) (tf_wf _ _ _ _ commit_sample_form)) as H.
  unfold secure_trie in H. unfold held_trie. rewrite H. discriminate.
Qed.

Lemma commit_sample_reached : reached commit_hash sample_used sample_store sample_slots sample_dirty true sample_t commit_state.
Proof. apply reached_performs; [apply sample_methods_ok|constructor]. Qed.

(** The tries of the sample are in memory, and its objects have no error. *)
Definition object_loaded (o : @stateObject SecureTrie database_error) : bool :=
  object_fine o && match commit_update o with Ret (Some t, o') => in_memory (sec_root t) && match obj_dbErr o' with None => true | Some _ => false end | _ => true end.

Lemma commit_objects (a : Z) o : stateObjects commit_state !! a = Some o -> object_loaded o = true.
Proof. apply all_objects_spec. vm_compute. reflexivity. Qed.

Lemma commit_sample_calm : small_balances commit_state /\ no_errors commit_state.
Proof.
  assert (H : forall (a : Z) o, stateObjects commit_state !! a = Some o -> small_balance (data o) /\ obj_dbErr o = None).
  { intros a o Ho. apply object_fine_spec. pose proof (commit_objects a o Ho) as H. unfold object_loaded in H. apply andb_true_iff in H. apply H. }
  split; [intros a o Ho; apply (H a o Ho)|]. split; [vm_compute; reflexivity|intros a o Ho; apply (H a o Ho)].
Qed.

Lemma commit_put_written w k v w' : commit_Put w k v = (w', None) -> forall j, sample_written w' j = if key_eqb j k then Some v else sample_written w j.
Proof. intros [= <-] j. unfold sample_written. cbn [find fst]. destruct (key_eqb j k); reflexivity. Qed.

Lemma commit_nil_spec o : commit_nil o = true -> code o = [].
Proof. unfold commit_nil. destruct (code o); [reflexivity|discriminate]. Qed.

Lemma commit_sample_known : commit_known commit_hash sample_store sample_written commit_knows sample_slots commit_state [].
Proof.
  pose proof (reached_inv commit_hash sample_used sample_store sample_slots sample_dirty true commit_hash_key sample_t PNil commit_state sample_ranges commit_sample_complete commit_sample_form commit_sample_reached) as Hi.
  assert (Hs : forall (a : Z) o e, stateObjects commit_state !! a = Some o -> In e (object_strings o) -> commit_knows e).
  { intros a o e Ho He. apply commit_knows_in. right. apply in_app_iff. left. apply in_flat_map. exists (a, o). split; [apply list_elem_of_In, elem_of_map_to_list, Ho|exact He]. }
  split.
  - intros _ e _. left. reflexivity.
  - discriminate.
  - apply commit_knows_in. left. reflexivity.
  - intros a o Ho _. apply (Hs a o _ Ho). left. reflexivity.
  - intros a o _ Ho t o' Eu. change (commit_update o = Ret (Some t, o')) in Eu. pose proof (commit_objects a o Ho) as Hl. unfold object_loaded in Hl. rewrite Eu in Hl. apply andb_true_iff in Hl. destruct Hl as [_ Hl]. apply andb_true_iff in Hl. destruct Hl as [Hm He].
    apply loaded_known; [|exact Hm|intros e Hin; apply (Hs a o e Ho); right; rewrite Eu; exact Hin].
    assert (He' : obj_dbErr o' = None) by (destruct (obj_dbErr o'); [discriminate He|reflexivity]).
    destruct (@updateTrie_spec _ _ _ (SecureTrie_laws commit_hash sample_used commit_hash_key sample_store) commit_hash commit_database sample_slots (fun m => reflexivity _) o (Some t) o' (proj2 (proj2 (fi_object _ _ _ _ _ Hi a o Ho))) Eu He') as (t1 & [= <-] & _ & Hok & _).
    exact Hok.
Qed.

Lemma commit_sample_accounts : accounts_known commit_hash sample_store commit_Put commit_knows commit_limit sample_slots commit_range commit_nil true commit_state [].
Proof.
  intros s1 w1 Er. change (commit_run = Ret (s1, w1, None)) in Er.
  pose proof (reached_inv commit_hash sample_used sample_store sample_slots sample_dirty true commit_hash_key sample_t PNil commit_state sample_ranges commit_sample_complete commit_sample_form commit_sample_reached) as Hi.
  apply loaded_known.
  - destruct (commit_all_spec commit_hash sample_store commit_Put sample_written commit_knows commit_limit sample_slots commit_range commit_nil sample_used commit_hash_key commit_hash_laws commit_put_written (fun m => reflexivity _) commit_nil_spec
      true commit_state [] Hi (proj1 commit_sample_calm) (proj2 commit_sample_calm) commit_sample_known (fun m => reflexivity _)) as (s2 & w2 & err & E2 & Hr).
    change (commit_run = Ret (s2, w2, err)) in E2. rewrite Er in E2. injection E2 as <- <- <-. apply (cm_trie _ _ _ _ _ _ _ _ _ _ _ _ Hr).
  - assert (H : match commit_run with Ret (s, _, _) => in_memory (sec_root (trie s)) | Panic => true end = true) by (vm_compute; reflexivity). rewrite Er in H. exact H.
  - intros e He. apply commit_knows_in. right. apply in_app_iff. right. rewrite Er. exact He.
Qed.

Lemma commit_sample_laws : commit_laws commit_hash sample_used sample_store commit_Put sample_written commit_limit sample_slots commit_range commit_nil true commit_knows commit_state [].
Proof.
  split; [apply commit_hash_key|apply commit_hash_laws|apply commit_put_written|apply commit_nil_spec|reflexivity|apply commit_sample_known|apply commit_sample_accounts].
Qed.

