(* ===== verification/Sha3Theorems.v ===== *)
(** * Theorems about Keccak, SHA-3 and SHAKE

    The permutation and the sponge of package [crypto/sha3] compute what FIPS 202
    defines, a clone of a sponge that was read from does not, and [Keccak256] is a
    hash function as the tries and the state need it. *)

From Stdlib Require Import ZArith List Lia Bool PeanoNat.
From S2P Require Import Prelude GoBig ByteBuf CommonTypes Sha3 Sha3Spec TrieNode TrieOps TrieHash TrieTheorems StateFinal StateTrie.
Import ListNotations.
Local Open Scope Z_scope.

(** C22: The permutation is KECCAK-f[1600].  For 25 lanes of 64 bits, the unrolled
    and interleaved rounds of [keccakF1600] leave 25 lanes of 64 bits, and every bit
    [A[x, y, z]] is the one that the 24 rounds of the step mappings of the standard
    give, with the offsets of the walk of rho and the constants of the shift
    register. *)
Theorem keccakF1600_correct l : lanes_ok l ->
  lanes_ok (keccakF1600 l) /\ forall x y z, (x < 5)%nat -> (y < 5)%nat -> (z < 64)%nat -> cube_of (keccakF1600 l) x y z = keccak_f (cube_of l) x y z.
Proof. exact (keccakF1600_bits l). Qed.

(** Reads one after the other, and all that they return. *)
Fixpoint read_all (d : sponge) (ns : list Z) : outcome (sponge * list Z) :=
  match ns with
  | [] => Ret (d, [])
  | n :: ns =>
      let! x := Read d n in
      let! y := read_all (fst x) ns in
      Ret (fst y, snd x ++ snd y)
  end.
Definition total (ns : list Z) : Z := fold_right Z.add 0 ns.

Lemma total_nonneg ns : Forall (fun n => 0 <= n) ns -> 0 <= total ns.
Proof. induction 1 as [|n ns Hn _ IH]; [reflexivity|]. cbn [total fold_right]. fold (total ns). lia. Qed.

Lemma read_all_squeezing ns : Forall (fun n => 0 <= n) ns -> forall d st pos, squeezing d st pos ->
  exists d', read_all d ns = Ret (d', squeeze keccakF1600 (sp_rate d) st pos (Z.to_nat (total ns))).
Proof.
  induction 1 as [|n ns Hn Hns IH]; intros d st pos Hd; cbn [read_all]; [exists d; reflexivity|]. pose proof (total_nonneg ns Hns) as Ht.
  destruct (Read_squeezing d st pos n Hd Hn) as (d1 & -> & S1 & (R1 & _)). cbn [obind fst snd]. destruct (IH d1 st _ S1) as (d' & ->). exists d'. cbn [obind fst snd]. rewrite R1.
  cbn [total fold_right]. fold (total ns). rewrite Z2Nat.inj_add, squeeze_app by lia. reflexivity.
Qed.

Lemma read_all_absorbing n ns d m : 0 <= n -> Forall (fun n => 0 <= n) ns -> absorbing d m -> is_byte (sp_dsbyte d) ->
  exists d', read_all d (n :: ns) = Ret (d', digest keccakF1600 (sp_rate d) (sp_dsbyte d) m (total (n :: ns))).
Proof.
  intros Hn Hns Hd Hds. cbn [read_all]. pose proof (total_nonneg ns Hns) as Ht. destruct (Read_absorbing d m n Hd Hds Hn) as (d1 & -> & S1 & (R1 & _)). cbn [obind fst snd].
  destruct (read_all_squeezing ns Hns d1 _ _ S1) as (d' & ->). exists d'. cbn [obind fst snd total fold_right]. fold (total ns). rewrite R1. unfold digest. rewrite Z2Nat.inj_add, squeeze_app by lia. reflexivity.
Qed.

(** C23: The sponge is the sponge of the standard.  For any rate that is a multiple
    of 8 up to 168, any domain byte, and any message cut in any way into calls of
    [Write]: [Sum] returns its argument with the digest of the message, which is
    that of the sponge construction over KECCAK-f with the padding pad10*1, and
    calls of [Read] of any lengths return one after the other the bytes of the
    output.  Nothing panics. *)
Theorem sponge_correct rate out ds data in_ n ns : rate_ok rate -> is_byte ds -> 0 <= out -> Forall bytes_ok data -> 0 <= n -> Forall (fun n => 0 <= n) ns ->
  exists d d', write_all (newState rate out ds) data = Ret d /\
    Sum d in_ = Ret (in_ ++ digest standard_f rate ds (concat data) out) /\
    read_all d (n :: ns) = Ret (d', digest standard_f rate ds (concat data) (total (n :: ns))).
Proof.
  intros Hr Hds Ho Hd Hn Hns. destruct (write_all_spec data Hd _ [] (new_absorbing rate out ds Hr)) as (d & Ew & A & (R1 & R2 & R3)). cbn [app] in A. cbn in R1, R2, R3.
  assert (Hm : bytes_ok (concat data)) by apply (ab_bytes _ _ A). destruct (read_all_absorbing n ns d (concat data) Hn Hns A ltac:(rewrite R2; exact Hds)) as (d' & Er).
  exists d, d'. split; [exact Ew|]. split.
  - rewrite (Sum_absorbing d (concat data) in_ A), R1, R2, R3, digest_standard by (rewrite ?R2, ?R3; assumption). reflexivity.
  - rewrite Er, R1, R2, digest_standard by assumption. reflexivity.
Qed.

Lemma hash_digest rate out ds data : rate_ok rate -> is_byte ds -> 0 <= out -> Forall bytes_ok data ->
  (let! d := write_all (newState rate out ds) data in Sum d []) = Ret (digest standard_f rate ds (concat data) out).
Proof.
  intros Hr Hds Ho Hd. destruct (write_all_spec data Hd _ [] (new_absorbing rate out ds Hr)) as (d & -> & A & (R1 & R2 & R3)). cbn [app] in A. cbn in R1, R2, R3. cbn [obind].
  assert (Hm : bytes_ok (concat data)) by apply (ab_bytes _ _ A). rewrite (Sum_absorbing d (concat data) [] A), R1, R2, R3, digest_standard by (rewrite ?R2, ?R3; assumption). reflexivity.
Qed.

Lemma sum_of_digest rate out ds m : rate_ok rate -> is_byte ds -> 0 <= out -> bytes_ok m -> sum_of (newState rate out ds) m = Ret (digest standard_f rate ds m out).
Proof.
  intros Hr Hds Ho Hm. pose proof (hash_digest rate out ds [m] Hr Hds Ho ltac:(constructor; [exact Hm|constructor])) as H. cbn [concat write_all] in H. rewrite app_nil_r in H. rewrite <- H.
  unfold sum_of. destruct (Write _ m) as [[d k]|]; reflexivity.
Qed.

Lemma shake_digest rate ds n m : rate_ok rate -> is_byte ds -> 0 <= n -> bytes_ok m -> shake_sum (newState rate 0 ds) n m = Ret (digest standard_f rate ds m n).
Proof.
  intros Hr Hds Hn Hm. unfold shake_sum. destruct (Write_spec _ [] m (new_absorbing rate 0 ds Hr) Hm) as (d & -> & A & (R1 & R2 & R3)). cbn [obind fst]. cbn in R1, R2. cbn [app] in A.
  destruct (Read_absorbing d m n A ltac:(rewrite R2; exact Hds) Hn) as (d' & -> & _). cbn [obind snd]. rewrite R1, R2, digest_standard by assumption. reflexivity.
Qed.

(** The hash functions are those of the standard, and of Keccak before it.  On
    any bytes they return, without panic: [Keccak256] and [Keccak512] of any number
    of arguments the digest of their concatenation with the domain byte 1, SHA-3
    with 6 and the capacity of twice the digest, SHAKE with 0x1f. *)
Theorem hashes_correct data m n : Forall bytes_ok data -> bytes_ok m -> 0 <= n ->
  Keccak256_of data = Ret (digest standard_f (200 - 2 * 32) 0x01 (concat data) 32) /\
  Keccak512_of data = Ret (digest standard_f (200 - 2 * 64) 0x01 (concat data) 64) /\
  sha3_Sum224 m = Ret (digest standard_f (200 - 2 * 28) 0x06 m 28) /\ sha3_Sum256 m = Ret (digest standard_f (200 - 2 * 32) 0x06 m 32) /\
  sha3_Sum384 m = Ret (digest standard_f (200 - 2 * 48) 0x06 m 48) /\ sha3_Sum512 m = Ret (digest standard_f (200 - 2 * 64) 0x06 m 64) /\
  ShakeSum128 n m = Ret (digest standard_f (200 - 2 * 16) 0x1f m n) /\ ShakeSum256 n m = Ret (digest standard_f (200 - 2 * 32) 0x1f m n).
Proof.
  intros Hd Hm Hn. assert (Hb : is_byte 0x01 /\ is_byte 0x06 /\ is_byte 0x1f) by (unfold is_byte; lia). destruct Hb as (B1 & B2 & B3).
  assert (R : forall r, r = 136 \/ r = 72 \/ r = 144 \/ r = 104 \/ r = 168 -> rate_ok r) by (intros r Hr; unfold rate_ok, maxRate; repeat (destruct Hr as [->|Hr]; [split; [lia|reflexivity]|]); subst r; split; [lia|reflexivity]).
  split; [apply (hash_digest 136 32 0x01 data); [apply R; lia|exact B1|lia|assumption]|]. split; [apply (hash_digest 72 64 0x01 data); [apply R; lia|exact B1|lia|assumption]|].
  split; [apply (sum_of_digest 144 28 0x06 m); [apply R; lia|exact B2|lia|assumption]|]. split; [apply (sum_of_digest 136 32 0x06 m); [apply R; lia|exact B2|lia|assumption]|].
  split; [apply (sum_of_digest 104 48 0x06 m); [apply R; lia|exact B2|lia|assumption]|]. split; [apply (sum_of_digest 72 64 0x06 m); [apply R; lia|exact B2|lia|assumption]|].
  split; [apply (shake_digest 168 0x1f n m); [apply R; lia|exact B3|lia|assumption]|apply (shake_digest 136 0x1f n m); [apply R; lia|exact B3|lia|assumption]].
Qed.


(** ** [Keccak256] as a hash function *)

(** The bytes of [Keccak256]; the elements of the list are taken as bytes. *)
Definition keccak256 (b : list Z) : list Z := match Keccak256_of [map u8 b] with Ret h => h | Panic => [] end.

Lemma u8_bytes b : bytes_ok (map u8 b).
Proof. apply Forall_map, Forall_forall. intros x _. apply Z.mod_pos_bound. lia. Qed.

Lemma u8_same b : bytes_ok b -> map u8 b = b.
Proof. induction 1 as [|x b Hx _ IH]; [reflexivity|]. cbn [map]. rewrite IH. f_equal. apply Z.mod_small, Hx. Qed.

Lemma keccak256_returns b : Keccak256_of [map u8 b] = Ret (digest standard_f 136 0x01 (map u8 b) 32).
Proof.
  pose proof (hash_digest 136 32 0x01 [map u8 b]) as H. cbn [concat] in H. rewrite app_nil_r in H. apply H; [split; [unfold maxRate; lia|reflexivity]|unfold is_byte; lia|lia|constructor; [apply u8_bytes|constructor]].
Qed.

Lemma keccak256_ok b : len (keccak256 b) = 32 /\ bytes_ok (keccak256 b).
Proof. unfold keccak256. rewrite keccak256_returns. apply squeeze_ok. Qed.

(** C24: [Keccak256] is a hash function for the tries and the state.  On bytes it
    returns 32 bytes, and on the encoding of an empty trie the constant [emptyRoot]
    of package [trie]; so what the theorems about tries and states rely on holds of
    it for any set of strings, among them that encoding, in which no two have the
    same hash and none has the hash zero, and for keys on which it is injective. *)
Theorem keccak256_hash known used :
  (forall a b, known a -> known b -> keccak256 a = keccak256 b -> a = b) -> (forall e, known e -> BytesToHash (keccak256 e) <> 0) -> known [0x80] ->
  (forall a b, used a -> used b -> keccak256 a = keccak256 b -> a = b) ->
  (forall b, bytes_ok b -> Keccak256_of [b] = Ret (keccak256 b)) /\ hash_laws keccak256 known /\ key_hash keccak256 used.
Proof.
  intros H1 H2 H3 H4. split; [intros b Hb; unfold keccak256; rewrite (u8_same b Hb); pose proof (keccak256_returns b) as H; rewrite (u8_same b Hb) in H; rewrite H; reflexivity|].
  split; (split; [intros b; apply keccak256_ok|intros b; apply keccak256_ok|assumption|..]); [vm_compute; reflexivity|exact H3|exact H2].
Qed.

(** ** Samples *)

Definition sample_lanes : list Z := map Z.of_nat (seq 1 25).
Lemma sample_lanes_ok : lanes_ok sample_lanes.
Proof. split; [reflexivity|]. apply Forall_map, Forall_forall. intros i Hi. apply in_seq in Hi. unfold is_lane. lia. Qed.

Lemma keccakF1600_correct_witness : cube_of (keccakF1600 sample_lanes) 3%nat 2%nat 17%nat = keccak_f (cube_of sample_lanes) 3%nat 2%nat 17%nat.
Proof. apply (keccakF1600_correct sample_lanes sample_lanes_ok); lia. Defined.

Lemma sample_rate : rate_ok 136.
Proof. split; [unfold maxRate; lia|reflexivity]. Qed.
Lemma sample_bytes b : forallb (fun x => (0 <=? x) && (x <? 256)) b = true -> bytes_ok b.
Proof. rewrite forallb_forall. intros H. apply Forall_forall. intros x Hx. specialize (H x Hx). apply andb_true_iff in H. unfold is_byte. lia. Qed.
Lemma sample_chunks : Forall bytes_ok [[1; 2]; []; repeat 7 300].
Proof. repeat (constructor; [apply sample_bytes; reflexivity|]). constructor. Qed.

Lemma sponge_correct_witness : exists d d', write_all NewShake256 [[1; 2]; []; repeat 7 300] = Ret d /\ Sum d [9] = Ret [9] /\
  read_all d [5; 0; 200] = Ret (d', digest standard_f 136 0x1f ([1; 2] ++ repeat 7 300) 205).
Proof.
  destruct (sponge_correct 136 0 0x1f [[1; 2]; []; repeat 7 300] [9] 5 [0; 200] sample_rate ltac:(unfold is_byte; lia) ltac:(lia) sample_chunks ltac:(lia) ltac:(repeat constructor; lia)) as (d & d' & H1 & H2 & H3).
  exists d, d'. split; [exact H1|]. split; [exact H2|exact H3].
Defined.

Lemma hashes_correct_witness : Keccak256_of [[1; 2]; []; repeat 7 300] = Ret (digest standard_f (200 - 2 * 32) 0x01 (concat [[1; 2]; []; repeat 7 300]) 32).
Proof. exact (proj1 (hashes_correct [[1; 2]; []; repeat 7 300] [] 0 sample_chunks (Forall_nil _) (Z.le_refl 0))). Defined.

(** SHAKE256 after one byte was read. *)
Lemma sample_read : exists d out st, Read NewShake256 1 = Ret (d, out) /\ squeezing d st 1 /\ sp_rate d = 136.
Proof.
  destruct (Read_absorbing NewShake256 [] 1 (new_absorbing 136 0 0x1f sample_rate) ltac:(unfold is_byte; cbn; lia) ltac:(lia)) as (d & E & S1 & (R1 & _)).
  do 3 eexists. split; [exact E|]. split; [exact S1|exact R1].
Qed.


Lemma keccak256_hash_witness : hash_laws keccak256 (fun e => e = [0x80]) /\ key_hash keccak256 (fun k => In k [Address_Bytes 7; Hash_Bytes 7; Hash_Bytes 8]).
Proof.
  destruct (keccak256_hash (fun e => e = [0x80]) (fun k => In k [Address_Bytes 7; Hash_Bytes 7; Hash_Bytes 8])) as (_ & H); [congruence|intros e ->; vm_compute; discriminate|reflexivity| |exact H].
  apply distinct_no_collision. vm_compute. reflexivity.
Defined.
