(* ===== verification/StateTransition.v ===== *)
(** * Package [core]: the transition of a message

    [core/state_transition.go] and [core/gaspool.go], over any implementation of
    the interface of the state database and of the calls of the EVM.  A
    [StateTransition] holds pointers to the gas pool and to the EVM, which holds
    the pointer to the state: they are its fields here, so that what an error
    leaves behind is seen. *)

From Stdlib Require Import ZArith List Lia Bool.
From S2P Require Import Prelude GoBig VmCommon CommonTypes Params VmContract VmState.
Import ListNotations.
Local Open Scope Z_scope.

Definition TxGas : Z := 21000.
Definition TxGasContractCreation : Z := 53000.
Definition TxDataZeroGas : Z := 4.
Definition TxDataNonZeroGas : Z := 68.

(** ** The gas pool *)

Inductive txErr : Type :=
| vm_error (e : vmErr)
| errInsufficientBalanceForGas
| ErrGasLimitReached
| invalid_nonce (have expected : Z).

Definition AddGas (gp amount : Z) : Z := gp + amount.
Definition SubGas (gp amount : Z) : Z * option txErr :=
  if gp <? amount then (gp, Some ErrGasLimitReached) else (gp - amount, None).

(** ** Messages *)

Record Message : Type := mkMessage {
  msg_From : Address;
  msg_To : option Address;
  msg_GasPrice : Z;
  msg_Gas : Z;
  msg_Value : Z;
  msg_Nonce : Z;
  msg_CheckNonce : bool;
  msg_Data : list Z }.

(** [for _, byt := range data { if byt != 0 { nz++ } }] *)
Fixpoint count_nonzero (data : list Z) (nz : Z) : Z :=
  match data with
  | [] => nz
  | byt :: data => count_nonzero data (if negb (byt =? 0) then nz + 1 else nz)
  end.

Definition IntrinsicGas (data : list Z) (contractCreation homestead : bool) : Z :=
  let igas := if contractCreation && homestead then TxGasContractCreation else TxGas in
  if len data >? 0 then
    let nz := count_nonzero data 0 in
    let m := nz * TxDataNonZeroGas in
    let igas := igas + m in
    let m := (len data - nz) * TxDataZeroGas in
    igas + m
  else igas.

(** ** The transition *)

Section transition.
Context {S : Type} {DB : StateDB S}.

Record StateTransition : Type := mkTransition {
  gp : Z;
  msg : Message;
  gas : Z;
  gasPrice : Z;
  initialGas : Z;
  value : Z;
  tx_data : list Z;
  tx_evm : EVM S }.

Definition set_gp (st : StateTransition) (g : Z) : StateTransition :=
  mkTransition g (msg st) (gas st) (gasPrice st) (initialGas st) (value st) (tx_data st) (tx_evm st).
Definition set_gas (st : StateTransition) (g : Z) : StateTransition :=
  mkTransition (gp st) (msg st) g (gasPrice st) (initialGas st) (value st) (tx_data st) (tx_evm st).
Definition set_initialGas (st : StateTransition) (g : Z) : StateTransition :=
  mkTransition (gp st) (msg st) (gas st) (gasPrice st) g (value st) (tx_data st) (tx_evm st).
Definition set_tx_evm (st : StateTransition) (e : EVM S) : StateTransition :=
  mkTransition (gp st) (msg st) (gas st) (gasPrice st) (initialGas st) (value st) (tx_data st) e.
(** [st.state], which is [st.evm.StateDB]. *)
Definition state (st : StateTransition) : S := statedb (tx_evm st).
Definition set_state (st : StateTransition) (s : S) : StateTransition := set_tx_evm st (set_statedb (tx_evm st) s).
Definition on_state (st : StateTransition) (u : S -> S) : StateTransition := set_state st (u (state st)).
Definition ask {A : Type} (st : StateTransition) (q : S -> S * A) : A * StateTransition :=
  let '(s, a) := q (state st) in (a, set_state st s).

Definition NewStateTransition (e : EVM S) (m : Message) (pool : Z) : StateTransition :=
  mkTransition pool m 0 (msg_GasPrice m) 0 (msg_Value m) (msg_Data m) e.

(** [st.from()], [st.to()]: the account is created when it does not exist. *)
Definition ensure (st : StateTransition) (a : Address) : StateTransition :=
  let '(found, st) := ask st (Exist a) in
  if negb found then on_state st (CreateAccount a) else st.
Definition from (st : StateTransition) : Address * StateTransition :=
  let f := msg_From (msg st) in (f, ensure st f).
Definition to_ (st : StateTransition) : Address * StateTransition :=
  match msg_To (msg st) with
  | None => (0, st)
  | Some to => (to, ensure st to)
  end.

Definition useGas (st : StateTransition) (amount : Z) : StateTransition * option txErr :=
  if gas st <? amount then (st, Some (vm_error ErrOutOfGas))
  else (set_gas st (u64 (gas st - amount)), None).

Definition buyGas (st : StateTransition) : StateTransition * option txErr :=
  let mgas := msg_Gas (msg st) in
  if BitLen mgas >? 64 then (st, Some (vm_error ErrOutOfGas))
  else
    let mgval := mgas * gasPrice st in
    let '(sender, st) := from st in
    let '(balance, st) := ask st (GetBalance sender) in
    if balance <? mgval then (st, Some errInsufficientBalanceForGas)
    else
      match SubGas (gp st) mgas with
      | (_, Some err) => (st, Some err)
      | (pool, None) =>
          let st := set_gp st pool in
          let st := set_gas st (u64 (gas st + Uint64 mgas)) in
          let st := set_initialGas st mgas in
          (on_state st (SubBalance sender mgval), None)
      end.

Definition preCheck (st : StateTransition) : StateTransition * option txErr :=
  let '(sender, st) := from st in
  if msg_CheckNonce (msg st) then
    let '(n, st) := ask st (GetNonce sender) in
    if negb (n =? msg_Nonce (msg st)) then (st, Some (invalid_nonce (msg_Nonce (msg st)) n))
    else buyGas st
  else buyGas st.

Definition gasUsed (st : StateTransition) : Z := initialGas st - gas st.

(** [refund] is the counter of the state itself when that is the smaller one, and
    the product is then written through the pointer to it. *)
Definition refundGas (st : StateTransition) : StateTransition :=
  let '(sender, st) := from st in
  let remaining := gas st * gasPrice st in
  let st := on_state st (AddBalance sender remaining) in
  let uhalf := gasUsed st / 2 in
  let counter := GetRefund (state st) in
  let refund := BigMin uhalf counter in
  let st := set_gas st (u64 (gas st + Uint64 refund)) in
  let st := if uhalf >? counter then on_state st (WriteRefund (refund * gasPrice st)) else st in
  let st := on_state st (AddBalance sender (refund * gasPrice st)) in
  set_gp st (AddGas (gp st) (gas st)).

(** [ret], [requiredGas], [usedGas] and [failed]. *)
Record tx_result : Type := mkTxResult { tx_ret : list Z; requiredGas : Z; usedGas : Z; tx_failed : bool }.

Variable env : Env S.
Variable calls : CallOps S.

(** [evm.Create] or, with the nonce increased, [evm.Call]. *)
Definition execute_message (st : StateTransition) (sender : Address) (contractCreation : bool)
    : run (StateTransition * (list Z * option vmErr)) :=
  if contractCreation then
    rbind (c_Create calls (AccountRef sender) (tx_data st) (gas st) (value st) (tx_evm st)) (fun '(e, (_, (ret, rest, vmerr))) =>
    Done (set_gas (set_tx_evm st e) rest, (ret, vmerr)))
  else
    let '(nonce, st) := ask st (GetNonce sender) in
    let st := on_state st (SetNonce sender (u64 (nonce + 1))) in
    let '(to, st) := to_ st in
    rbind (c_Call calls (AccountRef sender) to (tx_data st) (gas st) (value st) (tx_evm st)) (fun '(e, (ret, rest, vmerr)) =>
    Done (set_gas (set_tx_evm st e) rest, (ret, vmerr))).

Definition is_insufficient (err : option vmErr) : bool :=
  match err with Some ErrInsufficientBalance => true | _ => false end.

(** The end of [TransitionDb], when the message has run. *)
Definition settle (st : StateTransition) (ret : list Z) (vmerr : option vmErr) : StateTransition * result tx_result txErr :=
  if is_insufficient vmerr then (st, Err (vm_error ErrInsufficientBalance))
  else
    let requiredGas := gasUsed st in
    let st := refundGas st in
    let st := on_state st (AddBalance (Coinbase (context env)) (gasUsed st * gasPrice st)) in
    (st, Ok (mkTxResult ret requiredGas (gasUsed st) (match vmerr with Some _ => true | None => false end))).

Definition TransitionDb (st : StateTransition) : run (StateTransition * result tx_result txErr) :=
  match preCheck st with
  | (st, Some err) => Done (st, Err err)
  | (st, None) =>
      let '(sender, st) := from st in
      let homestead := IsHomestead (chainConfig env) (Some (BlockNumber (context env))) in
      let contractCreation := match msg_To (msg st) with None => true | Some _ => false end in
      let intrinsicGas := IntrinsicGas (tx_data st) contractCreation homestead in
      if BitLen intrinsicGas >? 64 then Done (st, Err (vm_error ErrOutOfGas))
      else
        match useGas st (Uint64 intrinsicGas) with
        | (st, Some err) => Done (st, Err err)
        | (st, None) =>
            rbind (execute_message st sender contractCreation) (fun '(st, (ret, vmerr)) => Done (settle st ret vmerr))
        end
  end.

(** The pool and the EVM after, with [ret], the gas used and [failed]. *)
Definition ApplyMessage (e : EVM S) (m : Message) (pool : Z) : run (EVM S * Z * result (list Z * Z * bool) txErr) :=
  rbind (TransitionDb (NewStateTransition e m pool)) (fun '(st, r) =>
  Done (tx_evm st, gp st,
    match r with
    | Ok t => Ok (tx_ret t, usedGas t, tx_failed t)
    | Err err => Err err
    end)).

End transition.
#[global] Arguments StateTransition S : clear implicits.
