(* ===== verification/CoreTypes.v ===== *)
(** * Package [core/types]: blooms, transactions, receipts, headers and blocks

    [bloom9.go], [transaction.go], [transaction_signing.go], [receipt.go],
    [log.go], [derive_sha.go] and [block.go].  An integer that the source holds by
    a pointer is not nil.  A value that is hashed or sent is given as the value of
    package [rlp] that its type stands for.  The caches of hashes and sizes hold
    what is computed and are left out; the cache of the sender of a transaction,
    which depends on the signer, is in [Sender].  Signing and the recovery of a
    public key are parameters. *)

From Stdlib Require Import ZArith List Lia Bool.
From S2P Require Import Prelude GoBig ByteBuf VmCommon CommonTypes Params Rlp RlpStream TrieNode TrieOps TrieHash Precompiles VmState StateTransition.
Import ListNotations.
Local Open Scope Z_scope.

(** ** Transactions: data *)

Record txdata : Type := mkTxdata {
  td_AccountNonce : Z;
  td_Price : Z;
  td_GasLimit : Z;
  td_Recipient : option Address;
  td_Amount : Z;
  td_Payload : list Z;
  td_V : Z;
  td_R : Z;
  td_S : Z }.

Definition set_signature (d : txdata) (v r s : Z) : txdata :=
  mkTxdata (td_AccountNonce d) (td_Price d) (td_GasLimit d) (td_Recipient d) (td_Amount d) (td_Payload d) v r s.

Definition newTransaction (nonce : Z) (to : option Address) (amount gasLimit gasPrice : Z) (data : list Z) : txdata :=
  mkTxdata nonce gasPrice gasLimit to amount data 0 0 0.
Definition NewTransaction (nonce : Z) (to : Address) (amount gasLimit gasPrice : Z) (data : list Z) : txdata :=
  newTransaction nonce (Some to) amount gasLimit gasPrice data.
Definition NewContractCreation (nonce : Z) (amount gasLimit gasPrice : Z) (data : list Z) : txdata :=
  newTransaction nonce None amount gasLimit gasPrice data.

Definition isProtectedV (V : Z) : bool :=
  if BitLen V <=? 8 then let v := Uint64 V in negb (v =? 27) && negb (v =? 28) else true.

Definition deriveChainId (v : Z) : Z :=
  if BitLen v <=? 64 then
    let v := Uint64 v in
    if (v =? 27) || (v =? 28) then 0 else u64 (v - 35) / 2
  else (v - 35) / 2.

Definition tx_ChainId (d : txdata) : Z := deriveChainId (td_V d).
Definition Protected (d : txdata) : bool := isProtectedV (td_V d).
Definition Cost (d : txdata) : Z := td_Price d * td_GasLimit d + td_Amount d.

(** The writer of a nil pointer to an array of bytes writes an empty string. *)
Definition address_val (a : option Address) : val := VBytes (match a with Some a => Address_Bytes a | None => [] end).

(** [rlp.Encode(w, &tx.data)] *)
Definition tx_val (d : txdata) : val :=
  VList [VUint (td_AccountNonce d); VBigInt (Some (td_Price d)); VBigInt (Some (td_GasLimit d)); address_val (td_Recipient d);
         VBigInt (Some (td_Amount d)); VBytes (td_Payload d); VBigInt (Some (td_V d)); VBigInt (Some (td_R d)); VBigInt (Some (td_S d))].

(** The type of [txdata]; the pointer to the recipient has the tag [rlp:"nil"]. *)
Definition tx_typ : typ :=
  TStruct [TUint 64; TBigInt; TBigInt; TOptional (TArray 20); TBigInt; TBytes; TBigInt; TBigInt; TBigInt].

(** The struct that is filled with what was decoded. *)
Definition tx_of (v : dval) : option txdata :=
  match v with
  | DList [DUint n; DBigInt p; DBigInt g; to; DBigInt a; DBytes d; DBigInt v; DBigInt r; DBigInt s] =>
      match to with
      | DNil => Some (mkTxdata n p g None a d v r s)
      | DBytes b => Some (mkTxdata n p g (Some (SetBytes b)) a d v r s)
      | _ => None
      end
  | _ => None
  end.

(** ** Signers *)

Inductive Signer : Type :=
| FrontierSigner
| HomesteadSigner
| EIP155Signer (chainId chainIdMul : Z).

Definition NewEIP155Signer (chainId : option Z) : Signer :=
  let chainId := match chainId with None => 0 | Some c => c end in
  EIP155Signer chainId (chainId * 2).

Definition MakeSigner (config : ChainConfig) (blockNumber : Z) : Signer :=
  if IsEIP155 config (Some blockNumber) then NewEIP155Signer (ChainId config)
  else if IsHomestead config (Some blockNumber) then HomesteadSigner
  else FrontierSigner.

Definition deriveSigner (V : Z) : Signer :=
  if negb (Sign V =? 0) && isProtectedV V then NewEIP155Signer (Some (deriveChainId V)) else HomesteadSigner.

(** [s.Equal(s2)] *)
Definition signer_Equal (s s2 : Signer) : bool :=
  match s, s2 with
  | FrontierSigner, FrontierSigner => true
  | HomesteadSigner, HomesteadSigner => true
  | EIP155Signer c _, EIP155Signer c2 _ => c2 =? c
  | _, _ => false
  end.

Inductive signErr : Type :=
| ErrInvalidSig
| ErrInvalidChainId
| ecrecover_failed
| invalid_public_key
| sign_failed.

(** [s.WithSignature(tx, sig)]: panics for a signature of the wrong size. *)
Definition WithSignature (s : Signer) (d : txdata) (sig : list Z) : outcome txdata :=
  if negb (len sig =? 65) then Panic
  else
    let! r := slice sig 0 32 in
    let! s_ := slice sig 32 64 in
    let! v := index sig 64 in
    Ret (set_signature d
      (match s with
       | FrontierSigner | HomesteadSigner => SetBytes [u8 (v + 27)]
       | EIP155Signer chainId chainIdMul => if negb (Sign chainId =? 0) then u8 (v + 35) + chainIdMul else SetBytes [v]
       end) (SetBytes r) (SetBytes s_)).

Record Transaction : Type := mkTransaction { t_data : txdata; t_from : option (Signer * Address) }.

Definition types_Message (d : txdata) (from : Address) : Message :=
  mkMessage from (td_Recipient d) (td_Price d) (td_GasLimit d) (td_Amount d) (td_AccountNonce d) true (td_Payload d).

(** ** Headers, receipts and blocks: data *)

(** An array of 256 bytes. *)
Definition Bloom : Type := list Z.
Definition bloomLength : Z := 256.

Record Header : Type := mkHeader {
  h_ParentHash : Hash;
  h_UncleHash : Hash;
  h_Coinbase : Address;
  h_Root : Hash;
  h_TxHash : Hash;
  h_ReceiptHash : Hash;
  h_Bloom : Bloom;
  h_Difficulty : Z;
  h_Number : Z;
  h_GasLimit : Z;
  h_GasUsed : Z;
  h_Time : Z;
  h_Extra : list Z;
  h_MixDigest : Hash;
  h_Nonce : list Z }.

(** The fields that are hashed for the proof of work. *)
Definition header_fields (h : Header) : list val :=
  [VBytes (Hash_Bytes (h_ParentHash h)); VBytes (Hash_Bytes (h_UncleHash h)); VBytes (Address_Bytes (h_Coinbase h));
   VBytes (Hash_Bytes (h_Root h)); VBytes (Hash_Bytes (h_TxHash h)); VBytes (Hash_Bytes (h_ReceiptHash h)); VBytes (h_Bloom h);
   VBigInt (Some (h_Difficulty h)); VBigInt (Some (h_Number h)); VBigInt (Some (h_GasLimit h)); VBigInt (Some (h_GasUsed h));
   VBigInt (Some (h_Time h)); VBytes (h_Extra h)].
Definition header_val (h : Header) : val := VList (header_fields h ++ [VBytes (Hash_Bytes (h_MixDigest h)); VBytes (h_Nonce h)]).

Definition header_typ : typ :=
  TStruct [TArray 32; TArray 32; TArray 20; TArray 32; TArray 32; TArray 32; TArray 256; TBigInt; TBigInt; TBigInt; TBigInt; TBigInt;
           TBytes; TArray 32; TArray 8].

Definition header_of (v : dval) : option Header :=
  match v with
  | DList [DBytes p; DBytes u; DBytes c; DBytes r; DBytes t; DBytes rc; DBytes bl; DBigInt d; DBigInt n; DBigInt gl; DBigInt gu; DBigInt ti;
           DBytes ex; DBytes mx; DBytes no] =>
      Some (mkHeader (SetBytes p) (SetBytes u) (SetBytes c) (SetBytes r) (SetBytes t) (SetBytes rc) bl d n gl gu ti ex (SetBytes mx) no)
  | _ => None
  end.

(** [EncodeNonce] and [Uint64] of a nonce. *)
Definition EncodeNonce (i : Z) : list Z := be_bytes 8 (u64 i).
Definition BlockNonce_Uint64 (n : list Z) : Z := SetBytes n.

Record Receipt : Type := mkReceipt {
  r_PostState : list Z;
  r_Failed : bool;
  r_CumulativeGasUsed : Z;
  r_Bloom : Bloom;
  r_Logs : list Log;
  r_TxHash : Hash;
  r_ContractAddress : Address;
  r_GasUsed : Z }.

Definition receiptStatusFailed : list Z := [].
Definition receiptStatusSuccessful : list Z := [0x01].

Definition NewReceipt (root : list Z) (failed : bool) (cumulativeGasUsed : Z) : Receipt :=
  mkReceipt root failed cumulativeGasUsed (zeros bloomLength) [] 0 0 0.

Definition statusEncoding (r : Receipt) : list Z :=
  if len (r_PostState r) =? 0 then (if r_Failed r then receiptStatusFailed else receiptStatusSuccessful) else r_PostState r.

(** [setStatus]: the receipt, or the status that is not valid. *)
Definition setStatus (r : Receipt) (postStateOrStatus : list Z) : result Receipt (list Z) :=
  let set (p : list Z) (f : bool) := mkReceipt p f (r_CumulativeGasUsed r) (r_Bloom r) (r_Logs r) (r_TxHash r) (r_ContractAddress r) (r_GasUsed r) in
  if bytes_Equal postStateOrStatus receiptStatusSuccessful then Ok (set (r_PostState r) false)
  else if bytes_Equal postStateOrStatus receiptStatusFailed then Ok (set (r_PostState r) true)
  else if len postStateOrStatus =? HashLength then Ok (set postStateOrStatus (r_Failed r))
  else Err postStateOrStatus.

(** [EncodeRLP] of a log and of a receipt. *)
Definition log_val (l : Log) : val :=
  VList [VBytes (Address_Bytes (log_Address l)); VList (map (fun t => VBytes (Hash_Bytes t)) (log_Topics l)); VBytes (log_Data l)].
Definition receipt_val (r : Receipt) : val :=
  VList [VBytes (statusEncoding r); VBigInt (Some (r_CumulativeGasUsed r)); VBytes (r_Bloom r); VList (map log_val (r_Logs r))].

Definition log_typ : typ := TStruct [TArray 20; TSlice (TArray 32); TBytes].
Definition receipt_typ : typ := TStruct [TBytes; TBigInt; TArray 256; TSlice log_typ].

Definition hash_of (v : dval) : option Hash := match v with DBytes b => Some (SetBytes b) | _ => None end.
Fixpoint all_of {A : Type} (f : dval -> option A) (vs : list dval) : option (list A) :=
  match vs with
  | [] => Some []
  | v :: vs => match f v, all_of f vs with Some a, Some l => Some (a :: l) | _, _ => None end
  end.
Definition log_of (v : dval) : option Log :=
  match v with
  | DList [DBytes a; DList ts; DBytes d] => match all_of hash_of ts with Some ts => Some (mkLog (SetBytes a) ts d 0 0 0 0 0) | None => None end
  | _ => None
  end.

(** [DecodeRLP] of a receipt that is new: the decoded struct, then the status; an
    error of the status is the status. *)
Definition receipt_of (v : dval) : option (result Receipt (list Z)) :=
  match v with
  | DList [DBytes st; DBigInt g; DBytes b; DList ls] =>
      match all_of log_of ls with
      | Some ls => Some (match setStatus (mkReceipt [] false 0 (zeros bloomLength) [] 0 0 0) st with
                         | Ok r => Ok (mkReceipt (r_PostState r) (r_Failed r) g b ls 0 0 0)
                         | Err e => Err e
                         end)
      | None => None
      end
  | _ => None
  end.

Record Block : Type := mkBlock { b_header : Header; b_uncles : list Header; b_transactions : list Transaction }.

Definition WithSeal (b : Block) (h : Header) : Block := mkBlock h (b_uncles b) (b_transactions b).
Definition WithBody (b : Block) (transactions : list Transaction) (uncles : list Header) : Block := mkBlock (b_header b) uncles transactions.

(** [extblock] *)
Definition block_val (b : Block) : val :=
  VList [header_val (b_header b); VList (map (fun t => tx_val (t_data t)) (b_transactions b)); VList (map header_val (b_uncles b))].
Definition block_typ : typ := TStruct [TPtr header_typ; TSlice (TPtr tx_typ); TSlice (TPtr header_typ)].
Definition block_of (v : dval) : option Block :=
  match v with
  | DList [h; DList txs; DList us] =>
      match header_of h, all_of tx_of txs, all_of header_of us with
      | Some h, Some txs, Some us => Some (mkBlock h us (map (fun d => mkTransaction d None) txs))
      | _, _, _ => None
      end
  | _ => None
  end.

Section types.
Variable Keccak256 : list Z -> list Z.

(** An error of the encoder leaves nothing written to the hash. *)
Definition rlpHash (x : val) : outcome Hash :=
  let! r := EncodeToBytes x in
  Ret (BytesToHash (Keccak256 (match r with Ok b => b | Err _ => [] end))).

(** ** Blooms *)

Definition bloom_SetBytes (b : Bloom) (d : list Z) : outcome Bloom :=
  if len b <? len d then Panic else copy_to b (bloomLength - len d) d.
Definition BytesToBloom (b : list Z) : outcome Bloom := bloom_SetBytes (zeros bloomLength) b.
Definition Big (b : Bloom) : Z := SetBytes b.

(** One turn of the loop, for [b[i]] and [b[i+1]]. *)
Definition bloom_bit (b : list Z) (r i : Z) : outcome Z :=
  let! lo := index b (i + 1) in
  let! hi := index b i in
  let b := Z.land (u64 (lo + u64 (Z.shiftl hi 8))) 2047 in
  Ret (Z.lor r (Z.shiftl 1 b)).

Definition bloom9 (b : list Z) : outcome Z :=
  let b := Keccak256 b in
  let! r := bloom_bit b 0 0 in
  let! r := bloom_bit b r 2 in
  bloom_bit b r 4.

Fixpoint or_all (bin : Z) (bs : list (list Z)) : outcome Z :=
  match bs with
  | [] => Ret bin
  | b :: bs => let! n := bloom9 b in or_all (Z.lor bin n) bs
  end.

Fixpoint logs_loop (bin : Z) (logs : list Log) : outcome Z :=
  match logs with
  | [] => Ret bin
  | log :: logs =>
      let! n := bloom9 (Address_Bytes (log_Address log)) in
      let! bin := or_all (Z.lor bin n) (map Hash_Bytes (log_Topics log)) in
      logs_loop bin logs
  end.
Definition LogsBloom (logs : list Log) : outcome Z := logs_loop 0 logs.

Fixpoint receipts_loop (bin : Z) (receipts : list Receipt) : outcome Z :=
  match receipts with
  | [] => Ret bin
  | receipt :: receipts => let! n := LogsBloom (r_Logs receipt) in receipts_loop (Z.lor bin n) receipts
  end.
Definition CreateBloom (receipts : list Receipt) : outcome Bloom :=
  let! bin := receipts_loop 0 receipts in
  BytesToBloom (Bytes bin).

Definition BloomLookup (bin : Bloom) (topic : list Z) : outcome bool :=
  let bloom := Big bin in
  let! cmp := bloom9 topic in
  Ret (Z.land bloom cmp =? cmp).

Definition bloom_Add (b : Bloom) (d : Z) : outcome Bloom :=
  let bin := SetBytes b in
  let! n := bloom9 (Bytes d) in
  bloom_SetBytes b (Bytes (Z.lor bin n)).
Definition bloom_Test (b : Bloom) (test : Z) : outcome bool := BloomLookup b (Bytes test).
Definition TestBytes (b : Bloom) (test : list Z) : outcome bool := bloom_Test b (SetBytes test).

(** ** Transactions: hashes and signers *)

Definition tx_Hash (d : txdata) : outcome Hash := rlpHash (tx_val d).

(** [s.Hash(tx)] *)
Definition signer_Hash (s : Signer) (d : txdata) : outcome Hash :=
  let fields := [VUint (td_AccountNonce d); VBigInt (Some (td_Price d)); VBigInt (Some (td_GasLimit d)); address_val (td_Recipient d);
                 VBigInt (Some (td_Amount d)); VBytes (td_Payload d)] in
  rlpHash (VList (fields ++ match s with
                            | EIP155Signer chainId _ => [VBigInt (Some chainId); VUint 0; VUint 0]
                            | _ => []
                            end)).

Section signing.
Variable Ecrecover : list Z -> list Z -> option (list Z).
Context {key : Type}.
Variable crypto_Sign : list Z -> key -> option (list Z).

(** The signature in uncompressed form, and the key that is recovered from it. *)
Definition recover (hash : Hash) (V R S : Z) : outcome (result (list Z) signErr) :=
  let! sig := copy_to (zeros 65) (32 - len (Bytes R)) (Bytes R) in
  let! sig := copy_to sig (64 - len (Bytes S)) (Bytes S) in
  let! sig := copy_to sig 64 [V] in
  match Ecrecover (Hash_Bytes hash) sig with
  | None => Ret (Err ecrecover_failed)
  | Some pub => Ret (if (len pub =? 0) || negb (nth 0 pub 0 =? 4) then Err invalid_public_key else Ok pub)
  end.

Definition plain_PublicKey (s : Signer) (homestead : bool) (d : txdata) : outcome (result (list Z) signErr) :=
  if BitLen (td_V d) >? 8 then Ret (Err ErrInvalidSig)
  else
    let V := u8 (u64 (Uint64 (td_V d) - 27)) in
    if negb (ValidateSignatureValues V (td_R d) (td_S d) homestead) then Ret (Err ErrInvalidSig)
    else let! hash := signer_Hash s d in recover hash V (td_R d) (td_S d).

Definition FrontierSigner_PublicKey (d : txdata) : outcome (result (list Z) signErr) := plain_PublicKey FrontierSigner false d.
Definition HomesteadSigner_PublicKey (d : txdata) : outcome (result (list Z) signErr) := plain_PublicKey HomesteadSigner true d.

Definition EIP155Signer_PublicKey (chainId chainIdMul : Z) (d : txdata) : outcome (result (list Z) signErr) :=
  if negb (Protected d) then HomesteadSigner_PublicKey d
  else if negb (tx_ChainId d =? chainId) then Ret (Err ErrInvalidChainId)
  else
    let V := u8 (u64 (Uint64 (td_V d - chainIdMul) - 35)) in
    if negb (ValidateSignatureValues V (td_R d) (td_S d) true) then Ret (Err ErrInvalidSig)
    else let! hash := signer_Hash (EIP155Signer chainId chainIdMul) d in recover hash V (td_R d) (td_S d).

Definition PublicKey (s : Signer) (d : txdata) : outcome (result (list Z) signErr) :=
  match s with
  | FrontierSigner => FrontierSigner_PublicKey d
  | HomesteadSigner => HomesteadSigner_PublicKey d
  | EIP155Signer c m => EIP155Signer_PublicKey c m d
  end.

(** [copy(addr[:], crypto.Keccak256(pubkey[1:])[12:])] *)
Definition pubkey_address (pubkey : list Z) : outcome Address :=
  let! p := slice pubkey 1 (len pubkey) in
  let h := Keccak256 p in
  let! t := slice h 12 (len h) in
  let! a := copy_to (zeros AddressLength) 0 t in
  Ret (SetBytes a).

(** With the transaction after the sender has been stored. *)
Definition Sender (signer : Signer) (tx : Transaction) : outcome (Transaction * result Address signErr) :=
  let cached := match t_from tx with
                | Some (s, from) => if signer_Equal s signer then Some from else None
                | None => None
                end in
  match cached with
  | Some from => Ret (tx, Ok from)
  | None =>
      let! pubkey := PublicKey signer (t_data tx) in
      match pubkey with
      | Err e => Ret (tx, Err e)
      | Ok pubkey =>
          let! addr := pubkey_address pubkey in
          Ret (mkTransaction (t_data tx) (Some (signer, addr)), Ok addr)
      end
  end.

Definition AsMessage (tx : Transaction) (s : Signer) : outcome (Transaction * result Message signErr) :=
  let! x := Sender s tx in
  let '(tx, from) := x in
  Ret (tx, match from with Ok from => Ok (types_Message (t_data tx) from) | Err e => Err e end).

Definition SignTx (tx : Transaction) (s : Signer) (prv : key) : outcome (result Transaction signErr) :=
  let! h := signer_Hash s (t_data tx) in
  match crypto_Sign (Hash_Bytes h) prv with
  | None => Ret (Err sign_failed)
  | Some sig => let! d := WithSignature s (t_data tx) sig in Ret (Ok (mkTransaction d None))
  end.
End signing.

(** ** Hashes of lists *)

(** A trie without a database. *)
Definition no_database (h : list Z) : option (list Z) := None.

(** The loop over a [DerivableList], which is given by what [GetRlp] returns. *)
Fixpoint derive_loop (i : Z) (items : list (outcome (list Z))) (trie : node) : outcome node :=
  match items with
  | [] => Ret trie
  | item :: items =>
      let! key := EncodeToBytes (VUint i) in
      let! value := item in
      let! x := trie_TryUpdate no_database 0 trie (match key with Ok key => key | Err _ => [] end) value in
      derive_loop (i + 1) items (fst x)
  end.
Definition DeriveSha (items : list (outcome (list Z))) : outcome Hash :=
  let! trie := derive_loop 0 items nilNode in
  let! x := trie_HashRoot Keccak256 0 0 trie in
  Ret (snd x).

(** [GetRlp] ignores the error of the encoder, or panics. *)
Definition tx_GetRlp (tx : Transaction) : outcome (list Z) :=
  let! r := EncodeToBytes (tx_val (t_data tx)) in Ret (match r with Ok b => b | Err _ => [] end).
Definition receipt_GetRlp (r : Receipt) : outcome (list Z) :=
  let! r := EncodeToBytes (receipt_val r) in match r with Ok b => Ret b | Err _ => Panic end.

Definition Transactions_Sha (txs : list Transaction) : outcome Hash := DeriveSha (map tx_GetRlp txs).
Definition Receipts_Sha (rs : list Receipt) : outcome Hash := DeriveSha (map receipt_GetRlp rs).

Definition Header_Hash (h : Header) : outcome Hash := rlpHash (header_val h).
Definition HashNoNonce (h : Header) : outcome Hash := rlpHash (VList (header_fields h)).
Definition CalcUncleHash (uncles : list Header) : outcome Hash := rlpHash (VList (map header_val uncles)).
Definition Block_Hash (b : Block) : outcome Hash := Header_Hash (b_header b).

Definition EmptyRootHash : outcome Hash := DeriveSha [].
Definition EmptyUncleHash : outcome Hash := CalcUncleHash [].

(** ** New blocks *)

Definition set_hashes (h : Header) (txHash uncleHash receiptHash : Hash) (bloom : Bloom) : Header :=
  mkHeader (h_ParentHash h) uncleHash (h_Coinbase h) (h_Root h) txHash receiptHash bloom (h_Difficulty h) (h_Number h) (h_GasLimit h)
    (h_GasUsed h) (h_Time h) (h_Extra h) (h_MixDigest h) (h_Nonce h).

Definition NewBlock (header : Header) (txs : list Transaction) (uncles : list Header) (receipts : list Receipt) : outcome Block :=
  let! txHash := (if len txs =? 0 then EmptyRootHash else Transactions_Sha txs) in
  let! receiptHash := (if len receipts =? 0 then EmptyRootHash else Receipts_Sha receipts) in
  let! bloom := (if len receipts =? 0 then Ret (h_Bloom header) else CreateBloom receipts) in
  let! uncleHash := (if len uncles =? 0 then EmptyUncleHash else CalcUncleHash uncles) in
  Ret (mkBlock (set_hashes header txHash uncleHash receiptHash bloom) uncles txs).
End types.
