(* ===== verification/TypesTheorems.v ===== *)
(** * Theorems about package [core/types]

    Blocks, transactions and receipts on the wire, signatures and their recovery,
    blooms, and what the hash of a block determines. *)

From Stdlib Require Import ZArith List Lia Bool.
From S2P Require Import Prelude GoBig ByteBuf VmCommon CommonTypes Params Rlp RlpTheorems RlpStream RlpDecode TrieNode TrieOps TrieHash TrieSpec TrieRefine TrieMerkle TrieStore TrieContents TrieTheorems Precompiles VmState StateTransition CoreTypes.
Import ListNotations.
Local Open Scope Z_scope.

(** ** Decoding with optional pointers *)

(** The method reads [v] from the bytes [p]. *)
Definition reads {A : Type} (m : D A) (v : A) (p : list Z) : Prop := forall s r, stream_ok s -> kind s = None -> reader s = p ++ r -> len p <= avail s ->
  exists s', m s = Ret (s', Ok v) /\ after s p r s'.

Lemma plain_reads t v : plain t = true -> typed t v -> reads (decode t) v (encoding v).
Proof. intros Hp Hv s r H Hk E Hl. apply (d_ok _ _ _ (decode_decodes t Hp) s v r H Hk Hv E Hl). Qed.

Lemma reads_optional_nil m : reads (decodeOptional m) DNil [0x80].
Proof.
  intros s r H Hk E Hl. assert (Hh : header [0x80] KString 0 0) by (apply (h_string 0); lia).
  unfold decodeOptional. rewrite (Kind_ok [0x80] KString 0 0 r s H Hk Hh E Hl). eexists. split; [reflexivity|apply after_mark].
Qed.

Lemma reads_optional_list m : reads (decodeOptional m) DNil [0xC0].
Proof.
  intros s r H Hk E Hl. assert (Hh : header [0xC0] KList 0 0) by (apply (h_list 0); lia).
  unfold decodeOptional. rewrite (Kind_ok [0xC0] KList 0 0 r s H Hk Hh E Hl). eexists. split; [reflexivity|apply after_mark].
Qed.

(** What was read of the kind is kept. *)
Lemma kind_again {A : Type} (body : Kind * Z -> D A) h k n b r s : stream_Kind s = Ret (mark (adv s h r) k n b None, Ok (k, n)) ->
  dbind stream_Kind body (mark (adv s h r) k n b None) = dbind stream_Kind body s.
Proof. intros E. unfold dbind. rewrite E. reflexivity. Qed.

Lemma reads_optional_array n b : 1 < n < 2 ^ 63 -> bytes_ok b -> len b = n -> reads (decodeOptional (decodeByteArray n)) (DBytes b) (rlp_string b).
Proof.
  intros Hn Hb El s r H Hk E Hl. assert (Es : small_string b = false) by (unfold small_string; rewrite El; destruct (Z.eqb_spec n 1); [lia|reflexivity]).
  destruct (d_ok _ _ _ (ByteArray_decodes n ltac:(lia) ltac:(lia)) s (DBytes b) r H Hk ltac:(exists b; auto) E Hl) as (s' & Em & Ha). exists s'. split; [|exact Ha].
  destruct (string_content b Hb ltac:(lia) Es) as (h & Hh & Eh). rewrite Eh, <- app_assoc in E. rewrite Eh, len_app in Hl.
  pose proof (Kind_ok h KString (len b) 0 (b ++ r) s H Hk Hh E Hl) as EK. unfold decodeOptional. rewrite EK. destruct (Z.eqb_spec (len b) 0); [lia|]. cbn [andb].
  unfold decodeByteArray in *. rewrite (kind_again _ _ _ _ _ _ _ EK). exact Em.
Qed.

(** The fields of a struct and the elements of a slice, with their bytes. *)
Inductive reads_all : list (D dval) -> list dval -> list (list Z) -> Prop :=
| ra_nil : reads_all [] [] []
| ra_cons m v p ms vs ps : reads m v p -> reads_all ms vs ps -> reads_all (m :: ms) (v :: vs) (p :: ps).

Lemma reads_fields ms vs ps : reads_all ms vs ps -> forall acc, reads (struct_fields ms acc) (acc ++ vs) (concat ps).
Proof.
  induction 1 as [|m v p ms vs ps Hm _ IH]; intros acc s r H Hk E Hl; cbn [struct_fields concat] in *.
  - exists s. rewrite app_nil_r. split; [reflexivity|]. pose proof (after_nil s r (kinderr s) Hk E) as Ha. destruct s; exact Ha.
  - rewrite <- app_assoc in E. rewrite len_app in Hl. pose proof (len_nonneg (concat ps)). unfold dbind, dcatch.
    destruct (Hm s (concat ps ++ r) H Hk E ltac:(lia)) as (s1 & -> & Ha). destruct (after_ok s p (concat ps ++ r) s1 H E ltac:(lia) Ha) as (H1 & A1 & K1 & R1).
    destruct (IH (acc ++ [v]) s1 r H1 K1 R1 ltac:(lia)) as (s2 & -> & Ha2). exists s2. rewrite <- app_assoc. split; [reflexivity|]. apply (after_trans s _ _ r s1); assumption.
Qed.

(** Reading in a list of which all is read. *)
Definition reads_in {A : Type} (m : Z -> D A) (v : A) (p : list Z) : Prop := forall s r, stream_ok s -> kind s = None -> stack s <> [] -> reader s = p ++ r -> len p = avail s ->
  exists s', m (avail s) s = Ret (s', Ok v) /\ after s p r s'.

Lemma reads_list_body items fin vs p : reads_in items vs p -> is_ListEnd fin -> reads (from_kind wrapStreamError (list_body items fin)) (DList vs) (rlp_list p).
Proof.
  intros Hi Hf s r H Hk E Hl. unfold rlp_list in *. set (h := rlp_head 0xC0 0xF7 (len p)) in *. rewrite <- app_assoc in E. rewrite len_app in Hl.
  pose proof (len_nonneg p). pose proof (len_nonneg h). pose proof (so_len s H). pose proof (avail_bounds s H). assert (Hh : header h KList (len p) 0) by (constructor; lia).
  unfold from_kind. rewrite (Kind_ok h KList (len p) 0 (p ++ r) s H Hk Hh E Hl).
  destruct (enter_ok s h (p ++ r) (len p) 0 H E ltac:(lia) Hl) as [He Ae]. destruct (Hi _ r He eq_refl ltac:(discriminate) eq_refl ltac:(lia)) as (s2 & E2 & Ha2). rewrite Ae in E2.
  pose proof (leave s h p r (len p) 0 s2 H E ltac:(lia) Hl Ha2) as L. rewrite Z.eqb_refl in L. destruct L as (s3 & E3 & Ha3).
  exists s3. split; [|exact Ha3]. unfold list_body, dbind, dmodify. change (set_vsize _ 0) with (enter s h (p ++ r) (len p) 0). rewrite E2. specialize (Hf s2). rewrite E3 in Hf. rewrite Hf. reflexivity.
Qed.

Lemma reads_struct ts vs ps : reads_all (map decode ts) vs ps -> reads (decode (TStruct ts)) (DList vs) (rlp_list (concat ps)).
Proof.
  intros Ha. pose proof (reads_list_body (fun _ => struct_fields (map decode ts) []) (wrapped stream_ListEnd) vs (concat ps)) as R.
  intros s r H Hk E Hl. destruct (R ltac:(intros s' r' H' Hk' _ E' Hl'; apply (reads_fields _ _ _ Ha []); auto; lia) wrapped_ListEnd_is s r H Hk E Hl) as (s' & Em & Haf).
  exists s'. split; [|exact Haf]. rewrite <- Em. symmetry. cbn [decode]. unfold from_kind, list_body, decodeStruct, wrapped at 2, dbind, dcatch, stream_List, dbind.
  destruct (stream_Kind s) as [[s1 [[[] n]|e]]|]; reflexivity.
Qed.

(** An element of a slice: at the end of the list the decoder says so. *)
Definition ends {A : Type} (m : D A) : Prop := forall s, stream_ok s -> kind s = None -> at_end s -> exists s', m s = Ret (s', Err EOL) /\ after s [] (reader s) s'.

Lemma reads_elems m vs ps : ends m -> Forall2 (fun v p => reads m v p /\ p <> []) vs ps -> forall fuel acc s r, stream_ok s -> kind s = None -> stack s <> [] -> reader s = concat ps ++ r ->
  len (concat ps) = avail s -> (length vs < fuel)%nat -> exists s', slice_elems fuel m acc s = Ret (s', Ok (acc ++ vs)) /\ after s (concat ps) r s'.
Proof.
  intros He. induction 1 as [|v p vs ps [Hv Hn] Hvs IH]; intros [|fuel] acc s r H Hk Hst E Hl Hf; [lia| |cbn in Hf; lia|]; cbn [slice_elems concat] in *.
  - destruct (He s H Hk (at_end_iff s Hst (eq_sym Hl))) as (s' & -> & Ha). rewrite app_nil_r. cbn in E. rewrite E in Ha. eauto.
  - rewrite <- app_assoc in E. rewrite len_app in Hl. pose proof (len_nonneg (concat ps)). destruct (Hv s (concat ps ++ r) H Hk E ltac:(lia)) as (s1 & -> & Ha).
    destruct (after_ok s p (concat ps ++ r) s1 H E ltac:(lia) Ha) as (H1 & A1 & K1 & R1).
    destruct (IH fuel (acc ++ [v]) s1 r H1 K1 (in_list _ _ _ _ Ha Hst) R1 ltac:(lia) ltac:(cbn in Hf; lia)) as (s2 & -> & Ha2).
    exists s2. rewrite <- app_assoc. split; [reflexivity|]. apply (after_trans s _ _ r s1); assumption.
Qed.

Lemma reads_slice t vs ps : ends (decode t) -> Forall2 (fun v p => reads (decode t) v p /\ p <> []) vs ps -> reads (decode (TSlice t)) (DList vs) (rlp_list (concat ps)).
Proof.
  intros He Hv. pose proof (reads_list_body (fun n => if n =? 0 then dret [] else decodeSliceElems (decode t)) stream_ListEnd vs (concat ps)) as R.
  assert (Hlen : Z.of_nat (length vs) <= len (concat ps)).
  { clear -Hv. induction Hv as [|v p vs ps [_ Hp] _ IH]; [cbn; lia|]. cbn [length concat]. rewrite len_app. destruct p as [|x p]; [contradiction|]. rewrite len_cons. pose proof (len_nonneg p). lia. }
  intros s r H Hk E Hl. destruct R with (s := s) (r := r) as (s' & Em & Haf); auto using ListEnd_is.
  - intros s' r' H' Hk' Hst E' Hl'. destruct (Z.eqb_spec (avail s') 0) as [E0|N0].
    + destruct Hv as [|v p vs ps [_ Hp] _]; [|cbn [length] in Hlen; lia]. exists s'. split; [reflexivity|]. pose proof (after_nil s' r' (kinderr s') Hk' E') as Ha. destruct s'; exact Ha.
    + apply (reads_elems (decode t) vs ps He Hv _ [] s' r'); auto. rewrite E', length_app. unfold len in Hlen. lia.
  - exists s'. split; [|exact Haf]. rewrite <- Em. symmetry. cbn [decode]. unfold from_kind, list_body, decodeListSlice, wrapped, dbind, dcatch, stream_List, dbind.
    destruct (stream_Kind s) as [[s1 [[[] n]|e]]|]; try reflexivity. cbn. destruct (n =? 0); reflexivity.
Qed.

Lemma ends_struct ts : ends (decode (TStruct ts)).
Proof.
  intros s H Hk He. exists (set_kinderr s None). split; [|apply after_nil; auto].
  cbn [decode]. unfold decodeStruct, wrapped, dcatch, stream_List, dbind. rewrite (Kind_end s Hk He). reflexivity.
Qed.

Lemma DecodeBytes_reads t v p : reads (decode t) v p -> bytes_ok p -> len p < 2 ^ 63 -> DecodeBytes t p = Ret (Ok v).
Proof.
  intros Hr Hb Hl. destruct (Reset_ok p Hb Hl) as [H0 A0]. unfold DecodeBytes. set (s := NewStream p (u64 (len p))) in *.
  assert (E0 : reader s = p ++ []) by (rewrite app_nil_r; reflexivity). destruct (Hr s [] H0 eq_refl E0 ltac:(lia)) as (s' & -> & Ha).
  destruct (after_ok s p [] s' H0 E0 ltac:(lia) Ha) as (_ & _ & _ & Rs). rewrite Rs. reflexivity.
Qed.

(** ** Values that can be encoded *)

Fixpoint val_ok (v : val) : Prop :=
  match v with
  | VRaw b | VBytes b | VString b => bytes_ok b
  | VUint i => is_u64 i
  | VBigInt (Some i) => 0 <= i
  | VBool _ | VBigInt None | VNil => True
  | VList vs => (fix all (vs : list val) : Prop := match vs with [] => True | v :: vs => val_ok v /\ all vs end) vs
  end.

Lemma val_ok_list vs : val_ok (VList vs) <-> Forall val_ok vs.
Proof. cbn [val_ok]. induction vs as [|v vs IH]; [split; auto|]. rewrite IH. split; [intros [H1 H2]; auto|intros H; inversion H; auto]. Qed.

Lemma val_ok_flags v : val_ok v -> uints_ok v = true /\ has_negative v = false.
Proof.
  induction v as [v Hn|vs IH] using val_elems_ind.
  - destruct v as [| |b|[i|]| | | |vs]; cbn; intros H; try (split; reflexivity); [unfold is_u64 in H; split; [lia|reflexivity]|split; [reflexivity|lia]|destruct (Hn vs eq_refl)].
  - intros H. apply val_ok_list in H. cbn [uints_ok has_negative]. induction IH as [|v vs Hv _ IHs]; [split; reflexivity|]. inversion H as [|? ? H1 H2]; subst. cbn. destruct (Hv H1) as [-> ->]. apply IHs, H2.
Qed.

Lemma val_ok_bytes v : val_ok v -> len (rlp v) < 2 ^ 63 -> bytes_ok (rlp v).
Proof.
  induction v as [v Hn|vs IH] using val_elems_ind.
  - assert (S : forall b, bytes_ok b -> len (rlp_string b) < 2 ^ 63 -> bytes_ok (rlp_string b)) by (intros b Hb Hl; pose proof (rlp_string_len b); apply string_bytes_ok; [exact Hb|lia]).
    destruct v as [b|i|[]|[i|]|b|b| |vs]; cbn [rlp val_ok]; intros H Hl; [exact H|apply S; [apply Bytes_ok|exact Hl]|repeat constructor; discriminate|apply S; [constructor|exact Hl]|
      apply S; [apply Bytes_ok|exact Hl]|apply S; [constructor|exact Hl]|apply S; assumption|apply S; assumption|repeat constructor; discriminate|destruct (Hn vs eq_refl)].
  - intros H Hl. apply val_ok_list in H. cbn [rlp] in *. unfold rlp_list in *. rewrite len_app in Hl. pose proof (len_nonneg (flat_map rlp vs)). pose proof (len_nonneg (rlp_head 0xC0 0xF7 (len (flat_map rlp vs)))).
    apply bytes_ok_app. split; [apply head_bytes_ok; lia|]. assert (Hb : len (flat_map rlp vs) < 2 ^ 63) by lia. clear -IH H Hb. induction IH as [|v vs Hv _ IHs]; [constructor|]. inversion H as [|? ? H1 H2]; subst.
    cbn [flat_map] in *. rewrite len_app in Hb. pose proof (len_nonneg (flat_map rlp vs)). pose proof (len_nonneg (rlp v)). apply bytes_ok_app. split; [apply Hv; [exact H1|lia]|apply IHs; [exact H2|lia]].
Qed.

Lemma val_ok_encodes v : val_ok v -> len (rlp v) < 2 ^ 63 -> EncodeToBytes v = Ret (Ok (rlp v)).
Proof. intros H Hl. destruct (val_ok_flags v H) as [H1 H2]. rewrite EncodeToBytes_rlp, H2 by assumption. reflexivity. Qed.

(** ** Well-formed data *)

Record tx_ok (d : txdata) : Prop := {
  tk_nonce : is_u64 (td_AccountNonce d);
  tk_price : 0 <= td_Price d;
  tk_gas : 0 <= td_GasLimit d;
  tk_to : match td_Recipient d with Some a => address_ok a | None => True end;
  tk_amount : 0 <= td_Amount d;
  tk_payload : bytes_ok (td_Payload d);
  tk_V : 0 <= td_V d;
  tk_R : 0 <= td_R d;
  tk_S : 0 <= td_S d }.

Record header_ok (h : Header) : Prop := {
  hk_parent : hash_ok (h_ParentHash h);
  hk_uncles : hash_ok (h_UncleHash h);
  hk_coinbase : address_ok (h_Coinbase h);
  hk_root : hash_ok (h_Root h);
  hk_txs : hash_ok (h_TxHash h);
  hk_receipts : hash_ok (h_ReceiptHash h);
  hk_bloom : bytes_ok (h_Bloom h) /\ len (h_Bloom h) = bloomLength;
  hk_numbers : Forall (fun n => 0 <= n) [h_Difficulty h; h_Number h; h_GasLimit h; h_GasUsed h; h_Time h];
  hk_extra : bytes_ok (h_Extra h);
  hk_mix : hash_ok (h_MixDigest h);
  hk_nonce : bytes_ok (h_Nonce h) /\ len (h_Nonce h) = 8 }.

Record block_ok (b : Block) : Prop := {
  bk_header : header_ok (b_header b);
  bk_uncles : Forall header_ok (b_uncles b);
  bk_txs : Forall (fun t => tx_ok (t_data t)) (b_transactions b) }.

Lemma hash_bytes_back h : hash_ok h -> SetBytes (Hash_Bytes h) = h.
Proof. intros H. unfold Hash_Bytes. rewrite SetBytes_be_bytes. apply Z.mod_small. exact H. Qed.
Lemma address_bytes_back a : address_ok a -> SetBytes (Address_Bytes a) = a.
Proof. intros H. unfold Address_Bytes. rewrite SetBytes_be_bytes. apply Z.mod_small. exact H. Qed.

Lemma array_typed n b : bytes_ok b -> len b = n -> typed (TArray n) (DBytes b).
Proof. intros H1 H2. exists b. auto. Qed.
Lemma hash_typed h : typed (TArray 32) (DBytes (Hash_Bytes h)).
Proof. apply array_typed; [apply be_bytes_ok|apply be_bytes_len]. Qed.
Lemma address_typed a : typed (TArray 20) (DBytes (Address_Bytes a)).
Proof. apply array_typed; [apply be_bytes_ok|apply be_bytes_len]. Qed.
Lemma address_array a : bytes_ok (Address_Bytes a) /\ len (Address_Bytes a) = 20.
Proof. split; [apply be_bytes_ok|apply be_bytes_len]. Qed.
Lemma hash_array h : bytes_ok (Hash_Bytes h) /\ len (Hash_Bytes h) = 32.
Proof. split; [apply be_bytes_ok|apply be_bytes_len]. Qed.

#[local] Opaque Hash_Bytes Address_Bytes SetBytes.

(** What is decoded. *)
Definition tx_dval (d : txdata) : dval :=
  DList [DUint (td_AccountNonce d); DBigInt (td_Price d); DBigInt (td_GasLimit d); match td_Recipient d with Some a => DBytes (Address_Bytes a) | None => DNil end;
         DBigInt (td_Amount d); DBytes (td_Payload d); DBigInt (td_V d); DBigInt (td_R d); DBigInt (td_S d)].
Definition header_dval (h : Header) : dval :=
  DList [DBytes (Hash_Bytes (h_ParentHash h)); DBytes (Hash_Bytes (h_UncleHash h)); DBytes (Address_Bytes (h_Coinbase h));
    DBytes (Hash_Bytes (h_Root h)); DBytes (Hash_Bytes (h_TxHash h)); DBytes (Hash_Bytes (h_ReceiptHash h)); DBytes (h_Bloom h);
    DBigInt (h_Difficulty h); DBigInt (h_Number h); DBigInt (h_GasLimit h); DBigInt (h_GasUsed h); DBigInt (h_Time h); DBytes (h_Extra h);
    DBytes (Hash_Bytes (h_MixDigest h)); DBytes (h_Nonce h)].

Lemma tx_of_dval d : tx_ok d -> tx_of (tx_dval d) = Some d.
Proof.
  intros H. pose proof (tk_to d H) as Ht. destruct d as [n p g to a pl v r s]. cbn in *. destruct to as [to|]; [|reflexivity]. cbn. rewrite (address_bytes_back to Ht). reflexivity.
Qed.

Lemma header_of_dval h : header_ok h -> header_of (header_dval h) = Some h.
Proof.
  intros [H1 H2 H3 H4 H5 H6 _ _ _ H7 _]. destruct h. cbn in *. rewrite !hash_bytes_back, address_bytes_back by assumption. reflexivity.
Qed.

Lemma header_enc h : enc (header_dval h) = header_val h.
Proof. reflexivity. Qed.

Lemma header_typed h : header_ok h -> typed header_typ (header_dval h).
Proof.
  intros [_ _ _ _ _ _ H7 H8 H9 _ H11]. rewrite Forall_forall in H8. apply typed_fields. cbn [map header_typ].
  assert (Hi : forall n, In n [h_Difficulty h; h_Number h; h_GasLimit h; h_GasUsed h; h_Time h] -> typed TBigInt (DBigInt n)) by (intros n Hin; exists n; split; [reflexivity|apply H8, Hin]).
  repeat (apply fo_cons; [first [apply hash_typed|apply address_typed|apply Hi; cbn; tauto|exists (h_Extra h); split; [reflexivity|exact H9]|apply array_typed; apply H7|apply array_typed; apply H11]|]). apply fo_nil.
Qed.

Lemma header_reads h : header_ok h -> reads (decode header_typ) (header_dval h) (rlp (header_val h)).
Proof. intros H. apply (plain_reads header_typ (header_dval h) eq_refl (header_typed h H)). Qed.

Lemma rlp_other A x y B : len (rlp x) = len (rlp y) -> rlp x <> rlp y ->
  len (rlp (VList (A ++ x :: B))) = len (rlp (VList (A ++ y :: B))) /\ rlp (VList (A ++ x :: B)) <> rlp (VList (A ++ y :: B)).
Proof.
  intros El N. cbn [rlp]. unfold rlp_list. rewrite !flat_map_app. change (flat_map rlp (?v :: B)) with (rlp v ++ flat_map rlp B).
  assert (E : len (flat_map rlp A ++ rlp x ++ flat_map rlp B) = len (flat_map rlp A ++ rlp y ++ flat_map rlp B)) by (rewrite !len_app; lia).
  rewrite E. split; [rewrite !len_app in *; lia|]. intros H. apply app_inv_head, app_inv_head, app_inv_tail in H. contradiction.
Qed.

(** A transaction with the bytes of [to] in the place of the recipient. *)
Definition tx_with (d : txdata) (to : val) : val :=
  VList ([VUint (td_AccountNonce d); VBigInt (Some (td_Price d)); VBigInt (Some (td_GasLimit d))] ++ to ::
         [VBigInt (Some (td_Amount d)); VBytes (td_Payload d); VBigInt (Some (td_V d)); VBigInt (Some (td_R d)); VBigInt (Some (td_S d))]).

Lemma tx_with_ok d to : tx_ok d -> val_ok to -> val_ok (tx_with d to).
Proof.
  intros [H1 H2 H3 H4 H5 H6 H7 H8 H9] Ht. apply val_ok_list. cbn [app]. repeat (apply Forall_cons; [cbn [val_ok]; assumption|]). constructor.
Qed.

Lemma tx_with_reads d to : tx_ok d -> reads (decodeOptional (decodeByteArray 20)) (match td_Recipient d with Some a => DBytes (Address_Bytes a) | None => DNil end) (rlp to) ->
  reads (decode tx_typ) (tx_dval d) (rlp (tx_with d to)).
Proof.
  intros [H1 H2 H3 H4 H5 H6 H7 H8 H9] Ht. unfold tx_dval, tx_with. cbn [rlp]. rewrite flat_map_concat_map. apply reads_struct. cbn [map app].
  assert (Hi : forall n, 0 <= n -> reads (decode TBigInt) (DBigInt n) (rlp (VBigInt (Some n)))) by (intros n Hn; apply (plain_reads TBigInt (DBigInt n) eq_refl); exists n; auto).
  apply ra_cons; [apply (plain_reads (TUint 64) (DUint (td_AccountNonce d)) eq_refl); exists (td_AccountNonce d); auto|]. do 2 (apply ra_cons; [apply Hi; assumption|]).
  apply ra_cons; [exact Ht|]. apply ra_cons; [apply Hi; assumption|]. apply ra_cons; [apply (plain_reads TBytes (DBytes (td_Payload d)) eq_refl); exists (td_Payload d); auto|].
  do 3 (apply ra_cons; [apply Hi; assumption|]). apply ra_nil.
Qed.

Lemma tx_reads d : tx_ok d -> reads (decode tx_typ) (tx_dval d) (rlp (tx_val d)).
Proof.
  intros Hd. apply (tx_with_reads d (address_val (td_Recipient d)) Hd). destruct (td_Recipient d) as [a|]; [|apply reads_optional_nil].
  destruct (address_array a). apply reads_optional_array; auto. lia.
Qed.

Lemma tx_val_ok d : tx_ok d -> val_ok (tx_val d).
Proof. intros Hd. apply (tx_with_ok d (address_val (td_Recipient d)) Hd). unfold address_val. destruct (td_Recipient d); [apply address_array|constructor]. Qed.

(** The block that is decoded: no sender is cached. *)
Definition block_dval (b : Block) : dval :=
  DList [header_dval (b_header b); DList (map (fun t => tx_dval (t_data t)) (b_transactions b)); DList (map header_dval (b_uncles b))].
Definition fresh_block (b : Block) : Block := mkBlock (b_header b) (b_uncles b) (map (fun t => mkTransaction (t_data t) None) (b_transactions b)).

Lemma rlp_list_nonempty vs : rlp (VList vs) <> [].
Proof. apply rlp_nonempty. discriminate. Qed.

Lemma headers_reads us : Forall header_ok us -> reads (decode (TSlice header_typ)) (DList (map header_dval us)) (rlp (VList (map header_val us))).
Proof.
  intros H. cbn [rlp]. rewrite flat_map_concat_map, map_map. apply (reads_slice header_typ); [apply ends_struct|]. induction H as [|u us Hu _ IH]; [constructor|]. cbn [map]. constructor; [|exact IH].
  split; [apply header_reads, Hu|apply rlp_list_nonempty].
Qed.

Lemma block_reads b : block_ok b -> reads (decode block_typ) (block_dval b) (rlp (block_val b)).
Proof.
  intros [H1 H2 H3]. unfold block_dval, block_val. cbn [rlp]. rewrite flat_map_concat_map. apply reads_struct. cbn [map decode].
  apply ra_cons; [apply header_reads, H1|]. apply ra_cons; [|apply ra_cons; [apply (headers_reads _ H2)|apply ra_nil]]. cbn [rlp]. rewrite flat_map_concat_map, map_map.
  apply (reads_slice tx_typ); [apply ends_struct|]. induction H3 as [|t txs Ht _ IH]; [constructor|]. cbn [map]. constructor; [|exact IH]. split; [apply tx_reads, Ht|apply rlp_list_nonempty].
Qed.

Lemma all_of_map {A B : Type} (f : dval -> option A) (g : B -> dval) (k : B -> A) xs : (forall x, In x xs -> f (g x) = Some (k x)) -> all_of f (map g xs) = Some (map k xs).
Proof. induction xs as [|x xs IH]; intros H; [reflexivity|]. cbn. rewrite (H x) by (left; reflexivity). rewrite IH by (intros y Hy; apply H; right; exact Hy). reflexivity. Qed.

Lemma block_of_dval b : block_ok b -> block_of (block_dval b) = Some (fresh_block b).
Proof.
  intros [H1 H2 H3]. rewrite Forall_forall in H2, H3. unfold block_dval, block_of. rewrite header_of_dval by exact H1.
  rewrite (all_of_map tx_of _ t_data) by (intros t Ht; apply tx_of_dval, H3, Ht). rewrite (all_of_map header_of _ (fun u => u)) by (intros u Hu; apply header_of_dval, H2, Hu).
  rewrite map_id, map_map. reflexivity.
Qed.

Lemma header_val_ok h : header_ok h -> val_ok (header_val h).
Proof.
  intros [_ _ _ _ _ _ H7 H8 H9 _ H11]. rewrite Forall_forall in H8. apply val_ok_list. unfold header_fields. cbn [app].
  repeat (apply Forall_cons; [cbn [val_ok]; first [apply hash_array|apply address_array|apply H8; cbn; tauto|exact H9|apply H7|apply H11]|]). constructor.
Qed.

Lemma block_val_ok b : block_ok b -> val_ok (block_val b).
Proof.
  intros [H1 H2 H3]. apply val_ok_list. apply Forall_cons; [apply header_val_ok, H1|]. apply Forall_cons; [|apply Forall_cons; [|constructor]]; apply val_ok_list, Forall_map.
  - eapply Forall_impl; [|exact H3]. intros t. apply tx_val_ok.
  - eapply Forall_impl; [|exact H2]. exact header_val_ok.
Qed.

(** C27: A block can be read back.  The encoding of a block that is sent is decoded
    to the same header, uncles and transactions; so it is for a block with
    transactions that create contracts, whose recipient is a nil pointer. *)
Theorem block_roundtrip b : block_ok b -> len (rlp (block_val b)) < 2 ^ 63 ->
  exists bytes v, EncodeToBytes (block_val b) = Ret (Ok bytes) /\ DecodeBytes block_typ bytes = Ret (Ok v) /\ block_of v = Some (fresh_block b).
Proof.
  intros Hb Hl. pose proof (block_val_ok b Hb) as Hv. exists (rlp (block_val b)), (block_dval b). split; [apply val_ok_encodes; assumption|].
  split; [|apply block_of_dval, Hb]. apply DecodeBytes_reads; [apply block_reads, Hb|apply val_ok_bytes; assumption|exact Hl].
Qed.

(** C28: A contract creation has two encodings.  The decoder takes an empty list for
    a nil pointer as well as the empty string that the encoder writes: the bytes of
    a transaction that creates a contract are not determined by it. *)
Theorem creation_two_encodings d : tx_ok d -> td_Recipient d = None -> len (rlp (tx_val d)) < 2 ^ 63 ->
  exists p q, p <> q /\ EncodeToBytes (tx_val d) = Ret (Ok p) /\ DecodeBytes tx_typ p = Ret (Ok (tx_dval d)) /\ DecodeBytes tx_typ q = Ret (Ok (tx_dval d)) /\ tx_of (tx_dval d) = Some d.
Proof.
  intros Hd Hto Hl. assert (Ep : tx_val d = tx_with d (VBytes [])) by (unfold tx_val, address_val; rewrite Hto; reflexivity).
  destruct (rlp_other [VUint (td_AccountNonce d); VBigInt (Some (td_Price d)); VBigInt (Some (td_GasLimit d))] (VBytes []) VNil
    [VBigInt (Some (td_Amount d)); VBytes (td_Payload d); VBigInt (Some (td_V d)); VBigInt (Some (td_R d)); VBigInt (Some (td_S d))] eq_refl ltac:(discriminate)) as [Elen N].
  fold (tx_with d (VBytes [])) in Elen, N. fold (tx_with d VNil) in Elen, N. rewrite <- Ep in Elen, N.
  exists (rlp (tx_val d)), (rlp (tx_with d VNil)). split; [|split; [apply val_ok_encodes; [apply tx_val_ok, Hd|exact Hl]|split; [|split; [|apply tx_of_dval, Hd]]]].
  - exact N.
  - apply DecodeBytes_reads; [apply tx_reads, Hd|apply val_ok_bytes; [apply tx_val_ok, Hd|exact Hl]|exact Hl].
  - apply DecodeBytes_reads; [|apply val_ok_bytes; [apply tx_with_ok; [exact Hd|exact I]|lia]|lia]. apply tx_with_reads; [exact Hd|]. rewrite Hto. apply reads_optional_list.
Qed.

(** ** Receipts *)

Record log_ok (l : Log) : Prop := {
  lk_address : address_ok (log_Address l);
  lk_topics : Forall hash_ok (log_Topics l);
  lk_data : bytes_ok (log_Data l) }.
Record receipt_ok (r : Receipt) : Prop := {
  rk_state : bytes_ok (r_PostState r) /\ (r_PostState r = [] \/ len (r_PostState r) = HashLength);
  rk_gas : 0 <= r_CumulativeGasUsed r;
  rk_bloom : bytes_ok (r_Bloom r) /\ len (r_Bloom r) = bloomLength;
  rk_logs : Forall log_ok (r_Logs r) }.

(** What is sent of a log and of a receipt; a receipt with a root does not tell whether the message failed. *)
Definition sent_log (l : Log) : Log := mkLog (log_Address l) (log_Topics l) (log_Data l) 0 0 0 0 0.
Definition sent_receipt (r : Receipt) : Receipt :=
  mkReceipt (r_PostState r) (match r_PostState r with [] => r_Failed r | _ => false end) (r_CumulativeGasUsed r) (r_Bloom r) (map sent_log (r_Logs r)) 0 0 0.

Definition log_dval (l : Log) : dval :=
  DList [DBytes (Address_Bytes (log_Address l)); DList (map (fun t => DBytes (Hash_Bytes t)) (log_Topics l)); DBytes (log_Data l)].
Definition receipt_dval (r : Receipt) : dval :=
  DList [DBytes (statusEncoding r); DBigInt (r_CumulativeGasUsed r); DBytes (r_Bloom r); DList (map log_dval (r_Logs r))].

Lemma enc_map {A : Type} (f : A -> dval) (g : A -> val) xs : (forall x, enc (f x) = g x) -> enc (DList (map f xs)) = VList (map g xs).
Proof. intros H. cbn [enc]. rewrite map_map. f_equal. apply map_ext, H. Qed.
Lemma log_enc l : enc (log_dval l) = log_val l.
Proof. unfold log_dval, log_val. cbn [enc map]. rewrite map_map. reflexivity. Qed.
Lemma receipt_enc r : enc (receipt_dval r) = receipt_val r.
Proof. unfold receipt_dval, receipt_val. rewrite <- (enc_map log_dval log_val _ log_enc). reflexivity. Qed.

Lemma log_typed l : log_ok l -> typed log_typ (log_dval l).
Proof.
  intros [_ _ H]. apply typed_fields. cbn [map log_typ]. apply fo_cons; [apply address_typed|]. apply fo_cons.
  - eexists. split; [reflexivity|]. apply Forall_map, Forall_forall. intros t _. apply hash_typed.
  - apply fo_cons; [exists (log_Data l); auto|apply fo_nil].
Qed.

Lemma status_bytes r : receipt_ok r -> bytes_ok (statusEncoding r).
Proof. intros [[H _] _ _ _]. unfold statusEncoding. destruct (_ =? 0); [destruct (r_Failed r); repeat constructor; discriminate|exact H]. Qed.

Lemma receipt_typed r : receipt_ok r -> typed receipt_typ (receipt_dval r).
Proof.
  intros Hr. pose proof Hr as [_ H2 H3 H4]. apply typed_fields. cbn [map receipt_typ]. apply fo_cons; [exists (statusEncoding r); split; [reflexivity|apply status_bytes, Hr]|].
  apply fo_cons; [exists (r_CumulativeGasUsed r); auto|]. apply fo_cons; [apply array_typed; apply H3|]. apply fo_cons; [|apply fo_nil].
  eexists. split; [reflexivity|]. apply Forall_map. eapply Forall_impl; [|exact H4]. exact log_typed.
Qed.

Lemma log_of_dval l : log_ok l -> log_of (log_dval l) = Some (sent_log l).
Proof.
  intros [H1 H2 _]. unfold log_dval, log_of, sent_log. rewrite (all_of_map hash_of _ (fun t => t)), map_id, address_bytes_back by first [exact H1|intros t Ht; cbn; rewrite hash_bytes_back; [reflexivity|rewrite Forall_forall in H2; apply H2, Ht]]. reflexivity.
Qed.

(** The status of a new receipt. *)
Lemma setStatus_new r x : receipt_ok r -> r_PostState x = [] -> r_Failed x = false ->
  setStatus x (statusEncoding r) = Ok (mkReceipt (r_PostState r) (r_Failed (sent_receipt r)) (r_CumulativeGasUsed x) (r_Bloom x) (r_Logs x) (r_TxHash x) (r_ContractAddress x) (r_GasUsed x)).
Proof.
  intros [[_ H] _ _ _] E1 E2. unfold sent_receipt, statusEncoding, setStatus, receiptStatusFailed, receiptStatusSuccessful. cbn [r_Failed]. destruct (r_PostState r) as [|a [|b p]].
  - destruct (r_Failed r); cbn; rewrite E1; reflexivity.
  - destruct H; discriminate.
  - destruct H as [H|H]; [discriminate|]. assert (E : (len (a :: b :: p) =? 0) = false) by (rewrite H; reflexivity). rewrite E, H. unfold bytes_Equal.
    destruct (list_eq_dec _ _ _) as [E'|_]; [discriminate E'|]. destruct (list_eq_dec _ _ _) as [E'|_]; [discriminate E'|]. rewrite E2. reflexivity.
Qed.

(** A receipt can be read back.  Of a receipt with a root of 32 bytes or none
    the encoding is decoded, without error, to its root or status, its gas, its
    bloom and its logs. *)
Theorem receipt_roundtrip r : receipt_ok r -> len (rlp (receipt_val r)) < 2 ^ 63 ->
  exists bytes v, EncodeToBytes (receipt_val r) = Ret (Ok bytes) /\ DecodeBytes receipt_typ bytes = Ret (Ok v) /\ receipt_of v = Some (Ok (sent_receipt r)) /\
    statusEncoding (sent_receipt r) = statusEncoding r.
Proof.
  intros Hr Hl. rewrite <- receipt_enc in *. pose proof (receipt_typed r Hr) as Ht. destruct (typed_encodable receipt_typ eq_refl _ Ht) as (Hu & Hn & Hb).
  exists (rlp (enc (receipt_dval r))), (receipt_dval r). split; [rewrite EncodeToBytes_rlp, Hn by assumption; reflexivity|].
  split; [apply (DecodeBytes_spec receipt_typ _ eq_refl (Hb Hl) Hl); auto|]. pose proof (rk_logs r Hr) as H4. rewrite Forall_forall in H4.
  unfold receipt_dval, receipt_of. rewrite (all_of_map log_of _ sent_log) by (intros l Hin; apply log_of_dval, H4, Hin). rewrite (setStatus_new r _ Hr) by reflexivity.
  split; [reflexivity|]. unfold statusEncoding, sent_receipt. cbn [r_PostState r_Failed]. destruct (r_PostState r); reflexivity.
Qed.

(** ** Signatures *)

Lemma put_word pre post v : 0 <= v < 2 ^ 256 -> copy_to (pre ++ zeros 32 ++ post) (len pre + 32 - len (Bytes v)) (Bytes v) = Ret (pre ++ be_bytes 32 v ++ post).
Proof.
  intros Hv. destruct (pad_be_bytes 32 v ltac:(exact Hv)) as [Hl Eb]. change (Z.of_nat 32) with 32 in *. pose proof (byte_len_nonneg v). rewrite Bytes_len.
  assert (Ez : zeros 32 = zeros (32 - byte_len v) ++ zeros (byte_len v)).
  { unfold zeros. rewrite <- repeat_app. f_equal. lia. }
  rewrite Ez, <- app_assoc, <- Eb, <- app_assoc. rewrite (app_assoc pre), (app_assoc pre). replace (len pre + 32 - byte_len v) with (len (pre ++ zeros (32 - byte_len v))) by (rewrite len_app, zeros_len by lia; lia).
  apply copy_to_app. pose proof (Bytes_len v) as El. unfold len in El. unfold zeros. rewrite repeat_length. lia.
Qed.

Lemma slice_ret_app {A : Type} (a b c : list A) : slice (a ++ b ++ c) (len a) (len a + len b) = Ret b.
Proof.
  pose proof (len_nonneg a). pose proof (len_nonneg b). pose proof (len_nonneg c). unfold slice. rewrite !len_app. decb. cbn [andb]. replace (len a + len b - len a) with (len b) by lia.
  unfold len. rewrite !Nat2Z.id, skipn_app, skipn_all, Nat.sub_diag. cbn [skipn app]. rewrite firstn_app, firstn_all, Nat.sub_diag, firstn_O, app_nil_r. reflexivity.
Qed.

Lemma valid_values v r s homestead : 0 < r < secp256k1_N -> 0 < s <= secp256k1_halfN -> v = 0 \/ v = 1 -> ValidateSignatureValues v r s homestead = true.
Proof.
  intros Hr Hs Hv. assert (HN : secp256k1_halfN < secp256k1_N) by reflexivity. unfold ValidateSignatureValues. set (N := secp256k1_N) in *. set (M := secp256k1_halfN) in *. clearbody N M.
  rewrite Z.gtb_ltb. decb. cbn [orb andb]. rewrite andb_false_r. destruct Hv as [->| ->]; reflexivity.
Qed.

(** What is relied on of signing: the signature is R, S and the parity; S is not in
    the upper half; and the key that is recovered from it is that of the signer,
    which is not compressed. *)
Record signatures {key : Type} (Ecrecover : list Z -> list Z -> option (list Z)) (crypto_Sign : list Z -> key -> option (list Z)) (pub : key -> list Z) : Prop := {
  sg_sign h k sig : crypto_Sign h k = Some sig -> exists r s v, sig = be_bytes 32 r ++ be_bytes 32 s ++ [v] /\ 0 < r < secp256k1_N /\ 0 < s <= secp256k1_halfN /\ (v = 0 \/ v = 1);
  sg_recover h k sig : crypto_Sign h k = Some sig -> Ecrecover h sig = Some (pub k);
  sg_pub k : len (pub k) = 65 /\ nth 0 (pub k) 0 = 4 }.

(** A signer for a chain, as [NewEIP155Signer] makes them. *)
Definition signer_made (s : Signer) : Prop := match s with EIP155Signer c m => 0 <= c /\ m = c * 2 | _ => True end.
Definition on_chain (s : Signer) : Prop := match s with EIP155Signer c _ => c <> 0 | _ => True end.

Section signed.
Variable Keccak256 : list Z -> list Z.
Context {key : Type}.
Variable Ecrecover : list Z -> list Z -> option (list Z).
Variable crypto_Sign : list Z -> key -> option (list Z).
Variable pub : key -> list Z.
Hypothesis Hlen : forall b, len (Keccak256 b) = 32.
Hypothesis Hsig : signatures Ecrecover crypto_Sign pub.

Lemma recover_sign h k r s v : crypto_Sign (Hash_Bytes h) k = Some (be_bytes 32 r ++ be_bytes 32 s ++ [v]) -> 0 < r < secp256k1_N -> 0 < s < secp256k1_N ->
  recover Ecrecover h v r s = Ret (Ok (pub k)).
Proof using Hsig.
  intros Hs Hr Hs'. unfold recover. assert (HN : secp256k1_N < 2 ^ 256) by reflexivity.
  pose proof (put_word [] (zeros 33) r ltac:(lia)) as E1. change ([] ++ zeros 32 ++ zeros 33) with (zeros 65) in E1. cbn [app] in E1. change (len [] + 32) with 32 in E1. rewrite E1. cbn [obind].
  pose proof (put_word (be_bytes 32 r) [0] s ltac:(lia)) as E2. rewrite be_bytes_len in E2. change (Z.of_nat 32 + 32) with 64 in E2. change (zeros 33) with (zeros 32 ++ [0]). rewrite E2. cbn [obind].
  pose proof (copy_to_app (be_bytes 32 r ++ be_bytes 32 s) [0] [] [v] eq_refl) as E3. rewrite len_app, !be_bytes_len, <- !app_assoc in E3. change (Z.of_nat 32 + Z.of_nat 32) with 64 in E3. rewrite !app_nil_r in E3. rewrite E3. cbn [obind].
  rewrite (sg_recover _ _ _ Hsig _ _ _ Hs). destruct (sg_pub _ _ _ Hsig k) as [-> ->]. reflexivity.
Qed.

(** The [V] of a signature with the parity [v]. *)
Definition signature_V (s : Signer) (v : Z) : Z := match s with EIP155Signer c m => if c =? 0 then v else v + 35 + m | _ => v + 27 end.

Lemma WithSignature_parts s d r s' v : 0 <= r < 2 ^ 256 -> 0 <= s' < 2 ^ 256 -> v = 0 \/ v = 1 ->
  WithSignature s d (be_bytes 32 r ++ be_bytes 32 s' ++ [v]) = Ret (set_signature d (signature_V s v) r s').
Proof using.
  clear. intros Hr Hs Hv. unfold WithSignature. set (x := be_bytes 32 r). set (y := be_bytes 32 s').
  assert (Lx : len x = 32) by apply be_bytes_len. assert (Ly : len y = 32) by apply be_bytes_len.
  assert (L : len (x ++ y ++ [v]) = 65) by (rewrite !len_app, Lx, Ly; reflexivity). rewrite L. cbn [Z.eqb Pos.eqb negb].
  assert (E1 : slice (x ++ y ++ [v]) 0 32 = Ret x) by (rewrite <- Lx; apply (slice_ret_app [] x (y ++ [v]))).
  assert (E2 : slice (x ++ y ++ [v]) 32 64 = Ret y) by (replace 64 with (len x + len y) by lia; rewrite <- Lx at 1; apply slice_ret_app).
  rewrite E1, E2. cbn [obind]. rewrite (index_ret _ 64 v); [|change (Z.to_nat 64) with 64%nat|lia].
  2: { rewrite app_assoc, nth_error_app2 by (rewrite length_app; unfold x, y; rewrite !be_bytes_length; lia). rewrite length_app. unfold x, y. rewrite !be_bytes_length. reflexivity. }
  cbn [obind]. assert (Ex : SetBytes x = r) by (unfold x; rewrite SetBytes_be_bytes; apply Z.mod_small; exact Hr). assert (Ey : SetBytes y = s') by (unfold y; rewrite SetBytes_be_bytes; apply Z.mod_small; exact Hs).
  rewrite Ex, Ey. do 2 f_equal. destruct Hv as [->| ->]; destruct s as [| |c m]; try reflexivity; cbn [signature_V]; unfold Sign; destruct c; reflexivity.
Qed.

Lemma plain_signed s homestead d h k r s' v : crypto_Sign (Hash_Bytes h) k = Some (be_bytes 32 r ++ be_bytes 32 s' ++ [v]) -> 0 < r < secp256k1_N -> 0 < s' <= secp256k1_halfN -> v = 0 \/ v = 1 ->
  signer_Hash Keccak256 s d = Ret h -> plain_PublicKey Keccak256 Ecrecover s homestead (set_signature d (v + 27) r s') = Ret (Ok (pub k)).
Proof using Hsig.
  intros Hk Hr Hs Hv Hh. assert (HN : secp256k1_halfN < secp256k1_N) by reflexivity. unfold plain_PublicKey. cbn [set_signature td_V td_R td_S].
  assert (Ev : (BitLen (v + 27) >? 8) = false /\ u8 (u64 (Uint64 (v + 27) - 27)) = v) by (destruct Hv as [->| ->]; split; reflexivity). destruct Ev as [-> ->].
  rewrite valid_values by (auto; lia). cbn [negb]. change (signer_Hash Keccak256 s (set_signature d (v + 27) r s')) with (signer_Hash Keccak256 s d). rewrite Hh. cbn [obind]. apply recover_sign; auto. lia.
Qed.

(** The [V] of a chain tells the chain. *)
Lemma chain_V c v : 0 < c -> v = 0 \/ v = 1 -> isProtectedV (v + 35 + c * 2) = true /\ deriveChainId (v + 35 + c * 2) = c.
Proof using.
  clear. intros Hc Hv. assert (Hd : (v + c * 2) / 2 = c) by (rewrite Z.div_add by lia; destruct Hv as [->| ->]; reflexivity). set (V := v + 35 + c * 2). assert (HV : 37 <= V) by lia. split.
  - unfold isProtectedV. destruct (Z.leb_spec (BitLen V) 8) as [Hl|Hl]; [|reflexivity]. apply BitLen_le_iff in Hl; [|lia]. change (2 ^ 8) with 256 in Hl. unfold Uint64. rewrite Z.abs_eq, u64_small by lia.
    destruct (Z.eqb_spec V 27), (Z.eqb_spec V 28); try lia; reflexivity.
  - unfold deriveChainId. replace ((V - 35) / 2) with c by (unfold V; rewrite <- Hd at 1; f_equal; lia). destruct (Z.leb_spec (BitLen V) 64) as [Hl|Hl]; [|reflexivity]. apply BitLen_le_iff in Hl; [|lia].
    unfold Uint64. rewrite Z.abs_eq, (u64_small V) by lia. destruct (Z.eqb_spec V 27), (Z.eqb_spec V 28); try lia. cbn [orb]. rewrite u64_small by lia. unfold V. rewrite <- Hd at 2. f_equal. lia.
Qed.

Lemma chain_signed c d h k r s v : 0 < c -> crypto_Sign (Hash_Bytes h) k = Some (be_bytes 32 r ++ be_bytes 32 s ++ [v]) -> 0 < r < secp256k1_N -> 0 < s <= secp256k1_halfN -> v = 0 \/ v = 1 ->
  signer_Hash Keccak256 (EIP155Signer c (c * 2)) d = Ret h -> EIP155Signer_PublicKey Keccak256 Ecrecover c (c * 2) (set_signature d (v + 35 + c * 2) r s) = Ret (Ok (pub k)).
Proof using Hsig.
  intros Hc Hk Hr Hs Hv Hh. assert (HN : secp256k1_halfN < secp256k1_N) by reflexivity. destruct (chain_V c v Hc Hv) as [Ep Ec].
  unfold EIP155Signer_PublicKey, Protected, tx_ChainId. cbn [set_signature td_V td_R td_S]. rewrite Ep, Ec, Z.eqb_refl. cbn [negb].
  replace (v + 35 + c * 2 - c * 2) with (v + 35) by lia. assert (Ev : u8 (u64 (Uint64 (v + 35) - 35)) = v) by (destruct Hv as [->| ->]; reflexivity). rewrite Ev, valid_values by (auto; lia). cbn [negb].
  match goal with |- context [signer_Hash Keccak256 ?sg (set_signature d ?a ?b ?e)] => change (signer_Hash Keccak256 sg (set_signature d a b e)) with (signer_Hash Keccak256 sg d) end.
  rewrite Hh. cbn [obind]. apply recover_sign; auto. lia.
Qed.

(** A transaction with a signature of a chain, for other signers. *)
Lemma chain_refused c d r s v : 0 < c -> v = 0 \/ v = 1 -> let d' := set_signature d (v + 35 + c * 2) r s in
  (forall c' m, c' <> c -> EIP155Signer_PublicKey Keccak256 Ecrecover c' m d' = Ret (Err ErrInvalidChainId)) /\
  (forall sg homestead, plain_PublicKey Keccak256 Ecrecover sg homestead d' = Ret (Err ErrInvalidSig)).
Proof using.
  clear. intros Hc Hv d'. destruct (chain_V c v Hc Hv) as [Ep Ec]. split.
  - intros c' m N. unfold EIP155Signer_PublicKey, Protected, tx_ChainId. cbn [d' set_signature td_V]. rewrite Ep, Ec. destruct (Z.eqb_spec c c'); [congruence|reflexivity].
  - intros sg homestead. unfold plain_PublicKey. cbn [d' set_signature td_V td_R td_S]. set (V := v + 35 + c * 2). assert (HV : 37 <= V) by lia. rewrite Z.gtb_ltb. destruct (Z.ltb_spec 8 (BitLen V)) as [Hl|Hl]; [reflexivity|].
    apply BitLen_le_iff in Hl; [|lia]. change (2 ^ 8) with 256 in Hl. unfold Uint64. rewrite Z.abs_eq, (u64_small V), u64_small, u8_small by lia.
    assert (Hn : ValidateSignatureValues (V - 27) r s homestead = false); [|rewrite Hn; reflexivity]. unfold ValidateSignatureValues. destruct (Z.eqb_spec (V - 27) 0), (Z.eqb_spec (V - 27) 1); try lia. cbn [orb].
    rewrite andb_false_r. destruct (_ || _); [reflexivity|]. destruct (_ && _); reflexivity.
Qed.

Lemma pubkey_address_returns k : exists a, pubkey_address Keccak256 (pub k) = Ret a.
Proof using Hlen Hsig.
  unfold pubkey_address. destruct (sg_pub _ _ _ Hsig k) as [Hl _]. rewrite Hl, slice_ret by lia. cbn [obind]. rewrite Hlen, slice_ret by (rewrite ?Hlen; lia). cbn [obind].
  unfold copy_to. rewrite zeros_len by (unfold AddressLength; lia). cbn. eauto.
Qed.

Lemma Sender_of s d pk a : PublicKey Keccak256 Ecrecover s d = Ret (Ok pk) -> pubkey_address Keccak256 pk = Ret a ->
  Sender Keccak256 Ecrecover s (mkTransaction d None) = Ret (mkTransaction d (Some (s, a)), Ok a).
Proof using. intros H1 H2. unfold Sender. cbn [t_from t_data]. rewrite H1. cbn [obind]. rewrite H2. reflexivity. Qed.

Lemma Sender_err s d e : PublicKey Keccak256 Ecrecover s d = Ret (Err e) -> Sender Keccak256 Ecrecover s (mkTransaction d None) = Ret (mkTransaction d None, Err e).
Proof using. intros H1. unfold Sender. cbn [t_from t_data]. rewrite H1. reflexivity. Qed.

Lemma SignTx_inv s tx k tx' : SignTx Keccak256 crypto_Sign tx s k = Ret (Ok tx') -> exists h r s' v, signer_Hash Keccak256 s (t_data tx) = Ret h /\
  crypto_Sign (Hash_Bytes h) k = Some (be_bytes 32 r ++ be_bytes 32 s' ++ [v]) /\ 0 < r < secp256k1_N /\ 0 < s' <= secp256k1_halfN /\ (v = 0 \/ v = 1) /\
  tx' = mkTransaction (set_signature (t_data tx) (signature_V s v) r s') None.
Proof using Hsig.
  unfold SignTx. destruct (signer_Hash Keccak256 s (t_data tx)) as [h|] eqn:Eh; [|discriminate]. cbn [obind]. destruct (crypto_Sign (Hash_Bytes h) k) as [sig|] eqn:Es; [|discriminate].
  destruct (sg_sign _ _ _ Hsig _ _ _ Es) as (r & s' & v & -> & Hr & Hs & Hv). assert (HN : secp256k1_N < 2 ^ 256) by reflexivity. assert (HM : secp256k1_halfN < 2 ^ 256) by reflexivity.
  rewrite WithSignature_parts by (auto; lia). cbn [obind]. intros [= <-]. exists h, r, s', v. auto 10.
Qed.

(** C9: The sender of a signed transaction is the one who signed it, on the chain it
    was signed for.  When signing makes signatures from which the key of the signer
    is recovered, then for each of the three signers, and for a chain that is not 0:
    [SignTx] changes nothing but the signature, and [Sender] with the same signer
    returns the address of the key.  A transaction that was signed for a chain is
    refused by the signers of all other chains and by those before EIP 155. *)
Theorem signed_sender s tx k tx' : signer_made s -> on_chain s -> SignTx Keccak256 crypto_Sign tx s k = Ret (Ok tx') ->
  (exists V R S, t_data tx' = set_signature (t_data tx) V R S) /\
  (exists a, pubkey_address Keccak256 (pub k) = Ret a /\ Sender Keccak256 Ecrecover s tx' = Ret (mkTransaction (t_data tx') (Some (s, a)), Ok a)) /\
  match s with
  | EIP155Signer c m => forall s', s' <> s -> signer_made s' ->
      Sender Keccak256 Ecrecover s' tx' = Ret (tx', Err (match s' with EIP155Signer _ _ => ErrInvalidChainId | _ => ErrInvalidSig end))
  | _ => True
  end.
Proof using Hlen Hsig.
  intros Hm Hc H. destruct (SignTx_inv s tx k tx' H) as (h & r & s' & v & Eh & Es & Hr & Hs & Hv & ->). cbn [t_data]. split; [eauto|]. split.
  - destruct (pubkey_address_returns k) as (a & Ea). exists a. split; [exact Ea|]. apply (Sender_of s _ (pub k) a); [|exact Ea]. destruct s as [| |c m]; cbn [PublicKey signature_V].
    + exact (plain_signed _ _ _ h k r s' v Es Hr Hs Hv Eh).
    + exact (plain_signed _ _ _ h k r s' v Es Hr Hs Hv Eh).
    + destruct Hm as [Hm ->]. cbn in Hc. destruct (Z.eqb_spec c 0); [contradiction|]. apply (chain_signed c _ h k r s' v); auto. lia.
  - destruct s as [| |c m]; [exact I..|]. destruct Hm as [Hm ->]. cbn in Hc. cbn [signature_V]. destruct (Z.eqb_spec c 0); [contradiction|].
    destruct (chain_refused c (t_data tx) r s' v ltac:(lia) Hv) as [K1 K2]. intros s2 N Hm2. apply Sender_err. destruct s2 as [| |c2 m2]; cbn [PublicKey]; [apply K2..|]. apply K1. intros ->. apply N. destruct Hm2 as [_ ->]. reflexivity.
Qed.

(** A transaction that is signed for chain 0 is refused.  The signer of EIP 155
    for chain 0, or for a configuration without a chain, writes the parity alone to
    [V]; read again it stands for another chain, and the same signer refuses it. *)
Theorem chain_zero_refused tx k tx' : SignTx Keccak256 crypto_Sign tx (NewEIP155Signer None) k = Ret (Ok tx') ->
  Sender Keccak256 Ecrecover (NewEIP155Signer None) tx' = Ret (tx', Err ErrInvalidChainId).
Proof using Hsig.
  intros H. destruct (SignTx_inv _ tx k tx' H) as (h & r & s' & v & _ & _ & _ & _ & Hv & ->). apply Sender_err. cbn [NewEIP155Signer PublicKey signature_V].
  unfold EIP155Signer_PublicKey, Protected, tx_ChainId. cbn [set_signature td_V]. destruct Hv as [->| ->]; reflexivity.
Qed.

(** The cache of the sender holds what would be computed. *)
Definition cache_right (tx : Transaction) : Prop :=
  match t_from tx with Some (s, a) => signer_made s /\ Sender Keccak256 Ecrecover s (mkTransaction (t_data tx) None) = Ret (mkTransaction (t_data tx) (Some (s, a)), Ok a) | None => True end.

Lemma signer_Equal_made s s' : signer_made s -> signer_made s' -> signer_Equal s s' = true -> s = s'.
Proof using. destruct s as [| |c m], s' as [| |c' m']; try discriminate; try reflexivity. intros [_ ->] [_ ->]. cbn. intros E. apply Z.eqb_eq in E. subst. reflexivity. Qed.

(** The sender does not depend on what other signers have cached. *)
Theorem sender_cache_right s tx tx' r : signer_made s -> cache_right tx -> Sender Keccak256 Ecrecover s tx = Ret (tx', r) ->
  cache_right tx' /\ t_data tx' = t_data tx /\ exists tx2, Sender Keccak256 Ecrecover s (mkTransaction (t_data tx) None) = Ret (tx2, r).
Proof using.
  intros Hs Hc H. assert (Hnew : forall t, Sender Keccak256 Ecrecover s (mkTransaction (t_data tx) None) = Ret (t, r) -> cache_right t /\ t_data t = t_data tx).
  { intros t Ht. pose proof Ht as Ht'. unfold Sender in Ht. cbn [t_from t_data] in Ht. destruct (PublicKey _ _ s (t_data tx)) as [[pk|e]|]; cbn [obind] in Ht; [| |discriminate].
    - destruct (pubkey_address _ pk) as [a|]; cbn [obind] in Ht; [|discriminate]. injection Ht as <- <-. split; [split; [exact Hs|exact Ht']|reflexivity].
    - injection Ht as <- <-. split; [exact I|reflexivity]. }
  destruct tx as [d [[s0 a]|]]; [|destruct (Hnew _ H) as [N1 N2]; split; [exact N1|split; [exact N2|exists tx'; exact H]]].
  unfold Sender in H. cbn [t_from t_data] in *. destruct (signer_Equal s0 s) eqn:Eq.
  - injection H as <- <-. split; [exact Hc|]. split; [reflexivity|]. destruct Hc as [Hm Hc]. apply signer_Equal_made in Eq; auto. subst s0. eauto.
  - assert (Hx : exists t, Sender Keccak256 Ecrecover s (mkTransaction d None) = Ret (t, r) /\ (tx' = t \/ tx' = mkTransaction d (Some (s0, a)))).
    { unfold Sender. cbn [t_from t_data]. destruct (PublicKey _ _ s d) as [[pk|e]|]; cbn [obind] in *; [| |discriminate]; [destruct (pubkey_address _ pk) as [b|]; cbn [obind] in *; [|discriminate]|]; injection H as <- <-; eauto. }
    destruct Hx as (t & Ht & [->| ->]); [destruct (Hnew t Ht); eauto|]. split; [exact Hc|]. split; [reflexivity|eauto].
Qed.
End signed.

(** ** Blooms *)

Section blooms.
Variable Keccak256 : list Z -> list Z.
Hypothesis Klen : forall b, len (Keccak256 b) = 32.
Hypothesis Kbytes : forall b, bytes_ok (Keccak256 b).

(** All bits of [m] are in [n]. *)
Definition covers (n m : Z) : Prop := Z.land n m = m.

Lemma covers_trans a b c : covers a b -> covers b c -> covers a c.
Proof using. unfold covers. intros H1 H2. rewrite <- H2, Z.land_assoc, H1. reflexivity. Qed.
Lemma covers_refl a : covers a a.
Proof using. apply Z.land_diag. Qed.
Lemma covers_or_l a b : covers (Z.lor a b) a.
Proof using. unfold covers. apply Z.bits_inj'. intros i Hi. rewrite Z.land_spec, Z.lor_spec. destruct (Z.testbit a i), (Z.testbit b i); reflexivity. Qed.
Lemma covers_or_r a b : covers (Z.lor a b) b.
Proof using. rewrite Z.lor_comm. apply covers_or_l. Qed.

(** Numbers that fit in a bloom. *)
Definition fits (n : Z) : Prop := 0 <= n < 2 ^ 2048.

Lemma fits_or a b : fits a -> fits b -> fits (Z.lor a b).
Proof using.
  unfold fits. intros Ha Hb. assert (H0 : 0 <= Z.lor a b) by (apply Z.lor_nonneg; lia). split; [exact H0|]. destruct (Z.eq_dec (Z.lor a b) 0) as [->|N]; [reflexivity|].
  apply Z.log2_lt_pow2; [lia|]. rewrite Z.log2_lor by lia. apply Z.max_lub_lt; [destruct (Z.eq_dec a 0) as [->|]|destruct (Z.eq_dec b 0) as [->|]]; try reflexivity; apply Z.log2_lt_pow2; lia.
Qed.

Lemma bloom_bit_spec b r i : bytes_ok b -> len b = 32 -> 0 <= i < 31 -> fits r -> exists r', bloom_bit b r i = Ret r' /\ fits r' /\ covers r' r.
Proof using.
  intros Hb Hl Hi Hr. unfold bloom_bit. assert (Hx : forall k, 0 <= k < 32 -> exists x, index b k = Ret x).
  { intros k Hk. destruct (nth_error b (Z.to_nat k)) as [x|] eqn:E; [exists x; apply index_ret; [exact E|lia]|]. apply nth_error_None in E. unfold len in Hl. lia. }
  destruct (Hx (i + 1) ltac:(lia)) as (lo & ->). destruct (Hx i ltac:(lia)) as (hi & ->). cbn [obind]. eexists. split; [reflexivity|]. set (n := Z.land _ 2047).
  assert (Hn : 0 <= n < 2048) by (unfold n; change 2047 with (Z.ones 11); rewrite Z.land_ones by lia; apply Z.mod_pos_bound; reflexivity). split; [|apply covers_or_l].
  apply fits_or; [exact Hr|]. unfold fits. rewrite Z.shiftl_1_l. split; [apply Z.pow_nonneg; lia|apply Z.pow_lt_mono_r; lia].
Qed.

Lemma bloom9_spec b : exists n, bloom9 Keccak256 b = Ret n /\ fits n.
Proof using Klen Kbytes.
  unfold bloom9. destruct (bloom_bit_spec (Keccak256 b) 0 0 (Kbytes b) (Klen b) ltac:(lia) ltac:(split; reflexivity || discriminate)) as (r1 & -> & H1 & _). cbn [obind].
  destruct (bloom_bit_spec (Keccak256 b) r1 2 (Kbytes b) (Klen b) ltac:(lia) H1) as (r2 & -> & H2 & _). cbn [obind].
  destruct (bloom_bit_spec (Keccak256 b) r2 4 (Kbytes b) (Klen b) ltac:(lia) H2) as (r3 & -> & H3 & _). eauto.
Qed.

(** The bits of [b] are in [n]. *)
Definition has_bits (n : Z) (b : list Z) : Prop := exists m, bloom9 Keccak256 b = Ret m /\ covers n m.

Lemma has_bits_covers n n' b : covers n' n -> has_bits n b -> has_bits n' b.
Proof using. intros H (m & E & Hm). exists m. split; [exact E|apply (covers_trans _ n); assumption]. Qed.

Lemma or_all_spec bs : forall bin, fits bin -> exists n, or_all Keccak256 bin bs = Ret n /\ fits n /\ covers n bin /\ forall b, In b bs -> has_bits n b.
Proof using Klen Kbytes.
  induction bs as [|b bs IH]; intros bin Hf; cbn [or_all]; [exists bin; split; [reflexivity|]; split; [exact Hf|]; split; [apply covers_refl|intros b []]|].
  destruct (bloom9_spec b) as (m & E & Hm). rewrite E. cbn [obind]. destruct (IH (Z.lor bin m) (fits_or _ _ Hf Hm)) as (n & -> & Hn & Hc & Hin). exists n. split; [reflexivity|]. split; [exact Hn|].
  split; [apply (covers_trans _ _ _ Hc), covers_or_l|]. intros x [<-|Hx]; [|apply Hin, Hx]. exists m. split; [exact E|apply (covers_trans _ _ _ Hc), covers_or_r].
Qed.

(** What a log is found by. *)
Definition log_keys (l : Log) : list (list Z) := Address_Bytes (log_Address l) :: map Hash_Bytes (log_Topics l).

Lemma logs_loop_spec ls : forall bin, fits bin -> exists n, logs_loop Keccak256 bin ls = Ret n /\ fits n /\ covers n bin /\ forall l b, In l ls -> In b (log_keys l) -> has_bits n b.
Proof using Klen Kbytes.
  induction ls as [|l ls IH]; intros bin Hf; cbn [logs_loop]; [exists bin; split; [reflexivity|]; split; [exact Hf|]; split; [apply covers_refl|intros l b []]|].
  destruct (bloom9_spec (Address_Bytes (log_Address l))) as (m & E & Hm). rewrite E. cbn [obind].
  destruct (or_all_spec (map Hash_Bytes (log_Topics l)) (Z.lor bin m) (fits_or _ _ Hf Hm)) as (n1 & -> & Hn1 & Hc1 & Hin1). cbn [obind]. destruct (IH n1 Hn1) as (n & -> & Hn & Hc & Hin).
  exists n. split; [reflexivity|]. split; [exact Hn|]. split; [apply (covers_trans _ _ _ Hc), (covers_trans _ _ _ Hc1), covers_or_l|].
  intros x b [<-|Hx] Hb; [|apply (Hin x b Hx Hb)]. apply (has_bits_covers n1 n b Hc). destruct Hb as [<-|Hb]; [|apply Hin1, Hb]. exists m. split; [exact E|apply (covers_trans _ _ _ Hc1), covers_or_r].
Qed.

Lemma receipts_loop_spec rs : forall bin, fits bin -> exists n, receipts_loop Keccak256 bin rs = Ret n /\ fits n /\ covers n bin /\
  forall r, In r rs -> exists m, LogsBloom Keccak256 (r_Logs r) = Ret m /\ covers n m /\ forall l b, In l (r_Logs r) -> In b (log_keys l) -> has_bits n b.
Proof using Klen Kbytes.
  induction rs as [|r rs IH]; intros bin Hf; cbn [receipts_loop]; [exists bin; split; [reflexivity|]; split; [exact Hf|]; split; [apply covers_refl|intros r []]|].
  destruct (logs_loop_spec (r_Logs r) 0 ltac:(split; reflexivity || discriminate)) as (m & E & Hm & _ & Hin). unfold LogsBloom at 1. rewrite E. cbn [obind].
  destruct (IH (Z.lor bin m) (fits_or _ _ Hf Hm)) as (n & -> & Hn & Hc & Hrs). exists n. split; [reflexivity|]. split; [exact Hn|]. split; [apply (covers_trans _ _ _ Hc), covers_or_l|].
  assert (Hnm : covers n m) by (apply (covers_trans _ _ _ Hc), covers_or_r).
  intros x [<-|Hx]; [|apply Hrs, Hx]. exists m. split; [exact E|]. split; [exact Hnm|]. intros l b Hl Hb. apply (has_bits_covers m n b Hnm), (Hin l b Hl Hb).
Qed.

Lemma covers_le n m : 0 <= n -> 0 <= m -> covers n m -> m <= n.
Proof using.
  intros Hn Hm H. assert (E : Z.ldiff m n = 0) by (rewrite <- H, Z.land_comm, Z.ldiff_land, <- Z.land_assoc, Z.land_lnot_diag; apply Z.land_0_r).
  pose proof (Z.sub_nocarry_ldiff n m E). assert (0 <= Z.ldiff n m) by (apply Z.ldiff_nonneg; lia). lia.
Qed.

(** The bytes of a number are written over an array with a smaller one. *)
Lemma bloom_set b n : bytes_ok b -> len b = bloomLength -> fits n -> SetBytes b <= n -> exists b', bloom_SetBytes b (Bytes n) = Ret b' /\ bytes_ok b' /\ len b' = bloomLength /\ Big b' = n.
Proof using.
  intros Hb Hl Hn Hle. unfold bloom_SetBytes, bloomLength in *. assert (Hk : byte_len n <= 256) by (apply byte_len_le; [exact Hn|lia]). pose proof (byte_len_nonneg n).
  rewrite Bytes_len, Hl. decb. unfold copy_to. rewrite Hl. decb. cbn [andb]. set (off := Z.to_nat (256 - byte_len n)). pose proof (Bytes_len n) as El.
  rewrite (firstn_all2 (Bytes n)) by (unfold len in El; lia). rewrite (skipn_all2 b) by (unfold len in *; lia). rewrite app_nil_r. eexists. split; [reflexivity|].
  assert (Lf : len (firstn off b) = 256 - byte_len n) by (unfold off, len in *; rewrite length_firstn; lia). split; [apply bytes_ok_app; split; [apply bytes_ok_firstn, Hb|apply Bytes_ok]|]. split; [rewrite len_app, Lf, El; lia|].
  unfold Big. rewrite SetBytes_app, SetBytes_Bytes, El, Z.abs_eq by apply Hn. assert (E0 : SetBytes (firstn off b) = 0); [|rewrite E0; lia].
  rewrite <- (firstn_skipn off b), SetBytes_app in Hle. assert (Ls : len (skipn off b) = byte_len n) by (unfold off, len in *; rewrite length_skipn; lia). rewrite Ls in Hle.
  pose proof (SetBytes_range (firstn off b) ltac:(apply bytes_ok_firstn, Hb)) as R1. pose proof (SetBytes_range (skipn off b) ltac:(apply bytes_ok_skipn, Hb)) as R2. pose proof (byte_len_bound n) as R3. rewrite Z.abs_eq in R3 by apply Hn. nia.
Qed.

Lemma lookup_has b x : has_bits (Big b) x <-> BloomLookup Keccak256 b x = Ret true.
Proof using Klen Kbytes.
  unfold BloomLookup. destruct (bloom9_spec x) as (m & E & _). rewrite E. cbn [obind]. split.
  - intros (m' & E' & H). rewrite E in E'. injection E' as <-. rewrite H, Z.eqb_refl. reflexivity.
  - intros [= H]. apply Z.eqb_eq in H. exists m. auto.
Qed.

Lemma CreateBloom_spec rs : exists bloom n, CreateBloom Keccak256 rs = Ret bloom /\ receipts_loop Keccak256 0 rs = Ret n /\ bytes_ok bloom /\ len bloom = bloomLength /\ Big bloom = n.
Proof using Klen Kbytes.
  destruct (receipts_loop_spec rs 0 ltac:(split; reflexivity || discriminate)) as (n & E & Hn & _). unfold CreateBloom, BytesToBloom. rewrite E. cbn [obind].
  destruct (bloom_set (zeros bloomLength) n (zeros_ok _) eq_refl Hn) as (b & -> & H1 & H2 & H3); [|eauto 10]. rewrite SetBytes_zeros. apply Hn.
Qed.

(** C21: A bloom misses no log.  [CreateBloom] returns, for any receipts, an array in
    which [BloomLookup] finds the address and every topic of every log; and what is
    found in the bloom of one receipt is found in the bloom of the block, so that a
    search may skip the blocks whose bloom does not have what it looks for. *)
Theorem bloom_misses_nothing rs : exists bloom, CreateBloom Keccak256 rs = Ret bloom /\ bytes_ok bloom /\ len bloom = bloomLength /\
  (forall r l b, In r rs -> In l (r_Logs r) -> In b (log_keys l) -> BloomLookup Keccak256 bloom b = Ret true) /\
  (forall r one b, In r rs -> CreateBloom Keccak256 [r] = Ret one -> BloomLookup Keccak256 one b = Ret true -> BloomLookup Keccak256 bloom b = Ret true).
Proof using Klen Kbytes.
  destruct (CreateBloom_spec rs) as (bloom & n & E & En & H1 & H2 & <-). destruct (receipts_loop_spec rs 0 ltac:(split; reflexivity || discriminate)) as (n' & En' & _ & _ & Hr). rewrite En in En'. injection En' as <-.
  exists bloom. split; [exact E|]. split; [exact H1|]. split; [exact H2|]. split.
  - intros r l b Hin Hl Hb. apply lookup_has. destruct (Hr r Hin) as (_ & _ & _ & H). apply (H l b Hl Hb).
  - intros r one b Hin Eo Hb. apply lookup_has in Hb. apply lookup_has. destruct (Hr r Hin) as (m & Em & Hm & _). apply (has_bits_covers (Big one)); [|exact Hb].
    destruct (CreateBloom_spec [r]) as (one' & k & Eo' & Ek & _ & _ & <-). rewrite Eo in Eo'. injection Eo' as <-. cbn [receipts_loop] in Ek. rewrite Em in Ek. cbn [obind] in Ek. injection Ek as <-. exact Hm.
Qed.

(** What is added is found, and what was found still is. *)
Theorem bloom_Add_found b d : bytes_ok b -> len b = bloomLength -> exists b', bloom_Add Keccak256 b d = Ret b' /\ bytes_ok b' /\ len b' = bloomLength /\
  bloom_Test Keccak256 b' d = Ret true /\ forall x, bloom_Test Keccak256 b x = Ret true -> bloom_Test Keccak256 b' x = Ret true.
Proof using Klen Kbytes.
  intros Hb Hl. unfold bloom_Add, bloom_Test. destruct (bloom9_spec (Bytes d)) as (m & E & Hm). rewrite E. cbn [obind]. pose proof (SetBytes_range b Hb) as R. rewrite Hl in R.
  assert (Hf : fits (SetBytes b)) by exact R. assert (Hn : fits (Z.lor (SetBytes b) m)) by (apply fits_or; assumption).
  destruct (bloom_set b _ Hb Hl Hn ltac:(apply covers_le; [apply Hn|apply R|apply covers_or_l])) as (b' & -> & H1 & H2 & H3). exists b'. split; [reflexivity|]. split; [exact H1|]. split; [exact H2|]. split.
  - apply lookup_has. rewrite H3. exists m. split; [exact E|apply covers_or_r].
  - intros x Hx. apply lookup_has in Hx. apply lookup_has. rewrite H3. apply (has_bits_covers (Big b)); [apply covers_or_l|exact Hx].
Qed.
End blooms.

(** ** Hashes of lists *)

Lemma wft_ref_value Keccak256 q : (forall b, len (Keccak256 b) = 32) -> wft q -> 32 <= len (penc Keccak256 q) -> 32 <= len (rlp (pref Keccak256 q)).
Proof.
  intros Hl Hw H. assert (Ep : pref Keccak256 q = if len (penc Keccak256 q) <? 32 then pval Keccak256 q else VBytes (Keccak256 (penc Keccak256 q))) by (destruct q; try contradiction; reflexivity).
  rewrite Ep. destruct (Z.ltb_spec (len (penc Keccak256 q)) 32); [lia|]. cbn [rlp]. pose proof (string_len (Keccak256 (penc Keccak256 q))) as Hs. rewrite Hl in Hs. exact Hs.
Qed.

(** The encoding of a trie with a long value is long. *)
Lemma penc_value Keccak256 p : (forall b, len (Keccak256 b) = 32) -> wft p -> forall j v, hexkey j -> plookup p j = Some v -> 32 <= len v -> 32 <= len (penc Keccak256 p).
Proof.
  intros Hlen. induction p as [|w|k q IH|ps IH] using ptrie_children_ind; intros Hw j v Hj E Hv; try contradiction; unfold penc; cbn [pval].
  - destruct (plookup_short_key _ _ _ _ E) as (r & -> & Er). fold (pref Keccak256 q). pose proof (list_len [VBytes (compact k); pref Keccak256 q]) as Hl. cbn [flat_map rlp] in Hl. rewrite !len_app in Hl.
    change (len []) with 0 in Hl. pose proof (len_nonneg (rlp_string (compact k))). cbn [rlp flat_map]. set (L := len (rlp_list _)) in *. clearbody L. destruct q as [|w| |ps]; try contradiction.
    + destruct r; [injection Er as ->|discriminate]. cbn [pref fold_ref pval rlp] in Hl. pose proof (string_len v). lia.
    + assert (Hr : hexkey r) by (apply (hexkey_split k r Hj); intros ->; cbn in Er; discriminate).
      pose proof (wft_ref_value Keccak256 (PFull ps) Hlen (proj2 (proj2 Hw)) (IH (proj2 (proj2 Hw)) r v Hr Er Hv)). lia.
  - destruct j as [|x r]; [inversion Hj|]. rewrite plookup_full in E. destruct (child_fits ps x r Hw Hj) as [Hx Hfc].
    assert (Hin : In (child ps x) ps) by (unfold child; apply nth_In; unfold len in Hx; lia). pose proof (child_len Keccak256 (child ps x) ps Hin) as Hm. pose proof (len_nonneg ps).
    pose proof (list_len (map (pref Keccak256) ps)) as Hl. change (map (fun q => fold_ref Keccak256 q (pval Keccak256 q)) ps) with (map (pref Keccak256) ps).
    assert (Hc : 32 <= len (rlp (pref Keccak256 (child ps x)))); [|assert (1 <= len ps) by (destruct ps; [destruct Hin|rewrite len_cons; pose proof (len_nonneg ps); lia]); lia].
    destruct Hfc as [[Hwc Hr]|[Hf ->]].
    + destruct Hwc as [E0|Hwc]; [rewrite E0 in E; discriminate|]. rewrite Forall_forall in IH. apply (wft_ref_value Keccak256 _ Hlen Hwc), (IH _ Hin Hwc r v Hr E Hv).
    + destruct Hf as [E0|(w & E0 & _)]; rewrite E0 in E |- *; [discriminate|]. injection E as ->. cbn [pref fold_ref pval rlp]. pose proof (string_len v). lia.
Qed.

(** The keys of a list: the encodings of the indices. *)
Definition index_key (i : Z) : list Z := rlp (VUint i).
Fixpoint indexed (i : Z) (vs : list (list Z)) (m : list Z -> option (list Z)) : list Z -> option (list Z) :=
  match vs with [] => m | v :: vs => indexed (i + 1) vs (edited1 m (index_key i) v) end.
Definition list_map (vs : list (list Z)) : list Z -> option (list Z) := indexed 0 vs (fun _ => None).

Lemma index_key_short i : is_u64 i -> len (index_key i) <= 9.
Proof.
  intros Hi. unfold index_key. cbn [rlp]. assert (Hb : len (Bytes i) <= 8) by (rewrite Bytes_len; apply byte_len_le; [exact Hi|lia]). pose proof (string_cases (Bytes i) (Bytes_ok i)) as Hc.
  destruct (small_string (Bytes i)); [destruct Hc as (x & _ & _ & ->); change (len [x]) with 1; lia|]. rewrite Hc, len_app. unfold rlp_head. destruct (Z.ltb_spec (len (Bytes i)) 56); [|lia].
  change (len [?x]) with 1. lia.
Qed.

Lemma index_key_ok i : is_u64 i -> bytes_ok (index_key i).
Proof. intros Hi. apply (val_ok_bytes (VUint i)); [exact Hi|]. pose proof (index_key_short i Hi). unfold index_key in *. lia. Qed.

(** What can be read from its bytes is told by them. *)
Lemma reads_binds t x y v w : reads (decode t) v (rlp x) -> reads (decode t) w (rlp y) -> val_ok x -> len (rlp x) < 2 ^ 63 -> rlp x = rlp y -> v = w.
Proof.
  intros Hv Hw Hx Hl E. pose proof (DecodeBytes_reads t v _ Hv (val_ok_bytes x Hx Hl) Hl) as H. rewrite E in H, Hl. rewrite (DecodeBytes_reads t w _ Hw) in H; [injection H as ->; reflexivity| |exact Hl].
  rewrite <- E. apply val_ok_bytes; [exact Hx|]. rewrite E. exact Hl.
Qed.

Lemma index_key_inj i j : is_u64 i -> is_u64 j -> index_key i = index_key j -> i = j.
Proof.
  intros Hi Hj E. assert (R : forall n, is_u64 n -> reads (decode (TUint 64)) (DUint n) (rlp (VUint n))) by (intros n Hn; apply (plain_reads (TUint 64) (DUint n) eq_refl); exists n; auto).
  pose proof (index_key_short i Hi) as Hl. pose proof (reads_binds _ _ _ _ _ (R i Hi) (R j Hj) Hi ltac:(unfold index_key in Hl; lia) E) as H. injection H as ->. reflexivity.
Qed.

Lemma indexed_some vs : forall i m k v, indexed i vs m k = Some v -> (exists j, i <= j < i + len vs /\ k = index_key j /\ In v vs) \/ m k = Some v.
Proof.
  induction vs as [|w vs IH]; intros i m k v E; [right; exact E|]. cbn [indexed] in E. rewrite len_cons. pose proof (len_nonneg vs).
  destruct (IH _ _ _ _ E) as [(j & Hj & -> & Hin)|H1]; [left; exists j; split; [lia|]; split; [reflexivity|right; exact Hin]|].
  unfold edited1, remove, TrieContents.update in H1. destruct (len w =? 0); cbv beta in H1; destruct (key_eqb_spec k (index_key i)) as [->|N]; try discriminate; try (right; exact H1). injection H1 as ->. left. exists i. split; [lia|]. split; [reflexivity|left; reflexivity].
Qed.

Lemma indexed_get vs : Forall (fun v => 0 < len v) vs -> forall i m j, 0 <= i -> i + len vs <= 2 ^ 64 -> is_u64 j ->
  indexed i vs m (index_key j) = if (i <=? j) && (j <? i + len vs) then nth_error vs (Z.to_nat (j - i)) else m (index_key j).
Proof.
  induction 1 as [|v vs Hv Hvs IH]; intros i m j Hi Hn Hj; [change (len []) with 0; cbn [indexed]; destruct (Z.leb_spec i j), (Z.ltb_spec j (i + 0)); try reflexivity; lia|].
  cbn [indexed]. rewrite len_cons in *. pose proof (len_nonneg vs). rewrite IH by (try exact Hj; lia). unfold edited1. replace (len v =? 0) with false by (symmetry; apply Z.eqb_neq; lia). unfold TrieContents.update.
  destruct (key_eqb_spec (index_key j) (index_key i)) as [E|N].
  - apply index_key_inj in E; [subst j|exact Hj|unfold is_u64 in *; lia]. replace (i + 1 <=? i) with false by lia. replace (i <=? i) with true by lia. replace (i <? i + (len vs + 1)) with true by lia.
    cbn [andb]. replace (Z.to_nat (i - i)) with 0%nat by lia. reflexivity.
  - assert (Nij : j <> i) by congruence. replace (i + 1 + len vs) with (i + (len vs + 1)) by lia. destruct (Z.leb_spec (i + 1) j), (Z.leb_spec i j); try lia; [|reflexivity]. cbn [andb].
    destruct (j <? i + (len vs + 1)); [|reflexivity]. replace (Z.to_nat (j - i)) with (S (Z.to_nat (j - (i + 1)))) by lia. reflexivity.
Qed.

(** The map tells the list. *)
Lemma list_map_binds vs ws : Forall (fun v => 0 < len v) vs -> Forall (fun v => 0 < len v) ws -> len vs < 2 ^ 63 -> len ws < 2 ^ 63 ->
  (forall k, bytes_ok k -> list_map vs k = list_map ws k) -> vs = ws.
Proof.
  intros Hv Hw Lv Lw E.
  assert (Hn : forall us n, Forall (fun v => 0 < len v) us -> len us < 2 ^ 63 -> Z.of_nat n < 2 ^ 63 -> list_map us (index_key (Z.of_nat n)) = nth_error us n).
  { intros us n Hu Lu Ln. unfold list_map. rewrite indexed_get; [|exact Hu|lia|lia|unfold is_u64; lia]. rewrite Z.sub_0_r, Nat2Z.id. destruct (Z.leb_spec 0 (Z.of_nat n)); [|lia]. cbn [andb].
    destruct (Z.ltb_spec (Z.of_nat n) (0 + len us)) as [|G]; [reflexivity|]. symmetry. apply nth_error_None. unfold len in G. lia. }
  apply nth_error_ext. intros n. destruct (Z.ltb_spec (Z.of_nat n) (2 ^ 63)) as [L|G].
  - rewrite <- (Hn vs n), <- (Hn ws n) by assumption. apply E, index_key_ok. unfold is_u64. lia.
  - unfold len in *. rewrite !(proj2 (nth_error_None _ _)) by lia. reflexivity.
Qed.

Section binding.
Variable Keccak256 : list Z -> list Z.
Variable known : list Z -> Prop.
Hypothesis laws : hash_laws Keccak256 known.

(** The entries of a list that is hashed. *)
Definition entries_ok (vs : list (list Z)) : Prop := Forall (fun v => 32 <= len v < 2 ^ 32) vs /\ len vs < 2 ^ 63.

Lemma derive_loop_spec vs : forall i root m, 0 <= i -> i + len vs <= 2 ^ 64 -> contents Keccak256 no_database root m ->
  exists root', derive_loop i (map Ret vs) root = Ret root' /\ contents Keccak256 no_database root' (indexed i vs m).
Proof using laws.
  induction vs as [|v vs IH]; intros i root m Hi Hn Hc; [exists root; auto|]. rewrite len_cons in Hn. pose proof (len_nonneg vs). assert (Hu : is_u64 i) by (unfold is_u64; lia).
  destruct (contents_edit1 Keccak256 (hl_len _ _ laws) no_database 0 root m (index_key i) v Hc (index_key_ok i Hu)) as (root1 & E1 & C1).
  destruct (IH (i + 1) root1 _ ltac:(lia) ltac:(lia) C1) as (root' & E & C). exists root'. split; [|exact C]. cbn [map derive_loop].
  pose proof (index_key_short i Hu) as Hs. rewrite (val_ok_encodes (VUint i) Hu) by (unfold index_key in Hs; lia). fold (index_key i). cbn [obind]. rewrite E1. exact E.
Qed.

Lemma list_sized p vs : entries_ok vs -> of_map p (list_map vs) -> sized p /\ (p <> PNil -> 32 <= len (penc Keccak256 p)).
Proof using laws.
  intros [Hv Hn] (Hw & Hm & Hk). destruct Hw as [->|Hw]; [split; [exact I|contradiction]|]. rewrite Forall_forall in Hv.
  assert (H : forall j v, hexkey j -> plookup p j = Some v -> len j < 2 ^ 32 /\ 32 <= len v < 2 ^ 32).
  { intros j v Hj E. destruct (Hk j v Hj E) as (key & Hb & ->). rewrite Hm in E by exact Hb. rewrite keybytes_len. destruct (indexed_some _ _ _ _ _ E) as [(i & Hi & -> & Hin)|]; [|discriminate].
    split; [|apply Hv, Hin]. pose proof (index_key_short i ltac:(unfold is_u64; lia)). lia. }
  split; [apply sized_of; [exact Hw|]; intros j v Hj E; specialize (H j v Hj E); lia|]. intros _. destruct (wft_has_key p Hw) as (j & v & Hj & E).
  apply (penc_value Keccak256 p (hl_len _ _ laws) Hw j v Hj E). apply (H j v Hj E).
Qed.

Lemma DeriveSha_spec vs : entries_ok vs -> exists p, of_map p (list_map vs) /\ DeriveSha Keccak256 (map Ret vs) = Ret (BytesToHash (root_hash Keccak256 p)).
Proof using laws.
  intros H. destruct (derive_loop_spec vs 0 nilNode _ ltac:(lia) ltac:(destruct H; lia) (empty_contents Keccak256 no_database)) as (root & E & p & Hst & Hm).
  destruct (list_sized p vs H Hm) as [Hs Hl]. exists p. split; [exact Hm|]. unfold DeriveSha. rewrite E. cbn [obind].
  destruct (HashRoot_spec Keccak256 (hl_len _ _ laws) no_database 0 0 root p Hst (proj1 Hm) Hs Hl) as (root' & -> & _). reflexivity.
Qed.

(** The nodes of the trie of a list are known. *)
Definition list_known (vs : list (list Z)) : Prop := forall p, of_map p (list_map vs) -> knowns Keccak256 known p.

Lemma long_nonempty vs : entries_ok vs -> Forall (fun v => 0 < len v) vs.
Proof. intros [H _]. eapply Forall_impl; [|exact H]. intros v Hv. cbn in Hv. lia. Qed.

Lemma DeriveSha_binds vs ws : entries_ok vs -> entries_ok ws -> list_known vs -> list_known ws -> DeriveSha Keccak256 (map Ret vs) = DeriveSha Keccak256 (map Ret ws) -> vs = ws.
Proof using laws.
  intros Hv Hw Kv Kw E. destruct (DeriveSha_spec vs Hv) as (p & Mp & Ep), (DeriveSha_spec ws Hw) as (q & Mq & Eq). rewrite Ep, Eq in E. injection E as E.
  destruct (list_sized p vs Hv Mp) as [Sp Lp], (list_sized q ws Hw Mq) as [Sq Lq]. pose proof (hl_len _ _ laws) as Hl.
  destruct (root_hash_bytes Keccak256 Hl (hl_bytes _ _ laws) p) as [B1 L1], (root_hash_bytes Keccak256 Hl (hl_bytes _ _ laws) q) as [B2 L2].
  assert (Er : root_hash Keccak256 p = root_hash Keccak256 q) by (rewrite <- (Hash_Bytes_of _ B1 L1), <- (Hash_Bytes_of _ B2 L2); congruence).
  pose proof (root_hash_binds Keccak256 Hl known (hl_no_collision _ _ laws) (hl_empty _ _ laws) (hl_known _ _ laws) p q (proj1 Mp) (proj1 Mq) Sp Sq (Kv p Mp) (Kw q Mq) Lp Lq Er) as ->.
  apply list_map_binds; try (apply long_nonempty; assumption); [apply Hv|apply Hw|]. intros k Hk. destruct Mp as (_ & Mp & _), Mq as (_ & Mq & _). rewrite <- Mp, <- Mq by exact Hk. reflexivity.
Qed.

Lemma rlpHash_ok x : val_ok x -> len (rlp x) < 2 ^ 63 -> rlpHash Keccak256 x = Ret (BytesToHash (Keccak256 (rlp x))).
Proof. intros H Hl. unfold rlpHash. rewrite val_ok_encodes by assumption. reflexivity. Qed.

Lemma rlpHash_binds x y : val_ok x -> val_ok y -> len (rlp x) < 2 ^ 63 -> len (rlp y) < 2 ^ 63 -> known (rlp x) -> known (rlp y) -> rlpHash Keccak256 x = rlpHash Keccak256 y -> rlp x = rlp y.
Proof using laws.
  intros Hx Hy Lx Ly Kx Ky E. rewrite !rlpHash_ok in E by assumption. injection E as E. apply (hl_no_collision _ _ laws); [assumption|assumption|].
  rewrite <- (Hash_Bytes_of (Keccak256 (rlp x))), <- (Hash_Bytes_of (Keccak256 (rlp y))) by (apply (hl_bytes _ _ laws) || apply (hl_len _ _ laws)). rewrite E. reflexivity.
Qed.

Lemma elem_len v vs : In v vs -> len (rlp v) <= len (rlp (VList vs)).
Proof.
  intros Hin. pose proof (list_len vs). assert (len (rlp v) <= len (flat_map rlp vs)); [|lia]. clear -Hin. induction vs as [|w vs IH]; [destruct Hin|]. cbn [flat_map]. rewrite len_app.
  pose proof (len_nonneg (rlp w)). pose proof (len_nonneg (flat_map rlp vs)). destruct Hin as [->|Hin]; [lia|]. specialize (IH Hin). lia.
Qed.

Lemma elems_count vs : Forall (fun v => 32 <= len (rlp v)) vs -> len vs <= len (rlp (VList vs)).
Proof.
  intros H. pose proof (list_len vs). assert (len vs <= len (flat_map rlp vs)); [|lia]. clear -H. induction H as [|v vs Hv _ IH]; [reflexivity|]. cbn [flat_map]. rewrite len_app, len_cons. lia.
Qed.

(** The transactions as they are hashed. *)
Definition tx_entries (b : Block) : list (list Z) := map (fun t => rlp (tx_val (t_data t))) (b_transactions b).

(** A block whose header has the hashes of its uncles and transactions, with
    transactions of 32 bytes or more; what is hashed for it is known. *)
Record block_sealed (b : Block) : Prop := {
  bs_ok : block_ok b;
  bs_size : len (rlp (block_val b)) < 2 ^ 32;
  bs_entries : Forall (fun e => 32 <= len e) (tx_entries b);
  bs_txs : Transactions_Sha Keccak256 (b_transactions b) = Ret (h_TxHash (b_header b));
  bs_uncles : CalcUncleHash Keccak256 (b_uncles b) = Ret (h_UncleHash (b_header b));
  bs_known : known (rlp (header_val (b_header b))) /\ known (rlp (VList (map header_val (b_uncles b)))) /\ list_known (tx_entries b) }.

Lemma sealed_parts b : block_sealed b ->
  len (rlp (header_val (b_header b))) < 2 ^ 32 /\ len (rlp (VList (map header_val (b_uncles b)))) < 2 ^ 32 /\ len (rlp (VList (map (fun t => tx_val (t_data t)) (b_transactions b)))) < 2 ^ 32.
Proof.
  intros H. pose proof (bs_size b H). unfold block_val in *. set (vs := [_; _; _]) in *.
  assert (Hin : forall v, In v vs -> len (rlp v) < 2 ^ 32) by (intros v Hv; pose proof (elem_len v vs Hv); lia). repeat apply conj; apply Hin; unfold vs; [left|right; right; left|right; left]; reflexivity.
Qed.

Lemma sealed_entries b : block_sealed b -> entries_ok (tx_entries b) /\ map tx_GetRlp (b_transactions b) = map Ret (tx_entries b).
Proof.
  intros H. destruct (sealed_parts b H) as (_ & _ & Hl). pose proof (bk_txs _ (bs_ok b H)) as Ht. rewrite Forall_forall in Ht. pose proof (bs_entries b H) as He.
  assert (Hs : forall t, In t (b_transactions b) -> len (rlp (tx_val (t_data t))) < 2 ^ 32) by (intros t Hin; pose proof (elem_len _ _ (in_map (fun t => tx_val (t_data t)) _ t Hin)); lia).
  unfold tx_entries in *. split; [split|].
  - rewrite Forall_map in *. rewrite Forall_forall in *. intros t Hin. split; [apply He, Hin|apply Hs, Hin].
  - assert (Hc : Forall (fun v => 32 <= len (rlp v)) (map (fun t => tx_val (t_data t)) (b_transactions b))) by (rewrite Forall_map in *; exact He).
    pose proof (elems_count _ Hc). unfold len in *. rewrite length_map in *. lia.
  - rewrite map_map. apply map_ext_in. intros t Hin. specialize (Hs t Hin). unfold tx_GetRlp. rewrite val_ok_encodes by (try apply tx_val_ok, Ht, Hin; lia). reflexivity.
Qed.

Lemma map_told {A B C : Type} (f : A -> B) (g : A -> C) xs ys : (forall x y, In x xs -> In y ys -> f x = f y -> g x = g y) -> map f xs = map f ys -> map g xs = map g ys.
Proof.
  revert ys. induction xs as [|x xs IH]; intros [|y ys] H E; try discriminate; [reflexivity|]. injection E as E1 E2. cbn [map]. f_equal; [apply H; cbn; auto|]. apply IH; [|exact E2].
  intros x' y' Hx Hy. apply H; right; assumption.
Qed.

Lemma header_told h h' : header_ok h -> header_ok h' -> header_dval h = header_dval h' -> h = h'.
Proof. intros H H' E. pose proof (header_of_dval h H) as E1. rewrite E, (header_of_dval h' H') in E1. injection E1 as ->. reflexivity. Qed.

Lemma headers_told us us' : Forall header_ok us -> Forall header_ok us' -> len (rlp (VList (map header_val us))) < 2 ^ 63 -> rlp (VList (map header_val us)) = rlp (VList (map header_val us')) -> us = us'.
Proof.
  intros H H' Hl E. pose proof (reads_binds _ _ _ _ _ (headers_reads us H) (headers_reads us' H') (proj2 (val_ok_list _) (proj2 (Forall_map _ _ _) (Forall_impl _ header_val_ok H))) Hl E) as Ed.
  injection Ed as Ed. rewrite <- (map_id us), <- (map_id us'). apply (map_told header_dval (fun h => h)); [|exact Ed]. rewrite Forall_forall in H, H'. intros h h' Hh Hh'. apply header_told; auto.
Qed.

Lemma tx_told d d' : tx_ok d -> tx_ok d' -> len (rlp (tx_val d)) < 2 ^ 63 -> rlp (tx_val d) = rlp (tx_val d') -> d = d'.
Proof.
  intros H H' Hl E. pose proof (reads_binds _ _ _ _ _ (tx_reads d H) (tx_reads d' H') (tx_val_ok d H) Hl E) as Ed. pose proof (tx_of_dval d H) as E1. rewrite Ed, (tx_of_dval d' H') in E1. injection E1 as ->. reflexivity.
Qed.


(** A new block has these hashes. *)
Lemma NewBlock_hashes header txs uncles receipts b : NewBlock Keccak256 header txs uncles receipts = Ret b ->
  b_transactions b = txs /\ b_uncles b = uncles /\ Transactions_Sha Keccak256 txs = Ret (h_TxHash (b_header b)) /\ CalcUncleHash Keccak256 uncles = Ret (h_UncleHash (b_header b)) /\
  Receipts_Sha Keccak256 receipts = Ret (h_ReceiptHash (b_header b)).
Proof.
  assert (E0 : forall A (vs : list A), (len vs =? 0) = true -> vs = []) by (intros A [|v vs]; [reflexivity|rewrite len_cons; pose proof (len_nonneg vs); lia]). unfold NewBlock.
  assert (Et : (if len txs =? 0 then EmptyRootHash Keccak256 else Transactions_Sha Keccak256 txs) = Transactions_Sha Keccak256 txs) by (destruct (len txs =? 0) eqn:E; [rewrite (E0 _ _ E)|]; reflexivity).
  assert (Er : (if len receipts =? 0 then EmptyRootHash Keccak256 else Receipts_Sha Keccak256 receipts) = Receipts_Sha Keccak256 receipts) by (destruct (len receipts =? 0) eqn:E; [rewrite (E0 _ _ E)|]; reflexivity).
  assert (Eu : (if len uncles =? 0 then EmptyUncleHash Keccak256 else CalcUncleHash Keccak256 uncles) = CalcUncleHash Keccak256 uncles) by (destruct (len uncles =? 0) eqn:E; [rewrite (E0 _ _ E)|]; reflexivity).
  rewrite Et, Er, Eu. clear. destruct (Transactions_Sha Keccak256 txs); [|discriminate]. destruct (Receipts_Sha Keccak256 receipts); [|discriminate]. cbn [obind].
  destruct (if len receipts =? 0 then _ else _); [|discriminate]. cbn [obind]. destruct (CalcUncleHash Keccak256 uncles); [|discriminate]. cbn [obind]. intros E. injection E as <-. repeat split.
Qed.
End binding.

(** ** Samples *)

Definition sample_creation : txdata := mkTxdata 7 (2 * 10 ^ 10) 90000 None 0 [0x60; 0x00; 0x56] 28 (2 ^ 250 + 1) (2 ^ 200 + 3).
Definition sample_payment : txdata := mkTxdata 8 (2 * 10 ^ 10) 21000 (Some (2 ^ 155 + 9)) (10 ^ 18) [] 37 (2 ^ 251 + 1) (2 ^ 201 + 3).
Definition sample_header (number txHash uncleHash : Z) : Header :=
  mkHeader 1 uncleHash 3 4 txHash 6 (zeros bloomLength) 0x400 number 4700000 21000 1500000000 [1; 2; 3] 9 (be_bytes 8 42).
Definition sample_uncles : list Header := [sample_header 4 5 6].
Definition sample_transactions (from : option (Signer * Address)) : list Transaction := [mkTransaction sample_creation None; mkTransaction sample_payment from].
Definition got_hash (x : outcome Hash) : Hash := match x with Ret h => h | Panic => 0 end.
Definition sample_block (from : option (Signer * Address)) : Block :=
  mkBlock (sample_header 5 (got_hash (Transactions_Sha sample_hash (sample_transactions None))) (got_hash (CalcUncleHash sample_hash sample_uncles))) sample_uncles (sample_transactions from).

(** Bytes, decided. *)
Lemma bytes_decided b : forallb (fun x => (0 <=? x) && (x <? 256)) b = true -> bytes_ok b.
Proof. intros H. apply Forall_forall. intros x Hx. rewrite forallb_forall in H. specialize (H x Hx). unfold is_byte. lia. Qed.

Lemma sample_creation_ok : tx_ok sample_creation.
Proof. constructor; cbn; unfold is_u64; try lia. apply bytes_decided. reflexivity. Qed.
Lemma sample_payment_ok : tx_ok sample_payment.
Proof. constructor; cbn; unfold is_u64, address_ok; try lia. constructor. Qed.
Lemma sample_header_ok n t u : 0 <= n -> hash_ok t -> hash_ok u -> header_ok (sample_header n t u).
Proof.
  intros Hn Ht Hu. constructor; cbn [sample_header h_ParentHash h_UncleHash h_Coinbase h_Root h_TxHash h_ReceiptHash h_Bloom h_Difficulty h_Number h_GasLimit h_GasUsed h_Time h_Extra h_MixDigest h_Nonce]; try assumption;
    try (unfold hash_ok, address_ok; lia); [split; [apply bytes_decided|]; vm_compute; reflexivity|repeat (apply Forall_cons; [lia|]); apply Forall_nil|apply bytes_decided; reflexivity|split; [apply be_bytes_ok|apply be_bytes_len]].
Qed.
Lemma sample_block_ok from : block_ok (sample_block from).
Proof.
  constructor.
  - apply sample_header_ok; [lia| |]; unfold hash_ok; vm_compute; split; (discriminate || reflexivity).
  - apply Forall_cons; [|apply Forall_nil]. apply sample_header_ok; unfold hash_ok; lia.
  - apply Forall_cons; [exact sample_creation_ok|]. apply Forall_cons; [exact sample_payment_ok|apply Forall_nil].
Qed.

Lemma block_roundtrip_witness : exists bytes v, EncodeToBytes (block_val (sample_block None)) = Ret (Ok bytes) /\ DecodeBytes block_typ bytes = Ret (Ok v) /\ block_of v = Some (fresh_block (sample_block None)).
Proof. apply (block_roundtrip (sample_block None) (sample_block_ok None)). vm_compute. reflexivity. Defined.

Lemma creation_two_encodings_witness : exists p q, p <> q /\ EncodeToBytes (tx_val sample_creation) = Ret (Ok p) /\ DecodeBytes tx_typ p = Ret (Ok (tx_dval sample_creation)) /\
  DecodeBytes tx_typ q = Ret (Ok (tx_dval sample_creation)) /\ tx_of (tx_dval sample_creation) = Some sample_creation.
Proof. apply (creation_two_encodings sample_creation sample_creation_ok eq_refl). vm_compute. reflexivity. Defined.

Definition sample_receipt : Receipt := mkReceipt [] true 21000 (zeros bloomLength) [mkLog 5 [6; 7] [1; 2] 8 9 0 10 1] 11 12 21000.
Lemma sample_receipt_ok : receipt_ok sample_receipt.
Proof.
  constructor; cbn; [split; [constructor|left; reflexivity]|lia|split; [apply bytes_decided|]; vm_compute; reflexivity|].
  apply Forall_cons; [|apply Forall_nil]. constructor; cbn; [unfold address_ok; lia|repeat (apply Forall_cons; [unfold hash_ok; lia|]); apply Forall_nil|apply bytes_decided; reflexivity].
Qed.

Lemma receipt_roundtrip_witness : exists bytes v, EncodeToBytes (receipt_val sample_receipt) = Ret (Ok bytes) /\ DecodeBytes receipt_typ bytes = Ret (Ok v) /\
  receipt_of v = Some (Ok (sent_receipt sample_receipt)) /\ statusEncoding (sent_receipt sample_receipt) = statusEncoding sample_receipt.
Proof. apply (receipt_roundtrip sample_receipt sample_receipt_ok). vm_compute. reflexivity. Defined.

(** Signatures with two keys: R is made from the hash, S from the key. *)
Definition sample_R (h : list Z) : Z := 1 + SetBytes h mod 2 ^ 255.
Definition sample_S (k : bool) : Z := if k then 1 else 2.
Definition sample_pub (k : bool) : list Z := 4 :: be_bytes 64 (sample_S k).
Definition sample_sig (h : list Z) (k : bool) : list Z := be_bytes 32 (sample_R h) ++ be_bytes 32 (sample_S k) ++ [Z.b2z k].
Definition sample_Sign (h : list Z) (k : bool) : option (list Z) := if len h =? 32 then Some (sample_sig h k) else None.
Definition sample_Ecrecover (h sig : list Z) : option (list Z) := option_map sample_pub (find (fun k => key_eqb sig (sample_sig h k)) [true; false]).

Lemma sample_sig_key h k k' : sample_sig h k = sample_sig h k' -> k = k'.
Proof. unfold sample_sig. intros E. apply app_inv_head, app_inj_tail in E. destruct k, k', E; (reflexivity || discriminate). Qed.

Lemma sample_Sign_some h k sig : sample_Sign h k = Some sig -> sig = sample_sig h k.
Proof. unfold sample_Sign. destruct (len h =? 32); congruence. Qed.

Lemma sample_signatures : signatures sample_Ecrecover sample_Sign sample_pub.
Proof.
  constructor.
  - intros h k sig E. rewrite (sample_Sign_some h k sig E). exists (sample_R h), (sample_S k), (Z.b2z k). split; [reflexivity|].
    assert (HN : 2 ^ 255 < secp256k1_N) by reflexivity. assert (HM : 2 <= secp256k1_halfN) by discriminate. set (N := secp256k1_N) in *. set (M := secp256k1_halfN) in *. clearbody N M.
    unfold sample_R. pose proof (Z.mod_pos_bound (SetBytes h) (2 ^ 255) ltac:(lia)). destruct k; cbn [sample_S Z.b2z]; lia.
  - intros h k sig E. rewrite (sample_Sign_some h k sig E). unfold sample_Ecrecover. cbn [find].
    destruct (key_eqb_spec (sample_sig h k) (sample_sig h true)) as [Ek|N]; [rewrite (sample_sig_key h k true Ek); reflexivity|].
    destruct (key_eqb_spec (sample_sig h k) (sample_sig h false)) as [Ek|N']; [rewrite (sample_sig_key h k false Ek); reflexivity|]. destruct k; contradiction.
  - intros k. unfold sample_pub. rewrite len_cons, be_bytes_len. split; reflexivity.
Qed.

Definition sample_signed (s : Signer) : Transaction :=
  match SignTx sample_hash sample_Sign (mkTransaction sample_payment None) s true with Ret (Ok tx) => tx | _ => mkTransaction sample_payment None end.

(** Signed for chain 18: the sender is found, and the signer of chain 19 refuses it. *)
Lemma signed_sender_witness : (exists a, pubkey_address sample_hash (sample_pub true) = Ret a /\ Sender sample_hash sample_Ecrecover (NewEIP155Signer (Some 18)) (sample_signed (NewEIP155Signer (Some 18))) =
    Ret (mkTransaction (t_data (sample_signed (NewEIP155Signer (Some 18)))) (Some (NewEIP155Signer (Some 18), a)), Ok a)) /\
  Sender sample_hash sample_Ecrecover (NewEIP155Signer (Some 19)) (sample_signed (NewEIP155Signer (Some 18))) = Ret (sample_signed (NewEIP155Signer (Some 18)), Err ErrInvalidChainId).
Proof.
  destruct (signed_sender sample_hash sample_Ecrecover sample_Sign sample_pub sample_hash_len sample_signatures (NewEIP155Signer (Some 18)) (mkTransaction sample_payment None) true (sample_signed (NewEIP155Signer (Some 18))))
    as (_ & H1 & H2); [split; [discriminate|reflexivity]|discriminate|vm_compute; reflexivity|].
  split; [exact H1|]. apply (H2 (NewEIP155Signer (Some 19))); [discriminate|]. split; [discriminate|reflexivity].
Defined.

Lemma chain_zero_refused_witness : Sender sample_hash sample_Ecrecover (NewEIP155Signer None) (sample_signed (NewEIP155Signer None)) = Ret (sample_signed (NewEIP155Signer None), Err ErrInvalidChainId).
Proof. apply (chain_zero_refused sample_hash sample_Ecrecover sample_Sign sample_pub sample_signatures (mkTransaction sample_payment None) true). vm_compute. reflexivity. Defined.

Lemma sample_hash_bytes b : bytes_ok (sample_hash b).
Proof. unfold sample_hash. destruct (key_eqb b [0x80]); [apply hash_array|apply be_bytes_ok]. Qed.

Lemma bloom_misses_nothing_witness : exists bloom, CreateBloom sample_hash [sample_receipt] = Ret bloom /\ BloomLookup sample_hash bloom (Hash_Bytes 6) = Ret true.
Proof.
  destruct (bloom_misses_nothing sample_hash sample_hash_len sample_hash_bytes [sample_receipt]) as (bloom & E & _ & _ & H & _). exists bloom. split; [exact E|].
  apply (H sample_receipt (mkLog 5 [6; 7] [1; 2] 8 9 0 10 1)); [left; reflexivity|left; reflexivity|]. right. left. reflexivity.
Defined.

(** What is hashed for the sample block. *)
Definition sample_list_trie : node := match derive_loop 0 (map Ret (tx_entries (sample_block None))) nilNode with Ret n => n | Panic => nilNode end.
Definition sample_hashed_values : list (list Z) :=
  rlp (header_val (b_header (sample_block None))) :: rlp (VList (map header_val sample_uncles)) :: node_encodings sample_hash (erase sample_list_trie).
Definition block_known (e : list Z) : Prop := In e ([0x80] :: sample_hashed_values).

Lemma block_known_laws : hash_laws sample_hash block_known.
Proof. apply sample_hash_laws. vm_compute. reflexivity. Qed.

Lemma sample_list_known : list_known sample_hash block_known (tx_entries (sample_block None)).
Proof.
  intros p Hm. destruct (derive_loop_spec sample_hash block_known block_known_laws (tx_entries (sample_block None)) 0 nilNode _ ltac:(lia) ltac:(vm_compute; discriminate) (empty_contents sample_hash no_database))
    as (root & E & q & Hst & Hq). assert (Er : sample_list_trie = root) by (unfold sample_list_trie; rewrite E; reflexivity). rewrite <- Er in Hst.
  rewrite (of_map_unique p q _ _ Hm Hq (fun _ _ => eq_refl)), (resolves_erase _ _ q _ Hst ltac:(vm_compute; reflexivity)). apply knowns_encodings. intros e He. do 3 right. exact He.
Qed.

Lemma sample_block_sealed from : block_sealed sample_hash block_known (sample_block from).
Proof.
  constructor; [apply sample_block_ok|vm_compute; reflexivity|unfold tx_entries; repeat (apply Forall_cons; [vm_compute; discriminate|]); apply Forall_nil|vm_compute; reflexivity|vm_compute; reflexivity|].
  split; [right; left; reflexivity|]. split; [right; right; left; reflexivity|exact sample_list_known].
Qed.

