(* ===== verification/VmTheorems.v ===== *)
(** * Theorems about the EVM

    The interpreter with the precompiled contracts of [Precompiles.v]; each
    theorem is for any state database, or for one that keeps the laws named. *)

From Stdlib Require Import ZArith List Lia Bool.
From S2P Require Import Prelude GoBig VmCommon CommonTypes Params VmContract Precompiles VmMemory VmOpcodes VmState VmGas VmOps VmJumpTable VmInterp VmHoare VmTermination VmEvolve CoreState CoreEvm VmSample VmLedger StateLaws StateSpec.
Import ListNotations.
Local Open Scope Z_scope.

(** ** Prices of the precompiled contracts *)

Section prices.
Variable Keccak256 : list Z -> list Z.
Variable Ecrecover : list Z -> list Z -> option (list Z).
Variable ripemd160 : list Z -> list Z.

Lemma bigModExp_gas_nonneg input g : bigModExp_RequiredGas input = Ret g -> 0 <= g.
Proof.
  unfold bigModExp_RequiredGas. intros H. repeat (apply obind_ret in H; destruct H as (? & _ & H)).
  destruct (_ >? 64); injection H as <-; [vm_compute; congruence | apply u64_range].
Qed.

Lemma homestead_prices a p input g :
  PrecompiledContractsHomestead Keccak256 Ecrecover ripemd160 a = Some p -> RequiredGas p input = Ret g -> 0 <= g.
Proof.
  unfold PrecompiledContractsHomestead. repeat (destruct (a =? _); [intros [= <-]|]); cbn [RequiredGas]; try discriminate;
    intros [= <-]; try apply u64_range; vm_compute; congruence.
Qed.

Lemma metropolis_prices a p input g :
  PrecompiledContractsMetropolis Keccak256 Ecrecover ripemd160 a = Some p -> RequiredGas p input = Ret g -> 0 <= g.
Proof.
  unfold PrecompiledContractsMetropolis. repeat (destruct (a =? _); [intros [= <-]|]); try discriminate;
    try apply bigModExp_gas_nonneg; intros [= <-]; try apply u64_range; vm_compute; congruence.
Qed.

End prices.

Lemma NewInterpreter_metered {S : Type} {DB : StateDB S} Keccak256 (env : Env S) :
  metered_set (JumpTable (NewInterpreter Keccak256 env [])) /\ table_ok (in_gasTable (NewInterpreter Keccak256 env [])).
Proof.
  split; [|apply gasTable_ok]. unfold NewInterpreter. cbn [JumpTable lookup valid zero_operation negb]. destruct (IsMetropolis _ _); [apply metropolis_metered|].
  destruct (IsHomestead _ _); [apply homestead_metered | apply frontier_metered].
Qed.

(** ** Termination *)

Section machine.
Context {S : Type} {DB : StateDB S}.
Variable Keccak256 : list Z -> list Z.
Variable Ecrecover : list Z -> list Z -> option (list Z).
Variable ripemd160 : list Z -> list Z.

(** The machine of a configuration: its precompiled contracts and its loop. *)
Definition homestead_contracts : Address -> option PrecompiledContract :=
  PrecompiledContractsHomestead Keccak256 Ecrecover ripemd160.
Definition metropolis_contracts : Address -> option PrecompiledContract :=
  PrecompiledContractsMetropolis Keccak256 Ecrecover ripemd160.
Definition machine_loop (env : Env S) (fuel : nat) : Frame S -> run (Frame S * run_result) :=
  loop Keccak256 homestead_contracts metropolis_contracts env (NewInterpreter Keccak256 env []) fuel.
Definition machine_calls (env : Env S) (fuel : nat) : CallOps S :=
  call_ops Keccak256 homestead_contracts metropolis_contracts env (machine_loop env fuel).

Lemma machine_metered env fuel : DisableGasMetering (vmConfig env) = false ->
  calls_metered (Z.of_nat fuel) (machine_calls env fuel).
Proof.
  intros Hm. destruct (NewInterpreter_metered Keccak256 env) as [H1 H2]. apply call_ops_metered.
  - apply homestead_prices.
  - apply metropolis_prices.
  - intros f Hf. apply loop_metered; auto; [apply homestead_prices | apply metropolis_prices].
Qed.

(** The fuel did not end, and no more gas is left than was given. *)
Definition ends_within {A : Type} (gas : Z) (rest : A -> Z) (x : run A) : Prop :=
  x <> Fuel /\ forall a, x = Done a -> 0 <= rest a <= gas.

Lemma metered_ends {A : Type} n gas (rest : A -> Z) x : gas < n -> metered n gas rest x -> ends_within gas rest x.
Proof.
  intros Hg. unfold ends_within. destruct x as [a|p|]; cbn; intros H; split; try discriminate; try lia.
  intros a' [= <-]. exact H.
Qed.

(** C31: Termination: with gas metering on, for every code, state database and block configuration, each of Call,
    CallCode, DelegateCall, StaticCall and Create ends (fuel of one instruction more than the gas is enough for the
    whole tree of calls), and returns at most the gas it was given. *)
Theorem evm_terminates (env : Env S) fuel caller addr input gas value e :
  DisableGasMetering (vmConfig env) = false -> is_u64 gas -> gas < Z.of_nat fuel ->
  let ops := machine_calls env fuel in
  ends_within gas left_of (c_Call ops caller addr input gas value e) /\
  ends_within gas left_of (c_CallCode ops caller addr input gas value e) /\
  ends_within gas left_of (c_DelegateCall ops caller addr input gas e) /\
  ends_within gas left_of (c_StaticCall ops caller addr input gas e) /\
  ends_within gas create_left (c_Create ops caller input gas value e).
Proof.
  intros Hm Hg Hf ops. pose proof (machine_metered env fuel Hm) as H. fold ops in H.
  split; [|split; [|split; [|split]]]; (eapply metered_ends; [exact Hf|]); apply H; exact Hg.
Qed.

End machine.

Lemma evm_terminates_witness :
  ends_within 100000 left_of
    (c_Call (machine_calls Sample.hash Sample.no_recover Sample.no_ripemd Sample.sample_env (Z.to_nat 100001))
       (AccountRef 1) 100 [] 100000 7 (Sample.evm_with Sample.add_code)).
Proof.
  assert (H : 100000 < Z.of_nat (Z.to_nat 100001)) by (rewrite Z2Nat.id; lia).
  exact (proj1 (evm_terminates Sample.hash Sample.no_recover Sample.no_ripemd Sample.sample_env (Z.to_nat 100001)
    (AccountRef 1) 100 [] 100000 7 (Sample.evm_with Sample.add_code) eq_refl ltac:(split; vm_compute; congruence) H)).
Defined.

(** * Theorems about calls on the state of package [core/state]

    The machine of [VmTheorems.v] on the database of [CoreState.v], with the
    transfers of [core/evm.go]: what a failed call, a failed creation and a static
    call leave of the state. *)

Section calls.
Context {T E : Type} {HT : Trie T E}.
Variable Keccak256 : list Z -> list Z.
Variable Ecrecover : list Z -> list Z -> option (list Z).
Variable ripemd160 : list Z -> list Z.
Variable db : Database T E.
Variable decodeAccount : list Z -> option Account.
#[local] Instance state_db : StateDB (@State T E) := state_StateDB Keccak256 db decodeAccount.
#[local] Instance state_eq_equivalence : RelationClasses.Equivalence (state_eq Keccak256 db decodeAccount) :=
  state_equivalence Keccak256 db decodeAccount.

Variable env : Env (@State T E).
(** The context is the one of [NewEVMContext]. *)
Definition core_context : Prop := CanTransfer (context env) = core_CanTransfer /\ Transfer (context env) = core_Transfer.
(** The database gives the size of the code it stores. *)
Definition sizes_agree : Prop := forall a h, fst (ContractCodeSize db a h) = len (fst (ContractCode db a h)).
(** The storage trie of the zero root has no entries. *)
Definition empty_root : Prop := forall a t k, OpenStorageTrie db a 0 = Ok t -> TryGet t k = Ok [].

Variable fuel : nat.
Let ops := machine_calls Keccak256 Ecrecover ripemd160 env fuel.

Section context.
Hypothesis Hcontext : core_context.

Lemma reads_CanTransfer a v s : dbreads s (fst (CanTransfer (context env) a v s)).
Proof using Hcontext. rewrite (proj1 Hcontext). apply core_CanTransfer_reads. Qed.

Lemma evolves_Transfer ro a b v s : (ro = true -> v = 0) -> evolves ro s (Transfer (context env) a b v s).
Proof using Hcontext. rewrite (proj2 Hcontext). apply core_Transfer_evolves. Qed.

Lemma machine_evolves ro f :
  match machine_loop Keccak256 Ecrecover ripemd160 env fuel f with Done (f', _) => frame_rel env ro f f' | Crash _ | Fuel => True end.
Proof using Hcontext.
  apply loop_evolves.
  - intros ro'. apply NewInterpreter_evolves.
  - intros _. apply NewInterpreter_call.
  - apply gasTable_ok.
  - apply reads_CanTransfer.
  - apply evolves_Transfer.
Qed.

Let hc := homestead_contracts Keccak256 Ecrecover ripemd160.
Let mc := metropolis_contracts Keccak256 Ecrecover ripemd160.

Lemma machine_Call ro caller addr input gas value e e' r : ro_of env e = ro -> (ro = true -> value = 0) ->
  c_Call ops caller addr input gas value e = Done (e', r) -> call_post ro (dbreads (statedb e)) e e' (call_err r).
Proof using Hcontext.
  intros Hro Hv H. pose proof (Call_post env hc mc reads_CanTransfer evolves_Transfer _ machine_evolves ro caller addr input gas value e Hro Hv) as P.
  unfold ops in H. cbn in H. unfold hc, mc in P. rewrite H in P. exact P.
Qed.

Lemma machine_CallCode ro caller addr input gas value e e' r : ro_of env e = ro ->
  c_CallCode ops caller addr input gas value e = Done (e', r) -> call_post ro (dbreads (statedb e)) e e' (call_err r).
Proof using Hcontext.
  intros Hro H. pose proof (CallCode_post env hc mc reads_CanTransfer _ machine_evolves ro caller addr input gas value e Hro) as P.
  unfold ops in H. cbn in H. unfold hc, mc in P. rewrite H in P. exact P.
Qed.

Lemma machine_DelegateCall ro caller addr input gas e e' r : ro_of env e = ro ->
  c_DelegateCall ops caller addr input gas e = Done (e', r) -> call_post ro (dbreads (statedb e)) e e' (call_err r).
Proof using Hcontext.
  intros Hro H. pose proof (DelegateCall_post env hc mc _ machine_evolves ro caller addr input gas e Hro) as P.
  unfold ops in H. cbn in H. unfold hc, mc in P. rewrite H in P. exact P.
Qed.

Lemma machine_StaticCall caller addr input gas e e' r : c_StaticCall ops caller addr input gas e = Done (e', r) ->
  call_post (r_IsMetropolis (chainRules env)) (dbreads (statedb e)) e e' (call_err r).
Proof using Hcontext.
  intros H. pose proof (StaticCall_post env hc mc _ machine_evolves caller addr input gas e) as P.
  unfold ops in H. cbn in H. unfold hc, mc in P. rewrite H in P. exact P.
Qed.

Lemma machine_Create caller code gas value e e' a r : ro_of env e = false ->
  c_Create ops caller code gas value e = Done (e', (a, r)) ->
  exists ex, (ex = None -> create_err env (call_err r) = None) /\
    call_post false (create_begun (ref_Address caller) (statedb e)) e e' ex.
Proof using Hcontext.
  intros Hro H. pose proof (Create_post env Keccak256 hc mc reads_CanTransfer evolves_Transfer _ machine_evolves caller code gas value e Hro) as P.
  unfold ops in H. cbn in H. unfold hc, mc in P. rewrite H in P. exact P.
Qed.

End context.

(** A call came back with an error, and the machine then. *)
Definition failed {A : Type} (err : A -> option vmErr) (x : run (EVM (@State T E) * A)) (e' : EVM (@State T E)) : Prop :=
  exists r er, x = Done (e', r) /\ err r = Some er.

Lemma not_ro e : readOnly e = false -> ro_of env e = false.
Proof. intros H. unfold ro_of. rewrite H. apply andb_false_r. Qed.

(** C10: Atomicity of calls: whatever the code, when Call, CallCode, DelegateCall or StaticCall returns an error, every
    query of the state (balances, nonces, code, storage, suicides, refund, logs, preimages) answers as before the call,
    however deep the calls it made were and whichever of them had succeeded. *)
Theorem failed_call_restores caller addr input gas value e e' :
  core_context -> sizes_agree -> state_ok decodeAccount (statedb e) -> readOnly e = false ->
  failed call_err (c_Call ops caller addr input gas value e) e' \/
  failed call_err (c_CallCode ops caller addr input gas value e) e' \/
  failed call_err (c_DelegateCall ops caller addr input gas e) e' \/
  failed call_err (c_StaticCall ops caller addr input gas e) e' ->
  answers_same Keccak256 db decodeAccount (statedb e) (statedb e').
Proof.
  intros Hc Hsize Hok Hro%not_ro H.
  assert (Hpost : exists ro er, call_post ro (dbreads (statedb e)) e e' (Some er)).
  { destruct H as [(r & er & H & Her)|[(r & er & H & Her)|[(r & er & H & Her)|(r & er & H & Her)]]]; eexists _, er; rewrite <- Her.
    - apply (machine_Call Hc false caller addr input gas value e e' r Hro); [discriminate|exact H].
    - apply (machine_CallCode Hc false caller addr input gas value e e' r Hro H).
    - apply (machine_DelegateCall Hc false caller addr input gas e e' r Hro H).
    - apply (machine_StaticCall Hc caller addr input gas e e' r H). }
  destruct Hpost as (ro & er & P). apply eq_answers.
  apply (call_post_same (L := state_SnapshotLaws Keccak256 db decodeAccount Hsize) ro e e' er P Hok).
Qed.

(** Atomicity of creations: when Create returns an error (before Homestead, another one than running out of gas
    for the code), every query answers as before, but for the nonce of the creator, which Create increases first. *)
Theorem failed_create_restores caller code gas value e e' :
  core_context -> sizes_agree -> state_ok decodeAccount (statedb e) -> readOnly e = false ->
  failed (fun r => create_err env (call_err (snd r))) (c_Create ops caller code gas value e) e' ->
  let a := ref_Address caller in
  answers_same Keccak256 db decodeAccount (statedb e) (statedb e') \/
  answers_same Keccak256 db decodeAccount (SetNonce a (u64 (snd (GetNonce a (statedb e)) + 1)) (statedb e)) (statedb e').
Proof.
  intros Hc Hsize Hok Hro%not_ro ([addr r] & er & H & Her) a. pose (L := state_SnapshotLaws Keccak256 db decodeAccount Hsize).
  destruct (machine_Create Hc caller code gas value e e' addr r Hro H) as (ex & Hex & _ & s1 & Hb & Hs).
  destruct (create_begun_eq Keccak256 db decodeAccount Hsize _ _ _ Hb Hok) as [H1 Hok1].
  assert (H2 : state_eq Keccak256 db decodeAccount s1 (statedb e')).
  { destruct Hs as [->|Hs]; [reflexivity|]. destruct ex as [x|]; [|cbn [snd] in Her; rewrite (Hex eq_refl) in Her; discriminate].
    apply (committed_same (L := L) _ _ _ _ Hs Hok1). }
  destruct H1 as [H1|H1]; [left|right]; apply eq_answers; (etransitivity; [symmetry; exact H1|exact H2]).
Qed.

(** C30: Static calls: under the Metropolis rules a StaticCall, failed or not, changes no balance, nonce, code, storage
    slot, suicide mark, refund or log, whatever contracts it runs; at most it adds accounts that are empty. *)
Theorem static_call_unchanged caller addr input gas e e' r :
  core_context -> sizes_agree -> empty_root -> state_ok decodeAccount (statedb e) -> r_IsMetropolis (chainRules env) = true ->
  c_StaticCall ops caller addr input gas e = Done (e', r) ->
  content_same Keccak256 db decodeAccount (statedb e) (statedb e').
Proof.
  intros Hc Hsize Hempty Hok Hm H. pose proof (machine_StaticCall Hc caller addr input gas e e' r H) as P. rewrite Hm in P.
  apply (unchanged_content _ _ _ Hempty).
  apply (call_post_unchanged (R := state_ReadOnlyLaws Keccak256 db decodeAccount Hsize) e e' _ P Hok).
Qed.

End calls.

(** The machine of the example. *)
Definition sample_calls (fuel : nat) : CallOps Sample.sample_state :=
  machine_calls Sample.hash Sample.no_recover Sample.no_ripemd Sample.sample_env fuel.

Lemma sample_core_context : core_context Sample.hash Sample.no_database (fun _ => None) Sample.sample_env.
Proof. split; reflexivity. Qed.

(** The code stores a word and fails. *)
Lemma failed_call_restores_witness :
  match c_Call (sample_calls 20) (AccountRef 1) 100 [] 100000 7 (Sample.evm_with Sample.failing_code) with
  | Done (e', (_, _, Some _)) =>
      answers_same Sample.hash Sample.no_database (fun _ => None) (Sample.state_with Sample.failing_code) (statedb e')
  | _ => False
  end.
Proof.
  destruct (c_Call (sample_calls 20) (AccountRef 1) 100 [] 100000 7 (Sample.evm_with Sample.failing_code))
    as [[e' [[out rest] [er|]]]|p|] eqn:H; [|vm_compute in H; discriminate H..].
  exact (failed_call_restores Sample.hash Sample.no_recover Sample.no_ripemd Sample.no_database (fun _ => None) Sample.sample_env 20
    (AccountRef 1) 100 [] 100000 7 (Sample.evm_with Sample.failing_code) e' sample_core_context sample_sizes
    (sample_ok Sample.failing_code) eq_refl (or_introl (ex_intro _ (out, rest, Some er) (ex_intro _ er (conj H eq_refl))))).
Defined.

(** Creating with the failing code as deployment code. *)
Lemma failed_create_restores_witness :
  let s := Sample.state_with [] in
  match c_Create (sample_calls 20) (AccountRef 1) Sample.failing_code 100000 7 (Sample.evm_with []) with
  | Done (e', (_, (_, _, Some _))) =>
      answers_same Sample.hash Sample.no_database (fun _ => None) s (statedb e') \/
      answers_same Sample.hash Sample.no_database (fun _ => None) (SetNonce 1 (u64 (snd (GetNonce 1 s) + 1)) s) (statedb e')
  | _ => False
  end.
Proof.
  intros s. destruct (c_Create (sample_calls 20) (AccountRef 1) Sample.failing_code 100000 7 (Sample.evm_with []))
    as [[e' [a [[out rest] [er|]]]]|p|] eqn:H; [|vm_compute in H; discriminate H..].
  exact (failed_create_restores Sample.hash Sample.no_recover Sample.no_ripemd Sample.no_database (fun _ => None) Sample.sample_env 20
    (AccountRef 1) Sample.failing_code 100000 7 (Sample.evm_with []) e' sample_core_context sample_sizes
    (sample_ok []) eq_refl (ex_intro _ (a, (out, rest, Some er)) (ex_intro _ er (conj H eq_refl)))).
Defined.

Lemma static_call_unchanged_witness :
  match c_StaticCall (sample_calls 20) (AccountRef 1) 100 [] 100000 (Sample.evm_with Sample.reading_code) with
  | Done (e', (_, _, None)) =>
      content_same Sample.hash Sample.no_database (fun _ => None) (Sample.state_with Sample.reading_code) (statedb e')
  | _ => False
  end.
Proof.
  destruct (c_StaticCall (sample_calls 20) (AccountRef 1) 100 [] 100000 (Sample.evm_with Sample.reading_code))
    as [[e' [[out rest] [er|]]]|p|] eqn:H; [vm_compute in H; discriminate H| |vm_compute in H; discriminate H..].
  exact (static_call_unchanged Sample.hash Sample.no_recover Sample.no_ripemd Sample.no_database (fun _ => None) Sample.sample_env 20
    (AccountRef 1) 100 [] 100000 (Sample.evm_with Sample.reading_code) e' (out, rest, None) sample_core_context sample_sizes
    sample_empty_root (sample_ok Sample.reading_code) eq_refl H).
Defined.
