(* ===== verification/VmSafeTheorems.v ===== *)
(** * Theorems: the machine on the state of package [core/state] does not panic

    Which panics a transaction can cause, and the conservation of Ether. *)

From Stdlib Require Import ZArith List Lia Bool.
From S2P Require Import Prelude GoBig ByteBuf Sha256 Bn256Group VmCommon CommonTypes Params VmContract Precompiles PrecompileTheorems PrecompileCurves.
From S2P Require Import VmMemory VmOpcodes VmState VmGas VmOps VmJumpTable VmInterp VmHoare VmTermination VmEvolve VmLedger.
From S2P Require Import VmLedger VmSafety VmSafeRun CoreState CoreEvm VmSample StateLaws StateSpec StateLedger VmTheorems.
Import ListNotations.
Local Open Scope Z_scope.

(** ** What the precompiled contracts return *)

Lemma LeftPadBytes_ok l n r : bytes_ok l -> LeftPadBytes l n = Ret r -> bytes_ok r.
Proof. intros H. rewrite LeftPadBytes_ret. intros [= <-]. apply bytes_ok_app. auto with go. Qed.

Lemma g1_encode_ok p : bytes_ok (g1_encode p).
Proof. unfold g1_encode. destruct p as [[x y]|]; apply words_bytes_ok. Qed.

(** Follow a computation to where it returns. *)
Ltac returned H :=
  repeat first
    [ discriminate H
    | match type of H with
      | obind ?x _ = Ret _ => let E := fresh "E" in destruct x eqn:E; cbn [obind] in H
      | (if ?b then _ else _) = Ret _ => destruct b
      | match ?x with _ => _ end = Ret _ => destruct x
      end ].

Section outputs.
Variable Keccak256 : list Z -> list Z.
Variable Ecrecover : list Z -> list Z -> option (list Z).
Variable ripemd160 : list Z -> list Z.
(** [crypto.Keccak256] and the digest of [golang.org/x/crypto/ripemd160] give bytes. *)
Definition digests : Prop := (forall l, bytes_ok (Keccak256 l) /\ len (Keccak256 l) = 32) /\ (forall l, bytes_ok (ripemd160 l)).
Hypothesis Hdigests : digests.

Lemma ecrecover_bytes input out : Run (ecrecover Keccak256 Ecrecover) input = Ret (Ok out) -> bytes_ok out.
Proof using Hdigests.
  cbn [ecrecover Run]. unfold ecrecover_Run. cbv zeta. intros H. returned H. injection H as <-. returned E.
  - injection E as <- _. constructor.
  - injection E as <- _. eapply LeftPadBytes_ok; [|eassumption]. eapply bytes_ok_slice; [|eassumption]. apply Hdigests.
  - injection E as <- _. constructor.
Qed.

Lemma bigModExp_bytes input out : bigModExp_Run input = Ret (Ok out) -> bytes_ok out.
Proof.
  unfold bigModExp_Run. cbv zeta. intros H. returned H; injection H as <-; [constructor|..].
  all: eapply LeftPadBytes_ok; [|eassumption]; try constructor. apply Bytes_ok.
Qed.

Lemma true32_ok : bytes_ok true32Byte /\ bytes_ok false32Byte.
Proof. split; [apply bytes_ok_app; split; [apply zeros_ok|repeat constructor; lia]|apply zeros_ok]. Qed.

Lemma bn256Pairing_bytes input out : bn256Pairing_Run input = Ret (Ok out) -> bytes_ok out.
Proof. unfold bn256Pairing_Run. intros H. returned H; injection H as <-; apply true32_ok. Qed.

Lemma zkpRangeProof_bytes input out : zkpRangeProof_Run input = Ret (Ok out) -> bytes_ok out.
Proof. unfold zkpRangeProof_Run. cbv zeta. intros H. returned H; injection H as <-; apply true32_ok. Qed.

Lemma metropolis_bytes a p input out : PrecompiledContractsMetropolis Keccak256 Ecrecover ripemd160 a = Some p -> slice_ok input ->
  Run p input = Ret (Ok out) -> bytes_ok out.
Proof using Hdigests.
  intros Hp [Hb Hl]. assert (Hl' : len input < 2 ^ 63) by lia. destruct (bn256_curve_spec input Hb Hl') as [EA EM]. revert Hp.
  unfold PrecompiledContractsMetropolis. repeat (destruct (a =? _); [intros [= <-]|]); [..|discriminate].
  - apply ecrecover_bytes.
  - intros [= <-]. apply Sum256_ok.
  - cbn [ripemd160hash Run]. unfold ripemd160hash_Run. intros H. returned H. injection H as <-. eapply LeftPadBytes_ok; [|eassumption]. apply Hdigests.
  - intros [= <-]. exact Hb.
  - apply bigModExp_bytes.
  - cbn [bn256Add Run]. rewrite EA. intros H. destruct (g1_decode _ _); [|discriminate]. destruct (g1_decode _ _); [|discriminate].
    injection H as <-. apply g1_encode_ok.
  - cbn [bn256ScalarMul Run]. rewrite EM. intros H. destruct (g1_decode _ _); [|discriminate]. injection H as <-. apply g1_encode_ok.
  - apply bn256Pairing_bytes.
  - apply zkpRangeProof_bytes.
Qed.

Lemma homestead_bytes a p input out : PrecompiledContractsHomestead Keccak256 Ecrecover ripemd160 a = Some p -> slice_ok input ->
  Run p input = Ret (Ok out) -> bytes_ok out.
Proof using Hdigests.
  intros Hp Hi. apply (metropolis_bytes a); [|exact Hi]. revert Hp. unfold PrecompiledContractsHomestead, PrecompiledContractsMetropolis.
  do 4 (destruct (a =? _); [exact (fun H => H)|]).
  destruct (Z.eqb_spec a (BytesToAddress [9])) as [->|]; [exact (fun H => H)|discriminate].
Qed.

End outputs.

(** ** The interpreter's tables *)

Lemma NewInterpreter_safe {S : Type} {DB : StateDB S} {L : SnapshotLaws S} {V : LedgerLaws S} Keccak256 (env : Env S) :
  (forall l, bytes_ok (Keccak256 l) /\ len (Keccak256 l) = 32) -> 0 <= GasPrice (context env) ->
  let interp := NewInterpreter Keccak256 env [] in
  (forall call, calls_safe call -> safe_set env call (JumpTable interp)) /\
  gas_safe_set env (JumpTable interp) /\ halts (lookup (JumpTable interp) STOP) = true.
Proof.
  intros HK Hp. unfold NewInterpreter. cbn [JumpTable lookup valid zero_operation negb].
  destruct (IsMetropolis _ _); [|destruct (IsHomestead _ _)]; (split; [intros call Hc|split; [|vm_compute; reflexivity]]).
  - apply metropolis_safe; assumption.
  - apply metropolis_gas_safe.
  - apply homestead_safe; assumption.
  - apply homestead_gas_safe.
  - apply frontier_safe; assumption.
  - apply frontier_gas_safe.
Qed.

(** ** The machine *)

Section machine.
Context {T E : Type} {HT : Trie T E}.
Variable Keccak256 : list Z -> list Z.
Variable Ecrecover : list Z -> list Z -> option (list Z).
Variable ripemd160 : list Z -> list Z.
Variable db : Database T E.
Variable decodeAccount : list Z -> option Account.
#[local] Instance safe_db : StateDB (@State T E) := state_StateDB Keccak256 db decodeAccount.
Variable env : Env (@State T E).
Let world_of : @State T E -> world := view Keccak256 db decodeAccount.

(** The machine of [NewEVMContext], with gas metering, on a database that agrees
    with itself, and hash functions that return bytes. *)
Record machine_ok : Prop := {
  mok_context : core_context Keccak256 db decodeAccount env;
  mok_sizes : sizes_agree db;
  mok_root : empty_root db;
  mok_digests : digests Keccak256 ripemd160;
  mok_price : 0 <= GasPrice (context env);
  mok_meter : DisableGasMetering (vmConfig env) = false }.

(** A state with balances that are not negative and code that fits in memory. *)
Definition sound (s : @State T E) : Prop := state_ok decodeAccount s /\ world_ok (world_of s) /\ 0 <= refund s.

Variable fuel : nat.
Let ops := machine_calls Keccak256 Ecrecover ripemd160 env fuel.

Section safe.
Hypothesis Hok : machine_ok.
#[local] Instance Lm : SnapshotLaws (@State T E) := state_SnapshotLaws Keccak256 db decodeAccount (mok_sizes Hok).
#[local] Instance Vm : LedgerLaws (@State T E) := state_LedgerLaws Keccak256 db decodeAccount (mok_sizes Hok) (mok_root Hok).

Lemma core_can a v s : dbreads s (fst (CanTransfer (context env) a v s)) /\ (snd (CanTransfer (context env) a v s) = true -> v <= snd (GetBalance a s)).
Proof using Hok.
  rewrite (proj1 (mok_context Hok)). split; [apply core_CanTransfer_reads|]. unfold core_CanTransfer. destruct (GetBalance a s) as [s' b].
  cbn [snd]. rewrite Z.geb_leb. apply Z.leb_le.
Qed.

Lemma machine_loop_safe n s0 f : healthy s0 -> frame_ok s0 f ->
  match machine_loop Keccak256 Ecrecover ripemd160 env n f with Done (f', r) => ended s0 f' r | Crash p => tolerated p | Fuel => True end.
Proof using Hok.
  destruct (NewInterpreter_safe Keccak256 env (proj1 (mok_digests Hok)) (mok_price Hok)) as (H1 & H2 & H3).
  apply loop_safe; auto.
  - apply (proj1 (mok_digests Hok)).
  - apply gasTable_ok.
  - apply (mok_meter Hok).
  - intros a p i out. apply (homestead_bytes _ _ _ (mok_digests Hok)).
  - intros a p i out. apply (metropolis_bytes _ _ _ (mok_digests Hok)).
  - apply core_can.
  - intros a b v s. rewrite (proj2 (mok_context Hok)). reflexivity.
Qed.

Lemma machine_calls_safe : calls_safe ops.
Proof using Hok.
  apply call_ops_safe; auto.
  - apply (proj1 (mok_digests Hok)).
  - intros a p i out. apply (homestead_bytes _ _ _ (mok_digests Hok)).
  - intros a p i out. apply (metropolis_bytes _ _ _ (mok_digests Hok)).
  - apply core_can.
  - intros a b v s. rewrite (proj2 (mok_context Hok)). reflexivity.
  - apply machine_loop_safe.
Qed.

End safe.

(** A run that came back, or crashed in one of the three places. *)
Definition no_other_panic {A : Type} (x : run A) : Prop := match x with Done _ => True | Crash p => tolerated p | Fuel => False end.

Lemma evm_start (e : EVM (@State T E)) : bytes_ok (returnData e) -> evm_ok (statedb e) e.
Proof. intros H. split; [apply lev_refl|exact H]. Qed.

(** C6: Safety: with gas metering on, whatever code runs and however deep it calls, Call, CallCode, DelegateCall,
    StaticCall and Create never index a stack, memory, code or return buffer out of range, never divide by zero, never
    use a nil value and never fail to revert; a panic can only come from a precompiled contract, from the operand read
    of enforceRestrictions, or from jump destinations cached for another code of the same hash. *)
Theorem evm_no_other_panic caller addr input gas value e :
  machine_ok -> sound (statedb e) -> bytes_ok (returnData e) -> slice_ok input -> is_u64 gas -> gas < Z.of_nat fuel -> 0 <= value ->
  no_other_panic (c_Call ops caller addr input gas value e) /\
  no_other_panic (c_CallCode ops caller addr input gas value e) /\
  (parent_ok caller -> no_other_panic (c_DelegateCall ops caller addr input gas e)) /\
  no_other_panic (c_StaticCall ops caller addr input gas e) /\
  no_other_panic (c_Create ops caller input gas value e).
Proof.
  intros Hok Hs Hr Hi Hg Hf Hv. pose proof (machine_calls_safe Hok) as [C1 C2 C3 C4 C5]. pose proof (evm_start e Hr) as He.
  destruct (machine_metered Keccak256 Ecrecover ripemd160 env fuel (mok_meter Hok)) as [M1 M2 M3 M4 M5]. fold ops in M1, M2, M3, M4, M5.
  assert (0 <= gas) by apply Hg.
  assert (R : forall x, metered (Z.of_nat fuel) gas left_of x -> result_ok (statedb e) x -> no_other_panic x).
  { intros x Hm Hx. destruct x as [a|p|]; cbn in *; auto. lia. }
  split; [|split; [|split; [|split]]]; try (apply R; auto; fail).
  - intros Hp. apply R; auto.
  - specialize (M5 caller input gas value e Hg). specialize (C5 (statedb e) e caller input gas value Hs He Hi H Hv).
    destruct (c_Create _ _ _ _ _ _) as [a|p|]; cbn in *; auto. lia.
Qed.

(** One of the methods returned with the machine [e']. *)
Definition came_back caller addr input gas value e e' : Prop :=
  (exists r, c_Call ops caller addr input gas value e = Done (e', r)) \/
  (exists r, c_CallCode ops caller addr input gas value e = Done (e', r)) \/
  (parent_ok caller /\ exists r, c_DelegateCall ops caller addr input gas e = Done (e', r)) \/
  (exists r, c_StaticCall ops caller addr input gas e = Done (e', r)) \/
  (exists r, c_Create ops caller input gas value e = Done (e', r)).


(** Invariant of the interpreter: from a frame within its bounds (operands not negative, memory below the limit of
    the gas formula, pc next to the code) a step goes on with such a frame and at most 1024 operands, or ends the run
    with bytes as output, or crashes in one of the three places; the operations need no more operands than
    validateStack asked for and stay within the memory that Resize made. *)
Theorem step_keeps_invariant s0 f : machine_ok -> sound s0 -> frame_ok s0 f ->
  step_ok s0 (step env (NewInterpreter Keccak256 env []) ops f).
Proof.
  intros Hok Hs Hf. destruct (NewInterpreter_safe (L := Lm Hok) (V := Vm Hok) Keccak256 env (proj1 (mok_digests Hok)) (mok_price Hok)) as (H1 & H2 & H3).
  apply (step_safe (L := Lm Hok) (V := Vm Hok)); auto; [apply gasTable_ok|apply (mok_meter Hok)|apply (machine_calls_safe Hok)].
Qed.

End machine.

(** ** The example *)

Lemma sample_digests : digests Sample.hash Sample.no_ripemd.
Proof. split; intros l; [split; [apply be_bytes_ok|apply be_bytes_len]|apply zeros_ok]. Qed.

Lemma sample_machine : machine_ok Sample.hash Sample.no_ripemd Sample.no_database (fun _ => None) Sample.sample_env.
Proof.
  split; [exact sample_core_context|exact sample_sizes|exact sample_empty_root|exact sample_digests|vm_compute; congruence|reflexivity].
Qed.

Lemma sample_sound code : slice_ok code -> sound Sample.hash Sample.no_database (fun _ => None) (Sample.state_with code).
Proof.
  intros Hc. split; [apply sample_ok|]. set (v := view Sample.hash Sample.no_database (fun _ => None)).
  assert (W0 : wf (fun _ => None) (New tt : Sample.sample_state)) by apply New_ok.
  assert (H0 : world_ok (v (New tt))) by (intros a; split; [vm_compute; congruence|split; [constructor|reflexivity]]).
  assert (W1 : wf (fun _ => None) (AddBalance 1 1000 (New tt : Sample.sample_state))).
  { apply (wf_after Sample.hash Sample.no_database (fun _ => None) (New tt)), AddBalance_steps, W0. }
  split; [|vm_compute; discriminate]. apply (wstep_ok (v (AddBalance 1 1000 (New tt)))).
  - apply (w_code _ _ 100 code Hc), SetCode_view; [exact sample_sizes|exact sample_empty_root|exact W1].
  - assert (Hv : world_eq (v (AddBalance 1 1000 (New tt))) (at_account 1 (add_balance 1000) (v (New tt)))) by (apply AddBalance_view; [exact sample_empty_root|exact W0]).
    intros a. destruct (Hv a) as (A & _ & C & _). rewrite A, C. pose proof (H0 a) as [B1 B2]. unfold at_account.
    destruct (1 =? a); [|auto]. split; [|exact B2]. cbn [v_balance add_balance]. lia.
Qed.

Lemma add_code_ok : slice_ok Sample.add_code.
Proof. split; [repeat constructor; discriminate|reflexivity]. Qed.

Lemma evm_no_other_panic_witness :
  no_other_panic (c_Call (machine_calls Sample.hash Sample.no_recover Sample.no_ripemd Sample.sample_env (Z.to_nat 100001))
    (AccountRef 1) 100 [] 100000 7 (Sample.evm_with Sample.add_code)).
Proof.
  assert (H : 100000 < Z.of_nat (Z.to_nat 100001)) by (rewrite Z2Nat.id; lia).
  exact (proj1 (evm_no_other_panic Sample.hash Sample.no_recover Sample.no_ripemd Sample.no_database (fun _ => None) Sample.sample_env
    (Z.to_nat 100001) (AccountRef 1) 100 [] 100000 7 (Sample.evm_with Sample.add_code) sample_machine (sample_sound _ add_code_ok)
    bytes_ok_nil slice_ok_nil ltac:(split; vm_compute; congruence) H ltac:(discriminate))).
Defined.


(** At the beginning of the code, with a sum to do. *)
Definition sample_frame : Frame Sample.sample_state :=
  mkFrame 4 (Sample.evm_with Sample.add_code)
    (SetCallCode (NewContract (AccountRef 1) (AccountRef 100) (Some 0) 100000) 100 0 Sample.add_code) NewMemory [3; 2].

Lemma step_keeps_invariant_witness :
  step_ok (Sample.state_with Sample.add_code) (step Sample.sample_env Sample.interp (sample_calls 20) sample_frame).
Proof.
  assert (Hf : frame_ok (Sample.state_with Sample.add_code) sample_frame).
  { split; [exact (evm_start Sample.hash Sample.no_database (fun _ => None) (Sample.evm_with Sample.add_code) bytes_ok_nil)|apply SetCallCode_ok; [apply NewContract_ok; lia|apply add_code_ok]|apply bytes_ok_nil
      |discriminate|repeat constructor; discriminate|split; vm_compute; discriminate]. }
  exact (step_keeps_invariant Sample.hash Sample.no_recover Sample.no_ripemd Sample.no_database (fun _ => None) Sample.sample_env 20
    (Sample.state_with Sample.add_code) sample_frame sample_machine (sample_sound _ add_code_ok) Hf).
Defined.
