(* ===== verification/TransitionTheorems.v ===== *)
(** * Theorems: the transition of a message on the state of package [core/state]

    [StateTransition.v] over the machine of [VmTheorems.v] and the database of
    [CoreState.v]: what is checked before a message runs, what it costs and who is
    paid, and that Ether and gas are accounted for on every path. *)

From Stdlib Require Import ZArith List Lia Bool.
From S2P Require Import Prelude GoBig ByteBuf VmCommon CommonTypes Params VmContract Precompiles.
From S2P Require Import VmMemory VmOpcodes VmState VmGas VmOps VmJumpTable VmInterp VmHoare VmTermination VmEvolve VmLedger.
From S2P Require Import VmLedger VmSafety VmSafeRun CoreState CoreEvm VmSample StateLaws StateSpec StateLedger VmTheorems VmSafeTheorems StateTransition.
Import ListNotations.
Local Open Scope Z_scope.

(** ** Intrinsic gas *)

Lemma count_nonzero_bounds data : forall nz, nz <= count_nonzero data nz <= nz + len data.
Proof.
  induction data as [|b data IH]; intros nz; cbn [count_nonzero]; [unfold len; cbn; lia|].
  rewrite len_cons. destruct (negb (b =? 0)); [specialize (IH (nz + 1))|specialize (IH nz)]; lia.
Qed.

Lemma IntrinsicGas_least data cc hs : TxGas <= IntrinsicGas data cc hs.
Proof.
  unfold IntrinsicGas. pose proof (count_nonzero_bounds data 0). pose proof (len_nonneg data).
  unfold TxGas, TxGasContractCreation, TxDataNonZeroGas, TxDataZeroGas. rewrite Z.gtb_ltb.
  destruct (cc && hs), (0 <? len data); lia.
Qed.

Lemma BigMin_min x y : BigMin x y = Z.min x y.
Proof. unfold BigMin. rewrite Z.gtb_ltb. destruct (Z.ltb_spec y x); lia. Qed.

Lemma balance_ok w w' a v : world_eq w' (at_account a (add_balance v) w) -> world_ok w -> 0 <= v_balance (w a) + v -> world_ok w'.
Proof.
  intros H Hw Hv b. destruct (H b) as (A & _ & C & _). rewrite A, C. pose proof (Hw b) as [Hb1 Hb2].
  unfold at_account. destruct (Z.eqb_spec a b) as [<-|]; auto.
Qed.

Section transition.
Context {T E : Type} {HT : Trie T E}.
Variable Keccak256 : list Z -> list Z.
Variable Ecrecover : list Z -> list Z -> option (list Z).
Variable ripemd160 : list Z -> list Z.
Variable db : Database T E.
Variable decodeAccount : list Z -> option Account.
#[local] Instance tx_db : StateDB (@State T E) := state_StateDB Keccak256 db decodeAccount.
Variable env : Env (@State T E).
Variable fuel : nat.
Let world_of : @State T E -> world := view Keccak256 db decodeAccount.
Let ops := machine_calls Keccak256 Ecrecover ripemd160 env fuel.
Abbreviation St := (@State T E).
Abbreviation Tx := (StateTransition St).
Abbreviation machine := (machine_ok Keccak256 ripemd160 db decodeAccount env).
Abbreviation sound := (VmSafeTheorems.sound Keccak256 db decodeAccount).

Section steps.
Hypothesis Hok : machine.
#[local] Instance Lt : SnapshotLaws St := state_SnapshotLaws Keccak256 db decodeAccount (mok_sizes _ _ _ _ _ Hok).
#[local] Instance Vt : LedgerLaws St := state_LedgerLaws Keccak256 db decodeAccount (mok_sizes _ _ _ _ _ Hok) (mok_root _ _ _ _ _ Hok).

(** ** Steps that keep the accounts *)

Definition quiet (s s' : St) : Prop := levolves s s' /\ world_eq (world_of s) (world_of s') /\ refund s = refund s'.

Lemma quiet_sound s s' : quiet s s' -> sound s -> sound s'.
Proof using Hok. intros [H _]. exact (levolves_healthy (L := Lt) (V := Vt) s s' H). Qed.

Lemma quiet_refl s : quiet s s.
Proof. split; [apply lev_refl|]. split; [intros a; reflexivity|reflexivity]. Qed.

Lemma quiet_trans s1 s2 s3 : quiet s1 s2 -> quiet s2 s3 -> quiet s1 s3.
Proof.
  intros (H1 & W1 & R1) (H2 & W2 & R2). split; [apply (levolves_trans _ _ _ H1 H2)|].
  split; [intros a; etransitivity; [apply W1|apply W2]|congruence].
Qed.

Lemma quiet_read s s' : dbread s s' -> sound s -> quiet s s'.
Proof using Hok.
  intros H [Hs _]. split; [apply (lev_step _ s'); [apply l_read, H|apply lev_refl]|].
  split; [apply (read_view Keccak256 db decodeAccount (mok_sizes _ _ _ _ _ Hok) s s' H Hs)|].
  apply (eq_refund _ _ _ _ _ (proj1 (read_same (SnapshotLaws := Lt) s s' H Hs))).
Qed.

(** Creating an account that does not exist shows nowhere. *)
Lemma quiet_create a s : sound s -> snd (Exist a s) = false -> quiet s (CreateAccount a s).
Proof using Hok.
  intros [[W _] _] Hx. assert (Hl : live decodeAccount s a = None).
  { revert Hx. change (snd (Exist a s)) with (snd (st_get decodeAccount false (fun _ => true) a s)). rewrite st_get_value.
    destruct (live decodeAccount s a); [discriminate|reflexivity]. }
  split; [apply (lev_step _ (CreateAccount a s)); [apply l_CreateAccount|apply lev_refl]|]. split.
  - intros b. etransitivity; [|symmetry; apply (CreateAccount_view Keccak256 db decodeAccount (mok_sizes _ _ _ _ _ Hok) (mok_root _ _ _ _ _ Hok) a s W)].
    unfold at_account. destruct (Z.eqb_spec a b) as [<-|]; [|reflexivity].
    pose proof (view_alive Keccak256 db decodeAccount s a) as Hv. rewrite Hl in Hv. destruct Hv as (A & B & C & D & F).
    unfold world_of. repeat split; auto.
  - pose proof (CreateAccount_eq Keccak256 db decodeAccount a s W) as He.
    assert (R : refund (CreateAccount a s) = refund (setStateObject s (with_balance (fresh Keccak256 a) (acc_Balance (data (object_at Keccak256 decodeAccount s a)))))) by apply (eq_refund _ _ _ _ _ He).
    rewrite R. reflexivity.
Qed.

Lemma ensure_quiet (st : Tx) a : sound (state st) -> exists s', ensure st a = set_state st s' /\ quiet (state st) s'.
Proof using Hok.
  intros Hs. unfold ensure, ask. assert (Hr : dbread (state st) (fst (Exist a (state st)))) by constructor.
  pose proof (quiet_read _ _ Hr Hs) as Hq.
  assert (Hx : snd (Exist a (fst (Exist a (state st)))) = snd (Exist a (state st))).
  { symmetry. apply (same_Exist _ _ _ _ _ (eq_answers _ _ _ _ _ (proj1 (read_same (SnapshotLaws := Lt) _ _ Hr (proj1 Hs))))). }
  destruct (Exist a (state st)) as [s1 found]. cbn [fst snd] in *. destruct found; cbn [negb].
  - exists s1. split; [reflexivity|exact Hq].
  - exists (CreateAccount a s1). split; [reflexivity|]. apply (quiet_trans _ s1); [exact Hq|].
    apply quiet_create; [apply (quiet_sound _ _ Hq Hs)|exact Hx].
Qed.

(** ** Paying *)

Lemma pay_spec a v s : sound s -> 0 <= v <= v_balance (world_of s a) ->
  sound (SubBalance a v s) /\ world_eq (world_of (SubBalance a v s)) (at_account a (add_balance (- v)) (world_of s)) /\
  refund (SubBalance a v s) = refund s.
Proof using Hok.
  intros (Hs & Hw & Hr) Hv. pose proof (proj1 Hs) as W.
  pose proof (SubBalance_view Keccak256 db decodeAccount (mok_root _ _ _ _ _ Hok) a v s W) as Hview.
  assert (R : refund (SubBalance a v s) = refund s) by apply (eq_refund _ _ _ _ _ (SubBalance_eq Keccak256 db decodeAccount a v s W)).
  split; [|split; [exact Hview|exact R]]. split; [|split; [|congruence]].
  - apply (steps_ok Keccak256 db decodeAccount s); [apply SubBalance_steps, W|exact Hs].
  - apply (balance_ok _ _ a _ Hview Hw). unfold world_of in Hv. lia.
Qed.

Lemma credit_spec a v s : sound s -> 0 <= v ->
  sound (AddBalance a v s) /\ world_eq (world_of (AddBalance a v s)) (at_account a (add_balance v) (world_of s)) /\
  refund (AddBalance a v s) = refund s.
Proof using Hok.
  intros (Hs & Hw & Hr) Hv. pose proof (proj1 Hs) as W.
  pose proof (AddBalance_view Keccak256 db decodeAccount (mok_root _ _ _ _ _ Hok) a v s W) as Hview.
  assert (R : refund (AddBalance a v s) = refund s) by apply (eq_refund _ _ _ _ _ (AddBalance_eq Keccak256 db decodeAccount a v s W)).
  split; [|split; [exact Hview|exact R]]. split; [|split; [|congruence]].
  - apply (steps_ok Keccak256 db decodeAccount s); [apply AddBalance_steps, W|exact Hs].
  - apply (balance_ok _ _ a _ Hview Hw). pose proof (proj1 (Hw a)). unfold world_of in *. lia.
Qed.

(** ** What is checked first *)

(** The outcome of the checks, read off the accounts. *)
Definition preCheck_error (w : world) (m : Message) (pool : Z) : option txErr :=
  let sender := w (msg_From m) in
  if msg_CheckNonce m && negb (v_nonce sender =? msg_Nonce m) then Some (invalid_nonce (msg_Nonce m) (v_nonce sender))
  else if 2 ^ 64 <=? msg_Gas m then Some (vm_error ErrOutOfGas)
  else if v_balance sender <? msg_Gas m * msg_GasPrice m then Some errInsufficientBalanceForGas
  else if pool <? msg_Gas m then Some ErrGasLimitReached
  else None.

Lemma quiet_ask {A : Type} (st : Tx) (q : St -> St * A) : dbread (state st) (fst (q (state st))) -> sound (state st) ->
  exists s', ask st q = (snd (q (state st)), set_state st s') /\ quiet (state st) s'.
Proof using Hok.
  intros Hr Hs. exists (fst (q (state st))). split; [unfold ask; destruct (q (state st)); reflexivity|apply (quiet_read _ _ Hr Hs)].
Qed.

(** The transition when gas has been bought in a state with the same accounts. *)
Definition bought (e : EVM St) (m : Message) (pool : Z) (s : St) : Tx :=
  mkTransition (pool - msg_Gas m) m (msg_Gas m) (msg_GasPrice m) (msg_Gas m) (msg_Value m) (msg_Data m)
    (set_statedb e (SubBalance (msg_From m) (msg_Gas m * msg_GasPrice m) s)).

Lemma buyGas_spec e m pool : sound (statedb e) -> 0 <= msg_Gas m ->
  let st := NewStateTransition e m pool in
  let err := snd (buyGas st) in
  let checks := mkMessage (msg_From m) (msg_To m) (msg_GasPrice m) (msg_Gas m) (msg_Value m) (msg_Nonce m) false (msg_Data m) in
  err = preCheck_error (world_of (statedb e)) checks pool /\
  exists s', quiet (statedb e) s' /\
    fst (buyGas st) = match err with None => bought e m pool s' | Some _ => set_state st s' end.
Proof using Hok.
  intros Hs Hg st. unfold buyGas, preCheck_error. cbn [msg_From msg_CheckNonce msg_Gas msg_GasPrice andb].
  change (msg st) with m. change (gasPrice st) with (msg_GasPrice m). rewrite Z.gtb_ltb.
  assert (Hb : (64 <? BitLen (msg_Gas m)) = (2 ^ 64 <=? msg_Gas m)).
  { pose proof (BitLen_gt_iff (msg_Gas m) 64 ltac:(lia)) as H. rewrite (Z.abs_eq _ Hg) in H.
    destruct (Z.ltb_spec 64 (BitLen (msg_Gas m))), (Z.leb_spec (2 ^ 64) (msg_Gas m)); auto; lia. }
  rewrite Hb. destruct (Z.leb_spec (2 ^ 64) (msg_Gas m)) as [Hl|Hl].
  { split; [reflexivity|]. exists (statedb e). split; [apply quiet_refl|]. unfold st. destruct e. reflexivity. }
  unfold from. change (msg st) with m. destruct (ensure_quiet st (msg_From m) Hs) as (s1 & E1 & Q1). rewrite E1.
  assert (Hs1 : sound s1) by apply (quiet_sound _ _ Q1 Hs). set (st1 := set_state st s1).
  destruct (quiet_ask st1 (GetBalance (msg_From m)) ltac:(constructor) Hs1) as (s2 & E2 & Q2). rewrite E2. change (state st1) with s1 in *.
  assert (Eb : snd (GetBalance (msg_From m) s1) = v_balance (world_of (statedb e) (msg_From m))).
  { symmetry. apply (proj1 (proj2 Q1)). }
  rewrite Eb. assert (Q : quiet (statedb e) s2) by (apply (quiet_trans _ s1); assumption).
  destruct (_ <? msg_Gas m * _); [split; [reflexivity|]; exists s2; split; [exact Q|reflexivity]|].
  unfold SubGas. change (gp (set_state st1 s2)) with pool.
  destruct (pool <? msg_Gas m); (split; [reflexivity|]; exists s2; split; [exact Q|]); [reflexivity|].
  cbn -[SubBalance u64 Uint64]. unfold bought, Uint64. rewrite (Z.abs_eq _ Hg), (u64_small (msg_Gas m)), Z.add_0_l, u64_small by lia. reflexivity.
Qed.

Lemma preCheck_error_eq w w' m pool : world_eq w w' -> preCheck_error w m pool = preCheck_error w' m pool.
Proof. intros H. destruct (H (msg_From m)) as (A & B & _). unfold preCheck_error. rewrite A, B. reflexivity. Qed.

Lemma preCheck_spec e m pool : sound (statedb e) -> 0 <= msg_Gas m ->
  let st := NewStateTransition e m pool in
  let err := preCheck_error (world_of (statedb e)) m pool in
  snd (preCheck st) = err /\
  exists s', quiet (statedb e) s' /\
    fst (preCheck st) = match err with None => bought e m pool s' | Some _ => set_state st s' end.
Proof using Hok.
  intros Hs Hg st err. unfold preCheck, from. change (msg st) with m.
  destruct (ensure_quiet st (msg_From m) Hs) as (s1 & E1 & Q1). rewrite E1. change (msg (set_state st s1)) with m.
  assert (Hs1 : sound s1) by apply (quiet_sound _ _ Q1 Hs). set (st1 := set_state st s1). change (state st) with (statedb e) in Q1.
  assert (B : forall s2, quiet (statedb e) s2 ->
    msg_CheckNonce m && negb (v_nonce (world_of (statedb e) (msg_From m)) =? msg_Nonce m) = false ->
    snd (buyGas (set_state st s2)) = err /\
    exists s', quiet (statedb e) s' /\
      fst (buyGas (set_state st s2)) = match err with None => bought e m pool s' | Some _ => set_state st s' end).
  { intros s2 Q Hn. destruct (buyGas_spec (set_statedb e s2) m pool (quiet_sound _ _ Q Hs) Hg) as (H1 & s3 & H2 & H3).
    change (NewStateTransition (set_statedb e s2) m pool) with (set_state st s2) in *.
    assert (Ee : err = preCheck_error (world_of (statedb (set_statedb e s2)))
      (mkMessage (msg_From m) (msg_To m) (msg_GasPrice m) (msg_Gas m) (msg_Value m) (msg_Nonce m) false (msg_Data m)) pool).
    { unfold err. rewrite <- (preCheck_error_eq (world_of (statedb e)) _ _ pool (proj1 (proj2 Q))).
      unfold preCheck_error. rewrite Hn. reflexivity. }
    split; [congruence|]. exists s3. split; [apply (quiet_trans _ s2); assumption|]. rewrite H3, H1, <- Ee. reflexivity. }
  destruct (msg_CheckNonce m) eqn:Ec; [|apply B; [exact Q1|reflexivity]].
  destruct (quiet_ask st1 (GetNonce (msg_From m)) ltac:(constructor) Hs1) as (s2 & E2 & Q2). rewrite E2. change (state st1) with s1 in *.
  assert (En : snd (GetNonce (msg_From m) s1) = v_nonce (world_of (statedb e) (msg_From m))) by (symmetry; apply (proj1 (proj2 Q1))).
  rewrite En. assert (Q : quiet (statedb e) s2) by (apply (quiet_trans _ s1); assumption).
  change (msg (set_state st1 s2)) with m. unfold err, preCheck_error in *. rewrite Ec in *. cbn [andb] in *.
  destruct (negb _); [split; [reflexivity|]; exists s2; split; [exact Q|reflexivity]|]. apply B; [exact Q|reflexivity].
Qed.

(** ** The run of the message *)

(** The transition before and after [evm.Create] or [evm.Call]. *)
Definition executed (st st' : Tx) : Prop :=
  exists e rest, st' = set_gas (set_tx_evm st e) rest /\ levolves (state st) (statedb e) /\ 0 <= rest <= gas st.

Lemma execute_spec (st : Tx) sender cc : sound (state st) -> bytes_ok (returnData (tx_evm st)) -> slice_ok (tx_data st) ->
  is_u64 (gas st) -> 0 <= value st ->
  match execute_message ops st sender cc with
  | Done (st', _) => executed st st'
  | Crash p => tolerated p
  | Fuel => Z.of_nat fuel <= gas st
  end.
Proof using Hok.
  intros Hs Hr Hd Hg Hv. pose proof (machine_calls_safe Keccak256 Ecrecover ripemd160 db decodeAccount env fuel Hok) as C.
  pose proof (machine_metered Keccak256 Ecrecover ripemd160 env fuel (mok_meter _ _ _ _ _ Hok)) as M. fold ops in C, M.
  assert (Hg0 : 0 <= gas st) by apply Hg. unfold execute_message. destruct cc.
  - pose proof (Create_safe ops C (state st) (tx_evm st) (AccountRef sender) (tx_data st) (gas st) (value st) Hs
      (Build_evm_ok _ _ (lev_refl _) Hr) Hd Hg0 Hv) as H1.
    pose proof (Create_metered _ ops M (AccountRef sender) (tx_data st) (gas st) (value st) (tx_evm st) Hg) as H2.
    destruct (c_Create ops _ _ _ _ _) as [[e [a [[ret rest] err]]]|p|]; cbn [rbind]; [|exact H1|exact H2].
    exists e, rest. split; [reflexivity|]. split; [apply H1|exact H2].
  - destruct (quiet_ask st (GetNonce sender) ltac:(constructor) Hs) as (s1 & E1 & Q1). rewrite E1. set (n := u64 _).
    assert (L2 : levolves (state st) (SetNonce sender n s1)) by (apply (levolves_snoc _ s1); [apply Q1|apply l_SetNonce]).
    assert (Hs2 : sound (SetNonce sender n s1)) by exact (levolves_healthy (L := Lt) (V := Vt) _ _ L2 Hs).
    set (st2 := on_state (set_state st s1) (SetNonce sender n)).
    assert (H : exists to s3, to_ st2 = (to, set_state st2 s3) /\ levolves (state st) s3).
    { unfold to_. destruct (msg_To (msg st2)) as [to|].
      - destruct (ensure_quiet st2 to Hs2) as (s3 & E3 & Q3). exists to, s3. rewrite E3. split; [reflexivity|].
        apply (levolves_trans _ _ _ L2), Q3.
      - exists 0, (SetNonce sender n s1). split; [reflexivity|exact L2]. }
    destruct H as (to & s3 & -> & L3). change (state st2) with (SetNonce sender n s1) in *.
    pose proof (Call_safe ops C (state st) (set_statedb (tx_evm st) s3) (AccountRef sender) to (tx_data st) (gas st) (value st) Hs
      (Build_evm_ok _ (set_statedb (tx_evm st) s3) L3 Hr) Hd Hg0 Hv) as H1.
    pose proof (Call_metered _ ops M (AccountRef sender) to (tx_data st) (gas st) (value st) (set_statedb (tx_evm st) s3) Hg) as H2.
    change (tx_evm (set_state st2 s3)) with (set_statedb (tx_evm st) s3). change (tx_data (set_state st2 s3)) with (tx_data st).
    change (gas (set_state st2 s3)) with (gas st). change (value (set_state st2 s3)) with (value st).
    destruct (c_Call ops _ _ _ _ _ _) as [[e [[ret rest] err]]|p|]; cbn [rbind]; [|exact H1|exact H2].
    exists e, rest. split; [reflexivity|]. split; [apply H1|exact H2].
Qed.

(** ** The refund *)

Lemma refundGas_spec (st : Tx) : sound (state st) -> is_u64 (initialGas st) -> 0 <= gas st <= initialGas st -> 0 <= gasPrice st ->
  let r := Z.min (gasUsed st / 2) (refund (state st)) in
  exists s', refundGas st = set_gp (set_gas (set_state st s') (gas st + r)) (gp st + (gas st + r)) /\ sound s' /\ 0 <= r <= gasUsed st / 2 /\
    world_eq (world_of s') (at_account (msg_From (msg st)) (add_balance ((gas st + r) * gasPrice st)) (world_of (state st))).
Proof using Hok.
  intros Hs Hi Hg Hp r. unfold is_u64 in Hi. unfold refundGas, from. set (f := msg_From (msg st)).
  destruct (ensure_quiet st f Hs) as (s1 & E1 & Q1). rewrite E1. pose proof (quiet_sound _ _ Q1 Hs) as Hs1.
  destruct (credit_spec f (gas st * gasPrice st) s1 Hs1 ltac:(apply Z.mul_nonneg_nonneg; lia)) as (Hs2 & W2 & R2). set (s2 := AddBalance f (gas st * gasPrice st) s1) in *.
  assert (R : GetRefund s2 = refund (state st)) by (change (GetRefund s2) with (refund s2); rewrite R2; symmetry; apply Q1).
  assert (Hr0 : 0 <= refund (state st)) by apply Hs.
  assert (Hu : 0 <= gasUsed st / 2 <= gasUsed st).
  { unfold gasUsed. split; [apply Z.div_pos; lia|apply Z.div_le_upper_bound; lia]. }
  assert (Hr : 0 <= r <= gasUsed st / 2) by (unfold r; lia).
  cbn -[BigMin AddBalance GetRefund WriteRefund u64 Uint64]. fold s2. rewrite R, BigMin_min.
  change (gasUsed (on_state (set_state st s1) (AddBalance f (gas st * gasPrice st)))) with (gasUsed st). fold r.
  assert (Eg : u64 (gas st + Uint64 r) = gas st + r).
  { unfold Uint64. rewrite Z.abs_eq, (u64_small r), u64_small by (unfold gasUsed in *; lia). reflexivity. }
  set (s3 := if gasUsed st / 2 >? refund (state st) then WriteRefund (r * gasPrice st) s2 else s2).
  assert (Hs3 : sound s3 /\ world_eq (world_of s3) (world_of s2)).
  { unfold s3. destruct (_ >? _); [|split; [exact Hs2|intros a; reflexivity]].
    assert (Hw : world_eq (world_of s2) (world_of (WriteRefund (r * gasPrice st) s2))).
    { apply (objects_view Keccak256 db decodeAccount). intros a. apply live_fields; reflexivity. }
    split; [|intros a; symmetry; apply Hw]. destruct Hs2 as (H1 & H2 & H3). split; [|split].
    - destruct H1 as [H1 H4]. split; [apply (wf_fields decodeAccount s2); auto|exact H4].
    - apply (world_ok_eq _ _ Hw H2).
    - apply Z.mul_nonneg_nonneg; lia. }
  destruct Hs3 as [Hs3 W3]. destruct (credit_spec f (r * gasPrice st) s3 Hs3 ltac:(apply Z.mul_nonneg_nonneg; lia)) as (Hs4 & W4 & R4).
  exists (AddBalance f (r * gasPrice st) s3). split; [|split; [exact Hs4|split; [exact Hr|]]].
  - rewrite Eg. unfold s3, AddGas. destruct (_ >? _); reflexivity.
  - intros a. etransitivity; [apply W4|]. etransitivity; [apply at_proper; [apply add_balance_proper|exact W3]|].
    etransitivity; [apply at_proper; [apply add_balance_proper|exact W2]|]. unfold at_account.
    pose proof (proj1 (proj2 Q1) a) as (A & B & C & D & F). destruct (f =? a); repeat split; cbn [add_balance v_balance v_nonce v_code v_storage v_suicided]; auto; rewrite A; lia.
Qed.

(** ** The whole transition *)

Abbreviation is_creation m := (match msg_To m with None => true | Some _ => false end).
Definition intrinsic (m : Message) : Z :=
  IntrinsicGas (msg_Data m) (is_creation m) (IsHomestead (chainConfig env) (Some (BlockNumber (context env)))).

Lemma intrinsic_least m : TxGas <= intrinsic m.
Proof. apply IntrinsicGas_least. Qed.

(** The transition before the run: gas is bought, the intrinsic gas used. *)
Definition ready (e : EVM St) (m : Message) (pool : Z) (s : St) : Tx :=
  mkTransition (pool - msg_Gas m) m (msg_Gas m - intrinsic m) (msg_GasPrice m) (msg_Gas m) (msg_Value m) (msg_Data m) (set_statedb e s).

(** A state with the gas paid for. *)
Definition charged (m : Message) (s s' : St) : Prop :=
  sound s' /\ world_eq (world_of s') (at_account (msg_From m) (add_balance (- (msg_Gas m * msg_GasPrice m))) (world_of s)) /\
  refund s' = refund s.

Lemma charged_by m pool s s1 : sound s -> quiet s s1 -> 0 <= msg_Gas m -> 0 <= msg_GasPrice m -> preCheck_error (world_of s) m pool = None ->
  charged m s (SubBalance (msg_From m) (msg_Gas m * msg_GasPrice m) s1) /\ msg_Gas m < 2 ^ 64 /\ msg_Gas m <= pool.
Proof using Hok.
  intros Hs Q Hg Hp. unfold preCheck_error. destruct (_ && _); [discriminate|]. destruct (Z.leb_spec (2 ^ 64) (msg_Gas m)); [discriminate|].
  destruct (Z.ltb_spec (v_balance (world_of s (msg_From m))) (msg_Gas m * msg_GasPrice m)) as [|Hb]; [discriminate|].
  destruct (Z.ltb_spec pool (msg_Gas m)); [discriminate|]. intros _. split; [|lia]. destruct Q as (QL & QW & QR).
  destruct (pay_spec (msg_From m) (msg_Gas m * msg_GasPrice m) s1 (quiet_sound _ _ (conj QL (conj QW QR)) Hs)) as (H1 & H2 & H3).
  { rewrite <- (proj1 (QW (msg_From m))). split; [apply Z.mul_nonneg_nonneg; lia|exact Hb]. }
  split; [exact H1|]. split; [|congruence]. intros a. etransitivity; [apply H2|]. apply at_proper; [apply add_balance_proper|].
  intros b. symmetry. apply QW.
Qed.

Lemma charged_quiet m s s1 s2 : charged m s s1 -> quiet s1 s2 -> charged m s s2.
Proof using Hok.
  intros (H1 & H2 & H3) Q. split; [apply (quiet_sound _ _ Q H1)|]. destruct Q as (QL & QW & QR). split; [|congruence].
  intros a. etransitivity; [symmetry; apply QW|apply H2].
Qed.

Lemma TransitionDb_eq e m pool : sound (statedb e) -> 0 <= msg_Gas m -> 0 <= msg_GasPrice m ->
  let run_it := TransitionDb env ops (NewStateTransition e m pool) in
  match preCheck_error (world_of (statedb e)) m pool with
  | Some err => exists s', quiet (statedb e) s' /\ run_it = Done (set_state (NewStateTransition e m pool) s', Err err)
  | None =>
      exists s', charged m (statedb e) s' /\ msg_Gas m < 2 ^ 64 /\ msg_Gas m <= pool /\
        if msg_Gas m <? intrinsic m then exists g, run_it = Done (set_gas (ready e m pool s') g, Err (vm_error ErrOutOfGas))
        else run_it = rbind (execute_message ops (ready e m pool s') (msg_From m) (is_creation m)) (fun '(st, (ret, vmerr)) => Done (settle env st ret vmerr))
  end.
Proof using Hok.
  intros Hs Hg Hp run_it. destruct (preCheck_spec e m pool Hs Hg) as (H1 & s1 & Q1 & H2). unfold run_it, TransitionDb.
  destruct (preCheck (NewStateTransition e m pool)) as [st err]. cbn [fst snd] in *. subst err.
  destruct (preCheck_error (world_of (statedb e)) m pool) as [err|] eqn:Ep; [exists s1; rewrite H2; split; [exact Q1|reflexivity]|].
  destruct (charged_by m pool _ s1 Hs Q1 Hg Hp Ep) as (Hc & Hl & Hpool). set (s2 := SubBalance _ _ s1) in *.
  subst st. unfold from. change (msg (bought e m pool s1)) with m.
  destruct (ensure_quiet (bought e m pool s1) (msg_From m) (proj1 Hc)) as (s3 & E3 & Q3). rewrite E3.
  change (state (bought e m pool s1)) with s2 in Q3. exists s3. split; [apply (charged_quiet m _ s2 s3 Hc Q3)|]. split; [exact Hl|]. split; [exact Hpool|].
  change (msg (set_state (bought e m pool s1) s3)) with m. change (tx_data (set_state (bought e m pool s1) s3)) with (msg_Data m).
  fold (intrinsic m). pose proof (intrinsic_least m) as Hi. unfold TxGas in Hi. pose proof (BitLen_gt_iff (intrinsic m) 64 ltac:(lia)) as Hb. rewrite Z.abs_eq in Hb by lia.
  rewrite Z.gtb_ltb. destruct (Z.ltb_spec 64 (BitLen (intrinsic m))) as [Hx|Hx].
  { destruct (Z.ltb_spec (msg_Gas m) (intrinsic m)); [|lia]. exists (msg_Gas m). reflexivity. }
  unfold useGas. change (gas (set_state (bought e m pool s1) s3)) with (msg_Gas m). unfold Uint64. rewrite Z.abs_eq, u64_small by lia.
  destruct (Z.ltb_spec (msg_Gas m) (intrinsic m)) as [Hy|Hy]; [exists (msg_Gas m); reflexivity|].
  rewrite u64_small by lia. change (set_gas (set_state (bought e m pool s1) s3) (msg_Gas m - intrinsic m)) with (ready e m pool s3).
  reflexivity.
Qed.

Lemma settle_spec (st : Tx) ret vmerr : sound (state st) -> is_u64 (initialGas st) -> 0 <= gas st <= initialGas st -> 0 <= gasPrice st ->
  is_insufficient vmerr = false ->
  let r := Z.min (gasUsed st / 2) (refund (state st)) in
  exists s', settle env st ret vmerr =
      (set_gp (set_gas (set_state st s') (gas st + r)) (gp st + (gas st + r)),
       Ok (mkTxResult ret (gasUsed st) (gasUsed st - r) (match vmerr with Some _ => true | None => false end))) /\
    sound s' /\ 0 <= r <= gasUsed st / 2 /\
    world_eq (world_of s') (at_account (Coinbase (context env)) (add_balance ((gasUsed st - r) * gasPrice st))
      (at_account (msg_From (msg st)) (add_balance ((gas st + r) * gasPrice st)) (world_of (state st)))).
Proof using Hok.
  intros Hs Hi Hg Hp Hv r. destruct (refundGas_spec st Hs Hi Hg Hp) as (s1 & E1 & Hs1 & Hr & W1). fold r in E1, Hr, W1.
  unfold settle. rewrite Hv, E1. set (st1 := set_gp _ _).
  assert (Eu : gasUsed st1 = gasUsed st - r) by (unfold st1, gasUsed; cbn; lia). rewrite Eu.
  assert (Hu : gasUsed st / 2 <= gasUsed st) by (unfold gasUsed; apply Z.div_le_upper_bound; lia).
  destruct (credit_spec (Coinbase (context env)) ((gasUsed st - r) * gasPrice st) s1 Hs1 ltac:(apply Z.mul_nonneg_nonneg; lia)) as (Hs2 & W2 & R2).
  exists (AddBalance (Coinbase (context env)) ((gasUsed st - r) * gasPrice st) s1).
  split; [|split; [exact Hs2|split; [exact Hr|]]].
  - f_equal. f_equal. unfold gasUsed at 2. cbn. unfold gasUsed. f_equal. lia.
  - intros a. etransitivity; [apply W2|]. apply at_proper; [apply add_balance_proper|exact W1].
Qed.

(** A message a client can send. *)
Record message_ok (m : Message) : Prop := {
  msg_gas_ok : 0 <= msg_Gas m;
  msg_price_ok : 0 <= msg_GasPrice m;
  msg_value_ok : 0 <= msg_Value m;
  msg_data_ok : slice_ok (msg_Data m) }.

(** The Ether of the accounts does not grow. *)
Definition no_more_ether (s s' : St) : Prop :=
  exists B, forall A, NoDup A -> incl B A -> supply A (world_of s') <= supply A (world_of s).

Lemma run_spec e m pool s : charged m (statedb e) s -> msg_Gas m < 2 ^ 64 -> intrinsic m <= msg_Gas m -> bytes_ok (returnData e) -> message_ok m ->
  match execute_message ops (ready e m pool s) (msg_From m) (is_creation m) with
  | Done (st, _) => exists e' rest, st = set_gas (set_tx_evm (ready e m pool s) e') rest /\
      levolves s (statedb e') /\ 0 <= rest <= msg_Gas m - intrinsic m
  | Crash p => tolerated p
  | Fuel => Z.of_nat fuel <= msg_Gas m
  end.
Proof using Hok.
  intros (Hs & _) Hl Hi Hr [H1 H2 H3 H4]. pose proof (intrinsic_least m) as Hi0. unfold TxGas in Hi0.
  pose proof (execute_spec (ready e m pool s) (msg_From m) (is_creation m) Hs Hr H4 ltac:(unfold is_u64; cbn; lia) H3) as H.
  destruct (execute_message ops _ _ _) as [[st r]|p|]; [exact H|exact H|cbn in H; lia].
Qed.

(** The end of a message that ran with [rest] gas left in the machine [e']: [c] is the refund. *)
Record settled (e e' : EVM St) (m : Message) (pool rest : Z) (st : Tx) (r : tx_result) : Prop := {
  set_rest : 0 <= rest <= msg_Gas m - intrinsic m;
  set_required : requiredGas r = msg_Gas m - rest;
  set_used : usedGas r = requiredGas r - Z.min (requiredGas r / 2) (refund (statedb e'));
  set_refund_ok : 0 <= refund (statedb e');
  set_pool : gp st = pool - usedGas r;
  set_bought : msg_Gas m <= pool;
  set_sound : sound (state st);
  set_world : world_eq (world_of (state st))
    (at_account (Coinbase (context env)) (add_balance (usedGas r * msg_GasPrice m))
      (at_account (msg_From m) (add_balance ((msg_Gas m - usedGas r) * msg_GasPrice m)) (world_of (statedb e')))) }.

Lemma TransitionDb_settled e m pool st r : sound (statedb e) -> bytes_ok (returnData e) -> message_ok m ->
  TransitionDb env ops (NewStateTransition e m pool) = Done (st, Ok r) ->
  exists s e' rest ret vmerr, charged m (statedb e) s /\ levolves s (statedb e') /\ settled e e' m pool rest st r /\
    execute_message ops (ready e m pool s) (msg_From m) (is_creation m) = Done (set_gas (set_tx_evm (ready e m pool s) e') rest, (ret, vmerr)) /\
    tx_failed r = match vmerr with Some _ => true | None => false end.
Proof using Hok.
  intros Hs Hr Hm H. pose proof Hm as [M1 M2 M3 M4]. pose proof (TransitionDb_eq e m pool Hs M1 M2) as P. cbv zeta in P. rewrite H in P.
  destruct (preCheck_error _ m pool); [destruct P as (s' & _ & P); discriminate|].
  destruct P as (s & Hc & Hl & Hp & P). destruct (Z.ltb_spec (msg_Gas m) (intrinsic m)) as [Hi|Hi]; [destruct P as (g & P); discriminate|].
  pose proof (run_spec e m pool s Hc Hl Hi Hr Hm) as R.
  destruct (execute_message ops _ _ _) as [[st3 [ret vmerr]]|p|] eqn:Ex; [|discriminate..].
  destruct R as (e' & rest & -> & L & Hb). cbn [rbind] in P. injection P as P.
  destruct (is_insufficient vmerr) eqn:Ei; [unfold settle in P; rewrite Ei in P; discriminate|].
  pose proof (levolves_healthy (L := Lt) (V := Vt) _ _ L (proj1 Hc)) as Hs'.
  pose proof (intrinsic_least m) as Hi0. unfold TxGas in Hi0. set (st3 := set_gas (set_tx_evm (ready e m pool s) e') rest) in *.
  destruct (settle_spec st3 ret vmerr Hs' ltac:(unfold is_u64; cbn; lia) ltac:(cbn; lia) M2 Ei) as (s4 & E4 & Hs4 & Hc4 & W4).
  change (gasUsed st3) with (msg_Gas m - rest) in *. change (state st3) with (statedb e') in *. set (c := Z.min _ _) in *.
  rewrite E4 in P. injection P as -> ->. exists s, e', rest, ret, vmerr. split; [exact Hc|]. split; [exact L|]. split; [|split; [exact Ex|reflexivity]].
  split; cbn [requiredGas usedGas]; auto; try lia.
  - change (pool - msg_Gas m + (rest + c) = pool - (msg_Gas m - rest - c)). lia.
  - intros a. etransitivity; [apply W4|]. change (gas st3) with rest. change (gasPrice st3) with (msg_GasPrice m). change (msg st3) with m.
    replace (msg_Gas m - (msg_Gas m - rest - c)) with (rest + c) by lia. reflexivity.
Qed.

(** A state along the run of a message has no more Ether than before the message, but for the gas that was bought. *)
Lemma charged_supply m s0 s s' : charged m s0 s -> levolves s s' ->
  exists B, forall A, NoDup A -> incl B A ->
    In (msg_From m) A -> supply A (world_of s') <= supply A (world_of s0) - msg_Gas m * msg_GasPrice m.
Proof using Hok.
  intros (Hs & W & _) L. destruct (levolves_supply Keccak256 db decodeAccount (mok_sizes _ _ _ _ _ Hok) (mok_root _ _ _ _ _ Hok) _ _ L Hs) as (B & HB).
  exists B. intros A HA Hi Hf. specialize (HB A HA Hi). fold world_of in HB.
  rewrite (supply_eq A _ _ W), supply_at in HB by assumption. cbn [v_balance add_balance] in HB. unfold world_of in *. lia.
Qed.

Lemma settled_supply e e' m pool rest st r s : charged m (statedb e) s -> levolves s (statedb e') -> settled e e' m pool rest st r ->
  no_more_ether (statedb e) (state st).
Proof using Hok.
  intros Hc L D. destruct (charged_supply m _ s _ Hc L) as (B & HB). exists (msg_From m :: Coinbase (context env) :: B).
  intros A HA Hi. assert (Hf : In (msg_From m) A) by (apply Hi; left; reflexivity).
  assert (Hcb : In (Coinbase (context env)) A) by (apply Hi; right; left; reflexivity).
  specialize (HB A HA ltac:(intros x Hx; apply Hi; right; right; exact Hx) Hf).
  rewrite (supply_eq A _ _ (set_world _ _ _ _ _ _ _ D)), !supply_at by assumption. cbn [v_balance add_balance].
  rewrite Z.mul_sub_distr_r. lia.
Qed.

Lemma quiet_supply s s' : quiet s s' -> no_more_ether s s'.
Proof. intros (_ & W & _). exists []. intros A _ _. rewrite (supply_eq A _ _ W). lia. Qed.

(** The errors a message can end with once its gas is bought. *)
Lemma TransitionDb_error e m pool st err : sound (statedb e) -> bytes_ok (returnData e) -> message_ok m ->
  TransitionDb env ops (NewStateTransition e m pool) = Done (st, Err err) ->
  (preCheck_error (world_of (statedb e)) m pool = Some err /\ gp st = pool /\ quiet (statedb e) (state st)) \/
  (preCheck_error (world_of (statedb e)) m pool = None /\ gp st = pool - msg_Gas m /\
   exists s, charged m (statedb e) s /\ levolves s (state st) /\
     ((err = vm_error ErrOutOfGas /\ msg_Gas m < intrinsic m /\ state st = s) \/ err = vm_error ErrInsufficientBalance)).
Proof using Hok.
  intros Hs Hr Hm H. pose proof Hm as [M1 M2 M3 M4]. pose proof (TransitionDb_eq e m pool Hs M1 M2) as P. cbv zeta in P. rewrite H in P.
  destruct (preCheck_error _ m pool) as [err'|]; [left; destruct P as (s' & Q & [= -> ->]); auto|right].
  destruct P as (s & Hc & Hl & Hp & P). split; [reflexivity|]. destruct (Z.ltb_spec (msg_Gas m) (intrinsic m)) as [Hi|Hi].
  - destruct P as (g & [= -> ->]). split; [reflexivity|]. exists s. split; [exact Hc|]. split; [apply lev_refl|]. left. auto.
  - pose proof (run_spec e m pool s Hc Hl Hi Hr Hm) as R.
    destruct (execute_message ops _ _ _) as [[st3 [ret vmerr]]|p|]; [|discriminate..].
    destruct R as (e' & rest & -> & L & _). cbn [rbind] in P. injection P as P. unfold settle in P.
    destruct (is_insufficient vmerr); [|discriminate]. injection P as -> ->. split; [reflexivity|]. exists s. auto.
Qed.

Lemma SetNonce_spec a n s : sound s -> world_eq (world_of (SetNonce a n s)) (at_account a (set_nonce n) (world_of s)) /\
  refund (SetNonce a n s) = refund s /\ sound (SetNonce a n s).
Proof using Hok.
  intros Hs. pose proof (proj1 (proj1 Hs)) as W.
  split; [apply (SetNonce_view Keccak256 db decodeAccount (mok_root _ _ _ _ _ Hok) a n s W)|].
  split; [apply (eq_refund _ _ _ _ _ (SetNonce_eq Keccak256 db decodeAccount a n s W))|].
  exact (lstep_healthy (L := Lt) (V := Vt) _ _ (l_SetNonce a n s) Hs).
Qed.

(** A call that fails leaves the increased nonce. *)
Lemma execute_failed (st st' : Tx) sender to ret er : sound (state st) -> readOnly (tx_evm st) = false -> msg_To (msg st) = Some to ->
  execute_message ops st sender false = Done (st', (ret, Some er)) ->
  let n := u64 (v_nonce (world_of (state st) sender) + 1) in
  world_eq (world_of (state st')) (at_account sender (set_nonce n) (world_of (state st))) /\ refund (state st') = refund (state st).
Proof using Hok.
  intros Hs Hro Ht. unfold execute_message.
  destruct (quiet_ask st (GetNonce sender) ltac:(constructor) Hs) as (s1 & E1 & Q1). rewrite E1. change (snd (GetNonce sender (state st))) with (v_nonce (world_of (state st) sender)).
  set (n := u64 _). destruct (SetNonce_spec sender n s1 (quiet_sound _ _ Q1 Hs)) as (W2 & R2 & Hs2).
  set (st2 := on_state (set_state st s1) (SetNonce sender n)). unfold to_. change (msg st2) with (msg st). rewrite Ht.
  destruct (ensure_quiet st2 to Hs2) as (s3 & E3 & Q3). rewrite E3. change (state st2) with (SetNonce sender n s1) in Q3.
  set (e3 := tx_evm (set_state st2 s3)). set (x := c_Call ops _ _ _ _ _ _). destruct x as [[e [[o rest] err]]|p|] eqn:Hx; [|discriminate..].
  cbn [rbind]. intros [= <- <- ->].
  pose proof (machine_Call Keccak256 Ecrecover ripemd160 db decodeAccount env fuel (mok_context _ _ _ _ _ Hok) false _ _ _ _ _ e3 e _
    (not_ro env e3 Hro) ltac:(discriminate) Hx) as P.
  destruct (call_post_same (L := Lt) false e3 e er P (proj1 (quiet_sound _ _ Q3 Hs2))) as [Es _].
  change (statedb e3) with s3 in Es. destruct Q1 as (_ & QW1 & QR1). destruct Q3 as (_ & QW3 & QR3).
  change (state (set_gas (set_tx_evm (set_state st2 s3) e) rest)) with (statedb e). split.
  - intros a. etransitivity; [symmetry; apply (eq_view Keccak256 db decodeAccount _ _ Es)|]. etransitivity; [symmetry; apply QW3|].
    etransitivity; [apply W2|]. apply at_proper; [|intros b; symmetry; apply QW1]. intros x' y (A & B & C & D & F). repeat split; auto.
  - rewrite <- (eq_refund _ _ _ _ _ Es). congruence.
Qed.

End steps.

(** A message to an account whose run fails costs its gas and nothing else: the sender pays for the gas used, the miner
    gets it, the nonce of the sender is one more, and every other balance, nonce, code and storage is as before. *)
Theorem failed_message_costs_gas e m to pool st r :
  machine -> sound (statedb e) -> bytes_ok (returnData e) -> message_ok m -> readOnly e = false -> refund (statedb e) = 0 -> msg_To m = Some to ->
  TransitionDb env ops (NewStateTransition e m pool) = Done (st, Ok r) -> tx_failed r = true ->
  let paid := usedGas r * msg_GasPrice m in
  let n := u64 (v_nonce (world_of (statedb e) (msg_From m)) + 1) in
  usedGas r = requiredGas r /\
  world_eq (world_of (state st))
    (at_account (Coinbase (context env)) (add_balance paid)
      (at_account (msg_From m) (fun x => set_nonce n (add_balance (- paid) x)) (world_of (statedb e)))).
Proof.
  intros Hok Hs Hr Hm Hro Hz Ht H Hf paid n.
  destruct (TransitionDb_settled Hok e m pool st r Hs Hr Hm H) as (s & e' & rest & ret & vmerr & Hc & L & D & Hx & Ef).
  rewrite Ht in Hx. rewrite Hf in Ef. destruct vmerr as [er|]; [|discriminate]. destruct Hc as (Hs1 & W1 & R1).
  destruct (execute_failed Hok (ready e m pool s) _ _ to _ er Hs1 Hro Ht Hx) as (W2 & R2).
  change (state (set_gas (set_tx_evm (ready e m pool s) e') rest)) with (statedb e') in *. change (state (ready e m pool s)) with s in *.
  assert (En : v_nonce (world_of s (msg_From m)) = v_nonce (world_of (statedb e) (msg_From m))).
  { destruct (W1 (msg_From m)) as (_ & B & _). rewrite B, at_value. reflexivity. }
  rewrite En in W2. fold n in W2. destruct D as [D1 D2 D3 D4 D5 D6 D7 D8].
  pose proof (intrinsic_least m) as Hi. unfold TxGas in Hi. pose proof (msg_gas_ok m Hm).
  assert (0 <= requiredGas r / 2) by (apply Z.div_pos; lia).
  assert (Eu : usedGas r = requiredGas r) by lia. split; [exact Eu|].
  intros a. etransitivity; [apply D8|]. apply at_proper; [apply add_balance_proper|]. intros b.
  etransitivity; [apply at_proper; [apply add_balance_proper|exact W2]|].
  unfold at_account at 1 2 3. destruct (Z.eqb_spec (msg_From m) b) as [<-|N].
  - destruct (W1 (msg_From m)) as (A & B & C & F & G). rewrite at_value in A, B, C, F, G.
    repeat split; cbn [add_balance set_nonce v_balance v_nonce v_code v_storage v_suicided] in *; auto. rewrite A. unfold paid. lia.
  - etransitivity; [apply W1|]. unfold at_account. destruct (Z.eqb_spec (msg_From m) b); [contradiction|reflexivity].
Qed.




(** C33: A message always comes back: with fuel of one more than its gas, [ApplyMessage] returns a result or an error, or
    panics in one of the three places of [evm_no_other_panic]. *)
Theorem message_returns e m pool :
  machine -> sound (statedb e) -> bytes_ok (returnData e) -> message_ok m -> msg_Gas m < Z.of_nat fuel ->
  no_other_panic (ApplyMessage env ops e m pool).
Proof.
  intros Hok Hs Hr Hm Hf. pose proof Hm as [M1 M2 M3 M4]. unfold ApplyMessage. pose proof (TransitionDb_eq Hok e m pool Hs M1 M2) as P. cbv zeta in P.
  destruct (preCheck_error _ m pool); [destruct P as (s' & _ & ->); exact I|]. destruct P as (s & Hc & Hl & Hp & P).
  destruct (Z.ltb_spec (msg_Gas m) (intrinsic m)) as [Hi|Hi]; [destruct P as (g & ->); exact I|]. rewrite P.
  pose proof (run_spec Hok e m pool s Hc Hl Hi Hr Hm) as R.
  destruct (execute_message ops _ _ _) as [[st3 [ret vmerr]]|p|]; cbn [rbind]; [|exact R|lia].
  destruct (settle env st3 ret vmerr). exact I.
Qed.
End transition.

(** ** The example: account 1 sends 7 wei to a contract *)

Module SampleMessage.
Definition rich (code : list Z) : Sample.sample_state := AddBalance 1 1000000 (Sample.state_with code).
Definition rich_evm (code : list Z) : EVM Sample.sample_state := mkEVM (rich code) 0 false [] [] 0.
Definition message (gas : Z) : Message := mkMessage 1 (Some 100) 2 gas 7 0 true [1; 0].
Definition apply (code : list Z) (gas pool : Z) : run (StateTransition Sample.sample_state * result tx_result txErr) :=
  TransitionDb Sample.sample_env (sample_calls 20) (NewStateTransition (rich_evm code) (message gas) pool).
Definition world_of : Sample.sample_state -> world := view Sample.hash Sample.no_database (fun _ => None).
End SampleMessage.

Lemma rich_sound code : slice_ok code -> sound Sample.hash Sample.no_database (fun _ => None) (SampleMessage.rich code).
Proof.
  intros Hc. apply (credit_spec Sample.hash Sample.no_ripemd Sample.no_database (fun _ => None) Sample.sample_env sample_machine 1 1000000 _ (sample_sound code Hc)).
  discriminate.
Qed.

Lemma sample_message gas : 0 <= gas -> message_ok (SampleMessage.message gas).
Proof. intros H. split; [exact H|discriminate|discriminate|]. split; [repeat constructor; discriminate|reflexivity]. Qed.

Lemma failing_code_ok : slice_ok Sample.failing_code.
Proof. split; [repeat constructor; discriminate|reflexivity]. Qed.




Lemma message_returns_witness :
  no_other_panic (ApplyMessage Sample.sample_env (machine_calls Sample.hash Sample.no_recover Sample.no_ripemd Sample.sample_env (Z.to_nat 100001))
    (SampleMessage.rich_evm Sample.add_code) (SampleMessage.message 100000) 500000).
Proof.
  assert (H : 100000 < Z.of_nat (Z.to_nat 100001)) by (rewrite Z2Nat.id; lia).
  exact (message_returns Sample.hash Sample.no_recover Sample.no_ripemd Sample.no_database (fun _ => None) Sample.sample_env (Z.to_nat 100001)
    (SampleMessage.rich_evm Sample.add_code) (SampleMessage.message 100000) 500000 sample_machine (rich_sound _ add_code_ok)
    bytes_ok_nil (sample_message 100000 ltac:(discriminate)) H).
Defined.

(** The code stores a word and fails, using up the gas. *)
Lemma failed_message_costs_gas_witness :
  match SampleMessage.apply Sample.failing_code 100000 500000 with
  | Done (st, Ok r) => usedGas r = 100000 /\
      world_eq (SampleMessage.world_of (state st))
        (at_account 2 (add_balance 200000) (at_account 1 (fun x => set_nonce 1 (add_balance (-200000) x)) (SampleMessage.world_of (SampleMessage.rich Sample.failing_code))))
  | _ => False
  end.
Proof.
  destruct (SampleMessage.apply Sample.failing_code 100000 500000) as [[st [r|err]]|p|] eqn:H; [|vm_compute in H; discriminate H..].
  assert (Er : usedGas r = 100000 /\ tx_failed r = true) by (vm_compute in H; injection H as <- <-; split; reflexivity).
  pose proof (failed_message_costs_gas Sample.hash Sample.no_recover Sample.no_ripemd Sample.no_database (fun _ => None) Sample.sample_env 20
    (SampleMessage.rich_evm Sample.failing_code) (SampleMessage.message 100000) 100 500000 st r sample_machine (rich_sound _ failing_code_ok)
    bytes_ok_nil (sample_message 100000 ltac:(discriminate)) eq_refl eq_refl eq_refl H (proj2 Er)) as P.
  cbv zeta in P. rewrite (proj1 Er) in P. split; [exact (proj1 Er)|exact (proj2 P)].
Defined.
